(* ===== verification/_CoqProject ===== *)
-Q . S2P
Prelude.v
Bytes.v
Alist.v
Lmb.v
Membuff.v
Crc.v
AndroidAb.v
Bloblist.v
Sort.v
ListSort.v
Hashtable.v
HashAcl.v
HashEnv.v
EnvAttr.v
EnvAccess.v
EnvStore.v
Charset.v
Rtc.v
Blkcache.v
MallocSimple.v
Memsize.v
Memtop.v
Cli.v
PartDos.v
Strto.v
Printf.v
Uuid.v
Vsprintf.v
NetUtils.v
EnvNum.v
Gpt.v
GptTable.v
GptLayout.v
EfiMemory.v
EfiMap.v
EfiPages.v
Digest.v
Sha256.v
Defrag.v
Reassembly.v
Tftp.v
TftpTransfer.v
