(* ===== verification/Prelude.v ===== *)
(** * Verification of U-Boot core libraries

    This library models parts of U-Boot (a boot loader in C) as executable
    functions and proves what makes them correct.  Paths below are relative to
    src/.

    ** The program's parts and how they are modelled

    U-Boot starts on bare hardware, reads its environment variables, finds
    memory and a boot slot, and starts an operating system.  The modelled parts
    are libraries the rest is built on:

    - Prelude.v (this file), Bytes.v: machine integers as [Z] with their
      wrap-around, errno values, byte buffers with little- and big-endian fields, shared
      tactics ([cmp1], [branch], [nowrap]) and lemmas.
    - Alist.v (Module Alist; lib/alist.c, include/alist.h): the growing array.
      The allocation is a list of slots; malloc succeeds or not by a parameter.
    - Lmb.v (Module Lmb; lib/lmb.c, include/lmb.h): the map of available and
      reserved memory, over the alist; every operation, the IOVA maps and
      board start-up.  The EFI notifier and the device tree pass are parameters.
      The theorems hold for sorted disjoint lists; [lost] is the arrangement of
      touching regions in which the code records nothing.
    - Membuff.v (Modules Membuff, Circbuf; lib/membuff.c, lib/circbuf.c): two
      ring buffers over a byte block, pointers as offsets.
    - Crc.v (Module Crc; lib/crc32.c, crc32c.c, crc16.c, crc16-ccitt.c, crc7.c,
      crc8.c, tables_csum.c): checksums, with the literal tables of the code.
    - AndroidAb.v (Module AndroidAb; boot/android_ab.c): A/B slot selection.
      The block device is a class [BlkDev] with laws; a RAM disk is an instance.
      Transfers may be short, as include/blk.h allows; theorems that need
      complete or reported writes say so ([whole_writes]).
    - Bloblist.v (Module Bloblist; common/bloblist.c, arch/arm/lib/xferlist.c):
      the list of blobs handed from one boot stage to the next, in a byte
      memory with its checksum.
    - Sort.v (Module Sort; lib/qsort.c): the Shell sort.  ListSort.v
      (lib/list_sort.c): the merge sort of linked lists.
    - Hashtable.v, HashAcl.v, HashEnv.v (lib/hashtable.c, include/search.h):
      the hash table that holds the environment.  Hashtable.v has every
      operation ([hcreate_r], [hsearch_r], [hdelete_r], [hmatch_r], [hwalk_r],
      [hexport_r], [himport_r]) and the invariant of the double hashing;
      HashAcl.v the refinement of an access-controlled map, HashEnv.v the text
      form.  The access check, callbacks and memory are the record [hooks],
      regular expressions a parameter.  A callback gets the table and may change
      it; [effects] describes what it does to the map, and the class [Sane] says
      that it does that and leaves the variables where they are.
    - EnvAttr.v (env/attr.c, env/flags.c, env/callback.c): attribute lists, the
      types and access flags of variables, their callbacks; [env_hooks] plugs
      them into the table, with [on_flags] and [on_callbacks], which rewrite
      its entries.  EnvAccess.v has the theorems about the combination, for
      environments in which the variables with these two callbacks are
      read-only ([locked]), and shows what happens in others.
    - EnvStore.v (env/common.c): reading and setting variables, defaults, the
      stored form with its CRC, and the choice between two redundant copies.
    - Charset.v (lib/charset.c, include/cp437.h): conversion between UTF-8,
      UTF-16, code points and code page 437, whole strings and byte streams.
      The four string functions are shown to be instances of one pair of loops.
    - Rtc.v (lib/rtc-lib.c, lib/date.c): seconds to Gregorian dates and back.
    - Blkcache.v (drivers/block/blkcache.c, drivers/block/blk-uclass.c): the
      block cache and the requests that go through it.  Drivers are behind the
      class [blk_driver], whose laws are what they promise; a disk in memory
      is an instance.
    - PartDos.v (disk/part_dos.c): master and extended boot records, reading,
      laying out and writing them on a device of the class [SectorDev].
    - MallocSimple.v (common/malloc_simple.c): the heap before relocation.
    - Cli.v (common/cli_simple.c): macro expansion, arguments and sequences of
      commands; the environment and the commands are parameters.
    - Strto.v (lib/strto.c, lib/ctype.c): numbers and lists in strings.
    - Printf.v, Vsprintf.v (lib/vsprintf.c): the formatter; Printf.v has the
      conversions of numbers, strings and addresses, Vsprintf.v the parsing of
      formats and the entry points.  An argument is a value of the type [arg];
      a call has a result, is undefined for want of an argument or is out of
      fuel ([run]).
    - Uuid.v (lib/uuid.c, lib/rand.c): UUIDs as text, random and name-based.
    - NetUtils.v (lib/net_utils.c): addresses as text, the IP checksum.
    - EnvNum.v (env/common.c, lib/uuid.c): numbers and addresses in variables.
    - Gpt.v, GptTable.v, GptLayout.v (disk/part_efi.c, include/part_efi.h): GUID
      partition tables.  Gpt.v has the operations on a device of a class with
      laws, GptTable.v the checks of one copy, GptLayout.v the theorems about
      writing, repairing and interrupted updates.
    - EfiMemory.v, EfiMap.v, EfiPages.v (lib/efi_loader/efi_memory.c): the EFI
      memory map.  EfiMemory.v has the operations on the list of descriptors,
      EfiMap.v reads it as a relation between addresses and types, EfiPages.v
      has page and pool allocation, which act on the map and on the memory
      blocks of Lmb.v together.
    - Memsize.v (common/memsize.c): probing for the size of memory; the wiring
      of addresses to cells is a parameter.
    - Memtop.v (common/memtop.c): the highest free place in memory that the
      reservations of the device tree leave.
    - Digest.v, Sha256.v (lib/sha256.c, lib/sha256_common.c): SHA-256 and its
      keyed form.  Digest.v has the theory of hashing a message in pieces,
      Sha256.v the code, and the standard in its Module Fips.
    - Defrag.v, Reassembly.v (net/net.c): the reassembly of IP datagrams.
      Defrag.v has the operations on the packet buffer, whose holes carry their
      own linked list, and the theory of that list; Reassembly.v has the
      theorems about datagrams.
    - Tftp.v, TftpTransfer.v (net/tftp.c): the TFTP client.  Tftp.v has the
      handlers of packets and timeouts over the variables of the file, with
      memory as a function and sent packets as a list; what it asks of the memory
      blocks is the class [LoadCheck], which Lmb.v answers.  TftpTransfer.v has
      the theorems about whole transfers.

    ** What the theorems show

    - Refinement: the environment table, with any access check and with
      callbacks that change flags and callbacks of entries, is a bounded map
      ([table_refines_map]); the ring buffer is a bounded
      queue ([membuff_refines_queue]); adding to the EFI map overrides a
      relation on exactly the given pages ([efi_add_pages_exact]).
    - Functional behaviour: allocation takes the highest fitting address and
      fails only if there is none or a list cannot grow ([lmb_alloc_base_highest]), and so does the
      search before relocation ([get_mem_top_highest]); probing finds the size of
      memory and restores it ([get_ram_size_detects]); freeing and
      reserving change exactly the given range, but for [lost]; the best slot
      with tries left is selected; adding to a bloblist keeps the other blobs; setting a variable
      changes that variable only; sorting gives a sorted permutation, for lists
      a stable one ([list_sort_stable]); formatted text is cut at the buffer
      size ([vsnprintf_truncates]); a damaged partition table is repaired from
      its other copy ([gpt_repair_restores]); text is
      converted code point by code point; fragments of a datagram give it back in
      any order after the first ([reassembly_complete]); a file arrives whole over
      TFTP and an image is sent whole ([tftp_get_loads], [tftp_put_sends]), for
      blocks of up to 32768 bytes and files below 4 GiB; a command line is expanded, cut and
      run as its parts say ([process_macros_expands], [run_command_sequence]).
    - Safety and invariants: in a locked environment read-only variables survive
      every sequence of unforced changes and imports ([env_readonly_kept]) and
      typed variables keep values of their type ([env_values_typed]), saving to redundant storage is
      atomic ([env_redund_atomic]), region lists stay sorted and disjoint, a
      cached read gives what the medium holds ([blk_reads_coherent]), early
      allocations are disjoint ([malloc_simple_disjoint]), an interrupted update
      of a partition table leaves the old or the new one ([gpt_update_atomic]),
      the formatter stores in its buffer only ([vsnprintf_bounded]), the EFI
      loader hands out only free pages ([efi_allocate_pages_safe]) and reports
      disjoint areas in order ([efi_memory_map_ascending]), overlapping fragments
      do not lead outside the packet buffer ([reassembly_sound]).
    - Round trips: export and import, save and load (of the variables that the
      access check and callbacks let in), finish and check, times
      and dates, writing and finding partitions ([mbr_partitions_roundtrip],
      [gpt_restore_reads_back]), UUIDs and text ([uuid_roundtrip]), numbers in
      variables, pool memory and its header ([efi_pool_roundtrip]).
    - Equivalence: table-driven checksums equal the bit-serial division, the
      number printer a reference formatter ([number_formats]), the folded IP
      checksum the one's complement sum ([ip_checksum_composes]), the unrolled
      digest, in any pieces, SHA-256 as FIPS 180-4 defines it
      ([sha256_matches_fips]) and its keyed form HMAC ([sha256_hmac_rfc2104]).
    - Termination and liveness: loops end within the fuel given, where the
      definition tells a loop out of fuel from its result ([qsort_sorts],
      [vsnprintf_bounded]); boot attempts of slots that never succeed are bounded
      where writes are complete ([ab_attempts_bounded]).
    - Errors and defects: some theorems state behaviour of the code that its
      comments or callers do not expect (a limit below the size in the
      allocator, an over-aligned blob, backslashes in an exported environment,
      a CRLF text without a final line end, the last table slot, long defaults
      of change-default variables, overlong zeros and broken-off sequences in
      UTF-8, surrogates at the end of their range, an argument list that is not
      ended, a long variable name in a macro, a boot record linked to itself, a
      reservation that is reported and not recorded ([lmb_reserve_lost]), a
      pool size that wraps, a refused request that loses pages of the EFI map, a
      first word of memory that is not put back, more reservations than an array
      holds, four ways in which reassembly of hostile or merely reordered
      fragments goes wrong, five in which a TFTP transfer does, a change of
      the list of flags that takes the protection from a variable or leaves one
      ill-typed, a short write that is taken for success, a weekday that
      overflows).

    ** Conventions, bounds and fuel

    A function that can fail returns a code or an option as the C code does;
    [None] from a definition with fuel means that the loop did not end within
    it.  The fuel is always computed from the data and theorems about results
    also prove that it is enough: a probe sequence visits at most [size] slots,
    parsing consumes a byte per round, the trial divisions of [isprime] stop
    below 46343 for 31-bit sizes; only [hcreate_r] takes fuel as an argument,
    and [hcreate_prime] bounds it by the distance to any prime.  Strings are
    lists of bytes without the terminator and [char] is unsigned, as on ARM.

    ** Not modelled

    Printing, and everything that acts on hardware: architecture and board
    code, drivers and the driver model.  Imported code (zlib, lzma, libfdt,
    slre, hush, dlmalloc) appears only as parameters.  File systems, other
    partition tables than DOS and GPT, the network stack other than reassembly
    and TFTP, the EFI services on
    top of the memory map and image formats are not modelled yet.  Of
    common/cli_simple.c the endless loop that reads the console, of
    drivers/block/blk-uclass.c the finding and creating of devices, of
    env/common.c completion, relocation and the device tree import, of
    lib/net_utils.c IPv6 addresses are left out, of env/flags.c what only host
    tools use. *)

From stdpp Require Export base list numbers option strings.
From Stdlib Require Export ZArith Lia.

Global Set Default Goal Selector "!".

Declare Scope uboot_scope.
Delimit Scope uboot_scope with ub.
Global Open Scope Z_scope.

(** ** Machine integers: C's fixed-width types as [Z] with the wrap-around
    written out.  The moduli are literals so that [lia] sees constants. *)
Definition u8 (x : Z) : Z := x mod 256.
Definition u16 (x : Z) : Z := x mod 65536.
Definition u32 (x : Z) : Z := x mod 4294967296.
Definition u64 (x : Z) : Z := x mod 18446744073709551616.

Global Arguments u8 : simpl never.
Global Arguments u16 : simpl never.
Global Arguments u32 : simpl never.
Global Arguments u64 : simpl never.

(** Conversion to [int] (two's complement, as every supported compiler does). *)
Definition s32 (x : Z) : Z :=
  let y := u32 x in if y <? 2147483648 then y else y - 4294967296.

(** [char] and [int8_t] where they are signed. *)
Definition s8 (x : Z) : Z :=
  let y := u8 x in if y <? 128 then y else y - 256.

Definition is_u8 (x : Z) : Prop := 0 <= x < 256.
Definition is_u16 (x : Z) : Prop := 0 <= x < 65536.
Definition is_u32 (x : Z) : Prop := 0 <= x < 4294967296.
Definition is_u64 (x : Z) : Prop := 0 <= x < 18446744073709551616.

(** A C truth value. *)
Definition b2z (b : bool) : Z := if b then 1 else 0.

Notation "x '+64' y" := (u64 (x + y)) (at level 50, left associativity) : uboot_scope.
Notation "x '-64' y" := (u64 (x - y)) (at level 50, left associativity) : uboot_scope.
Notation "x '+32' y" := (u32 (x + y)) (at level 50, left associativity) : uboot_scope.
Notation "x '-32' y" := (u32 (x - y)) (at level 50, left associativity) : uboot_scope.

(** ** errno values used by the modelled code. *)
Definition EPERM : Z := 1.
Definition ENOENT : Z := 2.
Definition ESRCH : Z := 3.
Definition EIO : Z := 5.
Definition E2BIG : Z := 7.
Definition ENOMEM : Z := 12.
Definition EFAULT : Z := 14.
Definition EEXIST : Z := 17.
Definition EINVAL : Z := 22.
Definition EFBIG : Z := 27.
Definition ENOSPC : Z := 28.
Definition ESPIPE : Z := 29.
Definition ENOMSG : Z := 42.
Definition ENODATA : Z := 61.
Definition EPROTONOSUPPORT : Z := 93.

(** ** Tactics *)

(** Case analysis on the boolean integer comparisons the code branches on. *)
Ltac cmp_cases :=
  repeat match goal with
  | |- context [?a =? ?b] => destruct (Z.eqb_spec a b)
  | |- context [?a <? ?b] => destruct (Z.ltb_spec a b)
  | |- context [?a <=? ?b] => destruct (Z.leb_spec a b)
  | H : context [?a =? ?b] |- _ => destruct (Z.eqb_spec a b)
  | H : context [?a <? ?b] |- _ => destruct (Z.ltb_spec a b)
  | H : context [?a <=? ?b] |- _ => destruct (Z.leb_spec a b)
  end.

(** One comparison of the goal at a time. *)
Ltac cmp1 :=
  match goal with
  | |- context [?a =? ?b] => destruct (Z.eqb_spec a b)
  | |- context [?a <? ?b] => destruct (Z.ltb_spec a b)
  | |- context [?a <=? ?b] => destruct (Z.leb_spec a b)
  end.

(** Decide the next comparison of the goal by arithmetic. *)
Ltac branch :=
  match goal with
  | |- context [?a =? ?b] => first [rewrite (proj2 (Z.eqb_neq a b)) by lia
                                   |rewrite (proj2 (Z.eqb_eq a b)) by lia]
  | |- context [?a <? ?b] => first [rewrite (proj2 (Z.ltb_ge a b)) by lia
                                   |rewrite (proj2 (Z.ltb_lt a b)) by lia]
  | |- context [?a <=? ?b] => first [rewrite (proj2 (Z.leb_gt a b)) by lia
                                    |rewrite (proj2 (Z.leb_le a b)) by lia]
  end; simpl orb; simpl andb; cbv iota.

Ltac unfold_widths := unfold u8, u16, u32, u64, is_u8, is_u16, is_u32, is_u64 in *.

(** Linear arithmetic with wrap-around: the moduli become Euclidean equations. *)
Ltac mlia := unfold_widths; Z.to_euclidean_division_equations; lia.

(** Equations between exclusive-ors, bit by bit. *)
Ltac xor_bits :=
  let n := fresh "n" in let Hn := fresh "Hn" in
  apply Z.bits_inj'; intros n Hn; rewrite ?Z.lxor_spec, ?Z.bits_0;
  repeat match goal with |- context [Z.testbit ?a ?b] => destruct (Z.testbit a b) end;
  reflexivity.

(** ** Wrap-around lemmas *)
Lemma u8_small x : 0 <= x < 256 -> u8 x = x.
Proof. apply Z.mod_small. Qed.

Lemma u16_small x : 0 <= x < 65536 -> u16 x = x.
Proof. apply Z.mod_small. Qed.

Lemma u32_small x : 0 <= x < 4294967296 -> u32 x = x.
Proof. apply Z.mod_small. Qed.

Lemma u64_small x : 0 <= x < 18446744073709551616 -> u64 x = x.
Proof. apply Z.mod_small. Qed.

Lemma u8_range x : 0 <= u8 x < 256.
Proof. apply Z.mod_pos_bound. lia. Qed.

Lemma u16_range x : 0 <= u16 x < 65536.
Proof. apply Z.mod_pos_bound. lia. Qed.

Lemma u32_range x : 0 <= u32 x < 4294967296.
Proof. apply Z.mod_pos_bound. lia. Qed.

Lemma u64_range x : 0 <= u64 x < 18446744073709551616.
Proof. apply Z.mod_pos_bound. lia. Qed.

Lemma s32_small x : 0 <= x < 2147483648 -> s32 x = x.
Proof. intros. unfold s32. rewrite u32_small by lia. cmp1; lia. Qed.

Lemma u32_s32 x : u32 (s32 x) = u32 x.
Proof.
  unfold s32. pose proof (u32_range x). cmp1; [by rewrite u32_small by lia|].
  unfold u32. rewrite Zminus_mod, Z_mod_same_full, Z.sub_0_r, !Zmod_mod. done.
Qed.

(** Rounding down to a multiple gives the largest multiple not above. *)
Lemma align_floor_max P d x : 0 < P -> d mod P = 0 -> d <= x -> d <= x - x mod P.
Proof.
  intros HP Hd Hx. pose proof (Z.div_mod x P ltac:(lia)). pose proof (Z.div_mod d P ltac:(lia)).
  assert (d / P <= x / P) by (apply Z.div_le_mono; lia). nia.
Qed.

Lemma align_floor_mod P x : 0 < P -> (x - x mod P) mod P = 0.
Proof. intros. rewrite Zminus_mod_idemp_r, Z.sub_diag. done. Qed.

(** ** Lists *)
Lemma drop_tail {A} (l : list A) k c q : drop k l = c :: q -> drop (S k) l = q.
Proof.
  revert l. induction k as [|k IH]; intros [|x l]; simpl; try done; [|by apply IH].
  intros [= _ ->]. by rewrite drop_0.
Qed.

Lemma nth_of_lookup {A} (l : list A) i x d : l !! i = Some x -> nth i l d = x.
Proof. revert i. induction l as [|y l IH]; intros [|i]; simpl; try done; [congruence|apply IH]. Qed.

Create HintDb uboot.
#[export] Hint Resolve u8_range u16_range u32_range u64_range : uboot.

(** Remove the wrap-arounds that [lia] can show not to happen. *)
Ltac nowrap :=
  repeat match goal with
  | |- context [u64 ?x] => rewrite (u64_small x) by lia
  | |- context [u32 ?x] => rewrite (u32_small x) by lia
  | |- context [u16 ?x] => rewrite (u16_small x) by lia
  | |- context [u8 ?x] => rewrite (u8_small x) by lia
  end.

Ltac nowrap_in H :=
  repeat match type of H with
  | context [u64 ?x] => rewrite (u64_small x) in H by lia
  | context [u32 ?x] => rewrite (u32_small x) in H by lia
  | context [u16 ?x] => rewrite (u16_small x) in H by lia
  | context [u8 ?x] => rewrite (u8_small x) in H by lia
  end.
