(* ===== verification/Bytes.v ===== *)
(** * Bytes in memory and on disk

    Buffers are lists of byte values.  Slices, block copies, little-endian
    fields and the C bit-fields the structures of the program are made of, with
    the laws the components use. *)

From S2P Require Import Prelude.

(** ** Slices and block copies *)
Definition sub (l : list Z) (i n : Z) : list Z := take (Z.to_nat n) (drop (Z.to_nat i) l).
Definition write_at (l : list Z) (i : Z) (bs : list Z) : list Z :=
  list_inserts (Z.to_nat i) bs l.
Definition byteat (l : list Z) (i : Z) : Z := nth (Z.to_nat i) l 0.

(** Little-endian integers of [n] bytes. *)
Fixpoint le_bytes (n : nat) (x : Z) : list Z :=
  match n with O => [] | S k => x mod 256 :: le_bytes k (x / 256) end.
Fixpoint le_val (bs : list Z) : Z :=
  match bs with [] => 0 | b :: r => b + 256 * le_val r end.

(** Big-endian ones. *)
Definition be_bytes (n : nat) (x : Z) : list Z := rev (le_bytes n x).
Definition be_val (bs : list Z) : Z := le_val (rev bs).

Definition get_le (n : nat) (l : list Z) (off : Z) : Z := le_val (sub l off (Z.of_nat n)).
Definition put_le (n : nat) (l : list Z) (off x : Z) : list Z := write_at l off (le_bytes n x).

(** A bit-field of [len] bits at bit [pos] of a byte. *)
Definition bf_get (b pos len : Z) : Z := Z.land (Z.shiftr b pos) (Z.ones len).
Definition bf_set (b pos len v : Z) : Z :=
  Z.lor (Z.ldiff b (Z.shiftl (Z.ones len) pos)) (Z.shiftl (Z.land v (Z.ones len)) pos).

(** ** Laws *)
Lemma sub_lookup l i n j : 0 <= i ->
  sub l i n !! j = if decide (Z.of_nat j < n) then l !! (Z.to_nat i + j)%nat else None.
Proof.
  intros Hi. unfold sub. case_decide.
  - rewrite lookup_take_lt by lia. apply lookup_drop.
  - apply lookup_take_ge. lia.
Qed.

Lemma length_sub l i n : 0 <= i -> 0 <= n -> i + n <= Z.of_nat (length l) ->
  Z.of_nat (length (sub l i n)) = n.
Proof. intros. unfold sub. rewrite length_take, length_drop. lia. Qed.

Lemma length_write_at l i bs : length (write_at l i bs) = length l.
Proof. apply length_inserts. Qed.

Lemma write_at_lookup l i bs j : 0 <= i -> i + Z.of_nat (length bs) <= Z.of_nat (length l) ->
  write_at l i bs !! j =
    if decide (i <= Z.of_nat j < i + Z.of_nat (length bs)) then bs !! (j - Z.to_nat i)%nat
    else l !! j.
Proof.
  intros Hi Hl. unfold write_at. case_decide.
  - rewrite list_lookup_inserts by lia. done.
  - destruct (Z_lt_le_dec (Z.of_nat j) i).
    + rewrite list_lookup_inserts_lt by lia. done.
    + rewrite list_lookup_inserts_ge by lia. done.
Qed.

Lemma byteat_lookup l i : byteat l i = default 0 (l !! Z.to_nat i).
Proof. unfold byteat. by rewrite nth_lookup. Qed.

Lemma byteat_write_at l i bs j : 0 <= i -> i + Z.of_nat (length bs) <= Z.of_nat (length l) ->
  0 <= j ->
  byteat (write_at l i bs) j =
    if decide (i <= j < i + Z.of_nat (length bs)) then byteat bs (j - i) else byteat l j.
Proof.
  intros Hi Hl Hj. rewrite !byteat_lookup, write_at_lookup by done.
  repeat case_decide; try lia; try done. do 2 f_equal. lia.
Qed.

(** A slice inside a freshly written block, and one outside it. *)
Lemma sub_write_at_in l i bs k n : 0 <= i -> i + Z.of_nat (length bs) <= Z.of_nat (length l) ->
  i <= k -> k + n <= i + Z.of_nat (length bs) ->
  sub (write_at l i bs) k n = sub bs (k - i) n.
Proof.
  intros Hi Hl Hk Hn. apply list_eq. intros j.
  rewrite !sub_lookup by lia. case_decide; [|done].
  rewrite write_at_lookup by done. rewrite decide_True by lia. f_equal. lia.
Qed.

Lemma sub_write_at_same l i bs : 0 <= i -> i + Z.of_nat (length bs) <= Z.of_nat (length l) ->
  sub (write_at l i bs) i (Z.of_nat (length bs)) = bs.
Proof.
  intros Hi Hl. rewrite sub_write_at_in by lia. unfold sub. rewrite Z.sub_diag, Nat2Z.id. simpl.
  by rewrite drop_0, firstn_all.
Qed.

Lemma sub_write_at_out l i bs k n : 0 <= i -> i + Z.of_nat (length bs) <= Z.of_nat (length l) ->
  0 <= k -> k + n <= i \/ i + Z.of_nat (length bs) <= k ->
  sub (write_at l i bs) k n = sub l k n.
Proof.
  intros Hi Hl Hk Hn. apply list_eq. intros j.
  rewrite !sub_lookup by lia. case_decide; [|done].
  rewrite write_at_lookup by done. rewrite decide_False by lia. done.
Qed.

(** Writing over the head of the second part of a buffer. *)
Lemma write_at_app d l bs : (length bs <= length l)%nat ->
  write_at (d ++ l) (Z.of_nat (length d)) bs = d ++ bs ++ drop (length bs) l.
Proof.
  intros Hl. unfold write_at. rewrite Nat2Z.id.
  rewrite <- (Nat.add_0_r (length d)), list_inserts_app_r. f_equal.
  rewrite <- (take_drop (length bs) l) at 1. apply list_inserts_0_r. rewrite length_take. lia.
Qed.

Lemma write_at_sub l i n : 0 <= i -> 0 <= n -> i + n <= Z.of_nat (length l) ->
  write_at l i (sub l i n) = l.
Proof.
  intros Hi Hn Hl. apply list_eq. intros j.
  pose proof (length_sub l i n Hi Hn Hl) as L.
  rewrite write_at_lookup by lia. case_decide; [|done].
  rewrite sub_lookup by lia. rewrite decide_True by lia. f_equal. lia.
Qed.

Lemma sub_all l n : n = Z.of_nat (length l) -> sub l 0 n = l.
Proof. intros ->. unfold sub. rewrite Nat2Z.id. simpl. by rewrite drop_0, firstn_all. Qed.

Lemma sub_sub l i n k m : 0 <= i -> 0 <= k -> k + m <= n -> sub (sub l i n) k m = sub l (i + k) m.
Proof.
  intros. apply list_eq. intros j. rewrite !sub_lookup by lia.
  repeat case_decide; try lia; try done. f_equal. lia.
Qed.

Lemma sub_split l i n m : 0 <= i -> 0 <= n -> 0 <= m ->
  sub l i (n + m) = sub l i n ++ sub l (i + n) m.
Proof.
  intros. unfold sub. rewrite (Z2Nat.inj_add i n), (Z2Nat.inj_add n m), <- drop_drop by lia.
  by rewrite <- take_take_drop.
Qed.

Lemma Forall_sub P l i n : Forall P l -> Forall P (sub l i n).
Proof. intros. by apply Forall_take, Forall_drop. Qed.

Lemma Forall_write_at (P : Z -> Prop) l i bs : Forall P l -> Forall P bs -> Forall P (write_at l i bs).
Proof.
  unfold write_at. generalize (Z.to_nat i) as k. intros k Hl. revert k.
  induction bs as [|b bs IH]; intros k Hb; simpl; [done|].
  apply Forall_cons in Hb as [Hb Hbs]. apply Forall_insert; [by apply IH|done].
Qed.

Lemma byteat_u8 l i : Forall is_u8 l -> is_u8 (byteat l i).
Proof.
  intros H. rewrite byteat_lookup. destruct (l !! Z.to_nat i) eqn:E; simpl; [|unfold is_u8; lia].
  by apply (Forall_lookup_1 _ _ _ _ H E).
Qed.

Lemma byteat_sub l i n k : 0 <= i -> 0 <= k < n -> byteat (sub l i n) k = byteat l (i + k).
Proof.
  intros. rewrite !byteat_lookup, sub_lookup by lia. rewrite decide_True by lia.
  do 2 f_equal. lia.
Qed.

Lemma length_le_bytes n x : length (le_bytes n x) = n.
Proof. revert x. induction n as [|n IH]; intros x; simpl; [done|by rewrite IH]. Qed.

Lemma le_bytes_u8 n x : Forall is_u8 (le_bytes n x).
Proof.
  revert x. induction n as [|n IH]; intros x; simpl; constructor; [|done].
  unfold is_u8. apply Z.mod_pos_bound. lia.
Qed.

Lemma le_val_bytes n x : le_val (le_bytes n x) = x mod 256 ^ Z.of_nat n.
Proof.
  revert x. induction n as [|n IH]; intros x; [by rewrite Z.mod_1_r|].
  cbn [le_bytes le_val]. rewrite IH, Nat2Z.inj_succ, Z.pow_succ_r by lia.
  rewrite Z.rem_mul_r by lia. lia.
Qed.

Lemma le_val_range bs : Forall is_u8 bs -> 0 <= le_val bs < 256 ^ Z.of_nat (length bs).
Proof.
  induction 1 as [|b bs Hb Hbs IH]; [simpl; lia|].
  cbn [le_val length]. rewrite Nat2Z.inj_succ, Z.pow_succ_r by lia. unfold is_u8 in Hb. lia.
Qed.

Lemma le_bytes_val bs : Forall is_u8 bs -> le_bytes (length bs) (le_val bs) = bs.
Proof.
  induction 1 as [|b bs Hb Hbs IH]; [done|].
  cbn [le_val length le_bytes]. unfold is_u8 in Hb.
  replace ((b + 256 * le_val bs) mod 256) with b
    by (rewrite Z.mul_comm, Z_mod_plus_full, Z.mod_small; lia).
  rewrite Z.mul_comm, Z.div_add, (Z.div_small b), Z.add_0_l, IH by lia. done.
Qed.

Lemma get_put_le n l off x : 0 <= off -> off + Z.of_nat n <= Z.of_nat (length l) ->
  get_le n (put_le n l off x) off = x mod 256 ^ Z.of_nat n.
Proof.
  intros. unfold get_le, put_le. rewrite <- le_val_bytes. f_equal.
  pose proof (length_le_bytes n x) as L.
  pose proof (sub_write_at_same l off (le_bytes n x)) as S. rewrite L in S. apply S; lia.
Qed.

Lemma get_le_range n l off : Forall is_u8 l -> 0 <= off -> off + Z.of_nat n <= Z.of_nat (length l) ->
  0 <= get_le n l off < 256 ^ Z.of_nat n.
Proof.
  intros Hf Ho Hl. unfold get_le. pose proof (length_sub l off (Z.of_nat n) Ho ltac:(lia) Hl) as L.
  pose proof (le_val_range _ (Forall_sub _ l off (Z.of_nat n) Hf)) as R. by rewrite L in R.
Qed.

(** Checked by evaluation. *)
Lemma all_u8 l : forallb (fun x => (0 <=? x) && (x <? 256)) l = true -> Forall is_u8 l.
Proof.
  induction l as [|x l IH]; [constructor|]. simpl. intros H.
  apply andb_true_iff in H as [H1 H2]. constructor; [unfold is_u8; lia|by apply IH].
Qed.

(** ** Bit-fields *)
Lemma bf_get_set_same b pos len v : 0 <= pos -> 0 <= len ->
  bf_get (bf_set b pos len v) pos len = Z.land v (Z.ones len).
Proof.
  intros Hp Hl. unfold bf_get, bf_set. apply Z.bits_inj'. intros n Hn.
  rewrite !Z.land_spec, Z.shiftr_spec, Z.lor_spec, Z.ldiff_spec by lia.
  rewrite !Z.shiftl_spec, Z.land_spec by lia. replace (n + pos - pos) with n by lia.
  destruct (Z_lt_le_dec n len).
  - rewrite Z.ones_spec_low by lia. rewrite !andb_true_r, andb_false_r. done.
  - rewrite Z.ones_spec_high by lia. by rewrite !andb_false_r.
Qed.

Lemma bf_get_set_other b pos len v pos' len' : 0 <= pos -> 0 <= len -> 0 <= pos' -> 0 <= len' ->
  pos' + len' <= pos \/ pos + len <= pos' ->
  bf_get (bf_set b pos len v) pos' len' = bf_get b pos' len'.
Proof.
  intros Hp Hl Hp' Hl' Hd. unfold bf_get, bf_set. apply Z.bits_inj'. intros n Hn.
  rewrite !Z.land_spec, !Z.shiftr_spec, Z.lor_spec, Z.ldiff_spec by lia.
  rewrite !Z.shiftl_spec, Z.land_spec by lia.
  destruct (Z_lt_le_dec n len').
  - assert (Z.testbit (Z.ones len) (n + pos' - pos) = false) as ->.
    { destruct Hd; [apply Z.testbit_neg_r; lia|apply Z.ones_spec_high; lia]. }
    rewrite !andb_false_r, orb_false_r, andb_true_r. done.
  - rewrite (Z.ones_spec_high len') by lia. by rewrite !andb_false_r.
Qed.

Lemma bf_get_range b pos len : 0 <= len -> 0 <= bf_get b pos len < 2 ^ len.
Proof. intros. unfold bf_get. rewrite Z.land_ones by lia. apply Z.mod_pos_bound. lia. Qed.

Lemma bf_set_u8 b pos len v : is_u8 b -> 0 <= pos -> 0 <= len -> pos + len <= 8 -> is_u8 (bf_set b pos len v).
Proof.
  unfold is_u8. intros Hb Hp Hl Hs.
  assert (X : bf_set b pos len v = Z.land (bf_set b pos len v) (Z.ones 8)).
  { apply Z.bits_inj'. intros n Hn. rewrite Z.land_spec. destruct (Z_lt_le_dec n 8).
    - rewrite Z.ones_spec_low by lia. by rewrite andb_true_r.
    - rewrite Z.ones_spec_high by lia. rewrite andb_false_r. unfold bf_set.
      rewrite Z.lor_spec, Z.ldiff_spec, !Z.shiftl_spec, Z.land_spec by lia.
      rewrite (Z.ones_spec_high len) by lia. rewrite andb_false_r, orb_false_r.
      rewrite <- (Z.mod_small b 256) by lia. change 256 with (2 ^ 8).
      rewrite Z.mod_pow2_bits_high by lia. done. }
  rewrite X, Z.land_ones by lia. apply Z.mod_pos_bound. lia.
Qed.

(** ** Big-endian integers *)
Lemma be_val_snoc bs b : be_val (bs ++ [b]) = be_val bs * 256 + b.
Proof. unfold be_val. rewrite rev_app_distr. simpl. lia. Qed.

Lemma be_val_range bs : Forall is_u8 bs -> 0 <= be_val bs < 256 ^ Z.of_nat (length bs).
Proof. intros H. unfold be_val. rewrite <- length_rev. apply le_val_range. by apply Forall_rev. Qed.

Lemma be_bytes_val bs n : Forall is_u8 bs -> length bs = n -> be_bytes n (be_val bs) = bs.
Proof.
  intros H <-. unfold be_bytes, be_val. rewrite <- length_rev, le_bytes_val, rev_involutive; [done|].
  by apply Forall_rev.
Qed.

Lemma le_bytes_add n m x : le_bytes (n + m) x = le_bytes n x ++ le_bytes m (x / 256 ^ Z.of_nat n).
Proof.
  revert x. induction n as [|n IH]; intros x; [by rewrite Z.div_1_r|].
  cbn [Nat.add le_bytes app]. rewrite IH, Z.div_div, Nat2Z.inj_succ, Z.pow_succ_r by lia. done.
Qed.

Lemma be_bytes_add n m x : be_bytes (n + m) x = be_bytes m (x / 256 ^ Z.of_nat n) ++ be_bytes n x.
Proof. unfold be_bytes. by rewrite le_bytes_add, rev_app_distr. Qed.

Lemma length_be_bytes n x : length (be_bytes n x) = n.
Proof. unfold be_bytes. by rewrite length_rev, length_le_bytes. Qed.

Lemma be_bytes_u8 n x : Forall is_u8 (be_bytes n x).
Proof. apply Forall_rev, le_bytes_u8. Qed.
