(* ===== verification/Alist.v ===== *)
(** * The [alist] container (lib/alist.c, include/alist.h)

    A contiguous array of equal-sized objects with a live count and an
    allocated capacity, both [u16].  The data block is the list of its slots
    ([al_data], one element per allocated slot); the live prefix has
    [al_count] elements.  A pointer into the list is its byte offset from
    [lst->data].  [malloc] is the heap's answer: whether an allocation of that
    many bytes succeeds. *)

From S2P Require Import Prelude.

Module Alist.

Record alist (A : Type) := mk_alist {
  al_data : list A;      (* slots of the block at lst->data; [] for NULL *)
  al_obj_size : Z;       (* u16 *)
  al_count : Z;          (* u16 *)
  al_alloc : Z;          (* u16 *)
  al_fail : bool         (* flags & ALISTF_FAIL *)
}.
Arguments mk_alist {A} _ _ _ _ _.
Arguments al_data {A} _.
Arguments al_obj_size {A} _.
Arguments al_count {A} _.
Arguments al_alloc {A} _.
Arguments al_fail {A} _.

Definition ALIST_INITIAL_SIZE : Z := 4.

Section Ops.
Context {A : Type}.
Variable zero : A.                (* the object whose bytes are all zero *)
Variable malloc : Z -> bool.      (* does an allocation of n bytes succeed? *)

Definition set_data (l : alist A) (d : list A) : alist A :=
  mk_alist d (al_obj_size l) (al_count l) (al_alloc l) (al_fail l).
Definition set_count (l : alist A) (n : Z) : alist A :=
  mk_alist (al_data l) (al_obj_size l) (u16 n) (al_alloc l) (al_fail l).

(** [memset(lst, 0, sizeof)] *)
Definition alist_zeroed : alist A := mk_alist [] 0 0 0 false.

Definition alist_init (obj_size start_size : Z) : bool * alist A :=
  if negb (start_size =? 0) then
    if negb (malloc (obj_size * start_size)) then
      (false, mk_alist [] 0 0 0 true)
    else
      (true, mk_alist (replicate (Z.to_nat start_size) zero)
               (u16 obj_size) 0 (u16 start_size) false)
  else (true, mk_alist [] (u16 obj_size) 0 0 false).

Definition alist_uninit (l : alist A) : alist A := alist_zeroed.

Definition alist_empty (l : alist A) : alist A := set_count l 0.

Definition alist_has (l : alist A) (index : Z) : bool := index <? al_count l.
Definition alist_err (l : alist A) : bool := al_fail l.
Definition alist_full (l : alist A) : bool := al_count l =? al_alloc l.

Definition alist_expand_to (l : alist A) (new_alloc : Z) : bool * alist A :=
  if al_fail l then (false, l)
  else if negb (malloc (u32 (al_obj_size l * new_alloc))) then
    (false, mk_alist (al_data l) (al_obj_size l) (al_count l) (al_alloc l) true)
  else
    (true, mk_alist
       (take (Z.to_nat (al_alloc l)) (al_data l)
          ++ replicate (Z.to_nat (new_alloc - al_alloc l)) zero)
       (al_obj_size l) (al_count l) (u16 new_alloc) false).

Definition alist_expand_by (l : alist A) (inc_by : Z) : bool * alist A :=
  alist_expand_to l (u32 (al_alloc l + inc_by)).

(** The doubling loop of [alist_expand_min]; [None] when it never exits.
    A [uint] doubled 33 times is 0 for ever, so 34 rounds decide. *)
Fixpoint expand_min_loop (fuel : nat) (new_alloc min_alloc : Z) : option Z :=
  if new_alloc <? min_alloc then
    match fuel with
    | O => None
    | S f => expand_min_loop f (u32 (new_alloc * 2)) min_alloc
    end
  else Some new_alloc.

Definition alist_expand_min (l : alist A) (min_alloc : Z) : option (bool * alist A) :=
  new_alloc ← expand_min_loop 34
    (if al_alloc l =? 0 then ALIST_INITIAL_SIZE else al_alloc l) min_alloc;
  Some (alist_expand_to l new_alloc).

(** Pointers are byte offsets from [lst->data]. *)
Definition alist_get_ptr (l : alist A) (index : Z) : option Z :=
  if al_count l <=? index then None else Some (index * al_obj_size l).

Definition alist_calc_index (l : alist A) (ptr : Z) : Z :=
  if (al_count l =? 0) || (ptr <? 0) then -1
  else s32 (u32 (ptr / al_obj_size l)).

Definition alist_update_end (l : alist A) (ptr : Z) : alist A :=
  let index := alist_calc_index l ptr in
  set_count l (if index =? -1 then 0 else index).

Definition alist_chk_ptr (l : alist A) (ptr : Z) : bool :=
  let index := alist_calc_index l ptr in
  (0 <=? index) && (index <? al_count l).

(** [None]: the [assert] fails. *)
Definition alist_next_ptrd (l : alist A) (ptr : Z) : option (option Z) :=
  let index := alist_calc_index l ptr in
  if index =? -1 then None else Some (alist_get_ptr l (u32 (index + 1))).

(** [None]: the doubling loop does not exit; [Some (None, _)]: NULL. *)
Definition alist_ensure_ptr (l : alist A) (index : Z) : option (option Z * alist A) :=
  let minsize := u32 (index + 1) in
  let finish (l : alist A) :=
    (Some (index * al_obj_size l),
     if al_count l <=? minsize then set_count l minsize else l) in
  if al_alloc l <=? index then
    match alist_expand_min l minsize with
    | None => None
    | Some (false, l') => Some (None, l')
    | Some (true, l') => Some (finish l')
    end
  else Some (finish l).

Definition alist_add_placeholder (l : alist A) : option (option Z * alist A) :=
  alist_ensure_ptr l (al_count l).

(** The copy goes to the slot the returned pointer designates. *)
Definition alist_add_ptr (l : alist A) (obj : A) : option (option Z * alist A) :=
  match alist_add_placeholder l with
  | None => None
  | Some (None, l') => Some (None, l')
  | Some (Some ptr, l') =>
      Some (Some ptr,
            set_data l' (<[Z.to_nat (ptr / al_obj_size l') := obj]> (al_data l')))
  end.

(** The block handed over, the count stored through [countp], the list left. *)
Definition alist_uninit_move_ptr (l : alist A) : option (list A) * Z * alist A :=
  if al_count l =? 0 then (None, 0, alist_uninit l)
  else (Some (al_data l), al_count l, snd (alist_init (al_obj_size l) 0)).

(** ** Invariant and abstraction *)

(** The objects the list holds. *)
Definition live (l : alist A) : list A := take (Z.to_nat (al_count l)) (al_data l).

Record wf (l : alist A) : Prop := {
  wf_block : Z.of_nat (length (al_data l)) = al_alloc l;
  wf_alloc : 0 <= al_alloc l < 65536;
  wf_count : 0 <= al_count l <= al_alloc l;
  wf_size : 0 < al_obj_size l < 65536
}.
End Ops.
Arguments live {A} _.
Arguments wf {A} _.

Section Facts.
Context {A : Type} (zero : A) (malloc : Z -> bool).
Implicit Types l : alist A.

Lemma length_live l : wf l -> Z.of_nat (length (live l)) = al_count l.
Proof. intros []. unfold live. rewrite length_take. lia. Qed.

Lemma live_full_block l : al_count l = Z.of_nat (length (al_data l)) -> live l = al_data l.
Proof. intros E. unfold live. rewrite E, Nat2Z.id. apply firstn_all. Qed.

Lemma init_wf size n l :
  0 < size < 65536 -> 0 <= n < 65536 ->
  alist_init zero malloc size n = (true, l) -> wf l /\ live l = [] /\ al_fail l = false.
Proof.
  intros Hs Hn. unfold alist_init.
  destruct (Z.eqb_spec n 0); simpl; [|destruct (malloc _)]; simpl; intros [= <-].
  - split; [|split]; [constructor; simpl; nowrap; lia|done..].
  - split; [|split]; [|done..].
    constructor; simpl; nowrap; rewrite ?length_replicate; lia.
Qed.

(** Expanding keeps the live objects; only the capacity moves. *)
Lemma expand_to_spec l n b l' :
  wf l -> al_alloc l <= n < 65536 -> alist_expand_to zero malloc l n = (b, l') ->
  wf l' /\ live l' = live l /\ al_count l' = al_count l /\ al_obj_size l' = al_obj_size l /\
  (if b then al_alloc l' = n /\ al_fail l' = false
   else al_alloc l' = al_alloc l /\ al_fail l' = true).
Proof.
  intros [Hb Ha Hc Hs] Hn. unfold alist_expand_to.
  destruct (al_fail l) eqn:E; simpl.
  { intros [= <- <-]. split; [by constructor|]. auto. }
  destruct (malloc _); simpl; intros [= <- <-]; simpl.
  - split; [|split].
    + constructor; simpl; nowrap; rewrite ?length_app, ?length_replicate, ?length_take; lia.
    + unfold live; simpl. rewrite take_app_le by (rewrite length_take; lia).
      rewrite take_take. f_equal. lia.
    + nowrap. auto.
  - split; [by constructor|]. auto.
Qed.

Lemma expand_min_loop_spec fuel a m :
  0 < a -> a < m * 2 -> m <= 32768 -> m <= a * 2 ^ Z.of_nat fuel ->
  exists n, expand_min_loop fuel a m = Some n /\ m <= n < Z.max (a + 1) (m * 2) /\ a <= n.
Proof.
  revert a. induction fuel as [|f IH]; intros a Ha Hb Hm Hf; simpl.
  - destruct (Z.ltb_spec a m); [simpl in Hf; lia|]. eauto with lia.
  - destruct (Z.ltb_spec a m); [|eauto with lia].
    rewrite u32_small by lia.
    destruct (IH (a * 2)) as (n & E & Hn & Hg); [lia|lia|lia| |exists n; split; [done|lia]].
    rewrite Nat2Z.inj_succ, Z.pow_succ_r in Hf by lia. lia.
Qed.

(** Growing to hold index [count] always terminates below 32768 objects. *)
Lemma expand_min_spec l :
  wf l -> al_alloc l <= al_count l -> al_count l < 32768 ->
  exists n, expand_min_loop 34 (if al_alloc l =? 0 then ALIST_INITIAL_SIZE else al_alloc l)
              (al_count l + 1) = Some n /\ al_count l < n < 65536.
Proof.
  intros [Hb Ha Hc Hs] H1 H2. unfold ALIST_INITIAL_SIZE.
  destruct (Z.eqb_spec (al_alloc l) 0) as [?|Hnz].
  - exists 4. simpl. destruct (Z.ltb_spec 4 (al_count l + 1)); [lia|]. split; [done|lia].
  - destruct (expand_min_loop_spec 34 (al_alloc l) (al_count l + 1)) as (n & E & Hn & Hg);
      [lia|lia|lia| |].
    { change (2 ^ Z.of_nat 34) with 17179869184. lia. }
    exists n. split; [done|]. lia.
Qed.

(** What [alist_add_ptr] does, in the words of the live list. *)
Lemma add_ptr_spec l obj r :
  wf l -> al_fail l = false -> al_count l < 32768 ->
  alist_add_ptr zero malloc l obj = Some r ->
  (exists l', r = (Some (al_count l * al_obj_size l), l') /\
     wf l' /\ live l' = live l ++ [obj] /\ al_fail l' = false) \/
  (exists l', r = (None, l') /\ wf l' /\ live l' = live l /\ al_fail l' = true).
Proof.
  intros W F Hc. unfold alist_add_ptr, alist_add_placeholder, alist_ensure_ptr.
  pose proof W as [Hb Ha Hcn Hs]. rewrite (u32_small (al_count l + 1)) by lia.
  assert (Hput : forall k : alist A, wf k -> live k = live l -> al_count k = al_count l ->
    al_obj_size k = al_obj_size l -> al_count l < al_alloc k -> al_fail k = false ->
    let k' := if al_count k <=? al_count l + 1 then set_count k (al_count l + 1) else k in
    let k'' := set_data k' (<[Z.to_nat (al_count l * al_obj_size k / al_obj_size k') := obj]>
                              (al_data k')) in
    wf k'' /\ live k'' = live l ++ [obj] /\ al_fail k'' = false).
  { intros k [kb ka kc ks] Hl Hk Hz Hlt Hf. rewrite Hk.
    destruct (Z.leb_spec (al_count l) (al_count l + 1)); [|lia].
    cbv zeta; unfold set_data, set_count; simpl. rewrite Hz, Z.div_mul, u16_small by lia.
    split; [constructor; simpl; rewrite ?length_insert; lia|]. split; [|done].
    unfold live in *; simpl in *. rewrite Hk in Hl.
    replace (Z.to_nat (al_count l + 1)) with (S (Z.to_nat (al_count l))) by lia.
    rewrite (take_S_r _ _ obj) by (apply list_lookup_insert_eq; lia).
    rewrite take_insert_ge by lia. by rewrite Hl. }
  destruct (Z.leb_spec (al_alloc l) (al_count l)).
  - destruct (expand_min_spec l W) as (n & E & Hn); [lia|lia|].
    unfold alist_expand_min. rewrite E. simpl.
    destruct (alist_expand_to zero malloc l n) as [[|] k] eqn:X;
      apply expand_to_spec in X as (Wk & Lk & Ck & Sk & Fk); [|done|lia| |done|lia].
    + intros [= <-]. left. eexists. split; [by rewrite <- Sk|].
      apply Hput; [done..|lia|tauto].
    + intros [= <-]. right. exists k. tauto.
  - intros [= <-]. left. eexists. split; [done|]. apply Hput; [done..|lia|done].
Qed.

End Facts.

(** Appending an object.  On a well-formed list of fewer than 32768 objects
    whose heap has not failed, [alist_add_ptr] always returns: either it hands
    back the slot after the last object and the list holds the old objects
    followed by the new one, or memory ran out, the list keeps its objects and
    is marked failed. *)
Theorem alist_add_ptr_appends {A} (zero : A) (malloc : Z -> bool) (l : alist A) (obj : A) :
  wf l -> al_fail l = false -> al_count l < 32768 ->
  exists p l', alist_add_ptr zero malloc l obj = Some (p, l') /\ wf l' /\
    match p with
    | Some ptr => ptr = al_count l * al_obj_size l /\ live l' = live l ++ [obj] /\
                  al_fail l' = false
    | None => live l' = live l /\ al_fail l' = true
    end.
Proof.
  intros W F Hc.
  assert (Hr : is_Some (alist_add_ptr zero malloc l obj)).
  { unfold alist_add_ptr, alist_add_placeholder, alist_ensure_ptr.
    pose proof W as [Hb Ha Hcn Hs].
    destruct (Z.leb_spec (al_alloc l) (al_count l)); [|by eexists].
    rewrite u32_small by lia. destruct (expand_min_spec l W) as (n & E & Hn); [lia|lia|].
    unfold alist_expand_min. rewrite E. simpl.
    destruct (alist_expand_to _ _ _ _) as [[] ?]; by eexists. }
  destruct Hr as [r E].
  destruct (add_ptr_spec _ _ _ _ _ W F Hc E) as [(l' & -> & H)|(l' & -> & H)];
    eexists _, l'; (split; [done|]); tauto.
Qed.

Lemma alist_add_ptr_appends_witness :
  exists p l', alist_add_ptr 0 (fun n => n <? 100) (mk_alist [5; 6] 8 2 2 false) 7 = Some (p, l')
    /\ wf l' /\
    match p with
    | Some ptr => ptr = 2 * 8 /\ live l' = [5; 6; 7] /\ al_fail l' = false
    | None => live l' = [5; 6] /\ al_fail l' = true
    end.
Proof.
  apply (alist_add_ptr_appends 0 (fun n => n <? 100) (mk_alist [5; 6] 8 2 2 false) 7).
  - constructor; simpl; lia.
  - reflexivity.
  - simpl. lia.
Defined.

End Alist.
