(* ===== verification/Lmb.v ===== *)
(** * Logical memory blocks (lib/lmb.c, include/lmb.h)

    The boot-time memory map: a list of available regions and a list of used
    (reserved) regions, each a sorted [alist] of [struct lmb_region].
    Addresses and sizes are [u64] ([phys_addr_t] of the 64-bit targets), and
    every sum the code forms wraps.  [efi_map_update_notify], the heap and the
    FDT reservation pass are parameters. *)

From S2P Require Import Prelude Alist.
Import Alist.

Module Lmb.
Local Open Scope uboot_scope.

Record lmb_region := mk_rgn { base : Z; rsize : Z; rflags : Z }.

#[export] Instance lmb_region_inhabited : Inhabited lmb_region := populate (mk_rgn 0 0 0).
#[export] Instance lmb_region_eq_dec : EqDecision lmb_region.
Proof. solve_decision. Defined.

Definition zero_rgn : lmb_region := mk_rgn 0 0 0.

Definition LMB_ALLOC_ANYWHERE : Z := 0.
Definition LMB_ALIST_INITIAL_SIZE : Z := 4.
Definition LMB_NONE : Z := 0.
Definition LMB_NOMAP : Z := 1.
Definition LMB_NOOVERWRITE : Z := 2.
Definition LMB_NONOTIFY : Z := 4.

Inductive lmb_map_op := LMB_MAP_OP_RESERVE | LMB_MAP_OP_FREE | LMB_MAP_OP_ADD.

(** [sizeof(struct lmb_region)] with two [u64] and a [u32], padded to 24. *)
Definition sizeof_lmb_region : Z := 24.

(** [__ALIGN_MASK], [ALIGN] and [ALIGN_DOWN] of include/linux/kernel.h at [u64]. *)
Definition align_mask (x mask : Z) : Z := Z.land (x +64 mask) (u64 (Z.lnot mask)).
Definition align_up (x a : Z) : Z := align_mask x (a -64 1).
Definition ALIGN_DOWN (x a : Z) : Z := align_up (x -64 (a -64 1)) a.

Definition lmb_addrs_overlap (base1 size1 base2 size2 : Z) : bool :=
  let base1_end := u64 (base1 + size1 - 1) in
  let base2_end := u64 (base2 + size2 - 1) in
  (base1 <=? base2_end) && (base2 <=? base1_end).

Definition lmb_addrs_adjacent (base1 size1 base2 size2 : Z) : Z :=
  if base2 =? base1 +64 size1 then 1
  else if base1 =? base2 +64 size2 then -1
  else 0.

(** [rgn[i]] and stores to its fields. *)
Definition rgn (l : alist lmb_region) (i : nat) : lmb_region := al_data l !!! i.
Definition set_rgn (l : alist lmb_region) (i : nat) (r : lmb_region) : alist lmb_region :=
  set_data l (<[i := r]> (al_data l)).
Definition count (l : alist lmb_region) : nat := Z.to_nat (al_count l).

Definition lmb_regions_overlap (l : alist lmb_region) (r1 r2 : nat) : bool :=
  lmb_addrs_overlap (base (rgn l r1)) (rsize (rgn l r1)) (base (rgn l r2)) (rsize (rgn l r2)).

Definition lmb_regions_adjacent (l : alist lmb_region) (r1 r2 : nat) : Z :=
  lmb_addrs_adjacent (base (rgn l r1)) (rsize (rgn l r1)) (base (rgn l r2)) (rsize (rgn l r2)).

(** The shifting loop: [n] is the number of rounds left, [i] the index. *)
Fixpoint remove_loop (n i : nat) (data : list lmb_region) : list lmb_region :=
  match n with
  | O => data
  | S n' => remove_loop n' (S i) (<[i := data !!! S i]> data)
  end.

Definition lmb_remove_region (l : alist lmb_region) (r : nat) : alist lmb_region :=
  let l' := set_data l (remove_loop (count l - 1 - r) r (al_data l)) in
  set_count l' (al_count l - 1).

Definition lmb_coalesce_regions (l : alist lmb_region) (r1 r2 : nat) : alist lmb_region :=
  let a := rgn l r1 in
  lmb_remove_region
    (set_rgn l r1 (mk_rgn (base a) (rsize a +64 rsize (rgn l r2)) (rflags a))) r2.

Definition lmb_fix_over_lap_regions (l : alist lmb_region) (r1 r2 : nat) : alist lmb_region :=
  let base1 := base (rgn l r1) in
  let size1 := rsize (rgn l r1) in
  let base2 := base (rgn l r2) in
  let size2 := rsize (rgn l r2) in
  if base2 +64 size2 <? base1 +64 size1 then l   (* only a message is printed *)
  else lmb_remove_region
         (set_rgn l r1 (mk_rgn base1 (u64 (base2 + size2 - base1)) (rflags (rgn l r1)))) r2.

(** The scan of [lmb_resize_regions]: [None] when an overlapped region has
    flags; otherwise [rgn_cnt] and [idx_end]. *)
Fixpoint resize_scan (n idx : nat) (l : alist lmb_region) (b sz : Z)
    (rgn_cnt idx_end : nat) : option (nat * nat) :=
  match n with
  | O => Some (rgn_cnt, idx_end)
  | S n' =>
      if lmb_addrs_overlap b sz (base (rgn l idx)) (rsize (rgn l idx)) then
        if negb (rflags (rgn l idx) =? LMB_NONE) then None
        else resize_scan n' (S idx) l b sz (S rgn_cnt) idx
      else resize_scan n' (S idx) l b sz rgn_cnt idx_end
  end.

Definition lmb_resize_regions (l : alist lmb_region) (idx_start : nat) (b sz : Z)
    : Z * alist lmb_region :=
  match resize_scan (count l - idx_start) idx_start l b sz 0 idx_start with
  | None => (-1, l)
  | Some (rgn_cnt, idx_end) =>
      let rgnbase := base (rgn l idx_start) in
      let mergebase := Z.min b rgnbase in
      let rgnend := base (rgn l idx_end) +64 rsize (rgn l idx_end) in
      let mergeend := Z.max rgnend (b +64 sz) in
      let l1 := set_rgn l idx_start
                  (mk_rgn mergebase (mergeend -64 mergebase) (rflags (rgn l idx_start))) in
      (0, Nat.iter (rgn_cnt - 1) (fun k => lmb_remove_region k (idx_start + 1)) l1)
  end.

(** One round of the coalescing loop of [lmb_add_region_flags]. *)
Inductive coalesce_step :=
  | CNext
  | CBreak (coalesced : Z) (l : alist lmb_region)
  | CReturn (ret : Z).

Definition coalesce_body (l : alist lmb_region) (i : nat) (b sz flags : Z) : coalesce_step :=
  let rgnbase := base (rgn l i) in
  let rgnsize := rsize (rgn l i) in
  let rgnflags := rflags (rgn l i) in
  let ret := lmb_addrs_adjacent b sz rgnbase rgnsize in
  if 0 <? ret then
    if negb (flags =? rgnflags) then CBreak 0 l
    else CBreak 1 (set_rgn l i (mk_rgn (rgnbase -64 sz) (rgnsize +64 sz) rgnflags))
  else if ret <? 0 then
    if negb (flags =? rgnflags) then CBreak 0 l
    else CBreak 1 (set_rgn l i (mk_rgn rgnbase (rgnsize +64 sz) rgnflags))
  else if lmb_addrs_overlap b sz rgnbase rgnsize then
    if negb (flags =? LMB_NONE) then CReturn (- EEXIST)
    else
      let '(ret, l') := lmb_resize_regions l i b sz in
      if ret <? 0 then CReturn (-1) else CBreak 1 l'
  else CNext.

(** The loop: a return value, or the index it stopped at, [coalesced] and the
    list. *)
Fixpoint coalesce_loop (n i : nat) (l : alist lmb_region) (b sz flags : Z)
    : Z + (nat * Z * alist lmb_region) :=
  match n with
  | O => inr (i, 0, l)
  | S n' =>
      match coalesce_body l i b sz flags with
      | CNext => coalesce_loop n' (S i) l b sz flags
      | CBreak c l' => inr (i, c, l')
      | CReturn ret => inl ret
      end
  end.

(** The sorted insertion loop, from [i = count] downwards. *)
Fixpoint insert_loop (i : nat) (data : list lmb_region) (new : lmb_region) : list lmb_region :=
  match i with
  | O => <[O := new]> data
  | S i' =>
      if base new <? base (data !!! i')
      then insert_loop i' (<[i := data !!! i']> data) new
      else <[i := new]> data
  end.

Section WithHeap.
Variable malloc : Z -> bool.

(** The merge of region [i] with its successor after the coalescing loop. *)
Definition merge_next (l : alist lmb_region) (i : nat) (coalesced : Z)
    : Z * alist lmb_region :=
  if negb (al_count l =? 0) && (Z.of_nat i <? al_count l - 1) then
    if rflags (rgn l i) =? rflags (rgn l (i + 1)) then
      if negb (lmb_regions_adjacent l i (i + 1) =? 0) then
        (coalesced + 1, lmb_coalesce_regions l i (i + 1))
      else if lmb_regions_overlap l i (i + 1) then
        (coalesced + 1, lmb_fix_over_lap_regions l i (i + 1))
      else (coalesced, l)
    else (coalesced, l)
  else (coalesced, l).

(** The part of [lmb_add_region_flags] that grows the list and inserts. *)
Definition add_sorted (l : alist lmb_region) (b sz flags : Z) : Z * alist lmb_region :=
  let '(ok, l3) :=
    if alist_full l then alist_expand_by zero_rgn malloc l (al_alloc l) else (true, l) in
  if negb ok then (-1, l3)
  else
    let l4 := set_data l3 (insert_loop (count l3) (al_data l3) (mk_rgn b sz flags)) in
    (0, set_count l4 (al_count l4 + 1)).

Definition lmb_add_region_flags (l : alist lmb_region) (b sz flags : Z)
    : Z * alist lmb_region :=
  if alist_err l then (-1, l)
  else
    match coalesce_loop (count l) 0 l b sz flags with
    | inl ret => (ret, l)
    | inr (i, c, l1) =>
        let '(coalesced, l2) := merge_next l1 i c in
        if negb (coalesced =? 0) then (0, l2)
        else add_sorted l2 b sz flags
    end.

(** The search loop of [_lmb_free]: the first region that contains the range. *)
Fixpoint free_find (n i : nat) (l : alist lmb_region) (b e : Z) : option nat :=
  match n with
  | O => None
  | S n' =>
      let rgnbegin := base (rgn l i) in
      let rgnend := u64 (rgnbegin + rsize (rgn l i) - 1) in
      if (rgnbegin <=? b) && (e <=? rgnend) then Some i
      else free_find n' (S i) l b e
  end.

Definition _lmb_free (l : alist lmb_region) (b sz : Z) : Z * alist lmb_region :=
  let e := u64 (b + sz - 1) in
  match free_find (count l) 0 l b e with
  | None => (-1, l)
  | Some i =>
      let r := rgn l i in
      let rgnbegin := base r in
      let rgnend := u64 (rgnbegin + rsize r - 1) in
      if (rgnbegin =? b) && (rgnend =? e) then (0, lmb_remove_region l i)
      else if rgnbegin =? b then
        (0, set_rgn l i (mk_rgn (e +64 1) (rsize r -64 sz) (rflags r)))
      else if rgnend =? e then
        (0, set_rgn l i (mk_rgn (base r) (rsize r -64 sz) (rflags r)))
      else
        lmb_add_region_flags (set_rgn l i (mk_rgn (base r) (b -64 base r) (rflags r)))
          (e +64 1) (rgnend -64 e) (rflags r)
  end.

(** [-1] is [None]. *)
Fixpoint overlaps_loop (n i : nat) (l : alist lmb_region) (b sz : Z) : option nat :=
  match n with
  | O => None
  | S n' =>
      if lmb_addrs_overlap b sz (base (rgn l i)) (rsize (rgn l i)) then Some i
      else overlaps_loop n' (S i) l b sz
  end.

Definition lmb_overlaps_region (l : alist lmb_region) (b sz : Z) : option nat :=
  overlaps_loop (count l) 0 l b sz.

(** ** The [struct lmb] *)
Record lmb := mk_lmb {
  available_mem : alist lmb_region;
  used_mem : alist lmb_region;
  test : bool
}.

Definition set_available (s : lmb) (l : alist lmb_region) : lmb := mk_lmb l (used_mem s) (test s).
Definition set_used (s : lmb) (l : alist lmb_region) : lmb := mk_lmb (available_mem s) l (test s).

(** *** IOVA maps *)
Definition io_lmb_setup (s : lmb) : Z * lmb :=
  let '(ok1, a) := alist_init zero_rgn malloc sizeof_lmb_region LMB_ALIST_INITIAL_SIZE in
  if negb ok1 then (- ENOMEM, mk_lmb a (used_mem s) (test s))
  else
    let '(ok2, u) := alist_init zero_rgn malloc sizeof_lmb_region LMB_ALIST_INITIAL_SIZE in
    if negb ok2 then (- ENOMEM, mk_lmb a u (test s))
    else (0, mk_lmb a u false).

Definition io_lmb_teardown (s : lmb) : lmb :=
  mk_lmb (alist_uninit (available_mem s)) (alist_uninit (used_mem s)) (test s).

Definition io_lmb_add (s : lmb) (b sz : Z) : Z * lmb :=
  let '(ret, l) := lmb_add_region_flags (available_mem s) b sz LMB_NONE in
  (ret, set_available s l).

(** The inner [while] of the allocators, as a search: the candidate base is
    lowered below each used region it hits.  [Some base]: a free area was
    found; [None]: this memory region is exhausted.  Every round drops below a
    used region, so [count used + 1] rounds are enough
    ([Facts.fit_loop_enough]). *)
Fixpoint fit_loop (fuel : nat) (used : alist lmb_region) (lmbbase b sz align : Z) : option Z :=
  match fuel with
  | O => None
  | S f =>
      if negb (b =? 0) && (lmbbase <=? b) then
        match lmb_overlaps_region used b sz with
        | None => Some b
        | Some k =>
            let res_base := base (rgn used k) in
            if res_base <? sz then None
            else fit_loop f used lmbbase (ALIGN_DOWN (res_base -64 sz) align) sz align
        end
      else None
  end.

(** The outer loop of [io_lmb_alloc], [i] regions left to try. *)
Fixpoint io_alloc_loop (i : nat) (avail used : alist lmb_region) (sz align : Z) : option Z :=
  match i with
  | O => None
  | S i' =>
      let lmbbase := base (rgn avail i') in
      let lmbsize := rsize (rgn avail i') in
      if lmbsize <? sz then io_alloc_loop i' avail used sz align
      else
        match fit_loop (S (count used)) used lmbbase
                (ALIGN_DOWN (u64 (lmbbase + lmbsize - sz)) align) sz align with
        | Some b => Some b
        | None => io_alloc_loop i' avail used sz align
        end
  end.

Definition io_lmb_alloc (s : lmb) (sz align : Z) : Z * lmb :=
  match io_alloc_loop (count (available_mem s)) (available_mem s) (used_mem s) sz align with
  | None => (0, s)
  | Some b =>
      let '(ret, u) := lmb_add_region_flags (used_mem s) b sz LMB_NONE in
      (if ret <? 0 then 0 else b, set_used s u)
  end.

Definition io_lmb_free (s : lmb) (b sz : Z) : Z * lmb :=
  let '(ret, u) := _lmb_free (used_mem s) b sz in (ret, set_used s u).

(** *** The global map *)
Section WithNotify.
Variable EFI_LOADER : bool.                              (* CONFIG_IS_ENABLED *)
Variable efi_map_update_notify : Z -> Z -> lmb_map_op -> Z -> Z.

Definition lmb_map_update_notify (s : lmb) (addr sz : Z) (op : lmb_map_op) (flags : Z) : Z :=
  if EFI_LOADER && negb (test s) && (Z.land flags LMB_NONOTIFY =? 0)
  then efi_map_update_notify addr sz op flags
  else 0.

Definition lmb_add (s : lmb) (b sz : Z) : Z * lmb :=
  let '(ret, l) := lmb_add_region_flags (available_mem s) b sz LMB_NONE in
  let s' := set_available s l in
  if negb (ret =? 0) then (ret, s')
  else (lmb_map_update_notify s' b sz LMB_MAP_OP_ADD LMB_NONE, s').

Definition lmb_free_flags (s : lmb) (b sz flags : Z) : Z * lmb :=
  let '(ret, u) := _lmb_free (used_mem s) b sz in
  let s' := set_used s u in
  if ret <? 0 then (ret, s')
  else (lmb_map_update_notify s' b sz LMB_MAP_OP_FREE flags, s').

Definition lmb_free (s : lmb) (b sz : Z) : Z * lmb := lmb_free_flags s b sz LMB_NONE.

Definition lmb_reserve (s : lmb) (b sz flags : Z) : Z * lmb :=
  let '(ret, u) := lmb_add_region_flags (used_mem s) b sz flags in
  let s' := set_used s u in
  if negb (ret =? 0) then (ret, s')
  else (lmb_map_update_notify s' b sz LMB_MAP_OP_RESERVE flags, s').

(** The candidate base in one memory region, before the fitting loop; [None]
    is the [continue]. *)
Definition alloc_start (lmbbase lmbsize sz align max_addr : Z) : option Z :=
  if lmbsize <? sz then None
  else if max_addr =? LMB_ALLOC_ANYWHERE then
    Some (ALIGN_DOWN (u64 (lmbbase + lmbsize - sz)) align)
  else if lmbbase <? max_addr then
    let b := lmbbase +64 lmbsize in
    let b := if b <? lmbbase then u64 (-1) else b in
    let b := Z.min b max_addr in
    Some (ALIGN_DOWN (b -64 sz) align)
  else None.

Fixpoint alloc_loop (i : nat) (avail used : alist lmb_region) (sz align max_addr : Z)
    : option Z :=
  match i with
  | O => None
  | S i' =>
      let lmbbase := base (rgn avail i') in
      let lmbsize := rsize (rgn avail i') in
      match alloc_start lmbbase lmbsize sz align max_addr with
      | None => alloc_loop i' avail used sz align max_addr
      | Some b =>
          match fit_loop (S (count used)) used lmbbase b sz align with
          | Some b' => Some b'
          | None => alloc_loop i' avail used sz align max_addr
          end
      end
  end.

Definition _lmb_alloc_base (s : lmb) (sz align max_addr flags : Z) : Z * lmb :=
  match alloc_loop (count (available_mem s)) (available_mem s) (used_mem s)
          sz align max_addr with
  | None => (0, s)
  | Some b =>
      let '(ret, u) := lmb_add_region_flags (used_mem s) b sz flags in
      let s' := set_used s u in
      if negb (ret =? 0) then (0, s')
      else
        let ret := lmb_map_update_notify s' b sz LMB_MAP_OP_RESERVE flags in
        if negb (ret =? 0) then (u64 ret, s')   (* int to phys_addr_t *)
        else (b, s')
  end.

Definition lmb_alloc_base (s : lmb) (sz align max_addr flags : Z) : Z * lmb :=
  _lmb_alloc_base s sz align max_addr flags.

Definition lmb_alloc (s : lmb) (sz align : Z) : Z * lmb :=
  lmb_alloc_base s sz align LMB_ALLOC_ANYWHERE LMB_NONE.

Definition lmb_alloc_addr (s : lmb) (b sz flags : Z) : Z * lmb :=
  match lmb_overlaps_region (available_mem s) b sz with
  | None => (-1, s)
  | Some k =>
      let r := rgn (available_mem s) k in
      if lmb_addrs_overlap (base r) (rsize r) (u64 (b + sz - 1)) 1 then
        let '(ret, s') := lmb_reserve s b sz flags in
        if ret =? 0 then (0, s') else (-1, s')
      else (-1, s)
  end.

(** The loop over the used list of [lmb_get_free_size]. *)
Fixpoint free_size_loop (n i : nat) (used : alist lmb_region) (addr : Z) : option Z :=
  match n with
  | O => None
  | S n' =>
      let r := rgn used i in
      if addr <? base r then Some (base r -64 addr)
      else if addr <? base r +64 rsize r then Some 0
      else free_size_loop n' (S i) used addr
  end.

Definition lmb_get_free_size (s : lmb) (addr : Z) : Z :=
  match lmb_overlaps_region (available_mem s) addr 1 with
  | Some _ =>
      match free_size_loop (count (used_mem s)) 0 (used_mem s) addr with
      | Some v => v
      | None =>
          let last := rgn (available_mem s) (count (available_mem s) - 1) in
          u64 (base last + rsize last - addr)
      end
  | None => 0
  end.

Fixpoint reserved_loop (n i : nat) (used : alist lmb_region) (addr flags : Z) : Z :=
  match n with
  | O => 0
  | S n' =>
      let r := rgn used i in
      let upper := u64 (base r + rsize r - 1) in
      if (base r <=? addr) && (addr <=? upper) then b2z (Z.land (rflags r) flags =? flags)
      else reserved_loop n' (S i) used addr flags
  end.

Definition lmb_is_reserved_flags (s : lmb) (addr flags : Z) : Z :=
  reserved_loop (count (used_mem s)) 0 (used_mem s) addr (u32 flags).

Definition lmb_setup (s : lmb) (tst : bool) : Z * lmb :=
  let '(ok1, a) := alist_init zero_rgn malloc sizeof_lmb_region LMB_ALIST_INITIAL_SIZE in
  if negb ok1 then (- ENOMEM, mk_lmb a (used_mem s) (test s))
  else
    let '(ok2, u) := alist_init zero_rgn malloc sizeof_lmb_region LMB_ALIST_INITIAL_SIZE in
    if negb ok2 then (- ENOMEM, mk_lmb a u (test s))
    else (0, mk_lmb a u tst).

(** What board start-up reads of [gd], the linker and the configuration. *)
Record board := mk_board {
  bi_dram : list (Z * Z);        (* start, size of each bank; NR_DRAM_BANKS long *)
  ram_top : Z;
  start_addr_sp : Z;
  stack_size : Z;                (* CONFIG_STACK_SIZE *)
  skip_reloc : bool;             (* gd->flags & GD_FLG_SKIP_RELOC *)
  text_start : Z;                (* _start *)
  mon_len : Z;
  spl_stack_r : bool;            (* CONFIG_SPL_STACK_R_ADDR *)
  spl_separate_bss : bool;
  bss_start : Z;
  bss_end : Z
}.

Definition lmb_reserve' (s : lmb) (b sz flags : Z) : lmb := snd (lmb_reserve s b sz flags).

Fixpoint reserve_uboot_loop (banks : list (Z * Z)) (g : board) (rsv_start : Z) (s : lmb) : lmb :=
  match banks with
  | [] => s
  | (start, size) :: rest =>
      if (size =? 0) || (rsv_start <? start) then reserve_uboot_loop rest g rsv_start s
      else
        let bank_end := u64 (start + size - 1) in
        if bank_end <? rsv_start then reserve_uboot_loop rest g rsv_start s
        else
          let bank_end := if ram_top g <? bank_end then ram_top g -64 1 else bank_end in
          let s1 := lmb_reserve' s rsv_start (u64 (bank_end - rsv_start + 1)) LMB_NOOVERWRITE in
          if skip_reloc g then lmb_reserve' s1 (text_start g) (mon_len g) LMB_NOOVERWRITE
          else s1
  end.

Definition lmb_reserve_uboot_region (g : board) (s : lmb) : lmb :=
  reserve_uboot_loop (bi_dram g) g (start_addr_sp g -64 stack_size g) s.

Definition lmb_reserve_common_spl (g : board) (s : lmb) : lmb :=
  let s1 := if spl_stack_r g
            then lmb_reserve' s (start_addr_sp g -64 16384) 16384 LMB_NOOVERWRITE else s in
  if spl_separate_bss g
  then lmb_reserve' s1 (bss_start g) (bss_end g -64 bss_start g) LMB_NOOVERWRITE
  else s1.

Fixpoint add_memory_loop (banks : list (Z * Z)) (top : Z) (s : lmb) : lmb :=
  match banks with
  | [] => s
  | (start, size) :: rest =>
      let bank_end := start +64 size in
      let s' :=
        if size =? 0 then s
        else
          let s1 := snd (lmb_add s start size) in
          if top <=? start then lmb_reserve' s1 start size LMB_NOOVERWRITE
          else if top <? bank_end then lmb_reserve' s1 top (bank_end -64 top) LMB_NOOVERWRITE
          else s1 in
      add_memory_loop rest top s'
  end.

(** With [CONFIG_LMB_ARCH_MEM_MAP] off. *)
Definition lmb_add_memory (g : board) (s : lmb) : lmb :=
  let top := if ram_top g =? 0 then 4294967296 else ram_top g in
  add_memory_loop (bi_dram g) top s.

Inductive phase := PHASE_SPL | PHASE_BOARD_R | PHASE_OTHER.

(** [boot_fdt_add_mem_rsv_regions] (boot/image-fdt.c) is the [fdt_rsv] pass;
    [None] when there is no FDT or no OF_LIBFDT. *)
Definition lmb_reserve_common (g : board) (fdt_rsv : option (lmb -> lmb)) (s : lmb) : lmb :=
  let s1 := lmb_reserve_uboot_region g s in
  match fdt_rsv with Some f => f s1 | None => s1 end.

Definition lmb_init (g : board) (ph : phase) (fdt_rsv : option (lmb -> lmb)) (s : lmb) : Z * lmb :=
  let '(ret, s1) := lmb_setup s false in
  if negb (ret =? 0) then (ret, s1)
  else
    let s2 := lmb_add_memory g s1 in
    (0, match ph with
        | PHASE_SPL => lmb_reserve_common_spl g s2
        | PHASE_BOARD_R => lmb_reserve_common g fdt_rsv s2
        | PHASE_OTHER => s2
        end).

Definition lmb_push (s : lmb) : Z * lmb * lmb :=
  let '(ret, s') := lmb_setup s true in (ret, s, s').

Definition lmb_pop (store : lmb) : lmb := store.
End WithNotify.
End WithHeap.

(** ** Specification vocabulary *)
Definition in_rgn (a : Z) (r : lmb_region) : bool :=
  (base r <=? a) && (a <? base r + rsize r).

(** The attributes of an address in a list of regions; [None] if not covered. *)
Fixpoint flags_at (rs : list lmb_region) (a : Z) : option Z :=
  match rs with
  | [] => None
  | r :: rs' => if in_rgn a r then Some (rflags r) else flags_at rs' a
  end.

Definition TOP : Z := 18446744073709551616.

(** Sorted, non-empty, pairwise disjoint regions that end below the top of the
    address space, all starting at or above [lo]. *)
Fixpoint wf_from (lo : Z) (rs : list lmb_region) : Prop :=
  match rs with
  | [] => True
  | r :: rs' => lo <= base r /\ 0 < rsize r /\ base r + rsize r < TOP /\
                wf_from (base r + rsize r) rs'
  end.
Definition wf_rgns (rs : list lmb_region) : Prop := wf_from 0 rs.

(** The arrangement in which a request is not recorded: the first region that
    touches the range starts where it ends, has other attributes, and goes on
    without a gap in a region with the same attributes as its own. *)
Fixpoint lost (rs : list lmb_region) (b sz f : Z) : bool :=
  match rs with
  | [] => false
  | r :: rs' =>
    if base r =? b + sz then
      negb (rflags r =? f) &&
      match rs' with r2 :: _ => (base r2 =? base r + rsize r) && (rflags r2 =? rflags r) | [] => false end
    else if base r + rsize r =? b then false
    else lost rs' b sz f
  end.

Fixpoint end_from (lo : Z) (rs : list lmb_region) : Z :=
  match rs with [] => lo | r :: rs' => end_from (base r + rsize r) rs' end.

(** A requested range: non-empty and ending below the top. *)
Definition range_ok (b sz : Z) : Prop := 0 <= b /\ 0 < sz /\ b + sz < TOP.

Definition disjoint_rgn (b sz : Z) (r : lmb_region) : Prop :=
  b + sz <= base r \/ base r + rsize r <= b.

(** [rs'] is [rs] with the range given attributes [f]. *)
Definition updates (rs rs' : list lmb_region) (b sz f : Z) : Prop :=
  wf_rgns rs' /\
  forall a, flags_at rs' a = if (b <=? a) && (a <? b + sz) then Some f else flags_at rs a.

(** [rs'] is another list for the same attributes. *)
Definition keeps (rs rs' : list lmb_region) : Prop :=
  wf_rgns rs' /\ forall a, flags_at rs' a = flags_at rs a.

(** ** Facts about the lists of regions *)
Section ListFacts.
Implicit Types (rs p q : list lmb_region) (r : lmb_region).

Lemma wf_from_app lo p q : wf_from lo (p ++ q) <-> wf_from lo p /\ wf_from (end_from lo p) q.
Proof. revert lo. induction p as [|r p IH]; intros lo; simpl; [tauto|]. rewrite IH. tauto. Qed.

Lemma wf_from_weaken lo lo' rs : lo' <= lo -> wf_from lo rs -> wf_from lo' rs.
Proof. destruct rs; simpl; intuition lia. Qed.

Lemma end_from_app lo p q : end_from lo (p ++ q) = end_from (end_from lo p) q.
Proof. revert lo. induction p; simpl; auto. Qed.

Lemma end_from_ge lo rs : wf_from lo rs -> lo <= end_from lo rs.
Proof.
  revert lo. induction rs as [|r rs IH]; intros lo; simpl; [lia|].
  intros (?&?&?&H). apply IH in H. lia.
Qed.

Lemma flags_at_app p q a :
  flags_at (p ++ q) a = match flags_at p a with Some f => Some f | None => flags_at q a end.
Proof. induction p as [|r p IH]; simpl; [done|]. destruct (in_rgn a r); auto. Qed.

Lemma flags_at_out lo rs a : wf_from lo rs -> a < lo -> flags_at rs a = None.
Proof.
  revert lo. induction rs as [|r rs IH]; intros lo; simpl; [done|].
  intros (?&?&?&H) Ha. unfold in_rgn. cmp_cases; simpl; try lia; eapply IH; eauto; lia.
Qed.

Lemma flags_at_above lo rs a : wf_from lo rs -> end_from lo rs <= a -> flags_at rs a = None.
Proof.
  revert lo. induction rs as [|r rs IH]; intros lo; simpl; [done|].
  intros (?&?&?&H) Ha. pose proof (end_from_ge _ _ H). unfold in_rgn.
  cmp_cases; simpl; try lia; eapply IH; eauto.
Qed.

(** A range that meets no region falls between a prefix below it and a suffix
    above it. *)
Lemma split_at lo b sz rs :
  wf_from lo rs -> lo <= b -> Forall (disjoint_rgn b sz) rs -> 0 < sz ->
  exists p q, rs = p ++ q /\ wf_from lo p /\ end_from lo p <= b /\ wf_from (b + sz) q.
Proof.
  revert lo. induction rs as [|r rs IH]; intros lo; simpl.
  - intros _ H _ _. exists [], []. simpl. auto.
  - intros (H1&H2&H3&H4) Hb Hd Hs. apply Forall_cons in Hd as [[Hd|Hd] Hds].
    + exists [], (r :: rs). simpl. repeat split; auto; lia.
    + destruct (IH _ H4 Hd Hds Hs) as (p & q & -> & Hp & He & Hq).
      exists (r :: p), q. simpl. auto 10.
Qed.

Ltac solve_in := unfold in_rgn; cmp_cases; simpl in *; try done; try lia.

(** Inserting the range between the two parts. *)
Lemma updates_insert p q b sz f :
  range_ok b sz -> wf_from 0 p -> end_from 0 p <= b -> wf_from (b + sz) q ->
  updates (p ++ q) (p ++ mk_rgn b sz f :: q) b sz f.
Proof.
  intros (Hb & Hs & Ht) Hp He Hq. split.
  - apply wf_from_app. simpl. repeat split; auto; lia.
  - intros a. rewrite !flags_at_app. simpl. unfold in_rgn; simpl.
    destruct ((b <=? a) && (a <? b + sz)) eqn:E; [|done].
    rewrite (flags_at_above 0 p a); [done|done|lia].
Qed.

(** Extending the last region of the prefix upwards. *)
Lemma updates_extend_up p r q b sz :
  range_ok b sz -> wf_from 0 (p ++ [r]) -> base r + rsize r = b -> wf_from (b + sz) q ->
  updates (p ++ r :: q) (p ++ mk_rgn (base r) (rsize r + sz) (rflags r) :: q) b sz (rflags r).
Proof.
  intros (Hb & Hs & Ht) Hp He Hq. apply wf_from_app in Hp as [Hp Hr]; simpl in Hr. split.
  - apply wf_from_app. simpl. repeat split; try tauto; try lia.
    eapply wf_from_weaken; [|exact Hq]. lia.
  - intros a. rewrite !flags_at_app. simpl. unfold in_rgn; simpl.
    destruct (flags_at p a) eqn:Ep.
    + destruct (Z_le_gt_dec (end_from 0 p) a) as [Ha|Ha];
        [rewrite (flags_at_above 0 p a) in Ep by auto; done|]. solve_in.
    + destruct (Z_lt_le_dec a (b + sz)); [|solve_in].
      rewrite (flags_at_out (b + sz) q a) by auto. solve_in.
Qed.

(** Extending the first region of the suffix downwards. *)
Lemma updates_extend_down p r q b sz :
  range_ok b sz -> wf_from 0 p -> end_from 0 p <= b -> base r = b + sz ->
  wf_from (b + sz) (r :: q) ->
  updates (p ++ r :: q) (p ++ mk_rgn b (rsize r + sz) (rflags r) :: q) b sz (rflags r).
Proof.
  intros (Hb & Hs & Ht) Hp He Hr Hq. simpl in Hq. split.
  - apply wf_from_app. simpl. repeat split; try tauto; try lia.
    eapply wf_from_weaken; [|apply Hq]. lia.
  - intros a. rewrite !flags_at_app. simpl. unfold in_rgn; simpl.
    destruct (flags_at p a) eqn:Ep; [|solve_in].
    destruct (Z_le_gt_dec (end_from 0 p) a) as [Ha|Ha];
      [rewrite (flags_at_above 0 p a) in Ep by auto; done|]. solve_in.
Qed.

(** Joining two neighbours that touch and have the same attributes. *)
Lemma join_neighbours lo p r1 r2 q a :
  wf_from lo (p ++ r1 :: r2 :: q) -> base r1 + rsize r1 = base r2 -> rflags r1 = rflags r2 ->
  let rs' := p ++ mk_rgn (base r1) (rsize r1 + rsize r2) (rflags r1) :: q in
  wf_from lo rs' /\ flags_at rs' a = flags_at (p ++ r1 :: r2 :: q) a.
Proof.
  intros Hw Hb Hf rs'. apply wf_from_app in Hw as [Hp Hw]. simpl in Hw. split.
  - apply wf_from_app. simpl. repeat split; try tauto; try lia.
    replace (base r1 + (rsize r1 + rsize r2)) with (base r2 + rsize r2) by lia. tauto.
  - unfold rs'. rewrite !flags_at_app. simpl. destruct (flags_at p a); [done|].
    rewrite <- Hf. solve_in.
Qed.

End ListFacts.

(** ** The array operations, on the live regions *)
Section ArrayFacts.
Implicit Types (l : alist lmb_region) (p q : list lmb_region) (r : lmb_region).

Lemma count_live l : wf l -> count l = length (live l).
Proof. intros W. pose proof (length_live l W). unfold count. lia. Qed.

Lemma data_split l : exists junk, al_data l = live l ++ junk.
Proof. exists (drop (Z.to_nat (al_count l)) (al_data l)). unfold live. by rewrite take_drop. Qed.

Lemma rgn_mid l p r q : live l = p ++ r :: q -> rgn l (length p) = r.
Proof.
  intros H. destruct (data_split l) as [j E]. unfold rgn.
  rewrite E, H, <- app_assoc. apply list_lookup_total_middle. done.
Qed.

Lemma rgn_mid_S l p r r2 q : live l = p ++ r :: r2 :: q -> rgn l (length p + 1) = r2.
Proof.
  intros H. replace (length p + 1)%nat with (length (p ++ [r])) by (rewrite length_app; done).
  apply (rgn_mid l (p ++ [r]) r2 q). by rewrite H, <- app_assoc.
Qed.

Lemma set_rgn_mid l p r q r' :
  wf l -> live l = p ++ r :: q ->
  let l' := set_rgn l (length p) r' in
  wf l' /\ live l' = p ++ r' :: q /\ al_fail l' = al_fail l.
Proof.
  intros W H l'. pose proof W as [? ? ? ?]. split; [|split; [|done]].
  - constructor; simpl; rewrite ?length_insert; lia.
  - unfold l', live; simpl. rewrite take_insert. fold (live l).
    case_decide as Hd; [|exfalso].
    + rewrite H. rewrite insert_app_r_alt by lia. by rewrite Nat.sub_diag.
    + assert (Hl : length (live l) = length (p ++ r :: q)) by by rewrite H.
      rewrite length_app in Hl. simpl in Hl. rewrite <- count_live in Hl by done.
      unfold count in Hl. lia.
Qed.

Lemma remove_loop_lookup n i data j :
  (i + n < length data)%nat ->
  remove_loop n i data !! j =
    if decide (i <= j < i + n)%nat then data !! S j else data !! j.
Proof.
  revert i data. induction n as [|n IH]; intros i data Hi; simpl.
  { case_decide; [lia|done]. }
  rewrite IH by (rewrite length_insert; lia).
  destruct (lookup_lt_is_Some_2 data (S i)) as [x Hx]; [lia|].
  rewrite (list_lookup_total_correct _ _ _ Hx).
  destruct (decide (j = i)) as [->|Hne].
  - rewrite decide_False by lia. rewrite decide_True by lia.
    rewrite list_lookup_insert_eq by lia. done.
  - destruct (decide (S i <= j < S i + n)%nat);
      [rewrite decide_True by lia|rewrite decide_False by lia];
      by rewrite list_lookup_insert_ne by lia.
Qed.

Lemma remove_loop_length n i data : length (remove_loop n i data) = length data.
Proof.
  revert i data. induction n as [|n IH]; intros i data; simpl; [done|].
  by rewrite IH, length_insert.
Qed.

Lemma remove_mid l p r q :
  wf l -> live l = p ++ r :: q ->
  let l' := lmb_remove_region l (length p) in
  wf l' /\ live l' = p ++ q /\ al_fail l' = al_fail l.
Proof.
  intros W H l'. pose proof W as [Hb Ha Hc Hs].
  pose proof (count_live l W) as Hl. rewrite H, length_app in Hl. simpl in Hl.
  assert (Hd : (count l <= length (al_data l))%nat) by (unfold count; lia).
  assert (Hcl : al_count l = Z.of_nat (count l)) by (unfold count; lia).
  unfold l', lmb_remove_region. split; [|split; [|done]].
  - constructor; simpl; rewrite ?remove_loop_length; nowrap; lia.
  - unfold live, set_count, set_data; simpl.
    rewrite u16_small by lia. destruct (data_split l) as [junk E]. rewrite E, H.
    replace (Z.to_nat (al_count l - 1)) with (length p + length q)%nat by lia.
    rewrite <- app_assoc.
    apply list_eq. intros j. destruct (decide (j < length p + length q)%nat) as [Hj|Hj].
    + rewrite lookup_take_lt by lia. rewrite remove_loop_lookup
        by (rewrite ?length_app; simpl; rewrite ?length_app; lia).
      case_decide as Hcase.
      * rewrite !lookup_app_r by lia. replace (S j - length p)%nat with (S (j - length p)) by lia.
        simpl. rewrite lookup_app_l by lia. by rewrite lookup_app_r by lia.
      * rewrite !lookup_app_l by lia. done.
    + rewrite lookup_take_ge by lia. symmetry. apply lookup_ge_None.
      rewrite length_app. lia.
Qed.

(** The insertion loop puts the new region after the last one that is not
    above it. *)
Lemma insert_loop_spec p q x junk new :
  Forall (fun r => base new < base r) q ->
  (forall r, last p = Some r -> base r <= base new) ->
  insert_loop (length (p ++ q)) (p ++ q ++ x :: junk) new = p ++ new :: q ++ junk.
Proof.
  intros Hq Hp. revert x junk. induction q as [|y q IH] using rev_ind; intros x junk.
  - rewrite app_nil_r. simpl. destruct p as [|z p' _] using rev_ind; [done|].
    rewrite length_app. simpl. rewrite Nat.add_comm. simpl.
    rewrite <- app_assoc. simpl. rewrite (list_lookup_total_middle _ _ _ _ eq_refl).
    specialize (Hp z). rewrite last_snoc in Hp. specialize (Hp eq_refl).
    destruct (Z.ltb_spec (base new) (base z)); [lia|].
    replace (S (length p')) with (length (p' ++ [z]) + 0)%nat by (rewrite length_app; simpl; lia).
    change (p' ++ z :: x :: junk) with (p' ++ [z] ++ x :: junk).
    rewrite (app_assoc p' [z] (x :: junk)), insert_app_r. simpl. by rewrite <- app_assoc.
  - apply Forall_app in Hq as [Hq Hy]. apply Forall_cons in Hy as [Hy _].
    replace (length (p ++ q ++ [y])) with (S (length (p ++ q)))
      by (rewrite !length_app; simpl; lia). simpl.
    rewrite <- (app_assoc q [y]), (app_assoc p q). simpl.
    rewrite (list_lookup_total_middle _ _ _ _ eq_refl).
    destruct (Z.ltb_spec (base new) (base y)); [|lia].
    replace (<[S (length (p ++ q)) := y]> ((p ++ q) ++ y :: x :: junk))
      with (p ++ q ++ y :: y :: junk).
    + rewrite (IH Hq). by rewrite <- app_assoc.
    + rewrite insert_app_r_alt by lia.
      replace (S (length (p ++ q)) - length (p ++ q))%nat with 1%nat by lia.
      simpl. by rewrite app_assoc.
Qed.

End ArrayFacts.

(** ** Adding a region *)
Section AddFacts.
Context (malloc : Z -> bool).
Implicit Types (l : alist lmb_region) (p q rs : list lmb_region) (r : lmb_region).

Definition clear (b sz : Z) (r : lmb_region) : Prop :=
  lmb_addrs_adjacent b sz (base r) (rsize r) = 0 /\
  lmb_addrs_overlap b sz (base r) (rsize r) = false.

Definition rgn_ok (r : lmb_region) : Prop := range_ok (base r) (rsize r).

Lemma overlap_spec b sz b2 sz2 : range_ok b sz -> range_ok b2 sz2 ->
  lmb_addrs_overlap b sz b2 sz2 = (b <? b2 + sz2) && (b2 <? b + sz).
Proof.
  unfold range_ok, TOP. intros. unfold lmb_addrs_overlap. nowrap.
  apply eq_bool_prop_intro. rewrite !andb_True, !Is_true_true. lia.
Qed.

Lemma adjacent_spec b sz b2 sz2 : range_ok b sz -> range_ok b2 sz2 ->
  lmb_addrs_adjacent b sz b2 sz2 =
    if b2 =? b + sz then 1 else if b =? b2 + sz2 then -1 else 0.
Proof. unfold range_ok, TOP. intros. unfold lmb_addrs_adjacent. by nowrap. Qed.

Lemma wf_from_ok lo rs : 0 <= lo -> wf_from lo rs -> Forall rgn_ok rs.
Proof.
  revert lo. induction rs as [|r rs IH]; intros lo; simpl; [constructor|].
  intros ? (?&?&?&?). constructor; [repeat split; lia|]. eapply IH; [|done]. lia.
Qed.

Lemma wf_from_bounds lo rs : 0 <= lo -> wf_from lo rs ->
  Forall (fun r => rgn_ok r /\ lo <= base r /\ base r + rsize r <= end_from lo rs) rs.
Proof.
  revert lo. induction rs as [|r rs IH]; intros lo; simpl; [constructor|].
  intros Hlo (?&?&?&H). pose proof (end_from_ge _ _ H).
  constructor; [repeat split; lia|].
  eapply Forall_impl; [apply IH; [|done]; lia|]. simpl. intros ? (?&?&?). split; [done|lia].
Qed.

Lemma clear_sep b sz r : range_ok b sz -> rgn_ok r ->
  base r + rsize r < b \/ b + sz < base r -> clear b sz r.
Proof.
  intros H H' Hd. unfold clear. rewrite adjacent_spec, overlap_spec by done.
  unfold rgn_ok, range_ok in *. split; cmp_cases; simpl; try done; lia.
Qed.

(** The loop walks over clear regions. *)
Lemma coalesce_loop_skip l p q1 q2 b sz f :
  live l = p ++ q1 ++ q2 -> Forall (clear b sz) q1 ->
  coalesce_loop (length (q1 ++ q2)) (length p) l b sz f =
  coalesce_loop (length q2) (length (p ++ q1)) l b sz f.
Proof.
  revert p. induction q1 as [|r q1 IH]; intros p Hl Hc; simpl; [by rewrite app_nil_r|].
  apply Forall_cons in Hc as [[Ha Ho] Hc]. unfold coalesce_body.
  rewrite (rgn_mid l p r (q1 ++ q2)) by done. rewrite Ha, Ho. simpl.
  replace (S (length p)) with (length (p ++ [r])) by (rewrite length_app; simpl; lia).
  rewrite IH by (rewrite ?Hl, <- ?app_assoc; done). by rewrite <- app_assoc.
Qed.

(** What the merge step after the loop does to region [i] and its successor. *)
Lemma merge_next_none l p r q c :
  wf l -> live l = p ++ r :: q -> wf_from (end_from 0 p) (r :: q) -> 0 <= end_from 0 p ->
  match q with
  | [] => True
  | r2 :: _ => rflags r = rflags r2 -> base r + rsize r < base r2
  end ->
  merge_next l (length p) c = (c, l).
Proof.
  intros W Hl Hw H0 Hq. unfold merge_next.
  pose proof (length_live l W) as Hn. rewrite Hl, length_app in Hn. simpl in Hn.
  destruct q as [|r2 q]; simpl in Hn.
  - destruct (Z.ltb_spec (Z.of_nat (length p)) (al_count l - 1)); [lia|].
    by rewrite andb_false_r.
  - destruct (Z.ltb_spec (Z.of_nat (length p)) (al_count l - 1)); [|lia].
    destruct (Z.eqb_spec (al_count l) 0); [lia|]. simpl.
    rewrite (rgn_mid l p r (r2 :: q)), (rgn_mid_S l p r r2 q) by done.
    destruct (Z.eqb_spec (rflags r) (rflags r2)) as [Ef|]; [|done].
    specialize (Hq Ef). simpl in Hw.
    unfold lmb_regions_adjacent, lmb_regions_overlap.
    rewrite (rgn_mid l p r (r2 :: q)), (rgn_mid_S l p r r2 q) by done.
    rewrite adjacent_spec, overlap_spec by (repeat split; lia).
    destruct (Z.eqb_spec (base r2) (base r + rsize r)); [lia|].
    destruct (Z.eqb_spec (base r) (base r2 + rsize r2)); [lia|]. simpl.
    destruct (Z.ltb_spec (base r2) (base r + rsize r)); [lia|].
    by rewrite andb_false_r.
Qed.

Lemma merge_next_join l p r r2 q c :
  wf l -> live l = p ++ r :: r2 :: q -> wf_from (end_from 0 p) (r :: r2 :: q) ->
  0 <= end_from 0 p ->
  rflags r = rflags r2 -> base r + rsize r = base r2 ->
  exists l', merge_next l (length p) c = (c + 1, l') /\ wf l' /\ al_fail l' = al_fail l /\
    live l' = p ++ mk_rgn (base r) (rsize r + rsize r2) (rflags r) :: q.
Proof.
  intros W Hl Hw H0 Ef Eb. unfold merge_next.
  pose proof (length_live l W) as Hn. rewrite Hl, length_app in Hn. simpl in Hn.
  destruct (Z.ltb_spec (Z.of_nat (length p)) (al_count l - 1)); [|lia].
  destruct (Z.eqb_spec (al_count l) 0); [lia|]. simpl.
  unfold lmb_coalesce_regions, lmb_regions_adjacent.
  rewrite (rgn_mid l p r (r2 :: q)), (rgn_mid_S l p r r2 q) by done.
  rewrite Ef, Z.eqb_refl. simpl in Hw.
  rewrite adjacent_spec by (repeat split; lia).
  destruct (Z.eqb_spec (base r2) (base r + rsize r)); [|lia]. simpl.
  unfold TOP in *. rewrite u64_small by lia. eexists. split; [done|].
  destruct (set_rgn_mid l p r (r2 :: q)
              (mk_rgn (base r) (rsize r + rsize r2) (rflags r2)) W Hl) as (W1 & L1 & F1).
  replace (length p + 1)%nat
    with (length (p ++ [mk_rgn (base r) (rsize r + rsize r2) (rflags r2)]))
    by (rewrite length_app; done).
  edestruct (remove_mid _ (p ++ [mk_rgn (base r) (rsize r + rsize r2) (rflags r2)]) r2 q W1)
    as (W2 & L2 & F2); [by rewrite L1, <- app_assoc|].
  split; [exact W2|]. split; [exact (eq_trans F2 F1)|]. by rewrite L2, <- app_assoc.
Qed.

(** Sorted insertion of a region that touches nothing already merged. *)
Lemma insert_live l p q b sz f :
  wf l -> al_count l < al_alloc l -> live l = p ++ q -> wf_from 0 p -> end_from 0 p <= b ->
  wf_from (b + sz) q -> 0 < sz ->
  let l4 := set_data l (insert_loop (count l) (al_data l) (mk_rgn b sz f)) in
  let l5 := set_count l4 (al_count l4 + 1) in
  wf l5 /\ live l5 = p ++ mk_rgn b sz f :: q /\ al_fail l5 = al_fail l.
Proof.
  intros W Hfull Hl Hp He Hq Hs l4 l5. pose proof W as [Hb Ha Hc Ho].
  destruct (data_split l) as [junk E].
  assert (Hj : exists x junk', junk = x :: junk').
  { destruct junk; [|eauto]. rewrite app_nil_r in E.
    pose proof (length_live l W). rewrite <- E in *. lia. }
  destruct Hj as (x & junk' & ->).
  assert (X : insert_loop (count l) (al_data l) (mk_rgn b sz f)
              = p ++ mk_rgn b sz f :: q ++ junk').
  { rewrite count_live, Hl, E, Hl, <- app_assoc by done. apply insert_loop_spec; simpl.
    - eapply Forall_impl; [apply (wf_from_bounds (b + sz)); [|done]|simpl; intros; lia].
      pose proof (end_from_ge _ _ Hp). lia.
    - intros r Hr. destruct p as [|y p' _] using rev_ind; [done|].
      rewrite last_snoc in Hr. injection Hr as ->.
      apply wf_from_app in Hp as [_ Hr]. rewrite end_from_app in He. simpl in *. lia. }
  unfold l5, l4. rewrite X. clear X. unfold set_count, set_data; simpl.
  rewrite u16_small by lia.
  assert (Hlen : Z.of_nat (length (p ++ q)) = al_count l) by (rewrite <- Hl; by apply length_live).
  rewrite E, Hl in Hb. rewrite !length_app in *. simpl in *.
  split; [|split; [|done]].
  - constructor; simpl; rewrite ?length_app; simpl; rewrite ?length_app; lia.
  - unfold live; simpl.
    replace (Z.to_nat (al_count l + 1)) with (length (p ++ mk_rgn b sz f :: q))
      by (rewrite length_app; simpl; lia).
    change (p ++ mk_rgn b sz f :: q ++ junk') with (p ++ (mk_rgn b sz f :: q) ++ junk').
    rewrite app_assoc. apply take_app_length.
Qed.

(** The outcome of adding: done with the given attributes, or lost, or out of
    memory with the regions as they were. *)
Definition added l (b sz f : Z) (res : Z * alist lmb_region) : Prop :=
  wf (snd res) /\
  ((fst res = 0 /\ al_fail (snd res) = al_fail l /\
    if lost (live l) b sz f then keeps (live l) (live (snd res)) else updates (live l) (live (snd res)) b sz f) \/
   (fst res = -1 /\ live (snd res) = live l /\ al_fail (snd res) = true)).

Lemma lost_skip p q b sz f : range_ok b sz -> Forall rgn_ok p -> Forall (clear b sz) p -> lost (p ++ q) b sz f = lost q b sz f.
Proof.
  intros Hr. induction p as [|r p IH]; intros Hp Hc; [done|]. apply Forall_cons in Hp as [Hp Hps], Hc as [[Hc _] Hcs].
  rewrite adjacent_spec in Hc by done. cbn [app lost].
  destruct (base r =? b + sz), (Z.eqb_spec b (base r + rsize r)); try done. rewrite (proj2 (Z.eqb_neq _ _)) by lia. auto.
Qed.

Lemma add_sorted_spec l p q b sz f :
  wf l -> 0 < al_alloc l < 32768 -> live l = p ++ q -> range_ok b sz ->
  al_fail l = false -> lost (p ++ q) b sz f = false ->
  wf_from 0 p -> end_from 0 p <= b -> wf_from (b + sz) q ->
  added l b sz f (add_sorted malloc l b sz f).
Proof.
  intros W Ha Hl Hr Hf Hlo Hp He Hq. unfold add_sorted, alist_full, alist_expand_by.
  pose proof W as [Hb Ha' Hc Ho]. pose proof Hr as (Hr1 & Hr2 & Hr3).
  destruct (Z.eqb_spec (al_count l) (al_alloc l)) as [Efull|Hne].
  - rewrite u32_small by lia.
    destruct (alist_expand_to zero_rgn malloc l (al_alloc l + al_alloc l)) as [ok l3] eqn:X.
    apply expand_to_spec in X as (W3 & L3 & C3 & S3 & B3); [|done|lia].
    destruct ok; simpl.
    + destruct (insert_live l3 p q b sz f) as (W5 & L5 & F5);
        [done|lia|congruence|done..|].
      split; [exact W5|]. left. split; [done|]. simpl in *. rewrite L5, Hl, Hlo. split.
      * rewrite Hf. tauto.
      * by apply updates_insert.
    + split; [done|]. right. split; [done|]. simpl. tauto.
  - simpl. destruct (insert_live l p q b sz f) as (W5 & L5 & F5); [done|lia|done..|].
    split; [exact W5|]. left. split; [done|]. simpl in *. rewrite L5, Hl, Hlo.
    split; [done|by apply updates_insert].
Qed.

Lemma clear_below p r lo :
  wf_from lo (p ++ [r]) -> 0 <= lo -> forall b sz, range_ok b sz -> base r + rsize r <= b ->
  Forall (clear b sz) p.
Proof.
  intros Hw Hlo b sz Hr He. apply wf_from_app in Hw as [Hp Hr']. simpl in Hr'.
  eapply Forall_impl; [apply wf_from_bounds; [|exact Hp]; lia|].
  intros x (Hx & ? & ?). apply clear_sep; [done|done|]. left. lia.
Qed.

Lemma clear_above lo q b sz :
  wf_from lo q -> 0 <= lo -> range_ok b sz -> b + sz < lo -> Forall (clear b sz) q.
Proof.
  intros Hw Hlo Hr He. eapply Forall_impl; [apply (wf_from_bounds lo); [lia|done]|].
  intros x (Hx & ? & ?). apply clear_sep; [done|done|]. right. lia.
Qed.

(** The body of the loop on the region it stops at. *)
Lemma coalesce_body_up l p r q b sz f :
  live l = p ++ r :: q -> rgn_ok r -> range_ok b sz -> base r + rsize r = b ->
  coalesce_body l (length p) b sz f =
    if f =? rflags r
    then CBreak 1 (set_rgn l (length p) (mk_rgn (base r) (rsize r + sz) (rflags r)))
    else CBreak 0 l.
Proof.
  intros Hl Hr Hb He. unfold coalesce_body. rewrite (rgn_mid l p r q Hl).
  rewrite adjacent_spec by done. unfold rgn_ok, range_ok, TOP in *.
  destruct (Z.eqb_spec (base r) (b + sz)); [lia|].
  destruct (Z.eqb_spec b (base r + rsize r)); [|lia]. simpl.
  rewrite u64_small by lia. by destruct (f =? rflags r).
Qed.

Lemma coalesce_body_down l p r q b sz f :
  live l = p ++ r :: q -> rgn_ok r -> range_ok b sz -> b + sz = base r ->
  coalesce_body l (length p) b sz f =
    if f =? rflags r
    then CBreak 1 (set_rgn l (length p) (mk_rgn b (rsize r + sz) (rflags r)))
    else CBreak 0 l.
Proof.
  intros Hl Hr Hb He. unfold coalesce_body. rewrite (rgn_mid l p r q Hl).
  rewrite adjacent_spec by done. unfold rgn_ok, range_ok, TOP in *.
  destruct (Z.eqb_spec (base r) (b + sz)); [|lia]. simpl.
  rewrite !u64_small by lia. replace (base r - sz) with b by lia.
  by destruct (f =? rflags r).
Qed.

Lemma updates_join rs p r1 r2 q b sz f :
  updates rs (p ++ r1 :: r2 :: q) b sz f -> base r1 + rsize r1 = base r2 ->
  rflags r1 = rflags r2 ->
  updates rs (p ++ mk_rgn (base r1) (rsize r1 + rsize r2) (rflags r1) :: q) b sz f.
Proof.
  intros [Hw Hf] Hb He. split.
  - by apply (join_neighbours 0 p r1 r2 q 0).
  - intros a. rewrite <- Hf. by apply (join_neighbours 0 p r1 r2 q a).
Qed.

Lemma head_touches e f q :
  (exists r q', q = r :: q' /\ e = base r /\ f = rflags r) \/
  ~ (exists r q', q = r :: q' /\ e = base r /\ f = rflags r).
Proof.
  destruct q as [|r q]; [right; by intros (?&?&?&_)|].
  destruct (Z.eq_dec e (base r)), (Z.eq_dec f (rflags r)); 
    [left; eauto|right; intros (?&?&[= <- <-]&?&?); congruence..].
Qed.

Lemma last_touches b p :
  (exists p' r, p = p' ++ [r] /\ base r + rsize r = b) \/
  ~ (exists p' r, p = p' ++ [r] /\ base r + rsize r = b).
Proof.
  destruct p as [|r p _] using rev_ind; [right; by intros ([|]&?&?&_)|].
  destruct (Z.eq_dec (base r + rsize r) b); [left; eauto|right].
  intros (p' & r' & E & ?). apply app_inj_tail in E as [_ ->]. lia.
Qed.

(** Region [r] ends where the range starts. *)
Lemma add_touch_up l p r q b sz f :
  wf l -> al_fail l = false -> 0 < al_alloc l < 32768 ->
  live l = p ++ r :: q -> wf_from 0 (p ++ [r]) -> base r + rsize r = b ->
  wf_from (b + sz) q -> range_ok b sz ->
  added l b sz f (lmb_add_region_flags malloc l b sz f).
Proof.
  intros W Hf Ha Hl Hp He Hq Hr. unfold lmb_add_region_flags, alist_err. rewrite Hf.
  pose proof Hp as Hp'. apply wf_from_app in Hp' as [Hp0 Hr0]. simpl in Hr0.
  pose proof (end_from_ge _ _ Hp0) as Hge. pose proof Hr as (Hr1 & Hr2 & Hr3).
  assert (Hok : rgn_ok r) by (repeat split; lia).
  assert (Hcl : Forall (clear b sz) p) by (apply (clear_below p r 0); [done|lia|done|lia]).
  assert (Hlo : lost (p ++ r :: q) b sz f = false).
  { rewrite lost_skip by (done || by apply (wf_from_ok 0)). cbn [lost].
    rewrite (proj2 (Z.eqb_neq (base r) (b + sz))) by lia. by rewrite (proj2 (Z.eqb_eq (base r + rsize r) b)) by lia. }
  rewrite count_live, Hl by done.
  rewrite (coalesce_loop_skip l [] p (r :: q)) by done.
  simpl. rewrite (coalesce_body_up l p r q) by done.
  destruct (Z.eqb_spec f (rflags r)) as [->|Hne].
  - destruct (set_rgn_mid l p r q (mk_rgn (base r) (rsize r + sz) (rflags r)) W Hl)
      as (W1 & L1 & F1).
    pose proof (updates_extend_up p r q b sz Hr Hp He Hq) as U.
    assert (Hw1 : wf_from (end_from 0 p) (mk_rgn (base r) (rsize r + sz) (rflags r) :: q)).
    { destruct U as [U _]. apply wf_from_app in U. tauto. }
    destruct (head_touches (base r + (rsize r + sz)) (rflags r) q)
      as [(r2 & q' & -> & E2 & Ef)|Hn].
    + destruct (merge_next_join _ p _ r2 q' 1 W1 L1 Hw1) as (l2 & M & W2 & F2 & L2);
        [lia|done|done|].
      rewrite M. simpl. split; [done|]. left. split; [done|]. simpl in *.
      rewrite L2, Hl, Hlo. split; [congruence|].
      exact (updates_join _ p (mk_rgn (base r) (rsize r + sz) (rflags r)) r2 q' _ _ _ U E2 Ef).
    + rewrite (merge_next_none _ p _ q 1 W1 L1 Hw1); [|lia|].
      * simpl. split; [done|]. left. simpl. split; [done|]. by rewrite L1, Hl, Hlo.
      * destruct q as [|r2 q']; [done|]. simpl. intros Ef. simpl in Hw1.
        destruct (Z.eq_dec (base r + (rsize r + sz)) (base r2)); [exfalso; eauto 10|lia].
  - rewrite (merge_next_none l p r q 0 W Hl); [|simpl; repeat split; try lia|lia|].
    + simpl. apply (add_sorted_spec l (p ++ [r]) q); try done; [by rewrite <- app_assoc|by rewrite <- app_assoc|].
      rewrite end_from_app. simpl. lia.
    + eapply wf_from_weaken; [|exact Hq]. lia.
    + destruct q; [done|]. simpl in Hq. lia.
Qed.

(** Region [r] starts where the range ends, and nothing below touches it. *)
Lemma add_touch_down l p r q b sz f :
  wf l -> al_fail l = false -> 0 < al_alloc l < 32768 ->
  live l = p ++ r :: q -> wf_from 0 p -> end_from 0 p <= b -> Forall (clear b sz) p ->
  base r = b + sz -> wf_from (b + sz) (r :: q) -> range_ok b sz ->
  added l b sz f (lmb_add_region_flags malloc l b sz f).
Proof.
  intros W Hf Ha Hl Hp He Hcl Hb Hq Hr. unfold lmb_add_region_flags, alist_err. rewrite Hf.
  pose proof (end_from_ge _ _ Hp) as Hge. pose proof Hr as (Hr1 & Hr2 & Hr3).
  pose proof Hq as Hq'. simpl in Hq'. destruct Hq' as (Hq1 & Hq2 & Hq3 & Hq4).
  assert (Hok : rgn_ok r) by (repeat split; lia).
  assert (Hlo : lost (p ++ r :: q) b sz f = lost (r :: q) b sz f) by (apply lost_skip; [done|by apply (wf_from_ok 0)|done]).
  cbn [lost] in Hlo. rewrite (proj2 (Z.eqb_eq (base r) (b + sz)) Hb) in Hlo.
  assert (Hwq : wf_from (end_from 0 p) (r :: q)) by (simpl; repeat split; try lia; done).
  rewrite count_live, Hl by done.
  rewrite (coalesce_loop_skip l [] p (r :: q)) by done.
  simpl. rewrite (coalesce_body_down l p r q) by done. rewrite (Z.eqb_sym (rflags r) f) in Hlo.
  destruct (Z.eqb_spec f (rflags r)) as [->|Hne]; cbn [negb andb] in Hlo.
  - destruct (set_rgn_mid l p r q (mk_rgn b (rsize r + sz) (rflags r)) W Hl)
      as (W1 & L1 & F1).
    pose proof (updates_extend_down p r q b sz Hr Hp He Hb Hq) as U.
    assert (Hw1 : wf_from (end_from 0 p) (mk_rgn b (rsize r + sz) (rflags r) :: q)).
    { destruct U as [U _]. apply wf_from_app in U. tauto. }
    destruct (head_touches (b + (rsize r + sz)) (rflags r) q) as [(r2 & q' & -> & E2 & Ef)|Hn].
    + destruct (merge_next_join _ p _ r2 q' 1 W1 L1 Hw1) as (l2 & M & W2 & F2 & L2); [lia|done|done|].
      rewrite M. simpl. split; [done|]. left. split; [done|]. simpl in *. rewrite L2, Hl, Hlo. split; [congruence|].
      exact (updates_join _ p (mk_rgn b (rsize r + sz) (rflags r)) r2 q' _ _ _ U E2 Ef).
    + rewrite (merge_next_none _ p _ q 1 W1 L1 Hw1); [|lia|].
      * simpl. split; [done|]. left. simpl. split; [done|]. by rewrite L1, Hl, Hlo.
      * destruct q as [|r2 q']; [done|]. simpl. intros Ef. simpl in Hw1.
        destruct (Z.eq_dec (b + (rsize r + sz)) (base r2)); [exfalso; eauto 10|lia].
  - destruct (head_touches (base r + rsize r) (rflags r) q) as [(r2 & q' & -> & E2 & Ef)|Hn].
    + destruct (merge_next_join l p r r2 q' 0 W Hl Hwq) as (l2 & M & W2 & F2 & L2); [lia|done|done|].
      rewrite M. simpl. split; [done|]. left. split; [done|]. simpl in *. split; [done|].
      rewrite L2, Hl, Hlo, <- E2, <- Ef, !Z.eqb_refl. cbn [andb].
      assert (Hwl : wf_from 0 (p ++ r :: r2 :: q')) by (by apply wf_from_app).
      split; [by apply (join_neighbours 0 p r r2 q' 0)|]. intros a. by apply (join_neighbours 0 p r r2 q' a).
    + assert (Hsep : match q with [] => True | r2 :: _ => rflags r = rflags r2 -> base r + rsize r < base r2 end).
      { destruct q as [|r2 q']; [done|]. intros Ef. simpl in Hq4.
        destruct (Z.eq_dec (base r + rsize r) (base r2)); [exfalso; eauto 10|lia]. }
      assert (Hlo2 : lost (p ++ r :: q) b sz f = false).
      { rewrite Hlo. destruct q as [|r2 q']; [done|].
        destruct (Z.eqb_spec (base r2) (base r + rsize r)), (Z.eqb_spec (rflags r2) (rflags r)); try done.
        exfalso. apply Hn. by exists r2, q'. }
      rewrite (merge_next_none l p r q 0 W Hl Hwq); [|lia|done].
      simpl. by apply (add_sorted_spec l p (r :: q)).
Qed.

(** Nothing touches the range. *)
Lemma add_apart l p q b sz f :
  wf l -> al_fail l = false -> 0 < al_alloc l < 32768 ->
  live l = p ++ q -> wf_from 0 p -> end_from 0 p <= b -> Forall (clear b sz) (p ++ q) ->
  wf_from (b + sz) q -> range_ok b sz ->
  added l b sz f (lmb_add_region_flags malloc l b sz f).
Proof.
  intros W Hf Ha Hl Hp He Hcl Hq Hr. unfold lmb_add_region_flags, alist_err. rewrite Hf.
  rewrite count_live, Hl by done. pose proof (length_live l W) as Hn. rewrite Hl in Hn.
  rewrite <- (app_nil_r (p ++ q)) at 1.
  rewrite (coalesce_loop_skip l [] (p ++ q) []) by (rewrite ?app_nil_r; done).
  simpl. unfold merge_next.
  destruct (Z.ltb_spec (Z.of_nat (length (p ++ q))) (al_count l - 1)); [lia|].
  rewrite andb_false_r. simpl. apply (add_sorted_spec l p q); try done.
  pose proof (wf_from_ok 0 p ltac:(lia) Hp) as O1. pose proof (end_from_ge _ _ Hp). destruct Hr as (Hr1 & Hr2 & Hr3).
  pose proof (wf_from_ok (b + sz) q ltac:(lia) Hq) as O2.
  rewrite <- (app_nil_r (p ++ q)). by rewrite lost_skip by (done || by apply Forall_app).
Qed.

Lemma add_disjoint l b sz f :
  wf l -> al_fail l = false -> 0 < al_alloc l < 32768 ->
  wf_rgns (live l) -> range_ok b sz ->
  Forall (disjoint_rgn b sz) (live l) ->
  added l b sz f (lmb_add_region_flags malloc l b sz f).
Proof.
  intros W Hf Ha Hw Hr Hd. pose proof Hr as (Hr1 & Hr2 & Hr3).
  destruct (split_at 0 b sz (live l) Hw) as (p & q & Hl & Hp & He & Hq); [lia|done|lia|].
  destruct (last_touches b p) as [(p' & r & -> & Eb)|Hnup].
  - apply (add_touch_up l p' r q); try done. by rewrite Hl, <- app_assoc.
  - assert (Hcp : Forall (clear b sz) p).
    { destruct p as [|r p' _] using rev_ind; [constructor|].
      pose proof Hp as Hp'. apply wf_from_app in Hp' as [? Hr']. simpl in Hr'.
      rewrite end_from_app in He. simpl in He.
      apply Forall_app. split; [by apply (clear_below p' r 0)|].
      apply Forall_singleton, clear_sep; [done|pose proof (end_from_ge _ _ H); repeat split; lia|].
      left. destruct (Z.eq_dec (base r + rsize r) b); [exfalso; eauto|lia]. }
    destruct q as [|r q]; [apply (add_apart l p []); rewrite ?app_nil_r in *; done|].
    destruct (Z.eq_dec (base r) (b + sz)) as [Eb|Hnb].
    + by apply (add_touch_down l p r q).
    + apply (add_apart l p (r :: q)); try done. apply Forall_app. split; [done|].
      pose proof Hq as Hq'. simpl in Hq'. apply (clear_above (base r)); [|lia|done|lia].
      simpl. repeat split; try tauto; lia.
Qed.

End AddFacts.

(** ** Finding a free area *)
Section AllocFacts.
Implicit Types (l : alist lmb_region) (p q rs : list lmb_region) (r : lmb_region).

Lemma land_u64_r x y : 0 <= x < TOP -> Z.land x (u64 y) = Z.land x y.
Proof.
  unfold TOP, u64. intros Hx. change 18446744073709551616 with (2 ^ 64) in *.
  rewrite <- Z.land_ones by lia.
  rewrite (Z.land_comm y), Z.land_assoc, (Z.land_ones x), Z.mod_small by lia. done.
Qed.

(** [ALIGN_DOWN] at a power of two rounds down to a multiple. *)
Lemma ALIGN_DOWN_pow2 x k : 0 <= x < TOP -> 0 <= k < 64 ->
  ALIGN_DOWN x (2 ^ k) = x - x mod 2 ^ k.
Proof.
  intros Hx Hk. assert (Hp : 0 < 2 ^ k < TOP).
  { split; [lia|]. unfold TOP. change 18446744073709551616 with (2 ^ 64).
    apply Z.pow_lt_mono_r; lia. }
  unfold ALIGN_DOWN, align_up, align_mask. unfold TOP in *.
  rewrite !(u64_small (2 ^ k - 1)) by lia.
  replace (u64 (u64 (x - (2 ^ k - 1)) + (2 ^ k - 1))) with x.
  - rewrite land_u64_r by (unfold TOP; lia).
    replace (2 ^ k - 1) with (Z.ones k) by (rewrite Z.ones_equiv; lia).
    rewrite <- Z.ldiff_land, Z.ldiff_ones_r by lia.
    rewrite Z.shiftl_mul_pow2, Z.shiftr_div_pow2 by lia.
    pose proof (Z.div_mod x (2 ^ k)). lia.
  - unfold u64. rewrite Zplus_mod_idemp_l.
    replace (x - (2 ^ k - 1) + (2 ^ k - 1)) with x by lia. by rewrite Z.mod_small.
Qed.

Lemma overlaps_region_spec l b sz :
  wf l -> Forall rgn_ok (live l) -> range_ok b sz ->
  match lmb_overlaps_region l b sz with
  | None => Forall (disjoint_rgn b sz) (live l)
  | Some k => exists p r q, live l = p ++ r :: q /\ k = length p /\
                ~ disjoint_rgn b sz r
  end.
Proof.
  intros W Hok Hr. unfold lmb_overlaps_region. rewrite count_live by done.
  assert (X : forall q p, live l = p ++ q ->
    match overlaps_loop (length q) (length p) l b sz with
    | None => Forall (disjoint_rgn b sz) q
    | Some k => exists p r q, live l = p ++ r :: q /\ k = length p /\ ~ disjoint_rgn b sz r
    end).
  { induction q as [|r q IH]; intros p Hl; simpl; [constructor|].
    rewrite (rgn_mid l p r q Hl).
    assert (Hr' : rgn_ok r). { rewrite Hl in Hok. apply Forall_app in Hok as [_ Hok].
      by apply Forall_cons in Hok as [? _]. }
    rewrite overlap_spec by done. unfold disjoint_rgn, rgn_ok, range_ok in *.
    destruct ((b <? base r + rsize r) && (base r <? b + sz)) eqn:E.
    - exists p, r, q. split; [done|]. split; [done|]. lia.
    - specialize (IH (p ++ [r])). rewrite length_app, Nat.add_comm in IH. simpl in IH.
      rewrite <- app_assoc in IH. specialize (IH Hl).
      destruct (overlaps_loop _ _ _ _ _); [done|]. constructor; [lia|done]. }
  specialize (X (live l) [] eq_refl). done.
Qed.

Definition fits (used : list lmb_region) (b sz : Z) : Prop := Forall (disjoint_rgn b sz) used.

Section Fit.
Context (used : alist lmb_region) (sz k lmbbase : Z).
Context (Wu : wf used) (Hu : wf_rgns (live used)) (Hsz : 0 < sz) (Hk : 0 <= k < 64).

(** The fitting loop finds the highest aligned free base at or below its
    start, and [n + 1] rounds are enough when only the first [n] used regions
    lie below the end of the candidate. *)
Lemma fit_loop_enough n fuel b :
  (n < fuel)%nat -> Forall (fun r => b + sz <= base r) (drop n (live used)) ->
  0 <= b -> b mod 2 ^ k = 0 -> b + sz < TOP ->
  match fit_loop fuel used lmbbase b sz (2 ^ k) with
  | Some c => 0 < c /\ lmbbase <= c <= b /\ c mod 2 ^ k = 0 /\ fits (live used) c sz /\
              (forall d, c < d <= b -> d mod 2 ^ k = 0 -> ~ fits (live used) d sz)
  | None => forall d, 0 < d -> lmbbase <= d <= b -> d mod 2 ^ k = 0 ->
              ~ fits (live used) d sz
  end.
Proof.
  revert n b. induction fuel as [|f IH]; intros n b Hn Hab Hb Hal Ht; simpl; [lia|].
  destruct (Z.eqb_spec b 0); simpl; [intros; lia|].
  destruct (Z.leb_spec lmbbase b); [|intros; lia].
  assert (Hr : range_ok b sz) by (repeat split; lia).
  pose proof (overlaps_region_spec used b sz Wu) as O.
  destruct (lmb_overlaps_region used b sz) as [j|];
    specialize (O (wf_from_ok 0 _ ltac:(lia) Hu) Hr).
  2: { repeat split; try lia; done. }
  destruct O as (p & r & q & Hl & -> & Hnd). rewrite (rgn_mid used p r q Hl).
  pose proof Hu as Hw. unfold wf_rgns in Hw. rewrite Hl in Hw.
  apply wf_from_app in Hw as [Hp Hq]. simpl in Hq. pose proof (end_from_ge _ _ Hp).
  assert (Hrj : forall d, d <= b -> fits (live used) d sz -> d + sz <= base r).
  { intros d Hd Hf. unfold fits in Hf. rewrite Hl in Hf.
    apply Forall_app in Hf as [_ Hf]. apply Forall_cons in Hf as [Hf _].
    unfold disjoint_rgn in *. lia. }
  assert (Hpn : (length p < n)%nat).
  { destruct (Nat.lt_ge_cases (length p) n) as [|Hge]; [done|]. exfalso.
    rewrite Hl, drop_app, Forall_app in Hab. destruct Hab as [_ Hab].
    replace (n - length p)%nat with 0%nat in Hab by lia. simpl in Hab.
    apply Forall_cons in Hab as [Hab _]. unfold disjoint_rgn in Hnd. lia. }
  destruct (Z.ltb_spec (base r) sz).
  { intros d Hd1 Hd2 _ Hf. apply Hrj in Hf; lia. }
  unfold TOP in *. rewrite u64_small by lia.
  rewrite ALIGN_DOWN_pow2 by (unfold TOP; lia).
  assert (Hp2 : 0 < 2 ^ k) by lia.
  pose proof (Z.mod_pos_bound (base r - sz) (2 ^ k) Hp2) as Hm.
  pose proof (Z.mod_le (base r - sz) (2 ^ k) ltac:(lia) Hp2) as Hml.
  set (b' := base r - sz - (base r - sz) mod 2 ^ k) in *.
  assert (Hb' : b' mod 2 ^ k = 0) by (by apply align_floor_mod).
  assert (Hskip : forall d, b' < d <= b -> d mod 2 ^ k = 0 -> ~ fits (live used) d sz).
  { intros d Hd Hdm Hf. apply Hrj in Hf; [|lia].
    pose proof (align_floor_max (2 ^ k) d (base r - sz) Hp2 Hdm ltac:(lia)). lia. }
  assert (Hab' : Forall (fun r => b' + sz <= base r) (drop (length p) (live used))).
  { rewrite Hl, drop_app_length. constructor; [lia|].
    eapply Forall_impl; [apply (wf_from_bounds (base r + rsize r)); [lia|tauto]|].
    simpl. intros; lia. }
  specialize (IH (length p) b' ltac:(lia) Hab' ltac:(lia) Hb' ltac:(lia)).
  destruct (fit_loop f used lmbbase b' sz (2 ^ k)) as [c|].
  - destruct IH as (I1 & I2 & I3 & I4 & I5).
    assert (b' <= b). { unfold disjoint_rgn in Hnd. lia. }
    repeat split; try lia; try done. intros d Hd Hdm.
    destruct (Z_le_gt_dec d b'); [apply I5; lia|apply Hskip; lia].
  - intros d Hd1 Hd2 Hdm. destruct (Z_le_gt_dec d b'); [apply IH; lia|apply Hskip; lia].
Qed.
End Fit.

Definition limit (max_addr : Z) : Z := if max_addr =? LMB_ALLOC_ANYWHERE then TOP else max_addr.

(** [c] can hold an allocation: aligned, not 0, inside one available region,
    below the limit and off every used region. *)
Definition placeable (avail used : list lmb_region) (sz k max_addr c : Z) : Prop :=
  0 < c /\ c mod 2 ^ k = 0 /\ c + sz <= limit max_addr /\ fits used c sz /\
  exists r, r ∈ avail /\ base r <= c /\ c + sz <= base r + rsize r.

(** The start candidate of one region is the highest aligned base that stays
    in the region and below the limit. *)
Lemma alloc_start_spec r sz k max_addr :
  rgn_ok r -> 0 < sz -> 0 <= k < 64 -> 0 <= max_addr < TOP ->
  (max_addr = LMB_ALLOC_ANYWHERE \/ sz <= max_addr) ->
  match alloc_start (base r) (rsize r) sz (2 ^ k) max_addr with
  | None => forall c, base r <= c -> c + sz <= base r + rsize r -> c + sz <= limit max_addr -> False
  | Some b => 0 <= b /\ b mod 2 ^ k = 0 /\ b + sz <= base r + rsize r /\
              b + sz <= limit max_addr /\
              (forall c, c mod 2 ^ k = 0 -> base r <= c -> c + sz <= base r + rsize r ->
                 c + sz <= limit max_addr -> c <= b)
  end.
Proof.
  intros (Hr1 & Hr2 & Hr3) Hsz Hk Hm Hmax. unfold alloc_start, limit.
  assert (Hp : 0 < 2 ^ k) by lia.
  destruct (Z.ltb_spec (rsize r) sz); [intros; lia|].
  assert (X : forall hi, sz <= hi < TOP -> let b := ALIGN_DOWN (u64 (hi - sz)) (2 ^ k) in
    0 <= b /\ b mod 2 ^ k = 0 /\ b + sz <= hi /\
    (forall c, c mod 2 ^ k = 0 -> c + sz <= hi -> c <= b)).
  { unfold TOP. intros hi Hhi. rewrite u64_small by lia.
    rewrite ALIGN_DOWN_pow2 by (unfold TOP; lia).
    pose proof (Z.mod_pos_bound (hi - sz) (2 ^ k) Hp).
    pose proof (Z.mod_le (hi - sz) (2 ^ k) ltac:(lia) Hp).
    repeat split; [lia|by apply align_floor_mod|lia|].
    intros c Hc Hcs. apply align_floor_max; [done|done|lia]. }
  destruct (Z.eqb_spec max_addr LMB_ALLOC_ANYWHERE) as [->|Hne].
  - destruct (X (base r + rsize r)) as (X1 & X2 & X3 & X4); [lia|].
    repeat split; try done; try lia. intros c Hc _ Hce _. by apply X4.
  - destruct Hmax as [?|Hmax]; [done|].
    destruct (Z.ltb_spec (base r) max_addr); [|intros; lia].
    unfold TOP in *. rewrite (u64_small (base r + rsize r)) by lia.
    destruct (Z.ltb_spec (base r + rsize r) (base r)); [lia|].
    destruct (X (Z.min (base r + rsize r) max_addr)) as (X1 & X2 & X3 & X4); [lia|].
    repeat split; try done; try lia. intros c Hc _ Hce Hcl. apply X4; [done|lia].
Qed.

Section AllocLoop.
Context (avail used : alist lmb_region) (sz k max_addr : Z).
Context (Wa : wf avail) (Wu : wf used) (Ha : wf_rgns (live avail)) (Hu : wf_rgns (live used)).
Context (Hsz : 0 < sz) (Hk : 0 <= k < 64) (Hm : 0 <= max_addr < TOP)
        (Hmax : max_addr = LMB_ALLOC_ANYWHERE \/ sz <= max_addr).

Lemma alloc_loop_prefix p q :
  live avail = p ++ q ->
  match alloc_loop (length p) avail used sz (2 ^ k) max_addr with
  | Some b => placeable p (live used) sz k max_addr b /\
              (forall c, placeable p (live used) sz k max_addr c -> c <= b)
  | None => forall c, ~ placeable p (live used) sz k max_addr c
  end.
Proof.
  revert q. induction p as [|r p IH] using rev_ind; intros q Hl; simpl.
  { intros c (_&_&_&_&r&Hr&_). by apply not_elem_of_nil in Hr. }
  rewrite length_app, Nat.add_comm. cbn [length Nat.add alloc_loop].
  rewrite <- app_assoc in Hl. simpl in Hl. rewrite (rgn_mid avail p r q Hl).
  pose proof Ha as Hw. unfold wf_rgns in Hw. rewrite Hl in Hw.
  apply wf_from_app in Hw as [Hp Hr]. simpl in Hr. pose proof (end_from_ge _ _ Hp) as Hge.
  assert (Hlow : forall c, placeable p (live used) sz k max_addr c -> c + sz <= base r).
  { intros c (_&_&_&_&r'&Hr'&_&He). pose proof (wf_from_bounds 0 p ltac:(lia) Hp) as B.
    rewrite Forall_forall in B. specialize (B _ Hr'). lia. }
  assert (Hsplit : forall c, placeable (p ++ [r]) (live used) sz k max_addr c ->
    placeable p (live used) sz k max_addr c \/ (base r <= c /\ c + sz <= base r + rsize r)).
  { intros c (H1&H2&H3&H4&r'&Hr'&H5). apply elem_of_app in Hr' as [Hr'|Hr'].
    - left. repeat split; try done. eauto.
    - apply list_elem_of_singleton in Hr' as ->. auto. }
  assert (Hmono : forall c, placeable p (live used) sz k max_addr c ->
    placeable (p ++ [r]) (live used) sz k max_addr c).
  { intros c (H1&H2&H3&H4&r'&Hr'&H5). repeat split; try done.
    exists r'. rewrite elem_of_app. auto. }
  assert (Hok : rgn_ok r) by (repeat split; lia).
  specialize (IH _ Hl).
  assert (Hnone : (forall c, placeable (p ++ [r]) (live used) sz k max_addr c ->
                     ~ (base r <= c /\ c + sz <= base r + rsize r)) ->
    match alloc_loop (length p) avail used sz (2 ^ k) max_addr with
    | Some b => placeable (p ++ [r]) (live used) sz k max_addr b /\
                (forall c, placeable (p ++ [r]) (live used) sz k max_addr c -> c <= b)
    | None => forall c, ~ placeable (p ++ [r]) (live used) sz k max_addr c
    end).
  { intros Hno. destruct (alloc_loop _ _ _ _ _ _) as [b|].
    - destruct IH as [I1 I2]. split; [auto|]. intros c Hc.
      destruct (Hsplit c Hc) as [?|?]; [auto|]. exfalso. by eapply Hno.
    - intros c Hc. destruct (Hsplit c Hc) as [?|?]; [by eapply IH|by eapply Hno]. }
  pose proof (alloc_start_spec r sz k max_addr Hok Hsz Hk Hm Hmax) as S.
  destruct (alloc_start (base r) (rsize r) sz (2 ^ k) max_addr) as [b|].
  - destruct S as (S1&S2&S3&S4&S5).
    pose proof (fit_loop_enough used sz k (base r) Wu Hu Hsz Hk
      (length (live used)) (Datatypes.S (count used)) b) as F.
    rewrite count_live in F by done. rewrite drop_all in F.
    specialize (F ltac:(lia) ltac:(constructor) S1 S2 ltac:(lia)).
    rewrite <- count_live in F by done.
    destruct (fit_loop (Datatypes.S (count used)) used (base r) b sz (2 ^ k)) as [c|].
    + destruct F as (F1&F2&F3&F4&F5). split.
      * repeat split; try done; try lia. exists r. rewrite elem_of_app, list_elem_of_singleton.
        split; [auto|lia].
      * intros d Hd. destruct (Hsplit d Hd) as [Hd'|Hd']; [apply Hlow in Hd'; lia|].
        destruct Hd as (D1&D2&D3&D4&_).
        destruct (Z_le_gt_dec d c); [done|]. exfalso. apply (F5 d); [|done..].
        split; [lia|]. apply S5; [done|lia..].
    + apply Hnone. intros d (D1&D2&D3&D4&_) Hd'. apply (F d); try done.
      split; [lia|]. apply S5; [done|lia..].
  - apply Hnone. intros d (D1&D2&D3&D4&_) [Hd1 Hd2]. by apply (S d).
Qed.
End AllocLoop.
End AllocFacts.

(** ** Freeing a range *)
Section FreeFacts.
Context (malloc : Z -> bool).
Implicit Types (l : alist lmb_region) (p q rs : list lmb_region) (r : lmb_region).

(** [rs'] is [rs] without the range. *)
Definition clears (rs rs' : list lmb_region) (b sz : Z) : Prop :=
  wf_rgns rs' /\
  forall a, flags_at rs' a = if (b <=? a) && (a <? b + sz) then None else flags_at rs a.

Definition contains (b sz : Z) (r : lmb_region) : Prop :=
  base r <= b /\ b + sz <= base r + rsize r.

Lemma free_find_spec l b sz :
  wf l -> Forall rgn_ok (live l) -> range_ok b sz ->
  match free_find (count l) 0 l b (u64 (b + sz - 1)) with
  | None => Forall (fun r => ~ contains b sz r) (live l)
  | Some i => exists p r q, live l = p ++ r :: q /\ i = length p /\ contains b sz r
  end.
Proof.
  intros W Hok Hr. rewrite count_live by done.
  assert (X : forall q p, live l = p ++ q ->
    match free_find (length q) (length p) l b (u64 (b + sz - 1)) with
    | None => Forall (fun r => ~ contains b sz r) q
    | Some i => exists p r q, live l = p ++ r :: q /\ i = length p /\ contains b sz r
    end).
  { induction q as [|r q IH]; intros p Hl; simpl; [constructor|].
    rewrite (rgn_mid l p r q Hl).
    assert (Hr' : rgn_ok r). { rewrite Hl in Hok. apply Forall_app in Hok as [_ Hok].
      by apply Forall_cons in Hok as [? _]. }
    unfold contains, rgn_ok, range_ok, TOP in *.
    rewrite !u64_small by lia.
    destruct ((base r <=? b) && (b + sz - 1 <=? base r + rsize r - 1)) eqn:E.
    - exists p, r, q. split; [done|]. split; [done|]. lia.
    - specialize (IH (p ++ [r])). rewrite length_app, Nat.add_comm in IH. simpl in IH.
      rewrite <- app_assoc in IH. specialize (IH Hl). rewrite u64_small in IH by lia.
      destruct (free_find _ _ _ _ _); [done|]. constructor; [lia|done]. }
  exact (X (live l) [] eq_refl).
Qed.

(** Replacing a region by a sub-range of it, possibly empty. *)
Lemma clears_shrink lo p r q b sz :
  wf_from lo (p ++ r :: q) -> 0 <= lo -> 0 < sz ->
  let r1 := mk_rgn (base r) (b - base r) (rflags r) in
  let r2 := mk_rgn (b + sz) (base r + rsize r - (b + sz)) (rflags r) in
  contains b sz r -> forall a,
  flags_at (p ++ r1 :: r2 :: q) a =
    if (b <=? a) && (a <? b + sz) then None else flags_at (p ++ r :: q) a.
Proof.
  intros Hw Hlo Hsz r1 r2 [Hc1 Hc2] a. apply wf_from_app in Hw as [Hp Hr]. simpl in Hr.
  rewrite !flags_at_app. simpl. unfold in_rgn; simpl.
  destruct (flags_at p a) eqn:Ep.
  - destruct (Z_le_gt_dec (end_from lo p) a) as [Ha|Ha];
      [rewrite (flags_at_above lo p a) in Ep by auto; done|].
    destruct ((b <=? a) && (a <? b + sz)) eqn:E; [lia|done].
  - destruct (Z_lt_le_dec a (base r + rsize r)).
    + rewrite (flags_at_out (base r + rsize r) q a) by tauto.
      cmp_cases; simpl; try done; lia.
    + cmp_cases; simpl; try done; lia.
Qed.

(** An empty region covers nothing. *)
Lemma flags_at_empty p r q a : rsize r <= 0 -> flags_at (p ++ r :: q) a = flags_at (p ++ q) a.
Proof.
  intros Hs. rewrite !flags_at_app. simpl. unfold in_rgn.
  destruct (flags_at p a); [done|]. cmp_cases; simpl; try done; lia.
Qed.

Lemma wf_disjoint_mid lo p r q b sz :
  wf_from lo (p ++ r :: q) -> 0 <= lo -> base r <= b -> b + sz <= base r + rsize r ->
  Forall (disjoint_rgn b sz) p /\ Forall (disjoint_rgn b sz) q.
Proof.
  intros Hw Hlo Hb He. apply wf_from_app in Hw as [Hp Hr]. simpl in Hr.
  pose proof (end_from_ge _ _ Hp). split.
  - eapply Forall_impl; [apply (wf_from_bounds lo); [lia|done]|].
    intros x (?&?&?). right. lia.
  - eapply Forall_impl; [apply (wf_from_bounds (base r + rsize r)); [lia|tauto]|].
    intros x (?&?&?). left. lia.
Qed.

(** The outcome of freeing a range that region [r] contains: exactly the range
    is cleared, or, when the rest of [r] above it could not be added again,
    everything in [r] from the start of the range. *)
Inductive freed l (b sz : Z) (res : Z * alist lmb_region) : Prop :=
| freed_range :
    fst res = 0 -> clears (live l) (live (snd res)) b sz -> al_fail (snd res) = al_fail l -> freed l b sz res
| freed_rest p r q :
    live l = p ++ r :: q -> base r < b -> b + sz < base r + rsize r ->
    clears (live l) (live (snd res)) b (base r + rsize r - b) ->
    (fst res = 0 /\ lost q (b + sz) (base r + rsize r - (b + sz)) (rflags r) = true) \/
    (fst res = -1 /\ al_fail (snd res) = true) -> freed l b sz res.

(** The middle of a region goes: it is cut short and its tail added again. *)
Lemma free_middle l p r q b sz :
  wf l -> al_fail l = false -> 0 < al_alloc l < 32768 ->
  live l = p ++ r :: q -> wf_rgns (p ++ r :: q) -> 0 < sz ->
  base r < b -> b + sz < base r + rsize r ->
  freed l b sz (lmb_add_region_flags malloc
    (set_rgn l (length p) (mk_rgn (base r) (b - base r) (rflags r)))
    (b + sz) (base r + rsize r - (b + sz)) (rflags r)).
Proof.
  intros W Hf Ha Hl Hw Hsz H1 H2. set (r1 := mk_rgn (base r) (b - base r) (rflags r)).
  destruct (set_rgn_mid l p r q r1 W Hl) as (W1 & L1 & F1).
  pose proof Hw as Hw'. unfold wf_rgns in Hw'. apply wf_from_app in Hw' as [Hp Hr].
  simpl in Hr. destruct Hr as (R1 & R2 & R3 & R4).
  pose proof (end_from_ge _ _ Hp) as Hge.
  set (l1 := set_rgn l (length p) r1) in *. set (b' := b + sz). set (sz' := base r + rsize r - b').
  assert (Ro : range_ok b' sz') by (unfold b', sz'; repeat split; lia).
  assert (Hw1 : wf_from 0 (p ++ r1 :: q)).
  { apply wf_from_app. simpl. repeat split; try done; try lia. eapply wf_from_weaken; [|exact R4]. lia. }
  assert (A : added l1 b' sz' (rflags r) (lmb_add_region_flags malloc l1 b' sz' (rflags r))).
  { apply add_disjoint; try done.
    - rewrite L1. exact Hw1.
    - rewrite L1. destruct (wf_disjoint_mid 0 p r q b' sz' Hw) as [D1 D2]; [unfold b', sz'; lia..|]. apply Forall_app. split; [done|].
      constructor; [right; unfold b'; simpl; lia|done]. }
  assert (Lo : lost (live l1) b' sz' (rflags r) = lost q b' sz' (rflags r)).
  { rewrite L1. change (p ++ r1 :: q) with (p ++ [r1] ++ q). rewrite app_assoc.
    assert (Hw2 : wf_from 0 (p ++ [r1])) by (apply wf_from_app; simpl; repeat split; try done; lia).
    apply lost_skip; [done|by apply (wf_from_ok 0)|]. apply Forall_app. split.
    - apply (clear_below p r1 0); [done|lia|done|unfold b'; simpl; lia].
    - apply Forall_singleton, clear_sep; [done|repeat split; simpl; lia|]. left. unfold b'; simpl; lia. }
  pose proof (clears_shrink 0 p r q b sz Hw ltac:(lia) Hsz ltac:(split; lia)) as C.
  pose proof (clears_shrink 0 p r q b (base r + rsize r - b) Hw ltac:(lia) ltac:(lia) ltac:(split; lia)) as C'.
  assert (Rest : forall a, flags_at (p ++ r1 :: q) a =
    if (b <=? a) && (a <? b + (base r + rsize r - b)) then None else flags_at (p ++ r :: q) a).
  { intros a. rewrite <- C'. pose proof (flags_at_empty (p ++ [r1])
      (mk_rgn (b + (base r + rsize r - b)) (base r + rsize r - (b + (base r + rsize r - b))) (rflags r)) q a) as X.
    rewrite <- !app_assoc in X. symmetry. apply X. simpl. lia. }
  destruct A as [WA [(A1 & A4 & A2)|(A1 & A2 & A3)]].
  - rewrite Lo in A2. destruct (lost q b' sz' (rflags r)) eqn:El.
    + apply (freed_rest _ _ _ _ p r q); [done|done|done| |by left]. destruct A2 as [A2 A3]. split; [done|].
      intros a. by rewrite A3, L1, Hl, Rest.
    + destruct A2 as [A2 A3]. apply freed_range; [done| |by rewrite A4]. split; [done|]. intros a.
      rewrite A3, L1, Hl, <- C. rewrite !flags_at_app. simpl. unfold in_rgn; simpl.
      destruct (flags_at p a) eqn:Ep.
      * destruct (Z_le_gt_dec (end_from 0 p) a) as [Hpa|Hpa];
          [rewrite (flags_at_above 0 p a) in Ep by auto; done|].
        destruct ((b' <=? a) && (a <? b' + sz')) eqn:E; [unfold b', sz' in *; lia|done].
      * unfold b', sz', r1. simpl. cmp_cases; simpl; try done; lia.
  - apply (freed_rest _ _ _ _ p r q); [done|done|done| |by right]. cbn [snd] in *. rewrite A2, L1, Hl. by split.
Qed.

Lemma free_spec l b sz :
  wf l -> al_fail l = false -> 0 < al_alloc l < 32768 ->
  wf_rgns (live l) -> range_ok b sz ->
  (Exists (contains b sz) (live l) /\ freed l b sz (_lmb_free malloc l b sz)) \/
  (~ Exists (contains b sz) (live l) /\ _lmb_free malloc l b sz = (-1, l)).
Proof.
  intros W Hf Ha Hw Hr. pose proof Hr as (Hr1 & Hr2 & Hr3). unfold _lmb_free.
  pose proof (free_find_spec l b sz W (wf_from_ok 0 _ ltac:(lia) Hw) Hr) as F.
  destruct (free_find _ _ _ _ _) as [i|].
  2: { right. split; [|done]. intros (r & Hin & Hc)%Exists_exists.
       rewrite Forall_forall in F. by apply (F r). }
  destruct F as (p & r & q & Hl & -> & Hc). left.
  split; [rewrite Hl; apply Exists_app; right; by constructor|].
  rewrite (rgn_mid l p r q Hl). rewrite Hl in Hw.
  pose proof Hw as Hw'. unfold wf_rgns in Hw'. apply wf_from_app in Hw' as [Hp Hr'].
  pose proof (end_from_ge _ _ Hp). simpl in Hr'. destruct Hr' as (R1 & R2 & R3 & R4).
  pose proof Hc as [Hc1 Hc2]. unfold TOP in *. rewrite !(u64_small (_ - 1)) by lia.
  pose proof (clears_shrink 0 p r q b sz Hw ltac:(lia) Hr2 Hc) as C.
  destruct (Z.eqb_spec (base r) b) as [Eb|Hb]; simpl.
  - destruct (Z.eqb_spec (base r + rsize r - 1) (b + sz - 1)) as [Ee|He].
    + destruct (remove_mid l p r q W Hl) as (W1 & L1 & F1). apply freed_range; [done| |done]. cbn [snd]. rewrite L1, Hl. split.
      * apply wf_from_app. split; [done|]. eapply wf_from_weaken; [|exact R4]. lia.
      * intros a. rewrite <- C. rewrite !flags_at_empty by (simpl; lia). done.
    + rewrite !u64_small by lia. replace (b + sz - 1 + 1) with (b + sz) by lia.
      destruct (set_rgn_mid l p r q (mk_rgn (b + sz) (rsize r - sz) (rflags r)) W Hl)
        as (W1 & L1 & F1). apply freed_range; [done| |done].
      cbn [snd]. rewrite L1, Hl.
      replace (rsize r - sz) with (base r + rsize r - (b + sz)) by lia. split.
      * apply wf_from_app. simpl. repeat split; try done; try (unfold TOP; lia).
        eapply wf_from_weaken; [|exact R4]. lia.
      * intros a. rewrite <- C.
        by rewrite (flags_at_empty p (mk_rgn (base r) (b - base r) (rflags r))) by (simpl; lia).
  - destruct (Z.eqb_spec (base r + rsize r - 1) (b + sz - 1)) as [Ee|He].
    + rewrite !u64_small by lia.
      destruct (set_rgn_mid l p r q (mk_rgn (base r) (rsize r - sz) (rflags r)) W Hl)
        as (W1 & L1 & F1). apply freed_range; [done| |done].
      cbn [snd]. rewrite L1, Hl. replace (rsize r - sz) with (b - base r) by lia. split.
      * apply wf_from_app. simpl. repeat split; try done; try (unfold TOP; lia).
        eapply wf_from_weaken; [|exact R4]. lia.
      * intros a. rewrite <- C.
        pose proof (flags_at_empty (p ++ [mk_rgn (base r) (b - base r) (rflags r)])
          (mk_rgn (b + sz) (base r + rsize r - (b + sz)) (rflags r)) q a) as X.
        rewrite <- !app_assoc in X. simpl in X. symmetry. apply X. lia.
    + rewrite !u64_small by lia.
      replace (b + sz - 1 + 1) with (b + sz) by lia.
      replace (base r + rsize r - 1 - (b + sz - 1)) with (base r + rsize r - (b + sz)) by lia.
      apply (free_middle l p r q); try done; lia.
Qed.

End FreeFacts.

(** ** The memory map as a whole *)

(** A region list in order: the array is sound, its regions are sorted and
    disjoint, and its capacity can still double. *)
Record list_ok (l : alist lmb_region) : Prop := {
  lo_wf : wf l;
  lo_fail : al_fail l = false;
  lo_alloc : 0 < al_alloc l < 32768;
  lo_sorted : wf_rgns (live l)
}.

Record map_ok (s : lmb) : Prop := {
  mo_avail : list_ok (available_mem s);
  mo_used : list_ok (used_mem s)
}.

(** A sample map: two banks, one reservation. *)
Definition sample : lmb :=
  mk_lmb (mk_alist [mk_rgn 4096 65536 0; mk_rgn 1048576 65536 0; zero_rgn; zero_rgn] 24 2 4 false)
         (mk_alist [mk_rgn 1105920 4096 2; zero_rgn; zero_rgn; zero_rgn] 24 1 4 false) false.

Lemma sample_ok : map_ok sample.
Proof.
  split; split; [constructor; simpl; lia|done|simpl; lia| |constructor; simpl; lia|done|simpl; lia|];
    unfold wf_rgns; simpl; unfold TOP; lia.
Qed.

Section Claims.
Context (malloc : Z -> bool) (EFI_LOADER : bool)
        (efi_map_update_notify : Z -> Z -> lmb_map_op -> Z -> Z).

(** The used list after a request for a range that meets no used region. *)
Definition recorded (rs rs' : list lmb_region) (b sz f : Z) : Prop :=
  if lost rs b sz f then keeps rs rs' else updates rs rs' b sz f.

(** What allocating does, whatever the notifier answers. *)
Lemma alloc_base_spec (s : lmb) (sz k max_addr flags : Z) :
  map_ok s -> 0 < sz -> 0 <= k < 64 -> 0 <= max_addr < TOP ->
  (max_addr = LMB_ALLOC_ANYWHERE \/ sz <= max_addr) ->
  let place := placeable (live (available_mem s)) (live (used_mem s)) sz k max_addr in
  let '(ret, s') :=
    _lmb_alloc_base malloc EFI_LOADER efi_map_update_notify s sz (2 ^ k) max_addr flags in
  available_mem s' = available_mem s /\ test s' = test s /\
  ((exists b, place b /\ (forall c, place c -> c <= b) /\
    recorded (live (used_mem s)) (live (used_mem s')) b sz flags /\
    let n := lmb_map_update_notify EFI_LOADER efi_map_update_notify s' b sz LMB_MAP_OP_RESERVE flags in
    ret = if n =? 0 then b else u64 n) \/
   (ret = 0 /\ s' = s /\ forall c, ~ place c) \/
   (ret = 0 /\ live (used_mem s') = live (used_mem s) /\ al_fail (used_mem s') = true)).
Proof.
  intros [[Wa _ _ Ha] [Wu Fu Au Hu]] Hsz Hk Hm Hmax place. unfold _lmb_alloc_base.
  pose proof (alloc_loop_prefix (available_mem s) (used_mem s) sz k max_addr Wu Ha Hu
    Hsz Hk Hm Hmax (live (available_mem s)) []) as A.
  rewrite app_nil_r, <- count_live in A by done. specialize (A eq_refl).
  destruct (alloc_loop _ _ _ _ _ _) as [b|]; [|do 2 (split; [done|]); right; left; auto].
  destruct A as [A1 A2]. pose proof A1 as (P1 & P2 & P3 & P4 & r & Hr & P5).
  assert (Hb : range_ok b sz).
  { pose proof (wf_from_bounds 0 _ ltac:(lia) Ha) as B. rewrite Forall_forall in B.
    specialize (B _ Hr). destruct B as ((?&?&?)&?&?). repeat split; lia. }
  pose proof (add_disjoint malloc (used_mem s) b sz flags Wu Fu Au Hu Hb P4) as D.
  destruct (lmb_add_region_flags _ _ _ _ _) as [ret u].
  destruct D as [WD [(D1 & D2 & D3)|(D1 & D2 & D3)]]; simpl in *; subst ret; simpl.
  - set (s' := set_used s u). destruct (Z.eqb_spec (lmb_map_update_notify EFI_LOADER efi_map_update_notify s' b sz LMB_MAP_OP_RESERVE flags) 0) as [E|E];
      cbn [negb]; (do 2 (split; [done|])); left; exists b; (split_and!; [done|done|done|]);
      [by rewrite E|by rewrite (proj2 (Z.eqb_neq _ _) E)].
  - do 2 (split; [done|]). right; right. auto.
Qed.


(** C13: reserving.  On a map whose lists are sorted and disjoint, reserving a
    range that no used region meets has one of three results, after each of which
    the used list is sorted and disjoint: exactly that range has the flags and
    every other address is as it was; or, precisely in the arrangement [lost],
    success is reported and the used addresses are as they were; or the list
    could not grow, which is reported as -1, and is as it was. *)
Theorem lmb_reserve_disjoint (s : lmb) (b sz flags : Z) :
  map_ok s -> range_ok b sz -> fits (live (used_mem s)) b sz ->
  let '(ret, s') := lmb_reserve malloc EFI_LOADER efi_map_update_notify s b sz flags in
  available_mem s' = available_mem s /\ wf_rgns (live (used_mem s')) /\
  (((if lost (live (used_mem s)) b sz flags then keeps (live (used_mem s)) (live (used_mem s'))
     else updates (live (used_mem s)) (live (used_mem s')) b sz flags) /\
    ret = lmb_map_update_notify EFI_LOADER efi_map_update_notify s' b sz
            LMB_MAP_OP_RESERVE flags) \/
   (ret = -1 /\ live (used_mem s') = live (used_mem s) /\ al_fail (used_mem s') = true)).
Proof.
  intros [_ [Wu Fu Au Hu]] Hr Hf. unfold lmb_reserve.
  pose proof (add_disjoint malloc (used_mem s) b sz flags Wu Fu Au Hu Hr Hf) as D.
  destruct (lmb_add_region_flags _ _ _ _ _) as [ret u].
  destruct D as [WD [(D1 & D2 & D3)|(D1 & D2 & D3)]]; simpl in *; subst ret; simpl; (split; [done|]).
  - split; [destruct (lost _ _ _ _); apply D3|by left].
  - split; [by rewrite D2|by right].
Qed.

(** C12: freeing.  On a map whose lists are sorted and disjoint, freeing a range
    that no used region contains returns -1 and changes nothing.  When one
    contains it, exactly the range becomes unused and the EFI notifier's answer is
    returned; only if the range is inside the region with used addresses on both
    sides, and the upper rest cannot be put back, because the list could not
    grow (reported as -1) or in the arrangement [lost] (not reported), the
    upper rest becomes unused too. *)
Theorem lmb_free_clears (s : lmb) (b sz flags : Z) :
  map_ok s -> range_ok b sz ->
  let '(ret, s') := lmb_free_flags malloc EFI_LOADER efi_map_update_notify s b sz flags in
  let told := lmb_map_update_notify EFI_LOADER efi_map_update_notify s' b sz LMB_MAP_OP_FREE flags in
  available_mem s' = available_mem s /\
  ((~ Exists (contains b sz) (live (used_mem s)) /\ ret = -1 /\ s' = s) \/
   (Exists (contains b sz) (live (used_mem s)) /\ clears (live (used_mem s)) (live (used_mem s')) b sz /\ ret = told) \/
   (exists p r q, live (used_mem s) = p ++ r :: q /\ base r < b /\ b + sz < base r + rsize r /\
    clears (live (used_mem s)) (live (used_mem s')) b (base r + rsize r - b) /\
    ((ret = told /\ lost q (b + sz) (base r + rsize r - (b + sz)) (rflags r) = true) \/
     (ret = -1 /\ al_fail (used_mem s') = true)))).
Proof.
  intros [_ [Wu Fu Au Hu]] Hr. unfold lmb_free_flags.
  destruct (free_spec malloc (used_mem s) b sz Wu Fu Au Hu Hr) as [[E F]|[E F]].
  - destruct (_lmb_free _ _ _ _) as [ret u]. simpl in *.
    destruct F as [F1 F2 F3|p r q F1 F2 F3 F4 [[F5 F6]|[F5 F6]]]; simpl in *; subst ret; simpl; (split; [done|]); right; [by left|right..];
      exists p, r, q; split_and!; try done; [by left|by right].
  - rewrite F. simpl. split; [done|]. left. by destruct s.
Qed.

(** A limit below the request escapes memory.  When a limit is given that
    is smaller than the requested size, the candidate base wraps around zero:
    in an empty map with one region around the limit, [_lmb_alloc_base]
    "succeeds" with an address above that region. *)
Theorem lmb_alloc_limit_wraps (s : lmb) (r : lmb_region) (sz max_addr : Z) :
  map_ok s -> test s = true -> live (available_mem s) = [r] -> live (used_mem s) = [] ->
  0 < max_addr < sz -> sz <= rsize r -> base r < max_addr <= base r + rsize r ->
  fst (_lmb_alloc_base malloc EFI_LOADER efi_map_update_notify s sz 1 max_addr LMB_NONE)
    = max_addr - sz + TOP.
Proof.
  intros [[Wa Fa Aa Ha] [Wu Fu Au Hu]] Ht La Lu Hm Hs Hb. unfold _lmb_alloc_base.
  rewrite La in Ha. unfold wf_rgns in Ha. simpl in Ha.
  rewrite count_live, La by done. cbn [length alloc_loop].
  pose proof (rgn_mid (available_mem s) [] r [] La) as Rg. simpl in Rg. rewrite Rg.
  unfold alloc_start.
  destruct (Z.ltb_spec (rsize r) sz); [lia|].
  unfold LMB_ALLOC_ANYWHERE, TOP in *. destruct (Z.eqb_spec max_addr 0); [lia|].
  destruct (Z.ltb_spec (base r) max_addr); [|lia].
  rewrite (u64_small (base r + rsize r)) by lia.
  destruct (Z.ltb_spec (base r + rsize r) (base r)); [lia|]. rewrite Z.min_r by lia.
  replace (u64 (max_addr - sz)) with (max_addr - sz + 18446744073709551616)
    by (apply (Z.mod_unique _ _ (-1)); lia).
  change 1 with (2 ^ 0). rewrite ALIGN_DOWN_pow2 by (unfold TOP; lia).
  rewrite Z.mod_1_r, Z.sub_0_r, count_live, Lu by done. cbn [length fit_loop].
  unfold lmb_overlaps_region. rewrite count_live, Lu by done. cbn [length overlaps_loop].
  destruct (Z.eqb_spec (max_addr - sz + 18446744073709551616) 0); [lia|].
  destruct (Z.leb_spec (base r) (max_addr - sz + 18446744073709551616)); [|lia]. simpl.
  unfold lmb_add_region_flags, alist_err. rewrite Fu, count_live, Lu by done. simpl.
  unfold merge_next. pose proof (length_live _ Wu) as Hl. rewrite Lu in Hl. simpl in Hl.
  assert (Hfull : alist_full (used_mem s) = false)
    by (unfold alist_full; rewrite <- Hl; apply Z.eqb_neq; lia).
  rewrite <- Hl. simpl. unfold add_sorted. rewrite Hfull. simpl.
  unfold lmb_map_update_notify. simpl. rewrite Ht, andb_false_r. reflexivity.
Qed.

(** Adjacency hides an overlap.  When the range to reserve starts where a
    used region with the same flags ends, [lmb_add_region_flags] extends that
    region without looking further: if the next used region, with other flags,
    covers that range already, the call reports success and leaves two
    overlapping reservations instead of answering -EEXIST. *)
Theorem lmb_reserve_touching_overlaps (s : lmb) (r1 r2 : lmb_region) :
  map_ok s -> test s = true -> live (used_mem s) = [r1; r2] ->
  base r1 + rsize r1 = base r2 -> rflags r1 <> rflags r2 ->
  let '(ret, s') := lmb_reserve malloc EFI_LOADER efi_map_update_notify s
                      (base r2) (rsize r2) (rflags r1) in
  ret = 0 /\ live (used_mem s') = [mk_rgn (base r1) (rsize r1 + rsize r2) (rflags r1); r2].
Proof.
  intros [_ [Wu Fu Au Hu]] Ht Lu Eb Hf. unfold wf_rgns in Hu. rewrite Lu in Hu.
  simpl in Hu. unfold lmb_reserve, lmb_add_region_flags, alist_err.
  rewrite Fu, count_live, Lu by done. cbn [length coalesce_loop].
  change 0%nat with (length (@nil lmb_region)).
  rewrite (coalesce_body_up (used_mem s) [] r1 [r2])
    by (first [done | unfold rgn_ok, range_ok; lia]).
  rewrite Z.eqb_refl.
  set (r' := mk_rgn (base r1) (rsize r1 + rsize r2) (rflags r1)).
  destruct (set_rgn_mid (used_mem s) [] r1 [r2] r' Wu Lu) as (W1 & L1 & F1).
  set (l1 := set_rgn (used_mem s) (length []) r') in *. unfold merge_next.
  rewrite (rgn_mid l1 [] r' [r2] L1), (rgn_mid_S l1 [] r' r2 [] L1). simpl.
  destruct (Z.eqb_spec (rflags r1) (rflags r2)); [done|].
  destruct (negb _ && _); simpl; (split; [|done]);
    unfold lmb_map_update_notify; simpl; by rewrite Ht, andb_false_r.
Qed.
End Claims.

(** ** Concrete instances *)
Definition notify_ok (addr n : Z) (op : lmb_map_op) (f : Z) : Z := 0.


Lemma lmb_reserve_disjoint_witness :
  let '(ret, s') := lmb_reserve (fun _ => true) true notify_ok sample 1110016 4096 1 in
  ret = 0 /\ updates (live (used_mem sample)) (live (used_mem s')) 1110016 4096 1.
Proof.
  pose proof (lmb_reserve_disjoint (fun _ => true) true notify_ok sample 1110016 4096 1 sample_ok
    ltac:(unfold range_ok, TOP; lia) ltac:(constructor; [right; simpl; lia|constructor])) as G.
  destruct (lmb_reserve _ _ _ _ _ _ _) as [ret s'] eqn:E. vm_compute in E. injection E as <- <-.
  destruct G as (_ & _ & [(U & R) | (R & _)]); [|discriminate]. split; [reflexivity|exact U].
Defined.

Lemma lmb_free_clears_witness :
  let '(ret, s') := lmb_free_flags (fun _ => true) true notify_ok sample 1106000 16 0 in
  ret = 0 /\ clears (live (used_mem sample)) (live (used_mem s')) 1106000 16.
Proof.
  pose proof (lmb_free_clears (fun _ => true) true notify_ok sample 1106000 16 0 sample_ok
    ltac:(unfold range_ok, TOP; lia)) as G. cbv zeta in G.
  destruct (lmb_free_flags _ _ _ _ _ _ _) as [ret s'] eqn:E. vm_compute in E. injection E as <- <-.
  destruct G as (_ & [(_ & R & _) | [(_ & C & _) | (p & r & q & L & _ & _ & _ & [[_ Lo] | [R _]])]]); [discriminate|split; [reflexivity|exact C]| |discriminate].
  destruct p as [|r' [|]]; [injection L as _ <-; discriminate|discriminate..].
Defined.

(** A map under test, with one region and nothing used. *)
Definition one_bank : lmb :=
  mk_lmb (mk_alist [mk_rgn 0 65536 0; zero_rgn] 24 1 2 false)
         (mk_alist [zero_rgn; zero_rgn] 24 0 2 false) true.

Lemma one_bank_ok : map_ok one_bank.
Proof.
  split; split; [constructor; simpl; lia|done|simpl; lia| |constructor; simpl; lia|done|simpl; lia|];
    unfold wf_rgns; simpl; unfold TOP; lia.
Qed.

Lemma lmb_alloc_limit_wraps_witness :
  fst (_lmb_alloc_base (fun _ => true) true notify_ok one_bank 8192 1 4096 LMB_NONE)
    = 4096 - 8192 + TOP.
Proof.
  apply (lmb_alloc_limit_wraps (fun _ => true) true notify_ok one_bank (mk_rgn 0 65536 0));
    [exact one_bank_ok|reflexivity|reflexivity|reflexivity|simpl; lia|simpl; lia|simpl; lia].
Defined.

(** Two touching reservations with different flags. *)
Definition two_used : lmb :=
  mk_lmb (mk_alist [mk_rgn 0 65536 0; zero_rgn] 24 1 2 false)
         (mk_alist [mk_rgn 8192 4096 0; mk_rgn 12288 4096 1] 24 2 2 false) true.

Lemma lmb_reserve_touching_overlaps_witness :
  let '(ret, s') := lmb_reserve (fun _ => true) true notify_ok two_used 12288 4096 0 in
  ret = 0 /\ live (used_mem s') = [mk_rgn 8192 8192 0; mk_rgn 12288 4096 1].
Proof.
  apply (lmb_reserve_touching_overlaps (fun _ => true) true notify_ok two_used
           (mk_rgn 8192 4096 0) (mk_rgn 12288 4096 1)); [|reflexivity..|discriminate].
  split; split; [constructor; simpl; lia|done|simpl; lia| |constructor; simpl; lia|done|simpl; lia|];
    unfold wf_rgns; simpl; unfold TOP; lia.
Defined.

(** A reservation is lost.  Regions that touch the one below stay apart from an
    equal one above (the loop stops at the first that touches); when a later
    range ends where the two start, joining them counts as having added the
    range.  Five disjoint requests succeed, and the last is not recorded: the
    allocator hands its memory out. *)
Definition lost_run : list Z * lmb :=
  let step '(rs, s) '(r, s') := (rs ++ [r], s') in
  let reserve b f st := step st (lmb_reserve (fun _ => true) false notify_ok (snd st) b 4096 f) in
  let free b st := step st (lmb_free (fun _ => true) false notify_ok (snd st) b 4096) in
  reserve 4096 LMB_NONE (free 4096 (reserve 8192 LMB_NOOVERWRITE
    (reserve 12288 LMB_NOOVERWRITE (reserve 4096 LMB_NONE ([], one_bank))))).

Lemma lmb_reserve_lost :
  fst lost_run = [0; 0; 0; 0; 0] /\ live (used_mem (snd lost_run)) = [mk_rgn 8192 8192 LMB_NOOVERWRITE] /\
  fst (lmb_alloc_addr (fun _ => true) false notify_ok (snd lost_run) 4096 4096 LMB_NOOVERWRITE) = 0.
Proof. vm_compute. done. Qed.

End Lmb.
