(* ===== verification/Membuff.v ===== *)
(** * Ring buffers (lib/membuff.c, lib/circbuf.c)

    [membuff]: the block between [start] and [end] is the list of its bytes,
    and [head] and [tail] are offsets from [start].  [circbuf]: the same, with
    an explicit fill count.  Both are shown to be first-in first-out queues. *)

From S2P Require Import Prelude.
From S2P Require Import Bytes.

Module Membuff.

Record membuff := mk_mb {
  mb_null : bool;         (* start == NULL *)
  mb_data : list Z;       (* the bytes from start to end *)
  mb_head : Z;            (* head - start *)
  mb_tail : Z             (* tail - start *)
}.

Definition mb_end (mb : membuff) : Z := Z.of_nat (length (mb_data mb)).
Definition set_head (mb : membuff) (h : Z) : membuff :=
  mk_mb (mb_null mb) (mb_data mb) h (mb_tail mb).
Definition set_tail (mb : membuff) (t : Z) : membuff :=
  mk_mb (mb_null mb) (mb_data mb) (mb_head mb) t.
Definition set_data (mb : membuff) (d : list Z) : membuff :=
  mk_mb (mb_null mb) d (mb_head mb) (mb_tail mb).

Definition membuff_purge (mb : membuff) : membuff := set_tail (set_head mb 0) 0.

(** Result: the length, the offset to write at, the buffer. *)
Definition membuff_putrawflex (mb : membuff) (maxlen : Z) (update : bool) : Z * Z * membuff :=
  let offset := mb_head mb in
  if mb_null mb then (0, offset, mb)
  else if mb_tail mb <=? mb_head mb then
    let len := mb_end mb - mb_head mb - 1 in
    let len := if (0 <=? maxlen) && (maxlen <? len) then maxlen else len in
    let mb1 := if update then set_head mb (mb_head mb + len) else mb in
    if ((maxlen <? 0) || (len <? maxlen)) && negb (mb_tail mb =? 0) then
      (len + 1, offset, if update then set_head mb1 0 else mb1)
    else (len, offset, mb1)
  else
    let len := mb_tail mb - mb_head mb - 1 in
    let len := if (0 <=? maxlen) && (maxlen <? len) then maxlen else len in
    (len, offset, if update then set_head mb (mb_head mb + len) else mb).

Definition membuff_putraw (mb : membuff) (maxlen : Z) (update : bool) : Z * Z * membuff :=
  membuff_putrawflex mb maxlen update.

Definition membuff_putbyte (mb : membuff) (ch : Z) : bool * membuff :=
  let '(n, data, mb') := membuff_putraw mb 1 true in
  if negb (n =? 1) then (false, mb')
  else (true, set_data mb' (write_at (mb_data mb') data [u8 ch])).

(** Result: the length, the offset of the data, the buffer. *)
Definition membuff_getraw (mb : membuff) (maxlen : Z) (update : bool) : Z * Z * membuff :=
  if mb_tail mb <? mb_head mb then
    let data := mb_tail mb in
    let len := mb_head mb - mb_tail mb in
    let len := if (0 <=? maxlen) && (maxlen <? len) then maxlen else len in
    (len, data, if update then set_tail mb (mb_tail mb + len) else mb)
  else if mb_head mb <? mb_tail mb then
    let data := mb_tail mb in
    let len := mb_end mb - mb_tail mb in
    let len := if (0 <=? maxlen) && (maxlen <? len) then maxlen else len in
    (len, data,
     if update then
       let t := mb_tail mb + len in
       set_tail mb (if t =? mb_end mb then 0 else t)
     else mb)
  else (0, 0, mb).

Definition byte_at (mb : membuff) (off : Z) : Z := nth (Z.to_nat off) (mb_data mb) 0.

Definition membuff_getbyte (mb : membuff) : Z * membuff :=
  let '(n, data, mb') := membuff_getraw mb 1 true in
  (if negb (n =? 1) then -1 else byte_at mb data, mb').

Definition membuff_peekbyte (mb : membuff) : Z :=
  let '(n, data, mb') := membuff_getraw mb 1 false in
  if negb (n =? 1) then -1 else byte_at mb data.

(** The two-round loop of [membuff_get]; [n] rounds left, the bytes copied so
    far are returned first. *)
Fixpoint get_loop (n : nat) (mb : membuff) (maxlen : Z) : list Z * membuff :=
  match n with
  | O => ([], mb)
  | S n' =>
      let '(len, data, mb') := membuff_getraw mb maxlen true in
      let chunk := sub (mb_data mb) data len in
      if len =? 0 then (chunk, mb')
      else
        let '(rest, mb'') := get_loop n' mb' (maxlen - len) in
        (chunk ++ rest, mb'')
  end.

(** The bytes stored at [buff] (their number is the return value). *)
Definition membuff_get (mb : membuff) (maxlen : Z) : list Z * membuff := get_loop 2 mb maxlen.

(** One round of [membuff_put]. *)
Definition put_round (st : membuff * list Z * Z * Z) : membuff * list Z * Z * Z :=
  let '(mb, buff, len, written) := st in
  let '(towrite, data, mb') := membuff_putraw mb len true in
  (set_data mb' (write_at (mb_data mb') data (take (Z.to_nat towrite) buff)),
   drop (Z.to_nat towrite) buff, len - towrite, written + towrite).

(** [membuff_put(mb, buff, length)] with [length] the number of bytes at [buff]. *)
Definition membuff_put (mb : membuff) (buff : list Z) : Z * membuff :=
  let '(mb', _, _, written) :=
    put_round (put_round (mb, buff, Z.of_nat (length buff), 0)) in
  (written, mb').

Definition membuff_isempty (mb : membuff) : bool := mb_head mb =? mb_tail mb.

Definition membuff_avail (mb : membuff) : Z :=
  let '(n1, _, copy) := membuff_getraw mb (-1) true in
  let '(n2, _, _) := membuff_getraw copy (-1) true in n1 + n2.

Definition membuff_size (mb : membuff) : Z := mb_end mb.

Definition membuff_makecontig (mb : membuff) : bool * membuff :=
  let finish (d : list Z) (topsize botsize : Z) :=
    let d' := write_at d 0 (sub d (mb_tail mb) topsize) in
    (true, mk_mb (mb_null mb) d' (topsize + botsize) 0) in
  if mb_head mb <? mb_tail mb then
    let topsize := mb_end mb - mb_tail mb in
    let botsize := mb_head mb in
    if mb_tail mb <=? mb_head mb + topsize then (false, mb)
    else finish (write_at (mb_data mb) topsize (sub (mb_data mb) 0 botsize)) topsize botsize
  else finish (mb_data mb) (mb_head mb - mb_tail mb) 0.

Definition membuff_free (mb : membuff) : Z :=
  if mb_end mb =? 0 then 0 else mb_end mb - 1 - membuff_avail mb.

(** The copying loop of [membuff_readline]: [s] is the read offset, [e] the end
    of the part being read, [len] the bytes copied.  The result is the bytes
    copied, whether a line end was seen, and [s].  Every round adds one to
    [len], so [maxlen] rounds are enough. *)
Fixpoint readline_loop (fuel : nat) (mb : membuff) (s e len maxlen minch : Z)
    : list Z * bool * Z :=
  match fuel with
  | O => ([], false, s)
  | S f =>
      if (s <? e) && (len <? maxlen - 1) then
        let c := byte_at mb s in
        let s := s + 1 in
        let len := len + 1 in
        if (c =? 10) || (c <? minch) then ([c], true, s)
        else
          let '(s, e) :=
            if (s =? e) && (mb_head mb <? mb_tail mb) then (0, mb_head mb) else (s, e) in
          let '(rest, ok, s') := readline_loop f mb s e len maxlen minch in
          (c :: rest, ok, s')
      else ([], false, s)
  end.

(** Result: the return value, the string left at [str] without its NUL, the
    buffer. *)
Definition membuff_readline (mb : membuff) (maxlen minch : Z) (must_fit : bool)
    : Z * list Z * membuff :=
  let e := if mb_tail mb <=? mb_head mb then mb_head mb else mb_end mb in
  let '(str, ok, s) :=
    readline_loop (Z.to_nat maxlen) mb (mb_tail mb) e 0 maxlen minch in
  if negb ok && must_fit then (0, [], mb)
  else (Z.of_nat (length str), str,
        set_tail mb (if s =? mb_end mb then 0 else s)).

(** The doubling loop of [membuff_extend_by]; [None] if it does not exit. *)
Fixpoint double_until (fuel : nat) (size goal : Z) : option Z :=
  if size <? goal then
    match fuel with O => None | S f => double_until f (size * 2) goal end
  else Some size.

(** [realloc_ok]: whether the heap can grow the block; the new bytes are
    [fill]. *)
Definition membuff_extend_by (mb : membuff) (by_ max : Z) (realloc_ok : bool) (fill : Z)
    : option (Z * membuff) :=
  let orig := mb_end mb in
  match double_until 64 orig (orig + by_) with
  | None => None
  | Some size =>
      let size := if negb (max =? -1) then Z.min size max else size in
      let by_ := size - orig in
      if by_ <=? 0 then Some (- E2BIG, mb)
      else if negb realloc_ok then Some (- ENOMEM, mb)
      else
        let data := mb_data mb ++ replicate (Z.to_nat by_) fill in
        if mb_head mb <? mb_tail mb then
          Some (0, mk_mb (mb_null mb)
                  (write_at data (mb_tail mb + by_) (sub data (mb_tail mb) (orig - mb_tail mb)))
                  (mb_head mb) (mb_tail mb + by_))
        else Some (0, mk_mb (mb_null mb) data (mb_head mb) (mb_tail mb))
  end.

Definition membuff_init (buff : list Z) : membuff := membuff_purge (mk_mb false buff 0 0).

(** [malloc_ok] and the bytes the heap hands out. *)
Definition membuff_new (mb : membuff) (size : Z) (malloc_ok : bool) (fill : Z) : Z * membuff :=
  if negb malloc_ok then (- ENOMEM, mk_mb true (mb_data mb) (mb_head mb) (mb_tail mb))
  else (0, membuff_init (replicate (Z.to_nat size) fill)).

Definition membuff_uninit (mb : membuff) : membuff := membuff_purge (mk_mb true [] 0 0).

(** The address handed to [free] is that of the structure's first field. *)
Definition membuff_dispose (addr : Z) (mb : membuff) : Z * membuff := (addr + 0, membuff_uninit mb).

(** ** The queue a buffer holds *)
Definition contents (mb : membuff) : list Z :=
  if mb_tail mb <=? mb_head mb
  then sub (mb_data mb) (mb_tail mb) (mb_head mb - mb_tail mb)
  else sub (mb_data mb) (mb_tail mb) (mb_end mb - mb_tail mb) ++ sub (mb_data mb) 0 (mb_head mb).

Definition ready (mb : membuff) : Prop :=
  mb_null mb = false /\ 0 <= mb_head mb < mb_end mb /\ 0 <= mb_tail mb < mb_end mb.

Definition used_bytes (mb : membuff) : Z :=
  if mb_tail mb <=? mb_head mb then mb_head mb - mb_tail mb
  else mb_end mb - mb_tail mb + mb_head mb.

(** Offset of the [i]-th queued byte. *)
Definition pos (mb : membuff) (i : nat) : nat :=
  let p := mb_tail mb + Z.of_nat i in
  Z.to_nat (if p <? mb_end mb then p else p - mb_end mb).

Lemma contents_lookup mb i : ready mb ->
  contents mb !! i =
    if decide (Z.of_nat i < used_bytes mb) then mb_data mb !! pos mb i else None.
Proof.
  intros (_ & Hh & Ht). unfold contents, used_bytes, pos.
  destruct (Z.leb_spec (mb_tail mb) (mb_head mb)).
  - rewrite sub_lookup by lia. case_decide; [|done].
    destruct (Z.ltb_spec (mb_tail mb + Z.of_nat i) (mb_end mb)); [|lia]. f_equal. lia.
  - pose proof (length_sub (mb_data mb) (mb_tail mb) (mb_end mb - mb_tail mb)
      ltac:(lia) ltac:(lia) ltac:(unfold mb_end; lia)) as L.
    destruct (Z.ltb_spec (mb_tail mb + Z.of_nat i) (mb_end mb)).
    + rewrite lookup_app_l by lia. rewrite sub_lookup by lia.
      rewrite !decide_True by lia. f_equal. lia.
    + rewrite lookup_app_r by lia. rewrite sub_lookup by lia.
      repeat case_decide; try lia; [|done]. f_equal. lia.
Qed.

Lemma length_contents mb : ready mb -> Z.of_nat (length (contents mb)) = used_bytes mb.
Proof.
  intros (_ & Hh & Ht). unfold contents, used_bytes.
  destruct (Z.leb_spec (mb_tail mb) (mb_head mb)).
  - apply length_sub; unfold mb_end in *; lia.
  - rewrite length_app, Nat2Z.inj_add, !length_sub by (unfold mb_end in *; lia). lia.
Qed.

(** ** Putting *)
Definition room (mb : membuff) : Z :=
  if mb_tail mb <=? mb_head mb then mb_end mb - mb_head mb - (if mb_tail mb =? 0 then 1 else 0)
  else mb_tail mb - mb_head mb - 1.

Lemma putraw_spec mb maxlen len off mb' :
  ready mb -> 0 <= maxlen -> membuff_putraw mb maxlen true = (len, off, mb') ->
  len = Z.min maxlen (room mb) /\ off = mb_head mb /\ mb_data mb' = mb_data mb /\
  mb_tail mb' = mb_tail mb /\ mb_null mb' = false /\
  mb_head mb' = (if mb_head mb + len =? mb_end mb then 0 else mb_head mb + len) /\
  0 <= len /\ mb_head mb + len <= mb_end mb.
Proof.
  intros (Hn & Hh & Ht) Hm. unfold membuff_putraw, membuff_putrawflex, room. rewrite Hn.
  destruct (Z.leb_spec (mb_tail mb) (mb_head mb)).
  - destruct (Z.leb_spec 0 maxlen); [|lia].
    destruct (Z.ltb_spec maxlen 0); [lia|]. simpl.
    destruct (Z.ltb_spec maxlen (mb_end mb - mb_head mb - 1)).
    + destruct (Z.ltb_spec maxlen maxlen); [lia|]. simpl. intros [= <- <- <-]. simpl.
      destruct (Z.eqb_spec (mb_tail mb) 0), (Z.eqb_spec (mb_head mb + maxlen) (mb_end mb));
        repeat split; auto; lia.
    + destruct (Z.ltb_spec (mb_end mb - mb_head mb - 1) maxlen);
        destruct (Z.eqb_spec (mb_tail mb) 0); simpl; intros [= <- <- <-]; simpl;
        cmp1; repeat split; auto; lia.
  - destruct (Z.leb_spec 0 maxlen); [|lia]. simpl.
    destruct (Z.ltb_spec maxlen (mb_tail mb - mb_head mb - 1)); intros [= <- <- <-]; simpl;
      cmp1; repeat split; auto; lia.
Qed.

(** Storing the bytes where [membuff_putraw] said appends them to the queue. *)
Lemma put_bytes_spec mb maxlen bs :
  ready mb -> Z.of_nat (length bs) = Z.min maxlen (room mb) -> 0 <= maxlen ->
  let '(len, off, mb') := membuff_putraw mb maxlen true in
  let mb'' := set_data mb' (write_at (mb_data mb') off bs) in
  len = Z.of_nat (length bs) /\ ready mb'' /\ contents mb'' = contents mb ++ bs /\
  mb_end mb'' = mb_end mb /\ used_bytes mb'' = used_bytes mb + len.
Proof.
  intros R Hl Hm. pose proof R as (Hn & Hh & Ht).
  destruct (membuff_putraw mb maxlen true) as [[len off] mb'] eqn:E.
  destruct (putraw_spec _ _ _ _ _ R Hm E) as (E1 & -> & E2 & E3 & E4 & E5 & E6 & E7).
  clear E. intros mb''.
  assert (Hend : mb_end mb'' = mb_end mb)
    by (unfold mb'', mb_end; simpl; by rewrite length_write_at, E2).
  assert (Hd : mb_data mb'' = write_at (mb_data mb) (mb_head mb) bs) by (simpl; by rewrite E2).
  assert (Htl : mb_tail mb'' = mb_tail mb) by done.
  assert (Hhd : mb_head mb'' = if mb_head mb + len =? mb_end mb then 0 else mb_head mb + len)
    by done.
  assert (Hu : used_bytes mb'' = used_bytes mb + len).
  { unfold used_bytes, room in *. rewrite Htl, Hhd, Hend. cmp_cases; lia. }
  assert (R' : ready mb'').
  { unfold ready. rewrite Hend, Htl, Hhd. split; [done|]. split; [|lia]. cmp1; lia. }
  assert (Hroom : len <= mb_end mb - 1 - used_bytes mb).
  { unfold used_bytes, room in *. cmp_cases; lia. }
  split; [lia|]. split; [done|]. split; [|auto].
  apply list_eq. intros i. rewrite contents_lookup, Hu by done.
  pose proof (length_contents mb R) as Lc.
  assert (Hpos : pos mb'' i = pos mb i) by (unfold pos; by rewrite Htl, Hend).
  rewrite Hpos, Hd. clear Hpos Hd Hhd E5.
  destruct (Z_lt_le_dec (Z.of_nat i) (used_bytes mb)) as [Hi|Hi].
  - rewrite decide_True by lia. rewrite lookup_app_l by lia.
    rewrite contents_lookup, decide_True by done.
    rewrite write_at_lookup by (unfold mb_end in *; lia). rewrite decide_False; [done|].
    unfold pos, used_bytes, room in *. cmp_cases; lia.
  - rewrite lookup_app_r by lia. case_decide as Hc.
    + rewrite write_at_lookup by (unfold mb_end in *; lia).
      assert (Hp : Z.of_nat (pos mb i) = mb_head mb + (Z.of_nat i - used_bytes mb)).
      { unfold pos, used_bytes, room in *. cmp_cases; lia. }
      rewrite decide_True by lia. f_equal. lia.
    + symmetry. apply lookup_ge_None. lia.
Qed.

(** After one round, a further round only ever finds room at the front. *)
Lemma put_spec mb buff :
  ready mb ->
  let n := Z.min (Z.of_nat (length buff)) (mb_end mb - 1 - used_bytes mb) in
  let '(written, mb') := membuff_put mb buff in
  written = n /\ ready mb' /\ contents mb' = contents mb ++ take (Z.to_nat n) buff /\
  mb_end mb' = mb_end mb.
Proof.
  intros R n. unfold membuff_put, put_round.
  set (m1 := Z.of_nat (length buff)).
  assert (Hroom : forall m, ready m -> 0 <= room m <= mb_end m - 1 - used_bytes m).
  { intros m (_&?&?). unfold room, used_bytes. cmp_cases; lia. }
  pose proof (Hroom mb R) as Hr1.
  pose proof (put_bytes_spec mb m1 (take (Z.to_nat (Z.min m1 (room mb))) buff) R) as P1.
  rewrite length_take in P1. specialize (P1 ltac:(lia) ltac:(lia)).
  destruct (membuff_putraw mb m1 true) as [[l1 o1] mb1] eqn:X1.
  destruct P1 as (P1 & R1 & C1 & D1 & U1).
  assert (E1 : l1 = Z.min m1 (room mb)) by lia. rewrite <- E1 in *.
  set (mba := set_data mb1 (write_at (mb_data mb1) o1 (take (Z.to_nat l1) buff))) in *.
  pose proof (Hroom mba R1) as Hr2.
  pose proof (put_bytes_spec mba (m1 - l1)
    (take (Z.to_nat (Z.min (m1 - l1) (room mba))) (drop (Z.to_nat l1) buff)) R1) as P2.
  rewrite length_take, length_drop in P2. specialize (P2 ltac:(lia) ltac:(lia)).
  destruct (membuff_putraw mba (m1 - l1) true) as [[l2 o2] mb2] eqn:X2.
  destruct P2 as (P2 & R2 & C2 & D2 & U2).
  assert (E2 : l2 = Z.min (m1 - l1) (room mba)) by lia. rewrite <- E2 in *.
  assert (Hn : l1 + l2 = n).
  { destruct (Z_le_gt_dec m1 (room mb)); [unfold n; lia|].
    pose proof (putraw_spec mb m1 l1 o1 mb1 R ltac:(lia) X1) as (_&_&_&Ht&_&Hh&_).
    assert (Hh' : mb_head mba = if mb_head mb + l1 =? mb_end mb then 0 else mb_head mb + l1)
      by exact Hh.
    assert (Ht' : mb_tail mba = mb_tail mb) by exact Ht.
    destruct R as (_&?&?). unfold n, room, used_bytes in *.
    rewrite Hh', Ht', D1 in *. cmp_cases; lia. }
  split; [lia|]. split; [done|]. split; [|lia].
  rewrite C2, C1, <- app_assoc. f_equal. rewrite <- Hn.
  rewrite Z2Nat.inj_add by lia. apply take_take_drop.
Qed.

(** ** Getting *)
Lemma getraw_spec mb maxlen :
  ready mb ->
  let '(len, off, mb') := membuff_getraw mb maxlen true in
  let chunk := if mb_tail mb <=? mb_head mb then used_bytes mb else mb_end mb - mb_tail mb in
  len = (if maxlen <? 0 then chunk else Z.min maxlen chunk) /\
  sub (mb_data mb) off len = take (Z.to_nat len) (contents mb) /\
  ready mb' /\ contents mb' = drop (Z.to_nat len) (contents mb) /\
  mb_end mb' = mb_end mb /\ mb_data mb' = mb_data mb /\ 0 <= len <= used_bytes mb /\
  used_bytes mb' = used_bytes mb - len /\
  (len = chunk -> mb_tail mb' <= mb_head mb').
Proof.
  intros R. pose proof R as (Hn & Hh & Ht).
  destruct (membuff_getraw mb maxlen true) as [[len off] mb'] eqn:E.
  intros chunk.
  assert (A : len = (if maxlen <? 0 then chunk else Z.min maxlen chunk) /\
    mb_data mb' = mb_data mb /\ mb_head mb' = mb_head mb /\ mb_null mb' = false /\
    (off = mb_tail mb \/ len = 0) /\
    mb_tail mb' = (if mb_tail mb + len =? mb_end mb then 0 else mb_tail mb + len)).
  { revert E. unfold membuff_getraw, chunk, used_bytes.
    destruct (Z.ltb_spec (mb_tail mb) (mb_head mb)).
    - destruct (Z.leb_spec (mb_tail mb) (mb_head mb)); [|lia]. intros [= <- <- <-]; simpl.
      cmp_cases; simpl in *; repeat split; auto; lia.
    - destruct (Z.ltb_spec (mb_head mb) (mb_tail mb)).
      + destruct (Z.leb_spec (mb_tail mb) (mb_head mb)); [lia|]. intros [= <- <- <-]; simpl.
        cmp_cases; simpl in *; repeat split; auto; lia.
      + intros [= <- <- <-]. simpl. cmp_cases; simpl in *; repeat split; auto; lia. }
  destruct A as (A1 & A2 & A3 & A4 & A5 & A6). clear E.
  assert (Hend : mb_end mb' = mb_end mb) by (unfold mb_end; by rewrite A2).
  assert (Hl : 0 <= len <= used_bytes mb /\ mb_tail mb + len <= mb_end mb).
  { revert A1. unfold chunk, used_bytes. cmp_cases; lia. }
  assert (Hub : used_bytes mb < mb_end mb) by (unfold used_bytes; cmp1; lia).
  assert (Hu : used_bytes mb' = used_bytes mb - len).
  { revert A1. unfold chunk, used_bytes. rewrite A3, A6, Hend. cmp_cases; lia. }
  assert (R' : ready mb').
  { unfold ready. rewrite Hend, A3, A6. split; [done|]. split; [lia|]. cmp1; lia. }
  assert (Hch : len = chunk -> mb_tail mb' <= mb_head mb').
  { unfold chunk, used_bytes. rewrite A3, A6. intros. cmp_cases; lia. }
  split; [done|]. split; [|split; [done|split; [|tauto]]].
  - apply list_eq. intros i. destruct (Z_lt_le_dec (Z.of_nat i) len) as [Hi|Hi].
    + destruct A5 as [->|?]; [|lia]. rewrite sub_lookup, decide_True by lia.
      rewrite lookup_take_lt, contents_lookup, decide_True by (done || lia).
      unfold pos. destruct (Z.ltb_spec (mb_tail mb + Z.of_nat i) (mb_end mb)); [|lia].
      f_equal. lia.
    + unfold sub. rewrite !lookup_take_ge by lia. done.
  - apply list_eq. intros i. rewrite lookup_drop, !contents_lookup, Hu by done.
    rewrite A2. unfold pos. rewrite A6, Hend.
    repeat case_decide; try lia; [|done]. f_equal.
    destruct (Z.eqb_spec (mb_tail mb + len) (mb_end mb)); cmp_cases; lia.
Qed.

Lemma get_spec mb maxlen :
  ready mb -> 0 <= maxlen ->
  let n := Z.to_nat maxlen in
  let '(bs, mb') := membuff_get mb maxlen in
  bs = take n (contents mb) /\ ready mb' /\ contents mb' = drop n (contents mb) /\
  mb_end mb' = mb_end mb.
Proof.
  intros R Hm n. unfold membuff_get, get_loop.
  pose proof (length_contents mb R) as Lc.
  pose proof (getraw_spec mb maxlen R) as G1.
  destruct (membuff_getraw mb maxlen true) as [[l1 o1] mb1].
  destruct G1 as (E1 & S1 & R1 & C1 & D1 & T1 & B1 & U1 & V1). rewrite S1.
  destruct (Z.eqb_spec l1 0) as [->|Hz].
  - simpl. assert (Hn : (n = 0 \/ length (contents mb) <= 0)%nat).
    { revert E1. destruct R as (_&?&?). unfold used_bytes in *. cmp_cases; lia. }
    rewrite C1. split; [|split; [done|split; [|done]]].
    + destruct Hn as [->|Hn]; [done|].
      destruct (contents mb); [by destruct n|simpl in Hn; lia].
    + destruct Hn as [->|Hn]; [done|]. destruct (contents mb); [by destruct n|simpl in Hn; lia].
  - pose proof (getraw_spec mb1 (maxlen - l1) R1) as G2.
    destruct (membuff_getraw mb1 (maxlen - l1) true) as [[l2 o2] mb2].
    destruct G2 as (E2 & S2 & R2 & C2 & D2 & T2 & B2 & U2 & _). rewrite S2, C1.
    assert (Hn : take n (contents mb) = take (Z.to_nat l1 + Z.to_nat l2) (contents mb) /\
                 drop n (contents mb) = drop (Z.to_nat l1 + Z.to_nat l2) (contents mb)).
    { assert (H : (n = Z.to_nat l1 + Z.to_nat l2)%nat \/
        (length (contents mb) <= n /\ length (contents mb) <= Z.to_nat l1 + Z.to_nat l2)%nat).
      { revert E1 E2 V1. cbv zeta.
        destruct (Z.ltb_spec maxlen 0), (Z.ltb_spec (maxlen - l1) 0); try lia;
          destruct (Z.leb_spec (mb_tail mb1) (mb_head mb1)); lia. }
      destruct H as [->|[? ?]]; [done|]. by rewrite !take_ge, !drop_ge by lia. }
    destruct Hn as [-> ->]. rewrite <- take_take_drop, <- drop_drop.
    destruct (Z.eqb_spec l2 0) as [->|Hz2]; [|rewrite app_nil_r];
      (split; [done|split; [done|split; [|congruence]]]); rewrite C2, C1; done.
Qed.

(** ** Making the data contiguous, growing the block *)
Lemma makecontig_spec mb :
  ready mb ->
  let '(ok, mb') := membuff_makecontig mb in
  if ok then ready mb' /\ contents mb' = contents mb /\ mb_tail mb' = 0 /\ mb_end mb' = mb_end mb
  else mb' = mb /\ mb_head mb < mb_tail mb /\ mb_tail mb <= used_bytes mb.
Proof.
  intros R. pose proof R as (Hn & Hh & Ht). unfold membuff_makecontig.
  assert (Hu : 0 <= used_bytes mb < mb_end mb) by (unfold used_bytes; cmp1; lia).
  assert (Fin : forall d top bot, length d = length (mb_data mb) -> top + bot = used_bytes mb ->
    0 <= top -> 0 <= bot -> mb_tail mb + top <= mb_end mb ->
    (forall i, Z.of_nat i < top -> d !! (Z.to_nat (mb_tail mb) + i)%nat = contents mb !! i) ->
    (forall i, top <= Z.of_nat i < top + bot -> d !! i = contents mb !! i) ->
    let mb' := mk_mb (mb_null mb) (write_at d 0 (sub d (mb_tail mb) top)) (top + bot) 0 in
    ready mb' /\ contents mb' = contents mb /\ mb_tail mb' = 0 /\ mb_end mb' = mb_end mb).
  { intros d top bot Hd Htb H0 H1 He D1 D2 mb'.
    assert (Hend : mb_end mb' = mb_end mb) by (unfold mb_end; simpl; by rewrite length_write_at, Hd).
    assert (R' : ready mb') by (split; [done|]; rewrite Hend; simpl; lia).
    split; [done|]. split; [|done].
    apply list_eq. intros i. rewrite (contents_lookup mb') by done.
    assert (Hu' : used_bytes mb' = used_bytes mb) by (unfold used_bytes at 1; simpl; cmp1; lia).
    rewrite Hu'.
    assert (Hp : Z.of_nat i < used_bytes mb -> pos mb' i = i)
      by (intros; unfold pos; rewrite Hend; simpl; cmp1; lia).
    unfold mb_end in *.
    pose proof (length_sub d (mb_tail mb) top ltac:(lia) H0 ltac:(lia)) as Ls.
    case_decide as Hi.
    - rewrite Hp by done. simpl. rewrite write_at_lookup by lia. case_decide.
      + rewrite sub_lookup, decide_True by lia. rewrite <- D1 by lia. f_equal. lia.
      + apply D2. lia.
    - symmetry. apply lookup_ge_None. pose proof (length_contents mb R). lia. }
  destruct (Z.ltb_spec (mb_head mb) (mb_tail mb)) as [Hw|Hw].
  - assert (Eu : used_bytes mb = mb_end mb - mb_tail mb + mb_head mb)
      by (unfold used_bytes; cmp1; lia).
    destruct (Z.leb_spec (mb_tail mb) (mb_head mb + (mb_end mb - mb_tail mb))).
    { split; [done|]. lia. }
    pose proof (length_sub (mb_data mb) 0 (mb_head mb) ltac:(lia) ltac:(lia)
      ltac:(unfold mb_end in *; lia)) as Ls.
    apply Fin; try lia.
    + apply length_write_at.
    + intros i Hi. rewrite write_at_lookup by (unfold mb_end in *; lia).
      rewrite decide_False by lia. rewrite contents_lookup, decide_True by (done || lia).
      f_equal. unfold pos. cmp1; lia.
    + intros i Hi. rewrite write_at_lookup by (unfold mb_end in *; lia).
      rewrite decide_True by lia. rewrite sub_lookup, decide_True by lia.
      rewrite contents_lookup, decide_True by (done || lia). f_equal. unfold pos. cmp1; lia.
  - assert (Eu : used_bytes mb = mb_head mb - mb_tail mb) by (unfold used_bytes; cmp1; lia).
    apply Fin; try lia.
    intros i Hi. rewrite contents_lookup, decide_True by (done || lia).
    f_equal. unfold pos. cmp1; lia.
Qed.

Lemma double_until_spec fuel size goal :
  0 < size -> goal <= size * 2 ^ Z.of_nat fuel ->
  exists n, double_until fuel size goal = Some n /\ goal <= n /\ size <= n.
Proof.
  revert size. induction fuel as [|f IH]; intros size Hs Hg; simpl.
  - simpl in Hg. destruct (Z.ltb_spec size goal); [lia|]. eauto with lia.
  - destruct (Z.ltb_spec size goal); [|eauto with lia].
    destruct (IH (size * 2)) as (n & E & ? & ?); [lia| |exists n; split; [done|lia]].
    rewrite Nat2Z.inj_succ, Z.pow_succ_r in Hg by lia. lia.
Qed.

Lemma extend_data_spec mb by_ fill :
  ready mb -> 0 < by_ ->
  let data := mb_data mb ++ replicate (Z.to_nat by_) fill in
  let mb' := if mb_head mb <? mb_tail mb then
      mk_mb (mb_null mb)
        (write_at data (mb_tail mb + by_) (sub data (mb_tail mb) (mb_end mb - mb_tail mb)))
        (mb_head mb) (mb_tail mb + by_)
    else mk_mb (mb_null mb) data (mb_head mb) (mb_tail mb) in
  ready mb' /\ contents mb' = contents mb /\ mb_end mb' = mb_end mb + by_.
Proof.
  intros R Hb data mb'. pose proof R as (Hn & Hh & Ht).
  assert (Ld : Z.of_nat (length data) = mb_end mb + by_)
    by (unfold data, mb_end; rewrite length_app, length_replicate; lia).
  assert (Hend : mb_end mb' = mb_end mb + by_).
  { unfold mb'. cmp1; unfold mb_end; simpl; rewrite ?length_write_at; unfold mb_end in Ld; lia. }
  assert (R' : ready mb').
  { unfold ready. rewrite Hend. unfold mb'. cmp1; simpl; repeat split; (done || lia). }
  split; [done|]. split; [|done].
  assert (Hu : used_bytes mb' = used_bytes mb).
  { unfold used_bytes. rewrite Hend. unfold mb'. cmp_cases; simpl in *; cmp_cases; lia. }
  assert (Hub : used_bytes mb < mb_end mb) by (unfold used_bytes; cmp1; lia).
  apply list_eq. intros i. rewrite !contents_lookup, Hu by done. case_decide as Hi; [|done].
  unfold pos. rewrite Hend. unfold mb'.
  destruct (Z.ltb_spec (mb_head mb) (mb_tail mb)) as [Hw|Hw]; simpl.
  - pose proof (length_sub data (mb_tail mb) (mb_end mb - mb_tail mb) ltac:(lia) ltac:(lia)
      ltac:(lia)) as Ls.
    rewrite write_at_lookup by lia.
    destruct (Z.ltb_spec (mb_tail mb + Z.of_nat i) (mb_end mb)).
    + destruct (Z.ltb_spec (mb_tail mb + by_ + Z.of_nat i) (mb_end mb + by_)); [|lia].
      rewrite decide_True by lia. rewrite sub_lookup, decide_True by lia.
      unfold data. rewrite lookup_app_l by (unfold mb_end in *; lia). f_equal. lia.
    + destruct (Z.ltb_spec (mb_tail mb + by_ + Z.of_nat i) (mb_end mb + by_)); [lia|].
      assert (mb_tail mb + Z.of_nat i - mb_end mb < mb_head mb)
        by (unfold used_bytes in Hi; revert Hi; cmp1; lia).
      rewrite decide_False by lia. unfold data.
      rewrite lookup_app_l by (unfold mb_end in *; lia). f_equal. lia.
  - assert (mb_tail mb + Z.of_nat i < mb_head mb)
      by (unfold used_bytes in Hi; revert Hi; cmp1; lia).
    destruct (Z.ltb_spec (mb_tail mb + Z.of_nat i) (mb_end mb + by_)); [|lia].
    destruct (Z.ltb_spec (mb_tail mb + Z.of_nat i) (mb_end mb)); [|lia].
    unfold data. rewrite lookup_app_l by (unfold mb_end in *; lia). done.
Qed.

(** ** Reading a line *)

(** The reference: the bytes up to and including the first line end among the
    first [n] queued, [None] if there is none. *)
Fixpoint line_of (n : nat) (minch : Z) (q : list Z) : option (list Z) :=
  match n, q with
  | S n', c :: q' =>
      if (c =? 10) || (c <? minch) then Some [c]
      else match line_of n' minch q' with Some l => Some (c :: l) | None => None end
  | _, _ => None
  end.

Section Readline.
Context (mb : membuff) (R : ready mb) (maxlen minch : Z).

(** The read pointers after [k] bytes. *)
Definition read_at (k : nat) (s e : Z) : Prop :=
  let p := mb_tail mb + Z.of_nat k in
  if mb_tail mb <=? mb_head mb then s = p /\ e = mb_head mb
  else if p <? mb_end mb then s = p /\ e = mb_end mb
  else s = p - mb_end mb /\ e = mb_head mb.

Lemma read_at_byte k s e c q :
  read_at k s e -> drop k (contents mb) = c :: q -> s < e /\ byte_at mb s = c.
Proof.
  intros Hr Hd. pose proof R as (_ & Hh & Ht).
  assert (Hk : contents mb !! k = Some c).
  { rewrite <- (Nat.add_0_r k), <- lookup_drop, Hd. done. }
  rewrite contents_lookup in Hk by done. case_decide as Hu; [|done].
  unfold read_at, used_bytes, pos, byte_at in *.
  enough (X : s < e /\ mb_data mb !! Z.to_nat s = Some c).
  { destruct X as [X1 X2]. split; [done|]. by apply nth_of_lookup. }
  cmp_cases; destruct Hr as [-> ->]; split; try lia; done.
Qed.

Lemma read_at_next k s e c d q :
  read_at k s e -> drop k (contents mb) = c :: d :: q ->
  let '(s', e') := if (s + 1 =? e) && (mb_head mb <? mb_tail mb) then (0, mb_head mb)
                   else (s + 1, e) in
  read_at (S k) s' e'.
Proof.
  intros Hr Hd. pose proof R as (_ & Hh & Ht). pose proof (length_contents mb R) as L.
  assert (Hk : (S (S k) <= length (contents mb))%nat).
  { apply (f_equal length) in Hd. rewrite length_drop in Hd. simpl in Hd. lia. }
  unfold read_at, used_bytes in *. cmp_cases; simpl; destruct Hr as [-> ->]; split; lia.
Qed.

Lemma read_at_stop k s e c q :
  read_at k s e -> drop k (contents mb) = c :: q ->
  (if s + 1 =? mb_end mb then 0 else s + 1) = Z.of_nat (pos mb (S k)).
Proof.
  intros Hr Hd. pose proof R as (_ & Hh & Ht). pose proof (length_contents mb R) as L.
  assert (Hk : (S k <= length (contents mb))%nat).
  { apply (f_equal length) in Hd. rewrite length_drop in Hd. simpl in Hd. lia. }
  unfold read_at, used_bytes, pos in *. cmp_cases; destruct Hr as [-> ->]; lia.
Qed.

Lemma readline_loop_found fuel k s e n l :
  read_at k s e -> line_of n minch (drop k (contents mb)) = Some l -> (n <= fuel)%nat ->
  Z.of_nat n = maxlen - 1 - Z.of_nat k ->
  exists s', readline_loop fuel mb s e (Z.of_nat k) maxlen minch = (l, true, s') /\
    (if s' =? mb_end mb then 0 else s') = Z.of_nat (pos mb (k + length l)) /\
    l = take (length l) (drop k (contents mb)).
Proof.
  revert k s e n l. induction fuel as [|f IH]; intros k s e n l Hr Hl Hn Hm.
  { destruct n; [done|lia]. }
  destruct n as [|n]; [done|]. cbn [readline_loop].
  destruct (drop k (contents mb)) as [|c q] eqn:Hd; [done|]. simpl in Hl.
  destruct (read_at_byte _ _ _ _ _ Hr Hd) as [Hse ->].
  destruct (Z.ltb_spec s e); [|lia]. destruct (Z.ltb_spec (Z.of_nat k) (maxlen - 1)); [|lia].
  cbn [andb]. destruct ((c =? 10) || (c <? minch)).
  - injection Hl as <-. eexists. split; [done|]. simpl. rewrite Nat.add_1_r.
    split; [by eapply read_at_stop|done].
  - destruct q as [|d q]; [by destruct n|].
    destruct (line_of n minch (d :: q)) as [l'|] eqn:Hl'; [|done]. injection Hl as <-.
    pose proof (read_at_next _ _ _ _ _ _ Hr Hd) as Hnext.
    destruct (if (s + 1 =? e) && (mb_head mb <? mb_tail mb) then (0, mb_head mb) else (s + 1, e))
      as [s1 e1].
    assert (Hd' : drop (S k) (contents mb) = d :: q).
    { by eapply drop_tail. }
    destruct (IH (S k) s1 e1 n l' Hnext) as (s' & E & Hs' & Ht); [by rewrite Hd'|lia|lia|].
    replace (Z.of_nat k + 1) with (Z.of_nat (S k)) by lia. rewrite E.
    exists s'. split; [done|]. simpl. rewrite Nat.add_succ_r. split; [done|].
    rewrite Hd' in Ht. by f_equal.
Qed.

(** Without a line end in the whole queue none is ever seen. *)
Lemma readline_loop_none fuel s e len :
  (forall i, 0 <= i < mb_head mb \/ mb_tail mb <= i < mb_end mb ->
     (mb_head mb < mb_tail mb \/ mb_tail mb <= i) -> i < mb_end mb ->
     (mb_tail mb <= mb_head mb -> i < mb_head mb) ->
     (byte_at mb i =? 10) || (byte_at mb i <? minch) = false) ->
  (mb_tail mb <= mb_head mb -> mb_tail mb <= s /\ e = mb_head mb) ->
  (mb_head mb < mb_tail mb -> (mb_tail mb <= s /\ e = mb_end mb) \/ (0 <= s /\ e = mb_head mb)) ->
  snd (fst (readline_loop fuel mb s e len maxlen minch)) = false.
Proof.
  intros Hno. pose proof R as (_ & Hh & Ht).
  revert s e len. induction fuel as [|f IH]; intros s e len H1 H2; cbn [readline_loop]; [done|].
  destruct ((s <? e) && (len <? maxlen - 1)) eqn:Hc; [|done].
  assert (Hse : s < e) by lia. rewrite (Hno s) by lia.
  destruct ((s + 1 =? e) && (mb_head mb <? mb_tail mb)) eqn:Hw.
  - specialize (IH 0 (mb_head mb) (len + 1)).
    destruct (readline_loop f mb 0 (mb_head mb) (len + 1) maxlen minch) as [[? ?] ?].
    apply IH; lia.
  - specialize (IH (s + 1) e (len + 1)).
    destruct (readline_loop f mb (s + 1) e (len + 1) maxlen minch) as [[? ?] ?].
    apply IH; lia.
Qed.

(** A line end beyond the first [maxlen - 1] bytes is not reached. *)
Lemma readline_loop_short fuel k s e n :
  read_at k s e -> line_of n minch (drop k (contents mb)) = None ->
  (k + n <= length (contents mb))%nat -> Z.of_nat n = maxlen - 1 - Z.of_nat k ->
  snd (fst (readline_loop fuel mb s e (Z.of_nat k) maxlen minch)) = false.
Proof.
  revert k s e n. induction fuel as [|f IH]; intros k s e n Hr Hl Hn Hm; cbn [readline_loop];
    [done|].
  destruct n as [|n].
  { destruct (Z.ltb_spec (Z.of_nat k) (maxlen - 1)); [lia|]. by rewrite andb_false_r. }
  destruct (drop k (contents mb)) as [|c q] eqn:Hd.
  { apply (f_equal length) in Hd. rewrite length_drop in Hd. simpl in Hd. lia. }
  simpl in Hl. destruct (read_at_byte _ _ _ _ _ Hr Hd) as [Hse ->].
  destruct (Z.ltb_spec s e); [|lia]. destruct (Z.ltb_spec (Z.of_nat k) (maxlen - 1)); [|lia].
  cbn [andb]. destruct ((c =? 10) || (c <? minch)); [done|].
  assert (Hd' : drop (S k) (contents mb) = q).
  { by eapply drop_tail. }
  destruct (line_of n minch q) eqn:Hl'; [done|].
  replace (Z.of_nat k + 1) with (Z.of_nat (S k)) by lia.
  destruct n as [|n].
  - (* the bound stops the next round *)
    destruct (if _ && _ then _ else _) as [s1 e1]. destruct f as [|f]; [done|].
    cbn [readline_loop]. destruct (Z.ltb_spec (Z.of_nat (S k)) (maxlen - 1)); [lia|].
    by rewrite andb_false_r.
  - destruct q as [|d q].
    { apply (f_equal length) in Hd'. rewrite length_drop in Hd'. simpl in Hd'. lia. }
    pose proof (read_at_next _ _ _ _ _ _ Hr Hd) as Hnext.
    destruct (if _ && _ then _ else _) as [s1 e1].
    specialize (IH (S k) s1 e1 (S n) Hnext). rewrite Hd' in IH.
    specialize (IH Hl' ltac:(lia) ltac:(lia)).
    destruct (readline_loop f mb s1 e1 (Z.of_nat (S k)) maxlen minch) as [[? ?] ?]. done.
Qed.

Lemma line_of_none n q : (length q <= n)%nat -> line_of n minch q = None ->
  Forall (fun c => (c =? 10) || (c <? minch) = false) q.
Proof.
  revert n. induction q as [|c q IH]; intros n Hn Hl; [constructor|].
  destruct n as [|n]; simpl in Hn; [lia|]. simpl in Hl.
  destruct ((c =? 10) || (c <? minch)) eqn:E; [done|].
  destruct (line_of n minch q) eqn:Hl'; [done|]. constructor; [done|]. apply (IH n); [lia|done].
Qed.

Lemma no_line_bytes :
  Forall (fun c => (c =? 10) || (c <? minch) = false) (contents mb) ->
  forall i, 0 <= i < mb_head mb \/ mb_tail mb <= i < mb_end mb ->
     (mb_head mb < mb_tail mb \/ mb_tail mb <= i) -> i < mb_end mb ->
     (mb_tail mb <= mb_head mb -> i < mb_head mb) ->
     (byte_at mb i =? 10) || (byte_at mb i <? minch) = false.
Proof.
  intros Hf i H1 H2 H3 H4. pose proof R as (_ & Hh & Ht).
  set (k := Z.to_nat (if mb_tail mb <=? i then i - mb_tail mb else i - mb_tail mb + mb_end mb)).
  assert (Hk : Z.of_nat k < used_bytes mb) by (unfold k, used_bytes; cmp_cases; lia).
  assert (Hp : pos mb k = Z.to_nat i) by (unfold pos, k; cmp_cases; lia).
  assert (Hc : contents mb !! k = Some (byte_at mb i)).
  { rewrite contents_lookup, decide_True, Hp by done. unfold byte_at.
    destruct (lookup_lt_is_Some_2 (mb_data mb) (Z.to_nat i)) as [c Hc].
    - unfold mb_end in *. lia.
    - rewrite Hc. f_equal. symmetry. by apply nth_of_lookup. }
  eapply Forall_lookup in Hf; [|exact Hc]. exact Hf.
Qed.

End Readline.

Lemma readline_spec mb maxlen minch must_fit l :
  ready mb -> 1 <= maxlen ->
  line_of (Z.to_nat (maxlen - 1)) minch (contents mb) = Some l ->
  let '(ret, str, mb') := membuff_readline mb maxlen minch must_fit in
  ret = Z.of_nat (length l) /\ str = l /\ ready mb' /\
  contents mb' = drop (length l) (contents mb).
Proof.
  intros R Hm Hl. unfold membuff_readline. pose proof R as (Hn & Hh & Ht).
  set (e := if mb_tail mb <=? mb_head mb then mb_head mb else mb_end mb).
  assert (Hr : read_at mb 0 (mb_tail mb) e)
    by (unfold read_at, e; cmp_cases; split; lia).
  destruct (readline_loop_found mb R maxlen minch (Z.to_nat maxlen) 0 (mb_tail mb) e
    (Z.to_nat (maxlen - 1)) l Hr) as (s & E & Hs & Ht'); [by rewrite drop_0|lia|lia|].
  change (Z.of_nat 0) with 0 in E. rewrite E. simpl. rewrite Hs.
  simpl. rewrite drop_0 in Ht'.
  pose proof (length_contents mb R) as Lc.
  assert (Hll : (length l <= length (contents mb))%nat)
    by (apply (f_equal length) in Ht'; rewrite length_take in Ht'; lia).
  assert (Hp : 0 <= Z.of_nat (pos mb (length l)) < mb_end mb).
  { unfold pos, used_bytes in *. cmp_cases; lia. }
  set (mb' := set_tail mb (Z.of_nat (pos mb (length l)))).
  assert (R' : ready mb') by (split; [done|split; [exact Hh|exact Hp]]).
  split; [done|]. split; [done|]. split; [done|].
  assert (Hu : used_bytes mb' = used_bytes mb - Z.of_nat (length l)).
  { unfold used_bytes, mb' in *. change (mb_end (set_tail mb ?x)) with (mb_end mb).
    simpl. unfold pos, used_bytes in *. cmp_cases; lia. }
  apply list_eq. intros i. rewrite lookup_drop, !contents_lookup, Hu by done.
  change (mb_data mb') with (mb_data mb). repeat case_decide; try lia; [|done].
  f_equal. unfold pos at 1. change (mb_end mb') with (mb_end mb).
  change (mb_tail mb') with (Z.of_nat (pos mb (length l))). clear Hs E.
  unfold pos, used_bytes in *. cmp_cases; lia.
Qed.

Lemma readline_no_line mb maxlen minch :
  ready mb -> 1 <= maxlen ->
  line_of (Z.to_nat (maxlen - 1)) minch (contents mb) = None ->
  membuff_readline mb maxlen minch true = (0, [], mb).
Proof.
  intros R Hm Hl. unfold membuff_readline. pose proof R as (Hn & Hh & Ht).
  set (e := if mb_tail mb <=? mb_head mb then mb_head mb else mb_end mb).
  assert (H : snd (fst (readline_loop (Z.to_nat maxlen) mb (mb_tail mb) e 0 maxlen minch))
              = false).
  { destruct (le_gt_dec (Z.to_nat (maxlen - 1)) (length (contents mb))).
    - apply (readline_loop_short mb R maxlen minch (Z.to_nat maxlen) 0 (mb_tail mb) e
        (Z.to_nat (maxlen - 1))); [unfold read_at, e; cmp_cases; split; lia|by rewrite drop_0|lia..].
    - apply readline_loop_none; [done| |unfold e; cmp1; lia|unfold e; cmp1; lia].
      apply no_line_bytes; [done|]. apply (line_of_none minch (Z.to_nat (maxlen - 1))); [lia|done]. }
  destruct (readline_loop _ _ _ _ _ _ _) as [[str ok] s]. simpl in H. by subst ok.
Qed.

(** In a wrapped buffer without a line end the loop never runs dry. *)
Lemma readline_loop_wraps mb maxlen minch fuel s e len :
  ready mb -> 0 < mb_head mb < mb_tail mb ->
  Forall (fun c => (c =? 10) || (c <? minch) = false) (contents mb) ->
  (mb_tail mb <= s /\ e = mb_end mb) \/ (0 <= s /\ e = mb_head mb) -> s < e ->
  maxlen - 1 - len <= Z.of_nat fuel -> len <= maxlen - 1 ->
  Z.of_nat (length (fst (fst (readline_loop fuel mb s e len maxlen minch)))) = maxlen - 1 - len.
Proof.
  intros R Hw Hf. pose proof R as (_ & Hh & Ht).
  revert s e len. induction fuel as [|f IH]; intros s e len Hs Hse Hfu Hlen; cbn [readline_loop].
  { simpl. lia. }
  destruct (Z.ltb_spec s e); [|lia]. destruct (Z.ltb_spec len (maxlen - 1)); [|simpl; lia].
  cbn [andb]. rewrite (no_line_bytes mb R minch Hf s) by lia.
  destruct (Z.ltb_spec (mb_head mb) (mb_tail mb)); [|lia]. rewrite andb_true_r.
  destruct (Z.eqb_spec (s + 1) e).
  - specialize (IH 0 (mb_head mb) (len + 1)).
    destruct (readline_loop f mb 0 (mb_head mb) (len + 1) maxlen minch) as [[? ?] ?].
    simpl in *. lia.
  - specialize (IH (s + 1) e (len + 1)).
    destruct (readline_loop f mb (s + 1) e (len + 1) maxlen minch) as [[? ?] ?].
    simpl in *. lia.
Qed.

(** ** The bounded queue a [membuff] implements *)
Inductive op := OpPut (bs : list Z) | OpGet (maxlen : Z) | OpPurge.

Definition step (mb : membuff) (o : op) : list Z * Z * membuff :=
  match o with
  | OpPut bs => let '(n, mb') := membuff_put mb bs in ([], n, mb')
  | OpGet maxlen => let '(bs, mb') := membuff_get mb maxlen in (bs, Z.of_nat (length bs), mb')
  | OpPurge => ([], 0, membuff_purge mb)
  end.

(** The contract: a queue of at most [cap] bytes. *)
Definition queue_step (cap : Z) (q : list Z) (o : op) : list Z * Z * list Z :=
  match o with
  | OpPut bs =>
      let n := Z.min (Z.of_nat (length bs)) (cap - Z.of_nat (length q)) in
      ([], n, q ++ take (Z.to_nat n) bs)
  | OpGet maxlen =>
      let out := take (Z.to_nat maxlen) q in
      (out, Z.of_nat (length out), drop (Z.to_nat maxlen) q)
  | OpPurge => ([], 0, [])
  end.

Fixpoint run {S : Type} (f : S -> op -> list Z * Z * S) (s : S) (ops : list op)
    : list (list Z * Z) * S :=
  match ops with
  | [] => ([], s)
  | o :: ops' =>
      let '(out, n, s') := f s o in
      let '(outs, s'') := run f s' ops' in ((out, n) :: outs, s'')
  end.

Definition op_ok (o : op) : Prop := match o with OpGet m => 0 <= m | _ => True end.

Lemma step_refines mb o : ready mb -> op_ok o ->
  let '(out, n, mb') := step mb o in
  ready mb' /\ mb_end mb' = mb_end mb /\
  queue_step (mb_end mb - 1) (contents mb) o = (out, n, contents mb').
Proof.
  intros R Ho. pose proof (length_contents mb R) as L. destruct o as [bs|m|]; simpl.
  - pose proof (put_spec mb bs R) as P. destruct (membuff_put mb bs) as [n mb'].
    destruct P as (-> & R' & C & E). rewrite L, C. auto.
  - pose proof (get_spec mb m R Ho) as G. destruct (membuff_get mb m) as [bs mb'].
    destruct G as (-> & R' & C & E). rewrite C. auto.
  - pose proof R as (? & ? & ?). split; [|split; [done|]].
    + split; [done|]. change (mb_end (membuff_purge mb)) with (mb_end mb). simpl. lia.
    + unfold contents; simpl. done.
Qed.

(** C25: [membuff] is a bounded FIFO.  Any sequence of puts, gets and purges on
    a ready buffer of [n] bytes gives the same outputs and counts as the same
    sequence on a queue that holds at most [n - 1] bytes, and leaves the buffer
    ready, holding exactly that queue. *)
Theorem membuff_refines_queue (mb : membuff) (ops : list op) :
  ready mb -> Forall op_ok ops ->
  let '(outs, mb') := run step mb ops in
  ready mb' /\
  run (queue_step (mb_end mb - 1)) (contents mb) ops = (outs, contents mb').
Proof.
  revert mb. induction ops as [|o ops IH]; intros mb R Ho; simpl; [done|].
  apply Forall_cons in Ho as [Ho Hos]. pose proof (step_refines mb o R Ho) as S.
  destruct (step mb o) as [[out n] mb1]. destruct S as (R1 & E1 & ->).
  specialize (IH mb1 R1 Hos). rewrite E1 in IH.
  destruct (run step mb1 ops) as [outs mb2]. destruct IH as (R2 & ->). done.
Qed.

Lemma membuff_refines_queue_witness :
  let mb := membuff_init [0; 0; 0; 0] in
  let '(outs, mb') := run step mb [OpPut [1; 2; 3; 4]; OpGet 2; OpPut [5; 6]; OpGet 9] in
  ready mb' /\
  run (queue_step 3) [] [OpPut [1; 2; 3; 4]; OpGet 2; OpPut [5; 6]; OpGet 9] = (outs, contents mb').
Proof.
  apply (membuff_refines_queue (membuff_init [0; 0; 0; 0])
           [OpPut [1; 2; 3; 4]; OpGet 2; OpPut [5; 6]; OpGet 9]).
  - repeat split; vm_compute; congruence.
  - repeat constructor; simpl; lia.
Defined.

(** The occupancy queries.  [membuff_avail] is the number of queued bytes,
    [membuff_free] the number that can still be put, and [membuff_isempty]
    says whether the queue is empty. *)
Theorem membuff_counts (mb : membuff) :
  ready mb ->
  membuff_avail mb = Z.of_nat (length (contents mb)) /\
  membuff_free mb = mb_end mb - 1 - Z.of_nat (length (contents mb)) /\
  (membuff_isempty mb = true <-> contents mb = []).
Proof.
  intros R. pose proof (length_contents mb R) as L.
  assert (A : membuff_avail mb = Z.of_nat (length (contents mb))).
  { unfold membuff_avail. pose proof (getraw_spec mb (-1) R) as G1.
    destruct (membuff_getraw mb (-1) true) as [[l1 o1] mb1].
    destruct G1 as (E1 & _ & R1 & C1 & D1 & _ & B1 & U1 & V1). cbv zeta in V1.
    pose proof (getraw_spec mb1 (-1) R1) as G2.
    destruct (membuff_getraw mb1 (-1) true) as [[l2 o2] mb2].
    destruct G2 as (E2 & _ & R2 & C2 & D2 & _ & B2 & U2 & _). simpl in E1, E2.
    specialize (V1 E1). destruct (Z.leb_spec (mb_tail mb1) (mb_head mb1)); lia. }
  split; [done|]. pose proof R as (_ & Hh & Ht). split.
  - unfold membuff_free. destruct (Z.eqb_spec (mb_end mb) 0); [lia|]. by rewrite A.
  - unfold membuff_isempty. rewrite Z.eqb_eq.
    assert (H : contents mb = [] <-> used_bytes mb = 0).
    { destruct (contents mb); simpl in L; split; intros; (done || lia). }
    rewrite H. unfold used_bytes. cmp1; lia.
Qed.

Lemma membuff_counts_witness :
  let mb := mk_mb false [9; 0; 7; 8] 1 2 in
  membuff_avail mb = 3 /\ membuff_free mb = 0 /\ (membuff_isempty mb = true <-> [7; 8; 9] = []).
Proof. apply (membuff_counts (mk_mb false [9; 0; 7; 8] 1 2)). repeat split; vm_compute; congruence. Defined.

(** Reading a line.  If a line end occurs among the first [maxlen - 1]
    queued bytes, [membuff_readline] returns the bytes up to and including it
    and removes exactly those from the queue; if none occurs and the line must
    fit, it returns 0 and leaves the buffer alone. *)
Theorem membuff_readline_line (mb : membuff) (maxlen minch : Z) :
  ready mb -> 1 <= maxlen ->
  match line_of (Z.to_nat (maxlen - 1)) minch (contents mb) with
  | Some l => forall must_fit,
      let '(ret, str, mb') := membuff_readline mb maxlen minch must_fit in
      ret = Z.of_nat (length l) /\ str = l /\ ready mb' /\
      contents mb' = drop (length l) (contents mb)
  | None => membuff_readline mb maxlen minch true = (0, [], mb)
  end.
Proof.
  intros R Hm. destruct (line_of _ _ _) as [l|] eqn:E.
  - intros must_fit. by apply readline_spec.
  - by apply readline_no_line.
Qed.

Lemma membuff_readline_line_witness :
  let '(ret, str, mb') := membuff_readline (mk_mb false [10; 66; 0; 65] 2 3) 8 0 true in
  ret = 2 /\ str = [65; 10] /\ ready mb' /\ contents mb' = [66].
Proof.
  apply (membuff_readline_line (mk_mb false [10; 66; 0; 65] 2 3) 8 0);
    [repeat split; vm_compute; congruence|lia].
Defined.

(** A wrapped buffer is re-read.  When the queued data wraps around the end
    of the block and holds no line end, [membuff_readline] without [must_fit]
    does not stop at the end of the data: it starts over at the beginning of
    the block and always returns [maxlen - 1] bytes, however few are queued. *)
Theorem membuff_readline_rereads (mb : membuff) (maxlen minch : Z) :
  ready mb -> 0 < mb_head mb < mb_tail mb -> 1 <= maxlen ->
  Forall (fun c => (c =? 10) || (c <? minch) = false) (contents mb) ->
  fst (fst (membuff_readline mb maxlen minch false)) = maxlen - 1.
Proof.
  intros R Hw Hm Hf. unfold membuff_readline. pose proof R as (_ & Hh & Ht).
  destruct (Z.leb_spec (mb_tail mb) (mb_head mb)); [lia|].
  pose proof (readline_loop_wraps mb maxlen minch (Z.to_nat maxlen) (mb_tail mb) (mb_end mb) 0
    R Hw Hf) as L.
  destruct (readline_loop _ _ _ _ _ _ _) as [[str ok] s]. simpl in L.
  rewrite andb_false_r. simpl. lia.
Qed.

Lemma membuff_readline_rereads_witness :
  fst (fst (membuff_readline (mk_mb false [66; 0; 65] 1 2) 10 0 false)) = 9.
Proof.
  apply (membuff_readline_rereads (mk_mb false [66; 0; 65] 1 2) 10 0);
    [repeat split; vm_compute; congruence|simpl; lia|lia|vm_compute; repeat constructor].
Defined.

(** Growing keeps the data.  On a ready buffer the doubling loop ends, and
    [membuff_extend_by] either grows the block without changing the queued
    bytes, or fails (-E2BIG, -ENOMEM) leaving the buffer as it was. *)
Theorem membuff_extend_keeps (mb : membuff) (by_ max : Z) (realloc_ok : bool) (fill : Z) :
  ready mb -> 0 <= by_ -> mb_end mb + by_ <= 1073741824 ->
  exists ret mb', membuff_extend_by mb by_ max realloc_ok fill = Some (ret, mb') /\
    ((ret = 0 /\ ready mb' /\ contents mb' = contents mb /\ mb_end mb < mb_end mb') \/
     ((ret = - E2BIG \/ ret = - ENOMEM) /\ mb' = mb)).
Proof.
  intros R Hb Hs. pose proof R as (Hn & Hh & Ht). unfold membuff_extend_by.
  destruct (double_until_spec 64 (mb_end mb) (mb_end mb + by_)) as (n & -> & Hn1 & Hn2); [lia| |].
  { change (2 ^ Z.of_nat 64) with 18446744073709551616. lia. }
  set (size := if negb (max =? -1) then Z.min n max else n).
  destruct (Z.leb_spec (size - mb_end mb) 0); [eexists _, _; split; [done|]; auto|].
  destruct realloc_ok; simpl; [|eexists _, _; split; [done|]; auto].
  destruct (extend_data_spec mb (size - mb_end mb) fill R) as (E1 & E2 & E3); [lia|].
  destruct (mb_head mb <? mb_tail mb); eexists _, _; (split; [done|]); left;
    (split; [done|split; [exact E1|split; [exact E2|lia]]]).
Qed.

Lemma membuff_extend_keeps_witness :
  exists ret mb', membuff_extend_by (mk_mb false [9; 0; 7; 8] 1 2) 3 (-1) true 0 = Some (ret, mb') /\
    ((ret = 0 /\ ready mb' /\ contents mb' = [7; 8; 9] /\ 4 < mb_end mb') \/
     ((ret = - E2BIG \/ ret = - ENOMEM) /\ mb' = mk_mb false [9; 0; 7; 8] 1 2)).
Proof.
  apply (membuff_extend_keeps (mk_mb false [9; 0; 7; 8] 1 2) 3 (-1) true 0);
    [repeat split; vm_compute; congruence|lia|vm_compute; congruence].
Defined.

(** Making the data contiguous.  [membuff_makecontig] either moves the
    queued bytes, in order, to the start of the block, or returns false with
    the buffer unchanged, which happens only for wrapped data that leaves no
    room to move. *)
Theorem membuff_makecontig_keeps (mb : membuff) :
  ready mb ->
  let '(ok, mb') := membuff_makecontig mb in
  if ok then ready mb' /\ contents mb' = contents mb /\
             sub (mb_data mb') 0 (mb_head mb') = contents mb
  else mb' = mb /\ mb_head mb < mb_tail mb /\ mb_tail mb <= used_bytes mb.
Proof.
  intros R. pose proof (makecontig_spec mb R) as M.
  destruct (membuff_makecontig mb) as [[] mb']; [|done].
  destruct M as (R' & C & T & E). split; [done|]. split; [done|]. rewrite <- C.
  unfold contents. rewrite T. pose proof R' as (_&?&?).
  destruct (Z.leb_spec 0 (mb_head mb')); [|lia]. by rewrite Z.sub_0_r.
Qed.

Lemma membuff_makecontig_keeps_witness :
  let '(ok, mb') := membuff_makecontig (mk_mb false [9; 0; 0; 0; 7] 1 4) in
  if ok then ready mb' /\ contents mb' = [7; 9] /\ sub (mb_data mb') 0 (mb_head mb') = [7; 9]
  else mb' = mk_mb false [9; 0; 0; 0; 7] 1 4 /\ 1 < 4 /\ 4 <= 2.
Proof.
  apply (membuff_makecontig_keeps (mk_mb false [9; 0; 0; 0; 7] 1 4)).
  repeat split; vm_compute; congruence.
Defined.

End Membuff.

(** ** [circbuf]: a ring that overwrites its oldest bytes *)
Module Circbuf.

Record circbuf := mk_cb {
  cb_size : Z;             (* bytes held *)
  cb_totalsize : Z;
  cb_data : list Z;
  cb_top : Z;              (* offsets from data *)
  cb_tail : Z
}.

Definition buf_init (size : Z) (block : list Z) : circbuf := mk_cb 0 size block 0 0.

Definition buf_free (buf : circbuf) : circbuf := mk_cb 0 0 [] 0 0.

(** A pointer moved on by one, wrapping at [buf->end]. *)
Definition bump (buf : circbuf) (p : Z) : Z :=
  if p + 1 =? cb_totalsize buf then 0 else p + 1.

Fixpoint pop_loop (n : nat) (buf : circbuf) (p : Z) : list Z * Z :=
  match n with
  | O => ([], p)
  | S n' =>
      let c := nth (Z.to_nat p) (cb_data buf) 0 in
      let '(rest, p') := pop_loop n' buf (bump buf p) in (c :: rest, p')
  end.

(** The bytes stored at [dest]; their number is the return value. *)
Definition buf_pop (buf : circbuf) (len : Z) : list Z * circbuf :=
  let len := if cb_size buf <? len then cb_size buf else len in
  let '(out, p) := pop_loop (Z.to_nat len) buf (cb_top buf) in
  (out, mk_cb (u32 (cb_size buf - len)) (cb_totalsize buf) (cb_data buf) p (cb_tail buf)).

(** One round of the push loop. *)
Definition push_byte (buf : circbuf) (c : Z) : circbuf :=
  let data := <[Z.to_nat (cb_tail buf) := c]> (cb_data buf) in
  let p := bump buf (cb_tail buf) in
  if cb_size buf <? cb_totalsize buf
  then mk_cb (cb_size buf + 1) (cb_totalsize buf) data (cb_top buf) p
  else mk_cb (cb_size buf) (cb_totalsize buf) data (bump buf (cb_top buf)) p.

Definition buf_push (buf : circbuf) (src : list Z) : Z * circbuf :=
  (Z.of_nat (length src), fold_left push_byte src buf).

(** ** The bytes held *)
Definition at_ (buf : circbuf) (i : nat) : nat :=
  let p := cb_top buf + Z.of_nat i in
  Z.to_nat (if p <? cb_totalsize buf then p else p - cb_totalsize buf).

Definition held (buf : circbuf) : list Z :=
  (fun i => nth (at_ buf i) (cb_data buf) 0) <$> seq 0 (Z.to_nat (cb_size buf)).

Record ok (buf : circbuf) : Prop := {
  ok_block : Z.of_nat (length (cb_data buf)) = cb_totalsize buf;
  ok_total : 0 < cb_totalsize buf < 4294967296;
  ok_size : 0 <= cb_size buf <= cb_totalsize buf;
  ok_top : 0 <= cb_top buf < cb_totalsize buf;
  ok_tail : cb_tail buf = if cb_top buf + cb_size buf <? cb_totalsize buf
                          then cb_top buf + cb_size buf
                          else cb_top buf + cb_size buf - cb_totalsize buf
}.

Lemma length_held buf : length (held buf) = Z.to_nat (cb_size buf).
Proof. unfold held. by rewrite length_fmap, length_seq. Qed.

Lemma held_lookup buf i : (i < Z.to_nat (cb_size buf))%nat ->
  held buf !! i = Some (nth (at_ buf i) (cb_data buf) 0).
Proof.
  intros Hi. unfold held. by rewrite list_lookup_fmap, lookup_seq_lt by done.
Qed.

(** The last [n] elements of a list. *)
Definition lastn (n : nat) (l : list Z) : list Z := drop (length l - n) l.

Lemma nth_insert_eq (l : list Z) i x : (i < length l)%nat -> nth i (<[i:=x]> l) 0 = x.
Proof. intros. apply nth_of_lookup. by apply list_lookup_insert_eq. Qed.

Lemma nth_insert_ne (l : list Z) i j x : i <> j -> nth j (<[i:=x]> l) 0 = nth j l 0.
Proof.
  intros Hne. destruct (l !! j) as [y|] eqn:E.
  - rewrite (nth_of_lookup l j y 0 E). apply nth_of_lookup. by rewrite list_lookup_insert_ne.
  - apply lookup_ge_None in E. rewrite !nth_overflow; rewrite ?length_insert; lia.
Qed.

Lemma push_byte_spec buf c :
  ok buf -> ok (push_byte buf c) /\ cb_totalsize (push_byte buf c) = cb_totalsize buf /\
  held (push_byte buf c) = lastn (Z.to_nat (cb_totalsize buf)) (held buf ++ [c]).
Proof.
  intros [Hb Ht Hs Hp Htl]. set (buf' := push_byte buf c).
  assert (Hd : cb_data buf' = <[Z.to_nat (cb_tail buf) := c]> (cb_data buf))
    by (unfold buf', push_byte; destruct (cb_size buf <? cb_totalsize buf); reflexivity).
  assert (Htot : cb_totalsize buf' = cb_totalsize buf)
    by (unfold buf', push_byte; destruct (cb_size buf <? cb_totalsize buf); reflexivity).
  assert (Hsz : cb_size buf' = Z.min (cb_size buf + 1) (cb_totalsize buf))
    by (unfold buf', push_byte; cmp1; simpl; lia).
  assert (Htop : cb_top buf' = if cb_size buf <? cb_totalsize buf then cb_top buf
                               else bump buf (cb_top buf))
    by (unfold buf', push_byte; destruct (cb_size buf <? cb_totalsize buf); reflexivity).
  assert (Htail : cb_tail buf' = bump buf (cb_tail buf))
    by (unfold buf', push_byte; destruct (cb_size buf <? cb_totalsize buf); reflexivity).
  unfold bump in *. split; [|split; [done|]].
  - constructor; rewrite ?Hd, ?length_insert, ?Htot, ?Hsz; try done; [lia|..];
      rewrite ?Htop, ?Htail; revert Htl; cmp_cases; lia.
  - apply list_eq. intros i. unfold lastn. rewrite lookup_drop, length_app, length_held. simpl.
    destruct (decide (i < Z.to_nat (cb_size buf'))%nat) as [Hi|Hi].
    2: { rewrite (lookup_ge_None_2 (held buf')) by (rewrite length_held; lia).
         symmetry. apply lookup_ge_None. rewrite length_app, length_held. simpl. lia. }
    rewrite held_lookup by done.
    set (k := (Z.to_nat (cb_size buf) + 1 - Z.to_nat (cb_totalsize buf) + i)%nat).
    assert (Hat : at_ buf' i = at_ buf k)
      by (unfold at_, k; rewrite Htop, Htot; cmp_cases; lia).
    rewrite Hat, Hd. destruct (decide (k < Z.to_nat (cb_size buf))%nat) as [Hk|Hk].
    + rewrite lookup_app_l by (rewrite length_held; lia). rewrite held_lookup by done.
      f_equal. apply nth_insert_ne. unfold at_. revert Htl. cmp_cases; lia.
    + rewrite lookup_app_r by (rewrite length_held; lia). rewrite length_held.
      replace (k - Z.to_nat (cb_size buf))%nat with 0%nat by lia. simpl. f_equal.
      assert (Hk' : Z.of_nat k = cb_size buf) by lia.
      assert (E : at_ buf k = Z.to_nat (cb_tail buf))
        by (unfold at_; rewrite Hk'; revert Htl; cmp_cases; lia).
      rewrite E. apply nth_insert_eq. revert Htl. cmp_cases; lia.
Qed.

Lemma lastn_snoc n l x : (0 < n)%nat -> lastn n (lastn n l ++ [x]) = lastn n (l ++ [x]).
Proof.
  intros Hn. unfold lastn. rewrite !length_app, length_drop. simpl.
  destruct (decide (length l <= n)%nat).
  - replace (length l - n)%nat with 0%nat by lia. rewrite drop_0. f_equal. lia.
  - rewrite !drop_app, drop_drop, !length_drop.
    f_equal; f_equal; lia.
Qed.

Lemma push_spec src buf :
  ok buf -> let buf' := fold_left push_byte src buf in
  ok buf' /\ cb_totalsize buf' = cb_totalsize buf /\
  held buf' = lastn (Z.to_nat (cb_totalsize buf)) (held buf ++ src).
Proof.
  intros O. induction src as [|c src IH] using rev_ind; simpl.
  - split; [done|]. split; [done|]. rewrite app_nil_r. unfold lastn. rewrite length_held.
    destruct O. replace (_ - _)%nat with 0%nat by lia. by rewrite drop_0.
  - destruct IH as (O1 & T1 & H1). rewrite fold_left_app. simpl.
    destruct (push_byte_spec _ c O1) as (O2 & T2 & H2).
    split; [done|]. split; [congruence|]. rewrite H2, T1, H1, app_assoc.
    apply lastn_snoc. destruct O. lia.
Qed.

Lemma pop_loop_spec n buf k :
  ok buf -> (k + n <= Z.to_nat (cb_size buf))%nat ->
  pop_loop n buf (Z.of_nat (at_ buf k)) =
    (take n (drop k (held buf)), Z.of_nat (at_ buf (k + n))).
Proof.
  intros O. pose proof O as [Hb Ht Hs Hp Htl]. revert k.
  induction n as [|n IH]; intros k Hk; simpl; [by rewrite Nat.add_0_r|].
  assert (E : bump buf (Z.of_nat (at_ buf k)) = Z.of_nat (at_ buf (S k)))
    by (unfold bump, at_; cmp_cases; lia).
  rewrite E, IH by lia. rewrite Nat2Z.id, Nat.add_succ_r. f_equal.
  pose proof (held_lookup buf k ltac:(lia)) as L. apply drop_S in L. by rewrite L.
Qed.

(** [circbuf] keeps the latest bytes.  Pushing onto a sound buffer leaves it
    holding the last [totalsize] bytes of what it held followed by the source;
    popping returns the oldest bytes in order, at most as many as are held, and
    removes exactly those. *)
Theorem circbuf_keeps_latest (buf : circbuf) (src : list Z) (len : Z) :
  ok buf -> 0 <= len ->
  (let '(n, buf') := buf_push buf src in
   n = Z.of_nat (length src) /\ ok buf' /\
   held buf' = lastn (Z.to_nat (cb_totalsize buf)) (held buf ++ src)) /\
  (let '(out, buf') := buf_pop buf len in
   out = take (Z.to_nat len) (held buf) /\ ok buf' /\
   held buf' = drop (Z.to_nat len) (held buf)).
Proof.
  intros O Hl. split.
  { unfold buf_push. destruct (push_spec src buf O) as (O1 & T1 & H1). auto. }
  pose proof O as [Hb Ht Hs Hp Htl]. unfold buf_pop.
  set (n := if cb_size buf <? len then cb_size buf else len).
  assert (Hn : 0 <= n <= cb_size buf) by (unfold n; cmp1; lia).
  assert (Ht0 : cb_top buf = Z.of_nat (at_ buf 0)) by (unfold at_; cmp1; lia).
  pose proof (pop_loop_spec (Z.to_nat n) buf 0 O ltac:(lia)) as P.
  rewrite <- Ht0, drop_0 in P. simpl in P. rewrite P. clear P Ht0.
  rewrite u32_small by lia. set (buf' := mk_cb _ _ _ _ _).
  assert (Hlen : take (Z.to_nat n) (held buf) = take (Z.to_nat len) (held buf) /\
                 drop (Z.to_nat n) (held buf) = drop (Z.to_nat len) (held buf)).
  { unfold n. cmp1; [|done]. by rewrite !take_ge, !drop_ge by (rewrite length_held; lia). }
  destruct Hlen as [-> <-]. split; [done|].
  assert (Etop : cb_top buf' = Z.of_nat (at_ buf (Z.to_nat n))) by done.
  assert (Esz : cb_size buf' = cb_size buf - n) by done.
  assert (Etot : cb_totalsize buf' = cb_totalsize buf) by done.
  split.
  - constructor; rewrite ?Etop, ?Esz, ?Etot; try done; try lia;
      [unfold at_; cmp_cases; lia|].
    change (cb_tail buf') with (cb_tail buf). rewrite Htl. unfold at_. cmp_cases; lia.
  - apply list_eq. intros i. rewrite lookup_drop.
    destruct (decide (i < Z.to_nat (cb_size buf'))%nat) as [Hi|Hi].
    + rewrite !held_lookup by lia. do 2 f_equal. unfold at_ at 1. rewrite Etop, Etot.
      unfold at_. cmp_cases; lia.
    + rewrite !lookup_ge_None_2 by (rewrite length_held; lia). done.
Qed.

Lemma circbuf_keeps_latest_witness :
  (let '(n, buf') := buf_push (mk_cb 2 3 [8; 9; 7] 2 1) [4; 5] in
   n = 2 /\ ok buf' /\ held buf' = [8; 4; 5]) /\
  (let '(out, buf') := buf_pop (mk_cb 2 3 [8; 9; 7] 2 1) 1 in
   out = [7] /\ ok buf' /\ held buf' = [8]).
Proof.
  apply (circbuf_keeps_latest (mk_cb 2 3 [8; 9; 7] 2 1) [4; 5] 1);
    [constructor; vm_compute; intuition congruence|lia].
Defined.

End Circbuf.
