(* ===== verification/Crc.v ===== *)
(** * Cyclic redundancy checks (lib/crc32.c, crc32c.c, crc16.c, crc16-ccitt.c,
      crc7.c, crc8.c) and the byte checksum of lib/tables_csum.c

    The table-driven routines are shown equal to the bit-serial division they
    optimise.  The model is the little-endian, software-table build
    (CONFIG_ARM64_CRC32 off); the word-at-a-time path of [crc32_no_comp] keeps
    the address of the buffer, since it decides how many bytes are done singly. *)

From S2P Require Import Prelude.

Module Crc.

Definition crc_table : list Z := [
  0; 1996959894; 3993919788; 2567524794; 124634137; 1886057615; 3915621685; 2657392035;
  249268274; 2044508324; 3772115230; 2547177864; 162941995; 2125561021; 3887607047; 2428444049;
  498536548; 1789927666; 4089016648; 2227061214; 450548861; 1843258603; 4107580753; 2211677639;
  325883990; 1684777152; 4251122042; 2321926636; 335633487; 1661365465; 4195302755; 2366115317;
  997073096; 1281953886; 3579855332; 2724688242; 1006888145; 1258607687; 3524101629; 2768942443;
  901097722; 1119000684; 3686517206; 2898065728; 853044451; 1172266101; 3705015759; 2882616665;
  651767980; 1373503546; 3369554304; 3218104598; 565507253; 1454621731; 3485111705; 3099436303;
  671266974; 1594198024; 3322730930; 2970347812; 795835527; 1483230225; 3244367275; 3060149565;
  1994146192; 31158534; 2563907772; 4023717930; 1907459465; 112637215; 2680153253; 3904427059;
  2013776290; 251722036; 2517215374; 3775830040; 2137656763; 141376813; 2439277719; 3865271297;
  1802195444; 476864866; 2238001368; 4066508878; 1812370925; 453092731; 2181625025; 4111451223;
  1706088902; 314042704; 2344532202; 4240017532; 1658658271; 366619977; 2362670323; 4224994405;
  1303535960; 984961486; 2747007092; 3569037538; 1256170817; 1037604311; 2765210733; 3554079995;
  1131014506; 879679996; 2909243462; 3663771856; 1141124467; 855842277; 2852801631; 3708648649;
  1342533948; 654459306; 3188396048; 3373015174; 1466479909; 544179635; 3110523913; 3462522015;
  1591671054; 702138776; 2966460450; 3352799412; 1504918807; 783551873; 3082640443; 3233442989;
  3988292384; 2596254646; 62317068; 1957810842; 3939845945; 2647816111; 81470997; 1943803523;
  3814918930; 2489596804; 225274430; 2053790376; 3826175755; 2466906013; 167816743; 2097651377;
  4027552580; 2265490386; 503444072; 1762050814; 4150417245; 2154129355; 426522225; 1852507879;
  4275313526; 2312317920; 282753626; 1742555852; 4189708143; 2394877945; 397917763; 1622183637;
  3604390888; 2714866558; 953729732; 1340076626; 3518719985; 2797360999; 1068828381; 1219638859;
  3624741850; 2936675148; 906185462; 1090812512; 3747672003; 2825379669; 829329135; 1181335161;
  3412177804; 3160834842; 628085408; 1382605366; 3423369109; 3138078467; 570562233; 1426400815;
  3317316542; 2998733608; 733239954; 1555261956; 3268935591; 3050360625; 752459403; 1541320221;
  2607071920; 3965973030; 1969922972; 40735498; 2617837225; 3943577151; 1913087877; 83908371;
  2512341634; 3803740692; 2075208622; 213261112; 2463272603; 3855990285; 2094854071; 198958881;
  2262029012; 4057260610; 1759359992; 534414190; 2176718541; 4139329115; 1873836001; 414664567;
  2282248934; 4279200368; 1711684554; 285281116; 2405801727; 4167216745; 1634467795; 376229701;
  2685067896; 3608007406; 1308918612; 956543938; 2808555105; 3495958263; 1231636301; 1047427035;
  2932959818; 3654703836; 1088359270; 936918000; 2847714899; 3736837829; 1202900863; 817233897;
  3183342108; 3401237130; 1404277552; 615818150; 3134207493; 3453421203; 1423857449; 601450431;
  3009837614; 3294710456; 1567103746; 711928724; 3020668471; 3272380065; 1510334235; 755167117].

Definition crc7_syndrome_table : list Z := [
  0; 9; 18; 27; 36; 45; 54; 63;
  72; 65; 90; 83; 108; 101; 126; 119;
  25; 16; 11; 2; 61; 52; 47; 38;
  81; 88; 67; 74; 117; 124; 103; 110;
  50; 59; 32; 41; 22; 31; 4; 13;
  122; 115; 104; 97; 94; 87; 76; 69;
  43; 34; 57; 48; 15; 6; 29; 20;
  99; 106; 113; 120; 71; 78; 85; 92;
  100; 109; 118; 127; 64; 73; 82; 91;
  44; 37; 62; 55; 8; 1; 26; 19;
  125; 116; 111; 102; 89; 80; 75; 66;
  53; 60; 39; 46; 17; 24; 3; 10;
  86; 95; 68; 77; 114; 123; 96; 105;
  30; 23; 12; 5; 58; 51; 40; 33;
  79; 70; 93; 84; 107; 98; 121; 112;
  7; 14; 21; 28; 35; 42; 49; 56;
  65; 72; 83; 90; 101; 108; 119; 126;
  9; 0; 27; 18; 45; 36; 63; 54;
  88; 81; 74; 67; 124; 117; 110; 103;
  16; 25; 2; 11; 52; 61; 38; 47;
  115; 122; 97; 104; 87; 94; 69; 76;
  59; 50; 41; 32; 31; 22; 13; 4;
  106; 99; 120; 113; 78; 71; 92; 85;
  34; 43; 48; 57; 6; 15; 20; 29;
  37; 44; 55; 62; 1; 8; 19; 26;
  109; 100; 127; 118; 73; 64; 91; 82;
  60; 53; 46; 39; 24; 17; 10; 3;
  116; 125; 102; 111; 80; 89; 66; 75;
  23; 30; 5; 12; 51; 58; 33; 40;
  95; 86; 77; 68; 123; 114; 105; 96;
  14; 7; 28; 21; 42; 35; 56; 49;
  70; 79; 84; 93; 98; 107; 112; 121].

Definition crc16_table : list Z := [
  0; 49345; 49537; 320; 49921; 960; 640; 49729;
  50689; 1728; 1920; 51009; 1280; 50625; 50305; 1088;
  52225; 3264; 3456; 52545; 3840; 53185; 52865; 3648;
  2560; 51905; 52097; 2880; 51457; 2496; 2176; 51265;
  55297; 6336; 6528; 55617; 6912; 56257; 55937; 6720;
  7680; 57025; 57217; 8000; 56577; 7616; 7296; 56385;
  5120; 54465; 54657; 5440; 55041; 6080; 5760; 54849;
  53761; 4800; 4992; 54081; 4352; 53697; 53377; 4160;
  61441; 12480; 12672; 61761; 13056; 62401; 62081; 12864;
  13824; 63169; 63361; 14144; 62721; 13760; 13440; 62529;
  15360; 64705; 64897; 15680; 65281; 16320; 16000; 65089;
  64001; 15040; 15232; 64321; 14592; 63937; 63617; 14400;
  10240; 59585; 59777; 10560; 60161; 11200; 10880; 59969;
  60929; 11968; 12160; 61249; 11520; 60865; 60545; 11328;
  58369; 9408; 9600; 58689; 9984; 59329; 59009; 9792;
  8704; 58049; 58241; 9024; 57601; 8640; 8320; 57409;
  40961; 24768; 24960; 41281; 25344; 41921; 41601; 25152;
  26112; 42689; 42881; 26432; 42241; 26048; 25728; 42049;
  27648; 44225; 44417; 27968; 44801; 28608; 28288; 44609;
  43521; 27328; 27520; 43841; 26880; 43457; 43137; 26688;
  30720; 47297; 47489; 31040; 47873; 31680; 31360; 47681;
  48641; 32448; 32640; 48961; 32000; 48577; 48257; 31808;
  46081; 29888; 30080; 46401; 30464; 47041; 46721; 30272;
  29184; 45761; 45953; 29504; 45313; 29120; 28800; 45121;
  20480; 37057; 37249; 20800; 37633; 21440; 21120; 37441;
  38401; 22208; 22400; 38721; 21760; 38337; 38017; 21568;
  39937; 23744; 23936; 40257; 24320; 40897; 40577; 24128;
  23040; 39617; 39809; 23360; 39169; 22976; 22656; 38977;
  34817; 18624; 18816; 35137; 19200; 35777; 35457; 19008;
  19968; 36545; 36737; 20288; 36097; 19904; 19584; 35905;
  17408; 33985; 34177; 17728; 34561; 18368; 18048; 34369;
  33281; 17088; 17280; 33601; 16640; 33217; 32897; 16448].

Definition crc16_tab : list Z := [
  0; 4129; 8258; 12387; 16516; 20645; 24774; 28903;
  33032; 37161; 41290; 45419; 49548; 53677; 57806; 61935;
  4657; 528; 12915; 8786; 21173; 17044; 29431; 25302;
  37689; 33560; 45947; 41818; 54205; 50076; 62463; 58334;
  9314; 13379; 1056; 5121; 25830; 29895; 17572; 21637;
  42346; 46411; 34088; 38153; 58862; 62927; 50604; 54669;
  13907; 9842; 5649; 1584; 30423; 26358; 22165; 18100;
  46939; 42874; 38681; 34616; 63455; 59390; 55197; 51132;
  18628; 22757; 26758; 30887; 2112; 6241; 10242; 14371;
  51660; 55789; 59790; 63919; 35144; 39273; 43274; 47403;
  23285; 19156; 31415; 27286; 6769; 2640; 14899; 10770;
  56317; 52188; 64447; 60318; 39801; 35672; 47931; 43802;
  27814; 31879; 19684; 23749; 11298; 15363; 3168; 7233;
  60846; 64911; 52716; 56781; 44330; 48395; 36200; 40265;
  32407; 28342; 24277; 20212; 15891; 11826; 7761; 3696;
  65439; 61374; 57309; 53244; 48923; 44858; 40793; 36728;
  37256; 33193; 45514; 41451; 53516; 49453; 61774; 57711;
  4224; 161; 12482; 8419; 20484; 16421; 28742; 24679;
  33721; 37784; 41979; 46042; 49981; 54044; 58239; 62302;
  689; 4752; 8947; 13010; 16949; 21012; 25207; 29270;
  46570; 42443; 38312; 34185; 62830; 58703; 54572; 50445;
  13538; 9411; 5280; 1153; 29798; 25671; 21540; 17413;
  42971; 47098; 34713; 38840; 59231; 63358; 50973; 55100;
  9939; 14066; 1681; 5808; 26199; 30326; 17941; 22068;
  55628; 51565; 63758; 59695; 39368; 35305; 47498; 43435;
  22596; 18533; 30726; 26663; 6336; 2273; 14466; 10403;
  52093; 56156; 60223; 64286; 35833; 39896; 43963; 48026;
  19061; 23124; 27191; 31254; 2801; 6864; 10931; 14994;
  64814; 60687; 56684; 52557; 48554; 44427; 40424; 36297;
  31782; 27655; 23652; 19525; 15522; 11395; 7392; 3265;
  61215; 65342; 53085; 57212; 44955; 49082; 36825; 40952;
  28183; 32310; 20053; 24180; 11923; 16050; 3793; 7920].

(** ** CRC-32 *)

(** Terms of the polynomial, as in [make_crc_table]. *)
Definition p_terms : list Z := [0; 1; 2; 4; 5; 7; 8; 10; 11; 12; 16; 22; 23; 26].

Definition poly32 : Z := fold_left (fun poly n => Z.lor poly (Z.shiftl 1 (31 - n))) p_terms 0.

(** One bit of the division, low bit first. *)
Definition crc_bit (poly c : Z) : Z :=
  if Z.odd c then Z.lxor poly (Z.shiftr c 1) else Z.shiftr c 1.

Definition crc_byte8 (poly c : Z) : Z := Nat.iter 8 (crc_bit poly) c.

Definition make_crc_table : list Z := map (fun n => crc_byte8 poly32 (Z.of_nat n)) (seq 0 256).

Definition DO_CRC (tab : list Z) (crc x : Z) : Z :=
  Z.lxor (nth (Z.to_nat (Z.land (Z.lxor crc x) 255)) tab 0) (Z.shiftr crc 8).

(** The byte loop up to the first aligned address ([do ... while]). *)
Fixpoint align_loop (tab : list Z) (p : Z) (buf : list Z) (crc : Z) : Z * list Z :=
  match buf with
  | [] => (crc, [])
  | b :: rest =>
      let crc := DO_CRC tab crc b in
      let p := p + 1 in
      match rest with
      | [] => (crc, [])
      | _ => if Z.land p 3 =? 0 then (crc, rest) else align_loop tab p rest crc
      end
  end.

(** A little-endian 32-bit load. *)
Definition load32 (buf : list Z) : Z :=
  match buf with
  | b0 :: b1 :: b2 :: b3 :: _ =>
      Z.lor b0 (Z.shiftl (Z.lor b1 (Z.shiftl (Z.lor b2 (Z.shiftl b3 8)) 8)) 8)
  | _ => 0
  end.

Fixpoint word_loop (tab : list Z) (len : nat) (buf : list Z) (crc : Z) : Z * list Z :=
  match len with
  | O => (crc, buf)
  | S n =>
      let crc := Z.lxor crc (load32 buf) in
      let crc := DO_CRC tab (DO_CRC tab (DO_CRC tab (DO_CRC tab crc 0) 0) 0) 0 in
      word_loop tab n (drop 4 buf) crc
  end.

(** [addr] is the address of the first byte of [buf]. *)
Definition crc32_no_comp (addr crc : Z) (buf : list Z) : Z :=
  let tab := crc_table in
  let '(crc, buf) :=
    if negb (Z.land addr 3 =? 0) && negb (bool_decide (buf = []))
    then align_loop tab addr buf crc else (crc, buf) in
  let '(crc, buf) := word_loop tab (length buf / 4) buf crc in
  fold_left (DO_CRC tab) buf crc.

Definition crc32 (addr crc : Z) (p : list Z) : Z :=
  Z.lxor (crc32_no_comp addr (Z.lxor crc 4294967295) p) 4294967295.

(** The watchdog variant: [None] when the loop makes no progress. *)
Fixpoint wd_loop (fuel : nat) (addr crc : Z) (buf : list Z) (chunk_sz : Z) : option Z :=
  match buf with
  | [] => Some crc
  | _ =>
      match fuel with
      | O => None
      | S f =>
          let chunk := s32 (Z.of_nat (length buf)) in
          let chunk := if chunk_sz <? u32 chunk then s32 chunk_sz else chunk in
          let crc := crc32 addr crc (take (Z.to_nat chunk) buf) in
          wd_loop f (addr + chunk) crc (drop (Z.to_nat chunk) buf) chunk_sz
      end
  end.

(** [watchdog]: CONFIG_HW_WATCHDOG or CONFIG_WATCHDOG. *)
Definition crc32_wd (watchdog : bool) (addr crc : Z) (buf : list Z) (chunk_sz : Z) : option Z :=
  if watchdog then wd_loop (length buf) addr crc buf chunk_sz
  else Some (crc32 addr crc buf).

(** The four output bytes, most significant first ([htonl]). *)
Definition be32 (x : Z) : list Z :=
  [Z.land (Z.shiftr x 24) 255; Z.land (Z.shiftr x 16) 255; Z.land (Z.shiftr x 8) 255;
   Z.land x 255].

Definition crc32_wd_buf (watchdog : bool) (addr : Z) (input : list Z) (chunk_sz : Z)
    : option (list Z) :=
  be32 <$> crc32_wd watchdog addr 0 input chunk_sz.

(** ** CRC-32C, CRC-16, CRC-7, CRC-8 *)
Definition crc32c_init (pol : Z) : list Z :=
  map (fun i => Nat.iter 8 (fun v => Z.lxor (Z.shiftr v 1) (if Z.odd v then pol else 0))
                  (Z.of_nat i)) (seq 0 256).

Definition crc32c_cal (crc : Z) (data : list Z) (tab : list Z) : Z :=
  fold_left (fun crc b =>
    Z.lxor (nth (Z.to_nat (u8 (Z.lxor crc b))) tab 0) (Z.shiftr crc 8)) data crc.

Definition crc16_byte (crc data : Z) : Z :=
  Z.lxor (Z.shiftr crc 8) (nth (Z.to_nat (Z.land (Z.lxor crc data) 255)) crc16_table 0).
Definition crc16 (crc : Z) (buffer : list Z) : Z := fold_left crc16_byte buffer crc.

Definition crc16_ccitt_byte (cksum b : Z) : Z :=
  u16 (Z.lxor (nth (Z.to_nat (Z.land (Z.lxor (Z.shiftr cksum 8) b) 255)) crc16_tab 0)
              (Z.shiftl cksum 8)).
Definition crc16_ccitt (cksum : Z) (buf : list Z) : Z := fold_left crc16_ccitt_byte buf cksum.
Definition crc16_ccitt_wd_buf (buf : list Z) : list Z :=
  let crc := crc16_ccitt 0 buf in [Z.land (Z.shiftr crc 8) 255; Z.land crc 255].

Definition crc7_byte (crc data : Z) : Z :=
  nth (Z.to_nat (Z.lxor (Z.shiftl crc 1) data)) crc7_syndrome_table 0.
Definition crc7 (crc : Z) (buffer : list Z) : Z := fold_left crc7_byte buffer crc.

Definition POLY8 : Z := Z.shiftl 4208 3.    (* 0x1070U << 3 *)
Definition _crc8 (data : Z) : Z :=
  let data := Nat.iter 8 (fun data =>
    let data := if negb (Z.land data 32768 =? 0) then u16 (Z.lxor data POLY8) else data in
    u16 (Z.shiftl data 1)) (u16 data) in
  u8 (Z.shiftr data 8).
Definition crc8 (crc : Z) (vptr : list Z) : Z :=
  fold_left (fun crc b => _crc8 (Z.shiftl (Z.lxor crc b) 8)) vptr crc.
Definition crc8_wd_buf (input : list Z) : Z := u8 (crc8 0 input).

(** ** The byte checksum *)
Definition table_compute_checksum (bytes : list Z) : Z :=
  fold_left (fun checksum b => u8 (checksum - b)) bytes 0.

(** ** Theory of the bit-serial division *)

(** One byte of input, bit by bit. *)
Definition crc_serial_byte (poly crc b : Z) : Z := crc_byte8 poly (Z.lxor crc b).

Definition crc_serial (poly crc : Z) (buf : list Z) : Z :=
  fold_left (crc_serial_byte poly) buf crc.

Section Reflected.
Context (poly w : Z) (Hw : 8 <= w) (Hp : 0 <= poly < 2 ^ w) (Htop : Z.testbit poly (w - 1) = true).

Lemma crc_bit_xor x y : 0 <= x -> 0 <= y ->
  crc_bit poly (Z.lxor x y) = Z.lxor (crc_bit poly x) (crc_bit poly y).
Proof.
  intros Hx Hy. unfold crc_bit. rewrite Z.shiftr_lxor.
  assert (O : Z.odd (Z.lxor x y) = xorb (Z.odd x) (Z.odd y)).
  { rewrite <- !Z.bit0_odd. apply Z.lxor_spec. }
  rewrite O. destruct (Z.odd x), (Z.odd y); simpl; xor_bits.
Qed.

Lemma crc_bit_range x : 0 <= x < 2 ^ w -> 0 <= crc_bit poly x < 2 ^ w.
Proof.
  intros Hx. unfold crc_bit.
  assert (Hs : 0 <= Z.shiftr x 1 < 2 ^ w).
  { rewrite Z.shiftr_div_pow2 by lia. change (2 ^ 1) with 2. split; [apply Z.div_pos; lia|].
    apply Z.div_lt_upper_bound; lia. }
  destruct (Z.odd x); [|done]. split; [apply Z.lxor_nonneg; lia|].
  destruct (Z.eq_dec (Z.lxor poly (Z.shiftr x 1)) 0) as [->|Hne]; [lia|].
  apply Z.log2_lt_pow2; [pose proof (proj2 (Z.lxor_nonneg poly (Z.shiftr x 1))); lia|].
  eapply Z.le_lt_trans; [apply Z.log2_lxor; lia|].
  apply Z.max_lub_lt; (match goal with |- Z.log2 ?v < _ =>
    destruct (Z.eq_dec v 0) as [->|]; [simpl; lia|apply Z.log2_lt_pow2; lia] end).
Qed.

Lemma crc_byte8_xor x y : 0 <= x < 2 ^ w -> 0 <= y < 2 ^ w ->
  crc_byte8 poly (Z.lxor x y) = Z.lxor (crc_byte8 poly x) (crc_byte8 poly y).
Proof.
  intros Hx Hy. unfold crc_byte8.
  assert (X : forall n, 0 <= Nat.iter n (crc_bit poly) x < 2 ^ w /\
                        0 <= Nat.iter n (crc_bit poly) y < 2 ^ w /\
    Nat.iter n (crc_bit poly) (Z.lxor x y) =
    Z.lxor (Nat.iter n (crc_bit poly) x) (Nat.iter n (crc_bit poly) y)).
  { induction n as [|n (I1 & I2 & I3)]; [done|]. simpl. rewrite I3.
    repeat split; try (by apply crc_bit_range). apply crc_bit_xor; lia. }
  apply X.
Qed.

(** Bits above the low byte just move down. *)
Lemma crc_byte8_shift h : 0 <= h -> crc_byte8 poly (Z.shiftl h 8) = h.
Proof.
  intros Hh. unfold crc_byte8.
  assert (X : forall n, (n <= 8)%nat ->
    Nat.iter n (crc_bit poly) (Z.shiftl h 8) = Z.shiftl h (8 - Z.of_nat n)).
  { induction n as [|n IH]; intros Hn; [done|]. rewrite Nat.iter_succ, IH by lia. unfold crc_bit.
    rewrite <- Z.bit0_odd, Z.shiftl_spec_low by lia.
    rewrite Z.shiftr_shiftl_l by lia. f_equal. lia. }
  rewrite X by lia. apply Z.shiftl_0_r.
Qed.

Lemma split_low8 x : 0 <= x -> x = Z.lxor (Z.land x 255) (Z.shiftl (Z.shiftr x 8) 8).
Proof.
  intros Hx. apply Z.bits_inj'. intros n Hn.
  rewrite Z.lxor_spec, Z.land_spec. change 255 with (Z.ones 8).
  destruct (Z_lt_le_dec n 8).
  - rewrite Z.ones_spec_low, Z.shiftl_spec_low by lia. by rewrite andb_true_r, xorb_false_r.
  - rewrite Z.ones_spec_high, Z.shiftl_spec_high, Z.shiftr_spec by lia.
    rewrite andb_false_r. simpl. f_equal. lia.
Qed.

(** The table step is eight bit steps. *)
Lemma table_step tab c x :
  (forall n, (n < 256)%nat -> nth n tab 0 = crc_byte8 poly (Z.of_nat n)) ->
  0 <= c < 2 ^ w -> 0 <= x < 256 -> DO_CRC tab c x = crc_byte8 poly (Z.lxor c x).
Proof.
  intros Ht Hc Hx. unfold DO_CRC. pose proof (Z.pow_le_mono_r 2 8 w ltac:(lia) Hw) as H8.
  change (2 ^ 8) with 256 in H8.
  assert (Hcx : 0 <= Z.lxor c x < 2 ^ w).
  { split; [apply Z.lxor_nonneg; lia|].
    destruct (Z.eq_dec (Z.lxor c x) 0) as [->|]; [lia|].
    apply Z.log2_lt_pow2; [pose proof (proj2 (Z.lxor_nonneg c x)); lia|].
    eapply Z.le_lt_trans; [apply Z.log2_lxor; lia|].
    apply Z.max_lub_lt; (match goal with |- Z.log2 ?v < _ =>
      destruct (Z.eq_dec v 0) as [->|]; [simpl; lia|apply Z.log2_lt_pow2; lia] end). }
  assert (Hl : 0 <= Z.land (Z.lxor c x) 255 < 256).
  { change 255 with (Z.ones 8). rewrite Z.land_ones by lia. apply Z.mod_pos_bound. lia. }
  rewrite Ht by lia. rewrite Z2Nat.id by lia.
  rewrite (split_low8 (Z.lxor c x)) at 2 by lia.
  assert (Hs : Z.shiftr (Z.lxor c x) 8 = Z.shiftr c 8).
  { rewrite Z.shiftr_lxor. rewrite (Z.shiftr_div_pow2 x) by lia. change (2 ^ 8) with 256.
    rewrite (Z.div_small x) by lia. apply Z.lxor_0_r. }
  rewrite Hs. rewrite crc_byte8_xor; [|lia|].
  - f_equal. symmetry. apply crc_byte8_shift. apply Z.shiftr_nonneg. lia.
  - rewrite Z.shiftl_mul_pow2, Z.shiftr_div_pow2 by lia. change (2 ^ 8) with 256.
    pose proof (Z.mul_div_le c 256). split; [apply Z.mul_nonneg_nonneg; [apply Z.div_pos; lia|lia]|lia].
Qed.

(** Bit steps are injective, so no two states meet. *)
Lemma crc_bit_inj x y : 0 <= x < 2 ^ w -> 0 <= y < 2 ^ w ->
  crc_bit poly x = crc_bit poly y -> x = y.
Proof.
  intros Hx Hy E.
  assert (Hhi : forall v, 0 <= v < 2 ^ w -> Z.testbit (crc_bit poly v) (w - 1) = Z.odd v).
  { intros v Hv. unfold crc_bit.
    assert (Z.testbit (Z.shiftr v 1) (w - 1) = false) as T.
    { rewrite Z.shiftr_spec by lia. replace (w - 1 + 1) with w by lia.
      apply Z.bits_above_log2 with (n := w); [lia|].
      destruct (Z.eq_dec v 0) as [->|]; [simpl; lia|]. apply Z.log2_lt_pow2; lia. }
    destruct (Z.odd v); [|done]. by rewrite Z.lxor_spec, Htop, T. }
  assert (O : Z.odd x = Z.odd y) by (rewrite <- !Hhi by done; by rewrite E).
  assert (S : Z.shiftr x 1 = Z.shiftr y 1).
  { unfold crc_bit in E. rewrite O in E. destruct (Z.odd y); [|done].
    apply (f_equal (Z.lxor poly)) in E. rewrite <- !Z.lxor_assoc, Z.lxor_nilpotent, !Z.lxor_0_l in E.
    done. }
  rewrite (Z.div2_odd x), (Z.div2_odd y), O, !Z.div2_spec, S. done.
Qed.

Lemma crc_byte8_range x : 0 <= x < 2 ^ w -> 0 <= crc_byte8 poly x < 2 ^ w.
Proof. intros Hx. unfold crc_byte8. rewrite !Nat.iter_succ. by do 8 apply crc_bit_range. Qed.

Lemma crc_byte8_inj x y : 0 <= x < 2 ^ w -> 0 <= y < 2 ^ w ->
  crc_byte8 poly x = crc_byte8 poly y -> x = y.
Proof.
  intros Hx Hy. unfold crc_byte8. rewrite !Nat.iter_succ. intros E.
  do 8 (apply crc_bit_inj in E; [|repeat apply crc_bit_range; done..]). done.
Qed.
End Reflected.

(** ** CRC-32: table and word steps against the bit-serial reference *)
Lemma crc_table_made : crc_table = make_crc_table.
Proof. vm_compute. reflexivity. Qed.

Lemma poly32_value : poly32 = 3988292384.   (* 0xedb88320 *)
Proof. reflexivity. Qed.

Lemma crc_table_nth n : (n < 256)%nat -> nth n crc_table 0 = crc_byte8 poly32 (Z.of_nat n).
Proof.
  intros Hn. rewrite crc_table_made. unfold make_crc_table.
  rewrite (nth_indep _ 0 (crc_byte8 poly32 (Z.of_nat 0))) by (rewrite length_map, length_seq; lia).
  rewrite (map_nth (fun n => crc_byte8 poly32 (Z.of_nat n)) (seq 0 256) 0%nat).
  by rewrite seq_nth by lia.
Qed.

Definition u32v (x : Z) : Prop := 0 <= x < 2 ^ 32.

Lemma poly32_ok : 0 <= poly32 < 2 ^ 32 /\ Z.testbit poly32 (32 - 1) = true.
Proof. rewrite poly32_value. split; [lia|reflexivity]. Qed.

Lemma serial_range c : u32v c -> u32v (crc_byte8 poly32 c).
Proof. intros Hc. apply (crc_byte8_range poly32 32); first [lia | apply poly32_ok | done]. Qed.

Lemma lxor_range n a b : 0 <= n -> 0 <= a < 2 ^ n -> 0 <= b < 2 ^ n -> 0 <= Z.lxor a b < 2 ^ n.
Proof.
  intros Hn Ha Hb. split; [apply Z.lxor_nonneg; lia|].
  destruct (Z.eq_dec (Z.lxor a b) 0) as [->|Hne]; [lia|].
  apply Z.log2_lt_pow2; [pose proof (proj2 (Z.lxor_nonneg a b)); lia|].
  eapply Z.le_lt_trans; [apply Z.log2_lxor; lia|].
  destruct (Z.eq_dec n 0) as [->|]; [exfalso; apply Hne; change (2 ^ 0) with 1 in *;
    replace a with 0 by lia; replace b with 0 by lia; done|].
  apply Z.max_lub_lt; (match goal with |- Z.log2 ?v < _ =>
    destruct (Z.eq_dec v 0) as [->|]; [simpl; lia|apply Z.log2_lt_pow2; lia] end).
Qed.

Lemma u32v_xor_byte c b : u32v c -> is_u8 b -> u32v (Z.lxor c b).
Proof. unfold is_u8. intros. apply lxor_range; [lia|done|lia]. Qed.

Lemma DO_CRC_serial c b : u32v c -> is_u8 b -> DO_CRC crc_table c b = crc_serial_byte poly32 c b.
Proof.
  intros Hc Hb. destruct poly32_ok as [P1 P2].
  apply (table_step poly32 32); first [lia | exact crc_table_nth | done].
Qed.

Lemma serial_byte_range c b : u32v c -> is_u8 b -> u32v (crc_serial_byte poly32 c b).
Proof. intros. by apply serial_range, u32v_xor_byte. Qed.

Lemma fold_serial buf c : u32v c -> Forall is_u8 buf ->
  fold_left (DO_CRC crc_table) buf c = crc_serial poly32 c buf /\ u32v (crc_serial poly32 c buf).
Proof.
  revert c. induction buf as [|b buf IH]; intros c Hc Hf; simpl; [done|].
  apply Forall_cons in Hf as [Hb Hf]. rewrite DO_CRC_serial by done.
  apply IH; [by apply serial_byte_range|done].
Qed.

(** Bits above the low byte travel through a byte step unchanged. *)
Lemma serial_peel x h : u32v x -> 0 <= h < 2 ^ 24 ->
  crc_byte8 poly32 (Z.lxor x (Z.shiftl h 8)) = Z.lxor (crc_byte8 poly32 x) h.
Proof.
  intros Hx Hh. destruct poly32_ok as [P1 P2].
  assert (Hs : 0 <= Z.shiftl h 8 < 2 ^ 32) by (rewrite Z.shiftl_mul_pow2 by lia; lia).
  rewrite (crc_byte8_xor poly32 32) by (first [lia | done]).
  f_equal. apply (crc_byte8_shift poly32 32); lia.
Qed.

Lemma lor_low_lxor b h : is_u8 b -> 0 <= h -> Z.lor b (Z.shiftl h 8) = Z.lxor b (Z.shiftl h 8).
Proof.
  intros Hb Hh. symmetry. apply Z.lxor_lor. apply Z.bits_inj'. intros n Hn.
  rewrite Z.land_spec, Z.bits_0. destruct (Z_lt_le_dec n 8).
  - rewrite Z.shiftl_spec_low by lia. apply andb_false_r.
  - assert (Z.testbit b n = false) as ->; [|done]. unfold is_u8 in Hb.
    destruct (Z.eq_dec b 0) as [->|]; [apply Z.bits_0|].
    apply Z.bits_above_log2; [lia|].
    apply Z.lt_le_trans with 8; [apply Z.log2_lt_pow2; lia|lia].
Qed.

Lemma lor_low_range b h n : is_u8 b -> 0 <= h < 2 ^ n -> 0 <= n ->
  0 <= Z.lor b (Z.shiftl h 8) < 2 ^ (n + 8).
Proof.
  intros Hb Hh Hn. rewrite lor_low_lxor by (done || lia).
  rewrite Z.pow_add_r by lia. change (2 ^ 8) with 256.
  assert (1 <= 2 ^ n) by lia. unfold is_u8 in Hb.
  replace (2 ^ n * 256) with (2 ^ (n + 8)) by (rewrite Z.pow_add_r by lia; lia).
  apply lxor_range; [lia| |]; rewrite ?Z.shiftl_mul_pow2, Z.pow_add_r by lia; nia.
Qed.

(** Loading a word and stepping four times is four byte steps. *)
Lemma word_step c b0 b1 b2 b3 rest :
  u32v c -> is_u8 b0 -> is_u8 b1 -> is_u8 b2 -> is_u8 b3 ->
  let d := Z.lxor c (load32 (b0 :: b1 :: b2 :: b3 :: rest)) in
  DO_CRC crc_table (DO_CRC crc_table (DO_CRC crc_table (DO_CRC crc_table d 0) 0) 0) 0 =
  crc_serial poly32 c [b0; b1; b2; b3].
Proof.
  intros Hc H0 H1 H2 H3 d.
  assert (Z0 : is_u8 0) by (unfold is_u8; lia).
  set (w3 := b3). set (w2 := Z.lor b2 (Z.shiftl w3 8)). set (w1 := Z.lor b1 (Z.shiftl w2 8)).
  assert (R3 : 0 <= w3 < 2 ^ 8) by (unfold is_u8, w3 in *; lia).
  assert (R2 : 0 <= w2 < 2 ^ 16) by (apply (lor_low_range b2 w3 8); [done|lia|lia]).
  assert (R1 : 0 <= w1 < 2 ^ 24) by (apply (lor_low_range b1 w2 16); [done|lia|lia]).
  assert (P : forall x, u32v x -> DO_CRC crc_table x 0 = crc_byte8 poly32 x).
  { intros x Hx. rewrite DO_CRC_serial by done. unfold crc_serial_byte. by rewrite Z.lxor_0_r. }
  assert (Step : forall x b h n, u32v x -> is_u8 b -> 0 <= h < 2 ^ n -> 0 <= n <= 24 ->
    u32v (Z.lxor x (Z.lor b (Z.shiftl h 8))) /\
    DO_CRC crc_table (Z.lxor x (Z.lor b (Z.shiftl h 8))) 0 =
    Z.lxor (crc_serial_byte poly32 x b) h).
  { intros x b h n Hx Hb Hh Hn.
    assert (Hh' : 0 <= h < 2 ^ 24) by (pose proof (Z.pow_le_mono_r 2 n 24); lia).
    assert (Hr : u32v (Z.lxor x (Z.lor b (Z.shiftl h 8))))
      by (apply lxor_range; [lia|done|apply (lor_low_range b h 24); done || lia]).
    split; [done|]. rewrite P by done. rewrite lor_low_lxor by (done || lia).
    rewrite <- Z.lxor_assoc. apply serial_peel; [by apply u32v_xor_byte|done]. }
  set (c1 := crc_serial_byte poly32 c b0). set (c2 := crc_serial_byte poly32 c1 b1).
  set (c3 := crc_serial_byte poly32 c2 b2).
  assert (V1 : u32v c1) by by apply serial_byte_range.
  assert (V2 : u32v c2) by by apply serial_byte_range.
  assert (V3 : u32v c3) by by apply serial_byte_range.
  destruct (Step c b0 w1 24 Hc H0 R1 ltac:(lia)) as [_ E1].
  destruct (Step c1 b1 w2 16 V1 H1 R2 ltac:(lia)) as [_ E2].
  destruct (Step c2 b2 w3 8 V2 H2 R3 ltac:(lia)) as [_ E3].
  unfold d. cbn [load32]. change (Z.lor b2 (Z.shiftl b3 8)) with w2.
  change (Z.lor b1 (Z.shiftl w2 8)) with w1. rewrite E1. fold c1.
  change (Z.lxor c1 w1) with (Z.lxor c1 (Z.lor b1 (Z.shiftl w2 8))). rewrite E2. fold c2.
  change (Z.lxor c2 w2) with (Z.lxor c2 (Z.lor b2 (Z.shiftl w3 8))). rewrite E3. fold c3.
  rewrite P by (apply u32v_xor_byte; [exact V3|exact H3]).
  unfold crc_serial. cbn [fold_left]. fold c1. fold c2. fold c3.
  unfold crc_serial_byte at 1. reflexivity.
Qed.

Lemma align_loop_spec buf p c : u32v c -> Forall is_u8 buf ->
  let '(c', rest) := align_loop crc_table p buf c in
  exists pre, buf = pre ++ rest /\ c' = crc_serial poly32 c pre /\ u32v c'.
Proof.
  revert p c. induction buf as [|b buf IH]; intros p c Hc Hf; simpl; [by exists []|].
  apply Forall_cons in Hf as [Hb Hf]. rewrite DO_CRC_serial by done.
  pose proof (serial_byte_range c b Hc Hb) as Hc'.
  destruct buf as [|b' buf]; [by exists [b]|].
  destruct (Z.land (p + 1) 3 =? 0); [by exists [b]|].
  specialize (IH (p + 1) _ Hc' Hf).
  destruct (align_loop _ _ _ _) as [c' rest]. destruct IH as (pre & -> & -> & H).
  exists (b :: pre). done.
Qed.

Lemma crc_serial_app poly c a b : crc_serial poly (crc_serial poly c a) b = crc_serial poly c (a ++ b).
Proof. unfold crc_serial. by rewrite fold_left_app. Qed.

Lemma cons4_app {A} (a b c d : A) l : a :: b :: c :: d :: l = [a; b; c; d] ++ l.
Proof. done. Qed.

Lemma word_loop_S tab n buf c :
  word_loop tab (S n) buf c =
  word_loop tab n (drop 4 buf)
    (DO_CRC tab (DO_CRC tab (DO_CRC tab (DO_CRC tab (Z.lxor c (load32 buf)) 0) 0) 0) 0).
Proof. reflexivity. Qed.

Lemma word_loop_spec n buf c : u32v c -> Forall is_u8 buf -> (4 * n <= length buf)%nat ->
  word_loop crc_table n buf c = (crc_serial poly32 c (take (4 * n) buf), drop (4 * n) buf).
Proof.
  revert buf c. induction n as [|n IH]; intros buf c Hc Hf Hn; [done|].
  destruct buf as [|b0 [|b1 [|b2 [|b3 buf]]]]; simpl in Hn; try lia.
  repeat (apply Forall_cons in Hf as [? Hf]).
  rewrite word_loop_S, word_step by done. cbn [drop skipn].
  assert (Hv : u32v (crc_serial poly32 c [b0; b1; b2; b3]))
    by (apply fold_serial; [done|by rewrite !Forall_cons]).
  rewrite IH by (rewrite ?drop_0; done || lia). rewrite drop_0.
  replace (4 * S n)%nat with (length [b0; b1; b2; b3] + 4 * n)%nat by (simpl; lia).
  rewrite crc_serial_app, (cons4_app b0 b1 b2 b3 buf).
  by rewrite take_app_add, drop_app_add.
Qed.

Lemma crc32_no_comp_serial addr c buf : u32v c -> Forall is_u8 buf ->
  crc32_no_comp addr c buf = crc_serial poly32 c buf /\ u32v (crc_serial poly32 c buf).
Proof.
  intros Hc Hf. split; [|by apply fold_serial]. unfold crc32_no_comp.
  assert (Main : forall d rest, u32v d -> Forall is_u8 rest ->
    (let '(d, rest) := word_loop crc_table (length rest / 4) rest d in
     fold_left (DO_CRC crc_table) rest d) = crc_serial poly32 d rest).
  { intros d rest Hd Hr. pose proof (Nat.Div0.mul_div_le (length rest) 4).
    rewrite word_loop_spec by (done || lia).
    destruct (fold_serial (take (4 * (length rest / 4)) rest) d Hd) as [_ Hv];
      [by apply Forall_take|].
    rewrite (proj1 (fold_serial _ _ Hv (Forall_drop _ _ _ Hr))).
    unfold crc_serial. by rewrite <- fold_left_app, take_drop. }
  destruct (_ && _).
  - pose proof (align_loop_spec buf addr c Hc Hf) as A.
    destruct (align_loop _ _ _ _) as [d rest]. destruct A as (pre & -> & -> & Hv).
    apply Forall_app in Hf as [_ Hf]. rewrite Main by done.
    unfold crc_serial. by rewrite fold_left_app.
  - by apply Main.
Qed.

Lemma lxor_ones_range c : u32v c -> u32v (Z.lxor c 4294967295).
Proof. intros. apply lxor_range; [lia|done|lia]. Qed.

Lemma crc32_nil addr c : crc32 addr c [] = c.
Proof.
  unfold crc32, crc32_no_comp. rewrite bool_decide_true by done. rewrite andb_false_r. cbn.
  by rewrite Z.lxor_assoc, Z.lxor_nilpotent, Z.lxor_0_r.
Qed.

Lemma crc32_range addr c buf : u32v c -> Forall is_u8 buf -> u32v (crc32 addr c buf).
Proof.
  intros Hc Hf. unfold crc32. apply lxor_ones_range.
  destruct (crc32_no_comp_serial addr (Z.lxor c 4294967295) buf) as [-> ?];
    [by apply lxor_ones_range|done|done].
Qed.

Lemma crc32_app addr addr' addr'' c a b : u32v c -> Forall is_u8 a -> Forall is_u8 b ->
  crc32 addr' (crc32 addr c a) b = crc32 addr'' c (a ++ b).
Proof.
  intros Hc Ha Hb. unfold crc32. pose proof (lxor_ones_range c Hc) as Hc'.
  destruct (crc32_no_comp_serial addr (Z.lxor c 4294967295) a Hc' Ha) as [-> Hv].
  rewrite Z.lxor_assoc, Z.lxor_nilpotent, Z.lxor_0_r.
  rewrite (proj1 (crc32_no_comp_serial addr' _ b Hv Hb)).
  rewrite (proj1 (crc32_no_comp_serial addr'' _ (a ++ b) Hc' (Forall_app_2 _ _ _ Ha Hb))).
  unfold crc_serial. by rewrite fold_left_app.
Qed.

Lemma crc_serial_inj buf c d : u32v c -> u32v d -> Forall is_u8 buf ->
  crc_serial poly32 c buf = crc_serial poly32 d buf -> c = d.
Proof.
  revert c d. induction buf as [|b buf IH]; intros c d Hc Hd Hf E; [done|].
  apply Forall_cons in Hf as [Hb Hf]. destruct poly32_ok as [P1 P2].
  apply IH in E; [|by apply serial_byte_range..|done].
  apply (crc_byte8_inj poly32 32) in E;
    try first [lia | done | by apply u32v_xor_byte].
  apply (f_equal (fun v => Z.lxor v b)) in E.
  by rewrite !Z.lxor_assoc, Z.lxor_nilpotent, !Z.lxor_0_r in E.
Qed.

(** C32: the optimised CRC-32 is the bit-serial one.  Whatever the alignment of
    the buffer, [crc32_no_comp], with its single-byte head, word-at-a-time body
    and table, returns what dividing the data bit by bit by the polynomial of
    [make_crc_table] returns, and the literal table is the one
    [make_crc_table] computes. *)
Theorem crc32_matches_bit_serial (addr crc : Z) (buf : list Z) :
  u32v crc -> Forall is_u8 buf ->
  crc_table = make_crc_table /\
  crc32_no_comp addr crc buf = crc_serial poly32 crc buf.
Proof. intros Hc Hf. split; [exact crc_table_made|by apply crc32_no_comp_serial]. Qed.

Lemma crc32_matches_bit_serial_witness :
  crc_table = make_crc_table /\
  crc32_no_comp 3 4294967295 [49; 50; 51; 52; 53; 54; 55; 56; 57] =
    crc_serial poly32 4294967295 [49; 50; 51; 52; 53; 54; 55; 56; 57].
Proof.
  apply (crc32_matches_bit_serial 3 4294967295 [49; 50; 51; 52; 53; 54; 55; 56; 57]);
    [unfold u32v; lia|repeat constructor; unfold is_u8; lia].
Defined.

(** The published check value of CRC-32. *)
Example crc32_check_value : crc32 1 0 [49; 50; 51; 52; 53; 54; 55; 56; 57] = 3421780262.
Proof. vm_compute. reflexivity. Qed.

(** One corrupted byte is always seen.  Two buffers of the same length that
    differ in exactly one byte never have the same [crc32], whatever the
    initial value and wherever the buffers are. *)
Theorem crc32_detects_byte (addr addr' crc : Z) (a b : list Z) (x y : Z) :
  u32v crc -> Forall is_u8 (a ++ x :: b) -> is_u8 y -> x <> y ->
  crc32 addr crc (a ++ x :: b) <> crc32 addr' crc (a ++ y :: b).
Proof.
  intros Hc Hf Hy Hxy E. pose proof (lxor_ones_range crc Hc) as Hc'.
  apply Forall_app in Hf as [Ha Hf]. apply Forall_cons in Hf as [Hx Hb].
  apply (f_equal (fun v => Z.lxor v 4294967295)) in E. unfold crc32 in E.
  rewrite !Z.lxor_assoc, Z.lxor_nilpotent, !Z.lxor_0_r in E.
  rewrite !(fun ad l H => proj1 (crc32_no_comp_serial ad _ l Hc' H)) in E
    by (apply Forall_app_2; [done|by constructor]).
  unfold crc_serial in E. rewrite !fold_left_app in E. simpl in E.
  destruct (fold_serial a _ Hc' Ha) as [_ Hv].
  apply crc_serial_inj in E; [|by apply serial_byte_range..|done].
  destruct poly32_ok as [P1 P2].
  apply (crc_byte8_inj poly32 32) in E;
    try first [lia | done | by apply u32v_xor_byte].
  apply Hxy. apply (f_equal (Z.lxor (crc_serial poly32 (Z.lxor crc 4294967295) a))) in E.
  by rewrite <- !Z.lxor_assoc, Z.lxor_nilpotent, !Z.lxor_0_l in E.
Qed.

Lemma crc32_detects_byte_witness :
  crc32 0 0 ([1; 2] ++ 3 :: [4]) <> crc32 8 0 ([1; 2] ++ 7 :: [4]).
Proof.
  apply (crc32_detects_byte 0 8 0 [1; 2] [4] 3 7);
    [unfold u32v; lia|repeat constructor; unfold is_u8; lia|unfold is_u8; lia|lia].
Defined.

(** Chunking does not matter.  For a positive chunk size that an int holds
    and a length a uInt holds, the watchdog loop of [crc32_wd] ends and returns
    the CRC of the whole buffer. *)
Theorem crc32_wd_whole (watchdog : bool) (addr crc : Z) (buf : list Z) (chunk_sz : Z) :
  u32v crc -> Forall is_u8 buf -> 0 < chunk_sz < 2 ^ 31 -> Z.of_nat (length buf) < 2 ^ 32 ->
  crc32_wd watchdog addr crc buf chunk_sz = Some (crc32 addr crc buf).
Proof.
  intros Hc Hf Hz HL. unfold crc32_wd. destruct watchdog; [|done].
  assert (X : forall n addr' crc buf, (length buf <= n)%nat -> Z.of_nat (length buf) < 2 ^ 32 -> u32v crc -> Forall is_u8 buf ->
    wd_loop n addr' crc buf chunk_sz = Some (crc32 addr crc buf)).
  { clear crc buf Hc Hf HL. induction n as [|n IH]; intros addr' crc buf Hn HL Hc Hf.
    - destruct buf; [|simpl in Hn; lia]. cbn [wd_loop]. by rewrite crc32_nil.
    - destruct buf as [|b buf]; [cbn [wd_loop]; by rewrite crc32_nil|].
      cbn [wd_loop]. set (l := b :: buf) in *.
      set (chunk := if _ <? _ then _ else _).
      assert (Hch : 0 < chunk <= Z.of_nat (length l)).
      { assert (0 < Z.of_nat (length l)) by (unfold l; simpl; lia).
        unfold chunk. rewrite u32_s32, u32_small by lia.
        cmp1; rewrite s32_small; lia. }
      rewrite IH; [|rewrite length_drop; lia|rewrite length_drop; lia|apply crc32_range; [done|by apply Forall_take]
                   |by apply Forall_drop].
      f_equal. rewrite (crc32_app addr' addr addr) by (first [done|by apply Forall_take|by apply Forall_drop]).
      by rewrite take_drop. }
  by apply X.
Qed.

Lemma crc32_wd_whole_witness :
  crc32_wd true 0 0 [1; 2; 3; 4; 5] 2 = Some (crc32 0 0 [1; 2; 3; 4; 5]).
Proof.
  apply (crc32_wd_whole true 0 0 [1; 2; 3; 4; 5] 2);
    [unfold u32v; lia|repeat constructor; unfold is_u8; lia|lia|simpl; lia].
Defined.

(** ** The small CRCs *)

(** Bit-serial, high bit first, [w] bits wide. *)
Definition msb_bit (w poly c : Z) : Z :=
  Z.land (if Z.testbit c (w - 1) then Z.lxor (Z.shiftl c 1) poly else Z.shiftl c 1) (Z.ones w).

Lemma forallb_range (f : Z -> bool) n :
  forallb (fun i => f (Z.of_nat i)) (seq 0 n) = true ->
  forall x, 0 <= x < Z.of_nat n -> f x = true.
Proof.
  intros H x Hx. rewrite forallb_forall in H.
  specialize (H (Z.to_nat x)). rewrite Z2Nat.id in H by lia. apply H, in_seq. lia.
Qed.

Lemma crc16_table_nth n : (n < 256)%nat -> nth n crc16_table 0 = crc_byte8 40961 (Z.of_nat n).
Proof.
  intros Hn. apply Z.eqb_eq.
  pose proof (forallb_range (fun x => nth (Z.to_nat x) crc16_table 0 =? crc_byte8 40961 x) 256
    ltac:(vm_compute; reflexivity) (Z.of_nat n) ltac:(lia)) as H.
  cbv beta in H. by rewrite Nat2Z.id in H.
Qed.

Lemma ccitt_step_zero d : 0 <= d < 65536 ->
  crc16_ccitt_byte d 0 = Nat.iter 8 (msb_bit 16 4129) d.
Proof.
  intros Hd. apply Z.eqb_eq.
  pose proof (forallb_range (fun h => forallb (fun l =>
      crc16_ccitt_byte (256 * h + Z.of_nat l) 0 =?
      Nat.iter 8 (msb_bit 16 4129) (256 * h + Z.of_nat l)) (seq 0 256)) 256
    ltac:(vm_compute; reflexivity) (d / 256)
    ltac:(change (Z.of_nat 256) with 256; split; [apply Z.div_pos|apply Z.div_lt_upper_bound]; lia)) as H.
  pose proof (Z.mod_pos_bound d 256 ltac:(lia)).
  apply (forallb_range (fun l => crc16_ccitt_byte (256 * (d / 256) + l) 0 =?
      Nat.iter 8 (msb_bit 16 4129) (256 * (d / 256) + l)) 256) with (x := d mod 256) in H; [|lia].
  by rewrite <- Z.div_mod in H by lia.
Qed.

Lemma ccitt_fold c b : 0 <= c < 65536 -> is_u8 b ->
  crc16_ccitt_byte c b = crc16_ccitt_byte (Z.lxor c (Z.shiftl b 8)) 0.
Proof.
  intros Hc Hb. unfold crc16_ccitt_byte. rewrite Z.lxor_0_r, Z.shiftr_lxor.
  rewrite Z.shiftr_shiftl_l, Z.shiftl_0_r by lia. rewrite Z.shiftl_lxor, Z.shiftl_shiftl by lia.
  set (t := nth _ _ _). unfold u16. change 65536 with (2 ^ 16).
  rewrite <- !Z.land_ones by lia. apply Z.bits_inj'. intros n Hn.
  rewrite !Z.land_spec, !Z.lxor_spec. destruct (Z_lt_le_dec n 16).
  - rewrite (Z.shiftl_spec_low b) by lia. by rewrite xorb_false_r.
  - by rewrite Z.ones_spec_high, !andb_false_r by lia.
Qed.

(** The small CRCs are the bit-serial divisions by their documented
    polynomials.  One byte of [crc16] is eight low-bit-first steps of
    x^16+x^15+x^2+1, one byte of [crc16_ccitt] eight high-bit-first steps of
    x^16+x^12+x^5+1, one byte of [crc8] eight high-bit-first steps of
    x^8+x^2+x+1, and one byte of [crc7] eight high-bit-first steps of x^7+x^3+1
    on a register held one bit up. *)
Theorem small_crcs_match_serial (c b : Z) :
  0 <= c < 65536 -> is_u8 b ->
  crc16 c [b] = crc_byte8 40961 (Z.lxor c b) /\
  crc16_ccitt c [b] = Nat.iter 8 (msb_bit 16 4129) (Z.lxor c (Z.shiftl b 8)) /\
  (c < 256 -> crc8 c [b] = Nat.iter 8 (msb_bit 8 7) (Z.lxor c b)) /\
  (c < 128 -> crc7 c [b] =
     Z.shiftr (Nat.iter 8 (msb_bit 8 18) (Z.lxor (Z.shiftl c 1) b)) 1).
Proof.
  intros Hc Hb. unfold crc16, crc16_ccitt, crc8, crc7. cbn [fold_left]. split; [|split; [|split]].
  - unfold crc16_byte. rewrite Z.lxor_comm. change 65536 with (2 ^ 16) in Hc.
    apply (table_step 40961 16); first [lia | exact crc16_table_nth | done].
  - rewrite ccitt_fold by done. apply ccitt_step_zero. change 65536 with (2 ^ 16) in *.
    apply lxor_range; [lia|done|]. unfold is_u8 in Hb. rewrite Z.shiftl_mul_pow2 by lia. lia.
  - intros Hc8. assert (H : 0 <= Z.lxor c b < 256).
    { change 256 with (2 ^ 8). unfold is_u8 in Hb. apply lxor_range; lia. }
    apply Z.eqb_eq. revert H. generalize (Z.lxor c b). change 256 with (Z.of_nat 256).
    apply (forallb_range (fun x => _crc8 (Z.shiftl x 8) =? Nat.iter 8 (msb_bit 8 7) x)).
    vm_compute. reflexivity.
  - intros Hc7. unfold crc7_byte.
    assert (H : 0 <= Z.lxor (Z.shiftl c 1) b < 256).
    { change 256 with (2 ^ 8). unfold is_u8 in Hb. apply lxor_range; [lia| |lia].
      rewrite Z.shiftl_mul_pow2 by lia. lia. }
    apply Z.eqb_eq. revert H. generalize (Z.lxor (Z.shiftl c 1) b). change 256 with (Z.of_nat 256).
    apply (forallb_range (fun x => nth (Z.to_nat x) crc7_syndrome_table 0 =?
      Z.shiftr (Nat.iter 8 (msb_bit 8 18) x) 1)).
    vm_compute. reflexivity.
Qed.

Lemma small_crcs_match_serial_witness :
  crc16 5 [7] = crc_byte8 40961 (Z.lxor 5 7) /\
  crc16_ccitt 5 [7] = Nat.iter 8 (msb_bit 16 4129) (Z.lxor 5 (Z.shiftl 7 8)) /\
  (5 < 256 -> crc8 5 [7] = Nat.iter 8 (msb_bit 8 7) (Z.lxor 5 7)) /\
  (5 < 128 -> crc7 5 [7] = Z.shiftr (Nat.iter 8 (msb_bit 8 18) (Z.lxor (Z.shiftl 5 1) 7)) 1).
Proof. apply (small_crcs_match_serial 5 7); unfold is_u8; lia. Defined.

(** The byte checksum makes the sum of the bytes zero. *)
Lemma table_checksum_sum bytes :
  table_compute_checksum bytes = u8 (- fold_right Z.add 0 bytes).
Proof.
  unfold table_compute_checksum.
  assert (X : forall c, u8 (fold_left (fun ck b => u8 (ck - b)) bytes c) =
                        u8 (c - fold_right Z.add 0 bytes)).
  { induction bytes as [|b bytes IH]; intros c; simpl; [by rewrite Z.sub_0_r|].
    rewrite IH. unfold u8. rewrite Zminus_mod_idemp_l. f_equal. lia. }
  rewrite <- (Z.sub_0_l (fold_right Z.add 0 bytes)), <- X.
  destruct bytes as [|b bytes] using rev_ind; [done|].
  rewrite fold_left_app. simpl. unfold u8. by rewrite Zmod_mod.
Qed.

End Crc.
