(* ===== verification/AndroidAb.v ===== *)
(** * Android A/B slot selection (boot/android_ab.c)

    The bootloader control block is the buffer of disk blocks the program reads
    it into: a list of bytes, its fields read and written at the offsets of
    [struct bootloader_control].  The block device is an interface ([BlkDev])
    with the behaviour the code relies on as laws ([BlkLaws]); a RAM disk
    implements both. *)

From S2P Require Import Prelude.
From S2P Require Import Bytes.
From S2P Require Import Crc.

Module AndroidAb.
Import Crc.
Local Open Scope uboot_scope.

(** ** Block devices *)
Definition IS_ERR_VALUE (x : Z) : bool := 18446744073709551616 - 4095 <=? x.

(** [blk_dread dev start blkcnt] returns the number of blocks read, which may be
    less than [blkcnt], or an error code, and the bytes of the buffer after it:
    what was not read is what the buffer held before.  [blk_dwrite] returns the
    number of blocks written or an error code, and the device. *)
Class BlkDev (D : Type) := {
  blk_dread : D -> Z -> Z -> Z * list Z;
  blk_dwrite : D -> Z -> Z -> list Z -> Z * D
}.

(** What is relied on of a driver (include/blk.h, blk_read and blk_write): the
    buffer has the size asked for; blocks that were all written are read back,
    and others keep what they hold. *)
Class BlkLaws (D : Type) `{BlkDev D} (blksz : Z) := {
  dread_length : forall d start n,
    IS_ERR_VALUE (fst (blk_dread d start n)) = false ->
    Z.of_nat (length (snd (blk_dread d start n))) = n * blksz;
  dread_bytes : forall d start n, Forall is_u8 (snd (blk_dread d start n));
  dwrite_dread : forall d start n bs d',
    0 <= start -> 0 <= n -> IS_ERR_VALUE n = false -> Z.of_nat (length bs) = n * blksz ->
    blk_dwrite d start n bs = (n, d') -> Forall is_u8 bs -> blk_dread d' start n = (n, bs);
  dwrite_other : forall d start n bs r d' start' n',
    0 <= start -> 0 <= n -> 0 <= start' -> 0 <= n' -> Z.of_nat (length bs) = n * blksz ->
    blk_dwrite d start n bs = (r, d') ->
    start' + n' <= start \/ start + n <= start' ->
    blk_dread d' start' n' = blk_dread d start' n'
}.

(** A write that reports no error has written every block. *)
Definition whole_writes (D : Type) `{BlkDev D} : Prop :=
  forall (d : D) start n bs, IS_ERR_VALUE (fst (blk_dwrite d start n bs)) = false ->
    fst (blk_dwrite d start n bs) = n.

Record disk_partition := mk_part {
  part_start : Z;
  part_size : Z;
  part_blksz : Z
}.

(** ** The control block *)
Definition BOOT_CTRL_MAGIC : Z := 1111573314.    (* 0x42414342 *)
Definition BOOT_CTRL_VERSION : Z := 1.
Definition NUM_SLOTS : Z := 2.
Definition BOOT_SLOT_NAME (slot_num : Z) : Z := 97 + slot_num.

(** offsetof(struct bootloader_message_ab, slot_suffix) and the sizes. *)
Definition ofs_slot_suffix : Z := 32 + 32 + 768 + 32 + 1184.
Definition sizeof_bootloader_control : Z := 32.

Record slot_metadata := mk_slot {
  priority : Z;
  tries_remaining : Z;
  successful_boot : Z;
  verity_corrupted : Z;
  slot_reserved : Z
}.

Definition slot_of_bytes (b0 b1 : Z) : slot_metadata :=
  mk_slot (bf_get b0 0 4) (bf_get b0 4 3) (bf_get b0 7 1) (bf_get b1 0 1) (bf_get b1 1 7).
Definition bytes_of_slot (s : slot_metadata) : list Z :=
  [bf_set (bf_set (bf_set 0 0 4 (priority s)) 4 3 (tries_remaining s)) 7 1 (successful_boot s);
   bf_set (bf_set 0 0 1 (verity_corrupted s)) 1 7 (slot_reserved s)].

(** struct bootloader_control: the fields by offset. *)
Definition slot_suffix (abc : list Z) : list Z := sub abc 0 4.
Definition magic (abc : list Z) : Z := get_le 4 abc 4.
Definition version (abc : list Z) : Z := byteat abc 8.
Definition nb_slot (abc : list Z) : Z := bf_get (byteat abc 9) 0 3.
Definition recovery_tries_remaining (abc : list Z) : Z := bf_get (byteat abc 9) 3 3.
Definition slot_info (abc : list Z) (i : Z) : slot_metadata :=
  slot_of_bytes (byteat abc (12 + 2 * i)) (byteat abc (13 + 2 * i)).
Definition crc32_le (abc : list Z) : Z := get_le 4 abc 28.

Definition set_nb_slot (abc : list Z) (v : Z) : list Z :=
  write_at abc 9 [bf_set (byteat abc 9) 0 3 v].
Definition set_slot_info (abc : list Z) (i : Z) (s : slot_metadata) : list Z :=
  write_at abc (12 + 2 * i) (bytes_of_slot s).
Definition set_tries_remaining (abc : list Z) (i v : Z) : list Z :=
  write_at abc (12 + 2 * i) [bf_set (byteat abc (12 + 2 * i)) 4 3 v].

(** The buffer is cache aligned: its address is a multiple of 4. *)
Definition ab_control_compute_crc (abc : list Z) : Z := crc32 0 0 (sub abc 0 28).

Definition default_metadata : slot_metadata := mk_slot 15 7 0 0 0.

Fixpoint default_slots (n : nat) (i : Z) (abc : list Z) : list Z :=
  match n with
  | O => abc
  | S n' => default_slots n' (i + 1) (set_slot_info abc i default_metadata)
  end.

(** [None] is a null pointer. *)
Definition ab_control_default (abc : option (list Z)) : Z * option (list Z) :=
  match abc with
  | None => (- EFAULT, None)
  | Some abc =>
      let abc := write_at abc 0 [95; 97; 0; 0] in
      let abc := put_le 4 abc 4 BOOT_CTRL_MAGIC in
      let abc := write_at abc 8 [BOOT_CTRL_VERSION] in
      let abc := set_nb_slot abc NUM_SLOTS in
      let abc := write_at abc 10 [0; 0] in
      let abc := default_slots (Z.to_nat (nb_slot abc)) 0 abc in
      let abc := write_at abc 20 [0; 0; 0; 0; 0; 0; 0; 0] in
      let abc := put_le 4 abc 28 (ab_control_compute_crc abc) in
      (0, Some abc)
  end.

Definition DIV_ROUND_UP (n d : Z) : Z := u64 (u64 (n + d) - 1) / d.

(** [malloc_ok]: whether malloc_cache_aligned succeeds. *)
Definition ab_control_create_from_disk {D} `{BlkDev D} (dev_desc : D) (part_info : disk_partition)
    (offset : Z) (malloc_ok : bool) : Z + list Z :=
  let abc_offset := offset +64 ofs_slot_suffix in
  if negb (abc_offset mod part_blksz part_info =? 0) then inl (- EINVAL)
  else
    let abc_offset := abc_offset / part_blksz part_info in
    let abc_blocks := DIV_ROUND_UP sizeof_bootloader_control (part_blksz part_info) in
    if part_size part_info <? abc_offset +64 abc_blocks then inl (- EINVAL)
    else if negb malloc_ok then inl (- ENOMEM)
    else
      let '(ret, abc) := blk_dread dev_desc (part_start part_info +64 abc_offset) abc_blocks in
      if IS_ERR_VALUE ret then inl (- EIO) else inr abc.

Definition ab_control_store {D} `{BlkDev D} (dev_desc : D) (part_info : disk_partition)
    (abc : list Z) (offset : Z) : Z * D :=
  if negb (offset mod part_blksz part_info =? 0) then (- EINVAL, dev_desc)
  else
    let abc_offset := (offset +64 ofs_slot_suffix) / part_blksz part_info in
    let abc_blocks := DIV_ROUND_UP sizeof_bootloader_control (part_blksz part_info) in
    let '(ret, dev_desc) :=
      blk_dwrite dev_desc (part_start part_info +64 abc_offset) abc_blocks abc in
    if IS_ERR_VALUE ret then (- EIO, dev_desc) else (0, dev_desc).

Definition ab_compare_slots (a b : slot_metadata) : Z :=
  if negb (priority a =? priority b) then priority b - priority a
  else if negb (successful_boot a =? successful_boot b) then
    successful_boot b - successful_boot a
  else if negb (tries_remaining a =? tries_remaining b) then
    tries_remaining b - tries_remaining a
  else 0.

(** The invalid CRC: take the backup, or start afresh.  [backup]: the backup
    block, when CONFIG_ANDROID_AB_BACKUP_OFFSET is set. *)
Definition recover_control (abc : list Z) (backup : option (list Z)) : (Z + list Z) * bool :=
  if crc32_le abc =? ab_control_compute_crc abc then (inr abc, false)
  else
    let reinit :=
      match ab_control_default (Some abc) with
      | (ret, Some abc) => if ret <? 0 then inl (- ENODATA) else inr abc
      | (_, None) => inl (- ENODATA)
      end in
    match backup with
    | Some backup_abc =>
        if crc32_le backup_abc =? ab_control_compute_crc backup_abc
        then (inr (write_at abc 0 (sub backup_abc 0 sizeof_bootloader_control)), true)
        else (reinit, true)
    | None => (reinit, true)
    end.

(** The slot loop. *)
Fixpoint select_loop (n : nat) (i : Z) (abc : list Z) (slot : Z) : Z :=
  match n with
  | O => slot
  | S n' =>
      let s := slot_info abc i in
      let slot :=
        if negb (verity_corrupted s =? 0) || (tries_remaining s =? 0) then slot
        else if (slot <? 0) || (ab_compare_slots s (slot_info abc slot) <? 0) then i
        else slot in
      select_loop n' (i + 1) abc slot
  end.

(** From the checked block to the slot, the updated block and store_needed. *)
Definition choose_slot (abc : list Z) (dec_tries store_needed : bool) : Z * list Z * bool :=
  let '(abc, store_needed) :=
    if 4 <? nb_slot abc then (set_nb_slot abc 4, true) else (abc, store_needed) in
  let slot := select_loop (Z.to_nat (nb_slot abc)) 0 abc (-1) in
  let '(abc, store_needed) :=
    if (0 <=? slot) && (successful_boot (slot_info abc slot) =? 0) && dec_tries
    then (set_tries_remaining abc slot (tries_remaining (slot_info abc slot) - 1), true)
    else (abc, store_needed) in
  let suffix := [95; BOOT_SLOT_NAME slot; 0; 0] in
  if (0 <=? slot) && negb (bool_decide (slot_suffix abc = suffix))
  then (slot, write_at abc 0 suffix, true)
  else (slot, abc, store_needed).

(** The write-back of the primary and of the backup. *)
Definition commit_control {D} `{BlkDev D} (dev_desc : D) (part_info : disk_partition)
    (backup_offset : Z) (abc : list Z) (backup : option (list Z)) (store_needed : bool)
    : Z * D * list Z :=
  let abc := if store_needed then put_le 4 abc 28 (ab_control_compute_crc abc) else abc in
  let '(ret, dev_desc) :=
    if store_needed then ab_control_store dev_desc part_info abc 0 else (0, dev_desc) in
  if ret <? 0 then (ret, dev_desc, abc)
  else
    match backup with
    | Some backup_abc =>
        if bool_decide (sub backup_abc 0 sizeof_bootloader_control =
                        sub abc 0 sizeof_bootloader_control)
        then (0, dev_desc, abc)
        else
          let '(ret, dev_desc) := ab_control_store dev_desc part_info abc backup_offset in
          (if ret <? 0 then ret else 0, dev_desc, abc)
    | None => (0, dev_desc, abc)
    end.

(** [backup_offset] is CONFIG_ANDROID_AB_BACKUP_OFFSET, [malloc_ok] and
    [malloc_ok'] the two allocations. *)
Definition ab_select_slot {D} `{BlkDev D} (backup_offset : Z) (malloc_ok malloc_ok' : bool)
    (dev_desc : D) (part_info : disk_partition) (dec_tries : bool) : Z * D :=
  match ab_control_create_from_disk dev_desc part_info 0 malloc_ok with
  | inl ret => (ret, dev_desc)
  | inr abc =>
      let backup :=
        if negb (backup_offset =? 0)
        then match ab_control_create_from_disk dev_desc part_info backup_offset malloc_ok' with
             | inl ret => inl ret
             | inr b => inr (Some b)
             end
        else inr None in
      match backup with
      | inl ret => (ret, dev_desc)
      | inr backup =>
          match recover_control abc backup with
          | (inl ret, _) => (ret, dev_desc)
          | (inr abc, store_needed) =>
              if negb (magic abc =? BOOT_CTRL_MAGIC) then (- ENODATA, dev_desc)
              else if BOOT_CTRL_VERSION <? version abc then (- ENODATA, dev_desc)
              else
                let '(slot, abc, store_needed) := choose_slot abc dec_tries store_needed in
                let '(ret, dev_desc, _) :=
                  commit_control dev_desc part_info backup_offset abc backup store_needed in
                if ret <? 0 then (ret, dev_desc)
                else if slot <? 0 then (- EINVAL, dev_desc)
                else (slot, dev_desc)
          end
      end
  end.

(** What ab_dump_abc prints. *)
Record abc_dump := mk_dump {
  dump_suffix : list Z;
  dump_magic : Z;
  dump_version : Z;
  dump_nb_slot : Z;
  dump_recovery : Z;
  dump_crc : Z;
  dump_expected : option Z;       (* the line (Invalid, Expected: ..) *)
  dump_slots : list slot_metadata
}.

Definition ab_dump_abc {D} `{BlkDev D} (malloc_ok : bool) (dev_desc : option D)
    (part_info : option disk_partition) : Z * option abc_dump :=
  match dev_desc, part_info with
  | Some dev_desc, Some part_info =>
      match ab_control_create_from_disk dev_desc part_info 0 malloc_ok with
      | inl ret => (ret, None)
      | inr abc =>
          if negb (magic abc =? BOOT_CTRL_MAGIC) then (- ENODATA, None)
          else if BOOT_CTRL_VERSION <? version abc then (- ENODATA, None)
          else if 4 <? nb_slot abc then (- ENODATA, None)
          else
            let crc := ab_control_compute_crc abc in
            (0, Some (mk_dump (slot_suffix abc) (magic abc) (version abc) (nb_slot abc)
                        (recovery_tries_remaining abc) (crc32_le abc)
                        (if crc32_le abc =? crc then None else Some crc)
                        (map (fun i => slot_info abc (Z.of_nat i))
                             (seq 0 (Z.to_nat (nb_slot abc))))))
      end
  | _, _ => (- EINVAL, None)
  end.

(** ** A RAM disk *)
Definition ram_read (blksz : Z) (d : list Z) (start n : Z) : Z * list Z :=
  if (0 <=? start) && (0 <=? n) && ((start + n) * blksz <=? Z.of_nat (length d))
  then (n, map u8 (sub d (start * blksz) (n * blksz))) else (u64 (- EIO), []).
Definition ram_write (blksz : Z) (d : list Z) (start n : Z) (bs : list Z) : Z * list Z :=
  if (0 <=? start) && (0 <=? n) && ((start + n) * blksz <=? Z.of_nat (length d)) &&
     (Z.of_nat (length bs) =? n * blksz)
  then (n, write_at d (start * blksz) bs) else (u64 (- EIO), d).

#[export] Instance ram_dev : BlkDev (list Z) := {|
  blk_dread := ram_read 512;
  blk_dwrite := ram_write 512
|}.

Lemma map_u8_id l : Forall is_u8 l -> map u8 l = l.
Proof.
  induction 1 as [|x l Hx Hl IH]; [done|]. simpl. rewrite IH. by rewrite u8_small.
Qed.

#[export] Instance ram_laws : BlkLaws (list Z) 512.
Proof.
  split.
  - intros d start n. simpl. unfold ram_read.
    destruct (_ && _) eqn:E; [|done]. simpl. intros _.
    apply andb_true_iff in E as [E E3]. apply andb_true_iff in E as [E1 E2].
    rewrite length_map. apply length_sub; lia.
  - intros d start n. simpl. unfold ram_read. destruct (_ && _); simpl; [|constructor].
    apply Forall_map, Forall_true. intros x. apply u8_range.
  - intros d start n bs d' Hs Hn He Hl. simpl. unfold ram_write.
    destruct (_ && _) eqn:E; intros W Hb.
    + injection W as <-.
      apply andb_true_iff in E as [E _]. unfold ram_read. rewrite length_write_at, E.
      f_equal. apply andb_true_iff in E as [E E3].
      rewrite <- Hl, sub_write_at_same by lia. by apply map_u8_id.
    + injection W as W _. by rewrite <- W in He.
  - intros d start n bs r d' s' n' Hs Hn Hs' Hn' Hl. simpl. unfold ram_write.
    destruct (_ && _) eqn:E; intros [= <- <-] Hd; [|done].
    apply andb_true_iff in E as [E _]. apply andb_true_iff in E as [E E3].
    unfold ram_read. rewrite length_write_at. destruct (_ && _); [|done].
    rewrite sub_write_at_out by lia. done.
Qed.

(** ** The choice *)
Definition bootable (s : slot_metadata) : bool :=
  (verity_corrupted s =? 0) && negb (tries_remaining s =? 0).

(** Priority first, then a successful boot, then the tries left. *)
Definition rank (s : slot_metadata) : Z :=
  priority s * 16 + successful_boot s * 8 + tries_remaining s.

Definition slot_ok (s : slot_metadata) : Prop :=
  0 <= priority s < 16 /\ 0 <= tries_remaining s < 8 /\ 0 <= successful_boot s < 2 /\
  0 <= verity_corrupted s < 2.

Lemma slot_info_ok abc i : slot_ok (slot_info abc i).
Proof.
  repeat split; simpl; try (apply Z.land_nonneg; right; done);
    match goal with |- bf_get ?b ?p ?l < _ => pose proof (bf_get_range b p l ltac:(lia)); lia end.
Qed.

Lemma compare_rank a b : slot_ok a -> slot_ok b ->
  (ab_compare_slots a b <? 0) = (rank b <? rank a).
Proof.
  intros (? & ? & ? & _) (? & ? & ? & _). unfold ab_compare_slots, rank.
  repeat (cmp1; simpl); lia.
Qed.

(** [slot] is what scanning the first [n] slots must leave. *)
Definition best_of (abc : list Z) (n slot : Z) : Prop :=
  (slot = -1 /\ forall j, 0 <= j < n -> bootable (slot_info abc j) = false) \/
  (0 <= slot < n /\ bootable (slot_info abc slot) = true /\
   forall j, 0 <= j < n -> bootable (slot_info abc j) = true ->
     rank (slot_info abc j) <= rank (slot_info abc slot) /\
     (j < slot -> rank (slot_info abc j) < rank (slot_info abc slot))).

Lemma best_of_step abc i slot : 0 <= i -> best_of abc i slot ->
  let s := slot_info abc i in
  best_of abc (i + 1)
    (if negb (verity_corrupted s =? 0) || (tries_remaining s =? 0) then slot
     else if (slot <? 0) || (ab_compare_slots s (slot_info abc slot) <? 0) then i else slot).
Proof.
  intros Hi Hb s.
  assert (B : negb (verity_corrupted s =? 0) || (tries_remaining s =? 0) = negb (bootable s))
    by (unfold bootable; by destruct (_ =? 0), (_ =? 0)).
  rewrite B, compare_rank by apply slot_info_ok. fold s.
  destruct (bootable s) eqn:Bs; simpl.
  - destruct Hb as [[-> Hb]|(Hs & Hbs & Hb)].
    + simpl. right. split; [lia|]. split; [done|]. intros j Hj Hbj.
      destruct (Z.eq_dec j i) as [->|]; [lia|]. rewrite Hb in Hbj by lia. done.
    + destruct (Z.ltb_spec slot 0); [lia|]. simpl.
      destruct (Z.ltb_spec (rank (slot_info abc slot)) (rank s)).
      * right. split; [lia|]. split; [done|]. intros j Hj Hbj.
        destruct (Z.eq_dec j i) as [->|]; [fold s; lia|].
        destruct (Hb j ltac:(lia) Hbj). fold s. lia.
      * right. split; [lia|]. split; [done|]. intros j Hj Hbj.
        destruct (Z.eq_dec j i) as [->|]; [fold s; lia|]. apply Hb; [lia|done].
  - destruct Hb as [[-> Hb]|(Hs & Hbs & Hb)].
    + left. split; [done|]. intros j Hj. destruct (Z.eq_dec j i) as [->|]; [done|]. apply Hb. lia.
    + right. split; [lia|]. split; [done|]. intros j Hj Hbj.
      destruct (Z.eq_dec j i) as [->|]; [fold s in Hbj; congruence|]. apply Hb; [lia|done].
Qed.

Lemma select_loop_best abc n i slot : 0 <= i -> best_of abc i slot ->
  best_of abc (i + Z.of_nat n) (select_loop n i abc slot).
Proof.
  revert i slot. induction n as [|n IH]; intros i slot Hi Hb; [by rewrite Z.add_0_r|].
  cbn [select_loop]. replace (i + Z.of_nat (S n)) with (i + 1 + Z.of_nat n) by lia.
  apply IH; [lia|]. by apply best_of_step.
Qed.

Definition usable_slots (abc : list Z) : Z := Z.min 4 (nb_slot abc).

Lemma nb_slot_range abc : 0 <= nb_slot abc < 8.
Proof. apply (bf_get_range _ 0 3). lia. Qed.

Definition selected (abc : list Z) : Z := select_loop (Z.to_nat (usable_slots abc)) 0 abc (-1).

Lemma selected_best abc : best_of abc (usable_slots abc) (selected abc).
Proof.
  pose proof (nb_slot_range abc). unfold selected.
  pose proof (select_loop_best abc (Z.to_nat (usable_slots abc)) 0 (-1) ltac:(lia)) as S.
  rewrite Z2Nat.id in S by (unfold usable_slots; lia). apply S. left. split; [done|lia].
Qed.

Lemma select_loop_ext n i abc abc' slot : 0 <= i -> -1 <= slot ->
  (forall j, -1 <= j -> slot_info abc' j = slot_info abc j) ->
  select_loop n i abc' slot = select_loop n i abc slot.
Proof.
  intros Hi Hs He. revert i slot Hi Hs. induction n as [|n IH]; intros i slot Hi Hs; [done|].
  cbn [select_loop]. rewrite !He by lia. apply IH; [lia|].
  destruct (_ || _); [lia|]. destruct (_ || _); lia.
Qed.

(** ** Writing fields *)
Definition block_ok (abc : list Z) : Prop := 32 <= Z.of_nat (length abc) /\ Forall is_u8 abc.

Lemma slot_info_write abc off bs j : 0 <= off -> off + Z.of_nat (length bs) <= Z.of_nat (length abc) ->
  -6 <= j -> off + Z.of_nat (length bs) <= 12 + 2 * j \/ 14 + 2 * j <= off ->
  slot_info (write_at abc off bs) j = slot_info abc j.
Proof.
  intros Ho Hl Hj Hd. unfold slot_info. rewrite !byteat_write_at by lia.
  rewrite !decide_False by lia. done.
Qed.

Lemma byteat_one b : byteat [b] 0 = b.
Proof. done. Qed.

Lemma slot_info_set_tries abc i v j : block_ok abc -> 0 <= i < 4 -> 0 <= j < 4 ->
  slot_info (set_tries_remaining abc i v) j =
    if j =? i then let s := slot_info abc i in
      mk_slot (priority s) (v mod 8) (successful_boot s) (verity_corrupted s) (slot_reserved s)
    else slot_info abc j.
Proof.
  intros [Hl _] Hi Hj. unfold set_tries_remaining. destruct (Z.eqb_spec j i) as [->|].
  - unfold slot_info. rewrite !byteat_write_at by (simpl; lia).
    rewrite decide_True, decide_False by (simpl; lia). rewrite Z.sub_diag.
    rewrite byteat_one. unfold slot_of_bytes.
    cbn [priority tries_remaining successful_boot verity_corrupted slot_reserved].
    rewrite bf_get_set_same, !(bf_get_set_other _ 4 3) by lia. rewrite Z.land_ones by lia. done.
  - apply slot_info_write; simpl; lia.
Qed.

Lemma nb_slot_set abc v : block_ok abc -> nb_slot (set_nb_slot abc v) = v mod 8.
Proof.
  intros [Hl _]. unfold nb_slot, set_nb_slot. rewrite byteat_write_at by (simpl; lia).
  rewrite decide_True by (simpl; lia). rewrite Z.sub_diag, byteat_one.
  rewrite bf_get_set_same, Z.land_ones by lia. done.
Qed.

Lemma block_ok_write abc off bs : block_ok abc -> Forall is_u8 bs -> block_ok (write_at abc off bs).
Proof. intros [Hl Hf] Hb. split; [by rewrite length_write_at|by apply Forall_write_at]. Qed.

Lemma block_ok_byte abc off b : block_ok abc -> is_u8 b -> block_ok (write_at abc off [b]).
Proof. intros H Hb. apply block_ok_write; [done|by apply Forall_singleton]. Qed.

Lemma block_ok_nb abc v : block_ok abc -> block_ok (set_nb_slot abc v).
Proof. intros H. apply block_ok_byte; [done|]. apply bf_set_u8; [apply byteat_u8, H|lia..]. Qed.

Lemma block_ok_tries abc i v : block_ok abc -> block_ok (set_tries_remaining abc i v).
Proof. intros H. apply block_ok_byte; [done|]. apply bf_set_u8; [apply byteat_u8, H|lia..]. Qed.

(** What the choice must leave of the block. *)
Record chosen (abc : list Z) (dec_tries : bool) (slot : Z) (abc' : list Z) : Prop := {
  ch_slot : slot = selected abc;
  ch_ok : block_ok abc';
  ch_len : length abc' = length abc;
  ch_magic : magic abc' = magic abc;
  ch_version : version abc' = version abc;
  ch_nb : nb_slot abc' = usable_slots abc;
  ch_info : forall j, 0 <= j < 4 -> slot_info abc' j =
    let s := slot_info abc j in
    if (j =? slot) && (successful_boot s =? 0) && dec_tries then
      mk_slot (priority s) (tries_remaining s - 1) (successful_boot s) (verity_corrupted s)
        (slot_reserved s)
    else s;
  ch_suffix : 0 <= slot -> slot_suffix abc' = [95; BOOT_SLOT_NAME slot; 0; 0]
}.

Ltac field_out :=
  unfold magic, version, nb_slot, get_le, set_nb_slot, set_tries_remaining, slot_suffix;
  rewrite ?sub_write_at_out, ?byteat_write_at by (simpl; lia);
  rewrite ?decide_False by (simpl; lia).

Lemma clamp_spec abc (sn : bool) abc1 sn1 : block_ok abc ->
  (if 4 <? nb_slot abc then (set_nb_slot abc 4, true) else (abc, sn)) = (abc1, sn1) ->
  block_ok abc1 /\ length abc1 = length abc /\ magic abc1 = magic abc /\ version abc1 = version abc /\
  nb_slot abc1 = usable_slots abc /\ (forall j, -1 <= j -> slot_info abc1 j = slot_info abc j) /\
  (sn1 = false -> abc1 = abc /\ sn = false).
Proof.
  intros Hb. pose proof Hb as [Hl Hu]. unfold usable_slots. destruct (Z.ltb_spec 4 (nb_slot abc)).
  - intros [= <- <-]. split; [by apply block_ok_nb|]. split; [apply length_write_at|].
    split; [by field_out|]. split; [by field_out|]. rewrite nb_slot_set by done.
    split; [rewrite Z.mod_small; lia|]. split; [|done].
    intros j Hj. apply slot_info_write; simpl; lia.
  - intros [= <- <-]. repeat split; auto; try lia; apply Hb.
Qed.

Lemma selected_range abc : -1 <= selected abc < 4.
Proof. destruct (selected_best abc) as [[-> _]|[? _]]; unfold usable_slots in *; lia. Qed.

(** The decrement of the tries. *)
Lemma attempt_spec abc slot (dec sn : bool) abc2 sn2 : block_ok abc -> -1 <= slot < 4 ->
  (0 <= slot -> tries_remaining (slot_info abc slot) <> 0) ->
  (if (0 <=? slot) && (successful_boot (slot_info abc slot) =? 0) && dec
   then (set_tries_remaining abc slot (tries_remaining (slot_info abc slot) - 1), true)
   else (abc, sn)) = (abc2, sn2) ->
  block_ok abc2 /\ length abc2 = length abc /\ magic abc2 = magic abc /\ version abc2 = version abc /\
  nb_slot abc2 = nb_slot abc /\
  (forall j, 0 <= j < 4 -> slot_info abc2 j =
    let s := slot_info abc j in
    if (j =? slot) && (successful_boot s =? 0) && dec then
      mk_slot (priority s) (tries_remaining s - 1) (successful_boot s) (verity_corrupted s)
        (slot_reserved s)
    else s) /\
  (sn2 = false -> abc2 = abc /\ sn = false).
Proof.
  intros Hb Hs Ht. pose proof Hb as [Hl Hu]. destruct (Z.leb_spec 0 slot); cbn [andb].
  2: { intros [= <- <-]. split_and!; try done. intros j Hj.
       destruct (Z.eqb_spec j slot); [lia|done]. }
  destruct ((successful_boot (slot_info abc slot) =? 0) && dec) eqn:E; intros [= <- <-].
  - split; [by apply block_ok_tries|]. split; [apply length_write_at|].
    split; [by field_out|]. split; [by field_out|]. split; [by field_out|]. split; [|done].
    intros j Hj. rewrite slot_info_set_tries by (done || lia).
    destruct (Z.eqb_spec j slot) as [->|]; [|done]. cbv zeta. cbn [andb]. rewrite E. f_equal.
    pose proof (slot_info_ok abc slot) as (_ & R & _).
    apply Z.mod_small. specialize (Ht ltac:(lia)). lia.
  - split_and!; try done. intros j Hj. destruct (Z.eqb_spec j slot) as [->|]; [|done].
    cbv zeta. cbn [andb]. by rewrite E.
Qed.

Lemma choose_spec abc dec sn slot abc' sn' : block_ok abc ->
  choose_slot abc dec sn = (slot, abc', sn') ->
  chosen abc dec slot abc' /\ (sn' = false -> abc' = abc /\ sn = false).
Proof.
  intros Hb. unfold choose_slot.
  destruct (if 4 <? nb_slot abc then _ else _) as [abc1 sn1] eqn:E1.
  destruct (clamp_spec _ _ _ _ Hb E1) as (B1 & L1 & M1 & V1 & N1 & I1 & S1).
  rewrite N1. rewrite (select_loop_ext _ 0 abc abc1) by (done || lia).
  fold (selected abc). set (sl := selected abc). pose proof (selected_range abc) as Rs. fold sl in Rs.
  destruct (if _ && _ && dec then _ else _) as [abc2 sn2] eqn:E2.
  assert (Ht : 0 <= sl -> tries_remaining (slot_info abc1 sl) <> 0).
  { intros H0. rewrite I1 by lia. destruct (selected_best abc) as [[E _]|(_ & Hbt & _)]; [fold sl in E; lia|].
    fold sl in Hbt. unfold bootable in Hbt. intros T. rewrite T in Hbt. by rewrite andb_false_r in Hbt. }
  destruct (attempt_spec _ _ _ _ _ _ B1 Rs Ht E2) as (B2 & L2 & M2 & V2 & N2 & I2 & S2).
  pose proof B2 as [Hl2 _].
  assert (Sf : sn2 = false -> abc2 = abc /\ sn = false).
  { intros F. destruct (S2 F) as [-> F1]. by apply S1. }
  assert (If : forall j, 0 <= j < 4 -> slot_info abc2 j =
    let s := slot_info abc j in
    if (j =? sl) && (successful_boot s =? 0) && dec then
      mk_slot (priority s) (tries_remaining s - 1) (successful_boot s) (verity_corrupted s)
        (slot_reserved s) else s).
  { intros j Hj. rewrite I2 by done. by rewrite I1 by lia. }
  destruct (Z.leb_spec 0 sl); cbn [andb].
  - destruct (bool_decide_reflect (slot_suffix abc2 = [95; BOOT_SLOT_NAME sl; 0; 0])) as [Es|Es];
      cbn [negb]; intros [= <- <- <-].
    + split; [|done]. split; auto; congruence.
    + split; [|done].
      assert (B3 : block_ok (write_at abc2 0 [95; BOOT_SLOT_NAME sl; 0; 0])).
      { apply block_ok_write; [done|]. unfold BOOT_SLOT_NAME, is_u8. repeat constructor; lia. }
      split; [done|done|rewrite length_write_at; congruence|..].
      * rewrite <- M1, <- M2. by field_out.
      * rewrite <- V1, <- V2. by field_out.
      * rewrite <- N1, <- N2. by field_out.
      * intros j Hj. rewrite slot_info_write by (simpl; lia). by apply If.
      * intros _. apply (sub_write_at_same abc2 0 [95; BOOT_SLOT_NAME sl; 0; 0]); simpl; lia.
  - intros [= <- <- <-]. split; [|done]. split; auto; try congruence. lia.
Qed.

(** ** Sealing the block with its CRC *)
Definition valid (abc : list Z) : Prop := crc32_le abc = ab_control_compute_crc abc.

Definition seal (abc : list Z) : list Z := put_le 4 abc 28 (ab_control_compute_crc abc).

Lemma seal_spec abc : block_ok abc ->
  block_ok (seal abc) /\ length (seal abc) = length abc /\ valid (seal abc).
Proof.
  intros Hb. pose proof Hb as [Hl Hu]. split; [|split].
  - apply block_ok_write; [done|apply le_bytes_u8].
  - apply length_write_at.
  - unfold valid, crc32_le, seal. rewrite get_put_le by (simpl; lia).
    assert (E : ab_control_compute_crc (put_le 4 abc 28 (ab_control_compute_crc abc)) =
                ab_control_compute_crc abc).
    { unfold ab_control_compute_crc at 1, put_le.
      rewrite sub_write_at_out by (rewrite ?length_le_bytes; simpl; lia). done. }
    rewrite E. apply Z.mod_small. unfold ab_control_compute_crc.
    apply crc32_range; [unfold u32v; lia|by apply Forall_sub].
Qed.

Lemma seal_chosen abc dec slot abc' : chosen abc dec slot abc' -> chosen abc dec slot (seal abc').
Proof.
  intros []. destruct (seal_spec abc' ch_ok0) as (B & L & _). pose proof ch_ok0 as [Hl _].
  unfold seal, put_le in *.
  split; [done|done|congruence|..].
  - rewrite <- ch_magic0. unfold magic, get_le.
    by rewrite sub_write_at_out by (rewrite ?length_le_bytes; simpl; lia).
  - rewrite <- ch_version0. unfold version. rewrite byteat_write_at by (rewrite ?length_le_bytes; lia).
    by rewrite decide_False by lia.
  - rewrite <- ch_nb0. unfold nb_slot. rewrite byteat_write_at by (rewrite ?length_le_bytes; lia).
    by rewrite decide_False by lia.
  - intros j Hj. rewrite slot_info_write by (rewrite ?length_le_bytes; lia). by apply ch_info0.
  - intros H0. unfold slot_suffix.
    rewrite sub_write_at_out by (rewrite ?length_le_bytes; lia). by apply ch_suffix0.
Qed.

(** ** Recovery of an invalid block *)
Lemma block_ok_slots n i abc : block_ok abc -> block_ok (default_slots n i abc) /\
  length (default_slots n i abc) = length abc.
Proof.
  revert i abc. induction n as [|n IH]; intros i abc Hb; [done|]. cbn [default_slots].
  assert (B : block_ok (set_slot_info abc i default_metadata)).
  { apply block_ok_write; [done|]. vm_compute. repeat constructor; done. }
  destruct (IH (i + 1) _ B) as [? E]. split; [done|]. rewrite E. apply length_write_at.
Qed.

Ltac u8s := repeat (apply Forall_cons; split; [unfold is_u8, BOOT_CTRL_VERSION; lia|]);
  apply Forall_nil; done.

Lemma default_spec abc ret abc' : block_ok abc -> ab_control_default (Some abc) = (ret, abc') ->
  exists a, abc' = Some a /\ ret = 0 /\ block_ok a /\ length a = length abc /\ valid a.
Proof.
  intros Hb. cbn [ab_control_default]. intros [= <- <-].
  match goal with |- context [put_le 4 ?x 28 (ab_control_compute_crc ?x)] =>
    set (a := x); assert (A : block_ok a /\ length a = length abc) end.
  { assert (W : forall l off bs, block_ok l /\ length l = length abc -> Forall is_u8 bs ->
      block_ok (write_at l off bs) /\ length (write_at l off bs) = length abc).
    { intros l off bs [? ?] ?. split; [by apply block_ok_write|by rewrite length_write_at]. }
    assert (U : forall x, 0 <= x < 256 -> is_u8 x) by done.
    unfold a. apply W; [|u8s].
    match goal with |- block_ok (default_slots ?n ?i ?l) /\ _ =>
      assert (L : block_ok l /\ length l = length abc);
        [|destruct (block_ok_slots n i l (proj1 L)); split; [done|];
          by rewrite <- (proj2 L)] end.
    apply W; [|u8s].
    match goal with |- block_ok (set_nb_slot ?l _) /\ _ =>
      assert (L : block_ok l /\ length l = length abc);
        [|split; [apply block_ok_nb, L|unfold set_nb_slot; by rewrite length_write_at, (proj2 L)]] end.
    apply W; [|u8s]. apply W; [|apply le_bytes_u8]. apply W; [done|u8s]. }
  destruct A as [A1 A2]. fold (seal a). destruct (seal_spec a A1) as (? & ? & ?).
  exists (seal a). split_and!; try done. congruence.
Qed.

Lemma recover_spec abc backup abc1 sn : block_ok abc ->
  match backup with Some bk => block_ok bk | None => True end ->
  recover_control abc backup = (inr abc1, sn) ->
  block_ok abc1 /\ length abc1 = length abc /\ (sn = false -> abc1 = abc /\ valid abc).
Proof.
  intros Hb Hk. unfold recover_control.
  destruct (Z.eqb_spec (crc32_le abc) (ab_control_compute_crc abc)) as [E|E];
    [intros [= <- <-]; done|].
  destruct (ab_control_default (Some abc)) as [r o] eqn:Ed.
  destruct (default_spec _ _ _ Hb Ed) as (a & -> & -> & B & L & V). simpl.
  destruct backup as [bk|]; [|intros [= <- <-]; done].
  destruct (_ =? _); intros [= <- <-]; [|done].
  split; [|by rewrite length_write_at]. apply block_ok_write; [done|].
  apply Forall_sub, Hk.
Qed.

(** ** On the device *)
Definition abc_blocks (b : Z) : Z := (31 + b) / b.

(** A partition the block fits in, block aligned, the backup beside it. *)
Record part_ok (pi : disk_partition) (backup_offset : Z) : Prop := {
  po_blksz : 0 < part_blksz pi < 2 ^ 62;
  po_aligned : ofs_slot_suffix mod part_blksz pi = 0;
  po_start : 0 <= part_start pi;
  po_size : 0 <= part_size pi;
  po_end : part_start pi + part_size pi < 2 ^ 63;
  po_backup : 0 <= backup_offset < 2 ^ 62;
  po_backup_aligned : backup_offset mod part_blksz pi = 0;
  po_backup_apart : backup_offset = 0 \/ abc_blocks (part_blksz pi) * part_blksz pi <= backup_offset
}.

Section Device.
Context {D : Type} `{BlkDev D} (pi : disk_partition) (bo : Z)
  `{!BlkLaws D (part_blksz pi)} (Hp : part_ok pi bo).
Local Abbreviation b := (part_blksz pi).

(** Where the block at [off] lies. *)
Definition abc_start (off : Z) : Z := part_start pi + (off + ofs_slot_suffix) / b.

Lemma abc_blocks_range : 0 < abc_blocks b <= 32 /\ 32 <= abc_blocks b * b.
Proof.
  destruct Hp. unfold abc_blocks. pose proof (Z.div_mod (31 + b) b ltac:(lia)).
  pose proof (Z.mod_pos_bound (31 + b) b ltac:(lia)).
  split; [|nia]. split; [nia|]. apply Z.div_le_upper_bound; lia.
Qed.

Lemma div_round_up_blocks : DIV_ROUND_UP sizeof_bootloader_control b = abc_blocks b.
Proof.
  destruct Hp. unfold DIV_ROUND_UP, abc_blocks, sizeof_bootloader_control. nowrap.
  f_equal. lia.
Qed.

Lemma create_spec d off m abc : off = 0 \/ off = bo ->
  ab_control_create_from_disk d pi off m = inr abc <->
  m = true /\ (off + ofs_slot_suffix) / b + abc_blocks b <= part_size pi /\
  IS_ERR_VALUE (fst (blk_dread d (abc_start off) (abc_blocks b))) = false /\
  snd (blk_dread d (abc_start off) (abc_blocks b)) = abc.
Proof.
  intros Hoff. pose proof abc_blocks_range as [Hr _]. pose proof Hp as [].
  assert (Ho : 0 <= off < 2 ^ 62 /\ (off + ofs_slot_suffix) mod b = 0).
  { split; [destruct Hoff; lia|]. rewrite Z.add_mod, po_aligned0 by lia.
    destruct Hoff as [->| ->]; rewrite ?po_backup_aligned0, ?Zmod_0_l; done. }
  destruct Ho as [Ho Hm]. unfold ab_control_create_from_disk, abc_start.
  assert (0 <= (off + ofs_slot_suffix) / b <= off + ofs_slot_suffix).
  { unfold ofs_slot_suffix in *. split; [apply Z.div_pos; lia|apply Z.div_le_upper_bound; nia]. }
  rewrite div_round_up_blocks. unfold ofs_slot_suffix in *. rewrite (u64_small (off + _)) by lia.
  rewrite Hm. cbn [negb Z.eqb]. rewrite (u64_small (_ / _ + _)) by lia.
  destruct (Z.ltb_spec (part_size pi) ((off + (32 + 32 + 768 + 32 + 1184)) / b + abc_blocks b)).
  { split; [done|]. intros (_ & ? & _). lia. }
  rewrite (u64_small (part_start pi + _)) by lia.
  destruct m; cbn [negb]; [|split; [done|intros [? _]; done]].
  destruct (blk_dread d _ _) as [r bs]. cbn [fst snd].
  destruct (IS_ERR_VALUE r); [split; [done|intros (_ & _ & ? & _); done]|].
  split; [intros [= ->]; done|intros (_ & _ & _ & ->); done].
Qed.

Lemma create_ok d off m abc : off = 0 \/ off = bo ->
  ab_control_create_from_disk d pi off m = inr abc ->
  block_ok abc /\ Z.of_nat (length abc) = abc_blocks b * b.
Proof.
  intros Ho Hc. apply create_spec in Hc as (_ & _ & He & <-); [|done].
  pose proof abc_blocks_range as [_ Hl].
  pose proof (dread_length d _ _ He) as L. split; [split; [lia|apply dread_bytes]|done].
Qed.

Lemma store_spec d off abc ret d' : off = 0 \/ off = bo ->
  (off + ofs_slot_suffix) / b + abc_blocks b <= part_size pi ->
  ab_control_store d pi abc off = (ret, d') ->
  exists r, blk_dwrite d (abc_start off) (abc_blocks b) abc = (r, d') /\
    ret = if IS_ERR_VALUE r then - EIO else 0.
Proof.
  intros Hoff Hsz. pose proof abc_blocks_range as [Hr _]. pose proof Hp as [].
  assert (Ho : 0 <= off < 2 ^ 62 /\ off mod b = 0)
    by (split; destruct Hoff as [->| ->]; rewrite ?Zmod_0_l; (done || lia)).
  destruct Ho as [Ho Hm]. unfold ab_control_store, abc_start. rewrite Hm. cbn [negb Z.eqb].
  rewrite div_round_up_blocks. unfold ofs_slot_suffix in *. rewrite (u64_small (off + _)) by lia.
  assert (0 <= (off + (32 + 32 + 768 + 32 + 1184)) / b) by (apply Z.div_pos; lia).
  rewrite u64_small by lia. destruct (blk_dwrite _ _ _ _) as [r d1]. intros E. exists r.
  destruct (IS_ERR_VALUE r); simplify_eq; done.
Qed.

Lemma abc_start_pos off : off = 0 \/ off = bo -> 0 <= abc_start off.
Proof.
  destruct Hp. intros Ho. unfold abc_start, ofs_slot_suffix.
  assert (0 <= (off + (32 + 32 + 768 + 32 + 1184)) / b) by (apply Z.div_pos; destruct Ho; lia). lia.
Qed.

(** What is stored is what is loaded, and the other copy is left alone. *)
Lemma load_stored d off m abc0 abc ret d' : whole_writes D -> off = 0 \/ off = bo ->
  ab_control_create_from_disk d pi off m = inr abc0 ->
  length abc = length abc0 -> Forall is_u8 abc ->
  ab_control_store d pi abc off = (ret, d') -> 0 <= ret ->
  ab_control_create_from_disk d' pi off m = inr abc.
Proof.
  intros Hw Ho Hc Hl Hu Hs Hr. destruct (create_ok d off m abc0 Ho Hc) as [_ L].
  apply create_spec in Hc as (-> & Hsz & He & _); [|done].
  destruct (store_spec _ _ _ _ _ Ho Hsz Hs) as (r & Ew & ->).
  destruct (IS_ERR_VALUE r) eqn:Er; [unfold EIO in Hr; lia|].
  pose proof abc_blocks_range as [? _].
  assert (En : IS_ERR_VALUE (abc_blocks b) = false) by (unfold IS_ERR_VALUE; cmp1; lia).
  pose proof (Hw d (abc_start off) (abc_blocks b) abc) as Hr'. rewrite Ew in Hr'. cbn [fst] in Hr'.
  rewrite (Hr' Er) in Ew.
  pose proof (dwrite_dread d (abc_start off) (abc_blocks b) abc d'
    ltac:(by apply abc_start_pos) ltac:(lia) En ltac:(by rewrite Hl) Ew Hu) as Rd.
  apply create_spec; [done|]. rewrite Rd. split_and!; done.
Qed.

Lemma starts_apart : bo <> 0 -> abc_start 0 + abc_blocks b <= abc_start bo.
Proof.
  intros Hb. destruct Hp as [P1 P2 _ _ _ _ P3 P4]. unfold abc_start.
  rewrite Z.add_0_l. destruct P4 as [|P4]; [done|].
  pose proof (Z.div_mod bo b ltac:(lia)) as E. rewrite P3 in E.
  replace (bo + ofs_slot_suffix) with (ofs_slot_suffix + (bo / b) * b) by lia.
  rewrite Z.div_add by lia. nia.
Qed.

Lemma load_other d m abc ret d' : bo <> 0 ->
  (bo + ofs_slot_suffix) / b + abc_blocks b <= part_size pi ->
  Z.of_nat (length abc) = abc_blocks b * b ->
  ab_control_store d pi abc bo = (ret, d') ->
  forall abc0, ab_control_create_from_disk d pi 0 m = inr abc0 ->
    ab_control_create_from_disk d' pi 0 m = inr abc0.
Proof.
  intros Hb Hsz Hl Hs abc0 Hc. apply create_spec in Hc as (-> & Hz & He & Hv); [|by left].
  apply create_spec; [by left|]. destruct (store_spec _ _ _ _ _ (or_intror eq_refl) Hsz Hs) as (r & Hw & _).
  pose proof abc_blocks_range as [? _]. pose proof (starts_apart Hb).
  rewrite (dwrite_other d (abc_start bo) (abc_blocks b) abc r d' (abc_start 0) (abc_blocks b));
    try done; try lia; [apply abc_start_pos; by right|apply abc_start_pos; by left].
Qed.

(** The backup, when there is one. *)
Definition backup_loaded (m : bool) (d : D) (backup : option (list Z)) : Prop :=
  match backup with
  | None => bo = 0
  | Some bk => bo <> 0 /\ ab_control_create_from_disk d pi bo m = inr bk
  end.

Lemma commit_spec d m m' abc0 abc backup sn ret d' abc' : whole_writes D ->
  ab_control_create_from_disk d pi 0 m = inr abc0 -> backup_loaded m' d backup ->
  block_ok abc -> length abc = length abc0 -> (sn = false -> abc = abc0) ->
  commit_control d pi bo abc backup sn = (ret, d', abc') -> 0 <= ret ->
  abc' = (if sn then seal abc else abc) /\ ab_control_create_from_disk d' pi 0 m = inr abc'.
Proof.
  intros Hw Hc Hbk Hb Hl Hsn. destruct (seal_spec abc Hb) as (SB & SL & _).
  unfold commit_control. fold (seal abc).
  destruct (create_ok d 0 m abc0 (or_introl eq_refl) Hc) as [_ L0].
  set (a1 := if sn then seal abc else abc).
  assert (A : Z.of_nat (length a1) = abc_blocks b * b) by (unfold a1; destruct sn; congruence).
  destruct (if sn then ab_control_store d pi a1 0 else (0, d)) as [ret1 d1] eqn:E1.
  destruct (Z.ltb_spec ret1 0); [intros [= <- <- <-]; lia|].
  assert (H1 : ab_control_create_from_disk d1 pi 0 m = inr a1).
  { destruct sn; [|injection E1 as <- <-; unfold a1; by rewrite (Hsn eq_refl)].
    eapply (load_stored d 0 m abc0); eauto; [unfold a1; congruence|apply SB]. }
  destruct backup as [bk|]; [|intros [= <- <- <-]; done].
  destruct Hbk as [Hb0 Hbk].
  apply create_spec in Hbk as (-> & Hsz & _); [|by right].
  destruct (bool_decide _); [intros [= <- <- <-]; done|].
  destruct (ab_control_store d1 pi a1 bo) as [ret2 d2] eqn:E2.
  pose proof (load_other d1 m a1 ret2 d2 Hb0 Hsz A E2 a1 H1) as H2.
  intros [= <- <- <-] _. done.
Qed.

Lemma select_spec m m' d dec slot d' : whole_writes D ->
  ab_select_slot bo m m' d pi dec = (slot, d') -> 0 <= slot ->
  exists abc0 backup abc sn abc',
    ab_control_create_from_disk d pi 0 m = inr abc0 /\ backup_loaded m' d backup /\
    recover_control abc0 backup = (inr abc, sn) /\ block_ok abc /\
    magic abc = BOOT_CTRL_MAGIC /\ version abc <= BOOT_CTRL_VERSION /\
    chosen abc dec slot abc' /\ valid abc' /\
    ab_control_create_from_disk d' pi 0 m = inr abc'.
Proof.
  intros Hw. unfold ab_select_slot. destruct (ab_control_create_from_disk d pi 0 m) as [e|abc0] eqn:Hc.
  { intros [= -> ->] ?. unfold ab_control_create_from_disk in Hc.
    repeat case_match; simplify_eq; unfold EINVAL, ENOMEM, EIO in *; lia. }
  destruct (if negb (bo =? 0) then _ else _) as [e|backup] eqn:Hbk.
  { intros [= -> ->] ?. unfold ab_control_create_from_disk in Hbk.
    repeat case_match; simplify_eq; unfold EINVAL, ENOMEM, EIO in *; lia. }
  assert (Hbl : backup_loaded m' d backup).
  { destruct (Z.eqb_spec bo 0) as [|N]; cbn [negb] in Hbk; [by injection Hbk as <-|].
    destruct (ab_control_create_from_disk d pi bo m') as [|bk] eqn:E; [done|].
    injection Hbk as <-. split; done. }
  destruct (create_ok d 0 m abc0 (or_introl eq_refl) Hc) as [B0 L0].
  assert (Bk : match backup with Some bk => block_ok bk | None => True end).
  { destruct backup as [bk|]; [|done]. destruct Hbl as [_ E].
    apply (create_ok d bo m' bk (or_intror eq_refl) E). }
  destruct (recover_control abc0 backup) as [[e|abc] sn] eqn:Hr.
  { intros [= -> ->] ?. unfold recover_control in Hr.
    repeat case_match; simplify_eq; unfold ENODATA in *; lia. }
  destruct (recover_spec _ _ _ _ B0 Bk Hr) as (B & L & S).
  destruct (Z.eqb_spec (magic abc) BOOT_CTRL_MAGIC) as [M|]; cbn [negb];
    [|intros [= <- <-]; unfold ENODATA; lia].
  destruct (Z.ltb_spec BOOT_CTRL_VERSION (version abc)) as [|V];
    [intros [= <- <-]; unfold ENODATA; lia|].
  destruct (choose_slot abc dec sn) as [[sl abc1] sn1] eqn:Hch.
  destruct (choose_spec _ _ _ _ _ _ B Hch) as [C Cs].
  destruct (commit_control d pi bo abc1 backup sn1) as [[ret d1] abc2] eqn:Hcm.
  destruct (Z.ltb_spec ret 0); [intros [= <- <-]; lia|].
  destruct (Z.ltb_spec sl 0); [intros [= <- <-]; unfold EINVAL; lia|].
  intros [= <- <-] _.
  assert (Same : sn1 = false -> abc1 = abc0 /\ valid abc0).
  { intros F. destruct (Cs F) as [-> F']. by apply S. }
  destruct (commit_spec d m m' abc0 abc1 backup sn1 ret d1 abc2 Hw Hc Hbl) as [-> Hl]; try done.
  { apply C. } { rewrite (ch_len _ _ _ _ C). done. } { intros F. by apply Same. }
  exists abc0, backup, abc, sn, (if sn1 then seal abc1 else abc1). split_and!; try done.
  - destruct sn1; [by apply seal_chosen|done].
  - destruct sn1; [apply seal_spec, C|]. destruct (Same eq_refl) as [-> ?]. done.
Qed.

(** A write the device refused. *)
Definition write_failed : Prop :=
  exists (d : D) start n bs, IS_ERR_VALUE (fst (blk_dwrite d start n bs)) = true.

Lemma store_ret d off abc ret d' : off = 0 \/ off = bo ->
  (off + ofs_slot_suffix) / b + abc_blocks b <= part_size pi ->
  ab_control_store d pi abc off = (ret, d') -> ret = 0 \/ (ret = - EIO /\ write_failed).
Proof.
  intros Ho Hsz Hs. destruct (store_spec _ _ _ _ _ Ho Hsz Hs) as (r & Hw & ->).
  destruct (IS_ERR_VALUE r) eqn:E; [right|by left]. split; [done|].
  eexists d, _, _, abc. rewrite Hw. done.
Qed.

Lemma commit_ret d m m' abc0 abc backup sn ret d' abc' :
  ab_control_create_from_disk d pi 0 m = inr abc0 -> backup_loaded m' d backup ->
  commit_control d pi bo abc backup sn = (ret, d', abc') ->
  ret = 0 \/ (ret = - EIO /\ write_failed).
Proof.
  intros Hc Hbk. apply create_spec in Hc as (_ & Hsz & _); [|by left].
  unfold commit_control. set (a1 := if sn then _ else abc).
  destruct (if sn then ab_control_store d pi a1 0 else (0, d)) as [ret1 d1] eqn:E1.
  assert (R : ret1 = 0 \/ (ret1 = - EIO /\ write_failed)).
  { destruct sn; [by eapply (store_ret d 0); eauto|injection E1 as <- _; by left]. }
  destruct (Z.ltb_spec ret1 0); [intros [= <- <- <-]; done|].
  destruct backup as [bk|]; [|intros [= <- <- <-]; by left].
  destruct (bool_decide _); [intros [= <- <- <-]; by left|].
  destruct (ab_control_store d1 pi a1 bo) as [ret2 d2] eqn:E2.
  destruct Hbk as [_ Hbk]. apply create_spec in Hbk as (_ & Hsz' & _); [|by right].
  pose proof (store_ret d1 bo a1 ret2 d2 (or_intror eq_refl) Hsz' E2) as R2.
  intros [= <- <- <-]. destruct (Z.ltb_spec ret2 0); [done|by left].
Qed.

(** Outcome of a selection whose recovered block is known. *)
Lemma select_outcome m m' d dec abc0 backup abc sn :
  ab_control_create_from_disk d pi 0 m = inr abc0 -> backup_loaded m' d backup ->
  recover_control abc0 backup = (inr abc, sn) -> block_ok abc ->
  magic abc = BOOT_CTRL_MAGIC -> version abc <= BOOT_CTRL_VERSION ->
  let r := fst (ab_select_slot bo m m' d pi dec) in
  (r = - EIO /\ write_failed) \/ r = (if selected abc <? 0 then - EINVAL else selected abc).
Proof.
  intros Hc Hbk Hr B M V. unfold ab_select_slot. rewrite Hc.
  assert ((if negb (bo =? 0)
     then match ab_control_create_from_disk d pi bo m' with
          | inl ret => inl ret | inr b0 => inr (Some b0) end
     else inr None) = (inr backup : Z + option (list Z))) as ->.
  { destruct backup as [bk|]; [|by rewrite Hbk]. destruct Hbk as [N ->].
    by destruct (Z.eqb_spec bo 0). }
  rewrite Hr, M. destruct (Z.ltb_spec BOOT_CTRL_VERSION (version abc)); [lia|].
  rewrite Z.eqb_refl. cbn [negb].
  destruct (choose_slot abc dec sn) as [[sl abc1] sn1] eqn:Hch.
  destruct (choose_spec _ _ _ _ _ _ B Hch) as [C _]. rewrite <- (ch_slot _ _ _ _ C).
  destruct (commit_control d pi bo abc1 backup sn1) as [[ret d1] abc2] eqn:Hcm.
  destruct (commit_ret _ _ _ _ _ _ _ _ _ _ Hc Hbk Hcm) as [->|[-> W]]; simpl; [|by left].
  right. by destruct (sl <? 0).
Qed.

Lemma recover_valid abc backup : valid abc -> recover_control abc backup = (inr abc, false).
Proof. unfold valid, recover_control. intros ->. by rewrite Z.eqb_refl. Qed.

End Device.

(** ** Repeated boots *)

(** The tries left to the slots that have not booted successfully. *)
Definition open_tries (abc : list Z) (j : Z) : Z :=
  if successful_boot (slot_info abc j) =? 0 then tries_remaining (slot_info abc j) else 0.
Definition total_open (abc : list Z) : Z :=
  open_tries abc 0 + open_tries abc 1 + open_tries abc 2 + open_tries abc 3.

Lemma open_range abc j : 0 <= open_tries abc j <= 7.
Proof. pose proof (slot_info_ok abc j) as (_ & ? & _). unfold open_tries. cmp1; lia. Qed.

Lemma chosen_open abc slot abc' : chosen abc true slot abc' -> 0 <= slot ->
  successful_boot (slot_info abc' slot) = 0 -> total_open abc' = total_open abc - 1.
Proof.
  intros [Es _ _ _ _ _ Hi _] H0 Hs. pose proof (selected_range abc) as R. rewrite <- Es in R.
  assert (Hs' : successful_boot (slot_info abc slot) = 0).
  { rewrite Hi in Hs by lia. cbv zeta in Hs. by destruct (_ && _ && _) in Hs. }
  assert (X : forall j, 0 <= j < 4 -> open_tries abc' j =
            open_tries abc j - (if j =? slot then 1 else 0)).
  { intros j Hj. unfold open_tries. rewrite Hi by done. cbv zeta.
    destruct (Z.eqb_spec j slot) as [->|]; cbn [andb].
    - rewrite Hs', Z.eqb_refl. cbn [andb successful_boot tries_remaining]. by rewrite Z.eqb_refl.
    - lia. }
  unfold total_open. rewrite !X by lia.
  assert (slot = 0 \/ slot = 1 \/ slot = 2 \/ slot = 3) as [->|[->|[->| ->]]] by lia; simpl; lia.
Qed.

(** [n] boots in a row that try a slot which has not booted successfully. *)
Inductive attempts {D} `{BlkDev D} (pi : disk_partition) (bo : Z) : D -> nat -> D -> Prop :=
  | attempts_none d : attempts pi bo d 0 d
  | attempts_more d n d1 d2 m m' slot :
      ab_select_slot bo m m' d pi true = (slot, d1) -> 0 <= slot ->
      (forall abc, ab_control_create_from_disk d1 pi 0 true = inr abc ->
         successful_boot (slot_info abc slot) = 0) ->
      attempts pi bo d1 n d2 -> attempts pi bo d (S n) d2.

Lemma attempt_costs {D} `{BlkDev D} (pi : disk_partition) (bo : Z) `{!BlkLaws D (part_blksz pi)}
    m m' (d : D) slot d1 abc : part_ok pi bo -> whole_writes D ->
  ab_control_create_from_disk d pi 0 true = inr abc -> valid abc ->
  ab_select_slot bo m m' d pi true = (slot, d1) -> 0 <= slot ->
  (forall abc, ab_control_create_from_disk d1 pi 0 true = inr abc ->
     successful_boot (slot_info abc slot) = 0) ->
  exists abc1, ab_control_create_from_disk d1 pi 0 true = inr abc1 /\ valid abc1 /\
    total_open abc1 = total_open abc - 1.
Proof.
  intros Hp Hw Hc Hv Hs H0 Hu.
  destruct (select_spec pi bo Hp m m' d true slot d1 Hw Hs H0)
    as (abc0 & backup & abc1 & sn & abc' & H1 & _ & H3 & _ & _ & _ & C & V & H9).
  assert (m = true) as -> by (apply (create_spec pi bo Hp) in H1; [apply H1|by left]).
  rewrite Hc in H1. injection H1 as <-. rewrite recover_valid in H3 by done.
  injection H3 as <- <-. exists abc'. split; [done|]. split; [done|].
  apply (chosen_open abc slot abc' C H0). by apply Hu.
Qed.

Lemma attempts_valid {D} `{BlkDev D} (pi : disk_partition) (bo : Z) `{!BlkLaws D (part_blksz pi)}
    (d : D) n d' : part_ok pi bo -> whole_writes D -> attempts pi bo d n d' ->
  forall abc, ab_control_create_from_disk d pi 0 true = inr abc -> valid abc ->
  Z.of_nat n <= total_open abc.
Proof.
  intros Hp Hw. induction 1 as [d|d n d1 d2 m m' slot Hs H0 Hu Ha IH]; intros abc Hc Hv.
  - pose proof (open_range abc). unfold total_open.
    pose proof (open_range abc 0). pose proof (open_range abc 1).
    pose proof (open_range abc 2). pose proof (open_range abc 3). lia.
  - destruct (attempt_costs pi bo m m' d slot d1 abc Hp Hw Hc Hv Hs H0 Hu) as (abc1 & H1 & V1 & E).
    specialize (IH abc1 H1 V1). lia.
Qed.

(** ** Properties *)
Definition ex_pi : disk_partition := mk_part 1 6 512.
Definition ex_block (s : slot_metadata) : list Z :=
  match ab_control_default (Some (replicate 512 0)) with
  | (_, Some abc) => seal (set_slot_info abc 1 s)
  | _ => []
  end.
Definition ex_disk (s : slot_metadata) : list Z := write_at (replicate 3584 0) 2560 (ex_block s).

Lemma ex_part_ok : part_ok ex_pi 0.
Proof. split; simpl; try lia; reflexivity. Qed.

Section Claims.
Context {D : Type} `{BlkDev D}.


(** The boot attempt is on the device before the slot is returned.  When
    [ab_select_slot] returns a slot, the partition holds a block with a valid
    CRC, the same magic and version, the slot's suffix and the same slot
    metadata, except that with [dec_tries] a slot that has not booted
    successfully has one try fewer; on a device whose writes are complete or
    report an error. *)
Theorem ab_select_slot_persists (pi : disk_partition) (bo : Z) `{!BlkLaws D (part_blksz pi)}
    (d d' : D) (m m' dec_tries : bool) (slot : Z) :
  part_ok pi bo -> whole_writes D -> ab_select_slot bo m m' d pi dec_tries = (slot, d') -> 0 <= slot ->
  exists abc0 backup abc sn abc',
    ab_control_create_from_disk d pi 0 m = inr abc0 /\ backup_loaded pi bo m' d backup /\
    recover_control abc0 backup = (inr abc, sn) /\ slot = selected abc /\
    ab_control_create_from_disk d' pi 0 m = inr abc' /\ valid abc' /\
    magic abc' = BOOT_CTRL_MAGIC /\ version abc' <= BOOT_CTRL_VERSION /\
    slot_suffix abc' = [95; BOOT_SLOT_NAME slot; 0; 0] /\
    forall j, 0 <= j < 4 -> slot_info abc' j =
      let s := slot_info abc j in
      if (j =? slot) && (successful_boot s =? 0) && dec_tries then
        mk_slot (priority s) (tries_remaining s - 1) (successful_boot s) (verity_corrupted s)
          (slot_reserved s)
      else s.
Proof.
  intros Hp Hw Hs H0.
  destruct (select_spec pi bo Hp m m' d dec_tries slot d' Hw Hs H0)
    as (abc0 & backup & abc & sn & abc' & H1 & H2 & H3 & H4 & H5 & H6 & [] & H8 & H9).
  exists abc0, backup, abc, sn, abc'. split_and!; try done; [congruence|congruence|auto].
Qed.

(** C39: roll-back happens.  On a device whose writes are complete or report an
    error, and which reads back what was written, whatever it holds at first,
    valid control block or not, there are at most 28 boots in a row that try
    slots which have not booted successfully: after that [ab_select_slot] fails
    or returns a slot marked successful. *)
Theorem ab_attempts_bounded (pi : disk_partition) (bo : Z) `{!BlkLaws D (part_blksz pi)}
    (d d' : D) (n : nat) :
  part_ok pi bo -> whole_writes D -> attempts pi bo d n d' -> (n <= 28)%nat.
Proof.
  intros Hp Hw Ha. destruct Ha as [|d n d1 d2 m m' slot Hs H0 Hu Ha]; [lia|].
  destruct (select_spec pi bo Hp m m' d true slot d1 Hw Hs H0)
    as (abc0 & backup & abc & sn & abc' & H1 & _ & _ & _ & _ & _ & C & V & H9).
  assert (m = true) as -> by (apply (create_spec pi bo Hp) in H1; [apply H1|by left]).
  pose proof (attempts_valid pi bo d1 n d2 Hp Hw Ha abc' H9 V).
  pose proof (chosen_open abc slot abc' C H0 (Hu _ H9)). unfold total_open in *.
  pose proof (open_range abc 0). pose proof (open_range abc 1).
  pose proof (open_range abc 2). pose proof (open_range abc 3). lia.
Qed.

(** A slot that booted successfully is still unbootable without tries.  When
    every slot has [tries_remaining] zero, [ab_select_slot] finds nothing to
    boot, whatever [successful_boot] says. *)
Theorem ab_successful_without_tries (pi : disk_partition) (bo : Z) `{!BlkLaws D (part_blksz pi)}
    (d : D) (m m' dec_tries : bool) (abc : list Z) (backup : option (list Z)) :
  part_ok pi bo ->
  ab_control_create_from_disk d pi 0 m = inr abc -> backup_loaded pi bo m' d backup ->
  valid abc -> magic abc = BOOT_CTRL_MAGIC -> version abc <= BOOT_CTRL_VERSION ->
  (forall j, 0 <= j < 4 -> tries_remaining (slot_info abc j) = 0) ->
  let r := fst (ab_select_slot bo m m' d pi dec_tries) in
  (r = - EIO /\ @write_failed D _) \/ r = - EINVAL.
Proof.
  intros Hp Hc Hbk Hv M V Ht. cbv zeta.
  destruct (create_ok pi bo Hp d 0 m abc (or_introl eq_refl) Hc) as [B _].
  destruct (select_outcome pi bo Hp m m' d dec_tries abc backup abc false Hc Hbk
    (recover_valid abc backup Hv) B M V) as [?| ->]; [by left|right].
  destruct (selected_best abc) as [[-> Hn]|(R & Hs & _)]; [done|].
  unfold bootable in Hs. rewrite Ht in Hs by (unfold usable_slots in R; lia).
  by rewrite andb_false_r in Hs.
Qed.

End Claims.

Definition ex_slot : slot_metadata := mk_slot 14 3 1 0 0.

Lemma ram_whole : whole_writes (list Z).
Proof. intros d start n bs. simpl. unfold ram_write. by destruct (_ && _). Qed.


Lemma ab_select_slot_persists_witness :
  exists d', ab_select_slot 0 true true (ex_disk ex_slot) ex_pi true = (0, d') /\
  exists abc0 backup abc sn abc',
    ab_control_create_from_disk (ex_disk ex_slot) ex_pi 0 true = inr abc0 /\
    backup_loaded ex_pi 0 true (ex_disk ex_slot) backup /\
    recover_control abc0 backup = (inr abc, sn) /\ 0 = selected abc /\
    ab_control_create_from_disk d' ex_pi 0 true = inr abc' /\ valid abc' /\
    magic abc' = BOOT_CTRL_MAGIC /\ version abc' <= BOOT_CTRL_VERSION /\
    slot_suffix abc' = [95; BOOT_SLOT_NAME 0; 0; 0] /\
    forall j, 0 <= j < 4 -> slot_info abc' j =
      let s := slot_info abc j in
      if (j =? 0) && (successful_boot s =? 0) && true then
        mk_slot (priority s) (tries_remaining s - 1) (successful_boot s) (verity_corrupted s)
          (slot_reserved s)
      else s.
Proof.
  eexists. split; [vm_compute; reflexivity|].
  eapply (ab_select_slot_persists ex_pi 0 (ex_disk ex_slot) _ true true true 0);
    [exact ex_part_ok|exact ram_whole|vm_compute; reflexivity|lia].
Defined.

Lemma ab_attempts_bounded_witness :
  attempts ex_pi 0 (ex_disk ex_slot) 1
    (snd (ab_select_slot 0 true true (ex_disk ex_slot) ex_pi true)) /\ (1 <= 28)%nat.
Proof.
  assert (A : attempts ex_pi 0 (ex_disk ex_slot) 1
    (snd (ab_select_slot 0 true true (ex_disk ex_slot) ex_pi true))).
  { apply (attempts_more ex_pi 0 _ 0 (snd (ab_select_slot 0 true true (ex_disk ex_slot) ex_pi true))
      _ true true 0); [vm_compute; reflexivity|lia| |apply attempts_none].
    intros abc Ha. vm_compute in Ha. injection Ha as <-. reflexivity. }
  split; [exact A|]. exact (ab_attempts_bounded ex_pi 0 _ _ 1 ex_part_ok ram_whole A).
Defined.

(** *** A device whose writes fail with a count of zero, as those of
    mmc_bwrite do *)
Record stuck := mk_stuck { stuck_data : list Z }.
#[export] Instance stuck_dev : BlkDev stuck := {|
  blk_dread d start n := if n =? 0 then (0, []) else ram_read 512 (stuck_data d) start n;
  blk_dwrite d start n bs := (0, d)
|}.
#[export] Instance stuck_laws : BlkLaws stuck 512.
Proof.
  split.
  - intros d start n. simpl. destruct (Z.eqb_spec n 0) as [->|]; [done|]. exact (@dread_length (list Z) ram_dev 512 ram_laws (stuck_data d) start n).
  - intros d start n. simpl. destruct (n =? 0); [constructor|]. exact (@dread_bytes (list Z) ram_dev 512 ram_laws (stuck_data d) start n).
  - intros d start n bs d' _ _ _ Hl. simpl. intros [= <- <-] _. by destruct bs.
  - intros d start n bs r d' s' n' _ _ _ _ _. simpl. by intros [= _ <-].
Qed.

(** There is no bound on the boots then: [ab_control_store] takes the count for
    success, the try is never consumed and the same slot is tried for ever. *)
Lemma short_write_unnoticed (n : nat) :
  attempts ex_pi 0 (mk_stuck (ex_disk (mk_slot 14 3 0 0 0))) n (mk_stuck (ex_disk (mk_slot 14 3 0 0 0))).
Proof.
  induction n as [|n IH]; [constructor|].
  eapply (attempts_more ex_pi 0 _ n _ _ true true 0); [vm_compute; reflexivity|lia| |exact IH].
  intros abc Ha. vm_compute in Ha. by injection Ha as <-.
Qed.

(** Both slots out of tries, the second one marked successful. *)
Definition ex_worn : list Z :=
  seal (set_slot_info (ex_block (mk_slot 15 0 1 0 0)) 0 (mk_slot 0 0 0 0 0)).

Lemma ab_successful_without_tries_witness :
  let r := fst (ab_select_slot 0 true true (write_at (replicate 3584 0) 2560 ex_worn) ex_pi true) in
  successful_boot (slot_info ex_worn 1) = 1 /\ verity_corrupted (slot_info ex_worn 1) = 0 /\
  ((r = - EIO /\ @write_failed (list Z) _) \/ r = - EINVAL).
Proof.
  split; [reflexivity|]. split; [reflexivity|].
  apply (ab_successful_without_tries ex_pi 0 (write_at (replicate 3584 0) 2560 ex_worn) true true true
    ex_worn None); [exact ex_part_ok|vm_compute; reflexivity|reflexivity|vm_compute; reflexivity
    |vm_compute; reflexivity|vm_compute; discriminate|].
  intros j Hj. assert (j = 0 \/ j = 1 \/ j = 2 \/ j = 3) as [->|[->|[->| ->]]] by lia; reflexivity.
Defined.

End AndroidAb.
