(* ===== verification/Bloblist.v ===== *)
(** * Bloblist: tagged data handed from one boot phase to the next
    (common/bloblist.c)

    System memory is a list of bytes indexed by address, the global data holds
    the address of the bloblist (0 is a null pointer), and the header and the
    records are read and written in that memory.  Walks over the records take
    fuel that is enough whenever they end; [None] is a walk that never ends. *)

From S2P Require Import Prelude.
From S2P Require Import Bytes.
From S2P Require Import Crc.

Module Bloblist.
Import Crc.
Local Open Scope uboot_scope.

Definition BLOBLIST_VERSION : Z := 1.
Definition BLOBLIST_MAGIC : Z := 1242542347.     (* 0x4a0fb10b *)
Definition BLOBLIST_BLOB_ALIGN_LOG2 : Z := 3.
Definition BLOBLIST_BLOB_ALIGN : Z := 8.
Definition BLOBLIST_ALIGN : Z := 8.
Definition BLOBLISTT_VOID : Z := 0.
Definition BLOBLISTT_CONTROL_FDT : Z := 1.
Definition BLOBLISTR_HDR_SIZE_SHIFT : Z := 24.
Definition BLOBLISTR_TAG_MASK : Z := 16777215.   (* 0xffffff *)
Definition BLOBLISTR_HDR_SIZE_MASK : Z := 4278190080.   (* 0xff << 24 *)
Definition sizeof_hdr : Z := 24.
Definition sizeof_rec : Z := 8.

(** What the code keeps in global data, with the memory. *)
Record gdata := mk_gd {
  mem : list Z;
  gd_bloblist : Z;          (* gd->bloblist *)
  gd_ready : bool           (* GD_FLG_BLOBLIST_READY *)
}.

Definition set_mem (g : gdata) (m : list Z) : gdata := mk_gd m (gd_bloblist g) (gd_ready g).
Definition set_bloblist (g : gdata) (p : Z) : gdata := mk_gd (mem g) p (gd_ready g).

(** struct bloblist_hdr at [hdr]. *)
Definition h_magic (m : list Z) (hdr : Z) : Z := get_le 4 m hdr.
Definition h_chksum (m : list Z) (hdr : Z) : Z := byteat m (hdr + 4).
Definition h_version (m : list Z) (hdr : Z) : Z := byteat m (hdr + 5).
Definition h_hdr_size (m : list Z) (hdr : Z) : Z := byteat m (hdr + 6).
Definition h_align_log2 (m : list Z) (hdr : Z) : Z := byteat m (hdr + 7).
Definition h_used_size (m : list Z) (hdr : Z) : Z := get_le 4 m (hdr + 8).
Definition h_total_size (m : list Z) (hdr : Z) : Z := get_le 4 m (hdr + 12).
Definition h_flags (m : list Z) (hdr : Z) : Z := get_le 4 m (hdr + 16).

Definition set_used_size (m : list Z) (hdr v : Z) : list Z := put_le 4 m (hdr + 8) v.

(** struct bloblist_rec at [rec]. *)
Definition r_tag_and_hdr_size (m : list Z) (rec : Z) : Z := get_le 4 m rec.
Definition r_size (m : list Z) (rec : Z) : Z := get_le 4 m (rec + 4).

(** ALIGN at [int] and round_up at [ulong]. *)
Definition ALIGN (x a : Z) : Z := s32 (Z.land (x + (a - 1)) (Z.lnot (a - 1))).
Definition round_up (x y : Z) : Z := Z.lor (x -64 1) (y - 1) +64 1.

Definition bloblist_first_blob (m : list Z) (hdr : Z) : Z :=
  if h_used_size m hdr <=? h_hdr_size m hdr then 0 else hdr + h_hdr_size m hdr.

Definition rec_hdr_size (m : list Z) (rec : Z) : Z :=
  Z.shiftr (Z.land (r_tag_and_hdr_size m rec) BLOBLISTR_HDR_SIZE_MASK) BLOBLISTR_HDR_SIZE_SHIFT.
Definition rec_tag (m : list Z) (rec : Z) : Z :=
  Z.land (r_tag_and_hdr_size m rec) BLOBLISTR_TAG_MASK.

Definition bloblist_blob_end_ofs (m : list Z) (hdr rec : Z) : Z :=
  let offset := rec - hdr in
  let offset := offset +64 u32 (rec_hdr_size m rec + r_size m rec) in
  let offset := round_up (offset +64 rec_hdr_size m rec) (Z.shiftl 1 (h_align_log2 m hdr)) in
  offset -64 rec_hdr_size m rec.

Definition bloblist_next_blob (m : list Z) (hdr rec : Z) : Z :=
  let offset := bloblist_blob_end_ofs m hdr rec in
  if h_used_size m hdr <=? offset then 0 else hdr + offset.

(** foreach_rec with the test for the tag. *)
Fixpoint find_loop (fuel : nat) (m : list Z) (hdr rec tag : Z) : option Z :=
  if rec =? 0 then Some 0
  else match fuel with
       | O => None
       | S f =>
           if rec_tag m rec =? tag then Some rec
           else find_loop f m hdr (bloblist_next_blob m hdr rec) tag
       end.

(** A walk that moves on visits at most [used_size] offsets. *)
Definition bloblist_findrec (g : gdata) (tag : Z) : option Z :=
  let hdr := gd_bloblist g in
  if hdr =? 0 then Some 0
  else find_loop (Z.to_nat (h_used_size (mem g) hdr)) (mem g) hdr
         (bloblist_first_blob (mem g) hdr) tag.

(** The record itself, once its data is to start at [data_start]. *)
Definition add_at (g : gdata) (tag size align_log2 data_start : Z) : Z * Z * gdata :=
  let hdr := gd_bloblist g in
  let new_alloced := s32 (data_start - hdr + ALIGN size (Z.shiftl 1 align_log2)) in
  if h_total_size (mem g) hdr <? u32 new_alloced then (- ENOSPC, 0, g)
  else
    let rec := hdr + h_used_size (mem g) hdr in
    let m := put_le 4 (mem g) rec
               (Z.lor tag (Z.shiftl sizeof_rec BLOBLISTR_HDR_SIZE_SHIFT)) in
    let m := put_le 4 m (rec + 4) size in
    let m := write_at m (rec + rec_hdr_size m rec)
               (replicate (Z.to_nat (r_size m rec)) 0) in
    let m := set_used_size m hdr new_alloced in
    (0, rec, set_mem g m).

(** The recursion for the padding record goes one level down, or never ends. *)
Fixpoint addrec (fuel : nat) (g : gdata) (tag size align_log2 : Z) : option (Z * Z * gdata) :=
  match fuel with
  | O => None
  | S f =>
      let hdr := gd_bloblist g in
      let align_log2 := if align_log2 =? 0 then BLOBLIST_BLOB_ALIGN_LOG2 else align_log2 in
      let data_start := s32 (hdr + h_used_size (mem g) hdr + sizeof_rec) in
      let aligned_start := s32 (ALIGN data_start (Z.shiftl 1 align_log2) - data_start) in
      let pad :=
        if negb (aligned_start =? 0) then
          let void_size := s32 (aligned_start - sizeof_rec) in
          match addrec f g BLOBLISTT_VOID void_size 0 with
          | None => None
          | Some (ret, _, g) =>
              Some (ret, s32 (hdr + h_used_size (mem g) hdr + sizeof_rec), g)
          end
        else Some (0, data_start, g) in
      match pad with
      | None => None
      | Some (ret, data_start, g) =>
          if negb (ret =? 0) then Some (ret, 0, g)
          else Some (add_at g tag size align_log2 data_start)
      end
  end.

Definition bloblist_addrec (g : gdata) (tag size align_log2 : Z) : option (Z * Z * gdata) :=
  addrec 3 g tag size align_log2.

(** Returns the code, the record pointer and the state. *)
Definition bloblist_ensurerec (g : gdata) (tag size align_log2 : Z) : option (Z * Z * gdata) :=
  match bloblist_findrec g tag with
  | None => None
  | Some rec =>
      if negb (rec =? 0) then
        if negb (size =? 0) && negb (u32 size =? r_size (mem g) rec) then Some (- ESPIPE, rec, g)
        else Some (0, rec, g)
      else bloblist_addrec g tag size align_log2
  end.

(** The blob's address and the size found. *)
Definition bloblist_get_blob (g : gdata) (tag : Z) : option (Z * Z) :=
  match bloblist_findrec g tag with
  | None => None
  | Some rec =>
      if rec =? 0 then Some (0, 0)
      else Some (rec + rec_hdr_size (mem g) rec, s32 (r_size (mem g) rec))
  end.

Definition bloblist_find (g : gdata) (tag size : Z) : option Z :=
  match bloblist_get_blob g tag with
  | None => None
  | Some (blob, blob_size) =>
      if negb (size =? 0) && negb (size =? blob_size) then Some 0 else Some blob
  end.

Definition bloblist_add (g : gdata) (tag size align_log2 : Z) : option (Z * gdata) :=
  match bloblist_addrec g tag size align_log2 with
  | None => None
  | Some (ret, rec, g) =>
      if negb (ret =? 0) then Some (0, g) else Some (rec + rec_hdr_size (mem g) rec, g)
  end.

Definition bloblist_ensure_size (g : gdata) (tag size align_log2 : Z) : option (Z * Z * gdata) :=
  match bloblist_ensurerec g tag size align_log2 with
  | None => None
  | Some (ret, rec, g) =>
      if negb (ret =? 0) then Some (ret, 0, g) else Some (0, rec + rec_hdr_size (mem g) rec, g)
  end.

Definition bloblist_ensure (g : gdata) (tag size : Z) : option (Z * gdata) :=
  match bloblist_ensurerec g tag size 0 with
  | None => None
  | Some (ret, rec, g) =>
      if negb (ret =? 0) then Some (0, g) else Some (rec + rec_hdr_size (mem g) rec, g)
  end.

(** The code, the size left in [sizep], the blob and the state. *)
Definition bloblist_ensure_size_ret (g : gdata) (tag size : Z) : option (Z * Z * Z * gdata) :=
  match bloblist_ensurerec g tag size 0 with
  | None => None
  | Some (ret, rec, g) =>
      if ret =? - ESPIPE then Some (0, s32 (r_size (mem g) rec), rec + rec_hdr_size (mem g) rec, g)
      else if negb (ret =? 0) then Some (ret, size, 0, g)
      else Some (0, size, rec + rec_hdr_size (mem g) rec, g)
  end.

Definition memmove (m : list Z) (dst src n : Z) : list Z := write_at m dst (sub m src n).

Definition bloblist_resize_rec (m : list Z) (hdr rec new_size : Z) : Z * list Z :=
  let expand_by := ALIGN (new_size -32 r_size m rec) BLOBLIST_BLOB_ALIGN in
  let new_alloced := ALIGN (h_used_size m hdr +32 expand_by) BLOBLIST_BLOB_ALIGN in
  if new_size <? 0 then (- EINVAL, m)
  else if h_total_size m hdr <? u32 new_alloced then (- ENOSPC, m)
  else
    let next_ofs := bloblist_blob_end_ofs m hdr rec in
    let m :=
      if negb (next_ofs =? h_used_size m hdr)
      then memmove m (hdr + next_ofs + expand_by) (hdr + next_ofs) (new_alloced -64 next_ofs)
      else m in
    let m := set_used_size m hdr new_alloced in
    let m :=
      if 0 <? expand_by
      then write_at m (rec + rec_hdr_size m rec + r_size m rec)
             (replicate (Z.to_nat (new_size -32 r_size m rec)) 0)
      else m in
    (0, put_le 4 m (rec + 4) new_size).

Definition bloblist_resize (g : gdata) (tag new_size : Z) : option (Z * gdata) :=
  let hdr := gd_bloblist g in
  match bloblist_findrec g tag with
  | None => None
  | Some rec =>
      if rec =? 0 then Some (- ENOENT, g)
      else let '(ret, m) := bloblist_resize_rec (mem g) hdr rec new_size in
           Some (ret, set_mem g m)
  end.

Definition bloblist_calc_chksum (m : list Z) (hdr : Z) : Z :=
  u8 (table_compute_checksum (sub m hdr (h_used_size m hdr)) + h_chksum m hdr).

Definition bloblist_new (g : gdata) (addr size flags align_log2 : Z) : Z * gdata :=
  if size <? sizeof_hdr then (- ENOSPC, g)
  else if negb (Z.land addr (BLOBLIST_ALIGN - 1) =? 0) then (- EFAULT, g)
  else
    let hdr := addr in
    let m := write_at (mem g) hdr (replicate 24 0) in
    let m := write_at m (hdr + 5) [BLOBLIST_VERSION] in
    let m := write_at m (hdr + 6) [sizeof_hdr] in
    let m := put_le 4 m (hdr + 16) flags in
    let m := put_le 4 m hdr BLOBLIST_MAGIC in
    let m := set_used_size m hdr (h_hdr_size m hdr) in
    let m := put_le 4 m (hdr + 12) size in
    let m := write_at m (hdr + 7)
               [u8 (if align_log2 =? 0 then BLOBLIST_BLOB_ALIGN_LOG2 else align_log2)] in
    let m := write_at m (hdr + 4) [0] in
    (0, set_bloblist (set_mem g m) hdr).

Definition bloblist_check (g : gdata) (addr size : Z) : Z * gdata :=
  let hdr := addr in
  let m := mem g in
  if negb (h_magic m hdr =? BLOBLIST_MAGIC) then (- ENOENT, g)
  else if negb (h_version m hdr =? BLOBLIST_VERSION) then (- EPROTONOSUPPORT, g)
  else if (h_total_size m hdr =? 0) || (negb (size =? 0) && (size <? h_total_size m hdr))
  then (- EFBIG, g)
  else if h_total_size m hdr <? h_used_size m hdr then (- ENOENT, g)
  else if negb (h_hdr_size m hdr =? sizeof_hdr) then (- ENOENT, g)
  else if negb (h_chksum m hdr =? bloblist_calc_chksum m hdr) then (- EIO, g)
  else (0, set_bloblist g hdr).

Definition bloblist_finish (g : gdata) : Z * gdata :=
  let hdr := gd_bloblist g in
  (0, set_mem g (write_at (mem g) (hdr + 4) [bloblist_calc_chksum (mem g) hdr])).

Definition bloblist_get_base (g : gdata) : Z := gd_bloblist g.
Definition bloblist_get_size (g : gdata) : Z := h_used_size (mem g) (gd_bloblist g).
Definition bloblist_get_total_size (g : gdata) : Z := h_total_size (mem g) (gd_bloblist g).
Definition bloblist_get_stats (g : gdata) : Z * Z * Z :=
  (gd_bloblist g, h_total_size (mem g) (gd_bloblist g), h_used_size (mem g) (gd_bloblist g)).

Definition bloblist_reloc (g : gdata) (to to_size : Z) : Z * gdata :=
  let hdr := gd_bloblist g in
  if to_size <? h_total_size (mem g) hdr then (- ENOSPC, g)
  else
    let m := write_at (mem g) to (sub (mem g) hdr (h_total_size (mem g) hdr)) in
    let m := put_le 4 m (to + 12) to_size in
    (0, set_bloblist (set_mem g m) to).

Definition bloblist_check_magic (g : gdata) (addr : Z) : Z :=
  if addr =? 0 then 0 else if negb (h_magic (mem g) addr =? BLOBLIST_MAGIC) then 0 else addr.

(** [is64]: a 64-bit build. *)
Definition bloblist_check_reg_conv (is64 : bool) (g : gdata) (rfdt rzero rsig : Z)
    : option (Z * gdata) :=
  let sigval :=
    if is64 then Z.lor (Z.land BLOBLIST_MAGIC (Z.ones 32)) (Z.shiftl (Z.land 1 255) 32)
    else Z.lor (Z.land BLOBLIST_MAGIC (Z.ones 24)) (Z.shiftl (Z.land 1 255) 24) in
  let bad := Some (- EIO, set_bloblist g 0) in
  if negb (rzero =? 0) || negb (rsig =? sigval) then bad
  else match bloblist_find g BLOBLISTT_CONTROL_FDT 0 with
       | None => None
       | Some p => if negb (rfdt =? p) then bad else Some (0, g)
       end.

(** arch/arm/lib/xferlist.c: [saved_args] are the entry registers. *)
Definition xferlist_from_boot_arg (is64 : bool) (saved_args : list Z) (g : gdata) (addr size : Z)
    : option (Z * gdata) :=
  let '(ret, g) := bloblist_check g (nth 3 saved_args 0) size in
  if negb (ret =? 0) then Some (ret, g)
  else match bloblist_check_reg_conv is64 g (nth 0 saved_args 0) (nth 2 saved_args 0)
               (nth 1 saved_args 0) with
       | None => None
       | Some (ret, g) =>
           if negb (ret =? 0) then Some (ret, g) else Some (bloblist_reloc g addr size)
       end.

(** The configuration bloblist_init reads. *)
Record config := mk_config {
  cfg_fixed : bool;                (* CONFIG_BLOBLIST_FIXED *)
  cfg_alloc : bool;                (* CONFIG_BLOBLIST_ALLOC *)
  cfg_addr : Z;                    (* CONFIG_BLOBLIST_ADDR *)
  cfg_size : Z;                    (* CONFIG_BLOBLIST_SIZE *)
  cfg_tpl_bloblist : bool;         (* CONFIG_TPL_BLOBLIST *)
  first_phase : bool;              (* xpl_is_first_phase() *)
  prev_phase_tpl : bool            (* xpl_prev_phase() == PHASE_TPL *)
}.

(** [memalign_ptr]: what memalign returns, 0 when it fails; [from_arg]: the
    architecture's hook for the boot arguments. *)
Definition bloblist_init (cfg : config) (from_arg : gdata -> Z -> Z -> option (Z * gdata))
    (memalign_ptr : Z) (g : gdata) : option (Z * gdata) :=
  let from_addr := cfg_fixed cfg && negb (first_phase cfg) in
  let from_boot_arg := cfg_fixed cfg && first_phase cfg in
  let from_addr := if prev_phase_tpl cfg && negb (cfg_tpl_bloblist cfg) then false else from_addr in
  let addr := if cfg_fixed cfg then cfg_addr cfg else 0 in
  let size := cfg_size cfg in
  match (if from_boot_arg then from_arg g addr size
         else if from_addr then Some (bloblist_check g addr size)
         else Some (- ENOENT, g)) with
  | None => None
  | Some (ret, g) =>
      let finish ret g :=
        if negb (ret =? 0) then Some (ret, g) else Some (0, mk_gd (mem g) (gd_bloblist g) true) in
      if negb (ret =? 0) then
        if cfg_alloc cfg then
          if memalign_ptr =? 0 then Some (- ENOMEM, g)
          else let '(ret, g) := bloblist_new g memalign_ptr size 0 0 in finish ret g
        else if negb (cfg_fixed cfg) then Some (ret, g)
        else let '(ret, g) := bloblist_new g addr size 0 0 in finish ret g
      else finish 0 g
  end.

(** [enabled]: CONFIG_BLOBLIST for this phase. *)
Definition bloblist_maybe_init (enabled : bool) (cfg : config)
    (from_arg : gdata -> Z -> Z -> option (Z * gdata)) (memalign_ptr : Z) (g : gdata)
    : option (Z * gdata) :=
  if enabled && negb (gd_ready g) then bloblist_init cfg from_arg memalign_ptr g else Some (0, g).

(** ** Rounding *)
Definition up (n a : Z) : Z := (n + (a - 1)) / a * a.

Lemma up_spec n a : 0 < a -> n <= up n a < n + a /\ up n a mod a = 0.
Proof.
  intros Ha. unfold up. pose proof (Z.div_mod (n + (a - 1)) a ltac:(lia)).
  pose proof (Z.mod_pos_bound (n + (a - 1)) a ltac:(lia)).
  split; [lia|]. apply Z.mod_mul. lia.
Qed.

Lemma up_unique n a x : 0 < a -> n <= x < n + a -> x mod a = 0 -> up n a = x.
Proof.
  intros Ha Hx Hm. destruct (up_spec n a Ha) as [H1 H2].
  pose proof (Z.div_mod x a ltac:(lia)). pose proof (Z.div_mod (up n a) a ltac:(lia)).
  destruct (Z.lt_trichotomy (x / a) (up n a / a)) as [?|[E|?]]; [nia| |nia]. rewrite E in *. lia.
Qed.

Lemma up_id n a : 0 < a -> n mod a = 0 -> up n a = n.
Proof. intros. apply up_unique; [done|lia|done]. Qed.

Lemma up_shift n a k : 0 < a -> k mod a = 0 -> up (k + n) a = k + up n a.
Proof.
  intros Ha Hk. destruct (up_spec n a Ha) as [H1 H2]. apply up_unique; [done|lia|].
  rewrite Z.add_mod, Hk, H2 by lia. apply Zmod_0_l.
Qed.

Lemma ALIGN_up x k : 0 <= x -> 0 <= k <= 30 -> x + 2 ^ k <= 2 ^ 31 ->
  ALIGN x (Z.shiftl 1 k) = up x (2 ^ k).
Proof.
  intros Hx Hk Hb. unfold ALIGN, up. rewrite Z.shiftl_1_l.
  assert (0 < 2 ^ k) by lia. replace (2 ^ k - 1) with (Z.ones k) by (rewrite Z.ones_equiv; lia).
  rewrite <- Z.ldiff_land, Z.ldiff_ones_r, Z.shiftl_mul_pow2, Z.shiftr_div_pow2 by lia.
  rewrite Z.ones_equiv. replace (Z.pred (2 ^ k)) with (2 ^ k - 1) by lia.
  destruct (up_spec x (2 ^ k) ltac:(lia)) as [? _]. unfold up in *.
  apply s32_small. split; [|lia].
  apply Z.mul_nonneg_nonneg; [apply Z.div_pos; lia|lia].
Qed.

Lemma ALIGN_up8 x : 0 <= x -> x + 8 <= 2 ^ 31 -> ALIGN x 8 = up x 8.
Proof. intros. apply (ALIGN_up x 3); lia. Qed.

Lemma round_up8 x : 0 < x < 2 ^ 63 -> round_up x 8 = up x 8.
Proof.
  intros Hx. unfold round_up. rewrite (u64_small (x - 1)) by lia. change (8 - 1) with (Z.ones 3).
  assert (E : Z.lor (x - 1) (Z.ones 3) = (x - 1) / 8 * 8 + 7).
  { assert (N : Z.land (Z.ldiff (x - 1) (Z.ones 3)) (Z.ones 3) = 0).
    { apply Z.bits_inj'. intros n Hn. rewrite Z.land_spec, Z.ldiff_spec, Z.bits_0.
      by destruct (Z.testbit (Z.ones 3) n); rewrite ?andb_false_r. }
    replace (Z.lor (x - 1) (Z.ones 3)) with (Z.lor (Z.ldiff (x - 1) (Z.ones 3)) (Z.ones 3)).
    2: { apply Z.bits_inj'. intros n Hn. rewrite !Z.lor_spec, Z.ldiff_spec.
         by destruct (Z.testbit (x - 1) n), (Z.testbit (Z.ones 3) n). }
    rewrite <- (Z.lxor_lor _ _ N), <- (Z.add_nocarry_lxor _ _ N).
    rewrite Z.ldiff_ones_r, Z.shiftl_mul_pow2, Z.shiftr_div_pow2 by lia. done. }
  rewrite E. unfold up. pose proof (Z.div_mod (x - 1) 8 ltac:(lia)).
  pose proof (Z.mod_pos_bound (x - 1) 8 ltac:(lia)).
  rewrite u64_small by lia. replace (x + (8 - 1)) with (x - 1 + 1 * 8) by lia.
  rewrite Z.div_add by lia. lia.
Qed.

(** ** Layout of the records *)
Definition blob : Type := Z * list Z.                       (* tag, data *)
Definition zlen (l : list Z) : Z := Z.of_nat (length l).
Definition span (b : blob) : Z := sizeof_rec + up (zlen (snd b)) 8.

(** A record with its data at offset [o]. *)
Definition rec_at (m : list Z) (hdr o : Z) (b : blob) : Prop :=
  0 <= fst b < 2 ^ 24 /\
  r_tag_and_hdr_size m (hdr + o) = fst b + 8 * 2 ^ 24 /\
  r_size m (hdr + o) = zlen (snd b) /\
  sub m (hdr + o + 8) (zlen (snd b)) = snd b.

(** The records from offset [o] up to offset [e]. *)
Fixpoint layout (m : list Z) (hdr o e : Z) (l : list blob) : Prop :=
  match l with
  | [] => o = e
  | b :: r => rec_at m hdr o b /\ layout m hdr (o + span b) e r
  end.

Record wf (g : gdata) (total : Z) (l : list blob) : Prop := {
  wf_hdr : 0 < gd_bloblist g;
  wf_align : gd_bloblist g mod 8 = 0;
  wf_total : h_total_size (mem g) (gd_bloblist g) = total;
  wf_room : gd_bloblist g + total <= Z.of_nat (length (mem g));
  wf_addr : gd_bloblist g + total < 2 ^ 30;
  wf_bytes : Forall is_u8 (mem g);
  wf_magic : h_magic (mem g) (gd_bloblist g) = BLOBLIST_MAGIC;
  wf_version : h_version (mem g) (gd_bloblist g) = BLOBLIST_VERSION;
  wf_hsize : h_hdr_size (mem g) (gd_bloblist g) = sizeof_hdr;
  wf_alog : h_align_log2 (mem g) (gd_bloblist g) = 3;
  wf_used : h_used_size (mem g) (gd_bloblist g) <= total;
  wf_layout : layout (mem g) (gd_bloblist g) sizeof_hdr (h_used_size (mem g) (gd_bloblist g)) l
}.

Lemma span_pos b : 8 <= span b /\ span b mod 8 = 0.
Proof.
  unfold span, sizeof_rec, zlen. destruct (up_spec (Z.of_nat (length (snd b))) 8 ltac:(lia)) as [H1 H2].
  split; [lia|]. rewrite Z.add_mod, H2 by lia. done.
Qed.

Lemma layout_end m hdr o e l : layout m hdr o e l -> o mod 8 = 0 ->
  o + 8 * Z.of_nat (length l) <= e /\ e mod 8 = 0.
Proof.
  revert o. induction l as [|b l IH]; intros o H Ho; cbn [layout length] in *; [subst; simpl; lia|].
  destruct H as [_ H]. destruct (span_pos b) as [S1 S2].
  destruct (IH _ H) as [? ?]; [rewrite Z.add_mod by lia; by rewrite Ho, S2|].
  split; [lia|done].
Qed.

Lemma layout_app m hdr o e l1 l2 :
  layout m hdr o e (l1 ++ l2) <-> exists mid, layout m hdr o mid l1 /\ layout m hdr mid e l2.
Proof.
  revert o. induction l1 as [|b l1 IH]; intros o; simpl.
  - split; [intros; by exists o|intros (mid & -> & ?); done].
  - rewrite IH. split; [intros (? & mid & ? & ?); by exists mid|intros (mid & [? ?] & ?); eauto].
Qed.

(** The end is determined by the blobs. *)
Lemma layout_det m m' hdr o e e' l : layout m hdr o e l -> layout m' hdr o e' l -> e = e'.
Proof.
  revert o. induction l as [|b l IH]; intros o; cbn [layout]; [congruence|].
  intros [_ ?] [_ ?]. by eapply IH.
Qed.

(** Two memories that agree on the records have the same records. *)
Lemma layout_frame m m' hdr o e l : 0 <= o -> o mod 8 = 0 ->
  (forall k n, o <= k -> 0 <= n -> k + n <= e -> sub m' (hdr + k) n = sub m (hdr + k) n) ->
  layout m hdr o e l -> layout m' hdr o e l.
Proof.
  revert o. induction l as [|b l IH]; intros o Ho Hm Hf H; [done|]. cbn [layout] in *.
  destruct H as [(R1 & R2 & R3 & R4) H]. destruct (span_pos b) as [S1 S2].
  assert (Hm' : (o + span b) mod 8 = 0) by (rewrite Z.add_mod by lia; by rewrite Hm, S2).
  destruct (layout_end _ _ _ _ _ H Hm') as [Le _].
  assert (Hs : 8 + zlen (snd b) <= span b).
  { unfold span, sizeof_rec. pose proof (up_spec (zlen (snd b)) 8 ltac:(lia)). lia. }
  split; [|apply IH; [lia|done| |done]; intros; apply Hf; lia].
  unfold rec_at, r_tag_and_hdr_size, r_size, get_le in *.
  rewrite Hf by lia. replace (hdr + o + 4) with (hdr + (o + 4)) in * by lia. rewrite Hf by lia.
  replace (hdr + o + 8) with (hdr + (o + 8)) in * by lia.
  rewrite Hf by (unfold zlen in *; lia). done.
Qed.

Lemma rec_fields m hdr o b : rec_at m hdr o b ->
  rec_hdr_size m (hdr + o) = 8 /\ rec_tag m (hdr + o) = fst b.
Proof.
  intros (R1 & R2 & _). unfold rec_hdr_size, rec_tag. rewrite R2. split.
  - rewrite Z.shiftr_land, Z.shiftr_div_pow2 by (unfold BLOBLISTR_HDR_SIZE_SHIFT; lia).
    unfold BLOBLISTR_HDR_SIZE_SHIFT. rewrite Z.div_add, Z.div_small by lia. reflexivity.
  - change BLOBLISTR_TAG_MASK with (Z.ones 24). rewrite Z.land_ones by lia.
    rewrite Z_mod_plus_full. apply Z.mod_small. done.
Qed.

(** ** Walking *)
Lemma end_ofs_spec m hdr o b : rec_at m hdr o b -> h_align_log2 m hdr = 3 ->
  0 <= o -> o mod 8 = 0 -> o + span b < 2 ^ 31 ->
  bloblist_blob_end_ofs m hdr (hdr + o) = o + span b.
Proof.
  intros R Ha Ho Hm Hs. destruct (rec_fields _ _ _ _ R) as [Eh _]. destruct R as (_ & _ & Es & _).
  unfold bloblist_blob_end_ofs. rewrite Eh, Es, Ha. change (Z.shiftl 1 3) with 8.
  unfold span, sizeof_rec in *. destruct (up_spec (zlen (snd b)) 8 ltac:(lia)) as [U _].
  assert (0 <= zlen (snd b)) by (unfold zlen; lia).
  replace (hdr + o - hdr) with o by lia. rewrite (u32_small (8 + zlen _)) by lia.
  rewrite (u64_small (o + _)) by lia. rewrite (u64_small (_ + 8)) by lia.
  rewrite round_up8 by lia.
  replace (o + (8 + zlen (snd b)) + 8) with (o + 16 + zlen (snd b)) by lia.
  rewrite up_shift; [|lia|rewrite Z.add_mod, Hm by lia; done].
  rewrite u64_small by lia. lia.
Qed.

(** The address of the first record with the tag, 0 when there is none. *)
Fixpoint locate (hdr o tag : Z) (l : list blob) : Z :=
  match l with
  | [] => 0
  | b :: r => if fst b =? tag then hdr + o else locate hdr (o + span b) tag r
  end.

Lemma find_loop_spec fuel m hdr o e tag l :
  0 < hdr -> h_align_log2 m hdr = 3 -> h_used_size m hdr = e -> e < 2 ^ 31 ->
  0 <= o -> o mod 8 = 0 -> layout m hdr o e l -> (length l <= fuel)%nat ->
  find_loop fuel m hdr (if e <=? o then 0 else hdr + o) tag = Some (locate hdr o tag l).
Proof.
  intros Hh Ha Hu He. revert o l. induction fuel as [|f IH]; intros o l Ho Hm Hl Hf.
  - destruct l; [|simpl in Hf; lia]. simpl in Hl. subst. by rewrite Z.leb_refl.
  - destruct l as [|b l]; [simpl in Hl; subst; by rewrite Z.leb_refl|].
    cbn [layout] in Hl. destruct Hl as [R Hl]. destruct (span_pos b) as [S1 S2].
    assert (Hm' : (o + span b) mod 8 = 0) by (rewrite Z.add_mod by lia; by rewrite Hm, S2).
    destruct (layout_end _ _ _ _ _ Hl Hm') as [Le _].
    destruct (Z.leb_spec e o); [lia|]. cbn [find_loop locate].
    destruct (Z.eqb_spec (hdr + o) 0); [lia|].
    destruct (rec_fields _ _ _ _ R) as [_ ->]. destruct (fst b =? tag); [done|].
    unfold bloblist_next_blob. rewrite (end_ofs_spec _ _ _ _ R) by (done || lia). rewrite Hu.
    apply IH; [lia|done|done|simpl in Hf; lia].
Qed.

Lemma findrec_spec g total l tag : wf g total l ->
  bloblist_findrec g tag = Some (locate (gd_bloblist g) sizeof_hdr tag l).
Proof.
  intros []. unfold bloblist_findrec. destruct (Z.eqb_spec (gd_bloblist g) 0); [lia|].
  unfold bloblist_first_blob. rewrite wf_hsize0.
  destruct (layout_end _ _ _ _ _ wf_layout0) as [Le _]; [done|]. unfold sizeof_hdr in *.
  apply find_loop_spec; try done; try lia.
Qed.

(** ** Reading and writing the header *)
Lemma get_le_u8 g total l off : wf g total l -> 0 <= off -> off + 4 <= Z.of_nat (length (mem g)) ->
  0 <= get_le 4 (mem g) off < 2 ^ 32.
Proof. intros [] ? ?. apply (get_le_range 4); [done|lia|lia]. Qed.

(** A write behind the header leaves the header. *)
Lemma header_frame m m' hdr : 0 <= hdr ->
  (forall k n, 0 <= k -> 0 <= n -> k + n <= 24 -> sub m' (hdr + k) n = sub m (hdr + k) n) ->
  h_magic m' hdr = h_magic m hdr /\ h_chksum m' hdr = h_chksum m hdr /\
  h_version m' hdr = h_version m hdr /\ h_hdr_size m' hdr = h_hdr_size m hdr /\
  h_align_log2 m' hdr = h_align_log2 m hdr /\ h_used_size m' hdr = h_used_size m hdr /\
  h_total_size m' hdr = h_total_size m hdr.
Proof.
  intros Hh Hf.
  assert (B : forall k, 0 <= k < 24 -> byteat m' (hdr + k) = byteat m (hdr + k)).
  { intros k Hk. rewrite <- (Z.add_0_r (hdr + k)), <- (byteat_sub m' _ 1), <- (byteat_sub m _ 1) by lia.
    by rewrite Hf by lia. }
  unfold h_magic, h_chksum, h_version, h_hdr_size, h_align_log2, h_used_size, h_total_size, get_le.
  rewrite !B by lia. rewrite <- (Z.add_0_r hdr) at 1 2. rewrite !Hf by lia. rewrite Z.add_0_r. done.
Qed.

(** ** Adding a record *)
Lemma tag_word tag : 0 <= tag < 2 ^ 24 ->
  Z.lor tag (Z.shiftl sizeof_rec BLOBLISTR_HDR_SIZE_SHIFT) = tag + 8 * 2 ^ 24.
Proof.
  intros Ht. unfold sizeof_rec, BLOBLISTR_HDR_SIZE_SHIFT.
  assert (N : Z.land tag (Z.shiftl 8 24) = 0).
  { apply Z.bits_inj'. intros n Hn. rewrite Z.land_spec, Z.bits_0. destruct (Z_lt_le_dec n 24).
    - rewrite Z.shiftl_spec_low by lia. apply andb_false_r.
    - rewrite <- (Z.mod_small tag (2 ^ 24)) by lia. rewrite Z.mod_pow2_bits_high by lia. done. }
  rewrite <- (Z.lxor_lor _ _ N), <- (Z.add_nocarry_lxor _ _ N). done.
Qed.

Ltac len_side := rewrite ?length_write_at, ?length_le_bytes, ?length_replicate; lia.

(** What bloblist_addrec writes: the record, its zeroed data, the used size. *)
Definition record_written (m : list Z) (hdr u tag size new : Z) : list Z :=
  let rec := hdr + u in
  put_le 4 (write_at (put_le 4 (put_le 4 m rec (tag + 8 * 2 ^ 24)) (rec + 4) size) (rec + 8)
             (replicate (Z.to_nat size) 0)) (hdr + 8) new.

Section Written.
Context (m : list Z) (hdr u tag size new e : Z)
  (Hh : 0 <= hdr) (Hu : 24 <= u) (Hsz : 0 <= size < 2 ^ 31) (Hnew : 0 <= new < 2 ^ 32)
  (Hend : u + 8 + size <= e) (Hroom : hdr + e <= Z.of_nat (length m)) (Htag : 0 <= tag < 2 ^ 24).
Local Abbreviation m' := (record_written m hdr u tag size new).

Lemma written_length : length m' = length m.
Proof using Type. unfold record_written, put_le. by rewrite !length_write_at. Qed.

Lemma written_bytes : Forall is_u8 m -> Forall is_u8 m'.
Proof using Type.
  intros Hf. unfold record_written, put_le.
  repeat apply Forall_write_at; try apply le_bytes_u8; [done|].
  apply Forall_replicate. unfold is_u8. lia.
Qed.

(** Away from the used size and the record nothing changes. *)
Lemma written_out k n : 0 <= n -> 0 <= k -> k + n <= u -> k + n <= 8 \/ 12 <= k ->
  sub m' (hdr + k) n = sub m (hdr + k) n.
Proof using All.
  intros Hn Hk Hku Hd. unfold record_written, put_le.
  rewrite !sub_write_at_out by len_side. done.
Qed.

Lemma written_used : h_used_size m' hdr = new.
Proof using All.
  unfold h_used_size, record_written. rewrite get_put_le by (rewrite ?length_write_at; unfold put_le; len_side).
  apply Z.mod_small. done.
Qed.

Lemma written_rec : rec_at m' hdr u (tag, replicate (Z.to_nat size) 0).
Proof using All.
  unfold rec_at, zlen. cbn [fst snd]. rewrite length_replicate, Z2Nat.id by lia.
  unfold r_tag_and_hdr_size, r_size. split; [done|]. split; [|split].
  - unfold record_written, get_le, put_le. rewrite !sub_write_at_out by len_side.
    fold (put_le 4 m (hdr + u) (tag + 8 * 2 ^ 24)). fold (get_le 4 (put_le 4 m (hdr + u) (tag + 8 * 2 ^ 24)) (hdr + u)).
    rewrite get_put_le by (simpl; lia). apply Z.mod_small. lia.
  - unfold record_written, get_le, put_le at 1. rewrite !sub_write_at_out by (unfold put_le; len_side).
    fold (get_le 4 (put_le 4 (put_le 4 m (hdr + u) (tag + 8 * 2 ^ 24)) (hdr + u + 4) size) (hdr + u + 4)).
    rewrite get_put_le by (unfold put_le; len_side). apply Z.mod_small. lia.
  - unfold record_written. unfold put_le at 1. rewrite sub_write_at_out by (unfold put_le; len_side).
    pose proof (sub_write_at_same (put_le 4 (put_le 4 m (hdr + u) (tag + 8 * 2 ^ 24)) (hdr + u + 4) size)
      (hdr + u + 8) (replicate (Z.to_nat size) 0)) as S.
    rewrite length_replicate, Z2Nat.id in S by lia. apply S; unfold put_le; len_side.
Qed.

Lemma written_after k n : 0 <= n -> u + 8 + size <= k -> hdr + k + n <= Z.of_nat (length m) ->
  sub m' (hdr + k) n = sub m (hdr + k) n.
Proof using All.
  intros Hn Hk Hl. unfold record_written, put_le. rewrite !sub_write_at_out by len_side. done.
Qed.
End Written.

Lemma wf_write g total l tag size : wf g total l -> 0 <= tag < 2 ^ 24 -> 0 <= size ->
  let hdr := gd_bloblist g in
  let u := h_used_size (mem g) hdr in
  let new := u + 8 + up size 8 in
  new <= total ->
  wf (set_mem g (record_written (mem g) hdr u tag size new)) total
     (l ++ [(tag, replicate (Z.to_nat size) 0)]).
Proof.
  intros W Ht Hs hdr u new Hn. pose proof W as [].
  fold hdr in wf_hdr0, wf_align0, wf_total0, wf_room0, wf_addr0, wf_magic0, wf_version0,
    wf_hsize0, wf_alog0, wf_used0, wf_layout0. fold u in wf_used0, wf_layout0.
  destruct (up_spec size 8 ltac:(lia)) as [U1 U2].
  destruct (layout_end _ _ _ _ _ wf_layout0) as [Le Lm]; [done|]. unfold sizeof_hdr in *.
  assert (Hout : forall k n, 0 <= n -> 0 <= k -> k + n <= u -> k + n <= 8 \/ 12 <= k ->
    sub (record_written (mem g) hdr u tag size new) (hdr + k) n = sub (mem g) (hdr + k) n).
  { intros. apply (written_out (mem g) hdr u tag size new (u + 8 + up size 8)); lia. }
  assert (Hb : forall k, 0 <= k < 8 ->
    byteat (record_written (mem g) hdr u tag size new) (hdr + k) = byteat (mem g) (hdr + k)).
  { intros k Hk. rewrite <- (Z.add_0_r (hdr + k)), <- (byteat_sub _ _ 1), <- (byteat_sub (mem g) _ 1) by lia.
    by rewrite Hout by lia. }
  assert (Hu' : h_used_size (record_written (mem g) hdr u tag size new) hdr = new)
    by (apply (written_used (mem g) hdr u tag size new (u + 8 + up size 8)); lia).
  split; cbn [set_mem mem gd_bloblist]; fold hdr; try done.
  - unfold h_total_size, get_le. rewrite Hout by lia. done.
  - by rewrite written_length.
  - by apply written_bytes.
  - unfold h_magic, get_le. rewrite <- (Z.add_0_r hdr) at 2. rewrite Hout by lia.
    by rewrite Z.add_0_r.
  - unfold h_version. by rewrite Hb by lia.
  - unfold h_hdr_size. by rewrite Hb by lia.
  - unfold h_align_log2. by rewrite Hb by lia.
  - by rewrite Hu'.
  - rewrite Hu'. apply layout_app. exists u. split.
    + apply (layout_frame (mem g)); [unfold sizeof_hdr; lia|done| |done].
      unfold sizeof_hdr. intros k n ? ? ?. apply Hout; lia.
    + cbn [layout]. split; [apply (written_rec (mem g) hdr u tag size new (u + 8 + up size 8)); lia|].
      unfold span, zlen, sizeof_rec. cbn [snd]. rewrite length_replicate, Z2Nat.id by lia.
      unfold new. lia.
Qed.

Lemma add_at_spec g total l tag size al : wf g total l -> 0 <= tag < 2 ^ 24 ->
  0 <= size < 2 ^ 29 -> 3 <= al <= 28 ->
  let hdr := gd_bloblist g in
  let u := h_used_size (mem g) hdr in
  let new := u + 8 + up size (2 ^ al) in
  add_at g tag size al (hdr + u + 8) =
    if total <? new then (- ENOSPC, 0, g)
    else (0, hdr + u, set_mem g (record_written (mem g) hdr u tag size new)).
Proof.
  intros W Ht Hs Ha hdr u new. pose proof W as []. unfold add_at. fold hdr. fold u.
  destruct (layout_end _ _ _ _ _ wf_layout0) as [Le Lm]; [done|]. fold hdr in Le. fold u in Le.
  fold hdr in wf_total0, wf_used0, wf_addr0, wf_room0, wf_hdr0. fold u in wf_used0.
  assert (2 ^ 3 <= 2 ^ al <= 2 ^ 28) by (split; apply Z.pow_le_mono_r; lia).
  unfold sizeof_hdr in Le. destruct (up_spec size (2 ^ al) ltac:(lia)) as [U1 U2].
  rewrite ALIGN_up by lia. replace (hdr + u + 8 - hdr + up size (2 ^ al)) with new by (unfold new; lia).
  rewrite s32_small by (unfold new; lia). rewrite u32_small, wf_total0 by (unfold new; lia).
  destruct (Z.ltb_spec total new); [done|].
  rewrite tag_word by done.
  set (m1 := put_le 4 (mem g) (hdr + u) (tag + 8 * 2 ^ 24)).
  set (m2 := put_le 4 m1 (hdr + u + 4) size).
  assert (R1 : r_size m2 (hdr + u) = size).
  { unfold r_size, m2. rewrite get_put_le by (unfold m1, put_le; len_side). apply Z.mod_small. lia. }
  assert (R2 : rec_hdr_size m2 (hdr + u) = 8).
  { unfold rec_hdr_size, r_tag_and_hdr_size.
    assert (get_le 4 m2 (hdr + u) = tag + 8 * 2 ^ 24) as ->.
    { unfold m2, get_le, put_le at 1. rewrite sub_write_at_out by (unfold m1, put_le; len_side).
      fold (get_le 4 m1 (hdr + u)). unfold m1. rewrite get_put_le by (simpl; lia).
      apply Z.mod_small. lia. }
    unfold BLOBLISTR_HDR_SIZE_SHIFT. rewrite Z.shiftr_land, Z.shiftr_div_pow2 by lia.
    rewrite Z.div_add, Z.div_small by lia. reflexivity. }
  rewrite R1, R2. done.
Qed.

(** The start of the data and the padding before it. *)
Definition pad_for (start al : Z) : Z := up start (2 ^ al) - start.

Lemma up_pow2_mod8 n al : 3 <= al -> up n (2 ^ al) mod 8 = 0.
Proof.
  intros Ha. assert (0 < 2 ^ al) by lia. destruct (up_spec n (2 ^ al) ltac:(lia)) as [_ U].
  apply Z.mod_divide; [lia|]. apply Z.divide_trans with (2 ^ al).
  - exists (2 ^ (al - 3)). change 8 with (2 ^ 3). rewrite <- Z.pow_add_r by lia. f_equal. lia.
  - apply Z.mod_divide; [lia|done].
Qed.

Lemma pad_for_mod8 start al : start mod 8 = 0 -> 3 <= al -> pad_for start al mod 8 = 0.
Proof. intros Hs Ha. unfold pad_for. by rewrite Zminus_mod, Hs, up_pow2_mod8. Qed.

Lemma addrec_spec f g total l tag size al : wf g total l -> 0 <= tag < 2 ^ 24 ->
  0 <= size < 2 ^ 29 -> 3 <= al <= 28 ->
  let hdr := gd_bloblist g in
  let u := h_used_size (mem g) hdr in
  let pad := pad_for (hdr + u + 8) al in
  forall a, a = al \/ a = 0 /\ al = 3 ->
  addrec (S (S f)) g tag size a =
    Some (if pad =? 0 then add_at g tag size al (hdr + u + 8)
          else if total <? u + pad then (- ENOSPC, 0, g)
          else let g1 := set_mem g (record_written (mem g) hdr u BLOBLISTT_VOID (pad - 8) (u + pad)) in
               add_at g1 tag size al (hdr + (u + pad) + 8)).
Proof.
  intros W Ht Hs Ha hdr u pad a Hal. pose proof W as [].
  fold hdr in wf_align0, wf_total0, wf_used0, wf_addr0, wf_room0, wf_hdr0, wf_layout0.
  fold u in wf_used0, wf_layout0.
  destruct (layout_end _ _ _ _ _ wf_layout0) as [Le Lm]; [done|]. unfold sizeof_hdr in Le.
  assert (P : 2 ^ 3 <= 2 ^ al <= 2 ^ 28) by (split; apply Z.pow_le_mono_r; lia).
  assert (Hd8 : (hdr + u + 8) mod 8 = 0).
  { rewrite (Z.add_mod (hdr + u)), (Z.add_mod hdr u), wf_align0, Lm by lia. done. }
  destruct (up_spec (hdr + u + 8) (2 ^ al) ltac:(lia)) as [U1 U2].
  assert (Hp8 : pad mod 8 = 0) by (apply pad_for_mod8; [done|lia]).
  assert (E0 : (if a =? 0 then BLOBLIST_BLOB_ALIGN_LOG2 else a) = al).
  { destruct Hal as [->|[-> ->]]; [|done]. destruct (Z.eqb_spec al 0); [lia|done]. }
  cbn [addrec]. fold hdr. fold u. rewrite !E0. change sizeof_rec with 8.
  rewrite !(s32_small (hdr + u + 8)) by lia. rewrite ALIGN_up by lia.
  assert (Hpad : 0 <= pad < 2 ^ al) by (unfold pad, pad_for; lia).
  fold (pad_for (hdr + u + 8) al). fold pad. rewrite !(s32_small pad) by lia.
  destruct (Z.eqb_spec pad 0) as [|Hne]; cbn [negb]; [done|].
  assert (8 <= pad) by (pose proof (Z.div_mod pad 8 ltac:(lia)); lia).
  assert (Hv8 : (pad - 8) mod 8 = 0) by (rewrite Zminus_mod, Hp8; done).
  rewrite (s32_small (pad - 8)) by lia.
  (* the inner call: default alignment, no padding *)
  cbn [Z.eqb]. change BLOBLIST_BLOB_ALIGN_LOG2 with 3.
  rewrite (ALIGN_up (hdr + u + 8) 3) by lia. change (2 ^ 3) with 8.
  rewrite (up_id (hdr + u + 8) 8) by (done || lia). rewrite Z.sub_diag. cbn [Z.eqb negb].
  pose proof (add_at_spec g total l BLOBLISTT_VOID (pad - 8) 3 W ltac:(unfold BLOBLISTT_VOID; lia)
    ltac:(lia) ltac:(lia)) as A. cbv zeta in A. change (2 ^ 3) with 8 in A. fold hdr in A. fold u in A.
  rewrite (up_id (pad - 8) 8) in A by (done || lia).
  replace (u + 8 + (pad - 8)) with (u + pad) in A by lia.
  change (s32 0) with 0. cbn [Z.eqb negb]. rewrite A.
  destruct (Z.ltb_spec total (u + pad)); [done|]. cbn [Z.eqb negb set_mem mem].
  rewrite (written_used (mem g) hdr u BLOBLISTT_VOID (pad - 8) (u + pad) (u + pad))
    by (unfold BLOBLISTT_VOID; lia).
  rewrite (s32_small (hdr + (u + pad) + 8)) by lia. done.
Qed.

(** ** Looking up *)
Lemma locate_found m hdr o e tag l : 0 <= o -> o mod 8 = 0 -> layout m hdr o e l ->
  locate hdr o tag l <> 0 ->
  exists o' b, locate hdr o tag l = hdr + o' /\ o <= o' /\ o' + span b <= e /\ o' mod 8 = 0 /\
    rec_at m hdr o' b /\ fst b = tag.
Proof.
  revert o. induction l as [|b l IH]; intros o Ho Hm Hl Hn; [done|]. cbn [locate layout] in *.
  destruct Hl as [R Hl]. destruct (span_pos b) as [S1 S2].
  assert (Hm' : (o + span b) mod 8 = 0) by (rewrite Z.add_mod by lia; by rewrite Hm, S2).
  destruct (layout_end _ _ _ _ _ Hl Hm') as [Le _].
  destruct (Z.eqb_spec (fst b) tag) as [E|E].
  - exists o, b. split_and!; try done; try apply R; lia.
  - destruct (IH (o + span b) ltac:(lia) Hm' Hl Hn) as (o' & b' & ? & ? & ? & ? & ? & ?). exists o', b'.
    split_and!; try done; lia.
Qed.

Lemma locate_app m hdr o e tag l1 l2 : 0 < hdr -> 0 <= o -> o mod 8 = 0 -> layout m hdr o e l1 ->
  locate hdr o tag (l1 ++ l2) =
    if locate hdr o tag l1 =? 0 then locate hdr e tag l2 else locate hdr o tag l1.
Proof.
  intros Hh. revert o. induction l1 as [|b l IH]; intros o Ho Hm Hl; [by simpl in *; subst|].
  cbn [locate layout app] in *. destruct Hl as [R Hl]. destruct (span_pos b) as [S1 S2].
  destruct (Z.eqb_spec (fst b) tag) as [E|E]; [destruct (Z.eqb_spec (hdr + o) 0); [lia|done]|].
  apply IH; [lia| |done]. rewrite Z.add_mod by lia. by rewrite Hm, S2.
Qed.

Lemma locate_none hdr o tag l : Forall (fun b => fst b <> tag) l -> locate hdr o tag l = 0.
Proof.
  intros H. revert o. induction H as [|b l Hb Hl IH]; intros o; [done|]. cbn [locate].
  destruct (Z.eqb_spec (fst b) tag); [done|apply IH].
Qed.

Lemma get_blob_spec g total l tag : wf g total l ->
  let p := locate (gd_bloblist g) sizeof_hdr tag l in
  bloblist_get_blob g tag =
    Some (if p =? 0 then (0, 0) else (p + 8, s32 (r_size (mem g) p))).
Proof.
  intros W p. pose proof W as []. unfold bloblist_get_blob. rewrite (findrec_spec g total l tag W).
  fold p. destruct (Z.eqb_spec p 0); [done|].
  destruct (locate_found (mem g) (gd_bloblist g) sizeof_hdr _ tag l ltac:(done) ltac:(done) wf_layout0 n)
    as (o' & b & E & _ & _ & _ & R & _). fold p in E.
  rewrite E. destruct (rec_fields _ _ _ _ R) as [-> _]. done.
Qed.

Lemma find_spec g total l tag : wf g total l ->
  let p := locate (gd_bloblist g) sizeof_hdr tag l in
  bloblist_find g tag 0 = Some (if p =? 0 then 0 else p + 8).
Proof.
  intros W p. unfold bloblist_find. rewrite (get_blob_spec g total l tag W). fold p.
  by destruct (p =? 0).
Qed.

(** What a successful or refused bloblist_addrec leaves. *)
Lemma addrec_outcome g total l tag size a al : wf g total l -> 0 <= tag < 2 ^ 24 ->
  0 <= size < 2 ^ 29 -> 3 <= al <= 28 -> up size (2 ^ al) = up size 8 -> a = al \/ a = 0 /\ al = 3 ->
  let hdr := gd_bloblist g in
  let u := h_used_size (mem g) hdr in
  let pad := pad_for (hdr + u + 8) al in
  exists ret rec g' extra,
    bloblist_addrec g tag size a = Some (ret, rec, g') /\ wf g' total (l ++ extra) /\
    gd_bloblist g' = hdr /\
    if total <? u + pad + 8 + up size 8
    then ret = - ENOSPC /\ Forall (fun b => fst b = BLOBLISTT_VOID) extra
    else exists pads, ret = 0 /\ rec = hdr + (u + pad) /\ (rec + 8) mod 2 ^ al = 0 /\
           extra = pads ++ [(tag, replicate (Z.to_nat size) 0)] /\
           layout (mem g') hdr u (u + pad) pads /\
           Forall (fun b => fst b = BLOBLISTT_VOID) pads /\
           h_used_size (mem g') hdr = u + pad + 8 + up size 8.
Proof.
  intros W Ht Hs Ha Hup Hal hdr u pad. pose proof W as [].
  fold hdr in wf_align0, wf_total0, wf_used0, wf_addr0, wf_room0, wf_hdr0, wf_layout0.
  fold u in wf_used0, wf_layout0.
  destruct (layout_end _ _ _ _ _ wf_layout0) as [Le Lm]; [done|]. unfold sizeof_hdr in Le.
  destruct (up_spec size 8 ltac:(lia)) as [V1 V2].
  assert (P : 2 ^ 3 <= 2 ^ al <= 2 ^ 28) by (split; apply Z.pow_le_mono_r; lia).
  destruct (up_spec (hdr + u + 8) (2 ^ al) ltac:(lia)) as [U1 U2].
  assert (Hpad : 0 <= pad < 2 ^ al) by (unfold pad, pad_for; lia).
  assert (Hal2 : (hdr + (u + pad) + 8) mod 2 ^ al = 0)
    by (replace (hdr + (u + pad) + 8) with (up (hdr + u + 8) (2 ^ al)) by (unfold pad, pad_for; lia); done).
  unfold bloblist_addrec. rewrite (addrec_spec 1 g total l tag size al W Ht Hs Ha a Hal).
  fold hdr. fold u. fold pad. destruct (Z.eqb_spec pad 0) as [E0|E0].
  - pose proof (add_at_spec g total l tag size al W Ht Hs Ha) as A. cbv zeta in A.
    fold hdr in A. fold u in A. rewrite A, Hup, E0, Z.add_0_r.
    destruct (Z.ltb_spec total (u + 8 + up size 8)).
    + exists (- ENOSPC), 0, g, []. rewrite app_nil_r. split_and!; done.
    + eexists 0, (hdr + u), _, _. split; [done|].
      split; [apply (wf_write g total l tag size); done || lia|]. split; [done|].
      exists []. rewrite E0, Z.add_0_r in Hal2. split_and!; try done.
      apply (written_used (mem g) hdr u tag size _ (u + 8 + up size 8)); lia.
  - destruct (Z.ltb_spec total (u + pad)).
    { exists (- ENOSPC), 0, g, []. rewrite app_nil_r. destruct (Z.ltb_spec total (u + pad + 8 + up size 8)); [|lia].
      split_and!; done. }
    assert (Hp8 : pad mod 8 = 0).
    { apply pad_for_mod8; [|lia].
      rewrite (Z.add_mod (hdr + u)), (Z.add_mod hdr u), wf_align0, Lm by lia. done. }
    assert (8 <= pad) by (pose proof (Z.div_mod pad 8 ltac:(lia)); lia).
    assert (Hv8 : (pad - 8) mod 8 = 0) by (rewrite Zminus_mod, Hp8; done).
    set (g1 := set_mem g (record_written (mem g) hdr u BLOBLISTT_VOID (pad - 8) (u + pad))).
    assert (W1 : wf g1 total (l ++ [(BLOBLISTT_VOID, replicate (Z.to_nat (pad - 8)) 0)])).
    { pose proof (wf_write g total l BLOBLISTT_VOID (pad - 8) W ltac:(unfold BLOBLISTT_VOID; lia)
        ltac:(lia)) as X. cbv zeta in X. fold hdr in X. fold u in X.
      rewrite (up_id (pad - 8) 8) in X by (done || lia).
      replace (u + 8 + (pad - 8)) with (u + pad) in X by lia. apply X. lia. }
    assert (U' : h_used_size (mem g1) hdr = u + pad).
    { apply (written_used (mem g) hdr u BLOBLISTT_VOID (pad - 8) (u + pad) (u + pad));
        unfold BLOBLISTT_VOID; lia. }
    cbv zeta. pose proof (add_at_spec g1 total _ tag size al W1 Ht Hs Ha) as A. cbv zeta in A.
    change (gd_bloblist g1) with hdr in A. rewrite U' in A. fold g1. rewrite A, Hup.
    destruct (Z.ltb_spec total (u + pad + 8 + up size 8)).
    + eexists _, _, g1, _. split; [done|]. split; [exact W1|]. split; [done|]. split; [done|].
      by apply Forall_singleton.
    + eexists _, _, _, _. split; [done|].
      pose proof (wf_write g1 total _ tag size W1 Ht ltac:(lia)) as X. cbv zeta in X.
      change (gd_bloblist g1) with hdr in X. rewrite U' in X. specialize (X ltac:(lia)).
      rewrite <- app_assoc in X.
      split; [exact X|]. split; [done|].
      exists [(BLOBLISTT_VOID, replicate (Z.to_nat (pad - 8)) 0)]. split_and!; try done.
      * pose proof (wf_layout _ _ _ X) as Y. cbn [set_mem mem gd_bloblist] in Y.
        change (gd_bloblist g1) with hdr in Y. apply layout_app in Y as (mid & Y1 & Y2).
        apply layout_app in Y2 as (mid2 & Y2 & _).
        rewrite (layout_det _ _ _ _ _ _ _ Y1 wf_layout0) in Y2.
        cbn [layout] in Y2. destruct Y2 as [Y2 <-]. cbn [layout set_mem mem]. split; [exact Y2|].
        unfold span, zlen, sizeof_rec. cbn [snd]. rewrite length_replicate, Z2Nat.id by lia.
        rewrite up_id by (done || lia). lia.
      * by apply Forall_singleton.
      * apply (written_used (mem g1) hdr (u + pad) tag size _ (u + pad + 8 + up size 8)); try lia.
        cbn [set_mem mem g1]. unfold g1. cbn [mem set_mem]. rewrite written_length. lia.
Qed.

Lemma locate_extra g g' total l extra t : wf g total l -> wf g' total (l ++ extra) ->
  gd_bloblist g' = gd_bloblist g -> Forall (fun b => fst b <> t) extra ->
  bloblist_find g' t 0 = bloblist_find g t 0.
Proof.
  intros W W' E Hx. rewrite (find_spec g total l t W), (find_spec g' total _ t W'), E.
  pose proof (wf_layout _ _ _ W') as L. rewrite E in L. apply layout_app in L as (mid & L & _).
  rewrite (locate_app _ _ sizeof_hdr _ t l extra ltac:(apply W) ltac:(done) ltac:(done) L).
  rewrite (locate_none _ mid t extra Hx).
  set (X := locate (gd_bloblist g) sizeof_hdr t l). destruct (Z.eqb_spec X 0) as [E0|E0]; [done|].
  by rewrite (proj2 (Z.eqb_neq X 0) E0).
Qed.


(** A fresh list in 1 KiB of memory, and one with two blobs. *)
Definition ex_new : gdata := snd (bloblist_new (mk_gd (replicate 1024 0) 0 false) 32 512 0 0).

Lemma ex_new_wf : wf ex_new 512 [].
Proof.
  split; try (vm_compute; reflexivity); try (vm_compute; discriminate).
  apply all_u8. vm_compute. reflexivity.
Qed.


(** ** Finish and check *)
Definition bsum (l : list Z) : Z := fold_right Z.add 0 l.

Lemma bsum_app a b : bsum (a ++ b) = bsum a + bsum b.
Proof. induction a as [|x a IH]; simpl; [done|]. unfold bsum in *. simpl. lia. Qed.

Lemma sub_one m i : 0 <= i < Z.of_nat (length m) -> sub m i 1 = [byteat m i].
Proof.
  intros Hi. apply list_eq. intros [|j].
  - rewrite sub_lookup by lia. simpl. rewrite byteat_lookup.
    destruct (lookup_lt_is_Some_2 m (Z.to_nat i)) as [x Hx]; [lia|].
    rewrite Nat.add_0_r, Hx. done.
  - rewrite sub_lookup by lia. rewrite decide_False by lia. done.
Qed.

(** The checksum leaves out its own byte. *)
Lemma calc_spec m hdr u : 0 <= hdr -> h_used_size m hdr = u -> 5 <= u ->
  hdr + u <= Z.of_nat (length m) ->
  bloblist_calc_chksum m hdr = u8 (- (bsum (sub m hdr 4) + bsum (sub m (hdr + 5) (u - 5)))).
Proof.
  intros Hh Hu H5 Hl. unfold bloblist_calc_chksum. rewrite Hu, table_checksum_sum. fold bsum.
  replace u with (4 + (1 + (u - 5))) at 1 by lia. rewrite sub_split by lia.
  rewrite (sub_split m (hdr + 4)) by lia. rewrite sub_one by lia.
  replace (hdr + 4 + 1) with (hdr + 5) by lia. unfold h_chksum.
  change (fold_right Z.add 0) with bsum. rewrite !bsum_app. cbn [bsum fold_right].
  unfold u8. rewrite Zplus_mod_idemp_l. f_equal. lia.
Qed.

Lemma check_wf g total l size : wf g total l -> size = 0 \/ total <= size ->
  bloblist_check g (gd_bloblist g) size =
    if h_chksum (mem g) (gd_bloblist g) =? bloblist_calc_chksum (mem g) (gd_bloblist g)
    then (0, g) else (- EIO, g).
Proof.
  intros [] Hs. destruct (layout_end _ _ _ _ _ wf_layout0) as [Le _]; [done|].
  unfold sizeof_hdr in Le. unfold bloblist_check.
  rewrite wf_magic0, wf_version0, wf_total0, wf_hsize0, !Z.eqb_refl. cbn [negb].
  destruct (Z.eqb_spec total 0); [lia|]. cbn [orb].
  assert (negb (size =? 0) && (size <? total) = false) as ->
    by (destruct (Z.eqb_spec size 0), (Z.ltb_spec size total); simpl; lia || done).
  destruct (Z.ltb_spec total (h_used_size (mem g) (gd_bloblist g))); [lia|].
  destruct (_ =? _); [|done]. cbn [negb]. unfold set_bloblist. by destruct g.
Qed.

(** Changing a byte outside the header fields, or the checksum itself. *)
Lemma wf_poke g total l k v : wf g total l -> is_u8 v -> k = 4 ->
  wf (set_mem g (write_at (mem g) (gd_bloblist g + k) [v])) total l.
Proof.
  intros [] Hv ->. destruct (layout_end _ _ _ _ _ wf_layout0) as [Le _]; [done|]. unfold sizeof_hdr in *.
  assert (Out : forall i n, 0 <= i -> 0 <= n -> i + n <= 4 \/ 5 <= i ->
    sub (write_at (mem g) (gd_bloblist g + 4) [v]) (gd_bloblist g + i) n = sub (mem g) (gd_bloblist g + i) n).
  { intros i n Hi Hn Hd. apply sub_write_at_out; simpl; lia. }
  assert (B : forall i, 5 <= i -> byteat (write_at (mem g) (gd_bloblist g + 4) [v]) (gd_bloblist g + i) =
    byteat (mem g) (gd_bloblist g + i)).
  { intros i Hi. rewrite byteat_write_at by (simpl; lia). by rewrite decide_False by (simpl; lia). }
  assert (Eu : h_used_size (write_at (mem g) (gd_bloblist g + 4) [v]) (gd_bloblist g) =
    h_used_size (mem g) (gd_bloblist g)) by (unfold h_used_size, get_le; by rewrite Out by lia).
  split; cbn [set_mem mem gd_bloblist]; try done.
  - unfold h_total_size, get_le. by rewrite Out by lia.
  - by rewrite length_write_at.
  - apply Forall_write_at; [done|by apply Forall_singleton].
  - unfold h_magic, get_le. rewrite <- (Z.add_0_r (gd_bloblist g)) at 2. rewrite Out by lia. by rewrite Z.add_0_r.
  - unfold h_version. by rewrite B by lia.
  - unfold h_hdr_size. by rewrite B by lia.
  - unfold h_align_log2. by rewrite B by lia.
  - by rewrite Eu.
  - rewrite Eu. apply (layout_frame (mem g)); [done|done| |done].
    unfold sizeof_hdr. intros. apply Out; lia.
Qed.

Lemma bsum_poke m i n k v : 0 <= i -> 0 <= k < n -> i + n <= Z.of_nat (length m) ->
  bsum (sub (write_at m (i + k) [v]) i n) = bsum (sub m i n) - byteat m (i + k) + v.
Proof.
  intros Hi Hk Hl. replace n with (k + (1 + (n - k - 1))) by lia.
  rewrite !(sub_split _ i k), !(sub_split _ (i + k) 1), !bsum_app by lia.
  rewrite (sub_write_at_out m (i + k) [v] i k), (sub_write_at_out m (i + k) [v] (i + k + 1))
    by (simpl; lia).
  rewrite sub_one by (rewrite length_write_at; lia). rewrite sub_one by lia.
  rewrite byteat_write_at by (simpl; lia). rewrite decide_True by (simpl; lia).
  rewrite Z.sub_diag. change (byteat [v] 0) with v. cbn [bsum fold_right]. lia.
Qed.

Lemma finish_wf g total l : wf g total l ->
  let g' := snd (bloblist_finish g) in
  wf g' total l /\ h_chksum (mem g') (gd_bloblist g) = bloblist_calc_chksum (mem g) (gd_bloblist g) /\
  bloblist_calc_chksum (mem g') (gd_bloblist g) = bloblist_calc_chksum (mem g) (gd_bloblist g).
Proof.
  intros W g'. pose proof W as []. destruct (layout_end _ _ _ _ _ wf_layout0) as [Le _]; [done|].
  unfold sizeof_hdr in Le. set (c := bloblist_calc_chksum (mem g) (gd_bloblist g)).
  assert (W' : wf g' total l) by (apply wf_poke; [done|apply u8_range|done]).
  split; [done|]. unfold g', bloblist_finish. cbn [snd set_mem mem]. fold c. split.
  - unfold h_chksum. rewrite byteat_write_at by (simpl; lia). rewrite decide_True by (simpl; lia).
    by rewrite Z.sub_diag.
  - unfold c at 2. set (u := h_used_size (mem g) (gd_bloblist g)) in *.
    rewrite (calc_spec (mem g) _ u) by (done || lia).
    rewrite (calc_spec _ _ u).
    + by rewrite !sub_write_at_out by (simpl; lia).
    + lia.
    + unfold h_used_size, get_le. by rewrite sub_write_at_out by (simpl; lia).
    + lia.
    + rewrite length_write_at. lia.
Qed.

(** Hand-over between phases.  After [bloblist_finish] the next phase's
    [bloblist_check] accepts the list, and it refuses it with -EIO when any
    single byte behind the header has changed. *)
Theorem bloblist_finish_check (g : gdata) (total : Z) (l : list blob) (size : Z) :
  wf g total l -> size = 0 \/ total <= size ->
  let hdr := gd_bloblist g in
  let g' := snd (bloblist_finish g) in
  wf g' total l /\ bloblist_check g' hdr size = (0, g') /\
  forall k v, 24 <= k < h_used_size (mem g) hdr -> is_u8 v -> v <> byteat (mem g') (hdr + k) ->
    fst (bloblist_check (set_mem g' (write_at (mem g') (hdr + k) [v])) hdr size) = - EIO.
Proof.
  intros W Hs hdr g'. destruct (finish_wf g total l W) as (W' & Ec & Ek). fold g' in W', Ec, Ek.
  fold hdr in Ec, Ek. assert (Eh : gd_bloblist g' = hdr) by done.
  split; [done|]. split.
  { pose proof (check_wf g' total l size W' Hs) as C. rewrite Eh, Ec, Ek, Z.eqb_refl in C. done. }
  intros k v Hk Hv Hne. pose proof W' as []. rewrite Eh in *.
  assert (Eu : h_used_size (mem g') hdr = h_used_size (mem g) hdr).
  { pose proof (wf_layout _ _ _ W) as L. fold hdr in L. by rewrite (layout_det _ _ _ _ _ _ _ wf_layout0 L). }
  set (u := h_used_size (mem g) hdr) in *. rewrite Eu in *.
  set (m2 := write_at (mem g') (hdr + k) [v]).
  assert (Out : forall i n, 0 <= n -> 0 <= i -> i + n <= k -> sub m2 (hdr + i) n = sub (mem g') (hdr + i) n)
    by (intros; apply sub_write_at_out; cbn [length]; lia).
  destruct (header_frame (mem g') m2 hdr ltac:(lia)) as (F1 & F2 & F3 & F4 & _ & F6 & F7);
    [intros; apply Out; lia|].
  unfold bloblist_check. cbn [set_mem mem]. fold m2. rewrite F1, F2, F3, F4, F6, F7.
  rewrite wf_magic0, wf_version0, wf_total0, wf_hsize0, Eu, !Z.eqb_refl. cbn [negb].
  destruct (Z.eqb_spec total 0); [lia|]. cbn [orb].
  assert (negb (size =? 0) && (size <? total) = false) as ->
    by (destruct (Z.eqb_spec size 0), (Z.ltb_spec size total); simpl; lia || done).
  destruct (Z.ltb_spec total u); [lia|]. rewrite Ec, <- Ek.
  rewrite (calc_spec (mem g') hdr u), (calc_spec m2 hdr u) by
    (try done; try lia; unfold m2; rewrite ?length_write_at; lia || congruence).
  assert (Em : sub m2 hdr 4 = sub (mem g') hdr 4)
    by (pose proof (Out 0 4 ltac:(lia) ltac:(lia) ltac:(lia)) as O; by rewrite Z.add_0_r in O).
  rewrite Em. unfold m2. replace (hdr + k) with (hdr + 5 + (k - 5)) by lia.
  rewrite bsum_poke by lia. replace (hdr + 5 + (k - 5)) with (hdr + k) by lia.
  pose proof (byteat_u8 _ (hdr + k) wf_bytes0) as Hb. unfold is_u8 in Hv, Hb.
  destruct (Z.eqb_spec (u8 (- (bsum (sub (mem g') hdr 4) + bsum (sub (mem g') (hdr + 5) (u - 5)))))
    (u8 (- (bsum (sub (mem g') hdr 4) + (bsum (sub (mem g') (hdr + 5) (u - 5)) - byteat (mem g') (hdr + k) + v)))))
    as [E|E]; [|done].
  exfalso. mlia.
Qed.

Lemma bloblist_finish_check_witness :
  let g' := snd (bloblist_finish ex_new) in
  wf g' 512 [] /\ bloblist_check g' 32 0 = (0, g') /\
  forall k v, 24 <= k < h_used_size (mem ex_new) 32 -> is_u8 v -> v <> byteat (mem g') (32 + k) ->
    fst (bloblist_check (set_mem g' (write_at (mem g') (32 + k) [v])) 32 0) = - EIO.
Proof. exact (bloblist_finish_check ex_new 512 [] 0 ex_new_wf (or_introl eq_refl)). Defined.

(** ** Growing a blob *)

(** What bloblist_resize_rec writes when it grows the blob of [n] bytes at
    offset [o] by [ex] bytes; [more]: blobs follow. *)
Definition resized (m : list Z) (hdr u o n new ex : Z) (more : bool) : list Z :=
  let next := o + 8 + n in
  let m1 := if more then memmove m (hdr + next + ex) (hdr + next) (u + ex - next) else m in
  put_le 4 (write_at (set_used_size m1 hdr (u + ex)) (hdr + o + 8 + n)
             (replicate (Z.to_nat (new - n)) 0)) (hdr + o + 4) new.

Section Resized.
Context (m : list Z) (hdr u o n new ex : Z) (more : bool)
  (Hh : 0 <= hdr) (Ho : 24 <= o) (Hn : 0 <= n < new) (Hnew : new <= n + ex) (Hex : new < 2 ^ 31)
  (Hu : o + 8 + n <= u) (Hu32 : u + ex < 2 ^ 31)
  (Hroom : hdr + u + ex + (if more then ex else 0) <= Z.of_nat (length m)).
Local Abbreviation m' := (resized m hdr u o n new ex more).
Local Abbreviation next := (o + 8 + n).

Lemma moved_length : length (if more then memmove m (hdr + next + ex) (hdr + next) (u + ex - next) else m) = length m.
Proof using Type. case more; [apply length_write_at|done]. Qed.

Lemma moved_src : more = true -> Z.of_nat (length (sub m (hdr + next) (u + ex - next))) = u + ex - next.
Proof using All. intros E. pose proof Hroom as HR. rewrite E in HR. apply length_sub; lia. Qed.

Lemma room_ex : hdr + u + ex <= Z.of_nat (length m).
Proof using All. generalize Hroom. case more; lia. Qed.

Ltac mlen := pose proof room_ex;
  rewrite ?length_write_at, ?moved_length, ?length_le_bytes, ?length_replicate; lia.

Lemma resized_length : length m' = length m.
Proof using Type. unfold resized, set_used_size, put_le. by rewrite !length_write_at, moved_length. Qed.

Lemma resized_bytes : Forall is_u8 m -> Forall is_u8 m'.
Proof using Type.
  intros Hf. unfold resized, set_used_size, put_le.
  repeat apply Forall_write_at; try apply le_bytes_u8.
  - case more; [|done]. apply Forall_write_at; [done|by apply Forall_sub].
  - apply Forall_replicate. unfold is_u8. lia.
Qed.

Lemma moved_before k c : 0 <= k -> 0 <= c -> k + c <= next ->
  sub (if more then memmove m (hdr + next + ex) (hdr + next) (u + ex - next) else m) (hdr + k) c =
  sub m (hdr + k) c.
Proof using All.
  intros Hk Hc Hb. case_eq more; intros E; [|done]. pose proof (moved_src E) as HS.
  pose proof Hroom as HR. rewrite E in HR. unfold memmove. apply sub_write_at_out; lia.
Qed.

(** Before the record nothing but the used size changes. *)
Lemma resized_before k c : 0 <= k -> 0 <= c -> k + c <= o + 4 -> k + c <= 8 \/ 12 <= k ->
  sub m' (hdr + k) c = sub m (hdr + k) c.
Proof using All.
  intros Hk Hc Hb Hd. unfold resized, set_used_size, put_le.
  rewrite !sub_write_at_out by mlen. apply moved_before; lia.
Qed.

Lemma resized_used : h_used_size m' hdr = u + ex.
Proof using All.
  unfold h_used_size, resized, set_used_size, get_le, put_le at 1.
  rewrite !sub_write_at_out by (unfold put_le; mlen).
  match goal with |- le_val (sub (put_le 4 ?x _ _) _ _) = _ =>
    fold (get_le 4 (put_le 4 x (hdr + 8) (u + ex)) (hdr + 8)) end.
  rewrite get_put_le by mlen. apply Z.mod_small. lia.
Qed.

Lemma resized_size : r_size m' (hdr + o) = new.
Proof using All.
  unfold r_size, resized. rewrite get_put_le by (unfold set_used_size, put_le; mlen).
  apply Z.mod_small. lia.
Qed.

Lemma resized_data data : sub m (hdr + o + 8) n = data ->
  sub m' (hdr + o + 8) new = data ++ replicate (Z.to_nat (new - n)) 0.
Proof using All.
  intros Ed. replace new with (n + (new - n)) by lia. rewrite sub_split by lia. f_equal.
  - unfold resized, set_used_size, put_le. rewrite !sub_write_at_out by mlen.
    replace (hdr + o + 8) with (hdr + (o + 8)) in * by lia. rewrite moved_before by lia. done.
  - replace (n + (new - n)) with new by lia.
    unfold resized. unfold put_le at 1. rewrite sub_write_at_out by (unfold set_used_size, put_le; mlen).
    pose proof (sub_write_at_same (set_used_size
      (if more then memmove m (hdr + next + ex) (hdr + next) (u + ex - next) else m) hdr (u + ex))
      (hdr + o + 8 + n) (replicate (Z.to_nat (new - n)) 0)) as S.
    rewrite length_replicate, Z2Nat.id in S by lia. apply S; unfold set_used_size, put_le; mlen.
Qed.

(** Everything behind the record moves up, the [ex] bytes behind the old end
    included. *)
Lemma resized_after k c : more = true -> next <= k -> 0 <= c -> k + c <= u + ex ->
  sub m' (hdr + k + ex) c = sub m (hdr + k) c.
Proof using All.
  intros E Hk Hc Hb. unfold resized, set_used_size, put_le. rewrite !sub_write_at_out by mlen.
  pose proof (moved_src E) as HS. pose proof Hroom as HR. rewrite E in HR |- *. unfold memmove.
  rewrite sub_write_at_in by lia. rewrite sub_sub by lia. f_equal. lia.
Qed.

Lemma resized_beyond k c : more = false -> o + 8 + new <= k -> 0 <= c ->
  hdr + k + c <= Z.of_nat (length m) -> sub m' (hdr + k) c = sub m (hdr + k) c.
Proof using All.
  intros E Hk Hc Hb. unfold resized, set_used_size, put_le. rewrite !sub_write_at_out by mlen.
  by rewrite E.
Qed.
End Resized.

(** The code computes exactly [resized] when the blob's size is a multiple of
    the alignment and grows. *)
Lemma resize_rec_grow m hdr o u total tag data new :
  rec_at m hdr o (tag, data) -> h_align_log2 m hdr = 3 -> h_used_size m hdr = u ->
  h_total_size m hdr = total -> total < 2 ^ 30 -> 0 <= hdr -> 24 <= o -> o mod 8 = 0 -> u mod 8 = 0 ->
  zlen data mod 8 = 0 -> zlen data < new < 2 ^ 29 ->
  let ex := up new 8 - zlen data in
  let more := negb (o + 8 + zlen data =? u) in
  o + 8 + zlen data <= u -> u + ex <= total ->
  hdr + u + ex + (if more then ex else 0) <= Z.of_nat (length m) ->
  bloblist_resize_rec m hdr (hdr + o) new = (0, resized m hdr u o (zlen data) new ex more).
Proof.
  intros R Ha Hu Ht Hb Hh Ho Hom Hum Hd Hnew ex more Hou Hfit Hroom.
  pose proof (rec_fields _ _ _ _ R) as [Rh _]. pose proof R as (_ & _ & Rs & _). cbn [snd] in Rs.
  set (n := zlen data) in *. assert (Hn : 0 <= n) by (unfold n, zlen; lia).
  destruct (up_spec new 8 ltac:(lia)) as [U1 U2].
  assert (Eex : up (new - n) 8 = ex).
  { unfold ex. pose proof (up_shift (new - n) 8 n ltac:(lia) Hd) as X.
    replace (n + (new - n)) with new in X by lia. lia. }
  assert (Hex8 : ex mod 8 = 0) by (unfold ex; rewrite Zminus_mod, U2, Hd; done).
  unfold bloblist_resize_rec. rewrite Rs, Hu, Ht. unfold BLOBLIST_BLOB_ALIGN.
  rewrite (u32_small (new - n)) by lia. rewrite (ALIGN_up8 (new - n)), Eex by lia.
  rewrite (u32_small (u + ex)) by lia. rewrite ALIGN_up8 by lia.
  assert (Hux : (u + ex) mod 8 = 0) by (rewrite Z.add_mod, Hum, Hex8 by lia; done).
  rewrite (up_id (u + ex) 8) by (done || lia).
  destruct (Z.ltb_spec new 0); [lia|]. rewrite (u32_small (u + ex)) by lia.
  destruct (Z.ltb_spec total (u + ex)); [lia|].
  assert (Es : span (tag, data) = 8 + n)
    by (unfold span, sizeof_rec; cbn [snd]; fold n; by rewrite up_id by (done || lia)).
  rewrite (end_ofs_spec _ _ _ _ R) by (done || lia). rewrite Es.
  replace (o + (8 + n)) with (o + 8 + n) by lia. fold more.
  rewrite (u64_small (u + ex - (o + 8 + n))) by lia.
  set (m1 := if more then memmove m _ _ _ else m).
  assert (Lm : length m1 = length m) by (unfold m1; destruct more; [apply length_write_at|done]).
  assert (Hr2 : hdr + u + ex <= Z.of_nat (length m)) by (clear -Hroom Hnew U1; destruct more; lia).
  assert (B : forall k, 0 <= k -> k + 4 <= 8 -> get_le 4 (set_used_size m1 hdr (u + ex)) (hdr + o + k) =
            get_le 4 m (hdr + o + k)).
  { intros k Hk Hk8. unfold get_le, set_used_size, put_le.
    rewrite sub_write_at_out by (rewrite ?Lm, ?length_le_bytes; lia).
    replace (hdr + o + k) with (hdr + (o + k)) by lia. f_equal. unfold m1.
    apply (moved_before m hdr u o n new ex more); lia. }
  assert (B0 : r_tag_and_hdr_size (set_used_size m1 hdr (u + ex)) (hdr + o) = r_tag_and_hdr_size m (hdr + o)).
  { pose proof (B 0 ltac:(lia) ltac:(lia)) as X. by rewrite Z.add_0_r in X. }
  assert (Rh' : rec_hdr_size (set_used_size m1 hdr (u + ex)) (hdr + o) = 8)
    by (unfold rec_hdr_size; rewrite B0; exact Rh).
  assert (Rs' : r_size (set_used_size m1 hdr (u + ex)) (hdr + o) = n)
    by (unfold r_size; rewrite B by lia; exact Rs).
  destruct (Z.ltb_spec 0 ex); [|lia]. rewrite Rh', Rs', (u32_small (new - n)) by lia. done.
Qed.

(** Blobs shifted by [ex]. *)
Lemma layout_shift m m' hdr o e ex l : 0 <= o -> o mod 8 = 0 ->
  (forall k c, o <= k -> 0 <= c -> k + c <= e -> sub m' (hdr + k + ex) c = sub m (hdr + k) c) ->
  layout m hdr o e l -> layout m' hdr (o + ex) (e + ex) l.
Proof.
  revert o. induction l as [|b l IH]; intros o Ho Hm Hf H; [by simpl in *; subst|]. cbn [layout] in *.
  destruct H as [(R1 & R2 & R3 & R4) H]. destruct (span_pos b) as [S1 S2].
  assert (Hm' : (o + span b) mod 8 = 0) by (rewrite Z.add_mod by lia; by rewrite Hm, S2).
  destruct (layout_end _ _ _ _ _ H Hm') as [Le _].
  assert (Hs : 8 + zlen (snd b) <= span b).
  { unfold span, sizeof_rec. pose proof (up_spec (zlen (snd b)) 8 ltac:(lia)). lia. }
  split; [|replace (o + ex + span b) with (o + span b + ex) by lia;
    apply IH; [lia|done| |done]; intros; apply Hf; lia].
  unfold rec_at, r_tag_and_hdr_size, r_size, get_le in *.
  replace (hdr + (o + ex)) with (hdr + o + ex) by lia. rewrite Hf by lia.
  replace (hdr + o + ex + 4) with (hdr + (o + 4) + ex) by lia. rewrite Hf by lia.
  replace (hdr + o + ex + 8) with (hdr + (o + 8) + ex) by lia. rewrite Hf by (unfold zlen in *; lia).
  replace (hdr + (o + 4)) with (hdr + o + 4) by lia. replace (hdr + (o + 8)) with (hdr + o + 8) by lia.
  done.
Qed.

Definition nonempty {A} (l : list A) : bool := match l with [] => false | _ => true end.

(** Where the record of a tag is. *)
Lemma found_at g total (l1 : list blob) b (l2 : list blob) : wf g total (l1 ++ b :: l2) -> Forall (fun c => fst c <> fst b) l1 ->
  let hdr := gd_bloblist g in
  let u := h_used_size (mem g) hdr in
  exists o, layout (mem g) hdr 24 o l1 /\ rec_at (mem g) hdr o b /\
    layout (mem g) hdr (o + span b) u l2 /\ 24 <= o /\ o mod 8 = 0 /\ o + span b <= u /\ u mod 8 = 0 /\
    bloblist_findrec g (fst b) = Some (hdr + o).
Proof.
  intros W Hn hdr u. rewrite (findrec_spec g total _ (fst b) W).
  pose proof (wf_layout _ _ _ W) as L. apply layout_app in L as (o & L1 & L2).
  cbn [layout] in L2. destruct L2 as [R L2]. destruct (layout_end _ _ _ _ _ L1 ltac:(done)) as [Lo Lm].
  destruct (span_pos b) as [S1 S2].
  destruct (layout_end _ _ _ _ _ L2) as [Lu Lum]; [rewrite Z.add_mod by lia; by rewrite Lm, S2|].
  unfold sizeof_hdr in Lo. fold hdr in Lu. fold u in Lu.
  exists o. split_and!; try done; try lia; try apply R. f_equal.
  rewrite (locate_app _ _ sizeof_hdr _ (fst b) l1 _ ltac:(apply W) ltac:(done) ltac:(done) L1).
  rewrite (locate_none _ _ _ l1 Hn), Z.eqb_refl. cbn [locate]. by rewrite Z.eqb_refl.
Qed.

Lemma resize_grow_run g total (l1 : list blob) tag data (l2 : list blob) new :
  wf g total (l1 ++ (tag, data) :: l2) -> Forall (fun c => fst c <> tag) l1 ->
  zlen data mod 8 = 0 -> zlen data < new < 2 ^ 29 ->
  let hdr := gd_bloblist g in
  let u := h_used_size (mem g) hdr in
  let ex := up new 8 - zlen data in
  let more := nonempty l2 in
  u + ex <= total -> hdr + u + ex + (if more then ex else 0) <= Z.of_nat (length (mem g)) ->
  exists o, layout (mem g) hdr 24 o l1 /\ rec_at (mem g) hdr o (tag, data) /\
    layout (mem g) hdr (o + 8 + zlen data) u l2 /\ 24 <= o /\ o mod 8 = 0 /\ o + 8 + zlen data <= u /\
    bloblist_resize g tag new =
      Some (0, set_mem g (resized (mem g) hdr u o (zlen data) new ex more)).
Proof.
  intros W Hn Hd Hnew hdr u ex more Hfit Hroom.
  destruct (found_at g total l1 (tag, data) l2 W Hn) as (o & L1 & R & L2 & Ho & Hom & Hou & Hum & Hf).
  fold hdr in L1, R, L2, Hf. fold u in L2, Hum, Hou. fold hdr in Hou, Hum. fold u in Hou, Hum.
  assert (Es : span (tag, data) = 8 + zlen data)
    by (unfold span, sizeof_rec; cbn [snd]; by rewrite up_id by (done || lia)).
  rewrite Es in L2, Hou. replace (o + (8 + zlen data)) with (o + 8 + zlen data) in * by lia.
  exists o. split_and!; try done; try apply R.
  assert (Em : more = negb (o + 8 + zlen data =? u)).
  { unfold more. destruct l2 as [|b2 l2]; [simpl in L2; subst u; rewrite L2; by rewrite Z.eqb_refl|].
    destruct (layout_end _ _ _ _ _ L2) as [Lu _].
    - rewrite (Z.add_mod (o + 8)), (Z.add_mod o), Hom, Hd by lia. done.
    - simpl in Lu. destruct (Z.eqb_spec (o + 8 + zlen data) u); [lia|done]. }
  unfold bloblist_resize. cbn [fst] in Hf. rewrite Hf. fold hdr.
  pose proof W as []. fold hdr in wf_hdr0, wf_total0, wf_addr0, wf_alog0.
  destruct (Z.eqb_spec (hdr + o) 0); [lia|].
  rewrite (resize_rec_grow (mem g) hdr o u total tag data new); try done; try lia.
  - fold ex. by rewrite Em.
  - fold ex. rewrite <- Em. done.
Qed.

(** Growing a blob.  [bloblist_resize] of a blob whose size is a multiple of
    the alignment keeps every blob of the list, appends zeros to that one and
    moves the blobs behind it, provided the growth fits twice when blobs
    follow. *)
Theorem bloblist_resize_grows (g : gdata) (total : Z) (l1 : list blob) (tag : Z) (data : list Z)
    (l2 : list blob) (new : Z) :
  wf g total (l1 ++ (tag, data) :: l2) -> Forall (fun c => fst c <> tag) l1 ->
  zlen data mod 8 = 0 -> zlen data < new < 2 ^ 29 ->
  let u := h_used_size (mem g) (gd_bloblist g) in
  let ex := up new 8 - zlen data in
  u + ex + (if nonempty l2 then ex else 0) <= total ->
  exists g', bloblist_resize g tag new = Some (0, g') /\
    wf g' total (l1 ++ (tag, data ++ replicate (Z.to_nat (new - zlen data)) 0) :: l2).
Proof.
  intros W Hn Hd Hnew u ex Hfit. set (hdr := gd_bloblist g) in *. pose proof W as [].
  fold hdr in wf_hdr0, wf_align0, wf_total0, wf_room0, wf_addr0, wf_magic0, wf_version0,
    wf_hsize0, wf_alog0, wf_used0, wf_layout0. fold u in wf_used0, wf_layout0.
  destruct (up_spec new 8 ltac:(lia)) as [U1 U2].
  assert (0 <= zlen data) by (unfold zlen; lia).
  set (more := nonempty l2).
  assert (Hr : hdr + u + ex + (if more then ex else 0) <= Z.of_nat (length (mem g)))
    by (fold more in Hfit; destruct more; lia).
  assert (Hf : u + ex <= total) by (fold more in Hfit; destruct more; lia).
  destruct (resize_grow_run g total l1 tag data l2 new W Hn Hd Hnew Hf Hr)
    as (o & L1 & R & L2 & Ho & Hom & Hou & ->). fold hdr in L1, R, L2, Hou |- *. fold u in L2, Hou |- *. fold more. fold ex.
  eexists. split; [done|]. set (n := zlen data) in *.
  assert (Bef : forall k c, 0 <= k -> 0 <= c -> k + c <= o + 4 -> k + c <= 8 \/ 12 <= k ->
    sub (resized (mem g) hdr u o n new ex more) (hdr + k) c = sub (mem g) (hdr + k) c)
    by (intros; apply resized_before; lia).
  assert (By : forall k, 0 <= k < 8 ->
    byteat (resized (mem g) hdr u o n new ex more) (hdr + k) = byteat (mem g) (hdr + k)).
  { intros k Hk. rewrite <- (Z.add_0_r (hdr + k)), <- (byteat_sub _ _ 1), <- (byteat_sub (mem g) _ 1) by lia.
    by rewrite Bef by lia. }
  assert (Eu : h_used_size (resized (mem g) hdr u o n new ex more) hdr = u + ex)
    by (apply resized_used; lia).
  split; cbn [set_mem mem gd_bloblist]; fold hdr; fold more; try done.
  - unfold h_total_size, get_le. rewrite Bef by lia. done.
  - by rewrite resized_length.
  - by apply resized_bytes.
  - unfold h_magic, get_le. rewrite <- (Z.add_0_r hdr) at 2. rewrite Bef by lia. by rewrite Z.add_0_r.
  - unfold h_version. by rewrite By by lia.
  - unfold h_hdr_size. by rewrite By by lia.
  - unfold h_align_log2. by rewrite By by lia.
  - by rewrite Eu.
  - rewrite Eu. apply layout_app. exists o. split.
    + apply (layout_frame (mem g)); [done|done| |done]. unfold sizeof_hdr. intros. apply Bef; lia.
    + cbn [layout]. pose proof R as (T & R2 & R3 & R4). cbn [fst snd] in *.
      assert (El : zlen (data ++ replicate (Z.to_nat (new - n)) 0) = new)
        by (unfold zlen; rewrite length_app, length_replicate; unfold n, zlen in *; lia).
      split.
      * unfold rec_at. cbn [fst snd]. rewrite El. split; [done|]. split; [|split].
        -- unfold r_tag_and_hdr_size, get_le. rewrite Bef by lia. exact R2.
        -- apply resized_size; lia.
        -- apply resized_data; try lia. exact R4.
      * unfold span, sizeof_rec. cbn [snd]. rewrite El.
        replace (o + (8 + up new 8)) with (o + 8 + n + ex) by (unfold ex; lia).
        assert (Hnm : (o + 8 + n) mod 8 = 0)
          by (rewrite (Z.add_mod (o + 8)), (Z.add_mod o), Hom, Hd by lia; done).
        destruct l2 as [|b2 l2]; [simpl in L2 |- *; lia|].
        apply (layout_shift (mem g)); [lia|done| |done]. intros k c Hk Hc Hkc.
        apply resized_after; try lia. done.
Qed.

(** ** Lists whose records do not meet the used size *)

(** A zeroed record is its own successor. *)
Lemma stuck_walk m hdr o tag : h_align_log2 m hdr = 3 -> 0 < hdr -> 0 < o < 2 ^ 31 -> o mod 8 = 0 ->
  o < h_used_size m hdr -> sub m (hdr + o) 8 = replicate 8 0 -> tag <> 0 ->
  forall fuel, find_loop fuel m hdr (hdr + o) tag = None.
Proof.
  intros Ha Hh Ho Hm Hu Hz Ht.
  assert (E1 : r_tag_and_hdr_size m (hdr + o) = 0).
  { unfold r_tag_and_hdr_size, get_le. rewrite <- (Z.add_0_r (hdr + o)), <- (sub_sub m (hdr + o) 8) by lia.
    by rewrite Hz. }
  assert (E2 : r_size m (hdr + o) = 0).
  { unfold r_size, get_le. rewrite <- (sub_sub m (hdr + o) 8) by lia. by rewrite Hz. }
  assert (En : bloblist_next_blob m hdr (hdr + o) = hdr + o).
  { unfold bloblist_next_blob, bloblist_blob_end_ofs, rec_hdr_size. rewrite E1, E2, Ha.
    change (Z.shiftl 1 3) with 8. rewrite Z.land_0_l, Z.shiftr_0_l.
    replace (hdr + o - hdr) with o by lia. change (u32 (0 + 0)) with 0.
    rewrite !Z.add_0_r, !Z.sub_0_r. rewrite (u64_small o) by lia. rewrite (u64_small o) by lia.
    rewrite round_up8, up_id, (u64_small o) by (done || lia).
    destruct (Z.leb_spec (h_used_size m hdr) o); [lia|done]. }
  induction fuel as [|f IH]; cbn [find_loop]; destruct (Z.eqb_spec (hdr + o) 0); try lia; [done|].
  unfold rec_tag. rewrite E1, Z.land_0_l. destruct (Z.eqb_spec 0 tag); [lia|]. by rewrite En.
Qed.

Lemma walk_then_stuck m hdr o e l tag : h_align_log2 m hdr = 3 -> 0 < hdr -> 0 < o -> e < 2 ^ 31 ->
  o mod 8 = 0 -> layout m hdr o e l -> e < h_used_size m hdr -> sub m (hdr + e) 8 = replicate 8 0 ->
  tag <> 0 -> Forall (fun b => fst b <> tag) l ->
  forall fuel, find_loop fuel m hdr (hdr + o) tag = None.
Proof.
  intros Ha Hh Ho He Hm Hl Hu Hz Ht Hf fuel. revert o fuel Ho Hm Hl.
  induction Hf as [|b l Hb Hf IH]; intros o fuel Ho Hm Hl.
  - simpl in Hl. subst o. by apply stuck_walk.
  - cbn [layout] in Hl. destruct Hl as [R Hl]. destruct (span_pos b) as [S1 S2].
    assert (Hm' : (o + span b) mod 8 = 0) by (rewrite Z.add_mod by lia; by rewrite Hm, S2).
    destruct (layout_end _ _ _ _ _ Hl Hm') as [Le _].
    destruct fuel as [|f]; cbn [find_loop]; destruct (Z.eqb_spec (hdr + o) 0); try lia; [done|].
    destruct (rec_fields _ _ _ _ R) as [_ ->]. destruct (Z.eqb_spec (fst b) tag); [done|].
    unfold bloblist_next_blob. rewrite (end_ofs_spec _ _ _ _ R) by (done || lia).
    destruct (Z.leb_spec (h_used_size m hdr) (o + span b)); [lia|]. apply IH; [lia|done|done].
Qed.

(** An over-aligned blob breaks the list.  When [bloblist_add] is asked for
    an alignment that pads the blob beyond the list's own alignment, it
    succeeds, but the walk, which rounds by the list's alignment, then reads a
    record out of the padding: over zeroed memory every search for an absent
    tag loops forever. *)
Theorem bloblist_add_overaligned_hangs (g : gdata) (total : Z) (l : list blob) (tag size al : Z) :
  wf g total l -> 0 < tag < 2 ^ 24 -> 0 <= size < 2 ^ 29 -> 3 <= al <= 28 ->
  let hdr := gd_bloblist g in
  let u := h_used_size (mem g) hdr in
  pad_for (hdr + u + 8) al = 0 -> up size 8 < up size (2 ^ al) -> u + 8 + up size (2 ^ al) <= total ->
  sub (mem g) (hdr + (u + 8 + up size 8)) 8 = replicate 8 0 ->
  exists g', bloblist_add g tag size al = Some (hdr + u + 8, g') /\
    forall t, t <> 0 -> t <> tag -> Forall (fun b => fst b <> t) l ->
    forall fuel, find_loop fuel (mem g') hdr (bloblist_first_blob (mem g') hdr) t = None.
Proof.
  intros W Ht Hs Ha hdr u Hpad Hup Hfit Hz. pose proof W as [].
  fold hdr in wf_hdr0, wf_align0, wf_total0, wf_room0, wf_addr0, wf_magic0, wf_version0,
    wf_hsize0, wf_alog0, wf_used0, wf_layout0. fold u in wf_used0, wf_layout0.
  destruct (layout_end _ _ _ _ _ wf_layout0) as [Le Lm]; [done|]. unfold sizeof_hdr in Le.
  destruct (up_spec size 8 ltac:(lia)) as [U1 U2].
  destruct (up_spec size (2 ^ al) ltac:(lia)) as [V1 V2].
  pose proof (up_pow2_mod8 size al ltac:(lia)) as Hmul.
  set (new := u + 8 + up size (2 ^ al)) in *.
  assert (Hgap : u + 8 + up size 8 + 8 <= new).
  { pose proof (Z.div_mod (up size 8) 8 ltac:(lia)). pose proof (Z.div_mod (up size (2 ^ al)) 8 ltac:(lia)).
    unfold new. lia. }
  unfold bloblist_add, bloblist_addrec.
  rewrite (addrec_spec 1 g total l tag size al W ltac:(lia) Hs Ha al (or_introl eq_refl)).
  fold hdr. fold u. rewrite Hpad, Z.eqb_refl.
  pose proof (add_at_spec g total l tag size al W ltac:(lia) Hs Ha) as A. cbv zeta in A.
  fold hdr in A. fold u in A. fold new in A. rewrite A. destruct (Z.ltb_spec total new); [lia|].
  cbn [negb Z.eqb set_mem mem].
  set (m' := record_written (mem g) hdr u tag size new).
  assert (R : rec_at m' hdr u (tag, replicate (Z.to_nat size) 0))
    by (apply (written_rec (mem g) hdr u tag size new (u + 8 + up size 8)); lia).
  destruct (rec_fields _ _ _ _ R) as [-> _].
  eexists. split; [done|]. intros t T0 Tt Hl fuel. cbn [set_mem mem]. fold m'.
  assert (Out : forall k n, 0 <= n -> 0 <= k -> k + n <= u -> k + n <= 8 \/ 12 <= k ->
    sub m' (hdr + k) n = sub (mem g) (hdr + k) n).
  { intros. apply (written_out (mem g) hdr u tag size new (u + 8 + up size 8)); lia. }
  assert (Hb : forall k, 0 <= k < 8 -> byteat m' (hdr + k) = byteat (mem g) (hdr + k)).
  { intros k Hk. rewrite <- (Z.add_0_r (hdr + k)), <- (byteat_sub _ _ 1), <- (byteat_sub (mem g) _ 1) by lia.
    by rewrite Out by lia. }
  assert (Hu' : h_used_size m' hdr = new)
    by (apply (written_used (mem g) hdr u tag size new (u + 8 + up size 8)); lia).
  unfold bloblist_first_blob. rewrite Hu'. unfold h_hdr_size in *. rewrite Hb, wf_hsize0 by lia.
  unfold sizeof_hdr. destruct (Z.leb_spec new 24); [lia|].
  apply (walk_then_stuck m' hdr 24 (u + 8 + up size 8) (l ++ [(tag, replicate (Z.to_nat size) 0)]));
    try done; try lia.
  - unfold h_align_log2 in *. rewrite Hb by lia. done.
  - apply layout_app. exists u. split.
    + apply (layout_frame (mem g)); [done|done| |done]. unfold sizeof_hdr. intros. apply Out; lia.
    + cbn [layout]. split; [done|]. unfold span, sizeof_rec, zlen. cbn [snd].
      rewrite length_replicate, Z2Nat.id by lia. lia.
  - unfold m'. rewrite (written_after (mem g) hdr u tag size new (u + 8 + up size 8)) by lia. done.
  - apply Forall_app_2; [done|by apply Forall_singleton].
Qed.

(** Growing an odd-sized blob breaks the list.  [bloblist_resize] rounds the
    difference of the sizes instead of the sizes: where the two disagree, the
    last blob's record ends before the new used size and, over zeroed memory,
    every search for an absent tag loops forever. *)
Theorem bloblist_resize_odd_hangs (g : gdata) (total : Z) (l : list blob) (tag : Z) (data : list Z)
    (new : Z) :
  wf g total (l ++ [(tag, data)]) -> Forall (fun c => fst c <> tag) l ->
  zlen data < new < 2 ^ 29 ->
  let hdr := gd_bloblist g in
  let u := h_used_size (mem g) hdr in
  let ex := up (new - zlen data) 8 in
  let gap := u - up (zlen data) 8 + up new 8 in
  up new 8 < up (zlen data) 8 + ex -> u + ex <= total ->
  sub (mem g) (hdr + gap) 8 = replicate 8 0 ->
  exists g', bloblist_resize g tag new = Some (0, g') /\
    forall t, t <> 0 -> t <> tag -> Forall (fun b => fst b <> t) l ->
    forall fuel, find_loop fuel (mem g') hdr (bloblist_first_blob (mem g') hdr) t = None.
Proof.
  intros W Hn Hnew hdr u ex gap Hodd Hfit Hz. pose proof W as [].
  fold hdr in wf_hdr0, wf_align0, wf_total0, wf_room0, wf_addr0, wf_alog0, wf_hsize0, wf_used0.
  fold u in wf_used0.
  destruct (found_at g total l (tag, data) [] W Hn) as (o & L1 & R & L2 & Ho & Hom & Hou & Hum & Hf).
  fold hdr in L1, R, L2, Hf, Hou, Hum. fold u in L2, Hou, Hum.
  pose proof R as (T & R2 & Rs & Rd). pose proof (rec_fields _ _ _ _ R) as [Rh _].
  set (n := zlen data) in *. assert (Hn0 : 0 <= n) by (unfold n, zlen; lia).
  assert (Es : span (tag, data) = 8 + up n 8) by done.
  cbn [layout] in L2. rewrite Es in L2, Hou. cbn [snd] in Rs, Rd. fold n in Rs, Rd.
  destruct (up_spec n 8 ltac:(lia)) as [A1 A2]. destruct (up_spec new 8 ltac:(lia)) as [B1 B2].
  destruct (up_spec (new - n) 8 ltac:(lia)) as [C1 C2]. fold ex in C1, C2.
  assert (Hux : (u + ex) mod 8 = 0) by (rewrite Z.add_mod, Hum, C2 by lia; done).
  assert (Hgap : gap = o + 8 + up new 8) by (unfold gap; lia).
  assert (Hg8 : gap + 8 <= u + ex).
  { pose proof (Z.div_mod (up n 8) 8 ltac:(lia)). pose proof (Z.div_mod (up new 8) 8 ltac:(lia)).
    pose proof (Z.div_mod ex 8 ltac:(lia)). lia. }
  set (m' := resized (mem g) hdr u o n new ex false).
  assert (E : bloblist_resize g tag new = Some (0, set_mem g m')).
  { unfold bloblist_resize. cbn [fst] in Hf. rewrite Hf. fold hdr.
    destruct (Z.eqb_spec (hdr + o) 0); [lia|]. unfold bloblist_resize_rec, BLOBLIST_BLOB_ALIGN.
    fold u. rewrite Rs, wf_total0, (u32_small (new - n)) by lia. rewrite (ALIGN_up8 (new - n)) by lia. fold ex.
    rewrite (u32_small (u + ex)), ALIGN_up8, (up_id (u + ex) 8) by (done || lia).
    destruct (Z.ltb_spec new 0); [lia|]. rewrite (u32_small (u + ex)) by lia.
    destruct (Z.ltb_spec total (u + ex)); [lia|].
    rewrite (end_ofs_spec _ _ _ _ R) by (done || lia). rewrite Es, L2, Z.eqb_refl. cbn [negb].
    destruct (Z.ltb_spec 0 ex); [|lia].
    assert (B : forall k, 0 <= k -> k + 4 <= 8 -> get_le 4 (set_used_size (mem g) hdr (u + ex)) (hdr + o + k) =
            get_le 4 (mem g) (hdr + o + k)).
    { intros k Hk Hk8. unfold get_le, set_used_size, put_le.
      by rewrite sub_write_at_out by (rewrite ?length_le_bytes; lia). }
    pose proof (B 0 ltac:(lia) ltac:(lia)) as B0. rewrite Z.add_0_r in B0.
    unfold rec_hdr_size, r_tag_and_hdr_size, r_size in *. rewrite B0, Rh, B, Rs, (u32_small (new - n)) by lia.
    done. }
  rewrite E. eexists. split; [done|]. intros t T0 Tt Hl fuel. cbn [set_mem mem].
  assert (Bef : forall k c, 0 <= k -> 0 <= c -> k + c <= o + 4 -> k + c <= 8 \/ 12 <= k ->
    sub m' (hdr + k) c = sub (mem g) (hdr + k) c) by (intros; apply resized_before; lia).
  assert (By : forall k, 0 <= k < 8 -> byteat m' (hdr + k) = byteat (mem g) (hdr + k)).
  { intros k Hk. rewrite <- (Z.add_0_r (hdr + k)), <- (byteat_sub _ _ 1), <- (byteat_sub (mem g) _ 1) by lia.
    by rewrite Bef by lia. }
  assert (Eu : h_used_size m' hdr = u + ex) by (apply resized_used; lia).
  unfold bloblist_first_blob. rewrite Eu. unfold h_hdr_size in *. rewrite By, wf_hsize0 by lia.
  unfold sizeof_hdr. destruct (Z.leb_spec (u + ex) 24); [lia|].
  assert (El : zlen (data ++ replicate (Z.to_nat (new - n)) 0) = new)
    by (unfold zlen; rewrite length_app, length_replicate; unfold n, zlen in *; lia).
  apply (walk_then_stuck m' hdr 24 gap (l ++ [(tag, data ++ replicate (Z.to_nat (new - n)) 0)]));
    try done; try lia.
  - unfold h_align_log2 in *. rewrite By by lia. done.
  - apply layout_app. exists o. split.
    + apply (layout_frame (mem g)); [done|done| |done]. intros. apply Bef; lia.
    + cbn [layout]. split; [|unfold span, sizeof_rec; cbn [snd]; rewrite El; lia].
      unfold rec_at. cbn [fst snd]. rewrite El. split; [done|]. split; [|split].
      * unfold r_tag_and_hdr_size, get_le. rewrite Bef by lia. exact R2.
      * apply resized_size; lia.
      * apply resized_data; try lia. exact Rd.
  - unfold m'. rewrite (resized_beyond (mem g) hdr u o n new ex false) by (done || lia). done.
  - apply Forall_app_2; [done|by apply Forall_singleton].
Qed.

(** Growing a blob with others behind it writes past the list.  The block
    move of [bloblist_resize] takes the new end for the length: when the growth
    just fits, the bytes behind the end of the list's memory are overwritten. *)
Theorem bloblist_resize_overruns (g : gdata) (total : Z) (l1 : list blob) (tag : Z) (data : list Z)
    (l2 : list blob) (new : Z) :
  wf g total (l1 ++ (tag, data) :: l2) -> l2 <> [] -> Forall (fun c => fst c <> tag) l1 ->
  zlen data mod 8 = 0 -> zlen data < new < 2 ^ 29 ->
  let hdr := gd_bloblist g in
  let u := h_used_size (mem g) hdr in
  let ex := up new 8 - zlen data in
  u + ex = total -> hdr + total + ex <= Z.of_nat (length (mem g)) ->
  exists g', bloblist_resize g tag new = Some (0, g') /\
    sub (mem g') (hdr + total) ex = sub (mem g) (hdr + u) ex.
Proof.
  intros W Hl2 Hn Hd Hnew hdr u ex Hfit Hroom.
  destruct (resize_grow_run g total l1 tag data l2 new W Hn Hd Hnew) as (o & L1 & R & L2 & Ho & Hom & Hou & ->).
  - fold hdr. fold u. fold ex. lia.
  - fold hdr. fold u. fold ex. destruct l2; [done|]. simpl. lia.
  - fold hdr. fold u. fold ex. fold hdr in Hou. fold u in Hou. pose proof W as [].
    fold hdr in wf_hdr0, wf_addr0. destruct (up_spec new 8 ltac:(lia)) as [U1 U2].
    assert (0 <= zlen data) by (unfold zlen; lia).
    assert (En : nonempty l2 = true) by (destruct l2; done). rewrite En.
    eexists. split; [done|]. cbn [set_mem mem]. rewrite <- Hfit.
    replace (hdr + (u + ex)) with (hdr + u + ex) by lia.
    apply resized_after; try lia; done.
Qed.

(** ** A fresh list *)
Ltac new_side := rewrite ?length_write_at, ?length_le_bytes, ?length_replicate; cbn [length]; lia.
Ltac new_word := rewrite ?(fun l i bs k n => sub_write_at_out l i bs k n) by new_side.

Lemma le_of_written l off x n : 0 <= off -> off + Z.of_nat n <= Z.of_nat (length l) ->
  le_val (sub (write_at l off (le_bytes n x)) off (Z.of_nat n)) = x mod 256 ^ Z.of_nat n.
Proof. intros. by apply (get_put_le n l off x). Qed.

Ltac word_field :=
  repeat (rewrite sub_write_at_out by new_side); rewrite (le_of_written _ _ _ 4) by new_side;
  apply Z.mod_small.

Ltac byte_field :=
  repeat (rewrite byteat_write_at by new_side; rewrite decide_False by new_side);
  rewrite byteat_write_at by new_side; rewrite decide_True by new_side; rewrite Z.sub_diag.

(** A new list.  [bloblist_new] refuses a size below the header's with
    -ENOSPC and a misaligned address with -EFAULT, and otherwise leaves a
    well-formed empty list of the given size. *)
Theorem bloblist_new_wf (g : gdata) (addr size flags align_log2 : Z) :
  0 < addr -> addr + size <= Z.of_nat (length (mem g)) -> addr + size < 2 ^ 30 ->
  Forall is_u8 (mem g) -> align_log2 = 0 \/ align_log2 = 3 ->
  let '(ret, g') := bloblist_new g addr size flags align_log2 in
  if size <? 24 then ret = - ENOSPC /\ g' = g
  else if negb (addr mod 8 =? 0) then ret = - EFAULT /\ g' = g
  else ret = 0 /\ gd_bloblist g' = addr /\ wf g' size [].
Proof.
  intros Ha Hl Hb Hu Hal. unfold bloblist_new. change (sizeof_hdr) with 24.
  destruct (Z.ltb_spec size 24); [done|].
  change (BLOBLIST_ALIGN - 1) with (Z.ones 3). rewrite Z.land_ones by lia. change (2 ^ 3) with 8.
  destruct (Z.eqb_spec (addr mod 8) 0) as [Hm|]; cbn [negb]; [|done].
  split; [done|]. split; [done|].
  set (m3 := put_le 4 (put_le 4 (write_at (write_at (write_at (mem g) addr (replicate 24 0)) (addr + 5)
    [BLOBLIST_VERSION]) (addr + 6) [24]) (addr + 16) flags) addr BLOBLIST_MAGIC).
  assert (E24 : h_hdr_size m3 addr = 24).
  { unfold h_hdr_size, m3, put_le. by byte_field. }
  assert (L3 : length m3 = length (mem g)) by (unfold m3, put_le; by rewrite !length_write_at).
  assert (B3 : Forall is_u8 m3).
  { unfold m3, put_le. repeat apply Forall_write_at;
      first [apply le_bytes_u8 | done | apply Forall_replicate; unfold is_u8; lia
            |apply Forall_singleton; unfold is_u8, BLOBLIST_VERSION; lia]. }
  set (al := u8 _). assert (Eal : al = 3) by (unfold al; destruct Hal as [->| ->]; done).
  split; cbn [set_bloblist set_mem mem gd_bloblist]; try done.
  - unfold h_total_size, set_used_size, get_le, put_le. word_field. lia.
  - unfold set_used_size, put_le. by rewrite !length_write_at, L3.
  - unfold set_used_size, put_le. repeat apply Forall_write_at;
      first [apply le_bytes_u8 | done | apply Forall_replicate; unfold is_u8; lia
            |apply Forall_singleton; rewrite ?Eal; unfold is_u8, BLOBLIST_VERSION; lia].
  - unfold h_magic, set_used_size, get_le, put_le.
    repeat (rewrite sub_write_at_out by new_side). unfold m3, put_le at 1.
    rewrite (le_of_written _ _ _ 4) by (unfold put_le; new_side). done.
  - unfold h_version, set_used_size, put_le, m3, put_le. by byte_field.
  - unfold h_hdr_size, set_used_size, put_le.
    repeat (rewrite byteat_write_at by new_side; rewrite decide_False by new_side). exact E24.
  - unfold h_align_log2, set_used_size, put_le. by byte_field.
  - unfold h_used_size, set_used_size, get_le, put_le.
    assert (X : forall l1 l2 l3, l1 = l2 -> l2 <= l3 -> l1 <= l3) by lia.
    eapply X; [word_field; rewrite E24; lia|rewrite E24; lia].
  - cbn [layout]. unfold h_used_size, set_used_size, get_le, put_le. symmetry.
    change sizeof_hdr with 24. rewrite E24. word_field. lia.
Qed.

Lemma bloblist_new_wf_witness :
  let '(ret, g') := bloblist_new (mk_gd (replicate 64 0) 0 false) 16 40 0 0 in
  if 40 <? 24 then ret = - ENOSPC /\ g' = mk_gd (replicate 64 0) 0 false
  else if negb (16 mod 8 =? 0) then ret = - EFAULT /\ g' = mk_gd (replicate 64 0) 0 false
  else ret = 0 /\ gd_bloblist g' = 16 /\ wf g' 40 [].
Proof.
  apply (bloblist_new_wf (mk_gd (replicate 64 0) 0 false) 16 40 0 0);
    [lia|simpl; lia|lia|apply all_u8; reflexivity|by left].
Defined.

(** ** Instances *)
Definition ex_add (g : gdata) (tag size al : Z) : gdata :=
  match bloblist_add g tag size al with Some (_, g) => g | None => g end.
Definition ex_two : gdata := ex_add (ex_add ex_new 16 8 0) 17 16 0.
Definition ex_odd : gdata := ex_add ex_new 16 1 0.

Ltac wf_tac := split; try (vm_compute; reflexivity); try (vm_compute; discriminate);
  [apply all_u8; vm_compute; reflexivity|
   vm_compute; repeat split; try discriminate; try reflexivity].

Lemma ex_two_wf : wf ex_two 512 [(16, replicate 8 0); (17, replicate 16 0)].
Proof. wf_tac. Qed.

Lemma ex_odd_wf : wf ex_odd 512 [(16, replicate 1 0)].
Proof. wf_tac. Qed.

Lemma bloblist_resize_grows_witness :
  exists g', bloblist_resize ex_two 16 20 = Some (0, g') /\
    wf g' 512 ([] ++ (16, replicate 8 0 ++ replicate (Z.to_nat (20 - zlen (replicate 8 0))) 0) ::
               [(17, replicate 16 0)]).
Proof.
  apply (bloblist_resize_grows ex_two 512 [] 16 (replicate 8 0) [(17, replicate 16 0)] 20);
    [exact ex_two_wf|constructor|reflexivity|vm_compute; done|vm_compute; discriminate].
Defined.

Lemma bloblist_resize_odd_hangs_witness :
  exists g', bloblist_resize ex_odd 16 10 = Some (0, g') /\
    forall t, t <> 0 -> t <> 16 -> Forall (fun b => fst b <> t) ([] : list blob) ->
    forall fuel, find_loop fuel (mem g') 32 (bloblist_first_blob (mem g') 32) t = None.
Proof.
  apply (bloblist_resize_odd_hangs ex_odd 512 [] 16 (replicate 1 0) 10);
    [exact ex_odd_wf|constructor|vm_compute; done|vm_compute; reflexivity|vm_compute; discriminate
    |vm_compute; reflexivity].
Defined.

Lemma bloblist_add_overaligned_hangs_witness :
  exists g', bloblist_add ex_new 16 4 5 = Some (32 + 24 + 8, g') /\
    forall t, t <> 0 -> t <> 16 -> Forall (fun b => fst b <> t) ([] : list blob) ->
    forall fuel, find_loop fuel (mem g') 32 (bloblist_first_blob (mem g') 32) t = None.
Proof.
  apply (bloblist_add_overaligned_hangs ex_new 512 [] 16 4 5);
    [exact ex_new_wf|lia|lia|lia|vm_compute; reflexivity|vm_compute; reflexivity
    |vm_compute; discriminate|vm_compute; reflexivity].
Defined.

(** A list of 72 bytes that a growth by 8 fills. *)
Definition ex_tight : gdata :=
  let g := snd (bloblist_new (mk_gd (replicate 40 0 ++ replicate 100 7) 0 false) 8 72 0 0) in
  ex_add (ex_add g 16 8 0) 17 16 0.

Lemma bloblist_resize_overruns_witness :
  exists g', bloblist_resize ex_tight 16 16 = Some (0, g') /\
    sub (mem g') (8 + 72) 8 = sub (mem ex_tight) (8 + 64) 8.
Proof.
  apply (bloblist_resize_overruns ex_tight 72 [] 16 (replicate 8 0) [(17, replicate 16 0)] 16);
    [wf_tac|discriminate|constructor|reflexivity|vm_compute; done|vm_compute; reflexivity
    |vm_compute; discriminate].
Defined.

End Bloblist.
