(* ===== verification/Sort.v ===== *)
(** * The shell sort of the library (lib/qsort.c)

    The array is the list of its elements; the byte-wise exchange of [width]
    bytes is the exchange of two elements.  The gap is kept in elements: the
    gaps 1, 4, 13, ... times the width are divided exactly by
    [(wgap - width)/3].  Every loop has fuel; [None] is a loop out of fuel or an
    access outside the array. *)

From stdpp Require Import sorting.
From S2P Require Import Prelude.

Module Sort.
Section Sort.
Context {A : Type} (comp : A -> A -> Z).

(** wgap = 3 * wgap + 1 while wgap < (nel - 1) / 3. *)
Fixpoint gap_up (fuel : nat) (gap limit : nat) : option nat :=
  match fuel with
  | O => None
  | S f =>
      let gap := (3 * gap + 1)%nat in
      if (gap <? limit)%nat then gap_up f gap limit else Some gap
  end.

Definition exchange (l : list A) (a b : nat) : list A :=
  match l !! a, l !! b with
  | Some x, Some y => <[b := x]> (<[a := y]> l)
  | _, _ => l
  end.

(** The innermost loop: the element at [j] goes down by [gap]. *)
Fixpoint sift (fuel : nat) (l : list A) (j gap : nat) : option (list A) :=
  match fuel with
  | O => None
  | S f =>
      let j := (j - gap)%nat in
      a ← l !! j;
      b ← l !! (j + gap)%nat;
      if comp a b <=? 0 then Some l
      else
        let l := exchange l j (j + gap) in
        if (gap <=? j)%nat then sift f l j gap else Some l
  end.

(** do { ... i += width; } while (i < nel) from i = gap on; [gap < nel]. *)
Fixpoint pass (fuel : nat) (l : list A) (i gap : nat) : option (list A) :=
  match fuel with
  | O => None
  | S f =>
      l ← sift (S i) l i gap;
      let i := S i in
      if (i <? length l)%nat then pass f l i gap else Some l
  end.

Fixpoint gaps (fuel : nat) (l : list A) (gap : nat) : option (list A) :=
  match fuel with
  | O => None
  | S f =>
      l ← pass (length l) l gap gap;
      let gap := ((gap - 1) / 3)%nat in
      if (gap =? 0)%nat then Some l else gaps f l gap
  end.

Definition qsort (l : list A) : option (list A) :=
  let nel := length l in
  if (1 <? nel)%nat then
    gap ← gap_up nel 0 ((nel - 1) / 3);
    gaps gap l gap
  else Some l.

(** ** Every loop ends, with exchanges only *)
Lemma exchange_perm l a b : exchange l a b ≡ₚ l.
Proof.
  unfold exchange. destruct (l !! a) as [x|] eqn:Ea; [|done]. destruct (l !! b) as [y|] eqn:Eb; [|done].
  by apply Permutation_insert_swap.
Qed.

Lemma sift_ends fuel l j gap : (j < fuel)%nat -> (0 < gap <= j)%nat -> (j < length l)%nat ->
  exists l', sift fuel l j gap = Some l' /\ l' ≡ₚ l.
Proof.
  revert l j. induction fuel as [|f IH]; intros l j Hf Hg Hl; [lia|]. cbn [sift].
  destruct (lookup_lt_is_Some_2 l (j - gap)%nat ltac:(lia)) as [a ->].
  destruct (lookup_lt_is_Some_2 l (j - gap + gap)%nat ltac:(lia)) as [b ->]. simpl.
  destruct (comp a b <=? 0); [by eauto|].
  pose proof (exchange_perm l (j - gap) (j - gap + gap)) as P.
  destruct (Nat.leb_spec gap (j - gap)); [|by eauto].
  destruct (IH (exchange l (j - gap) (j - gap + gap)) (j - gap)%nat) as (l' & -> & P');
    [lia|lia|rewrite (Permutation_length P); lia|].
  exists l'. split; [done|]. by etrans.
Qed.

Lemma pass_ends fuel l i gap : (length l <= i + fuel)%nat -> (0 < gap <= i)%nat -> (i < length l)%nat ->
  exists l', pass fuel l i gap = Some l' /\ l' ≡ₚ l.
Proof.
  revert l i. induction fuel as [|f IH]; intros l i Hf Hg Hl; [lia|]. cbn [pass].
  destruct (sift_ends (S i) l i gap) as (l1 & -> & P1); [lia..|]. simpl.
  pose proof (Permutation_length P1). destruct (Nat.ltb_spec (S i) (length l1)); [|by eauto].
  destruct (IH l1 (S i)) as (l2 & -> & P2); [lia..|]. exists l2. split; [done|]. by etrans.
Qed.

(** ** The pass of gap 1 is an insertion sort *)
Context (comp_trans : forall a b c, comp a b <= 0 -> comp b c <= 0 -> comp a c <= 0)
  (comp_total : forall a b, comp a b > 0 -> comp b a <= 0).

Definition le_comp (a b : A) : Prop := comp a b <= 0.
Definition sorted (l : list A) : Prop := StronglySorted le_comp l.

(** The element goes down past those greater than it. *)
Lemma sift_one fuel pre x post : (length pre < fuel)%nat -> sorted pre -> pre <> [] ->
  exists p1 p2, pre = p1 ++ p2 /\
    sift fuel (pre ++ x :: post) (length pre) 1 = Some (p1 ++ x :: p2 ++ post) /\
    Forall (le_comp x) p2 /\ Forall (fun y => le_comp y x) p1.
Proof.
  revert fuel x post. induction pre as [|y pre IH] using rev_ind; intros fuel x post Hf Hs Hne; [done|].
  destruct fuel as [|f]; [lia|]. cbn [sift]. rewrite length_app in *. cbn [length] in *.
  replace (length pre + 1 - 1)%nat with (length pre) by lia.
  rewrite <- app_assoc. cbn [app].
  assert (E0 : (pre ++ y :: x :: post) !! length pre = Some y) by (by apply list_lookup_middle).
  assert (E1 : (pre ++ y :: x :: post) !! (length pre + 1)%nat = Some x).
  { rewrite lookup_app_r by lia. by replace (length pre + 1 - length pre)%nat with 1%nat by lia. }
  rewrite E0, E1. cbn [mbind option_bind]. destruct (Z.leb_spec (comp y x) 0) as [Hle|Hgt].
  - exists (pre ++ [y]), []. rewrite app_nil_r. split; [done|]. split; [by rewrite <- app_assoc|].
    split; [constructor|]. apply Forall_app_2; [|by apply Forall_singleton].
    apply Forall_forall. intros z Hz. apply (comp_trans z y x); [|done].
    unfold sorted in Hs. eapply (StronglySorted_app_1_elem_of le_comp); [exact Hs|done|].
    by apply list_elem_of_singleton.
  - assert (Ex : exchange (pre ++ y :: x :: post) (length pre) (length pre + 1) = pre ++ x :: y :: post).
    { unfold exchange. rewrite E0, E1. rewrite insert_app_r_alt, Nat.sub_diag by lia.
      simpl. rewrite insert_app_r_alt by lia. by replace (length pre + 1 - length pre)%nat with 1%nat by lia. }
    rewrite Ex. destruct pre as [|z pre'].
    + simpl. exists [], [y]. split; [done|]. split; [done|]. split; [|constructor].
      apply Forall_singleton. apply comp_total. lia.
    + set (pre := z :: pre') in *. assert (Hl : (1 <=? length pre)%nat = true) by (apply Nat.leb_le; simpl; lia).
      rewrite Hl. destruct (IH f x (y :: post)) as (p1 & p2 & Ep & Es & H1 & H2); [lia| |done|].
      { eapply StronglySorted_app_1_l; exact Hs. }
      exists p1, (p2 ++ [y]). rewrite Es. split; [by rewrite Ep, app_assoc|].
      split; [by rewrite <- app_assoc|]. split; [|done].
      apply Forall_app_2; [done|]. apply Forall_singleton, comp_total. lia.
Qed.

Lemma insert_sorted p1 x p2 : sorted (p1 ++ p2) -> Forall (le_comp x) p2 ->
  Forall (fun y => le_comp y x) p1 -> sorted (p1 ++ x :: p2).
Proof.
  intros Hs H2 H1. unfold sorted in *. apply StronglySorted_app in Hs as (Hc & S1 & S2).
  apply StronglySorted_app_2; [|done|by constructor].
  intros a b Ha Hb. apply elem_of_cons in Hb as [->|Hb]; [|by apply Hc].
  by apply (proj1 (Forall_forall _ _) H1).
Qed.

Lemma pass_sorts fuel l i : (length l <= i + fuel)%nat -> (1 <= i < length l)%nat ->
  sorted (take i l) ->
  exists l', pass fuel l i 1 = Some l' /\ l' ≡ₚ l /\ sorted l'.
Proof.
  revert l i. induction fuel as [|f IH]; intros l i Hf Hi Hs; [lia|]. cbn [pass].
  destruct (drop i l) as [|x post] eqn:Ed; [apply (f_equal length) in Ed; rewrite length_drop in Ed; simpl in Ed; lia|].
  assert (El : l = take i l ++ x :: post) by (rewrite <- Ed; by rewrite take_drop).
  assert (Lt : length (take i l) = i) by (rewrite length_take; lia).
  destruct (sift_one (S i) (take i l) x post) as (p1 & p2 & Ep & Es & H2 & H1);
    [lia|done|intros E; rewrite E in Lt; simpl in Lt; lia|].
  rewrite Lt, <- El in Es. rewrite Es. cbn [mbind option_bind]. rewrite Ep in Lt, Hs, El.
  rewrite length_app in Lt.
  assert (P : p1 ++ x :: p2 ++ post ≡ₚ l) by (rewrite El, <- app_assoc; by rewrite <- (Permutation_middle p2)).
  pose proof (Permutation_length P) as Hl.
  assert (S' : sorted (take (S i) (p1 ++ x :: p2 ++ post))).
  { replace (p1 ++ x :: p2 ++ post) with ((p1 ++ x :: p2) ++ post) by (by rewrite <- app_assoc).
    rewrite take_app_le by (rewrite length_app; simpl; lia).
    rewrite take_ge by (rewrite length_app; simpl; lia). by apply insert_sorted. }
  destruct (Nat.ltb_spec (S i) (length (p1 ++ x :: p2 ++ post))).
  - destruct (IH (p1 ++ x :: p2 ++ post) (S i)) as (l' & -> & P' & Hs'); [lia|lia|done|].
    exists l'. split; [done|]. split; [by etrans|done].
  - rewrite take_ge in S' by lia. eauto.
Qed.

(** The gaps 1, 4, 13, ... *)
Inductive shell_gap : nat -> Prop :=
  | shell_gap_1 : shell_gap 1
  | shell_gap_next g : shell_gap g -> shell_gap (3 * g + 1).

(** The first gap is one of them and below the number of elements. *)
Lemma gap_up_finds fuel gap n : (gap = 0 /\ 1 < n \/ shell_gap gap /\ gap < (n - 1) / 3)%nat ->
  (n <= gap + fuel)%nat ->
  exists g, gap_up fuel gap ((n - 1) / 3) = Some g /\ shell_gap g /\ (g < n)%nat.
Proof.
  pose proof (Nat.Div0.mul_div_le (n - 1) 3) as D.
  revert gap. induction fuel as [|f IH]; intros gap Hg Hf; [lia|]. cbn [gap_up].
  assert (shell_gap (3 * gap + 1)) by (destruct Hg as [[-> _]|[Hg _]]; [apply shell_gap_1|by apply shell_gap_next]).
  destruct (Nat.ltb_spec (3 * gap + 1) ((n - 1) / 3)); [apply IH; [by right|lia]|].
  eexists. split; [done|]. split; [done|]. lia.
Qed.

Lemma gaps_sort fuel l gap : shell_gap gap -> (gap <= fuel)%nat -> (gap < length l)%nat ->
  exists l', gaps fuel l gap = Some l' /\ l' ≡ₚ l /\ sorted l'.
Proof.
  intros Hs. revert fuel l. induction Hs as [|g Hs IH]; intros fuel l Hf Hl;
    (destruct fuel as [|f]; [lia|]); cbn [gaps].
  - destruct (pass_sorts (length l) l 1) as (l' & -> & P & S'); [lia|lia| |].
    { destruct l as [|x l]; [simpl in Hl; lia|]. simpl. rewrite take_0. repeat constructor. }
    simpl. eauto.
  - destruct (pass_ends (length l) l (3 * g + 1) (3 * g + 1)) as (l1 & -> & P1); [lia..|].
    cbn [mbind option_bind]. replace ((3 * g + 1 - 1) / 3)%nat with g
      by (replace (3 * g + 1 - 1)%nat with (g * 3)%nat by lia; by rewrite Nat.div_mul).
    assert (1 <= g)%nat by (destruct Hs; lia). pose proof (Permutation_length P1).
    destruct (Nat.eqb_spec g 0); [lia|].
    destruct (IH f l1) as (l' & -> & P' & S'); [lia|lia|].
    exists l'. split; [done|]. split; [by etrans|done].
Qed.

Lemma qsort_ends (l : list A) : exists l', qsort l = Some l' /\ l' ≡ₚ l /\ sorted l'.
Proof.
  unfold qsort. destruct (Nat.ltb_spec 1 (length l)) as [H|H].
  - destruct (gap_up_finds (length l) 0 (length l)) as (g & -> & Hs & Hg); [by left|lia|].
    cbn [mbind option_bind]. by apply gaps_sort.
  - eexists. split; [done|]. split; [done|]. destruct l as [|x [|y l]]; [constructor| |simpl in H; lia].
    unfold sorted. repeat constructor.
Qed.

(** C38: sorting.  Every loop of [qsort] ends without an access outside the array, and the
    array is then a sorted permutation of what it was, for every comparison function that is
    a total preorder. *)
Theorem qsort_sorts (l : list A) : exists l', qsort l = Some l' /\ l' ≡ₚ l /\ sorted l'.
Proof. apply qsort_ends. Qed.

End Sort.

Lemma qsort_sorts_witness :
  exists l', qsort Z.sub [5; 3; 9; 1; 7; 2] = Some l' /\ l' ≡ₚ [5; 3; 9; 1; 7; 2] /\
    sorted Z.sub l'.
Proof. apply (qsort_sorts Z.sub); lia. Defined.

Example qsort_runs : qsort Z.sub [5; 3; 9; 1; 7; 2] = Some [1; 2; 3; 5; 7; 9].
Proof. reflexivity. Qed.
End Sort.
