(* ===== verification/ListSort.v ===== *)
(** * Sorting linked lists (lib/list_sort.c)

    A list is the list of its elements; relinking an element is moving it.  The
    array [part] holds sorted partial lists, the empty list standing for NULL.
    The result is sorted, holds the same elements and keeps equal ones in
    order. *)

From stdpp Require Import sorting.
From S2P Require Import Prelude.

Module ListSort.

Definition MAX_LIST_LENGTH_BITS : nat := 20.

Section ListSort.
Context {A : Type} (cmp : A -> A -> Z).

Fixpoint merge (a : list A) : list A -> list A :=
  match a with
  | [] => fun b => b
  | x :: a' =>
    fix merge_a (b : list A) : list A :=
      match b with
      | [] => a
      | y :: b' => if cmp x y <=? 0 then x :: merge a' b else y :: merge_a b'
      end
  end.

(** The loop over the levels that are taken: the array, the level and [cur]. *)
Fixpoint levels (n : nat) (part : list (list A)) (lev : nat) (cur : list A)
    : list (list A) * nat * list A :=
  match n, part !! lev with
  | S n, Some (x :: p) => levels n (<[lev := []]> part) (S lev) (merge (x :: p) cur)
  | _, _ => (part, lev, cur)
  end.

(** One element; the last slot of [part] is a sentinel. *)
Definition sort_step (s : list (list A) * nat) (x : A) : list (list A) * nat :=
  let '(part, max_lev) := s in
  let '(part, lev, cur) := levels (S MAX_LIST_LENGTH_BITS) part 0 [x] in
  let '(lev, max_lev) :=
    if (max_lev <? lev)%nat then
      let lev := if (MAX_LIST_LENGTH_BITS <=? lev)%nat then (lev - 1)%nat else lev in (lev, lev)
    else (lev, max_lev) in
  (<[lev := cur]> part, max_lev).

(** [merge_and_restore_back_links] merges like [merge]; it reads the element
    behind the last one taken, so [None] when both lists are empty. *)
Definition merge_and_restore_back_links (a b : list A) : option (list A) :=
  match a, b with [], [] => None | _, _ => Some (merge a b) end.

Definition list_sort (head : list A) : option (list A) :=
  match head with
  | [] => Some []
  | _ =>
    let '(part, max_lev) := fold_left sort_step head (replicate (S MAX_LIST_LENGTH_BITS) [], O) in
    let list := fold_left (fun list lev => match part !! lev with
                                           | Some (x :: p) => merge (x :: p) list
                                           | _ => list
                                           end) (seq 0 max_lev) [] in
    merge_and_restore_back_links (default [] (part !! max_lev)) list
  end.

(** ** Correctness *)
Definition le (x y : A) : Prop := cmp x y <= 0.
Definition eqv (x y : A) : bool := (cmp x y <=? 0) && (cmp y x <=? 0).
Hypothesis le_total : forall x y, le x y \/ le y x.
Hypothesis le_trans : forall x y z, le x y -> le y z -> le x z.

Definition sorted (l : list A) : Prop := StronglySorted le l.

(** The same elements, equal ones in the same order. *)
Definition same (l l' : list A) : Prop :=
  l ≡ₚ l' /\ forall x, List.filter (eqv x) l = List.filter (eqv x) l'.

Lemma same_refl l : same l l.
Proof using Type. done. Qed.

Lemma same_trans l1 l2 l3 : same l1 l2 -> same l2 l3 -> same l1 l3.
Proof using Type. intros [P1 F1] [P2 F2]. split; [by rewrite P1|]. intros x. by rewrite F1. Qed.

Lemma same_app l1 l1' l2 l2' : same l1 l1' -> same l2 l2' -> same (l1 ++ l2) (l1' ++ l2').
Proof using Type. intros [P1 F1] [P2 F2]. split; [by rewrite P1, P2|]. intros x. by rewrite !List.filter_app, F1, F2. Qed.

Lemma merge_nil a : merge a [] = a.
Proof using Type. by destruct a. Qed.

Lemma merge_cons x a y b : merge (x :: a) (y :: b) =
  if cmp x y <=? 0 then x :: merge a (y :: b) else y :: merge (x :: a) b.
Proof using Type. done. Qed.

Lemma merge_perm a b : merge a b ≡ₚ a ++ b.
Proof using Type.
  revert b. induction a as [|x a IHa]; intros b; [done|]. induction b as [|y b IHb]; [by rewrite merge_nil, app_nil_r|].
  rewrite merge_cons. destruct (cmp x y <=? 0).
  - rewrite IHa. done.
  - rewrite IHb. simpl. rewrite <- Permutation_middle. apply perm_swap.
Qed.

Lemma merge_sorted a b : sorted a -> sorted b -> sorted (merge a b).
Proof using le_total le_trans.
  unfold sorted. revert b. induction a as [|x a IHa]; intros b Sa Sb; [done|].
  induction b as [|y b IHb]; [by rewrite merge_nil|]. rewrite merge_cons.
  pose proof Sa as [Sa' Fa]%StronglySorted_inv. pose proof Sb as [Sb' Fb]%StronglySorted_inv.
  destruct (cmp x y <=? 0) eqn:E.
  - constructor; [by apply IHa|]. rewrite merge_perm, Forall_app. split; [done|]. constructor; [unfold le; lia|].
    eapply Forall_impl; [exact Fb|]. intros z Hz. apply (le_trans x y z); [unfold le; lia|done].
  - constructor; [by apply IHb|]. rewrite merge_perm, Forall_app.
    assert (L : le y x) by (destruct (le_total x y); [unfold le in *; lia|done]).
    split; [|done]. constructor; [done|]. eapply Forall_impl; [exact Fa|]. intros z Hz. by apply (le_trans y x z).
Qed.

(** An element that is smaller than one is equal to nothing equal to it. *)
Lemma filter_above z y l : Forall (le z) l -> (cmp z y <=? 0) = false -> List.filter (eqv y) l = [].
Proof using le_trans.
  intros F E. induction F as [|x l Hx Hl IH]; [done|]. simpl. rewrite IH. unfold eqv.
  destruct (cmp y x <=? 0) eqn:E1; [|done]. destruct (cmp x y <=? 0) eqn:E2; [|done]. exfalso.
  assert (le z y) by (apply (le_trans z x y); unfold le in *; [done|lia]). unfold le in *. lia.
Qed.

Lemma merge_filter x a b : sorted a -> List.filter (eqv x) (merge a b) = List.filter (eqv x) (a ++ b).
Proof using le_total le_trans.
  unfold sorted. revert b. induction a as [|y a IHa]; intros b Sa; [done|].
  pose proof Sa as [Sa' Fa]%StronglySorted_inv.
  induction b as [|z b IHb]; [by rewrite merge_nil, app_nil_r|]. rewrite merge_cons. destruct (cmp y z <=? 0) eqn:E.
  - simpl. rewrite (IHa (z :: b) Sa'). done.
  - change (List.filter (eqv x) (z :: merge (y :: a) b)) with
      (if eqv x z then z :: List.filter (eqv x) (merge (y :: a) b) else List.filter (eqv x) (merge (y :: a) b)).
    rewrite IHb, !List.filter_app. destruct (eqv x z) eqn:Ez; [|simpl; rewrite Ez; done].
    assert (N : List.filter (eqv x) (y :: a) = []).
    { unfold eqv in Ez. apply andb_true_iff in Ez as [Z1 Z2].
      apply (filter_above y x); [constructor; [destruct (le_total y y); done|done]|].
      destruct (cmp y x <=? 0) eqn:Q; [|done]. exfalso.
      assert (le y z) by (apply (le_trans y x z); unfold le; lia). unfold le in *. lia. }
    rewrite N. simpl. by rewrite Ez.
Qed.

Lemma merge_same a b : sorted a -> same (merge a b) (a ++ b).
Proof using le_total le_trans. intros S. split; [apply merge_perm|]. intros x. by apply merge_filter. Qed.

(** The elements of the partial lists, those of higher levels first. *)
Definition flat (part : list (list A)) : list A := concat (rev part).

Lemma flat_insert part lev p q : part !! lev = Some p ->
  exists l1 l2, flat part = l1 ++ p ++ l2 /\ flat (<[lev := q]> part) = l1 ++ q ++ l2 /\
    l2 = flat (take lev part).
Proof using Type.
  intros E. exists (concat (rev (drop (S lev) part))), (flat (take lev part)). split_and!; [| |done].
  - rewrite <- (take_drop_middle part lev p E) at 1. unfold flat.
    rewrite rev_app_distr, concat_app. simpl. rewrite concat_app. simpl. by rewrite app_nil_r, <- app_assoc.
  - rewrite insert_take_drop by (by eapply lookup_lt_Some). unfold flat.
    rewrite rev_app_distr, concat_app. simpl. rewrite concat_app. simpl. by rewrite app_nil_r, <- app_assoc.
Qed.

Lemma flat_empty n (part : list (list A)) : Forall (eq []) (take n part) -> flat (take n part) = [].
Proof using Type.
  unfold flat. intros F. apply Forall_rev in F. induction F as [|p l <- Hl IH]; [done|]. exact IH.
Qed.

Record part_ok (part : list (list A)) : Prop := {
  po_len : length part = S MAX_LIST_LENGTH_BITS;
  po_sorted : Forall sorted part;
  po_last : part !! MAX_LIST_LENGTH_BITS = Some [] }.

Lemma levels_spec n part lev cur : part_ok part -> sorted cur -> cur <> [] ->
  Forall (eq []) (take lev part) -> (n + lev = S MAX_LIST_LENGTH_BITS)%nat -> (lev <= MAX_LIST_LENGTH_BITS)%nat ->
  let '(part', lev', cur') := levels n part lev cur in
  part_ok part' /\ sorted cur' /\ cur' <> [] /\ Forall (eq []) (take lev' part') /\
  (lev <= lev' <= MAX_LIST_LENGTH_BITS)%nat /\ part' !! lev' = Some [] /\
  (forall k, (lev' <= k)%nat -> part' !! k = part !! k) /\ same (flat part' ++ cur') (flat part ++ cur).
Proof using le_total le_trans.
  revert part lev cur. induction n as [|n IH]; intros part lev cur P Sc Nc Z Hn Hl; [unfold MAX_LIST_LENGTH_BITS in *; lia|].
  cbn [levels]. pose proof P as [Lp Sp La].
  destruct (lookup_lt_is_Some_2 part lev ltac:(lia)) as [p Ep]. rewrite Ep. destruct p as [|x p].
  { split_and!; try done; lia. }
  assert (Hlt : (lev < MAX_LIST_LENGTH_BITS)%nat).
  { destruct (decide (lev = MAX_LIST_LENGTH_BITS)) as [->|]; [congruence|lia]. }
  assert (Ss : sorted (x :: p)) by (by apply (Forall_lookup_1 _ _ _ _ Sp Ep)).
  specialize (IH (<[lev := []]> part) (S lev) (merge (x :: p) cur)).
  destruct (levels n (<[lev := []]> part) (S lev) (merge (x :: p) cur)) as [[part' lev'] cur'].
  destruct IH as (P' & S' & N' & Z' & L' & E' & K' & Sm').
  - split; [by rewrite length_insert| |].
    + apply Forall_insert; [done|constructor].
    + rewrite list_lookup_insert_ne by lia. done.
  - by apply merge_sorted.
  - intros Q. pose proof (merge_perm (x :: p) cur) as Pm. rewrite Q in Pm. by apply Permutation_nil in Pm.
  - rewrite (take_S_r _ _ []) by (rewrite list_lookup_insert_eq by lia; done).
    rewrite take_insert_ge by lia. apply Forall_app. split; [done|by constructor].
  - lia.
  - lia.
  - split_and!; try done; [lia..| |].
    + intros k Hk. rewrite K' by done. rewrite list_lookup_insert_ne by lia. done.
    + eapply same_trans; [exact Sm'|]. destruct (flat_insert part lev (x :: p) [] Ep) as (l1 & l2 & E1 & E2 & E3).
      rewrite (flat_empty lev part Z) in E3. subst l2. rewrite E1, E2, !app_nil_r, <- app_assoc.
      apply same_app; [apply same_refl|]. apply (merge_same (x :: p) cur Ss).
Qed.

(** What holds between the elements: no partial list lies above [max_lev], whose
    own one is not empty once an element is there. *)
Definition state_ok (s : list (list A) * nat) (done : list A) : Prop :=
  part_ok s.1 /\ (s.2 < MAX_LIST_LENGTH_BITS)%nat /\
  (forall k p, (s.2 < k)%nat -> s.1 !! k = Some p -> p = []) /\
  (if decide (done = []) then s.2 = O else s.1 !! s.2 <> Some []) /\ same (flat s.1) done.

Lemma flat_above part n : (n < length part)%nat -> (forall k p, (n < k)%nat -> part !! k = Some p -> p = []) ->
  flat part = default [] (part !! n) ++ flat (take n part).
Proof using Type.
  intros L Z. destruct (lookup_lt_is_Some_2 part n L) as [p Ep]. rewrite Ep. cbn [from_option id].
  rewrite <- (take_drop_middle part n p Ep) at 1. unfold flat.
  rewrite rev_app_distr, concat_app. simpl. rewrite concat_app. simpl. rewrite app_nil_r.
  enough (Q : concat (rev (drop (S n) part)) = []) by (rewrite Q; done).
  assert (F : Forall (eq []) (drop (S n) part)).
  { apply Forall_lookup. intros k x Hk. rewrite lookup_drop in Hk. symmetry. apply (Z (S n + k)%nat); [lia|done]. }
  apply Forall_rev in F. induction F as [|x l <- Hl IH]; [done|exact IH].
Qed.

(** [cur] is stored in an empty slot with nothing below. *)
Lemma store_ok part cur done x k ml : part_ok part -> sorted cur -> cur <> [] ->
  same (flat part ++ cur) (done ++ [x]) -> (k <= ml < MAX_LIST_LENGTH_BITS)%nat ->
  part !! k = Some [] -> Forall (eq []) (take k part) ->
  (forall j p, (ml < j)%nat -> part !! j = Some p -> p = []) ->
  (k = ml \/ part !! ml <> Some []) -> state_ok (<[k := cur]> part, ml) (done ++ [x]).
Proof using Type.
  intros [Lp Sp La] Sc Nc Tot Hml Ek Fk Hj Hne. unfold state_ok. cbn [fst snd]. split; [|split; [lia|split_and!]].
  - split; [by rewrite length_insert|by apply Forall_insert|]. rewrite list_lookup_insert_ne by lia. done.
  - intros j p Hjk. rewrite list_lookup_insert_ne by lia. by apply Hj.
  - rewrite decide_False by (by destruct done). destruct (decide (k = ml)) as [->|]; [rewrite list_lookup_insert_eq by lia; congruence|].
    rewrite list_lookup_insert_ne by lia. destruct Hne; [lia|done].
  - destruct (flat_insert part k [] cur Ek) as (l1 & l2 & E1 & E2 & E3). rewrite flat_empty in E3 by done. subst l2.
    rewrite E2, app_nil_r. rewrite E1 in Tot. simpl in Tot. by rewrite app_nil_r in Tot.
Qed.

Lemma sort_step_ok s done x : state_ok s done -> state_ok (sort_step s x) (done ++ [x]).
Proof using le_total le_trans.
  destruct s as [part max_lev]. intros (P & Hm & Hz & Hn & Sm). cbn [fst snd] in *. unfold sort_step.
  assert (S1 : sorted [x]) by (by repeat constructor).
  pose proof (levels_spec (S MAX_LIST_LENGTH_BITS) part 0 [x] P S1 ltac:(done) ltac:(constructor) ltac:(lia) ltac:(lia)) as L.
  destruct (levels _ part 0 [x]) as [[part' lev] cur]. destruct L as (P' & Sc & Nc & Z & Hl & E & K & Sm').
  assert (Tot : same (flat part' ++ cur) (done ++ [x])).
  { eapply same_trans; [exact Sm'|]. by apply same_app. }
  destruct (max_lev <? lev)%nat eqn:B.
  - apply Nat.ltb_lt in B. destruct (MAX_LIST_LENGTH_BITS <=? lev)%nat eqn:B2.
    + apply Nat.leb_le in B2. assert (lev = MAX_LIST_LENGTH_BITS) as -> by lia.
      assert (Em : part' !! (MAX_LIST_LENGTH_BITS - 1)%nat = Some []).
      { destruct (lookup_lt_is_Some_2 (take MAX_LIST_LENGTH_BITS part') (MAX_LIST_LENGTH_BITS - 1)) as [p Hp].
        { rewrite length_take, (po_len _ P'). unfold MAX_LIST_LENGTH_BITS. lia. }
        pose proof (Forall_lookup_1 _ _ _ _ Z Hp) as <-. rewrite lookup_take_lt in Hp by (unfold MAX_LIST_LENGTH_BITS; lia). done. }
      apply (store_ok _ _ _ _ _ _ P' Sc Nc Tot); try done; try (unfold MAX_LIST_LENGTH_BITS in *; lia).
      * replace (MAX_LIST_LENGTH_BITS - 1)%nat with ((MAX_LIST_LENGTH_BITS - 1) `min` MAX_LIST_LENGTH_BITS)%nat
          by (unfold MAX_LIST_LENGTH_BITS; lia). rewrite <- take_take. by apply Forall_take.
      * intros j p Hj Hp. destruct (decide (j = MAX_LIST_LENGTH_BITS)) as [->|]; [congruence|].
        apply lookup_lt_Some in Hp. rewrite (po_len _ P') in Hp. unfold MAX_LIST_LENGTH_BITS in *. lia.
    + apply Nat.leb_gt in B2. apply (store_ok _ _ _ _ _ _ P' Sc Nc Tot); try done; try lia.
      intros j p Hj Hp. rewrite K in Hp by lia. apply (Hz j p); [lia|done].
  - apply Nat.ltb_ge in B. apply (store_ok _ _ _ _ _ _ P' Sc Nc Tot); try done; try lia.
    + intros j p Hj Hp. rewrite K in Hp by lia. by apply (Hz j p).
    + destruct (decide (lev = max_lev)); [by left|right]. rewrite K by lia.
      destruct (decide (done = [])); [lia|done].
Qed.

Lemma fold_ok l s done : state_ok s done -> state_ok (fold_left sort_step l s) (done ++ l).
Proof using le_total le_trans.
  revert s done. induction l as [|x l IH]; intros s done H; [by rewrite app_nil_r|].
  cbn [fold_left]. replace (done ++ x :: l) with ((done ++ [x]) ++ l) by (by rewrite <- app_assoc).
  apply IH. by apply sort_step_ok.
Qed.

(** The lists below a level, merged from the lowest up. *)
Lemma collect_ok part n : Forall sorted part -> (n <= length part)%nat ->
  let l := fold_left (fun list lev => match part !! lev with
                                      | Some (x :: p) => merge (x :: p) list
                                      | _ => list
                                      end) (seq 0 n) [] in
  sorted l /\ same l (flat (take n part)).
Proof using le_total le_trans.
  intros Sp. induction n as [|n IH]; intros L; [split; [constructor|apply same_refl]|].
  destruct (lookup_lt_is_Some_2 part n ltac:(lia)) as [p Ep]. cbv zeta in *. destruct (IH ltac:(lia)) as [Sl Fl].
  rewrite seq_S, fold_left_app. cbn [fold_left Nat.add]. set (l := fold_left _ (seq 0 n) []) in *. rewrite Ep.
  assert (Q : flat (take (S n) part) = p ++ flat (take n part)).
  { rewrite (take_S_r _ _ p Ep). unfold flat. by rewrite rev_app_distr. }
  rewrite Q. assert (Ss : sorted p) by (by apply (Forall_lookup_1 _ _ _ _ Sp Ep)).
  destruct p as [|x p]; [done|]. split; [by apply merge_sorted|].
  eapply same_trans; [by apply merge_same|]. apply same_app; [apply same_refl|done].
Qed.

(** Sorting a list by a total preorder. *)
Lemma list_sort_spec l : exists l', list_sort l = Some l' /\ sorted l' /\ same l' l.
Proof using le_total le_trans.
  unfold list_sort. destruct l as [|x l]; [exists []; split_and!; try done; constructor|].
  assert (I : state_ok (replicate (S MAX_LIST_LENGTH_BITS) [], O) []).
  { split; [|split; [unfold MAX_LIST_LENGTH_BITS; simpl; lia|split; [|split; [done|apply same_refl]]]].
    - split; [done| |done]. apply Forall_replicate. constructor.
    - intros k p _ Hp. by apply lookup_replicate in Hp as [-> _]. }
  pose proof (fold_ok (x :: l) _ [] I) as S. cbn [app] in S.
  destruct (fold_left sort_step (x :: l) _) as [part max_lev]. destruct S as (P & Hm & Hz & Hn & Sm). cbn [fst snd] in *.
  rewrite decide_False in Hn by done. pose proof P as [Lp Sp La].
  destruct (collect_ok part max_lev Sp ltac:(lia)) as [Sl Fl]. cbv zeta in Sl, Fl. set (lst := fold_left _ _ _) in *.
  destruct (lookup_lt_is_Some_2 part max_lev ltac:(lia)) as [p Ep]. rewrite Ep in *. cbn [from_option id].
  assert (Ss : sorted p) by (by apply (Forall_lookup_1 _ _ _ _ Sp Ep)).
  exists (merge p lst). split; [by destruct p|]. split; [by apply merge_sorted|].
  eapply same_trans; [by apply merge_same|]. eapply same_trans; [|exact Sm].
  rewrite (flat_above part max_lev) by (lia || done). rewrite Ep. cbn [from_option id].
  apply same_app; [apply same_refl|done].
Qed.


(** C37: for a comparison that is a total preorder, sorting a list ends without
    reading behind its end, gives the same elements in ascending order, and keeps
    elements that compare equal in their order. *)
Theorem list_sort_stable l : exists l', list_sort l = Some l' /\ StronglySorted le l' /\ l' ≡ₚ l /\
  forall x, List.filter (eqv x) l' = List.filter (eqv x) l.
Proof using le_total le_trans. destruct (list_sort_spec l) as (l' & E & S & P & F). eauto. Qed.

End ListSort.

(** Pairs by their first part. *)
Definition by_key (x y : Z * Z) : Z := x.1 - y.1.
Definition unsorted : list (Z * Z) := [(3, 0); (1, 1); (2, 2); (1, 3); (3, 4); (0, 5); (2, 6)].

Lemma list_sort_stable_witness : exists l', list_sort by_key unsorted = Some l' /\
  l' = [(0, 5); (1, 1); (1, 3); (2, 2); (2, 6); (3, 0); (3, 4)] /\ l' ≡ₚ unsorted.
Proof.
  destruct (list_sort_stable by_key ltac:(unfold le, by_key; lia) ltac:(unfold le, by_key; lia) unsorted)
    as (l' & E & S & P & F).
  exists l'. split; [exact E|]. split; [|exact P]. vm_compute in E. injection E as <-. reflexivity.
Defined.

End ListSort.
