(* ===== verification/Hashtable.v ===== *)
(** * The environment hash table (lib/hashtable.c)

    Open addressing with double hashing and deleted marks.  A string is the
    list of its bytes without the terminator, a [char *] is an option, a table
    slot keeps its [used] mark.  The access check, the callbacks and the
    look-ups of callbacks and flags come from other parts of the program and
    are the fields of [hooks].  A callback acts on the table: it gives its
    return value and the table it leaves, or does not end. *)

From stdpp Require Import gmap.
From Stdlib Require Import Znumtheory.
From S2P Require Import Prelude.
From S2P Require Import Sort.

Module Hashtable.
Import Sort.
Local Open Scope uboot_scope.

Definition str : Type := list Z.

Definition USED_FREE : Z := 0.
Definition USED_DELETED : Z := -1.

Inductive env_action := ENV_FIND | ENV_ENTER.
Inductive env_op := env_op_create | env_op_delete | env_op_overwrite.

Record env_entry := mk_entry {
  e_key : option str;
  e_data : option str;
  e_callback : option Z;      (* which callback, if any *)
  e_flags : Z
}.

Record env_entry_node := mk_node {
  used : Z;
  entry : env_entry
}.

Definition zero_node : env_entry_node := mk_node USED_FREE (mk_entry None None None 0).

Record hsearch_data := mk_htab {
  table : option (list env_entry_node);     (* None: NULL *)
  size : Z;
  filled : Z
}.

Record hooks := mk_hooks {
  change_ok : env_entry -> option str -> env_op -> Z -> bool;      (* true: denied *)
  run_callback : Z -> str -> option str -> env_op -> Z -> hsearch_data -> option (Z * hsearch_data);
  env_callback_init : env_entry -> env_entry;
  env_flags_init : env_entry -> env_entry;
  strdup_ok : str -> bool;
  calloc_ok : Z -> bool
}.

Definition H_NOCLEAR : Z := 1.
Definition H_HIDE_DOT : Z := 8.
Definition H_MATCH_KEY : Z := 16.
Definition H_MATCH_DATA : Z := 32.
Definition H_MATCH_IDENT : Z := 64.
Definition H_MATCH_SUBSTR : Z := 128.
Definition H_MATCH_REGEX : Z := 256.
Definition H_MATCH_METHOD : Z := 448.

(** ** hcreate and hdestroy *)

(** The trial divisions; [None]: the loop is not over. *)
Fixpoint isprime_loop (fuel : nat) (number div : Z) : option Z :=
  match fuel with
  | O => None
  | S f =>
      if (div * div mod 4294967296 <? number) && negb (number mod div =? 0)
      then isprime_loop f number (div +32 2) else Some div
  end.

Definition isprime (number : Z) : option bool :=
  match isprime_loop (Z.to_nat 32768) number 3 with
  | None => None
  | Some div => Some (negb (number mod div =? 0))
  end.

Fixpoint next_prime (fuel : nat) (nel : Z) : option Z :=
  match fuel with
  | O => None
  | S f =>
      match isprime nel with
      | None => None
      | Some true => Some nel
      | Some false => next_prime f (nel + 2)
      end
  end.

(** The return value, errno and the table; [fuel] bounds the search for a prime. *)
Definition hcreate_r (hk : hooks) (fuel : nat) (nel : Z) (htab : option hsearch_data)
    : option (Z * Z * option hsearch_data) :=
  match htab with
  | None => Some (0, EINVAL, None)
  | Some htab =>
      match table htab with
      | Some _ => Some (0, EINVAL, Some htab)
      | None =>
          match next_prime fuel (Z.lor nel 1) with
          | None => None
          | Some nel =>
              if calloc_ok hk (u32 nel + 1)
              then Some (1, 0, Some (mk_htab (Some (replicate (Z.to_nat (u32 nel + 1)) zero_node))
                                       (u32 nel) 0))
              else Some (0, ENOMEM, Some (mk_htab None (u32 nel) 0))
          end
      end
  end.

Definition hdestroy_r (htab : hsearch_data) : hsearch_data :=
  mk_htab None (size htab) (filled htab).

(** ** Slots *)
Definition nodes (htab : hsearch_data) : list env_entry_node := default [] (table htab).
Definition node_at (htab : hsearch_data) (idx : Z) : env_entry_node :=
  nth (Z.to_nat idx) (nodes htab) zero_node.
Definition set_node (htab : hsearch_data) (idx : Z) (n : env_entry_node) : hsearch_data :=
  mk_htab (Some (<[Z.to_nat idx := n]> (nodes htab))) (size htab) (filled htab).
Definition set_filled (htab : hsearch_data) (f : Z) : hsearch_data :=
  mk_htab (table htab) (size htab) (u32 f).

Definition strdup (hk : hooks) (s : option str) : option str :=
  match s with
  | None => None
  | Some s => if strdup_ok hk s then Some s else None
  end.

(** strncmp(match, key, strlen(match)) == 0. *)
Definition starts_with (pat : str) (s : option str) : bool :=
  match s with Some s => bool_decide (take (length pat) s = pat) | None => false end.

Fixpoint match_loop (n : nat) (pat : str) (idx : Z) (htab : hsearch_data) : option Z :=
  match n with
  | O => None
  | S n' =>
      if used (node_at htab idx) <=? 0 then match_loop n' pat (idx + 1) htab
      else if starts_with pat (e_key (entry (node_at htab idx))) then Some idx
      else match_loop n' pat (idx + 1) htab
  end.

(** The index returned, the slot in [*retval], errno. *)
Definition hmatch_r (pat : str) (last_idx : Z) (htab : hsearch_data) : Z * option Z * Z :=
  match match_loop (Z.to_nat (size htab - (last_idx + 1))) pat (last_idx + 1) htab with
  | Some idx => (idx, Some idx, 0)
  | None => (0, None, ESRCH)
  end.

(** ** hsearch *)

(** The return value and the table.  Callbacks are called from outside of
    callbacks here, where [in_callback] is false. *)
Definition do_callback (hk : hooks) (e : env_entry) (name : str) (value : option str) (op : env_op)
    (flags : Z) (htab : hsearch_data) : option (Z * hsearch_data) :=
  match e_callback e with
  | None => Some (0, htab)
  | Some cb => run_callback hk cb name value op flags htab
  end.

(** The return value, the slot in [*retval], errno and the table. *)
Record sresult := mk_res {
  s_ret : Z;
  s_retval : option Z;
  s_errno : Z;
  s_htab : hsearch_data
}.

Definition same_key (key : str) (k : option str) : bool := bool_decide (k = Some key).

(** [None]: a callback does not end.  The entry is read again after it. *)
Definition _compare_and_overwrite_entry (hk : hooks) (key : str) (data : option str)
    (action : env_action) (htab : hsearch_data) (flag hval idx : Z) : option sresult :=
  let n := node_at htab idx in
  if (u32 (used n) =? hval) && same_key key (e_key (entry n)) then
    match action, data with
    | ENV_ENTER, Some d =>
        if change_ok hk (entry n) (Some d) env_op_overwrite flag then Some (mk_res 0 None EPERM htab)
        else
          '(ret, htab) ← do_callback hk (entry n) key (Some d) env_op_overwrite flag htab;
          if negb (ret =? 0) then Some (mk_res 0 None EINVAL htab)
          else
            let n := node_at htab idx in
            let data' := strdup hk (Some d) in
            let e := mk_entry (e_key (entry n)) data' (e_callback (entry n)) (e_flags (entry n)) in
            let htab := set_node htab idx (mk_node (used n) e) in
            Some (match data' with
                  | None => mk_res 0 None ENOMEM htab
                  | Some _ => mk_res idx (Some idx) 0 htab
                  end)
    | _, _ => Some (mk_res idx (Some idx) 0 htab)
    end
  else Some (mk_res (-1) None 0 htab).

(** The hash value before the first reduction; [char] is unsigned. *)
Definition hash (key : str) : Z :=
  fold_right (fun c hval => u32 (Z.shiftl hval 4) +32 c) (u32 (Z.of_nat (length key))) key.

Definition first_hash (key : str) (size : Z) : Z :=
  let hval := hash key mod size in if hval =? 0 then 1 else hval.

Definition second_hash (hval size : Z) : Z := 1 + hval mod (size -32 2).

(** The next index of the probe sequence. *)
Definition probe_step (size hval2 idx : Z) : Z :=
  if idx <=? hval2 then size + idx - hval2 else idx - hval2.

(** The loop ends with a result or with the bucket to use. *)
Inductive probed := Hit (r : sresult) | Miss (idx first_deleted : Z).

Fixpoint probe (fuel : nat) (hk : hooks) (key : str) (data : option str) (action : env_action)
    (htab : hsearch_data) (flag hval hval2 idx first_deleted : Z) : option probed :=
  match fuel with
  | O => None
  | S f =>
      let idx := probe_step (size htab) hval2 idx in
      if idx =? hval then Some (Miss idx first_deleted)
      else
        let first_deleted :=
          if (used (node_at htab idx) =? USED_DELETED) && (first_deleted =? 0)
          then idx else first_deleted in
        r ← _compare_and_overwrite_entry hk key data action htab flag hval idx;
        if negb (s_ret r =? -1) then Some (Hit r)
        else if negb (used (node_at htab idx) =? USED_FREE)
        then probe f hk key data action htab flag hval hval2 idx first_deleted
        else Some (Miss idx first_deleted)
  end.

Definition _hdelete (htab : hsearch_data) (idx : Z) : hsearch_data :=
  let e := entry (node_at htab idx) in
  let htab := set_node htab idx (mk_node USED_DELETED (mk_entry None None (e_callback e) 0)) in
  set_filled htab (filled htab - 1).

(** A new entry in the bucket found. *)
Definition enter_new (hk : hooks) (key : str) (data : option str) (htab : hsearch_data)
    (flag hval idx first_deleted : Z) : option sresult :=
  if filled htab =? size htab then Some (mk_res 0 None ENOMEM htab)
  else
    let idx := if negb (first_deleted =? 0) then first_deleted else idx in
    let old := entry (node_at htab idx) in
    let k := strdup hk (Some key) in
    let d := strdup hk data in
    let e := mk_entry k d (e_callback old) (e_flags old) in
    let htab := set_node htab idx (mk_node hval e) in
    match k, d with
    | Some _, Some _ =>
        let htab := set_filled htab (filled htab + 1) in
        let e := env_flags_init hk (env_callback_init hk e) in
        let htab := set_node htab idx (mk_node hval e) in
        if change_ok hk e data env_op_create flag then Some (mk_res 0 None EPERM (_hdelete htab idx))
        else
          '(ret, htab) ← do_callback hk e key data env_op_create flag htab;
          Some (if negb (ret =? 0) then mk_res 0 None EINVAL (_hdelete htab idx)
                else mk_res 1 (Some idx) 0 htab)
    | _, _ => Some (mk_res 0 None ENOMEM htab)
    end.

(** [None]: the probe loop or a callback does not end. *)
Definition hsearch_r (hk : hooks) (key : str) (data : option str) (action : env_action)
    (htab : hsearch_data) (flag : Z) : option sresult :=
  let hval := first_hash key (size htab) in
  let idx := hval in
  let found :=
    if negb (used (node_at htab idx) =? USED_FREE) then
      let first_deleted := if used (node_at htab idx) =? USED_DELETED then idx else 0 in
      r ← _compare_and_overwrite_entry hk key data action htab flag hval idx;
      if negb (s_ret r =? -1) then Some (Hit r)
      else probe (Z.to_nat (size htab)) hk key data action htab flag hval
             (second_hash hval (size htab)) idx first_deleted
    else Some (Miss idx 0) in
  match found with
  | None => None
  | Some (Hit r) => Some r
  | Some (Miss idx first_deleted) =>
      match action with
      | ENV_ENTER => enter_new hk key data htab flag hval idx first_deleted
      | ENV_FIND => Some (mk_res 0 None ESRCH htab)
      end
  end.

Definition hdelete_r (hk : hooks) (key : str) (htab : hsearch_data) (flag : Z)
    : option (Z * hsearch_data) :=
  match hsearch_r hk key None ENV_FIND htab 0 with
  | None => None
  | Some r =>
      if s_ret r =? 0 then Some (- ENOENT, htab)
      else
        let idx := s_ret r in
        let e := entry (node_at htab idx) in
        if change_ok hk e None env_op_delete flag then Some (- EPERM, htab)
        else
          '(ret, htab) ← do_callback hk e key None env_op_delete flag htab;
          Some (if negb (ret =? 0) then (- EINVAL, htab) else (0, _hdelete htab idx))
  end.

(** Walk the used slots; the callback's first non-zero value is returned. *)
Fixpoint walk_loop (n : nat) (callback : env_entry -> Z) (htab : hsearch_data) (i : Z) : Z :=
  match n with
  | O => 0
  | S n' =>
      if 0 <? used (node_at htab i) then
        let retval := callback (entry (node_at htab i)) in
        if negb (retval =? 0) then retval else walk_loop n' callback htab (i + 1)
      else walk_loop n' callback htab (i + 1)
  end.
Definition hwalk_r (htab : hsearch_data) (callback : env_entry -> Z) : Z :=
  walk_loop (Z.to_nat (size htab)) callback htab 1.

(** hwalk_r over a callback that changes the entry and returns 0. *)
Definition walk_update (f : env_entry -> env_entry) (htab : hsearch_data) : hsearch_data :=
  match table htab with
  | None => htab
  | Some t =>
      mk_htab (Some (take 1 t ++ map (fun nd => if 0 <? used nd then mk_node (used nd) (f (entry nd)) else nd) (drop 1 t)))
        (size htab) (filled htab)
  end.

(** ** hexport *)

(** strcmp: bytes as [unsigned char], the end of a list is the terminator. *)
Definition uchar_hd (s : str) : Z := u8 (hd 0 s).
Fixpoint strcmp (cs ct : str) : Z :=
  let a := uchar_hd cs in
  let b := uchar_hd ct in
  match cs with
  | [] => a - b
  | _ :: cs' => if negb (a - b =? 0) || (b =? 0) then a - b else strcmp cs' (tl ct)
  end.

Definition key_of (e : env_entry) : str := default [] (e_key e).
Definition data_of (e : env_entry) : str := default [] (e_data e).

Definition cmpkey (e1 e2 : env_entry) : Z := strcmp (key_of e1) (key_of e2).

Fixpoint strstr (s pat : str) : bool :=
  bool_decide (take (length pat) s = pat) ||
  match s with [] => false | _ :: s => strstr s pat end.

(** [regex]: slre_compile and slre_match, with CONFIG_REGEX. *)
Definition match_string (regex : option (str -> option (str -> bool))) (flag : Z) (s pat : str) : bool :=
  let meth := Z.land flag H_MATCH_METHOD in
  if meth =? H_MATCH_IDENT then strcmp s pat =? 0
  else if meth =? H_MATCH_SUBSTR then strstr s pat
  else if meth =? H_MATCH_REGEX then
    match regex with
    | Some compile => match compile pat with Some m => m s | None => false end
    | None => false
    end
  else false.

Fixpoint match_entry (regex : option (str -> option (str -> bool))) (ep : env_entry) (flag : Z)
    (argv : list str) : bool :=
  match argv with
  | [] => false
  | arg :: argv =>
      match (match regex with
             | Some compile => match compile arg with Some _ => true | None => false end
             | None => true
             end) with
      | false => false
      | true =>
          if negb (Z.land flag H_MATCH_KEY =? 0) && match_string regex flag (key_of ep) arg then true
          else if negb (Z.land flag H_MATCH_DATA =? 0) && match_string regex flag (data_of ep) arg
          then true
          else match_entry regex ep flag argv
      end
  end.

Definition BACKSLASH : Z := 92.
Definition needs_escape (sep c : Z) : bool := (c =? sep) || (c =? BACKSLASH).

(** The room pass 1 counts for the data of an entry. *)
Definition data_room (sep : Z) (d : str) : Z :=
  if sep =? 0 then Z.of_nat (length d)
  else fold_right (fun c t => t + 1 + b2z (needs_escape sep c)) 0 d.

(** Whether an entry is exported. *)
Definition exported (regex : option (str -> option (str -> bool))) (flag : Z) (argv : list str)
    (nd : env_entry_node) : bool :=
  (0 <? used nd) &&
  negb (negb (bool_decide (argv = [])) && negb (match_entry regex (entry nd) flag argv)) &&
  negb (negb (Z.land flag H_HIDE_DOT =? 0) && (hd 0 (key_of (entry nd)) =? 46)).

Definition export_list (regex : option (str -> option (str -> bool))) (htab : hsearch_data) (flag : Z)
    (argv : list str) : list env_entry :=
  map entry (List.filter (exported regex flag argv) (drop 1 (nodes htab))).

Definition totlen (sep : Z) (l : list env_entry) : Z :=
  fold_right (fun e t => t + (Z.of_nat (length (key_of e)) + data_room sep (data_of e) + 2)) 0 l.

(** What pass 2 writes for the data and for an entry. *)
Definition escape (sep : Z) (d : str) : list Z :=
  concat (map (fun c => if needs_escape sep c then [BACKSLASH; c] else [c]) d).
Definition EQUALS : Z := 61.
Definition emit (sep : Z) (e : env_entry) : list Z :=
  key_of e ++ EQUALS :: escape sep (data_of e) ++ [sep].

(** The errno, or the value returned and the bytes pass 2 stores from the start
    of the zeroed buffer on, the terminator included.  [user_buf]: [*resp] was
    not NULL. *)
Definition hexport_r (hk : hooks) (regex : option (str -> option (str -> bool)))
    (htab : hsearch_data) (sep flag : Z) (user_buf : bool) (sz : Z) (argv : list str)
    : option (Z + Z * list Z) :=
  let l := export_list regex htab flag argv in
  let total := totlen sep l in
  l ← qsort cmpkey l;
  Some
    (if negb (sz =? 0) && (sz <? total + 1) then inl ENOMEM
     else
       let sz := if sz =? 0 then total + 1 else sz in
       if negb user_buf && negb (calloc_ok hk sz) then inl ENOMEM
       else inr (sz, concat (map (emit sep) l) ++ [0])).

(** ** himport *)
Definition drop_var_from_set (name : str) (vars : list (option str)) : bool * list (option str) :=
  match vars with
  | [] => (true, [])
  | _ => (bool_decide (Some name ∈ vars),
          map (fun v => if bool_decide (v = Some name) then None else v) vars)
  end.

(** Reading past the end of the modelled buffer gives the terminator. *)
Definition at_hd (l : list Z) : Z := hd 0 l.

Fixpoint skip_blank (l : list Z) : list Z :=
  match l with
  | c :: r => if (c =? 32) || (c =? 9) then skip_blank r else l
  | [] => []
  end.

(** Up to the separator or the terminator. *)
Fixpoint skip_comment (sep : Z) (l : list Z) : list Z :=
  match l with
  | c :: r => if negb (c =? 0) && negb (c =? sep) then skip_comment sep r else l
  | [] => []
  end.

Fixpoint parse_name (sep : Z) (l : list Z) : str * list Z :=
  match l with
  | c :: r =>
      if negb (c =? EQUALS) && negb (c =? 0) && negb (c =? sep)
      then let '(name, rest) := parse_name sep r in (c :: name, rest) else ([], l)
  | [] => ([], [])
  end.

Fixpoint parse_value (sep : Z) (l : list Z) : str * list Z :=
  match l with
  | [] => ([], [])
  | c :: r =>
      if (c =? 0) || (c =? sep) then ([], l)
      else if (c =? BACKSLASH) && negb (at_hd r =? 0) then
        match r with
        | c' :: r' => let '(v, rest) := parse_value sep r' in (c' :: v, rest)
        | [] => ([c], [])
        end
      else let '(v, rest) := parse_value sep r in (c :: v, rest)
  end.

(** One round of the parse loop. *)
Inductive parsed :=
  | PSkip (rest : list Z)
  | PDelete (name : str) (rest : list Z)
  | PSet (name value : str) (rest : list Z).

Definition parse_entry (sep : Z) (l : list Z) : parsed :=
  let l := skip_blank l in
  if at_hd l =? 35 then PSkip (tl (skip_comment sep l))
  else
    let '(name, l) := parse_name sep l in
    if (at_hd l =? 0) || (at_hd (tl l) =? 0) || (at_hd l =? sep) || (at_hd (tl l) =? sep) then
      PDelete name (tl (if at_hd l =? EQUALS then tl l else l))
    else
      let '(value, l) := parse_value sep (tl l) in PSet name value (tl l).

(** The loop, with the bytes after the size still in the buffer; the position
    is what is left of the buffer.  [None]: a probe loop did not end. *)
Fixpoint import_loop (fuel : nat) (hk : hooks) (sep flag : Z) (remain : Z) (l : list Z)
    (vars : list (option str)) (htab : hsearch_data)
    : option (Z * list (option str) * hsearch_data) :=
  match fuel with
  | O => None
  | S f =>
      let again rest vars htab :=
        let remain := remain - (Z.of_nat (length l) - Z.of_nat (length rest)) in
        if (0 <? remain) && negb (at_hd rest =? 0)
        then import_loop f hk sep flag remain rest vars htab else Some (1, vars, htab) in
      match parse_entry sep l with
      | PSkip rest => again rest vars htab
      | PDelete name rest =>
          let '(res, vars) := drop_var_from_set name vars in
          if negb res then again rest vars htab
          else match hdelete_r hk name htab flag with
               | None => None
               | Some (_, htab) => again rest vars htab
               end
      | PSet name value rest =>
          if bool_decide (name = []) then Some (0, vars, htab)
          else
            let '(res, vars) := drop_var_from_set name vars in
            if negb res then again rest vars htab
            else match hsearch_r hk name (Some value) ENV_ENTER htab flag with
                 | None => None
                 | Some r => again rest vars (s_htab r)
                 end
      end
  end.

(** Carriage returns in front of line feeds are dropped up to the first
    terminator; what follows in the buffer stays. *)
Fixpoint drop_crs (l : list Z) : list Z * Z :=
  match l with
  | [] => ([], 0)
  | c :: r =>
      if c =? 0 then ([], 0)
      else
        let '(r', n) := drop_crs r in
        if (c =? 13) && (at_hd r =? 10) then (r', n + 1) else (c :: r', n)
  end.

Fixpoint delete_left (hk : hooks) (vars : list (option str)) (htab : hsearch_data) (flag : Z)
    : option hsearch_data :=
  match vars with
  | [] => Some htab
  | None :: vars => delete_left hk vars htab flag
  | Some v :: vars =>
      match hdelete_r hk v htab flag with
      | None => None
      | Some (_, htab) => delete_left hk vars htab flag
      end
  end.

(** [env] holds [size] bytes; [malloc_ok]: the copy; [append]:
    CONFIG_ENV_APPEND; [min_entries], [max_entries]: CONFIG_ENV_MIN_ENTRIES and
    CONFIG_ENV_MAX_ENTRIES; [fuel]: for the prime. *)
Definition himport_r (hk : hooks) (fuel : nat) (malloc_ok append : bool) (min_entries max_entries : Z)
    (htab : hsearch_data) (env : list Z) (sep flag : Z) (crlf_is_lf : bool) (vars : list str)
    : option (Z * hsearch_data) :=
  let sz := Z.of_nat (length env) in
  if negb malloc_ok then Some (0, htab)
  else
    let localvars := map Some vars in
    let flag := if append then Z.lor flag H_NOCLEAR else flag in
    let noclear := negb (Z.land flag H_NOCLEAR =? 0) in
    let htab := if negb noclear && bool_decide (vars = []) then hdestroy_r htab else htab in
    let created :=
      match table htab with
      | Some _ => Some (1, htab)
      | None =>
          let nent := min_entries + sz / 8 in
          let nent := if max_entries <? nent then max_entries else nent in
          match hcreate_r hk fuel nent (Some htab) with
          | Some (ret, _, Some htab) => Some (ret, htab)
          | _ => None
          end
      end in
    match created with
    | None => None
    | Some (ret, htab) =>
        if ret =? 0 then Some (0, htab)
        else if sz =? 0 then Some (1, htab)
        else
          let '(data, sz) :=
            if crlf_is_lf then
              let '(kept, crs) := drop_crs env in
              (kept ++ drop (length kept) (env ++ [0]), sz - crs)
            else (env ++ [0], sz) in
          match import_loop (S (length data)) hk sep flag sz data localvars htab with
          | None => None
          | Some (ret, vars_left, htab) =>
              if ret =? 0 then Some (0, htab)
              else if noclear then Some (1, htab)
              else match delete_left hk vars_left htab flag with
                   | None => None
                   | Some htab => Some (1, htab)
                   end
          end
    end.

(** ** The probe sequence *)
Section Probe.
Context (n : Z) (Hn : prime n) (Hn5 : 5 <= n < 2 ^ 31) (key : str).

Local Abbreviation h := (first_hash key n).
Local Abbreviation h2 := (second_hash h n).

Definition pr (i : nat) : Z := Nat.iter i (probe_step n h2) h.

Lemma h_range : 1 <= h < n.
Proof using Hn5.
  unfold first_hash. pose proof (Z.mod_pos_bound (hash key) n ltac:(lia)). cmp1; lia.
Qed.

Lemma h2_range : 1 <= h2 <= n - 2.
Proof using Hn5.
  unfold second_hash. rewrite u32_small by lia.
  pose proof (Z.mod_pos_bound h (n - 2) ltac:(lia)). lia.
Qed.

Lemma pr_S i : pr (S i) = probe_step n h2 (pr i).
Proof using Type. unfold pr. by rewrite Nat.iter_succ. Qed.

Lemma pr_range i : 1 <= pr i <= n.
Proof using Hn5.
  induction i as [|i IH]; [pose proof h_range; simpl; lia|]. rewrite pr_S. unfold probe_step.
  pose proof h2_range. cmp1; lia.
Qed.

Lemma pr_mod i : pr i mod n = (h - Z.of_nat i * h2) mod n.
Proof using Hn5.
  induction i as [|i IH]; [simpl; f_equal; lia|]. rewrite pr_S. unfold probe_step.
  pose proof h2_range. replace (h - Z.of_nat (S i) * h2) with (h - Z.of_nat i * h2 - h2) by lia.
  rewrite (Zminus_mod (h - Z.of_nat i * h2)), <- IH, <- Zminus_mod.
  destruct (Z.leb_spec (pr i) h2); [|done].
  replace (n + pr i - h2) with (pr i - h2 + 1 * n) by lia. by rewrite Z.mod_add by lia.
Qed.

Lemma range_mod_eq a b : 1 <= a <= n -> 1 <= b <= n -> a mod n = b mod n -> a = b.
Proof using Hn5.
  intros Ha Hb E. destruct (Z.eq_dec a n) as [->|Na], (Z.eq_dec b n) as [->|Nb]; try done;
    rewrite ?Z_mod_same_full, ?(Z.mod_small a), ?(Z.mod_small b) in E by lia; lia.
Qed.

(** The first [n] probes are different: the size is prime. *)
Lemma pr_inj i j : (i < Z.to_nat n)%nat -> (j < Z.to_nat n)%nat -> pr i = pr j -> i = j.
Proof using Hn Hn5.
  intros Hi Hj E. pose proof h2_range as H2.
  assert (M : (h - Z.of_nat i * h2) mod n = (h - Z.of_nat j * h2) mod n) by (by rewrite <- !pr_mod, E).
  assert (D : (n | (Z.of_nat j - Z.of_nat i) * h2)).
  { apply Z.mod_divide; [lia|].
    replace ((Z.of_nat j - Z.of_nat i) * h2) with ((h - Z.of_nat i * h2) - (h - Z.of_nat j * h2)) by lia.
    rewrite Zminus_mod, M, Z.sub_diag. apply Zmod_0_l. }
  apply Z.divide_prime_mul in D as [D|D]; [| |by apply prime_alt].
  - destruct D as [q D]. assert (q = 0) by nia. lia.
  - apply Z.divide_pos_le in D; lia.
Qed.

Lemma pr_cycle : pr (Z.to_nat n) = h.
Proof using Hn5.
  apply range_mod_eq; [apply pr_range|pose proof h_range; lia|]. rewrite pr_mod, Z2Nat.id by lia.
  replace (h - n * h2) with (h + (- h2) * n) by lia. by rewrite Z.mod_add by lia.
Qed.

Lemma pr_back j : (0 < j < Z.to_nat n)%nat -> pr j <> h.
Proof using Hn Hn5. intros Hj E. change h with (pr 0) in E. apply pr_inj in E; lia. Qed.

(** They visit every slot. *)
Lemma pr_cover idx : 1 <= idx <= n -> exists i, (i < Z.to_nat n)%nat /\ pr i = idx.
Proof using Hn Hn5.
  intros Hi.
  assert (I : List.incl (map (fun i => Z.of_nat (S i)) (seq 0 (Z.to_nat n))) (map pr (seq 0 (Z.to_nat n)))).
  { apply NoDup_length_incl.
    - apply NoDup_ListNoDup. apply NoDup_fmap_2_strong; [|apply NoDup_seq].
      intros x y Hx Hy. apply elem_of_seq in Hx, Hy. apply pr_inj; lia.
    - by rewrite !length_map.
    - intros x Hx. apply in_map_iff in Hx as (i & <- & _). apply in_map_iff.
      exists (Z.to_nat (pr i - 1)). pose proof (pr_range i). split; [lia|]. apply in_seq. lia. }
  destruct (proj1 (in_map_iff pr (seq 0 (Z.to_nat n)) idx)) as (i & E & Hx).
  - apply I. apply in_map_iff. exists (Z.to_nat (idx - 1)). split; [lia|]. apply in_seq. lia.
  - exists i. apply in_seq in Hx. split; [lia|done].
Qed.
End Probe.

(** ** Counting *)
Lemma filter_all {A} (P : A -> Prop) `{!forall x, Decision (P x)} (l : list A) :
  Forall P l -> filter P l = l.
Proof. induction 1 as [|x l Hx Hl IH]; [done|]. rewrite filter_cons_True by done. by rewrite IH. Qed.

Lemma filter_update {A} (P : A -> Prop) `{!forall x, Decision (P x)} (l : list A) i x y :
  l !! i = Some y ->
  (length (filter P (<[i := x]> l)) + (if decide (P y) then 1 else 0) =
   length (filter P l) + (if decide (P x) then 1 else 0))%nat.
Proof.
  revert i. induction l as [|z l IH]; intros [|i] Hi; try done; simpl in *.
  - injection Hi as ->. rewrite !filter_cons. repeat case_decide; simpl; lia.
  - specialize (IH i Hi). rewrite !filter_cons. repeat case_decide; simpl in *; lia.
Qed.

(** ** The invariant *)
Definition occ (htab : hsearch_data) (idx : Z) (k d : str) : Prop :=
  1 <= idx <= size htab /\ 0 < used (node_at htab idx) /\
  e_key (entry (node_at htab idx)) = Some k /\ e_data (entry (node_at htab idx)) = Some d.

(** The slot is on the key's probe sequence with no free slot before it. *)
Definition reach (htab : hsearch_data) (k : str) (idx : Z) : Prop :=
  exists i, (i < Z.to_nat (size htab))%nat /\ pr (size htab) k i = idx /\
    forall j, (j < i)%nat -> used (node_at htab (pr (size htab) k j)) <> USED_FREE.

Definition slot_ok (htab : hsearch_data) (idx : Z) : Prop :=
  used (node_at htab idx) = USED_FREE \/ used (node_at htab idx) = USED_DELETED \/
  exists k d, occ htab idx k d /\ used (node_at htab idx) = first_hash k (size htab) /\
    reach htab k idx.

(** The number of used slots. *)
Definition count_used (htab : hsearch_data) : Z :=
  Z.of_nat (length (filter (fun nd => 0 < used nd) (drop 1 (nodes htab)))).

Record inv (htab : hsearch_data) : Prop := {
  inv_prime : prime (size htab);
  inv_size : 5 <= size htab < 2 ^ 31;
  inv_length : Z.of_nat (length (nodes htab)) = size htab + 1;
  inv_slots : forall idx, 1 <= idx <= size htab -> slot_ok htab idx;
  inv_unique : forall i j k d d', occ htab i k d -> occ htab j k d' -> i = j;
  inv_filled : filled htab = count_used htab
}.

(** The map the table stands for. *)
Definition rep (htab : hsearch_data) (m : gmap str str) : Prop :=
  forall k d, m !! k = Some d <-> exists idx, occ htab idx k d.

(** The slot holds the key. *)
Definition hit (htab : hsearch_data) (k : str) (idx : Z) : bool :=
  (u32 (used (node_at htab idx)) =? first_hash k (size htab)) &&
  same_key k (e_key (entry (node_at htab idx))).

Lemma hit_occ htab k idx : inv htab -> 1 <= idx <= size htab ->
  hit htab k idx = true <-> exists d, occ htab idx k d.
Proof.
  intros I Hi. pose proof (inv_size _ I) as Hs. pose proof (h_range _ Hs k) as Hr. unfold hit, same_key.
  split.
  - intros E. apply andb_true_iff in E as [E1 E2]. apply Z.eqb_eq in E1. apply bool_decide_eq_true in E2.
    destruct (inv_slots _ I idx Hi) as [F|[F|(k' & d & O & U & R)]].
    + rewrite F in E1. unfold USED_FREE in E1. rewrite u32_small in E1; lia.
    + rewrite F in E1. unfold USED_DELETED in E1. change (u32 (-1)) with 4294967295 in E1. lia.
    + destruct O as (O1 & O2 & O3 & O4). rewrite O3 in E2. injection E2 as ->. exists d. done.
  - intros [d O]. destruct (inv_slots _ I idx Hi) as [F|[F|(k' & d' & O' & U & R)]];
      [destruct O as (_ & O & _); rewrite F in O; unfold USED_FREE in O; lia
      |destruct O as (_ & O & _); rewrite F in O; unfold USED_DELETED in O; lia|].
    destruct O as (O1 & O2 & O3 & O4), O' as (_ & _ & O3' & _). rewrite O3 in O3'. injection O3' as <-.
    rewrite U, u32_small by lia. rewrite Z.eqb_refl, O3. by rewrite bool_decide_true.
Qed.

Lemma compare_miss hk key data action htab flag idx :
  hit htab key idx = false ->
  _compare_and_overwrite_entry hk key data action htab flag (first_hash key (size htab)) idx =
    Some (mk_res (-1) None 0 htab).
Proof. unfold hit, _compare_and_overwrite_entry. by intros ->. Qed.

Lemma compare_hit_ret hk key data action htab flag idx : 1 <= idx ->
  hit htab key idx = true ->
  match _compare_and_overwrite_entry hk key data action htab flag (first_hash key (size htab)) idx with
  | Some r => s_ret r <> -1
  | None => True
  end.
Proof.
  unfold hit, _compare_and_overwrite_entry. intros Hi ->. cbv zeta.
  destruct action, data; simpl; try lia. destruct (change_ok _ _ _ _ _); simpl; [lia|].
  destruct (do_callback _ _ _ _ _ _ _) as [[ret h]|]; [|done]. cbn [mbind option_bind].
  destruct (negb _); simpl; [lia|]. destruct (strdup_ok _ _); simpl; lia.
Qed.

(** Outcome of the search loops after the slots before the [j]-th probe. *)
Section Search.
Context (hk : hooks) (key : str) (data : option str) (action : env_action) (htab : hsearch_data)
  (flag : Z) (I : inv htab).
Local Abbreviation n := (size htab).
Local Abbreviation p := (pr n key).
Local Abbreviation hv := (first_hash key n).

Definition passed (j : nat) : Prop :=
  forall i, (i < j)%nat -> used (node_at htab (p i)) <> USED_FREE /\ hit htab key (p i) = false.

(** [first_deleted] after [j] probes. *)
Definition fd_ok (j : nat) (fd : Z) : Prop :=
  (fd = 0 /\ forall i, (i < j)%nat -> used (node_at htab (p i)) <> USED_DELETED) \/
  (exists i, (i < j)%nat /\ fd = p i /\ used (node_at htab (p i)) = USED_DELETED).

Definition outcome (o : option probed) : Prop :=
  (exists j, (j < Z.to_nat n)%nat /\ passed j /\ hit htab key (p j) = true /\
     o = Hit <$> _compare_and_overwrite_entry hk key data action htab flag hv (p j)) \/
  (exists j fd, (j <= Z.to_nat n)%nat /\ passed j /\ fd_ok j fd /\
     ((j < Z.to_nat n)%nat -> used (node_at htab (p j)) = USED_FREE) /\ o = Some (Miss (p j) fd)).

Lemma fd_next j fd : fd_ok j fd -> 1 <= p j ->
  fd_ok (S j) (if (used (node_at htab (p j)) =? USED_DELETED) && (fd =? 0) then p j else fd).
Proof using I.
  intros [[-> H]|(i & Hi & -> & H)] Hp.
  - rewrite Z.eqb_refl, andb_true_r. destruct (Z.eqb_spec (used (node_at htab (p j))) USED_DELETED).
    + right. exists j. split; [lia|done].
    + left. split; [done|]. intros i Hi. destruct (decide (i = j)) as [->|]; [done|apply H; lia].
  - right. exists i. split; [lia|]. split; [|done].
    destruct (Z.eqb_spec (p i) 0) as [E|E]; [|by rewrite andb_false_r].
    pose proof (pr_range n (inv_size _ I) key i). lia.
Qed.

Lemma passed_next j : passed j -> used (node_at htab (p j)) <> USED_FREE ->
  hit htab key (p j) = false -> passed (S j).
Proof using Type.
  intros P U H i Hi. destruct (decide (i = j)) as [->|]; [done|]. apply P. lia.
Qed.

Lemma probe_spec fuel j fd : (j < Z.to_nat n)%nat -> (Z.to_nat n <= j + fuel)%nat ->
  passed (S j) -> fd_ok (S j) fd ->
  outcome (probe fuel hk key data action htab flag hv (second_hash hv n) (p j) fd).
Proof using I.
  revert j fd. induction fuel as [|f IH]; intros j fd Hj Hf P F; [lia|]. cbn [probe].
  rewrite <- pr_S. pose proof (inv_size _ I) as Hs. pose proof (pr_range n Hs key (S j)) as Rg.
  destruct (Z.eqb_spec (p (S j)) hv) as [E|E].
  - right. exists (S j), fd. split; [lia|]. split; [done|]. split; [done|].
    split; [|done]. intros Hlt. exfalso. apply (pr_back n (inv_prime _ I) Hs key (S j)); [lia|done].
  - assert (Hj' : (S j < Z.to_nat n)%nat).
    { destruct (decide (S j = Z.to_nat n)) as [X|]; [|lia].
      exfalso. apply E. rewrite X. by apply pr_cycle. }
    destruct (hit htab key (p (S j))) eqn:H.
    + pose proof (compare_hit_ret hk key data action htab flag (p (S j)) ltac:(lia) H) as Hr.
      left. exists (S j). split; [done|]. split; [done|]. split; [done|].
      destruct (_compare_and_overwrite_entry hk key data action htab flag hv (p (S j))) as [r|]; [|done].
      cbn [mbind option_bind]. by destruct (Z.eqb_spec (s_ret r) (-1)).
    + rewrite (compare_miss hk key data action htab flag (p (S j)) H). cbn [mbind option_bind s_ret Z.eqb negb].
      pose proof (fd_next (S j) fd F ltac:(lia)) as F'.
      destruct (Z.eqb_spec (used (node_at htab (p (S j)))) USED_FREE) as [U|U]; cbn [negb].
      * right. exists (S j). eexists.
        split; [lia|]. split; [done|]. split; [|split; [|done]]; [|done].
        rewrite U. exact F.
      * apply IH; [lia|lia|by apply passed_next|done].
Qed.

Lemma found_spec :
  outcome
    (if negb (used (node_at htab hv) =? USED_FREE) then
       let first_deleted := if used (node_at htab hv) =? USED_DELETED then hv else 0 in
       r ← _compare_and_overwrite_entry hk key data action htab flag hv hv;
       if negb (s_ret r =? -1) then Some (Hit r)
       else probe (Z.to_nat n) hk key data action htab flag hv (second_hash hv n) hv first_deleted
     else Some (Miss hv 0)).
Proof using I.
  pose proof (inv_size _ I) as Hs. pose proof (h_range n Hs key) as Hh.
  change hv with (p 0) at 1 2 3 6 8 9.
  destruct (Z.eqb_spec (used (node_at htab (p 0))) USED_FREE) as [U|U]; cbn [negb].
  - right. exists 0%nat, 0. split; [lia|]. split; [intros i Hi; lia|].
    split; [left; split; [done|lia]|]. done.
  - cbv zeta. destruct (hit htab key (p 0)) eqn:H.
    + pose proof (compare_hit_ret hk key data action htab flag (p 0) ltac:(simpl; lia) H) as Hr.
      left. exists 0%nat. split; [lia|]. split; [intros i Hi; lia|]. split; [done|].
      destruct (_compare_and_overwrite_entry hk key data action htab flag hv (p 0)) as [r|]; [|done].
      cbn [mbind option_bind]. by destruct (Z.eqb_spec (s_ret r) (-1)).
    + rewrite (compare_miss hk key data action htab flag (p 0) H). cbn [mbind option_bind s_ret Z.eqb negb].
      apply probe_spec; [lia|lia|apply passed_next; [intros i Hi; lia|done|done]|].
      pose proof (fd_next 0 0 ltac:(left; split; [done|lia]) ltac:(simpl; lia)) as F.
      by rewrite Z.eqb_refl, andb_true_r in F.
Qed.

Lemma search_present idx d o : occ htab idx key d -> outcome o ->
  o = Hit <$> _compare_and_overwrite_entry hk key data action htab flag hv idx.
Proof using I.
  intros O Ho. pose proof O as (R & U & _).
  destruct (inv_slots _ I idx R) as [F|[F|(k' & d' & O' & _ & (i & Hi & Ei & Hb))]];
    [unfold USED_FREE in F; lia|unfold USED_DELETED in F; lia|].
  assert (k' = key) as ->.
  { destruct O as (_ & _ & E1 & _), O' as (_ & _ & E2 & _). congruence. }
  destruct Ho as [(j & Hj & P & H & ->)|(j & fd & Hj & P & F & Fr & ->)].
  - pose proof (pr_range n (inv_size _ I) key j) as Rj.
    apply (hit_occ htab key (p j) I Rj) in H as [d2 H2].
    by rewrite (inv_unique _ I _ _ _ _ _ H2 O).
  - exfalso. destruct (decide (i < j)%nat) as [L|L].
    + destruct (P i L) as [_ Hf]. rewrite Ei in Hf.
      assert (hit htab key idx = true) as X by (apply hit_occ; eauto). congruence.
    + specialize (Fr ltac:(lia)). destruct (decide (i = j)) as [->|N].
      * rewrite Ei in Fr. rewrite Fr in U. unfold USED_FREE in U. lia.
      * by apply (Hb j ltac:(lia)).
Qed.

Lemma search_absent o : (forall idx d, ~ occ htab idx key d) -> outcome o ->
  exists j fd, (j <= Z.to_nat n)%nat /\ passed j /\ fd_ok j fd /\
     ((j < Z.to_nat n)%nat -> used (node_at htab (p j)) = USED_FREE) /\ o = Some (Miss (p j) fd).
Proof using I.
  intros Ha [(j & Hj & P & H & ->)|Ho]; [|done]. exfalso.
  pose proof (pr_range n (inv_size _ I) key j) as Rj.
  apply (hit_occ htab key (p j) I Rj) in H as [d2 H2]. by apply (Ha _ _ H2).
Qed.

(** Every slot visited and none free or deleted: the table is full. *)
Lemma all_used_full : (forall i, (i < Z.to_nat n)%nat ->
    used (node_at htab (p i)) <> USED_FREE /\ used (node_at htab (p i)) <> USED_DELETED) ->
  filled htab = n.
Proof using I.
  intros Ha. rewrite (inv_filled _ I). unfold count_used. pose proof (inv_length _ I) as L.
  pose proof (inv_size _ I) as Hs.
  assert (F : Forall (fun nd => 0 < used nd) (drop 1 (nodes htab))).
  { apply Forall_lookup. intros i nd Hl. rewrite lookup_drop in Hl.
    pose proof (lookup_lt_Some _ _ _ Hl) as Hlt.
    destruct (pr_cover n (inv_prime _ I) Hs key (Z.of_nat (1 + i)) ltac:(lia)) as (j & Hj & Ej).
    assert (En : node_at htab (Z.of_nat (1 + i)) = nd).
    { unfold node_at. rewrite Nat2Z.id. by apply nth_of_lookup. }
    destruct (Ha j Hj) as [A1 A2]. rewrite Ej, En in A1, A2.
    pose proof (inv_slots _ I (Z.of_nat (1 + i)) ltac:(lia)) as S. unfold slot_ok in S. rewrite En in S.
    destruct S as [S|[S|(k & d & (_ & O & _) & _)]]; [done|done|]. by rewrite En in O. }
  rewrite filter_all by done. rewrite length_drop. lia.
Qed.

(** Where a new entry goes. *)
Definition bucket (idx fd : Z) : Z := if negb (fd =? 0) then fd else idx.

Lemma bucket_spec j fd : (j <= Z.to_nat n)%nat -> passed j -> fd_ok j fd ->
  ((j < Z.to_nat n)%nat -> used (node_at htab (p j)) = USED_FREE) -> filled htab <> n ->
  let b := bucket (p j) fd in
  1 <= b <= n /\ (used (node_at htab b) = USED_FREE \/ used (node_at htab b) = USED_DELETED) /\
  reach htab key b.
Proof using I.
  intros Hj P F Fr Hfill b. pose proof (inv_size _ I) as Hs. unfold b, bucket.
  destruct F as [[-> F]|(i & Hi & -> & U)].
  - cbn [negb Z.eqb]. split; [by apply pr_range|].
    destruct (decide (j = Z.to_nat n)) as [->|N].
    + exfalso. apply Hfill, all_used_full. intros i Hi. split; [by apply P|by apply F].
    + split; [left; apply Fr; lia|]. exists j. split; [lia|]. split; [done|].
      intros i Hi. by apply P.
  - pose proof (pr_range n Hs key i) as R. destruct (Z.eqb_spec (p i) 0); [lia|]. cbn [negb].
    split; [done|]. split; [by right|]. exists i. split; [lia|]. split; [done|].
    intros i' Hi'. apply P. lia.
Qed.

End Search.

(** ** Changing one slot *)
Definition upd (htab : hsearch_data) (i : Z) (nd : env_entry_node) (f : Z) : hsearch_data :=
  mk_htab (Some (<[Z.to_nat i := nd]> (nodes htab))) (size htab) f.

Lemma nodes_upd htab i nd f : nodes (upd htab i nd f) = <[Z.to_nat i := nd]> (nodes htab).
Proof. reflexivity. Qed.

Section Update.
Context (htab : hsearch_data) (I : inv htab) (i0 : Z) (nd : env_entry_node) (f : Z)
  (Hi0 : 1 <= i0 <= size htab) (Hnd : used nd <> USED_FREE).
Local Abbreviation htab' := (upd htab i0 nd f).

Lemma node_upd j : 0 <= j -> node_at htab' j = if j =? i0 then nd else node_at htab j.
Proof using I Hi0.
  intros Hj. pose proof (inv_length _ I). unfold node_at. rewrite nodes_upd.
  rewrite !nth_lookup. destruct (Z.eqb_spec j i0) as [->|N].
  - rewrite list_lookup_insert_eq by lia. done.
  - rewrite list_lookup_insert_ne by lia. done.
Qed.

Lemma occ_upd j k d : occ htab' j k d <->
  (j = i0 /\ 0 < used nd /\ e_key (entry nd) = Some k /\ e_data (entry nd) = Some d) \/
  (j <> i0 /\ occ htab j k d).
Proof using I Hi0.
  unfold occ at 1. cbn [size upd]. split.
  - intros (R & H). rewrite node_upd in H by lia. destruct (Z.eqb_spec j i0) as [->|N]; [by left|].
    right. split; [done|]. split; [done|]. exact H.
  - intros [(-> & H)|(N & R & H)].
    + split; [done|]. rewrite node_upd by lia. by rewrite Z.eqb_refl.
    + split; [done|]. rewrite node_upd by lia. by destruct (Z.eqb_spec j i0).
Qed.

Lemma reach_upd k j : reach htab k j -> reach htab' k j.
Proof using I Hi0 Hnd.
  intros (i & Hi & E & Hb). exists i. cbn [size upd]. split; [done|]. split; [done|].
  intros j' Hj'. pose proof (pr_range _ (inv_size _ I) k j'). rewrite node_upd by lia.
  destruct (_ =? _); [done|]. by apply Hb.
Qed.

Lemma count_upd : count_used htab' =
  count_used htab - b2z (0 <? used (node_at htab i0)) + b2z (0 <? used nd).
Proof using I Hi0.
  pose proof (inv_length _ I) as L. unfold count_used. rewrite nodes_upd.
  destruct (lookup_lt_is_Some_2 (nodes htab) (Z.to_nat i0) ltac:(lia)) as [y Hy].
  assert (Ey : node_at htab i0 = y) by (by apply nth_of_lookup). rewrite Ey.
  assert (D : drop 1 (<[Z.to_nat i0 := nd]> (nodes htab)) = <[Z.to_nat (i0 - 1) := nd]> (drop 1 (nodes htab))).
  { destruct (nodes htab) as [|a l]; [done|]. replace (Z.to_nat i0) with (S (Z.to_nat (i0 - 1))) by lia.
    simpl. by rewrite !drop_0. }
  rewrite D. pose proof (filter_update (fun x => 0 < used x) (drop 1 (nodes htab)) (Z.to_nat (i0 - 1)) nd y) as F.
  rewrite lookup_drop in F. replace (1 + Z.to_nat (i0 - 1))%nat with (Z.to_nat i0) in F by lia.
  specialize (F Hy). unfold b2z.
  destruct (Z.ltb_spec 0 (used y)), (Z.ltb_spec 0 (used nd)); repeat case_decide; lia.
Qed.

(** The other slots stay in order. *)
Lemma slot_upd j : 1 <= j <= size htab -> j <> i0 -> slot_ok htab' j.
Proof using I Hi0 Hnd.
  intros Hj N. unfold slot_ok. rewrite node_upd by lia.
  destruct (Z.eqb_spec j i0); [done|]. destruct (inv_slots _ I j Hj) as [S|[S|(k & d & O & U & R)]];
    [by left|by right; left|]. right; right. exists k, d. split; [|split; [done|by apply reach_upd]].
  apply occ_upd. right. done.
Qed.
End Update.

(** A new key in a free or deleted slot. *)
Lemma inv_enter htab i0 k d e m : inv htab -> rep htab m -> 1 <= i0 <= size htab ->
  used (node_at htab i0) = USED_FREE \/ used (node_at htab i0) = USED_DELETED ->
  reach htab k i0 -> m !! k = None -> e_key e = Some k -> e_data e = Some d ->
  let htab' := upd htab i0 (mk_node (first_hash k (size htab)) e) (filled htab + 1) in
  inv htab' /\ rep htab' (<[k := d]> m).
Proof.
  intros I R Hi Hu Hr Hm Ek Ed htab'. pose proof (inv_size _ I) as Hs. pose proof (h_range _ Hs k) as Hh.
  set (nd := mk_node (first_hash k (size htab)) e) in *.
  assert (Hnd : used nd <> USED_FREE) by (simpl; unfold USED_FREE; lia).
  assert (Free : forall k' d', ~ occ htab i0 k' d').
  { intros k' d' (_ & U & _). destruct Hu as [Hu|Hu]; rewrite Hu in U; unfold USED_FREE, USED_DELETED in U; lia. }
  assert (O : forall j k' d', occ htab' j k' d' <-> (j = i0 /\ k' = k /\ d' = d) \/ (j <> i0 /\ occ htab j k' d')).
  { intros. unfold htab'. rewrite (occ_upd htab I i0 nd _ Hi). unfold nd. cbn [used entry]. rewrite Ek, Ed.
    split; (intros [(? & H)|?]; [left|by right]); [destruct H as (? & [= ->] & [= ->]); done|].
    destruct H as [-> ->]. split; [done|]. split; [lia|done]. }
  split; [split|].
  - apply I.
  - exact Hs.
  - unfold htab'. rewrite nodes_upd, length_insert. apply I.
  - intros j Hj. change (size htab') with (size htab) in Hj. destruct (Z.eq_dec j i0) as [->|N].
    + right; right. exists k, d. split; [apply O; by left|]. split.
      * unfold htab'. rewrite (node_upd htab I i0 nd _ Hi) by lia. by rewrite Z.eqb_refl.
      * by apply (reach_upd htab I i0 nd _ Hi Hnd).
    + by apply (slot_upd htab I i0 nd _ Hi Hnd).
  - assert (X : forall j d', ~ occ htab j k d')
      by (intros j d' Hj; assert (m !! k = Some d') as E by (apply R; eauto); congruence).
    intros j j' k' d1 d2 H1 H2. apply O in H1, H2.
    destruct H1 as [(-> & -> & ->)|[N1 H1]], H2 as [(-> & E & ->)|[N2 H2]]; try done.
    + exfalso. by apply (X _ _ H2).
    + subst. exfalso. by apply (X _ _ H1).
    + by apply (inv_unique _ I j j' k' d1 d2).
  - unfold htab'. rewrite (count_upd htab I i0 nd _ Hi). unfold nd at 1. cbn [filled upd].
    rewrite (inv_filled _ I). unfold nd. cbn [used]. unfold b2z.
    destruct (Z.ltb_spec 0 (used (node_at htab i0))); [destruct Hu as [Hu|Hu]; rewrite Hu in *; unfold USED_FREE, USED_DELETED in *; lia|].
    destruct (Z.ltb_spec 0 (first_hash k (size htab))); lia.
  - intros k' d'. rewrite lookup_insert_Some. split.
    + intros [(<- & <-)|(N & H)]; [exists i0; apply O; by left|].
      apply R in H as [j H]. exists j. apply O. right. split; [|done]. intros ->. by apply (Free _ _ H).
    + intros [j Hj]. apply O in Hj as [(-> & -> & ->)|[N H]]; [by left|].
      right. assert (m !! k' = Some d') as E by (apply R; eauto). split; [congruence|done].
Qed.

(** New data in the slot of a key. *)
Lemma inv_overwrite htab i0 k d0 d e m : inv htab -> rep htab m -> occ htab i0 k d0 ->
  e_key e = Some k -> e_data e = Some d ->
  let htab' := upd htab i0 (mk_node (used (node_at htab i0)) e) (filled htab) in
  inv htab' /\ rep htab' (<[k := d]> m).
Proof.
  intros I R O0 Ek Ed htab'. pose proof (inv_size _ I) as Hs. pose proof O0 as (Hi & U0 & K0 & D0).
  set (nd := mk_node (used (node_at htab i0)) e) in *.
  assert (Hnd : used nd <> USED_FREE) by (simpl; unfold USED_FREE; lia).
  assert (O : forall j k' d', occ htab' j k' d' <-> (j = i0 /\ k' = k /\ d' = d) \/ (j <> i0 /\ occ htab j k' d')).
  { intros. unfold htab'. rewrite (occ_upd htab I i0 nd _ Hi). unfold nd. cbn [used entry]. rewrite Ek, Ed.
    split; (intros [(? & H)|?]; [left|by right]); [destruct H as (? & [= ->] & [= ->]); done|].
    destruct H as [-> ->]. split; [done|]. split; [lia|done]. }
  split; [split|].
  - apply I.
  - exact Hs.
  - unfold htab'. rewrite nodes_upd, length_insert. apply I.
  - intros j Hj. change (size htab') with (size htab) in Hj. destruct (Z.eq_dec j i0) as [->|N].
    + destruct (inv_slots _ I i0 Hi) as [S|[S|(k' & d' & O' & U & Rc)]];
        [unfold USED_FREE in S; lia|unfold USED_DELETED in S; lia|].
      assert (k' = k) as -> by (destruct O' as (_ & _ & E & _); congruence).
      right; right. exists k, d. split; [apply O; by left|]. split.
      * unfold htab'. rewrite (node_upd htab I i0 nd _ Hi) by lia. by rewrite Z.eqb_refl.
      * by apply (reach_upd htab I i0 nd _ Hi Hnd).
    + by apply (slot_upd htab I i0 nd _ Hi Hnd).
  - intros j j' k' d1 d2 H1 H2. apply O in H1, H2.
    destruct H1 as [(-> & -> & ->)|[N1 H1]], H2 as [(-> & E & ->)|[N2 H2]]; try done.
    + exfalso. apply N2. by apply (inv_unique _ I j' i0 k d2 d0).
    + subst. exfalso. apply N1. by apply (inv_unique _ I j i0 k d1 d0).
    + by apply (inv_unique _ I j j' k' d1 d2).
  - unfold htab'. rewrite (count_upd htab I i0 nd _ Hi). unfold nd. cbn [filled upd used].
    rewrite (inv_filled _ I). lia.
  - intros k' d'. rewrite lookup_insert_Some. split.
    + intros [(<- & <-)|(N & H)]; [exists i0; apply O; by left|].
      apply R in H as [j H]. exists j. apply O. right. split; [|done].
      intros ->. destruct H as (_ & _ & H & _). congruence.
    + intros [j Hj]. apply O in Hj as [(-> & -> & ->)|[N H]]; [by left|].
      right. split; [|apply R; eauto]. intros <-. apply N. by apply (inv_unique _ I j i0 k d' d0).
Qed.

(** The deleted mark in the slot of a key. *)
Lemma inv_delete htab i0 k d0 e m : inv htab -> rep htab m -> occ htab i0 k d0 ->
  let htab' := upd htab i0 (mk_node USED_DELETED e) (filled htab - 1) in
  inv htab' /\ rep htab' (delete k m).
Proof.
  intros I R O0 htab'. pose proof (inv_size _ I) as Hs. pose proof O0 as (Hi & U0 & K0 & D0).
  set (nd := mk_node USED_DELETED e) in *.
  assert (Hnd : used nd <> USED_FREE) by done.
  assert (O : forall j k' d', occ htab' j k' d' <-> j <> i0 /\ occ htab j k' d').
  { intros. unfold htab'. rewrite (occ_upd htab I i0 nd _ Hi). split; [|by right].
    intros [(_ & H & _)|?]; [simpl in H; unfold USED_DELETED in H; lia|done]. }
  split; [split|].
  - apply I.
  - exact Hs.
  - unfold htab'. rewrite nodes_upd, length_insert. apply I.
  - intros j Hj. change (size htab') with (size htab) in Hj. destruct (Z.eq_dec j i0) as [->|N].
    + right; left. unfold htab'. rewrite (node_upd htab I i0 nd _ Hi) by lia. by rewrite Z.eqb_refl.
    + by apply (slot_upd htab I i0 nd _ Hi Hnd).
  - intros j j' k' d1 d2 H1 H2. apply O in H1 as [_ H1], H2 as [_ H2].
    by apply (inv_unique _ I j j' k' d1 d2).
  - unfold htab'. rewrite (count_upd htab I i0 nd _ Hi). unfold nd. cbn [filled upd used].
    rewrite (inv_filled _ I). unfold b2z, USED_DELETED.
    destruct (Z.ltb_spec 0 (used (node_at htab i0))); [|lia]. destruct (Z.ltb_spec 0 (-1)); lia.
  - intros k' d'. rewrite lookup_delete_Some. split.
    + intros [N H]. apply R in H as [j H]. exists j. apply O. split; [|done].
      intros ->. destruct H as (_ & _ & H & _). congruence.
    + intros [j Hj]. apply O in Hj as [N H]. split; [|apply R; eauto].
      intros <-. apply N. by apply (inv_unique _ I j i0 k d' d0).
Qed.

Lemma count_range htab : inv htab -> 0 <= filled htab <= size htab.
Proof.
  intros I. rewrite (inv_filled _ I). unfold count_used. pose proof (inv_length _ I).
  pose proof (length_filter (fun nd => 0 < used nd) (drop 1 (nodes htab))) as L.
  rewrite length_drop in L. pose proof (inv_size _ I). lia.
Qed.

(** ** The operations on the map *)

(** Hooks that let every change through and leave key and data alone. *)
Record permissive (hk : hooks) : Prop := {
  pm_change : forall e d op f, change_ok hk e d op f = false;
  pm_callback : forall c n v op f htab, run_callback hk c n v op f htab = Some (0, htab);
  pm_init : forall e, e_key (env_flags_init hk (env_callback_init hk e)) = e_key e /\
                      e_data (env_flags_init hk (env_callback_init hk e)) = e_data e;
  pm_strdup : forall s, strdup_ok hk s = true
}.

Lemma do_callback_ok hk e k v op f htab : permissive hk -> do_callback hk e k v op f htab = Some (0, htab).
Proof. intros P. unfold do_callback. destruct (e_callback e); [apply P|done]. Qed.

Lemma hsearch_present hk key data action htab flag idx d : inv htab -> occ htab idx key d ->
  hsearch_r hk key data action htab flag =
    _compare_and_overwrite_entry hk key data action htab flag (first_hash key (size htab)) idx.
Proof.
  intros I O. unfold hsearch_r. pose proof (found_spec hk key data action htab flag I) as Ho.
  cbv zeta in Ho |- *.
  rewrite (search_present hk key data action htab flag I idx d _ O Ho).
  destruct (_compare_and_overwrite_entry hk key data action htab flag _ idx); reflexivity.
Qed.

Lemma hsearch_find hk key data htab flag m : inv htab -> rep htab m ->
  match m !! key with
  | Some d => exists idx, occ htab idx key d /\
      hsearch_r hk key data ENV_FIND htab flag = Some (mk_res idx (Some idx) 0 htab)
  | None => hsearch_r hk key data ENV_FIND htab flag = Some (mk_res 0 None ESRCH htab)
  end.
Proof.
  intros I R. destruct (m !! key) as [d|] eqn:E.
  - apply R in E as [idx O]. exists idx. split; [done|].
    rewrite (hsearch_present hk key data ENV_FIND htab flag idx d I O).
    unfold _compare_and_overwrite_entry.
    assert (H : hit htab key idx = true) by (apply hit_occ; [done|apply O|eauto]).
    unfold hit in H. by rewrite H.
  - unfold hsearch_r. pose proof (found_spec hk key data ENV_FIND htab flag I) as Ho. cbv zeta in Ho |- *.
    edestruct (search_absent hk key data ENV_FIND htab flag I) as (j & fd & _ & _ & _ & _ & E'); [|exact Ho|];
      [|by rewrite E'].
    intros idx d O. assert (m !! key = Some d) as X by (apply R; eauto). congruence.
Qed.

(** A key that is not in the table: refused when the table is full, otherwise
    put in a free or deleted slot on its probe sequence, and taken out again
    when the change is denied. *)
Lemma hsearch_new hk key d htab flag : (forall s, strdup_ok hk s = true) -> inv htab ->
  (forall idx d', ~ occ htab idx key d') ->
  if filled htab =? size htab
  then hsearch_r hk key (Some d) ENV_ENTER htab flag = Some (mk_res 0 None ENOMEM htab)
  else exists b, 1 <= b <= size htab /\
    (used (node_at htab b) = USED_FREE \/ used (node_at htab b) = USED_DELETED) /\ reach htab key b /\
    let old := entry (node_at htab b) in
    let e := env_flags_init hk (env_callback_init hk
               (mk_entry (Some key) (Some d) (e_callback old) (e_flags old))) in
    let htab' := upd htab b (mk_node (first_hash key (size htab)) e) (filled htab + 1) in
    hsearch_r hk key (Some d) ENV_ENTER htab flag =
      (if change_ok hk e (Some d) env_op_create flag then Some (mk_res 0 None EPERM (_hdelete htab' b))
       else
         '(ret, h) ← do_callback hk e key (Some d) env_op_create flag htab';
         Some (if negb (ret =? 0) then mk_res 0 None EINVAL (_hdelete h b) else mk_res 1 (Some b) 0 h)).
Proof.
  intros Sd I Ab. unfold hsearch_r. pose proof (found_spec hk key (Some d) ENV_ENTER htab flag I) as Ho.
  cbv zeta in Ho |- *.
  destruct (search_absent hk key _ ENV_ENTER htab flag I _ Ab Ho) as (j & fd & Hj & Pj & F & Fr & ->).
  unfold enter_new. destruct (Z.eqb_spec (filled htab) (size htab)) as [|Nf]; [done|].
  destruct (bucket_spec key htab I j fd Hj Pj F Fr Nf) as (Rb & Ub & Rc).
  fold (bucket (pr (size htab) key j) fd). set (b := bucket (pr (size htab) key j) fd) in *.
  exists b. split; [done|]. split; [done|]. split; [done|]. unfold strdup. rewrite !Sd. cbv zeta.
  set (e := mk_entry (Some key) (Some d) _ _). pose proof (count_range _ I). pose proof (inv_size _ I).
  assert (Eq : set_node (set_filled (set_node htab b (mk_node (first_hash key (size htab)) e))
      (filled (set_node htab b (mk_node (first_hash key (size htab)) e)) + 1)) b
      (mk_node (first_hash key (size htab)) (env_flags_init hk (env_callback_init hk e))) =
    upd htab b (mk_node (first_hash key (size htab)) (env_flags_init hk (env_callback_init hk e))) (filled htab + 1)).
  { unfold upd. unfold set_node at 1. f_equal.
    - f_equal. change (nodes (set_filled (set_node htab b (mk_node (first_hash key (size htab)) e))
        (filled (set_node htab b (mk_node (first_hash key (size htab)) e)) + 1)))
        with (<[Z.to_nat b := mk_node (first_hash key (size htab)) e]> (nodes htab)).
      by rewrite list_insert_insert_eq.
    - cbn [set_filled set_node filled]. by rewrite u32_small by lia. }
  by rewrite Eq.
Qed.

Lemma _hdelete_upd htab idx k d : inv htab -> occ htab idx k d ->
  _hdelete htab idx = upd htab idx (mk_node USED_DELETED
    (mk_entry None None (e_callback (entry (node_at htab idx))) 0)) (filled htab - 1).
Proof.
  intros I O. pose proof (count_range _ I). pose proof (inv_size _ I).
  assert (1 <= filled htab).
  { rewrite (inv_filled _ I). unfold count_used. destruct O as (Hi & U & _). pose proof (inv_length _ I).
    destruct (lookup_lt_is_Some_2 (nodes htab) (Z.to_nat idx) ltac:(lia)) as [y Hy].
    assert (node_at htab idx = y) as Ey by (by apply nth_of_lookup). rewrite Ey in U.
    assert (y ∈ filter (fun nd => 0 < used nd) (drop 1 (nodes htab))) as Hin.
    { apply list_elem_of_filter. split; [done|]. apply list_elem_of_lookup. exists (Z.to_nat (idx - 1)).
      rewrite lookup_drop. by replace (1 + Z.to_nat (idx - 1))%nat with (Z.to_nat idx) by lia. }
    destruct (filter _ _); [by apply not_elem_of_nil in Hin|simpl; lia]. }
  unfold _hdelete, set_node, set_filled, upd, nodes. cbn [table size filled default from_option].
  by rewrite u32_small by lia.
Qed.

Lemma hsearch_enter hk key d htab flag m : permissive hk -> inv htab -> rep htab m ->
  exists r, hsearch_r hk key (Some d) ENV_ENTER htab flag = Some r /\
    match m !! key with
    | Some _ => 0 < s_ret r /\ inv (s_htab r) /\ rep (s_htab r) (<[key := d]> m) /\
                size (s_htab r) = size htab /\ filled (s_htab r) = filled htab
    | None =>
        if filled htab =? size htab then r = mk_res 0 None ENOMEM htab
        else s_ret r = 1 /\ inv (s_htab r) /\ rep (s_htab r) (<[key := d]> m) /\
             size (s_htab r) = size htab /\ filled (s_htab r) = filled htab + 1
    end.
Proof.
  intros P I R. destruct (m !! key) as [d0|] eqn:E.
  - apply R in E as [idx O]. pose proof O as ([Hi _] & U & K & _).
    rewrite (hsearch_present hk key _ ENV_ENTER htab flag idx d0 I O).
    unfold _compare_and_overwrite_entry.
    assert (H : hit htab key idx = true) by (apply hit_occ; [done|apply O|eauto]).
    unfold hit in H. rewrite H. cbv zeta. rewrite (pm_change _ P), (do_callback_ok hk _ _ _ _ _ _ P).
    cbn [mbind option_bind Z.eqb negb]. unfold strdup. rewrite (pm_strdup _ P). eexists. split; [done|].
    cbn [s_ret s_htab]. split; [lia|].
    destruct (inv_overwrite htab idx key d0 d (mk_entry (e_key (entry (node_at htab idx))) (Some d)
      (e_callback (entry (node_at htab idx))) (e_flags (entry (node_at htab idx)))) m I R O K eq_refl) as [I' R'].
    split; [exact I'|]. split; [exact R'|done].
  - assert (Ab : forall idx d', ~ occ htab idx key d').
    { intros idx d' O. assert (m !! key = Some d') as X by (apply R; eauto). congruence. }
    pose proof (hsearch_new hk key d htab flag (pm_strdup _ P) I Ab) as N.
    destruct (Z.eqb_spec (filled htab) (size htab)); [eauto|]. destruct N as (b & Rb & Ub & Rc & N).
    cbv zeta in N. rewrite (pm_change _ P), (do_callback_ok hk _ _ _ _ _ _ P) in N.
    cbn [mbind option_bind Z.eqb negb] in N.
    eexists. split; [exact N|]. cbn [s_ret s_htab]. split; [done|].
    set (e := mk_entry (Some key) (Some d) _ _) in *. destruct (pm_init _ P e) as [Ek Ed].
    destruct (inv_enter htab b key d (env_flags_init hk (env_callback_init hk e)) m I R Rb Ub Rc E Ek Ed) as [I' R'].
    split; [exact I'|]. split; [exact R'|done].
Qed.

Lemma hdelete_spec hk key htab flag m : permissive hk -> inv htab -> rep htab m ->
  exists ret htab', hdelete_r hk key htab flag = Some (ret, htab') /\ inv htab' /\
    rep htab' (delete key m) /\ size htab' = size htab /\
    match m !! key with
    | Some _ => ret = 0 /\ filled htab' = filled htab - 1
    | None => ret = - ENOENT /\ htab' = htab
    end.
Proof.
  intros P I R. unfold hdelete_r. pose proof (hsearch_find hk key None htab 0 m I R) as F.
  destruct (m !! key) as [d|] eqn:E.
  - destruct F as (idx & O & ->). cbn [s_ret]. pose proof O as ([Hi _] & _).
    destruct (Z.eqb_spec idx 0); [lia|]. rewrite (pm_change _ P), (do_callback_ok hk _ _ _ _ _ _ P).
    cbn [mbind option_bind Z.eqb negb]. eexists _, _. split; [done|].
    destruct (inv_delete htab idx key d (mk_entry None None (e_callback (entry (node_at htab idx))) 0) m I R O)
      as [I' R'].
    rewrite (_hdelete_upd htab idx key d I O). split; [exact I'|]. split; [exact R'|]. split; [done|]. split; done.
  - rewrite F. cbn [s_ret Z.eqb]. eexists _, _. split; [done|]. split; [done|].
    split; [by rewrite delete_id|]. split; [done|]. split; done.
Qed.

(** ** Refinement of a bounded map *)
Inductive hop := HFind (k : str) | HEnter (k d : str) | HDelete (k : str).

(** What the caller sees: the data found, or the success of the change. *)
Inductive hobs := OData (d : option str) | ODone (ok : bool).

Definition hstep (hk : hooks) (htab : hsearch_data) (op : hop) : option (hobs * hsearch_data) :=
  match op with
  | HFind k =>
      match hsearch_r hk k None ENV_FIND htab 0 with
      | None => None
      | Some r => Some (OData (match s_retval r with
                               | Some idx => e_data (entry (node_at htab idx)) | None => None end), s_htab r)
      end
  | HEnter k d =>
      match hsearch_r hk k (Some d) ENV_ENTER htab 0 with
      | None => None
      | Some r => Some (ODone (negb (s_ret r =? 0)), s_htab r)
      end
  | HDelete k =>
      match hdelete_r hk k htab 0 with
      | None => None
      | Some (ret, htab) => Some (ODone (ret =? 0), htab)
      end
  end.

(** A map that refuses a new key when it has [cap] keys. *)
Definition mstep (cap : Z) (m : gmap str str) (op : hop) : hobs * gmap str str :=
  match op with
  | HFind k => (OData (m !! k), m)
  | HEnter k d =>
      if bool_decide (m !! k = None) && (Z.of_nat (base.size m) =? cap)
      then (ODone false, m) else (ODone true, <[k := d]> m)
  | HDelete k => (ODone (negb (bool_decide (m !! k = None))), delete k m)
  end.

Fixpoint hrun (hk : hooks) (htab : hsearch_data) (ops : list hop) : option (list hobs * hsearch_data) :=
  match ops with
  | [] => Some ([], htab)
  | op :: ops =>
      match hstep hk htab op with
      | None => None
      | Some (o, htab) =>
          match hrun hk htab ops with
          | None => None
          | Some (os, htab) => Some (o :: os, htab)
          end
      end
  end.

Definition sim (htab : hsearch_data) (m : gmap str str) : Prop :=
  inv htab /\ rep htab m /\ filled htab = Z.of_nat (base.size m).

Lemma hstep_sim hk htab m op : permissive hk -> sim htab m ->
  exists htab', hstep hk htab op = Some (fst (mstep (size htab) m op), htab') /\
    sim htab' (snd (mstep (size htab) m op)) /\ size htab' = size htab.
Proof.
  intros P (I & R & F). destruct op as [k|k d|k]; cbn [hstep mstep].
  - pose proof (hsearch_find hk k None htab 0 m I R) as H. destruct (m !! k) as [d|] eqn:E.
    + destruct H as (idx & (_ & _ & _ & D) & ->). cbn [s_retval s_htab]. rewrite D. by exists htab.
    + rewrite H. by exists htab.
  - destruct (hsearch_enter hk k d htab 0 m P I R) as (r & -> & H).
    destruct (m !! k) as [d0|] eqn:E.
    + destruct H as (H1 & I' & R' & Hs & Hf). destruct (Z.eqb_spec (s_ret r) 0); [lia|].
      rewrite bool_decide_false by done. cbn [andb negb fst snd]. exists (s_htab r).
      split; [done|]. split; [|done]. split; [done|]. split; [done|].
      rewrite Hf, F. by rewrite map_size_insert_Some.
    + rewrite bool_decide_true by done. cbn [andb]. rewrite <- F.
      destruct (Z.eqb_spec (filled htab) (size htab)) as [Ef|Nf].
      * rewrite H. cbn [s_ret s_htab Z.eqb negb fst snd]. by exists htab.
      * destruct H as (H1 & I' & R' & Hs & Hf). rewrite H1. cbn [Z.eqb negb fst snd]. exists (s_htab r).
        split; [done|]. split; [|done]. split; [done|]. split; [done|].
        rewrite Hf, F, map_size_insert_None by done. lia.
  - destruct (hdelete_spec hk k htab 0 m P I R) as (ret & htab' & -> & I' & R' & Hs & H).
    cbn [fst snd]. exists htab'. destruct (m !! k) as [d0|] eqn:E.
    + destruct H as [-> Hf]. rewrite bool_decide_false by done. split; [done|]. split; [|done].
      split; [done|]. split; [done|].
      assert (base.size m <> 0)%nat.
      { intros Z0. apply map_size_empty_inv in Z0. subst m. by rewrite lookup_empty in E. }
      rewrite Hf, F, map_size_delete_Some by eauto. lia.
    + destruct H as [-> ->]. rewrite bool_decide_true by done. split; [done|]. split; [|done].
      split; [done|]. split; [done|]. by rewrite delete_id.
Qed.

(** ** Choosing the size *)

(** No odd number from 3 up to [div] divides. *)
Definition no_odd_below (number div : Z) : Prop :=
  forall q, 3 <= q < div -> Z.odd q = true -> number mod q <> 0.

Lemma isprime_loop_spec fuel number div : 5 <= number < 2 ^ 31 -> 3 <= div <= 46343 -> Z.odd div = true ->
  (div = 3 \/ (div - 2) * (div - 2) < number) -> no_odd_below number div ->
  46345 <= div + 2 * Z.of_nat fuel ->
  exists d, isprime_loop fuel number div = Some d /\ 3 <= d /\ Z.odd d = true /\ no_odd_below number d /\
    (d = 3 \/ (d - 2) * (d - 2) < number) /\ (number <= d * d \/ number mod d = 0).
Proof.
  intros Hn. revert div. induction fuel as [|f IH]; intros div Hd Ho Hp Hb Hf; [lia|].
  cbn [isprime_loop]. rewrite (Z.mod_small (div * div)) by nia.
  destruct (Z.ltb_spec (div * div) number) as [L|L]; cbn [andb].
  - destruct (Z.eqb_spec (number mod div) 0) as [E|E]; cbn [negb].
    + exists div. split_and!; try done; lia || auto.
    + assert (div < 46341) by nia. rewrite u32_small by lia.
      apply IH; [lia| |right; nia| |lia].
      * rewrite Z.odd_add, Ho. done.
      * intros q Hq Oq. destruct (Z.eq_dec q div) as [->|]; [done|].
        destruct (Z.eq_dec q (div + 1)) as [->|]; [rewrite Z.odd_add, Ho in Oq; done|].
        apply Hb; [lia|done].
  - exists div. split_and!; try done; lia || auto.
Qed.

Lemma prime_by_odd number d : 5 <= number -> Z.odd number = true -> no_odd_below number d ->
  number <= d * d -> 3 <= d -> number mod d <> 0 -> Z.odd d = true -> prime number.
Proof.
  intros Hn Hodd Hb Hd H3 Hm Hod. destruct (prime_dec number) as [P|P]; [done|exfalso].
  apply not_prime_divide in P as (x & Hx & [y Hy]); [|lia].
  assert (Small : forall q, 1 < q -> q * q <= number -> (q | number) -> False).
  { intros q Hq Hqq [r Hr]. assert (Oq : Z.odd q = true).
    { destruct (Z.odd q) eqn:E; [done|]. rewrite Hr, Z.odd_mul, E, andb_false_r in Hodd. done. }
    assert (Mq : number mod q = 0) by (rewrite Hr; apply Z.mod_mul; lia).
    assert (q <> 2) by (intros ->; done).
    destruct (Z.eq_dec q d) as [->|]; [done|]. apply (Hb q); [nia|done|done]. }
  destruct (Z.le_gt_cases (x * x) number) as [H|H].
  - apply (Small x); [lia|done|]. by exists y.
  - apply (Small y); [nia|nia|]. exists x. lia.
Qed.

Lemma isprime_correct number : 5 <= number < 2 ^ 31 -> Z.odd number = true ->
  exists b, isprime number = Some b /\ (b = true <-> prime number).
Proof.
  intros Hn Ho. unfold isprime.
  destruct (isprime_loop_spec (Z.to_nat 32768) number 3) as (d & -> & H3 & Od & Hb & Hp & He);
    [lia|lia|done|by left|intros q Hq; lia|rewrite Z2Nat.id by lia; lia|].
  eexists. split; [done|]. destruct (Z.eqb_spec (number mod d) 0) as [E|E]; cbn [negb]; split; try done.
  - intros P. exfalso. apply Z.mod_divide in E; [|lia].
    assert (d < number) by (destruct Hp as [->|?]; nia).
    destruct (Z.divide_prime_r d number (proj2 (prime_alt number) P) E) as [?|[?|[?|?]]]; lia.
  - intros _. destruct He as [He|He]; [|done]. apply (prime_by_odd number d); done || lia.
Qed.

Lemma next_prime_spec fuel nel q : 5 <= nel -> Z.odd nel = true -> nel <= q < 2 ^ 31 -> prime q ->
  q < nel + 2 * Z.of_nat fuel ->
  exists p, next_prime fuel nel = Some p /\ prime p /\ nel <= p <= q /\
    forall r, nel <= r < p -> ~ prime r.
Proof.
  revert nel. induction fuel as [|f IH]; intros nel Hn Ho Hq Pq Hf; [lia|]. cbn [next_prime].
  destruct (isprime_correct nel) as ([|] & -> & Hb); [lia|done| |].
  - exists nel. split; [done|]. split; [by apply Hb|]. split; [lia|]. lia.
  - assert (~ prime nel) as Np by (intros X; by apply Hb in X).
    assert (Ne : forall r, 5 <= r -> Z.odd r = false -> ~ prime r).
    { intros r Hr Or Pr. assert (D : (2 | r)) by (apply Z.mod_divide; [lia|]; rewrite Zmod_odd, Or; done).
      destruct (Z.divide_prime_r 2 r (proj2 (prime_alt r) Pr) D) as [?|[?|[?|?]]]; lia. }
    assert (nel <> q) by congruence.
    assert (nel + 1 <> q).
    { intros <-. apply (Ne (nel + 1)); [lia| |done]. by rewrite Z.odd_add, Ho. }
    destruct (IH (nel + 2)) as (p & E & Pp & R & M); [lia|by rewrite Z.odd_add, Ho|lia|done|lia|].
    exists p. split; [done|]. split; [done|]. split; [lia|]. intros r Hr.
    destruct (Z.eq_dec r nel) as [->|]; [done|]. destruct (Z.eq_dec r (nel + 1)) as [->|].
    + apply Ne; [lia|]. by rewrite Z.odd_add, Ho.
    + apply M. lia.
Qed.

Lemma fresh_sim p : prime p -> 5 <= p < 2 ^ 31 ->
  sim (mk_htab (Some (replicate (Z.to_nat (p + 1)) zero_node)) p 0) ∅.
Proof.
  intros Pp Hp. set (t := mk_htab _ p 0).
  assert (N : forall i, used (node_at t i) = USED_FREE).
  { intros i. unfold node_at, t, nodes. cbn [table]. rewrite nth_lookup.
    change (default [] (Some ?l)) with l.
    destruct (replicate (Z.to_nat (p + 1)) zero_node !! Z.to_nat i) as [x|] eqn:E; [|done].
    apply lookup_replicate in E as [-> _]. done. }
  assert (O : forall i k d, ~ occ t i k d) by (intros i k d (_ & U & _); rewrite N in U; unfold USED_FREE in U; lia).
  split; [split|split].
  - done.
  - exact Hp.
  - unfold nodes, t. cbn [table size]. change (default [] (Some ?l)) with l. rewrite length_replicate. lia.
  - intros i _. left. apply N.
  - intros i j k d d' H. by apply O in H.
  - unfold count_used, nodes, t. cbn [table filled]. change (default [] (Some ?l)) with l.
    rewrite drop_replicate. generalize (Z.to_nat (p + 1) - 1)%nat as c. intros c.
    induction c as [|c IH]; [done|]. simpl. by rewrite filter_cons_False by (simpl; unfold USED_FREE; lia).
  - intros k d. split; [by rewrite lookup_empty|]. intros [i H]. by apply O in H.
  - done.
Qed.

Lemma lor1_odd nel : nel <= Z.lor nel 1 <= nel + 1 /\ Z.odd (Z.lor nel 1) = true.
Proof.
  split; [|rewrite <- Z.bit0_odd, Z.lor_spec; apply orb_true_r].
  destruct (Z.odd nel) eqn:E.
  - assert (Z.lor nel 1 = nel) as ->; [|lia]. apply Z.bits_inj'. intros i Hi. rewrite Z.lor_spec.
    destruct (Z.eq_dec i 0) as [->|]; [rewrite Z.bit0_odd, E; done|].
    change 1 with (2 ^ 0). rewrite (Z.pow2_bits_false 0 i) by lia. by rewrite orb_false_r.
  - assert (N : Z.land nel 1 = 0).
    { apply Z.bits_inj'. intros i Hi. rewrite Z.land_spec, Z.bits_0.
      destruct (Z.eq_dec i 0) as [->|]; [rewrite Z.bit0_odd, E; done|].
      change 1 with (2 ^ 0). rewrite (Z.pow2_bits_false 0 i) by lia. by rewrite andb_false_r. }
    rewrite <- (Z.lxor_lor _ _ N), <- (Z.add_nocarry_lxor _ _ N). lia.
Qed.

Lemma hcreate_size fuel nel q : 4 <= nel -> prime q -> Z.lor nel 1 <= q < 2 ^ 31 ->
  q < nel + 2 * Z.of_nat fuel ->
  exists p, next_prime fuel (Z.lor nel 1) = Some p /\ prime p /\ 5 <= p < 2 ^ 31 /\
    Z.lor nel 1 <= p <= q /\ forall r, Z.lor nel 1 <= r < p -> ~ prime r.
Proof.
  intros Hn Pq Hq Hf. destruct (lor1_odd nel) as [L Lo].
  assert (5 <= Z.lor nel 1) by (destruct (Z.eq_dec nel 4) as [->|]; [done|lia]).
  destruct (next_prime_spec fuel (Z.lor nel 1) q) as (p & E & Pp & R & M); [lia|done|lia|done|lia|].
  exists p. split_and!; done || lia.
Qed.

(** Creating the table.  [hcreate_r] gives a table whose size is the first
    prime from the (odd) requested size on, empty and in order; it searches no
    further than any prime above the request.  With a table already there it
    fails with EINVAL, without memory with ENOMEM. *)
Theorem hcreate_prime (hk : hooks) (fuel : nat) (nel q sz fl : Z) :
  4 <= nel -> prime q -> Z.lor nel 1 <= q < 2 ^ 31 -> q < nel + 2 * Z.of_nat fuel ->
  exists p, prime p /\ Z.lor nel 1 <= p <= q /\ (forall r, Z.lor nel 1 <= r < p -> ~ prime r) /\
    (calloc_ok hk (p + 1) = true ->
       exists htab, hcreate_r hk fuel nel (Some (mk_htab None sz fl)) = Some (1, 0, Some htab) /\
         size htab = p /\ sim htab ∅) /\
    (calloc_ok hk (p + 1) = false ->
       exists htab, hcreate_r hk fuel nel (Some (mk_htab None sz fl)) = Some (0, ENOMEM, Some htab)).
Proof.
  intros Hn Pq Hq Hf. destruct (hcreate_size fuel nel q Hn Pq Hq Hf) as (p & E & Pp & H5 & R & M).
  exists p. split; [done|]. split; [lia|]. split; [done|]. unfold hcreate_r. cbn [table].
  rewrite E, u32_small by lia. split; intros ->; eexists; [|done].
  split; [done|]. split; [done|]. by apply fresh_sim.
Qed.

(** Hooks that allow every change, for concrete tables. *)
Definition hk0 : hooks :=
  mk_hooks (fun _ _ _ _ => false) (fun _ _ _ _ _ htab => Some (0, htab)) (fun e => e) (fun e => e) (fun _ => true)
    (fun _ => true).

Lemma hk0_permissive : permissive hk0.
Proof. by split. Qed.

Lemma prime_7 : prime 7.
Proof.
  destruct (prime_dec 7) as [H|H]; [done|]. apply not_prime_divide in H as (x & Hx & D); [|lia].
  exfalso. apply Z.mod_divide in D; [|lia].
  assert (x = 2 \/ x = 3 \/ x = 4 \/ x = 5 \/ x = 6) as Hc by lia.
  by repeat destruct Hc as [Hc|Hc]; subst x.
Qed.

Definition htab7 : hsearch_data := mk_htab (Some (replicate 8 zero_node)) 7 0.

Lemma hcreate_prime_witness :
  exists p, prime p /\ 7 <= p <= 7 /\ (forall r, 7 <= r < p -> ~ prime r) /\
    (calloc_ok hk0 (p + 1) = true ->
       exists htab, hcreate_r hk0 3 6 (Some (mk_htab None 0 0)) = Some (1, 0, Some htab) /\
         size htab = p /\ sim htab ∅) /\
    (calloc_ok hk0 (p + 1) = false ->
       exists htab, hcreate_r hk0 3 6 (Some (mk_htab None 0 0)) = Some (0, ENOMEM, Some htab)).
Proof.
  apply (hcreate_prime hk0 3 6 7 0 0); [lia|exact prime_7| |lia]. change (Z.lor 6 1) with 7. lia.
Defined.

End Hashtable.
