(* ===== verification/HashAcl.v ===== *)
(** * Access control over the environment table (lib/hashtable.c)

    [hsearch_r] and [hdelete_r] with any access check and with callbacks that
    change the table themselves: the table refines a finite map from names to
    entries in which a change is made exactly when the check and the callback of
    the entry allow it, and in which the callback has its effect. *)

From stdpp Require Import gmap.
From Stdlib Require Import Znumtheory.
From S2P Require Import Prelude.
From S2P Require Import Hashtable.

Module HashAcl.
Import Hashtable.

(** ** The abstract table *)
Abbreviation emap := (gmap str env_entry).

Definition set_data (e : env_entry) (d : str) : env_entry :=
  mk_entry (e_key e) (Some d) (e_callback e) (e_flags e).

(** The entry a new variable starts with. *)
Definition new_entry (hk : hooks) (k d : str) : env_entry :=
  env_flags_init hk (env_callback_init hk (mk_entry (Some k) (Some d) None 0)).

(** What the callbacks do to the map: the return value and the map they leave. *)
Definition effects : Type := Z -> str -> option str -> env_op -> Z -> emap -> Z * emap.

Definition callback (eff : effects) (e : env_entry) (k : str) (v : option str) (op : env_op)
    (flag : Z) (m : emap) : Z * emap :=
  match e_callback e with
  | None => (0, m)
  | Some cb => eff cb k v op flag m
  end.

Inductive aop :=
  | AFind (k : str)
  | AEnter (k d : str) (flag : Z)
  | ADelete (k : str) (flag : Z).

(** What the caller sees: the entry found, or the errno. *)
Inductive aobs := OFound (e : option env_entry) | OErr (err : Z).

(** A change is refused by the check with nothing changed; otherwise the
    callback runs, on a map that has a new variable already, and decides. *)
Definition astep (hk : hooks) (eff : effects) (cap : Z) (m : emap) (op : aop) : aobs * emap :=
  match op with
  | AFind k => (OFound (m !! k), m)
  | AEnter k d flag =>
      match m !! k with
      | Some e =>
          if change_ok hk e (Some d) env_op_overwrite flag then (OErr EPERM, m)
          else
            let '(ret, m) := callback eff e k (Some d) env_op_overwrite flag m in
            if ret =? 0 then (OErr 0, alter (fun e => set_data e d) k m) else (OErr EINVAL, m)
      | None =>
          if Z.of_nat (base.size m) =? cap then (OErr ENOMEM, m)
          else
            let e := new_entry hk k d in
            if change_ok hk e (Some d) env_op_create flag then (OErr EPERM, m)
            else
              let '(ret, m) := callback eff e k (Some d) env_op_create flag (<[k := e]> m) in
              if ret =? 0 then (OErr 0, m) else (OErr EINVAL, delete k m)
      end
  | ADelete k flag =>
      match m !! k with
      | Some e =>
          if change_ok hk e None env_op_delete flag then (OErr EPERM, m)
          else
            let '(ret, m) := callback eff e k None env_op_delete flag m in
            if ret =? 0 then (OErr 0, delete k m) else (OErr EINVAL, m)
      | None => (OErr ENOENT, m)
      end
  end.

(** The operation on the table. *)
Definition cstep (hk : hooks) (htab : hsearch_data) (op : aop) : option (aobs * hsearch_data) :=
  match op with
  | AFind k =>
      match hsearch_r hk k None ENV_FIND htab 0 with
      | None => None
      | Some r => Some (OFound (match s_retval r with
                                | Some idx => Some (entry (node_at htab idx)) | None => None end), s_htab r)
      end
  | AEnter k d flag =>
      match hsearch_r hk k (Some d) ENV_ENTER htab flag with
      | None => None
      | Some r => Some (OErr (match s_retval r with Some _ => 0 | None => s_errno r end), s_htab r)
      end
  | ADelete k flag =>
      match hdelete_r hk k htab flag with
      | None => None
      | Some (ret, htab) => Some (OErr (- ret), htab)
      end
  end.

Fixpoint arun (hk : hooks) (eff : effects) (cap : Z) (m : emap) (ops : list aop) : list aobs * emap :=
  match ops with
  | [] => ([], m)
  | op :: ops =>
      let '(o, m) := astep hk eff cap m op in
      let '(os, m) := arun hk eff cap m ops in (o :: os, m)
  end.

Fixpoint crun (hk : hooks) (htab : hsearch_data) (ops : list aop) : option (list aobs * hsearch_data) :=
  match ops with
  | [] => Some ([], htab)
  | op :: ops =>
      match cstep hk htab op with
      | None => None
      | Some (o, htab) =>
          match crun hk htab ops with
          | None => None
          | Some (os, htab) => Some (o :: os, htab)
          end
      end
  end.

(** ** The relation between the two *)
Definition holds (htab : hsearch_data) (idx : Z) (k : str) (e : env_entry) : Prop :=
  1 <= idx <= size htab /\ 0 < used (node_at htab idx) /\ entry (node_at htab idx) = e /\ e_key e = Some k.

Record esim (htab : hsearch_data) (m : emap) : Prop := {
  es_inv : inv htab;
  es_rep : forall k e, m !! k = Some e <-> exists idx, holds htab idx k e;
  es_filled : filled htab = Z.of_nat (base.size m);
  es_clear : forall idx, 1 <= idx <= size htab -> used (node_at htab idx) <= 0 ->
             e_flags (entry (node_at htab idx)) = 0
}.

(** Variables stay in their slots. *)
Definition stays (htab htab' : hsearch_data) : Prop :=
  size htab' = size htab /\
  forall idx k e, holds htab idx k e -> exists e', holds htab' idx k e'.

Lemma stays_refl htab : stays htab htab.
Proof. split; [done|]. eauto. Qed.

Lemma stays_trans htab1 htab2 htab3 : stays htab1 htab2 -> stays htab2 htab3 -> stays htab1 htab3.
Proof.
  intros [Z1 H1] [Z2 H2]. split; [congruence|]. intros idx k e H.
  destruct (H1 _ _ _ H) as [e' H']. by apply (H2 _ _ e').
Qed.

(** What the table relies on: copies succeed, setting up a new entry keeps its
    name and value and starts from no callback, and a callback ends, does to
    the table what [eff] says of the map, and leaves the variables that are in
    the table where they are. *)
Class Sane (hk : hooks) (eff : effects) : Prop := {
  sn_strdup : forall s, strdup_ok hk s = true;
  sn_key : forall e, e_key (env_flags_init hk (env_callback_init hk e)) = e_key e;
  sn_data : forall e, e_data (env_flags_init hk (env_callback_init hk e)) = e_data e;
  sn_fresh : forall k d c f, env_callback_init hk (mk_entry k d c f) = env_callback_init hk (mk_entry k d None f);
  sn_callback : forall cb k v op f htab m, esim htab m ->
    exists htab', run_callback hk cb k v op f htab = Some (fst (eff cb k v op f m), htab') /\
      esim htab' (snd (eff cb k v op f m)) /\ stays htab htab'
}.

Lemma holds_occ htab idx k e : inv htab -> holds htab idx k e -> occ htab idx k (data_of e) /\ e_data e = Some (data_of e).
Proof.
  intros I (R & U & E & K).
  destruct (inv_slots _ I idx R) as [F|[F|(k' & d & O & _)]];
    [unfold USED_FREE in F; lia|unfold USED_DELETED in F; lia|].
  pose proof O as (_ & _ & K' & D). rewrite E in K', D. rewrite K in K'. injection K' as ->.
  unfold data_of. rewrite D. by split.
Qed.

Lemma occ_holds htab idx k d : occ htab idx k d ->
  holds htab idx k (entry (node_at htab idx)) /\ data_of (entry (node_at htab idx)) = d.
Proof. intros (R & U & K & D). unfold holds, data_of. rewrite D. by split. Qed.

Lemma esim_rep htab m : esim htab m -> rep htab (data_of <$> m).
Proof.
  intros S k d. rewrite lookup_fmap_Some. split.
  - intros (e & <- & E). apply (es_rep _ _ S) in E as [idx H]. exists idx. by apply holds_occ; [apply S|].
  - intros [idx O]. apply occ_holds in O as [H <-]. eexists. split; [done|]. apply (es_rep _ _ S). eauto.
Qed.

Lemma holds_upd htab i0 nd f j k e : inv htab -> 1 <= i0 <= size htab ->
  holds (upd htab i0 nd f) j k e <->
  (j = i0 /\ 0 < used nd /\ entry nd = e /\ e_key e = Some k) \/ (j <> i0 /\ holds htab j k e).
Proof.
  intros I Hi. unfold holds at 1. cbn [size upd]. split.
  - intros (R & H). rewrite (node_upd htab I i0 nd f Hi) in H by lia.
    destruct (Z.eqb_spec j i0) as [->|N]; [by left|]. right. split; [done|]. split; [done|exact H].
  - intros [(-> & H)|(N & R & H)].
    + split; [done|]. rewrite (node_upd htab I i0 nd f Hi) by lia. by rewrite Z.eqb_refl.
    + split; [done|]. rewrite (node_upd htab I i0 nd f Hi) by lia. by destruct (Z.eqb_spec j i0).
Qed.

Lemma clear_upd htab i0 nd f : inv htab -> 1 <= i0 <= size htab -> (used nd <= 0 -> e_flags (entry nd) = 0) ->
  (forall idx, 1 <= idx <= size htab -> used (node_at htab idx) <= 0 -> e_flags (entry (node_at htab idx)) = 0) ->
  forall idx, 1 <= idx <= size (upd htab i0 nd f) -> used (node_at (upd htab i0 nd f) idx) <= 0 ->
    e_flags (entry (node_at (upd htab i0 nd f) idx)) = 0.
Proof.
  intros I Hi Hn C idx R. change (size (upd htab i0 nd f)) with (size htab) in R.
  rewrite (node_upd htab I i0 nd f Hi) by lia. destruct (idx =? i0); [done|by apply C].
Qed.

Lemma holds_unique htab i j k e e' : inv htab -> holds htab i k e -> holds htab j k e' -> i = j /\ e = e'.
Proof.
  intros I H H'. pose proof (proj1 (holds_occ _ _ _ _ I H)) as O. pose proof (proj1 (holds_occ _ _ _ _ I H')) as O'.
  pose proof (inv_unique _ I _ _ _ _ _ O O') as ->. split; [done|]. destruct H as (_ & _ & <- & _), H' as (_ & _ & <- & _). done.
Qed.

(** ** The updates *)
Lemma esim_enter htab m i0 k e : esim htab m -> 1 <= i0 <= size htab ->
  used (node_at htab i0) = USED_FREE \/ used (node_at htab i0) = USED_DELETED ->
  reach htab k i0 -> m !! k = None -> e_key e = Some k -> e_data e <> None ->
  esim (upd htab i0 (mk_node (first_hash k (size htab)) e) (filled htab + 1)) (<[k := e]> m).
Proof.
  intros S Hi Hu Hr Hm Ek Ed. pose proof (es_inv _ _ S) as I. pose proof (h_range _ (inv_size _ I) k) as Hh.
  destruct (e_data e) as [d|] eqn:Hd; [|done].
  assert (Hm' : (data_of <$> m) !! k = None) by (by rewrite lookup_fmap, Hm).
  destruct (inv_enter htab i0 k d e _ I (esim_rep _ _ S) Hi Hu Hr Hm' Ek Hd) as [I' _].
  split; [exact I'| | |].
  - intros k' e'. setoid_rewrite (holds_upd htab i0 _ _ _ _ _ I Hi). cbn [used entry].
    destruct (decide (k = k')) as [<-|N].
    + rewrite lookup_insert_eq. split.
      * intros [= <-]. exists i0. left. split_and!; done || lia.
      * intros (j & [(-> & _ & -> & _)|(_ & H)]); [done|].
        assert (m !! k = Some e') by (apply (es_rep _ _ S); eauto). congruence.
    + rewrite lookup_insert_ne by done. rewrite (es_rep _ _ S). split.
      * intros (j & H). exists j. right. split; [|done]. intros ->. destruct H as (_ & U & _).
        destruct Hu as [Hu|Hu]; rewrite Hu in U; unfold USED_FREE, USED_DELETED in U; lia.
      * intros (j & [(-> & _ & <- & H)|(_ & H)]); [congruence|eauto].
  - cbn [filled upd]. rewrite map_size_insert_None, (es_filled _ _ S) by done. lia.
  - apply clear_upd; [done|done|cbn [used]; lia|apply S].
Qed.

Lemma esim_replace htab m i0 k e e' : esim htab m -> holds htab i0 k e -> e_key e' = Some k -> e_data e' <> None ->
  esim (upd htab i0 (mk_node (used (node_at htab i0)) e') (filled htab)) (<[k := e']> m).
Proof.
  intros S H Ek' Ed'. pose proof (es_inv _ _ S) as I. pose proof H as (Hi & U & Ee & Ek).
  destruct (holds_occ _ _ _ _ I H) as [O _]. destruct (e_data e') as [d|] eqn:Hd; [|done].
  destruct (inv_overwrite htab i0 k (data_of e) d e' _ I (esim_rep _ _ S) O Ek' Hd) as [I' _].
  assert (m !! k = Some e) as Hm by (apply (es_rep _ _ S); eauto). split; [exact I'| | |].
  - intros k' e2. setoid_rewrite (holds_upd htab i0 _ _ _ _ _ I Hi). cbn [used entry].
    destruct (decide (k = k')) as [<-|N].
    + rewrite lookup_insert_eq. split.
      * intros [= <-]. exists i0. left. by split_and!.
      * intros (j & [(-> & _ & -> & _)|(Nj & H')]); [done|].
        by destruct (holds_unique _ _ _ _ _ _ I H' H).
    + rewrite lookup_insert_ne by done. rewrite (es_rep _ _ S). split.
      * intros (j & H'). exists j. right. split; [|done]. intros ->.
        destruct H' as (_ & _ & <- & K'). rewrite Ee in K'. congruence.
      * intros (j & [(-> & _ & <- & H')|(_ & H')]); [congruence|eauto].
  - cbn [filled upd]. rewrite map_size_insert_Some by eauto. apply S.
  - apply clear_upd; [done|done|cbn [used]; lia|apply S].
Qed.

Lemma esim_overwrite htab m i0 k e d : esim htab m -> holds htab i0 k e ->
  esim (upd htab i0 (mk_node (used (node_at htab i0)) (set_data e d)) (filled htab)) (<[k := set_data e d]> m).
Proof. intros S H. apply (esim_replace htab m i0 k e); try done. apply H. Qed.

Lemma esim_delete htab m i0 k e : esim htab m -> holds htab i0 k e -> esim (_hdelete htab i0) (delete k m).
Proof.
  intros S H. pose proof (es_inv _ _ S) as I. pose proof H as (Hi & U & Ee & Ek).
  destruct (holds_occ _ _ _ _ I H) as [O _]. rewrite (_hdelete_upd _ _ _ _ I O).
  destruct (inv_delete htab i0 k (data_of e) (mk_entry None None (e_callback (entry (node_at htab i0))) 0) _ I
    (esim_rep _ _ S) O) as [I' _].
  assert (m !! k = Some e) as Hm by (apply (es_rep _ _ S); eauto). split; [exact I'| | |].
  - intros k' e'. setoid_rewrite (holds_upd htab i0 _ _ _ _ _ I Hi). cbn [used entry].
    destruct (decide (k = k')) as [<-|N].
    + rewrite lookup_delete_eq. split; [done|].
      intros (j & [(_ & U' & _)|(Nj & H')]); [unfold USED_DELETED in U'; lia|].
      by destruct (holds_unique _ _ _ _ _ _ I H' H).
    + rewrite lookup_delete_ne by done. rewrite (es_rep _ _ S). split.
      * intros (j & H'). exists j. right. split; [|done]. intros ->.
        destruct H' as (_ & _ & <- & K'). rewrite Ee in K'. congruence.
      * intros (j & [(_ & U' & _)|(_ & H')]); [unfold USED_DELETED in U'; lia|eauto].
  - cbn [filled upd]. rewrite map_size_delete_Some by eauto. rewrite (es_filled _ _ S).
    assert (base.size m <> 0)%nat; [|lia]. intros Z0. apply map_size_empty_inv in Z0. by subst m.
  - apply clear_upd; [done|done|done|apply S].
Qed.

(** ** Changing every entry in place *)
Lemma walk_update_node f htab i : inv htab -> 1 <= i <= size htab ->
  node_at (walk_update f htab) i =
    (if 0 <? used (node_at htab i) then mk_node (used (node_at htab i)) (f (entry (node_at htab i)))
     else node_at htab i).
Proof.
  intros I Hi. pose proof (inv_length _ I) as L. unfold walk_update, node_at, nodes in *.
  destruct (table htab) as [t|]; [|simpl in L; lia]. cbn [table]. change (default [] (Some ?l)) with l in *.
  rewrite !nth_lookup. destruct t as [|n0 t]; [simpl in L; lia|].
  replace (Z.to_nat i) with (S (Z.to_nat (i - 1))) by lia.
  change (take 1 (n0 :: t)) with [n0]. change (drop 1 (n0 :: t)) with (drop 0 t). rewrite drop_0.
  change ([n0] ++ ?l) with (n0 :: l). rewrite !lookup_cons.
  change (map ?g t) with (g <$> t). rewrite list_lookup_fmap. simpl in L.
  destruct (lookup_lt_is_Some_2 t (Z.to_nat (i - 1)) ltac:(lia)) as [nd ->]. done.
Qed.

Lemma walk_update_esim f htab m : esim htab m ->
  (forall e, e_key (f e) = e_key e /\ e_data (f e) = e_data e) -> esim (walk_update f htab) (f <$> m).
Proof.
  intros S Hf. pose proof (es_inv _ _ S) as I. pose proof (inv_length _ I) as L. pose proof (inv_size _ I) as Hs.
  assert (Z' : size (walk_update f htab) = size htab) by (unfold walk_update; by destruct (table htab)).
  assert (F' : filled (walk_update f htab) = filled htab) by (unfold walk_update; by destruct (table htab)).
  assert (U : forall i, 1 <= i <= size htab -> used (node_at (walk_update f htab) i) = used (node_at htab i)).
  { intros i Hi. rewrite walk_update_node by done. by destruct (0 <? _). }
  assert (O : forall i k d, occ (walk_update f htab) i k d <-> occ htab i k d).
  { intros i k d. unfold occ. rewrite Z'.
    destruct (decide (1 <= i <= size htab)) as [Hi|N]; [|by split; intros [? _]].
    rewrite U, walk_update_node by done. destruct (Z.ltb_spec 0 (used (node_at htab i))).
    - cbn [entry]. by rewrite (proj1 (Hf _)), (proj2 (Hf _)).
    - split; intros (_ & ? & _); lia. }
  assert (Nl : nodes (walk_update f htab) = take 1 (nodes htab) ++
    map (fun nd => if 0 <? used nd then mk_node (used nd) (f (entry nd)) else nd) (drop 1 (nodes htab))).
  { unfold walk_update, nodes. destruct (table htab) eqn:Et; [done|by rewrite Et]. }
  split; [split| | |].
  - rewrite Z'. apply I.
  - rewrite Z'. apply I.
  - rewrite Z', Nl, length_app, length_map, <- length_app, take_drop. done.
  - intros i. rewrite Z'. intros Hi. unfold slot_ok. rewrite U by done.
    destruct (inv_slots _ I i Hi) as [X|[X|(k & d & Ok & Uk & (j & Hj & Ej & Hb))]]; [by left|by right; left|].
    right; right. exists k, d. rewrite O, Z'. split; [done|]. split; [done|]. exists j. rewrite Z'.
    split; [done|]. split; [done|]. intros j' Hj'. rewrite U by (apply pr_range; done). by apply Hb.
  - intros i j k d d'. rewrite !O. apply I.
  - rewrite F', (inv_filled _ I). unfold count_used. rewrite Nl. f_equal.
    assert (forall l : list env_entry_node, length (filter (fun nd => 0 < used nd) l) =
      length (filter (fun nd => 0 < used nd) (map (fun nd => if 0 <? used nd then mk_node (used nd) (f (entry nd)) else nd) l))) as C.
    { induction l as [|nd l IH]; [done|]. cbn [map]. rewrite !filter_cons.
      destruct (Z.ltb_spec 0 (used nd)); repeat case_decide; cbn [used] in *; simpl; rewrite ?IH; done || lia. }
    destruct (nodes htab) as [|n0 t]; [simpl in L; lia|]. change (take 1 (n0 :: t)) with [n0].
    change (drop 1 (n0 :: t)) with (drop 0 t). rewrite drop_0. change ([n0] ++ ?l) with (n0 :: l).
    change (drop 1 (n0 :: ?l)) with (drop 0 l). by rewrite drop_0, <- C.
  - intros k e. rewrite lookup_fmap_Some. split.
    + intros (e0 & <- & E). apply (es_rep _ _ S) in E as (i & Hi & Hu & He & Hk). exists i. unfold holds.
      rewrite Z', U, walk_update_node by done. destruct (Z.ltb_spec 0 (used (node_at htab i))); [|lia].
      cbn [entry]. rewrite He, (proj1 (Hf _)). done.
    + intros (i & Hi & Hu & He & Hk). rewrite Z' in Hi. rewrite U in Hu by done.
      rewrite walk_update_node in He by done. destruct (Z.ltb_spec 0 (used (node_at htab i))); [|lia].
      cbn [entry] in He. subst e. eexists. split; [done|]. apply (es_rep _ _ S). exists i.
      rewrite (proj1 (Hf _)) in Hk. done.
  - rewrite F', map_size_fmap. apply S.
  - intros i. rewrite Z'. intros Hi Hu. rewrite U in Hu by done. rewrite walk_update_node by done.
    destruct (Z.ltb_spec 0 (used (node_at htab i))); [lia|]. by apply (es_clear _ _ S).
Qed.

Lemma replace_stays htab i0 k e e' : inv htab -> holds htab i0 k e -> e_key e' = Some k ->
  stays htab (upd htab i0 (mk_node (used (node_at htab i0)) e') (filled htab)).
Proof.
  intros I H Ek. pose proof H as (Hi & U & Ee & _). split; [done|]. intros idx k2 e2 H2.
  destruct (decide (idx = i0)) as [->|N].
  - exists e'. apply (holds_upd htab i0 _ _ _ _ _ I Hi). left. destruct H2 as (_ & _ & Ee2 & Ek2).
    destruct H as (_ & _ & _ & Ek1). split_and!; try done; congruence.
  - exists e2. apply (holds_upd htab i0 _ _ _ _ _ I Hi). by right.
Qed.

Lemma walk_update_stays f htab : inv htab -> (forall e, e_key (f e) = e_key e) -> stays htab (walk_update f htab).
Proof.
  intros I Hf. assert (Z' : size (walk_update f htab) = size htab) by (unfold walk_update; by destruct (table htab)).
  split; [done|]. intros idx k e (Hi & U & Ee & Ek). exists (f e). unfold holds.
  rewrite Z', walk_update_node by done. destruct (Z.ltb_spec 0 (used (node_at htab idx))); [|lia].
  cbn [used entry]. rewrite Ee, Hf. done.
Qed.

(** ** The steps *)
Lemma find_sim hk htab m k data flag : esim htab m ->
  match m !! k with
  | Some e => exists idx, holds htab idx k e /\
      hsearch_r hk k data ENV_FIND htab flag = Some (mk_res idx (Some idx) 0 htab)
  | None => hsearch_r hk k data ENV_FIND htab flag = Some (mk_res 0 None ESRCH htab)
  end.
Proof.
  intros S. pose proof (es_inv _ _ S) as I.
  pose proof (hsearch_find hk k data htab flag _ I (esim_rep _ _ S)) as H. rewrite lookup_fmap in H.
  destruct (m !! k) as [e|] eqn:E; [|done]. destruct H as (idx & O & ->). exists idx. split; [|done].
  apply occ_holds in O as [H _]. apply (es_rep _ _ S) in E as [j Hj].
  by destruct (holds_unique _ _ _ _ _ _ I H Hj) as [-> _].
Qed.

Lemma alter_present (f : env_entry -> env_entry) (m : emap) k e : m !! k = Some e -> alter f k m = <[k := f e]> m.
Proof.
  intros E. apply map_eq. intros k'. destruct (decide (k' = k)) as [->|N].
  - by rewrite lookup_alter_eq, E, lookup_insert_eq.
  - by rewrite lookup_alter_ne, lookup_insert_ne by done.
Qed.

Section Steps.
Context (hk : hooks) (eff : effects) `{!Sane hk eff}.

(** The callback of an entry. *)
Lemma callback_sim e k v op flag htab m : esim htab m ->
  exists htab', do_callback hk e k v op flag htab = Some (fst (callback eff e k v op flag m), htab') /\
    esim htab' (snd (callback eff e k v op flag m)) /\ stays htab htab'.
Proof.
  intros S. unfold do_callback, callback. destruct (e_callback e) as [cb|].
  - by apply sn_callback.
  - exists htab. split; [done|]. split; [done|apply stays_refl].
Qed.

Lemma overwrite_sim htab m idx k e d flag : esim htab m -> holds htab idx k e ->
  let a := astep hk eff (size htab) m (AEnter k d flag) in
  exists r, _compare_and_overwrite_entry hk k (Some d) ENV_ENTER htab flag (first_hash k (size htab)) idx = Some r /\
    OErr (match s_retval r with Some _ => 0 | None => s_errno r end) = fst a /\
    esim (s_htab r) (snd a) /\ size (s_htab r) = size htab.
Proof.
  intros S H a. pose proof (es_inv _ _ S) as I. pose proof H as (Hi & U & Ee & Ek).
  assert (E : m !! k = Some e) by (apply (es_rep _ _ S); eauto).
  destruct (holds_occ _ _ _ _ I H) as [O _].
  assert (Hh : hit htab k idx = true) by (apply hit_occ; [done|done|eauto]).
  unfold a, _compare_and_overwrite_entry. unfold hit in Hh. rewrite Hh, Ee. cbn [astep]. rewrite E.
  destruct (change_ok hk e (Some d) env_op_overwrite flag); [by eexists|].
  destruct (callback_sim e k (Some d) env_op_overwrite flag htab m S) as (h & -> & Sh & [Zh St]).
  destruct (callback eff e k (Some d) env_op_overwrite flag m) as [ret m1]. cbn [mbind option_bind fst snd] in *.
  destruct (ret =? 0); cbn [negb]; [|by eexists].
  destruct (St _ _ _ H) as [e1 H1]. pose proof H1 as (_ & _ & Ee1 & _).
  unfold strdup. rewrite sn_strdup, Ee1. eexists. split; [done|]. cbn [s_retval s_errno s_htab fst snd].
  split; [done|]. split; [|done].
  assert (E1 : m1 !! k = Some e1) by (apply (es_rep _ _ Sh); eauto).
  rewrite (alter_present _ m1 k e1 E1).
  apply (esim_overwrite h m1 idx k e1 d Sh H1).
Qed.

Lemma create_sim htab m k d flag : esim htab m -> m !! k = None ->
  let a := astep hk eff (size htab) m (AEnter k d flag) in
  exists r, hsearch_r hk k (Some d) ENV_ENTER htab flag = Some r /\
    OErr (match s_retval r with Some _ => 0 | None => s_errno r end) = fst a /\
    esim (s_htab r) (snd a) /\ size (s_htab r) = size htab.
Proof.
  intros S E a. pose proof (es_inv _ _ S) as I. unfold a. cbn [astep]. rewrite E.
  assert (Ab : forall idx d', ~ occ htab idx k d').
  { intros idx d' O. apply occ_holds in O as [H _].
    assert (m !! k = Some (entry (node_at htab idx))) by (apply (es_rep _ _ S); eauto). congruence. }
  pose proof (hsearch_new hk k d htab flag sn_strdup I Ab) as N. rewrite <- (es_filled _ _ S).
  destruct (Z.eqb_spec (filled htab) (size htab)); [by eauto|]. destruct N as (b & Rb & Ub & Rc & N).
  cbv zeta in N. rewrite (es_clear _ _ S b Rb), sn_fresh in N
    by (destruct Ub as [->| ->]; unfold USED_FREE, USED_DELETED; lia).
  fold (new_entry hk k d) in N. rewrite N. clear N.
  assert (Ek : e_key (new_entry hk k d) = Some k) by apply sn_key.
  assert (Ed : e_data (new_entry hk k d) <> None) by (unfold new_entry; by rewrite sn_data).
  pose proof (esim_enter htab m b k (new_entry hk k d) S Rb Ub Rc E Ek Ed) as S'.
  set (htab' := upd htab b _ _) in *.
  assert (H' : holds htab' b k (new_entry hk k d)).
  { apply (holds_upd htab b _ _ _ _ _ I Rb). left. pose proof (h_range _ (inv_size _ I) k).
    split_and!; done || (cbn [used]; lia). }
  destruct (change_ok hk (new_entry hk k d) (Some d) env_op_create flag).
  { eexists. split; [done|]. split; [done|]. cbn [s_htab snd]. split; [|done].
    pose proof (esim_delete _ _ _ _ _ S' H') as S2. by rewrite delete_insert_id in S2. }
  destruct (callback_sim (new_entry hk k d) k (Some d) env_op_create flag htab' _ S') as (h & -> & Sh & [Zh St]).
  destruct (callback eff (new_entry hk k d) k (Some d) env_op_create flag _) as [ret m1].
  cbn [mbind option_bind fst snd] in *. eexists. split; [done|]. destruct (ret =? 0); cbn [negb]; [done|].
  destruct (St _ _ _ H') as [e1 H1]. split; [done|]. split; [|done]. by apply (esim_delete _ _ _ _ e1).
Qed.

Lemma enter_sim htab m k d flag : esim htab m ->
  let a := astep hk eff (size htab) m (AEnter k d flag) in
  exists r, hsearch_r hk k (Some d) ENV_ENTER htab flag = Some r /\
    OErr (match s_retval r with Some _ => 0 | None => s_errno r end) = fst a /\
    esim (s_htab r) (snd a) /\ size (s_htab r) = size htab.
Proof.
  intros S. destruct (m !! k) as [e|] eqn:E; [|by apply create_sim].
  pose proof (es_inv _ _ S) as I. apply (es_rep _ _ S) in E as [idx H].
  destruct (holds_occ _ _ _ _ I H) as [O _].
  rewrite (hsearch_present hk k (Some d) ENV_ENTER htab flag idx (data_of e) I O). by apply (overwrite_sim htab m idx k e).
Qed.

Lemma delete_sim htab m k flag : esim htab m ->
  exists ret htab', hdelete_r hk k htab flag = Some (ret, htab') /\
    OErr (- ret) = fst (astep hk eff (size htab) m (ADelete k flag)) /\
    esim htab' (snd (astep hk eff (size htab) m (ADelete k flag))) /\ size htab' = size htab.
Proof.
  intros S. unfold hdelete_r. pose proof (find_sim hk htab m k None 0 S) as F. cbn [astep].
  destruct (m !! k) as [e|] eqn:E.
  - destruct F as (idx & H & ->). pose proof H as (Hi & U & Ee & Ek). cbn [s_ret].
    destruct (Z.eqb_spec idx 0); [lia|]. rewrite Ee.
    destruct (change_ok hk e None env_op_delete flag); [by eexists _, _|].
    destruct (callback_sim e k None env_op_delete flag htab m S) as (h & -> & Sh & [Zh St]).
    destruct (callback eff e k None env_op_delete flag m) as [ret m1]. cbn [mbind option_bind fst snd] in *.
    destruct (ret =? 0); cbn [negb]; [|by eexists _, _].
    destruct (St _ _ _ H) as [e1 H1].
    eexists _, _. split; [done|]. split; [done|]. split; [|done]. by apply (esim_delete _ _ _ _ e1).
  - rewrite F. by eexists _, _.
Qed.

Lemma cstep_sim htab m op : esim htab m ->
  exists htab', cstep hk htab op = Some (fst (astep hk eff (size htab) m op), htab') /\
    esim htab' (snd (astep hk eff (size htab) m op)) /\ size htab' = size htab.
Proof.
  intros S. destruct op as [k|k d flag|k flag]; cbn [cstep].
  - pose proof (find_sim hk htab m k None 0 S) as F. cbn [astep fst snd].
    destruct (m !! k) as [e|]; [destruct F as (idx & (_ & _ & E & _) & ->)|rewrite F];
      cbn [s_retval s_htab]; [rewrite E|]; by exists htab.
  - destruct (enter_sim htab m k d flag S) as (r & -> & <- & S' & Z'). by exists (s_htab r).
  - destruct (delete_sim htab m k flag S) as (ret & h & -> & <- & S' & Z'). by exists h.
Qed.
End Steps.

(** C1: the environment table is an access-controlled map.  For any access
    check, and for callbacks that may change the table themselves in any way the
    effects describe as long as they leave the variables where they are, any
    sequence of look-ups, insertions and deletions on a table in order ends and
    answers what a finite map of that capacity answers that makes a change
    exactly when the check and the entry's callback allow it and that has the
    callbacks' effects, while memory for the copies can be allocated: open
    addressing with deleted marks never loses, duplicates or resurrects a
    variable, a refused creation leaves no variable behind, and an insertion
    fails with ENOMEM only when every slot is in use. *)
Theorem table_refines_map (hk : hooks) (eff : effects) (htab : hsearch_data) (m : emap) (ops : list aop) :
  Sane hk eff -> esim htab m ->
  exists htab', crun hk htab ops = Some (fst (arun hk eff (size htab) m ops), htab') /\
    esim htab' (snd (arun hk eff (size htab) m ops)).
Proof.
  intros P. revert htab m. induction ops as [|op ops IH]; intros htab m S; [by exists htab|].
  cbn [crun arun]. destruct (cstep_sim hk eff htab m op S) as (htab1 & -> & S1 & Hs).
  destruct (astep hk eff (size htab) m op) as [o m1]. cbn [fst snd] in *.
  destruct (IH htab1 m1 S1) as (htab2 & -> & S2). rewrite Hs in S2 |- *.
  destruct (arun hk eff (size htab) m1 ops) as [os m2]. cbn [fst snd] in *. by exists htab2.
Qed.

(** ** Imports are sequences of changes *)

(** The operation carries these flags. *)
Definition with_flag (flag : Z) (op : aop) : Prop :=
  match op with AFind _ => True | AEnter _ _ f | ADelete _ f => f = flag end.

Lemma arun_app hk eff cap m ops1 ops2 :
  snd (arun hk eff cap m (ops1 ++ ops2)) = snd (arun hk eff cap (snd (arun hk eff cap m ops1)) ops2).
Proof.
  revert m. induction ops1 as [|op ops1 IH]; intros m; [done|]. cbn [app arun].
  destruct (astep hk eff cap m op) as [o m1]. specialize (IH m1).
  destruct (arun hk eff cap m1 (ops1 ++ ops2)), (arun hk eff cap m1 ops1). exact IH.
Qed.

Lemma arun_one hk eff cap m op : snd (arun hk eff cap m [op]) = snd (astep hk eff cap m op).
Proof. cbn [arun]. by destruct (astep hk eff cap m op). Qed.

Lemma skip_blank_length l : (length (skip_blank l) <= length l)%nat.
Proof. induction l as [|c l IH]; [done|]. simpl. destruct (_ || _); simpl; lia. Qed.
Lemma skip_comment_length sep l : (length (skip_comment sep l) <= length l)%nat.
Proof. induction l as [|c l IH]; [done|]. simpl. destruct (_ && _); simpl; lia. Qed.
Lemma parse_name_length sep l : (length (snd (parse_name sep l)) <= length l)%nat.
Proof.
  induction l as [|c l IH]; [done|]. simpl. destruct (_ && _); [|simpl; lia].
  destruct (parse_name sep l). simpl in *. lia.
Qed.
Lemma parse_value_length sep l : (length (snd (parse_value sep l)) <= length l)%nat.
Proof.
  enough (forall n l, (length l <= n)%nat -> (length (snd (parse_value sep l)) <= length l)%nat) by eauto.
  clear l. induction n as [|n IH]; intros l Hn; [by destruct l; [|simpl in Hn; lia]|].
  destruct l as [|c l]; [done|]. simpl in *. destruct (_ || _); [simpl; lia|].
  destruct (_ && _).
  - destruct l as [|c' l]; [simpl; lia|]. specialize (IH l ltac:(simpl in Hn; lia)).
    destruct (parse_value sep l). simpl in *. lia.
  - specialize (IH l ltac:(lia)). destruct (parse_value sep l). simpl in *. lia.
Qed.

Lemma tl_length {A} (l : list A) : tl l = [] \/ (length (tl l) < length l)%nat.
Proof. destruct l; [by left|right; simpl; lia]. Qed.

(** A round leaves nothing or less than it had. *)
Definition rest_of (p : parsed) : list Z :=
  match p with PSkip r | PDelete _ r | PSet _ _ r => r end.

Lemma parse_progress sep l : rest_of (parse_entry sep l) = [] \/ (length (rest_of (parse_entry sep l)) < length l)%nat.
Proof.
  unfold parse_entry. pose proof (skip_blank_length l) as L. set (l0 := skip_blank l) in *.
  destruct (at_hd l0 =? 35).
  { cbn [rest_of]. pose proof (skip_comment_length sep l0). destruct (tl_length (skip_comment sep l0)); [by left|right; lia]. }
  pose proof (parse_name_length sep l0) as L1. destruct (parse_name sep l0) as [name l1]. cbn [snd] in L1.
  destruct (_ || _).
  { cbn [rest_of]. assert (length (if (at_hd l1 =? EQUALS)%Z then tl l1 else l1) <= length l1)%nat.
    { destruct (_ =? _); [|lia]. destruct l1; simpl; lia. }
    destruct (tl_length (if at_hd l1 =? EQUALS then tl l1 else l1)); [by left|right; lia]. }
  pose proof (parse_value_length sep (tl l1)) as L2. destruct (parse_value sep (tl l1)) as [v l2].
  cbn [rest_of snd] in *. assert (length (tl l1) <= length l1)%nat by (destruct l1; simpl; lia).
  destruct (tl_length l2); [by left|right; lia].
Qed.

Section Import.
Context (hk : hooks) (eff : effects) `{!Sane hk eff} (sep flag : Z).

(** From [htab], standing for [m], to [htab'] by changes with these flags. *)
Definition reaches (htab : hsearch_data) (m : emap) (htab' : hsearch_data) : Prop :=
  exists ops, Forall (with_flag flag) ops /\ esim htab' (snd (arun hk eff (size htab) m ops)) /\
    size htab' = size htab.

Lemma reaches_refl htab m : esim htab m -> reaches htab m htab.
Proof using Type. by exists []. Qed.

Lemma reaches_step htab m op htab1 htab' : with_flag flag op ->
  size htab1 = size htab -> reaches htab1 (snd (astep hk eff (size htab) m op)) htab' -> reaches htab m htab'.
Proof using Type.
  intros Hf Hs (ops & F & S & Z1). exists (op :: ops). split; [by constructor|]. rewrite Hs in S, Z1.
  change (op :: ops) with ([op] ++ ops). rewrite arun_app, arun_one. by split.
Qed.

Lemma import_loop_reaches fuel : forall remain l vars htab m, esim htab m -> (length l < fuel)%nat ->
  exists ret vars' htab', import_loop fuel hk sep flag remain l vars htab = Some (ret, vars', htab') /\
    reaches htab m htab'.
Proof using Type*.
  induction fuel as [|f IH]; intros remain l vars htab m S Hf; [lia|]. cbn [import_loop].
  pose proof (parse_progress sep l) as Pr.
  assert (Again : forall rest vars htab1 m1, esim htab1 m1 -> rest = [] \/ (length rest < length l)%nat ->
    exists ret vars' htab',
      (if (0 <? remain - (Z.of_nat (length l) - Z.of_nat (length rest))) && negb (at_hd rest =? 0)
       then import_loop f hk sep flag (remain - (Z.of_nat (length l) - Z.of_nat (length rest))) rest vars htab1
       else Some (1, vars, htab1)) = Some (ret, vars', htab') /\ reaches htab1 m1 htab').
  { intros rest vars1 htab1 m1 S1 [->|Hr].
    - change (at_hd []) with 0. cbn [Z.eqb negb]. rewrite andb_false_r. eexists _, _, _.
      split; [done|by apply reaches_refl].
    - destruct (_ && _); [apply IH; [done|lia]|]. eexists _, _, _. split; [done|by apply reaches_refl]. }
  destruct (parse_entry sep l) as [rest|name rest|name value rest]; cbn [rest_of] in Pr.
  - by apply Again.
  - destruct (drop_var_from_set name vars) as [res vars1]. destruct (negb res); [by apply Again|].
    destruct (delete_sim hk eff htab m name flag S) as (ret & htab1 & -> & _ & S1 & Z1).
    destruct (Again rest vars1 htab1 _ S1 Pr) as (r & v & h & E & R). exists r, v, h. split; [exact E|].
    by apply (reaches_step _ _ (ADelete name flag) htab1).
  - destruct (bool_decide _); [eexists _, _, _; split; [done|by apply reaches_refl]|].
    destruct (drop_var_from_set name vars) as [res vars1]. destruct (negb res); [by apply Again|].
    destruct (enter_sim hk eff htab m name value flag S) as (r1 & -> & _ & S1 & Z1).
    destruct (Again rest vars1 (s_htab r1) _ S1 Pr) as (r & v & h & E & R). exists r, v, h. split; [exact E|].
    by apply (reaches_step _ _ (AEnter name value flag) (s_htab r1)).
Qed.

Lemma delete_left_reaches vars : forall htab m, esim htab m ->
  exists htab', delete_left hk vars htab flag = Some htab' /\ reaches htab m htab'.
Proof using Type*.
  induction vars as [|[v|] vars IH]; intros htab m S; cbn [delete_left].
  - exists htab. split; [done|by apply reaches_refl].
  - destruct (delete_sim hk eff htab m v flag S) as (ret & htab1 & -> & _ & S1 & Z1).
    destruct (IH htab1 _ S1) as (h & E & R). exists h. split; [exact E|].
    by apply (reaches_step _ _ (ADelete v flag) htab1).
  - by apply IH.
Qed.

Lemma reaches_trans htab m htab1 htab2 :
  reaches htab m htab1 -> (forall m1, esim htab1 m1 -> reaches htab1 m1 htab2) -> reaches htab m htab2.
Proof using Type.
  intros (ops1 & F1 & S1 & Z1) H. destruct (H _ S1) as (ops2 & F2 & S2 & Z2).
  exists (ops1 ++ ops2). split; [by apply Forall_app|]. rewrite arun_app. rewrite Z1 in S2, Z2. by split.
Qed.
End Import.

(** An import that keeps the table ends, and what it did is a sequence of
    insertions and deletions with its flags. *)
Lemma himport_reaches hk eff fuel append min_entries max_entries htab m env sep flag crlf vars :
  Sane hk eff -> esim htab m -> append = true \/ Z.land flag H_NOCLEAR <> 0 \/ vars <> [] ->
  exists ret htab', himport_r hk fuel true append min_entries max_entries htab env sep flag crlf vars =
      Some (ret, htab') /\ reaches hk eff (if append then Z.lor flag H_NOCLEAR else flag) htab m htab'.
Proof.
  intros Hk S Hf. unfold himport_r. cbn [negb]. set (flag' := if append then _ else flag).
  assert (Keep : negb (negb (Z.land flag' H_NOCLEAR =? 0)) && bool_decide (vars = []) = false).
  { destruct Hf as [->|[Hf|Hf]].
    - unfold flag'. rewrite Z.land_lor_distr_l. change (Z.land H_NOCLEAR H_NOCLEAR) with 1.
      destruct (Z.eqb_spec (Z.lor (Z.land flag H_NOCLEAR) 1) 0) as [E|]; [|done].
      apply Z.lor_eq_0_iff in E as [_ E]. done.
    - assert (Z.land flag' H_NOCLEAR <> 0); [|by destruct (Z.eqb_spec (Z.land flag' H_NOCLEAR) 0)].
      unfold flag'. destruct append; [|done]. rewrite Z.land_lor_distr_l. intros E.
      by apply Z.lor_eq_0_iff in E as [_ E].
    - rewrite (bool_decide_false (vars = [])) by done. apply andb_false_r. }
  rewrite Keep. pose proof (inv_length _ (es_inv _ _ S)) as Hl. pose proof (inv_size _ (es_inv _ _ S)) as Hs.
  destruct (table htab) as [t|] eqn:Et; [|unfold nodes in Hl; rewrite Et in Hl; simpl in Hl; lia].
  cbn [Z.eqb]. destruct (Z.of_nat (length env) =? 0); [eexists _, _; split; [done|by apply reaches_refl]|].
  set (buf := if crlf then _ else _). destruct buf as [data sz'].
  destruct (import_loop_reaches hk eff sep flag' (Datatypes.S (length data)) sz' data (map Some vars) htab m S)
    as (ret & vars' & h & -> & R); [lia|].
  destruct (ret =? 0); [by eexists _, _|]. destruct (negb (Z.land flag' H_NOCLEAR =? 0)); [by eexists _, _|].
  destruct R as (ops & F & S1 & Z1).
  destruct (delete_left_reaches hk eff flag' vars' h _ S1) as (h2 & E2 & _). rewrite E2. eexists _, _. split; [done|].
  apply (reaches_trans hk eff flag' htab m h); [by exists ops|]. intros m1 Sm.
  destruct (delete_left_reaches hk eff flag' vars' h m1 Sm) as (h3 & E3 & R3). congruence.
Qed.

(** ** A concrete table *)
Lemma fresh_esim p : prime p -> 5 <= p < 2 ^ 31 ->
  esim (mk_htab (Some (replicate (Z.to_nat (p + 1)) zero_node)) p 0) ∅.
Proof.
  intros Pp Hp. pose proof (fresh_sim p Pp Hp) as (I & R & F).
  set (t := mk_htab (Some (replicate (Z.to_nat (p + 1)) zero_node)) p 0) in *.
  assert (N : forall i, node_at t i = zero_node).
  { intros i. unfold node_at, t, nodes. cbn [table]. change (default [] (Some ?l)) with l. rewrite nth_lookup.
    destruct (replicate (Z.to_nat (p + 1)) zero_node !! Z.to_nat i) as [x|] eqn:E; [|done].
    by apply lookup_replicate in E as [-> _]. }
  split; [done| |done|].
  - intros k e. split; [done|]. intros (idx & _ & U & _). rewrite N in U. simpl in U. unfold USED_FREE in U. lia.
  - intros idx _ _. by rewrite N.
Qed.

Lemma htab7_esim : esim htab7 ∅.
Proof. apply (fresh_esim 7 prime_7). lia. Qed.

(** Hooks that protect a variable by its flags, which every new variable gets; a
    callback of the variable c takes the flags from all variables. *)
Definition unprotect (e : env_entry) : env_entry := mk_entry (e_key e) (e_data e) (e_callback e) 0.
Definition hk1 : hooks :=
  mk_hooks (fun e _ op _ => match op with env_op_create => false | _ => negb (e_flags e =? 0) end)
    (fun _ _ _ _ _ htab => Some (0, walk_update unprotect htab))
    (fun e => mk_entry (e_key e) (e_data e) (if bool_decide (e_key e = Some [99]) then Some 7 else None) (e_flags e))
    (fun e => mk_entry (e_key e) (e_data e) (e_callback e) 1)
    (fun _ => true) (fun _ => true).
Definition eff1 : effects := fun _ _ _ _ _ m => (0, unprotect <$> m).

Lemma hk1_sane : Sane hk1 eff1.
Proof.
  split; try done. intros cb k v op f htab m S. exists (walk_update unprotect htab). split; [done|].
  split; [by apply walk_update_esim|]. apply walk_update_stays; [apply S|done].
Qed.

Lemma table_refines_map_witness :
  exists htab',
    crun hk1 htab7 [AEnter [97] [49] 0; AEnter [97] [50] 0; ADelete [97] 0; AEnter [99] [50] 0; AEnter [97] [50] 0; AFind [97]] =
      Some ([OErr 0; OErr EPERM; OErr EPERM; OErr 0; OErr 0; OFound (Some (mk_entry (Some [97]) (Some [50]) None 0))],
            htab') /\
    esim htab' (<[ [97] := mk_entry (Some [97]) (Some [50]) None 0 ]>
               (<[ [99] := mk_entry (Some [99]) (Some [50]) (Some 7) 0 ]> ∅)).
Proof.
  set (ops := [AEnter [97] [49] 0; AEnter [97] [50] 0; ADelete [97] 0; AEnter [99] [50] 0; AEnter [97] [50] 0; AFind [97]]).
  assert (E : arun hk1 eff1 (size htab7) ∅ ops =
    ([OErr 0; OErr EPERM; OErr EPERM; OErr 0; OErr 0; OFound (Some (mk_entry (Some [97]) (Some [50]) None 0))],
     <[ [97] := mk_entry (Some [97]) (Some [50]) None 0 ]>
       (<[ [99] := mk_entry (Some [99]) (Some [50]) (Some 7) 0 ]> ∅))) by (vm_compute; reflexivity).
  pose proof (table_refines_map hk1 eff1 htab7 ∅ ops hk1_sane htab7_esim) as T. rewrite E in T. exact T.
Defined.

End HashAcl.
