(* ===== verification/HashEnv.v ===== *)
(** * Environment export and import (lib/hashtable.c)

    Properties of [hexport_r] and [himport_r]: the size of the exported text,
    its order, and that importing an exported environment gives the same
    variables, less those the access check or a callback refuses. *)

From stdpp Require Import gmap sorting.
From Stdlib Require Import Znumtheory.
From S2P Require Import Prelude.
From S2P Require Import Sort.
From S2P Require Import Hashtable.
From S2P Require Import HashAcl.

Module HashEnv.
Import Sort Hashtable HashAcl.

(** ** strcmp is a total preorder *)
Lemma uchar_range s : 0 <= uchar_hd s < 256.
Proof. apply u8_range. Qed.

Lemma strcmp_anti a b : strcmp b a = - strcmp a b.
Proof.
  revert b. induction a as [|x a IH]; intros b.
  - destruct b as [|y b]; [done|]. cbn [strcmp]. change (uchar_hd []) with 0.
    destruct (Z.eqb_spec (uchar_hd (y :: b) - 0) 0) as [E|E]; cbn [negb orb Z.eqb]; lia.
  - destruct b as [|y b]; cbn [strcmp].
    + change (uchar_hd []) with 0. cbn [Z.eqb]. rewrite orb_true_r. lia.
    + pose proof (uchar_range (x :: a)). pose proof (uchar_range (y :: b)). cbn [tl]. rewrite (IH b).
      repeat (cmp1; cbn [negb orb]; try lia).
Qed.

Lemma strcmp_trans a b c : strcmp a b <= 0 -> strcmp b c <= 0 -> strcmp a c <= 0.
Proof.
  revert b c. induction a as [|x a IH]; intros b c.
  - cbn [strcmp]. change (uchar_hd []) with 0. pose proof (uchar_range c). lia.
  - cbn [strcmp]. destruct b as [|y b].
    + cbn [strcmp]. change (uchar_hd []) with 0. cbn [Z.eqb]. rewrite orb_true_r.
      pose proof (uchar_range (x :: a)). pose proof (uchar_range c). intros H1 H2.
      repeat (cmp1; cbn [negb orb]; try lia).
    + cbn [strcmp tl]. pose proof (uchar_range (x :: a)). pose proof (uchar_range (y :: b)).
      pose proof (uchar_range c). specialize (IH b (tl c)). cbn [tl].
      repeat (cmp1; cbn [negb orb]; try lia).
Qed.

Lemma cmpkey_trans a b c : cmpkey a b <= 0 -> cmpkey b c <= 0 -> cmpkey a c <= 0.
Proof. apply strcmp_trans. Qed.

Lemma cmpkey_total a b : cmpkey a b > 0 -> cmpkey b a <= 0.
Proof. unfold cmpkey. rewrite (strcmp_anti (key_of a) (key_of b)). lia. Qed.

(** ** Sizes *)

(** Escapes that pass 2 writes and pass 1 does not count. *)
Definition uncounted (sep : Z) (d : str) : Z :=
  if sep =? 0 then Z.of_nat (length (List.filter (needs_escape 0) d)) else 0.

Lemma escape_length sep d : Z.of_nat (length (escape sep d)) = data_room sep d + uncounted sep d.
Proof.
  unfold data_room, uncounted, escape. destruct (Z.eqb_spec sep 0) as [->|N].
  - induction d as [|c d IH]; [done|]. cbn [map concat List.filter]. rewrite length_app, Nat2Z.inj_add, IH.
    destruct (needs_escape 0 c); cbn [length]; lia.
  - rewrite Z.add_0_r. induction d as [|c d IH]; [done|]. cbn [map concat fold_right].
    rewrite length_app, Nat2Z.inj_add, IH. destruct (needs_escape sep c); cbn [length b2z]; lia.
Qed.

Definition sum_uncounted (sep : Z) (l : list env_entry) : Z :=
  fold_right (fun e t => t + uncounted sep (data_of e)) 0 l.

Lemma emit_length sep l :
  Z.of_nat (length (concat (map (emit sep) l))) = totlen sep l + sum_uncounted sep l.
Proof.
  unfold totlen, sum_uncounted. induction l as [|e l IH]; [done|]. cbn [map concat fold_right].
  rewrite length_app, Nat2Z.inj_add, IH. unfold emit. rewrite length_app. cbn [length].
  rewrite length_app. cbn [length]. pose proof (escape_length sep (data_of e)). lia.
Qed.

Lemma totlen_perm sep l l' : l ≡ₚ l' -> totlen sep l = totlen sep l'.
Proof. unfold totlen. induction 1; simpl; lia. Qed.

Lemma uncounted_perm sep l l' : l ≡ₚ l' -> sum_uncounted sep l = sum_uncounted sep l'.
Proof. unfold sum_uncounted. induction 1; simpl; lia. Qed.

(** The sorted list the text is made from. *)
Lemma sort_keys l : exists l', qsort cmpkey l = Some l' /\ l' ≡ₚ l /\ sorted cmpkey l'.
Proof. apply (qsort_ends cmpkey cmpkey_trans cmpkey_total). Qed.

Lemma export_out hk regex htab sep flag user_buf sz argv ret out :
  hexport_r hk regex htab sep flag user_buf sz argv = Some (inr (ret, out)) ->
  let l := export_list regex htab flag argv in
  (exists l', l' ≡ₚ l /\ sorted cmpkey l' /\ out = concat (map (emit sep) l') ++ [0]) /\
  Z.of_nat (length out) = totlen sep l + 1 + sum_uncounted sep l /\
  totlen sep l + 1 <= ret /\ (sz = 0 -> ret = totlen sep l + 1) /\ (sz <> 0 -> ret = sz).
Proof.
  unfold hexport_r. cbv zeta. set (l := export_list regex htab flag argv).
  destruct (sort_keys l) as (l' & -> & P & Hs). cbn [mbind option_bind]. intros H. apply (inj Some) in H.
  assert (L : Z.of_nat (length (concat (map (emit sep) l') ++ [0])) =
    totlen sep l + 1 + sum_uncounted sep l).
  { rewrite length_app. cbn [length]. rewrite Nat2Z.inj_add, emit_length.
    rewrite (totlen_perm sep _ _ P), (uncounted_perm sep _ _ P). lia. }
  destruct (Z.eqb_spec sz 0) as [->|N]; cbn [negb andb] in H.
  - destruct (negb user_buf && _); [done|]. injection H as <- <-. split; [by exists l'|]. split_and!; done || lia.
  - destruct (Z.ltb_spec sz (totlen sep l + 1)); [done|].
    destruct (negb user_buf && _); [done|]. injection H as <- <-. split; [by exists l'|]. split_and!; done || lia.
Qed.

(** An export ends. *)
Lemma hexport_ends hk regex htab sep flag user_buf sz argv :
  exists res, hexport_r hk regex htab sep flag user_buf sz argv = Some res.
Proof.
  unfold hexport_r. destruct (sort_keys (export_list regex htab flag argv)) as (l' & -> & _).
  cbn [mbind option_bind]. eauto.
Qed.

(** No value needs an escape when entries end in NUL. *)
Definition unescaped (l : list env_entry) : Prop :=
  Forall (fun e => List.filter (needs_escape 0) (data_of e) = []) l.

Lemma uncounted_zero sep l : sep <> 0 \/ unescaped l -> sum_uncounted sep l = 0.
Proof.
  unfold sum_uncounted, uncounted. intros [Hs|Hs].
  - destruct (Z.eqb_spec sep 0); [done|]. induction l; cbn [fold_right]; lia.
  - induction Hs as [|e l He Hl IH]; [done|]. cbn [fold_right]. rewrite He. destruct (sep =? 0); simpl; lia.
Qed.

Lemma no_escape d : Forall (fun c => c <> 0) d -> BACKSLASH ∉ d -> List.filter (needs_escape 0) d = [].
Proof.
  induction 1 as [|c d Hc Hd IH]; intros B; [done|]. apply not_elem_of_cons in B as [B1 B2].
  cbn [List.filter]. unfold needs_escape at 1. destruct (Z.eqb_spec c 0); [done|].
  destruct (Z.eqb_spec c BACKSLASH); [done|]. by apply IH.
Qed.

(** Exported text.  With a separator other than NUL, or when no value has a
    backslash, [hexport_r] stores no more bytes than the size it checked and
    returns; the entries are those of the table that match, sorted by name. *)
Theorem hexport_fits (hk : hooks) (regex : option (str -> option (str -> bool))) (htab : hsearch_data)
    (sep flag : Z) (user_buf : bool) (sz : Z) (argv : list str) (ret : Z) (out : list Z) :
  hexport_r hk regex htab sep flag user_buf sz argv = Some (inr (ret, out)) ->
  sep <> 0 \/ unescaped (export_list regex htab flag argv) ->
  Z.of_nat (length out) <= ret /\
  exists l, out = concat (map (emit sep) l) ++ [0] /\ sorted cmpkey l /\
    l ≡ₚ export_list regex htab flag argv.
Proof.
  intros H Hs. destruct (export_out _ _ _ _ _ _ _ _ _ _ H) as ((l & P & S & ->) & L & R & _).
  split; [|by exists l]. pose proof (uncounted_zero sep _ Hs). lia.
Qed.

Lemma uncounted_pos l : Exists (fun e => BACKSLASH ∈ data_of e) l -> 0 < sum_uncounted 0 l.
Proof.
  assert (N : forall l, 0 <= sum_uncounted 0 l).
  { intros l'. unfold sum_uncounted, uncounted. cbn [Z.eqb]. induction l'; cbn [fold_right]; lia. }
  unfold sum_uncounted in *. induction 1 as [e l H|e l H IH]; cbn [fold_right].
  - pose proof (N l). unfold uncounted at 2. cbn [Z.eqb].
    apply list_elem_of_In, in_split in H as (a & b & ->). rewrite List.filter_app, length_app.
    cbn [List.filter]. change (needs_escape 0 BACKSLASH) with true. cbn [length]. lia.
  - unfold uncounted at 2. cbn [Z.eqb]. lia.
Qed.

(** Backslashes overflow the NUL-separated export.  With the NUL separator
    the sizing pass does not count the escapes the writing pass adds: when the
    buffer is sized by the function itself it is overrun by one byte for every
    backslash in the values. *)
Theorem hexport_overflows (hk : hooks) (regex : option (str -> option (str -> bool))) (htab : hsearch_data)
    (flag : Z) (user_buf : bool) (argv : list str) (ret : Z) (out : list Z) :
  hexport_r hk regex htab 0 flag user_buf 0 argv = Some (inr (ret, out)) ->
  Z.of_nat (length out) = ret + sum_uncounted 0 (export_list regex htab flag argv) /\
  (Exists (fun e => BACKSLASH ∈ data_of e) (export_list regex htab flag argv) ->
   ret < Z.of_nat (length out)).
Proof.
  intros H. destruct (export_out _ _ _ _ _ _ _ _ _ _ H) as (_ & L & _ & R & _).
  rewrite (R eq_refl). split; [lia|]. intros E. pose proof (uncounted_pos _ E). lia.
Qed.

(** ** Parsing what was exported *)

(** What the text format can carry. *)
Definition clean_key (sep : Z) (k : str) : Prop :=
  k <> [] /\ Forall (fun c => c <> 0 /\ c <> EQUALS /\ c <> sep) k /\
  hd 0 k <> 32 /\ hd 0 k <> 9 /\ hd 0 k <> 35.
Definition clean_data (d : str) : Prop := d <> [] /\ Forall (fun c => c <> 0) d.
Definition clean_sep (sep : Z) : Prop := sep <> EQUALS /\ sep <> BACKSLASH.
Definition clean (sep : Z) (e : env_entry) : Prop := clean_key sep (key_of e) /\ clean_data (data_of e).

Lemma parse_escape sep v rest : clean_sep sep -> Forall (fun c => c <> 0) v ->
  parse_value sep (escape sep v ++ sep :: rest) = (v, sep :: rest).
Proof.
  intros [_ Hs] Hv. unfold escape. induction Hv as [|c v Hc Hv IH]; cbn [map concat app].
  - cbn [parse_value]. by rewrite Z.eqb_refl, orb_true_r.
  - destruct (needs_escape sep c) eqn:E; cbn [app parse_value at_hd hd].
    + destruct (Z.eqb_spec BACKSLASH sep); [congruence|]. destruct (Z.eqb_spec c 0); [done|].
      change (BACKSLASH =? 0) with false. change (BACKSLASH =? BACKSLASH) with true. cbn [orb andb negb].
      by rewrite IH.
    + unfold needs_escape in E. apply orb_false_iff in E as [-> ->].
      destruct (Z.eqb_spec c 0); [done|]. cbn [orb andb]. by rewrite IH.
Qed.

Lemma parse_name_key sep k rest : Forall (fun c => c <> 0 /\ c <> EQUALS /\ c <> sep) k ->
  parse_name sep (k ++ EQUALS :: rest) = (k, EQUALS :: rest).
Proof.
  induction 1 as [|c k (H0 & H1 & H2) Hk IH]; cbn [app parse_name]; [done|].
  destruct (Z.eqb_spec c EQUALS); [done|]. destruct (Z.eqb_spec c 0); [done|].
  destruct (Z.eqb_spec c sep); [done|]. cbn [andb negb]. by rewrite IH.
Qed.

Lemma escape_hd sep v rest : clean_sep sep -> clean_data v ->
  at_hd (escape sep v ++ rest) <> 0 /\ at_hd (escape sep v ++ rest) <> sep.
Proof.
  intros [_ Hs] [Hn Hv]. destruct v as [|c v]; [done|]. apply Forall_cons in Hv as [Hc _].
  unfold escape, needs_escape. cbn [map concat].
  destruct (Z.eqb_spec c sep) as [->|N1]; [split; [done|simpl; congruence]|].
  destruct (Z.eqb_spec c BACKSLASH) as [->|N2]; cbn [orb app at_hd hd]; split; done || congruence.
Qed.

Lemma parse_emit sep e rest : clean_sep sep -> clean sep e ->
  parse_entry sep (emit sep e ++ rest) = PSet (key_of e) (data_of e) rest.
Proof.
  intros Hs [(Kn & Kc & K1 & K2 & K3) D]. unfold emit. rewrite <- !app_assoc. cbn [app].
  rewrite <- app_assoc. cbn [app]. unfold parse_entry.
  assert (skip_blank (key_of e ++ EQUALS :: escape sep (data_of e) ++ sep :: rest) =
          key_of e ++ EQUALS :: escape sep (data_of e) ++ sep :: rest) as ->.
  { destruct (key_of e) as [|c k]; [done|]. cbn [hd app skip_blank] in *.
    destruct (Z.eqb_spec c 32); [done|]. by destruct (Z.eqb_spec c 9). }
  assert (at_hd (key_of e ++ EQUALS :: escape sep (data_of e) ++ sep :: rest) = hd 0 (key_of e)) as ->.
  { by destruct (key_of e). }
  destruct (Z.eqb_spec (hd 0 (key_of e)) 35); [done|]. rewrite parse_name_key by done. cbn [tl].
  destruct (escape_hd sep (data_of e) (sep :: rest) Hs D) as [E0 E1].
  change (at_hd (EQUALS :: ?l)) with EQUALS. destruct Hs as [Hq Hb].
  destruct (Z.eqb_spec EQUALS 0); [done|].
  destruct (Z.eqb_spec (at_hd (escape sep (data_of e) ++ sep :: rest)) 0); [done|].
  destruct (Z.eqb_spec EQUALS sep); [congruence|].
  destruct (Z.eqb_spec (at_hd (escape sep (data_of e) ++ sep :: rest)) sep); [done|]. cbn [orb].
  rewrite parse_escape by first [by split|apply D]. done.
Qed.

(** ** Importing a list of entries *)
Lemma enter_one_sim hk k d htab flag m : permissive hk -> sim htab m ->
  m !! k <> None \/ Z.of_nat (base.size m) < size htab ->
  exists r, hsearch_r hk k (Some d) ENV_ENTER htab flag = Some r /\ sim (s_htab r) (<[k := d]> m) /\
    size (s_htab r) = size htab.
Proof.
  intros P (I & R & F) C. destruct (hsearch_enter hk k d htab flag m P I R) as (r & E & H).
  exists r. split; [done|]. destruct (m !! k) as [d0|] eqn:L.
  - destruct H as (_ & I' & R' & Hs & Hf). split; [|done]. split; [done|]. split; [done|].
    rewrite Hf, F. by rewrite map_size_insert_Some.
  - destruct C as [C|C]; [done|]. destruct (Z.eqb_spec (filled htab) (size htab)); [lia|].
    destruct H as (_ & I' & R' & Hs & Hf). split; [|done]. split; [done|]. split; [done|].
    rewrite Hf, F, map_size_insert_None by done. lia.
Qed.

(** The entries entered one after the other. *)
Definition enter_all (l : list env_entry) (m : gmap str str) : gmap str str :=
  foldl (fun m e => <[key_of e := data_of e]> m) m l.

Lemma size_insert_le (m : gmap str str) k d : (base.size m <= base.size (<[k := d]> m))%nat.
Proof.
  destruct (m !! k) as [x|] eqn:E; [by rewrite map_size_insert_Some|]. rewrite map_size_insert_None by done. lia.
Qed.

Lemma enter_all_size l m : (base.size m <= base.size (enter_all l m))%nat.
Proof.
  revert m. induction l as [|e l IH]; intros m; [done|]. cbn [enter_all foldl].
  etrans; [apply size_insert_le|apply IH].
Qed.

Lemma emit_hd sep e rest : clean sep e -> at_hd (emit sep e ++ rest) <> 0.
Proof.
  intros [(Kn & Kc & _) _]. unfold emit. destruct (key_of e) as [|c k]; [done|].
  apply Forall_cons in Kc as [[? _] _]. done.
Qed.

(** Callbacks that only change the flags and callbacks of entries, and whose
    answer does not depend on the table. *)
Class Relabels (eff : effects) : Prop := {
  rl_code : forall cb k v op f m m', fst (eff cb k v op f m) = fst (eff cb k v op f m');
  rl_data : forall cb k v op f m, data_of <$> snd (eff cb k v op f m) = data_of <$> m
}.

Section Accepted.
Context (hk : hooks) (eff : effects) `{!Sane hk eff, !Relabels eff} (sep flag : Z).

(** The access check and the callback let a new variable be created. *)
Definition creatable (k d : str) : bool :=
  negb (change_ok hk (new_entry hk k d) (Some d) env_op_create flag) &&
  (fst (callback eff (new_entry hk k d) k (Some d) env_op_create flag ∅) =? 0).

Lemma callback_relabels e k v op m :
  fst (callback eff e k v op flag m) = fst (callback eff e k v op flag ∅) /\
  data_of <$> snd (callback eff e k v op flag m) = data_of <$> m.
Proof using Relabels0.
  unfold callback. destruct (e_callback e) as [cb|]; [|done]. split; [apply rl_code|apply rl_data].
Qed.

Lemma create_data cap m k d : m !! k = None -> Z.of_nat (base.size m) < cap ->
  data_of <$> snd (astep hk eff cap m (AEnter k d flag)) =
  if creatable k d then <[k := d]> (data_of <$> m) else data_of <$> m.
Proof using Sane0 Relabels0.
  intros E Hs. cbn [astep]. rewrite E. destruct (Z.eqb_spec (Z.of_nat (base.size m)) cap); [lia|].
  unfold creatable. destruct (change_ok _ _ _ _ _); [done|]. cbn [negb andb].
  destruct (callback_relabels (new_entry hk k d) k (Some d) env_op_create (<[k := new_entry hk k d]> m)) as [C D].
  rewrite fmap_insert in D. assert (Ed : data_of (new_entry hk k d) = d).
  { unfold data_of, new_entry. by rewrite sn_data. }
  rewrite Ed in D. rewrite <- C. destruct (callback _ _ _ _ _ _ _) as [ret m1]. cbn [fst snd] in *.
  destruct (ret =? 0); cbn [snd]; [done|]. rewrite fmap_delete, D, delete_insert_id; [done|].
  by rewrite lookup_fmap, E.
Qed.

(** Entries of the list that can be created. *)
Definition kept (l : list env_entry) : list env_entry :=
  List.filter (fun e => creatable (key_of e) (data_of e)) l.

Lemma import_emits l fuel pad htab m remain : esim htab m -> clean_sep sep ->
  l <> [] -> Forall (clean sep) l -> NoDup (map key_of l) -> Forall (fun e => m !! key_of e = None) l ->
  (length l <= fuel)%nat ->
  Z.of_nat (length (concat (map (emit sep) l))) <= remain ->
  Z.of_nat (base.size m) + Z.of_nat (length l) <= size htab ->
  exists htab' m', import_loop fuel hk sep flag remain (concat (map (emit sep) l) ++ 0 :: pad) [] htab =
      Some (1, [], htab') /\ esim htab' m' /\ data_of <$> m' = enter_all (kept l) (data_of <$> m) /\
    size htab' = size htab.
Proof using Sane0 Relabels0.
  intros S Hs Hl Hc. revert fuel htab m remain S. induction Hc as [|e l He Hc IH]; [done|].
  intros fuel htab m remain S Hd Hm Hf Hr Hz. destruct fuel as [|f]; [simpl in Hf; lia|].
  apply Forall_cons in Hm as [Hm1 Hm]. cbn [map] in Hd. apply NoDup_cons in Hd as [Hd1 Hd].
  cbn [map concat] in Hr |- *. rewrite length_app in Hr. rewrite <- app_assoc. cbn [import_loop].
  rewrite parse_emit by done. rewrite bool_decide_false by apply He. cbn [drop_var_from_set negb].
  destruct (enter_sim hk eff htab m (key_of e) (data_of e) flag S) as (r & -> & _ & S' & Hs').
  pose proof (create_data (size htab) m (key_of e) (data_of e) Hm1 ltac:(simpl in Hz; lia)) as D.
  set (m1 := snd (astep hk eff (size htab) m (AEnter (key_of e) (data_of e) flag))) in *.
  assert (K : enter_all (kept (e :: l)) (data_of <$> m) = enter_all (kept l) (data_of <$> m1)).
  { rewrite D. unfold kept. cbn [List.filter]. by destruct (creatable (key_of e) (data_of e)). }
  rewrite K. destruct l as [|e2 l].
  { cbn [map concat app at_hd hd Z.eqb negb]. rewrite andb_false_r. eauto 6. }
  assert (E0 : (at_hd (concat (map (emit sep) (e2 :: l)) ++ 0 :: pad) =? 0) = false).
  { apply Z.eqb_neq. cbn [map concat]. rewrite <- app_assoc. apply emit_hd. by inversion Hc. }
  rewrite E0, length_app, Nat2Z.inj_add.
  assert (0 < length (concat (map (emit sep) (e2 :: l))))%nat.
  { cbn [map concat]. rewrite length_app. unfold emit at 1. rewrite length_app. cbn [length]. lia. }
  destruct (Z.ltb_spec 0 (remain - (Z.of_nat (length (emit sep e)) +
    Z.of_nat (length (concat (map (emit sep) (e2 :: l)) ++ 0 :: pad)) -
    Z.of_nat (length (concat (map (emit sep) (e2 :: l)) ++ 0 :: pad))))); [|lia]. cbn [andb negb].
  rewrite <- Hs'.
  assert (Sz : (base.size m1 <= 1 + base.size m)%nat).
  { rewrite <- (map_size_fmap data_of m1), D. destruct (creatable _ _); [|rewrite map_size_fmap; lia].
    rewrite map_size_insert_None by (by rewrite lookup_fmap, Hm1). rewrite map_size_fmap. lia. }
  apply IH; try done; [|simpl in *; lia|lia|cbn [length] in *; lia].
  apply Forall_forall. intros e' He'. rewrite Forall_forall in Hm. specialize (Hm e' He').
  assert (key_of e' <> key_of e) as N.
  { intros X. apply Hd1. rewrite <- X. apply list_elem_of_In, in_map. by apply list_elem_of_In. }
  assert ((data_of <$> m1) !! key_of e' = None) as Hn; [|by rewrite lookup_fmap, fmap_None in Hn].
  rewrite D. destruct (creatable _ _); rewrite ?lookup_insert_ne by done; by rewrite lookup_fmap, Hm.
Qed.
End Accepted.

(** ** The exported list is the map *)
Lemma enter_all_lookup l m k d : NoDup (map key_of l) ->
  enter_all l m !! k = Some d <->
  (exists e, e ∈ l /\ key_of e = k /\ data_of e = d) \/ ((k ∉ map key_of l) /\ m !! k = Some d).
Proof.
  revert m. induction l as [|e l IH]; intros m N.
  - cbn [enter_all foldl map]. split; [intros H; right; split; [apply not_elem_of_nil|done]|].
    intros [(e & H & _)|[_ H]]; [by apply not_elem_of_nil in H|done].
  - cbn [enter_all foldl map] in *. apply NoDup_cons in N as [Ne N].
    change (foldl _ ?x l) with (enter_all l x). rewrite (IH _ N). split.
    + intros [(e' & H & E)|[H E]]; [left; exists e'; by rewrite elem_of_cons; auto|].
      destruct (decide (key_of e = k)) as [<-|Nk].
      * rewrite lookup_insert_eq in E. injection E as <-. left. exists e. rewrite elem_of_cons. auto.
      * rewrite lookup_insert_ne in E by done. right. rewrite not_elem_of_cons. auto.
    + intros [(e' & H & <- & <-)|[H E]].
      * apply elem_of_cons in H as [->|H]; [|left; eauto]. right. by rewrite lookup_insert_eq.
      * apply not_elem_of_cons in H as [Hk H]. right. rewrite lookup_insert_ne by done. auto.
Qed.

Lemma nodup_filter_map {A B} (f : A -> bool) (g : A -> B) (l : list A) :
  (forall i j a b, l !! i = Some a -> l !! j = Some b -> f a = true -> f b = true -> g a = g b -> i = j) ->
  NoDup (map g (List.filter f l)).
Proof.
  induction l as [|a l IH]; intros H; [constructor|]. cbn [List.filter].
  assert (IH' : NoDup (map g (List.filter f l))).
  { apply IH. intros i j x y Hi Hj Fx Fy E. specialize (H (S i) (S j) x y Hi Hj Fx Fy E). lia. }
  destruct (f a) eqn:Fa; [|done]. cbn [map]. apply NoDup_cons. split; [|done].
  intros Hin. apply list_elem_of_In, in_map_iff in Hin as (b & E & Hb). apply filter_In in Hb as [Hb Fb].
  apply list_elem_of_In, list_elem_of_lookup in Hb as [j Hj].
  specialize (H 0%nat (S j) a b eq_refl Hj Fa Fb (eq_sym E)). lia.
Qed.

(** Every slot in use is exported. *)
Lemma exported_all regex flag nd : Z.land flag H_HIDE_DOT = 0 ->
  exported regex flag [] nd = (0 <? used nd).
Proof.
  intros H. unfold exported. rewrite H. rewrite bool_decide_true by done. cbn [negb andb Z.eqb].
  by rewrite !andb_true_r.
Qed.

Lemma export_slot htab i nd : inv htab -> drop 1 (nodes htab) !! i = Some nd -> 0 < used nd ->
  occ htab (Z.of_nat i + 1) (key_of (entry nd)) (data_of (entry nd)).
Proof.
  intros I L U. rewrite lookup_drop in L. pose proof (lookup_lt_Some _ _ _ L) as Hl.
  pose proof (inv_length _ I) as Hn.
  assert (Nd : node_at htab (Z.of_nat i + 1) = nd).
  { unfold node_at. rewrite nth_lookup. replace (Z.to_nat (Z.of_nat i + 1)) with (1 + i)%nat by lia.
    by rewrite L. }
  assert (R : 1 <= Z.of_nat i + 1 <= size htab) by lia.
  destruct (inv_slots _ I _ R) as [H|[H|(k & d & O & _)]];
    [rewrite Nd in H; unfold USED_FREE in H; lia|rewrite Nd in H; unfold USED_DELETED in H; lia|].
  pose proof O as (_ & _ & K & D). rewrite Nd in K, D. unfold key_of, data_of. by rewrite K, D.
Qed.

Lemma export_keys regex htab flag : inv htab -> Z.land flag H_HIDE_DOT = 0 ->
  NoDup (map key_of (export_list regex htab flag [])).
Proof.
  intros I Hf. unfold export_list. rewrite map_map. apply nodup_filter_map.
  intros i j a b Hi Hj Fa Fb E. rewrite exported_all in Fa, Fb by done.
  apply Z.ltb_lt in Fa, Fb. pose proof (export_slot _ _ _ I Hi Fa) as Oa.
  pose proof (export_slot _ _ _ I Hj Fb) as Ob. rewrite E in Oa.
  pose proof (inv_unique _ I _ _ _ _ _ Oa Ob). lia.
Qed.

Lemma export_elem regex htab flag m k d : inv htab -> rep htab m -> Z.land flag H_HIDE_DOT = 0 ->
  (exists e, e ∈ export_list regex htab flag [] /\ key_of e = k /\ data_of e = d) <-> m !! k = Some d.
Proof.
  intros I R Hf. rewrite (R k d). unfold export_list. split.
  - intros (e & H & <- & <-). apply list_elem_of_In, in_map_iff in H as (nd & <- & H).
    apply filter_In in H as [H F]. rewrite exported_all in F by done. apply Z.ltb_lt in F.
    apply list_elem_of_In, list_elem_of_lookup in H as [i Hi]. eexists. by apply export_slot.
  - intros (idx & Hi & U & K & D). exists (entry (node_at htab idx)). unfold key_of, data_of.
    rewrite K, D. split; [|done]. apply list_elem_of_In, in_map. apply filter_In.
    rewrite exported_all by done. split; [|by apply Z.ltb_lt].
    apply list_elem_of_In, list_elem_of_lookup. exists (Z.to_nat (idx - 1)). rewrite lookup_drop.
    pose proof (inv_length _ I). unfold node_at. rewrite nth_lookup.
    replace (1 + Z.to_nat (idx - 1))%nat with (Z.to_nat idx) by lia.
    destruct (nodes htab !! Z.to_nat idx) eqn:E; [done|]. apply lookup_ge_None in E. lia.
Qed.

Lemma export_length regex htab flag : inv htab -> Z.land flag H_HIDE_DOT = 0 ->
  Z.of_nat (length (export_list regex htab flag [])) = filled htab.
Proof.
  intros I Hf. rewrite (inv_filled _ I). unfold count_used, export_list. rewrite length_map. f_equal.
  induction (drop 1 (nodes htab)) as [|nd l IH]; [done|]. cbn [List.filter]. rewrite filter_cons, exported_all by done.
  destruct (Z.ltb_spec 0 (used nd)); case_decide; try lia; cbn [length]; by rewrite IH.
Qed.

(** The entries that [f] keeps, entered into an empty map. *)
Lemma export_enters regex htab flag m l (f : str -> str -> bool) : inv htab -> rep htab m ->
  Z.land flag H_HIDE_DOT = 0 -> l ≡ₚ export_list regex htab flag [] ->
  enter_all (List.filter (fun e => f (key_of e) (data_of e)) l) ∅ = filter (fun kd => f kd.1 kd.2 = true) m.
Proof.
  intros I R Hf P. apply map_eq. intros k. apply option_eq. intros d.
  assert (N : NoDup (map key_of l)).
  { assert (Q : map key_of l ≡ₚ map key_of (export_list regex htab flag [])) by (by apply Permutation_map).
    rewrite Q. by apply export_keys. }
  assert (N' : NoDup (map key_of (List.filter (fun e => f (key_of e) (data_of e)) l))).
  { clear -N. induction l as [|e l IH]; [constructor|]. cbn [map] in N. apply NoDup_cons in N as [N1 N].
    cbn [List.filter]. destruct (f _ _); [|by apply IH]. cbn [map]. apply NoDup_cons. split; [|by apply IH].
    intros H. apply N1. apply list_elem_of_In, in_map_iff in H as (e' & <- & H). apply filter_In in H as [H _].
    apply list_elem_of_In. by apply in_map. }
  rewrite (enter_all_lookup _ ∅ k d N'), lookup_empty, map_lookup_filter_Some.
  rewrite <- (export_elem regex htab flag m k d I R Hf). cbn [fst snd]. split.
  - intros [(e & H & <- & <-)|[_ H]]; [|done]. apply list_elem_of_In, filter_In in H as [H F].
    split; [|done]. exists e. split; [|done]. rewrite <- P. by apply list_elem_of_In.
  - intros [(e & H & <- & <-) F]. left. exists e. split; [|done]. apply list_elem_of_In, filter_In.
    split; [|done]. apply list_elem_of_In. by rewrite P.
Qed.

(** ** Round trip *)

(** The bytes of the exported buffer, cleared before it is written. *)
Definition exported_buffer (ret : Z) (out : list Z) : list Z :=
  out ++ replicate (Z.to_nat ret - length out) 0.

Section Reimport.
Context (hk : hooks) (eff : effects) `{!Sane hk eff, !Relabels eff}.

Lemma import_exported sep flag l n htab : esim htab ∅ -> clean_sep sep ->
  Forall (clean sep) l -> NoDup (map key_of l) -> Z.of_nat (length l) <= size htab ->
  let data := (concat (map (emit sep) l) ++ [0]) ++ replicate n 0 ++ [0] in
  exists htab' m', import_loop (S (length data)) hk sep flag (Z.of_nat (length data) - 1) data [] htab =
      Some (1, [], htab') /\ esim htab' m' /\ data_of <$> m' = enter_all (kept hk eff flag l) ∅.
Proof using Sane0 Relabels0.
  intros S Hs Hc Hd Hz data. destruct (decide (l = [])) as [->|Nl].
  - destruct (delete_sim hk eff htab ∅ [] flag S) as (ret & h' & E & _ & S' & _).
    exists h', ∅. split; [|split; [exact S'|apply fmap_empty]].
    unfold data. cbn [map concat app import_loop parse_entry skip_blank].
    change (parse_entry sep (0 :: ?r)) with (PDelete [] (replicate n 0 ++ [0])).
    cbn [drop_var_from_set negb]. rewrite E.
    assert (at_hd (replicate n 0 ++ [0]) = 0) as -> by (by destruct n).
    cbn [Z.eqb negb]. by rewrite andb_false_r.
  - unfold data. rewrite <- app_assoc. cbn [app].
    assert (Hlen : (length l <= length (concat (map (emit sep) l)))%nat).
    { clear. induction l as [|e l IH]; [done|]. cbn [map concat length]. rewrite length_app. unfold emit at 1.
      rewrite length_app. cbn [length]. lia. }
    destruct (import_emits hk eff sep flag l (Datatypes.S (length (concat (map (emit sep) l) ++ 0 :: replicate n 0 ++ [0])))
      (replicate n 0 ++ [0]) htab ∅ (Z.of_nat (length (concat (map (emit sep) l) ++ 0 :: replicate n 0 ++ [0])) - 1))
      as (h & m' & E & S' & D & _); try done.
    + apply Forall_forall. intros e _. apply lookup_empty.
    + rewrite length_app. cbn [length]. rewrite ?length_app. lia.
    + rewrite length_app. cbn [length]. rewrite ?length_app. lia.
    + exists h, m'. split; [exact E|]. split; [done|]. by rewrite fmap_empty in D.
Qed.

Lemma reimport (regex : option (str -> option (str -> bool)))
    (htab htab0 : hsearch_data) (m : gmap str str) (sep flag iflag : Z) (user_buf : bool)
    (sz ret : Z) (out : list Z) (fuel : nat) (min_entries max_entries nent q : Z) :
  (forall n, calloc_ok hk n = true) -> sim htab m -> clean_sep sep ->
  map_Forall (fun k d => clean_key sep k /\ clean_data d) m ->
  Z.land flag H_HIDE_DOT = 0 -> Z.land iflag H_NOCLEAR = 0 ->
  hexport_r hk regex htab sep flag user_buf sz [] = Some (inr (ret, out)) -> Z.of_nat (length out) <= ret ->
  nent = Z.min (min_entries + ret / 8) max_entries -> 4 <= nent -> Z.of_nat (base.size m) <= nent ->
  prime q -> Z.lor nent 1 <= q < 2 ^ 31 -> q < nent + 2 * Z.of_nat fuel ->
  exists htab', himport_r hk fuel true false min_entries max_entries htab0 (exported_buffer ret out)
      sep iflag false [] = Some (1, htab') /\
    sim htab' (filter (fun kd => creatable hk eff iflag kd.1 kd.2 = true) m).
Proof using Sane0 Relabels0.
  intros Ca (I & R & F) Hs Hm Hf Hi Hx Fit Hn H4 Hz Pq Hq Hfu.
  destruct (export_out _ _ _ _ _ _ _ _ _ _ Hx) as ((l' & Pm & _ & Ho) & L & Rt & _).
  set (l := export_list regex htab flag []) in *.
  pose proof (export_enters regex htab flag m l' (creatable hk eff iflag) I R Hf Pm) as Em.
  assert (Cl : Forall (clean sep) l).
  { apply Forall_forall. intros e He. apply (Hm (key_of e) (data_of e)).
    apply (export_elem regex htab flag m _ _ I R Hf). by exists e. }
  assert (Ll : length l' = base.size m).
  { rewrite (Permutation_length Pm). pose proof (export_length regex htab flag I Hf) as El. fold l in El. lia. }
  assert (Lr : Z.of_nat (length (exported_buffer ret out)) = ret).
  { unfold exported_buffer. rewrite length_app, length_replicate. lia. }
  destruct (hcreate_size fuel nent q) as (p & E & Pp & H5 & Hp & _); [done..|].
  destruct (lor1_odd nent) as [Lo _].
  unfold himport_r. cbn [negb]. rewrite Hi. cbn [Z.eqb negb andb].
  rewrite (bool_decide_true (@nil str = [])) by done. cbn [hdestroy_r table]. rewrite Lr.
  assert ((if max_entries <? min_entries + ret / 8 then max_entries else min_entries + ret / 8) = nent) as ->.
  { rewrite Hn. cmp1; lia. }
  unfold hcreate_r. cbn [table]. rewrite E, Ca, u32_small by lia. cbn [Z.eqb].
  destruct (Z.eqb_spec ret 0) as [->|]; [rewrite Ho, length_app in Fit; cbn [length] in Fit; lia|].
  pose proof (fresh_esim p Pp H5) as S0. set (t0 := mk_htab _ p 0) in *.
  unfold exported_buffer in *. rewrite Ho in Lr |- *. set (pad := (Z.to_nat ret - _)%nat) in *.
  destruct (import_exported sep iflag l' pad t0 S0 Hs) as (h' & m' & E' & S' & D').
  { by rewrite Pm. }
  { assert (Q : map key_of l' ≡ₚ map key_of l) by (by apply Permutation_map). rewrite Q. by apply export_keys. }
  { rewrite Ll. cbn [t0 size]. lia. }
  cbv zeta in E'. rewrite app_assoc in E'. set (env := (concat _ ++ [0]) ++ replicate pad 0) in *.
  assert (Z.of_nat (length (env ++ [0])) - 1 = ret) as Er by (rewrite length_app; cbn [length]; lia).
  rewrite Er in E'. cbn [map]. change (table (hdestroy_r htab0)) with (@None (list env_entry_node)). cbv beta iota.
  cbn [Z.eqb]. rewrite E'. cbn [Z.eqb delete_left].
  exists h'. split; [done|]. rewrite <- Em. fold (kept hk eff iflag l'). rewrite <- D'.
  split; [apply S'|]. split; [by apply esim_rep|]. rewrite map_size_fmap. apply S'.
Qed.

(** C33: export and import are inverse.  Importing the buffer that [hexport_r]
    filled with every variable, with the same separator and in place of
    whatever the table held before, gives
    a table with exactly the variables of the exported one whose creation the
    access check and the variable's callback accept, so with all of them when
    none is refused; callbacks may rewrite flags and callbacks of entries but
    not values.  The names and values must be non-empty and fit the text
    format (values may hold the separator and backslashes), the text must have
    fitted the buffer, memory must be there and the new table must be large
    enough. *)
Theorem env_roundtrip (regex : option (str -> option (str -> bool)))
    (htab htab0 : hsearch_data) (m : gmap str str) (sep flag iflag : Z) (user_buf : bool)
    (sz ret : Z) (out : list Z) (fuel : nat) (min_entries max_entries nent q : Z) :
  (forall n, calloc_ok hk n = true) -> sim htab m -> clean_sep sep ->
  map_Forall (fun k d => clean_key sep k /\ clean_data d) m ->
  Z.land flag H_HIDE_DOT = 0 -> Z.land iflag H_NOCLEAR = 0 ->
  hexport_r hk regex htab sep flag user_buf sz [] = Some (inr (ret, out)) -> Z.of_nat (length out) <= ret ->
  nent = Z.min (min_entries + ret / 8) max_entries -> 4 <= nent -> Z.of_nat (base.size m) <= nent ->
  prime q -> Z.lor nent 1 <= q < 2 ^ 31 -> q < nent + 2 * Z.of_nat fuel ->
  exists htab', himport_r hk fuel true false min_entries max_entries htab0 (exported_buffer ret out)
      sep iflag false [] = Some (1, htab') /\
    sim htab' (filter (fun kd => creatable hk eff iflag kd.1 kd.2 = true) m).
Proof using Sane0 Relabels0. apply reimport. Qed.
End Reimport.

(** ** Carriage returns *)

(** A character of a value that stands for itself. *)
Definition plain (c : Z) : Prop := c <> 0 /\ c <> 10 /\ c <> 13 /\ c <> BACKSLASH.

Lemma drop_crs_plain l r : Forall (fun c => c <> 0 /\ c <> 13) l ->
  drop_crs (l ++ r) = (l ++ fst (drop_crs r), snd (drop_crs r)).
Proof.
  induction 1 as [|c l [H0 H1] Hl IH]; cbn [app]; [by destruct (drop_crs r)|]. cbn [drop_crs].
  destruct (Z.eqb_spec c 0); [done|]. rewrite IH. by destruct (Z.eqb_spec c 13).
Qed.

Lemma escape_plain v : Forall plain v -> escape 10 v = v.
Proof.
  unfold escape. induction 1 as [|c v (_ & H1 & _ & H2) Hv IH]; [done|]. cbn [map concat]. rewrite IH.
  unfold needs_escape. destruct (Z.eqb_spec c 10); [done|]. by destruct (Z.eqb_spec c BACKSLASH).
Qed.

Lemma parse_plain v r : Forall plain v -> parse_value 10 (v ++ 0 :: r) = (v, 0 :: r).
Proof.
  induction 1 as [|c v (H0 & H1 & _ & H2) Hv IH]; [done|]. cbn [app parse_value].
  destruct (Z.eqb_spec c 0); [done|]. destruct (Z.eqb_spec c 10); [done|].
  destruct (Z.eqb_spec c BACKSLASH); [done|]. cbn [orb andb]. by rewrite IH.
Qed.

(** A last entry that the terminator ends. *)
Lemma parse_last k v r : clean_key 10 k -> v <> [] -> Forall plain v ->
  parse_entry 10 (k ++ EQUALS :: v ++ 0 :: r) = PSet k v r.
Proof.
  intros (Kn & Kc & K1 & K2 & K3) Hv Pv. unfold parse_entry.
  assert (skip_blank (k ++ EQUALS :: v ++ 0 :: r) = k ++ EQUALS :: v ++ 0 :: r) as ->.
  { destruct k as [|c k]; [done|]. cbn [hd app skip_blank] in *.
    destruct (Z.eqb_spec c 32); [done|]. by destruct (Z.eqb_spec c 9). }
  assert (at_hd (k ++ EQUALS :: v ++ 0 :: r) = hd 0 k) as -> by (by destruct k).
  destruct (Z.eqb_spec (hd 0 k) 35); [done|]. rewrite parse_name_key by done. cbn [tl].
  rewrite parse_plain by done. destruct v as [|c v]; [done|]. apply Forall_cons in Pv as [(H0 & H1 & _) _].
  cbn [at_hd hd app]. change (EQUALS =? 0) with false. change (EQUALS =? 10) with false.
  destruct (Z.eqb_spec c 0); [done|]. by destruct (Z.eqb_spec c 10).
Qed.

Lemma crlf_buffer a b x : Forall (fun c => c <> 0 /\ c <> 13) (a ++ b ++ [x]) ->
  let env := a ++ [13; 10] ++ b ++ [x] in
  drop_crs env = (a ++ [10] ++ b ++ [x], 1) /\
  drop (length (a ++ [10] ++ b ++ [x])) (env ++ [0]) = [x; 0].
Proof.
  intros H env. apply Forall_app in H as [Ha Hb]. unfold env. split.
  - rewrite drop_crs_plain by done. cbn [app drop_crs at_hd hd Z.eqb Pos.eqb andb].
    rewrite <- (app_nil_r (b ++ [x])), drop_crs_plain by done. cbn [drop_crs fst snd].
    by rewrite app_nil_r.
  - rewrite !length_app. cbn [length].
    replace ((a ++ [13; 10] ++ b ++ [x]) ++ [0]) with ((a ++ [13; 10] ++ b) ++ [x; 0])
      by (by rewrite <- !app_assoc).
    rewrite drop_app_ge by (rewrite !length_app; cbn [length]; lia).
    rewrite !length_app. cbn [length]. by replace (_ - _)%nat with 0%nat by lia.
Qed.

(** Two entries, the second ended by the terminator. *)
Lemma import_two hk flag f remain k1 v1 k2 v2 htab m : permissive hk -> sim htab m ->
  Z.of_nat (base.size m) + 2 <= size htab -> clean_key 10 k1 -> clean_key 10 k2 ->
  v1 <> [] -> Forall plain v1 -> v2 <> [] -> Forall plain v2 ->
  Z.of_nat (length (k1 ++ EQUALS :: v1 ++ [10])) < remain ->
  exists htab', import_loop (S (S f)) hk 10 flag remain
      (k1 ++ EQUALS :: v1 ++ [10] ++ k2 ++ EQUALS :: v2 ++ [0]) [] htab = Some (1, [], htab') /\
    sim htab' (<[k2 := v2]> (<[k1 := v1]> m)).
Proof.
  intros P S Hz C1 C2 N1 P1 N2 P2 Hr. set (rest := k2 ++ EQUALS :: v2 ++ [0]).
  set (e1 := mk_entry (Some k1) (Some v1) None 0).
  assert (k1 ++ EQUALS :: v1 ++ [10] ++ rest = emit 10 e1 ++ rest) as ->.
  { unfold emit. cbn [key_of data_of e1 e_key e_data default from_option]. rewrite escape_plain by done.
    rewrite <- !app_assoc. cbn [app]. by rewrite <- app_assoc. }
  assert (Le : length (emit 10 e1) = length (k1 ++ EQUALS :: v1 ++ [10])).
  { unfold emit. cbn [key_of data_of e1 e_key e_data default from_option]. by rewrite escape_plain. }
  cbn [import_loop]. rewrite parse_emit; [|by split|split; [done|split; [done|]]].
  2: { eapply Forall_impl; [exact P1|]. by intros ? []. }
  change (key_of e1) with k1. change (data_of e1) with v1. cbn [drop_var_from_set negb].
  rewrite (bool_decide_false (k1 = [])) by apply C1.
  destruct (enter_one_sim hk k1 v1 htab flag m P S) as (r1 & -> & S1 & Z1); [right; lia|].
  assert (E0 : (at_hd rest =? 0) = false).
  { apply Z.eqb_neq. unfold rest. destruct C2 as (Kn & Kc & _). destruct k2 as [|c k2]; [done|].
    by apply Forall_cons in Kc as [[? _] _]. }
  rewrite E0, length_app, Le. destruct (Z.ltb_spec 0 (remain - (Z.of_nat (length (k1 ++ EQUALS :: v1 ++ [10]) +
    length rest) - Z.of_nat (length rest)))); [|lia]. cbn [andb negb].
  assert (parse_entry 10 rest = PSet k2 v2 []) as -> by (by apply parse_last).
  rewrite (bool_decide_false (k2 = [])) by apply C2.
  destruct (enter_one_sim hk k2 v2 (s_htab r1) flag _ P S1) as (r2 & -> & S2 & Z2).
  { right. destruct (m !! k1) eqn:E; [rewrite map_size_insert_Some by done; lia|].
    rewrite map_size_insert_None by done. lia. }
  change (at_hd []) with 0. cbn [Z.eqb negb]. rewrite andb_false_r. eauto.
Qed.

(** A CRLF text without a final line end is imported wrongly.  Dropping the
    carriage return moves the text down by one byte, but the old bytes after
    the new end stay and are still parsed: the last value gets its last
    character twice. *)
Theorem import_crlf_stale (hk : hooks) (fuel : nat) (append : bool) (min_entries max_entries : Z)
    (htab : hsearch_data) (m : gmap str str) (k1 v1 k2 v2 : str) (x : Z) :
  permissive hk -> sim htab m -> Z.of_nat (base.size m) + 2 <= size htab ->
  clean_key 10 k1 -> clean_key 10 k2 -> Forall (fun c => c <> 13) (k1 ++ k2) ->
  v1 <> [] -> Forall plain v1 -> Forall plain (v2 ++ [x]) ->
  exists htab', himport_r hk fuel true append min_entries max_entries htab
      (k1 ++ [EQUALS] ++ v1 ++ [13; 10] ++ k2 ++ [EQUALS] ++ v2 ++ [x]) 10 H_NOCLEAR true [] =
      Some (1, htab') /\ sim htab' (<[k2 := v2 ++ [x; x]]> (<[k1 := v1]> m)).
Proof.
  intros P S Hz C1 C2 Hk Hv1 P1 P2. apply Forall_app in Hk as [Hk1 Hk2].
  set (a := k1 ++ [EQUALS] ++ v1). set (b := k2 ++ [EQUALS] ++ v2).
  assert (k1 ++ [EQUALS] ++ v1 ++ [13; 10] ++ k2 ++ [EQUALS] ++ v2 ++ [x] = a ++ [13; 10] ++ b ++ [x]) as ->
    by (unfold a, b; by rewrite <- !app_assoc).
  assert (Pl : forall v, Forall plain v -> Forall (fun c => c <> 0 /\ c <> 13) v).
  { intros v H. eapply Forall_impl; [exact H|]. by intros ? (? & ? & ? & ?). }
  assert (Kl : forall k, clean_key 10 k -> Forall (fun c => c <> 13) k -> Forall (fun c => c <> 0 /\ c <> 13) k).
  { intros k (_ & H & _) H'. apply Forall_and. split; [|done]. eapply Forall_impl; [exact H|]. by intros ? (? & _). }
  destruct (crlf_buffer a b x) as [D1 D2].
  { unfold a, b. rewrite <- !app_assoc, !Forall_app.
    apply Forall_app in P2 as [P2 Px]. split_and!; auto; by repeat constructor. }
  destruct S as (I & R & F). pose proof (inv_length _ I) as Hl. pose proof (inv_size _ I) as Hs.
  unfold himport_r. cbn [negb map].
  assert ((if append then Z.lor H_NOCLEAR H_NOCLEAR else H_NOCLEAR) = 1) as -> by (by destruct append).
  change (Z.land 1 H_NOCLEAR =? 0) with false. cbn [negb andb].
  destruct (table htab) as [t|] eqn:Et; [|unfold nodes in Hl; rewrite Et in Hl; simpl in Hl; lia].
  cbn [Z.eqb]. destruct (Z.eqb_spec (Z.of_nat (length (a ++ [13; 10] ++ b ++ [x]))) 0) as [E|_];
    [rewrite !length_app in E; cbn [length] in E; lia|].
  rewrite D1, D2.
  assert ((a ++ [10] ++ b ++ [x]) ++ [x; 0] = k1 ++ EQUALS :: v1 ++ [10] ++ k2 ++ EQUALS :: (v2 ++ [x; x]) ++ [0]) as ->
    by (unfold a, b; rewrite <- ?app_assoc; cbn [app]; by rewrite <- ?app_assoc).
  destruct (import_two hk 1 (length (k1 ++ EQUALS :: v1 ++ [10] ++ k2 ++ EQUALS :: (v2 ++ [x; x]) ++ [0]) - 1)
    (Z.of_nat (length (a ++ [13; 10] ++ b ++ [x])) - 1) k1 v1 k2 (v2 ++ [x; x]) htab m P)
    as (h' & E & S'); try done.
  { intros N. apply (f_equal length) in N. rewrite length_app in N. cbn [length] in N. lia. }
  { apply Forall_app in P2 as [P2 Px]. apply Forall_app. split; [done|].
    apply Forall_cons in Px as [Px Pn]. by rewrite !Forall_cons. }
  { unfold a. rewrite !length_app. cbn [length]. rewrite !length_app. cbn [length]. lia. }
  rewrite <- Nat.sub_succ_l in E by (rewrite length_app; cbn [length]; lia). rewrite Nat.sub_succ, Nat.sub_0_r in E.
  rewrite E. cbn [Z.eqb]. eauto.
Qed.

(** ** Matching prefixes *)
Definition matching (pat : str) (htab : hsearch_data) (i : Z) : bool :=
  (0 <? used (node_at htab i)) && starts_with pat (e_key (entry (node_at htab i))).

Lemma match_loop_spec n pat idx htab :
  match match_loop n pat idx htab with
  | Some i => idx <= i < idx + Z.of_nat n /\ matching pat htab i = true /\
      forall j, idx <= j < i -> matching pat htab j = false
  | None => forall j, idx <= j < idx + Z.of_nat n -> matching pat htab j = false
  end.
Proof.
  revert idx. induction n as [|n IH]; intros idx; cbn [match_loop]; [lia|].
  specialize (IH (idx + 1)).
  assert (Step : matching pat htab idx = false ->
    match match_loop n pat (idx + 1) htab with
    | Some i => idx <= i < idx + Z.of_nat (S n) /\ matching pat htab i = true /\
        forall j, idx <= j < i -> matching pat htab j = false
    | None => forall j, idx <= j < idx + Z.of_nat (S n) -> matching pat htab j = false
    end).
  { intros M. destruct (match_loop n pat (idx + 1) htab) as [i|].
    - destruct IH as (R & Mi & Mj). split; [lia|]. split; [done|]. intros j Hj.
      destruct (Z.eq_dec j idx) as [->|]; [done|]. apply Mj. lia.
    - intros j Hj. destruct (Z.eq_dec j idx) as [->|]; [done|]. apply IH. lia. }
  destruct (Z.leb_spec (used (node_at htab idx)) 0) as [U|U].
  - apply Step. unfold matching. by destruct (Z.ltb_spec 0 (used (node_at htab idx))); [lia|].
  - destruct (starts_with pat (e_key (entry (node_at htab idx)))) eqn:E.
    + split; [lia|]. split; [|lia]. unfold matching. rewrite E.
      by destruct (Z.ltb_spec 0 (used (node_at htab idx))); [|lia].
    + apply Step. unfold matching. by rewrite E, andb_false_r.
Qed.

(** [hmatch_r] misses the last slot.  A call gives the next slot in use,
    before the last one, whose name starts with the pattern; the last slot,
    which the probe sequences do use, is never given: a variable stored there
    is found by name but not by its prefix. *)
Theorem hmatch_misses_last (hk : hooks) (htab : hsearch_data) (pat k d : str) (last_idx : Z) :
  inv htab -> occ htab (size htab) k d -> 0 <= last_idx ->
  (let '(ret, slot, err) := hmatch_r pat last_idx htab in
   ret <> size htab /\
   (slot = Some ret /\ last_idx < ret < size htab /\ matching pat htab ret = true /\
      (forall j, last_idx < j < ret -> matching pat htab j = false) \/
    slot = None /\ ret = 0 /\ err = ESRCH /\
      forall j, last_idx < j < size htab -> matching pat htab j = false)) /\
  exists r, hsearch_r hk k None ENV_FIND htab 0 = Some r /\ s_ret r = size htab.
Proof.
  intros I O Hl. pose proof (inv_size _ I). split.
  - unfold hmatch_r. pose proof (match_loop_spec (Z.to_nat (size htab - (last_idx + 1))) pat (last_idx + 1) htab) as M.
    destruct (match_loop _ _ _ _) as [i|].
    + destruct M as (R & Mi & Mj). split; [lia|left]. split; [done|]. split; [lia|]. split; [done|].
      intros j Hj. apply Mj. lia.
    + split; [lia|right]. split_and!; [done..|]. intros j Hj. apply M. lia.
  - rewrite (hsearch_present hk k None ENV_FIND htab 0 (size htab) d I O).
    assert (Hh : hit htab k (size htab) = true) by (apply hit_occ; [done|lia|eauto]).
    unfold hit in Hh. unfold _compare_and_overwrite_entry. rewrite Hh. by eexists.
Qed.

(** ** Concrete tables *)
Definition after (ops : list hop) : hsearch_data :=
  match hrun hk0 htab7 ops with Some (_, h) => h | None => htab7 end.

Lemma htab7_sim : sim htab7 ∅.
Proof. apply (fresh_sim 7 prime_7). lia. Qed.

Lemma one_sim k d : sim (after [HEnter k d]) {[k := d]}.
Proof.
  unfold after. cbn [hrun]. destruct (hstep_sim hk0 htab7 ∅ (HEnter k d) hk0_permissive htab7_sim) as (h & -> & S & _).
  cbn [fst snd mstep] in *. rewrite lookup_empty, bool_decide_true in S by done.
  change (Z.of_nat (base.size ∅) =? size htab7) with false in S. exact S.
Qed.

Lemma after_inv htab m ops os h : sim htab m -> hrun hk0 htab ops = Some (os, h) -> inv h.
Proof.
  revert htab m os. induction ops as [|op ops IH]; intros htab m os S; cbn [hrun].
  - intros [= _ <-]. apply S.
  - destruct (hstep_sim hk0 htab m op hk0_permissive S) as (h1 & -> & S1 & _).
    destruct (hrun hk0 h1 ops) as [[os1 h2]|] eqn:E; [|done]. intros [= _ <-]. exact (IH h1 _ os1 S1 E).
Qed.

Lemma hexport_fits_witness :
  Z.of_nat (length [97; 61; 49; 10; 98; 61; 50; 92; 10; 10; 0]) <= 11 /\
  exists l, [97; 61; 49; 10; 98; 61; 50; 92; 10; 10; 0] = concat (map (emit 10) l) ++ [0] /\
    sorted cmpkey l /\
    l ≡ₚ export_list None (after [HEnter [98] [50; 10]; HEnter [97] [49]]) 0 [].
Proof.
  apply (hexport_fits hk0 None (after [HEnter [98] [50; 10]; HEnter [97] [49]]) 10 0 false 0 [] 11).
  - vm_compute. reflexivity.
  - by left.
Defined.

Lemma hexport_overflows_witness :
  11 = 9 + sum_uncounted 0 (export_list None (after [HEnter [97] [92; 92; 49; 49; 49]]) 0 []) /\
  (Exists (fun e => BACKSLASH ∈ data_of e) (export_list None (after [HEnter [97] [92; 92; 49; 49; 49]]) 0 []) ->
   9 < 11).
Proof.
  apply (hexport_overflows hk0 None (after [HEnter [97] [92; 92; 49; 49; 49]]) 0 false [] 9
    [97; 61; 92; 92; 92; 92; 49; 49; 49; 0; 0]).
  vm_compute. reflexivity.
Defined.

(** Hooks that refuse to create b. *)
Definition hk2 : hooks :=
  mk_hooks (fun e _ _ _ => bool_decide (e_key e = Some [98])) (run_callback hk1) (env_callback_init hk1)
    (env_flags_init hk1) (fun _ => true) (fun _ => true).
Lemma hk2_sane : Sane hk2 eff1.
Proof. destruct hk1_sane. by split. Qed.
Lemma eff1_relabels : Relabels eff1.
Proof. split; [done|]. intros. unfold eff1. cbn [snd]. rewrite <- map_fmap_compose. by apply map_fmap_ext. Qed.

Lemma two_sim k d k' d' : k' <> k ->
  sim (after [HEnter k d; HEnter k' d']) (<[k' := d']> {[k := d]}).
Proof.
  intros N. unfold after. cbn [hrun]. destruct (hstep_sim hk0 htab7 ∅ (HEnter k d) hk0_permissive htab7_sim) as (h & -> & S & Hs).
  cbn [fst snd mstep] in *. rewrite lookup_empty, bool_decide_true in S by done.
  change (Z.of_nat (base.size ∅) =? size htab7) with false in S. cbn [andb snd] in S.
  destruct (hstep_sim hk0 h _ (HEnter k' d') hk0_permissive S) as (h2 & -> & S2 & _).
  cbn [fst snd mstep] in *. rewrite Hs in S2.
  assert (base.size (<[k:=d]> (∅ : gmap str str)) = 1%nat) as E by (by rewrite map_size_insert_None).
  rewrite E, andb_false_r in S2. exact S2.
Qed.

Lemma env_roundtrip_witness :
  exists htab', himport_r hk2 1 true false 6 7 htab7
      (exported_buffer 12 [97; 61; 49; 92; 10; 50; 10; 98; 61; 51; 10; 0]) 10 0 false [] = Some (1, htab') /\
    sim htab' {[ [97] := [49; 10; 50] ]}.
Proof.
  pose proof (@env_roundtrip hk2 eff1 hk2_sane eff1_relabels None (after [HEnter [97] [49; 10; 50]; HEnter [98] [51]])
    htab7 (<[ [98] := [51] ]> {[ [97] := [49; 10; 50] ]}) 10 0 0 false
    0 12 [97; 61; 49; 92; 10; 50; 10; 98; 61; 51; 10; 0] 1 6 7 7 7) as T.
  assert (E : filter (fun kd => creatable hk2 eff1 0 kd.1 kd.2 = true)
    (<[ [98] := [51] ]> {[ [97] := [49; 10; 50] ]} : gmap str str) = {[ [97] := [49; 10; 50] ]})
    by (vm_compute; reflexivity).
  rewrite E in T. apply T; clear T E.
  - done.
  - by apply two_sim.
  - by split.
  - apply map_Forall_insert_2; [|apply map_Forall_singleton];
      (split; [|split; [done|by repeat constructor]]; split; [done|]; split_and!; try done; by repeat constructor).
  - done.
  - done.
  - vm_compute. reflexivity.
  - done.
  - done.
  - lia.
  - vm_compute. discriminate.
  - exact prime_7.
  - change (Z.lor 7 1) with 7. lia.
  - lia.
Defined.

Lemma import_crlf_stale_witness :
  exists htab', himport_r hk0 0 true false 6 7 htab7
      ([97] ++ [EQUALS] ++ [49] ++ [13; 10] ++ [98] ++ [EQUALS] ++ [] ++ [50]) 10 H_NOCLEAR true [] =
      Some (1, htab') /\ sim htab' (<[ [98] := [50; 50] ]> (<[ [97] := [49] ]> ∅)).
Proof.
  apply (import_crlf_stale hk0 0 false 6 7 htab7 ∅ [97] [49] [98] [] 50).
  - exact hk0_permissive.
  - exact htab7_sim.
  - vm_compute. discriminate.
  - split; [done|]. split_and!; try done. by repeat constructor.
  - split; [done|]. split_and!; try done. by repeat constructor.
  - by repeat constructor.
  - done.
  - by repeat constructor.
  - by repeat constructor.
Defined.

(** Four names with the same hash: the fourth is in the last slot. *)
Definition collide : hsearch_data :=
  after [HEnter [98] [49]; HEnter [105] [49]; HEnter [112] [49]; HEnter [119] [49]].

Lemma hmatch_misses_last_witness :
  (let '(ret, slot, err) := hmatch_r [119] 0 collide in
   ret <> 7 /\
   (slot = Some ret /\ 0 < ret < 7 /\ matching [119] collide ret = true /\
      (forall j, 0 < j < ret -> matching [119] collide j = false) \/
    slot = None /\ ret = 0 /\ err = ESRCH /\
      forall j, 0 < j < 7 -> matching [119] collide j = false)) /\
  exists r, hsearch_r hk0 [119] None ENV_FIND collide 0 = Some r /\ s_ret r = 7.
Proof.
  assert (I : inv collide).
  { destruct (hrun hk0 htab7 [HEnter [98] [49]; HEnter [105] [49]; HEnter [112] [49]; HEnter [119] [49]])
      as [[os h]|] eqn:E; [|vm_compute in E; discriminate].
    unfold collide, after. rewrite E. exact (after_inv htab7 ∅ _ os h htab7_sim E). }
  apply (hmatch_misses_last hk0 collide [119] [119] [49] 0 I); [|lia].
  vm_compute. repeat split; discriminate.
Defined.

End HashEnv.
