(* ===== verification/EnvAttr.v ===== *)
(** * Attributes, flags and callbacks of environment variables
    (env/attr.c, env/flags.c, env/callback.c)

    Attribute lists give each variable a type and access flags or a callback;
    [env_flags_validate] is the access check of the environment table, and
    [on_flags] and [on_callbacks] are callbacks of it that rewrite the flags and
    callbacks of all entries.  The regular expressions, the other registered
    callbacks and memory are parameters. *)

From stdpp Require Import gmap.
From Stdlib Require Ascii String.
From S2P Require Import Prelude.
From S2P Require Import Hashtable.

Module EnvAttr.
Import Hashtable.

(** A C string literal. *)
Definition lit (s : String.string) : str :=
  map (fun c => Z.of_N (Ascii.N_of_ascii c)) (String.list_ascii_of_string s).

(** ** Characters and strings (linux/ctype.h, lib/linux_string.c) *)
Definition isdigit (c : Z) : bool := (48 <=? c) && (c <=? 57).
Definition isxdigit (c : Z) : bool :=
  isdigit c || ((65 <=? c) && (c <=? 70)) || ((97 <=? c) && (c <=? 102)).
Definition isspace (c : Z) : bool := ((9 <=? c) && (c <=? 13)) || (c =? 32) || (c =? 160).

Fixpoint skip_spaces (s : str) : str :=
  match s with
  | c :: r => if isspace c then skip_spaces r else s
  | [] => []
  end.
Definition strim (s : str) : str := rev (skip_spaces (rev (skip_spaces s))).

(** The rest from the first [c] on. *)
Fixpoint strchr (s : str) (c : Z) : option str :=
  match s with
  | [] => None
  | x :: r => if x =? c then Some s else strchr r c
  end.
(** The part of [s] in front of its suffix [e]. *)
Definition before (s e : str) : str := take (length s - length e) s.

(** ** Configuration *)
Record config := mk_config {
  c_net : bool;                                      (* CONFIG_NET *)
  c_writeable : bool;                                (* CONFIG_ENV_WRITEABLE_LIST *)
  c_ignore_force : bool;                             (* CONFIG_ENV_ACCESS_IGNORE_FORCE *)
  c_regex : option (str -> option (str -> bool));    (* slre, with CONFIG_REGEX *)
  c_malloc : Z -> bool;
  flags_static : str;                                (* ENV_FLAGS_LIST_STATIC *)
  callbacks_static : str;                            (* ENV_CALLBACK_LIST_STATIC *)
  clbk_tbl : list (str * Z)                          (* the linker list of callbacks *)
}.

Definition DELIM : Z := 44.
Definition SEP : Z := 58.

(** ** env_attr_walk *)

(** The name and the attributes of an entry. *)
Definition split_entry (entry_cpy : str) : str * option str :=
  match strchr entry_cpy SEP with
  | Some e => (strim (before entry_cpy e), Some (strim (tl e)))
  | None => (strim entry_cpy, None)
  end.

Fixpoint walk_loop {S : Type} (fuel : nat) (malloc : Z -> bool)
    (callback : str -> option str -> S -> Z * S) (entry : str) (priv : S) : option (Z * S) :=
  match fuel with
  | O => None
  | Datatypes.S f =>
      let entry_end := strchr entry DELIM in
      let entry_cpy := match entry_end with Some e => before entry e | None => entry end in
      if negb (bool_decide (entry_cpy = [])) && negb (malloc (Z.of_nat (length entry_cpy) + 1))
      then Some (- ENOMEM, priv)
      else
        let '(retval, priv) :=
          let '(name, attributes) := split_entry entry_cpy in
          if bool_decide (name = []) then (0, priv) else callback name attributes priv in
        if negb (retval =? 0) then Some (retval, priv)
        else match entry_end with
             | None => Some (0, priv)
             | Some e => walk_loop f malloc callback (tl e) priv
             end
  end.

Definition env_attr_walk {S : Type} (cfg : config) (attr_list : option str)
    (callback : str -> option str -> S -> Z * S) (priv : S) : option (Z * S) :=
  match attr_list with
  | None => Some (1, priv)
  | Some l => walk_loop (Datatypes.S (length l)) (c_malloc cfg) callback l priv
  end.

(** ** env_attr_lookup *)

(** With CONFIG_REGEX: the state is the regex and the attributes kept. *)
Definition regex_callback (cfg : config) (compile : str -> option (str -> bool)) (searched_for : str)
    (name : str) (attributes : option str) (priv : option str * option str)
    : Z * (option str * option str) :=
  let regex := [94] ++ name ++ [36] in
  match compile regex with
  | Some matches =>
      if matches searched_for then
        match attributes with
        | None => (- EINVAL, priv)
        | Some a =>
            if negb (c_malloc cfg (Z.of_nat (length regex) + 1)) then (- ENOMEM, (None, snd priv))
            else if negb (c_malloc cfg (Z.of_nat (length a) + 1)) then (- ENOMEM, (None, None))
            else (0, (Some regex, Some a))
        end
      else (0, priv)
  | None => (- EINVAL, priv)
  end.

(** Without it: the last exact match; positions count from the start of the
    list, the byte in front of it is not looked at for its value. *)
Definition char_at (s : str) (i : Z) : Z := if i <? 0 then 0 else nth (Z.to_nat i) s 0.

Fixpoint strstr_at (n : nat) (s pat : str) (i : nat) : option nat :=
  match n with
  | O => None
  | Datatypes.S n' =>
      if bool_decide (take (length pat) (drop i s) = pat) then Some i
      else strstr_at n' s pat (Datatypes.S i)
  end.

Fixpoint back_spaces (n : nat) (s : str) (i : Z) : Z :=
  match n with
  | O => i
  | Datatypes.S n' => if (char_at s i =? 32) && (0 <=? i) then back_spaces n' s (i - 1) else i
  end.
Fixpoint fwd_blanks (s : str) : str :=
  match s with
  | c :: r => if c =? 32 then fwd_blanks r else s
  | [] => []
  end.

Fixpoint search_loop (fuel : nat) (searched search_for : str) (cur : nat) (result : option nat) : option (option nat) :=
  match fuel with
  | O => None
  | Datatypes.S f =>
      match strstr_at (Datatypes.S (length searched) - cur) searched search_for cur with
      | None => Some result
      | Some mt =>
          let prevch := back_spaces (Datatypes.S mt) searched (Z.of_nat mt - 1) in
          let nextch := at_hd (fwd_blanks (drop (mt + length search_for) searched)) in
          if negb (Nat.eqb mt 0) && negb (char_at searched prevch =? DELIM) && negb (prevch =? -1)
          then search_loop f searched search_for (Datatypes.S mt) result
          else if negb (nextch =? SEP) && negb (nextch =? DELIM) && negb (nextch =? 0)
          then search_loop f searched search_for (Datatypes.S mt) result
          else search_loop f searched search_for (Datatypes.S mt) (Some mt)
      end
  end.

(** The position of the entry and the length of its name. *)
Definition reverse_name_search (searched search_for : str) : option (option (nat * nat)) :=
  match search_for with
  | [] => Some (Some (O, length searched))
  | _ =>
      match search_loop (Datatypes.S (Datatypes.S (length searched))) searched search_for O None with
      | None => None
      | Some r => Some (match r with Some i => Some (i, length search_for) | None => None end)
      end
  end.

(** strpbrk with the delimiters ',' and ' '. *)
Fixpoint upto_delim (s : str) : str :=
  match s with
  | c :: r => if (c =? DELIM) || (c =? 32) then [] else c :: upto_delim r
  | [] => []
  end.

(** The error, or the attributes written. *)
Definition env_attr_lookup_regex (cfg : config) (compile : str -> option (str -> bool)) (attr_list : option str)
    (name : str) : option (Z + str) :=
  match attr_list with
  | None => Some (inl (- EINVAL))
  | Some l =>
      match env_attr_walk cfg (Some l) (regex_callback cfg compile name) (None, None) with
      | None => None
      | Some (retval, (regex, attributes)) =>
          if negb (retval =? 0) then Some (inl retval)
          else match regex with
               | Some _ => Some (inr (default [] attributes))
               | None => Some (inl (- ENOENT))
               end
      end
  end.

Definition env_attr_lookup_exact (attr_list : option str) (name : str) : option (Z + str) :=
  match attr_list with
  | None => Some (inl (- EINVAL))
  | Some l =>
      match reverse_name_search l name with
      | None => None
      | Some None => Some (inl (- ENOENT))
      | Some (Some (pos, entry_len)) =>
          let entry := fwd_blanks (drop (pos + entry_len) l) in
          if negb (at_hd entry =? SEP) then Some (inr [])
          else Some (inr (upto_delim (fwd_blanks (tl entry))))
      end
  end.

Definition env_attr_lookup (cfg : config) (attr_list : option str) (name : str) : option (Z + str) :=
  match c_regex cfg with
  | Some compile => env_attr_lookup_regex cfg compile attr_list name
  | None => env_attr_lookup_exact attr_list name
  end.

(** ** Flags (env/flags.c, include/env_flags.h) *)
Definition VARTYPE_BIN_MASK : Z := 7.
Definition PREVENT_DELETE : Z := 8.
Definition PREVENT_CREATE : Z := 16.
Definition PREVENT_OVERWR : Z := 32.
Definition PREVENT_NONDEF_OVERWR : Z := 64.
Definition VARACCESS_WRITEABLE : Z := 128.
Definition VARACCESS_BIN_MASK : Z := 248.

Definition H_FORCE : Z := 2.
Definition H_DEFAULT : Z := 1024.
Definition H_EXTERNAL : Z := 2048.

(** enum env_flags_vartype. *)
Definition vartype_string : Z := 0.
Definition vartype_decimal : Z := 1.
Definition vartype_hex : Z := 2.
Definition vartype_bool : Z := 3.
Definition vartype_ipaddr : Z := 4.
Definition vartype_macaddr : Z := 5.
Definition vartype_end (cfg : config) : Z := if c_net cfg then 6 else 4.

Definition env_flags_vartype_rep (cfg : config) : str :=
  lit "sdxb" ++ (if c_net cfg then lit "im" else []).
Definition env_flags_varaccess_rep (cfg : config) : str :=
  lit "aroc" ++ (if c_writeable cfg then lit "w" else []).
Definition env_flags_varaccess_mask (cfg : config) : list Z :=
  [0; Z.lor (Z.lor PREVENT_DELETE PREVENT_CREATE) PREVENT_OVERWR; Z.lor PREVENT_DELETE PREVENT_OVERWR;
   Z.lor PREVENT_DELETE PREVENT_NONDEF_OVERWR] ++ (if c_writeable cfg then [VARACCESS_WRITEABLE] else []).

(** The position of a character. *)
Definition rep_index (rep : str) (c : Z) : option Z :=
  match strchr rep c with Some e => Some (Z.of_nat (length rep - length e)) | None => None end.

Definition env_flags_parse_vartype (cfg : config) (flags : str) : Z :=
  match flags with
  | [] => vartype_string
  | c :: _ => default vartype_string (rep_index (env_flags_vartype_rep cfg) c)
  end.

Definition env_flags_parse_varaccess (cfg : config) (flags : str) : Z :=
  match flags with
  | _ :: c :: _ => default 0 (rep_index (env_flags_varaccess_rep cfg) c)
  | _ => 0
  end.

Fixpoint binflags_loop (masks : list Z) (i binflags : Z) : option Z :=
  match masks with
  | [] => None
  | x :: masks =>
      if x =? Z.land binflags VARACCESS_BIN_MASK then Some i else binflags_loop masks (i + 1) binflags
  end.
Definition env_flags_parse_varaccess_from_binflags (cfg : config) (binflags : Z) : Z :=
  default 0 (binflags_loop (env_flags_varaccess_mask cfg) 0 binflags).

Definition is_hex_prefix (value : str) : bool :=
  (at_hd value =? 48) && ((at_hd (tl value) =? 120) || (at_hd (tl value) =? 88)).

(** [i] counts down from [max_digits]; from -1 it does not reach 0. *)
Fixpoint skip_digits (hex : bool) (value : str) (i : Z) : str :=
  match value with
  | [] => []
  | c :: r =>
      if i =? 0 then value
      else if hex && negb (isxdigit c) then value
      else if negb hex && negb (isdigit c) then value
      else skip_digits hex r (i - 1)
  end.
Definition skip_num (hex : bool) (value : str) (max_digits : Z) : str :=
  let value := if hex && is_hex_prefix value then drop 2 value else value in
  skip_digits hex value max_digits.

(** [n] groups left, the last one ends the string. *)
Fixpoint groups (n : nat) (hex : bool) (max_digits sep : Z) (cur : str) : Z :=
  match n with
  | O => 0
  | S n' =>
      let e := skip_num hex cur max_digits in
      if Nat.eqb (length cur) (length e) then -1
      else if hex && Nat.eqb (length cur) (length e + 2) && is_hex_prefix cur then -1
      else if negb (at_hd e =? match n' with O => 0 | S _ => sep end) then -1
      else groups n' hex max_digits sep (tl e)
  end.

Definition eth_validate_ethaddr_str (addr : str) : Z := groups 6 true 2 58 addr.

Definition _env_flags_validate_type (cfg : config) (value : str) (type : Z) : Z :=
  if type =? vartype_string then 0
  else if type =? vartype_decimal then
    if negb (at_hd (skip_num false value (-1)) =? 0) then -1 else 0
  else if type =? vartype_hex then
    let e := skip_num true value (-1) in
    if negb (at_hd e =? 0) then -1
    else if Nat.eqb (length value) (length e + 2) && is_hex_prefix value then -1 else 0
  else if type =? vartype_bool then
    if negb (bool_decide (at_hd value ∈ lit "1ytYT0nfNF")) then -1
    else if negb (at_hd (tl value) =? 0) then -1 else 0
  else if c_net cfg && (type =? vartype_ipaddr) then groups 4 false 3 46 value
  else if c_net cfg && (type =? vartype_macaddr) then
    if negb (eth_validate_ethaddr_str value =? 0) then -1 else 0
  else if type =? vartype_end cfg then -1
  else 0.

(** The error, or the flags found. *)
Definition env_flags_lookup (cfg : config) (flags_list : option str) (name : str) : option (Z + str) :=
  match (match flags_list with
         | Some _ => env_attr_lookup cfg flags_list name
         | None => Some (inl 1)
         end) with
  | None => None
  | Some (inr flags) => Some (inr flags)
  | Some (inl _) => env_attr_lookup cfg (Some (flags_static cfg)) name
  end.

Definition env_parse_flags_to_bin (cfg : config) (flags : str) : Z :=
  Z.lor (Z.land (env_flags_parse_vartype cfg flags) VARTYPE_BIN_MASK)
    (nth (Z.to_nat (env_flags_parse_varaccess cfg flags)) (env_flags_varaccess_mask cfg) 0).

(** The two static variables of the file. *)
Record list_state := mk_list_state {
  first_call : bool;
  the_list : option str
}.

(** The list is read once, at the first call; [var]: env_get(".flags").  A
    look-up that does not end leaves the entry alone. *)
Definition flags_list_init (cfg : config) (st : list_state) (var : option str) : list_state :=
  if first_call st
  then mk_list_state false (if c_writeable cfg then Some (flags_static cfg) else var) else st.

Definition set_flags_of (e : env_entry) (f : Z) : env_entry := mk_entry (e_key e) (e_data e) (e_callback e) f.

Definition env_flags_init (cfg : config) (st : list_state) (var : option str) (var_entry : env_entry)
    : env_entry * list_state :=
  let st := flags_list_init cfg st var in
  match env_flags_lookup cfg (the_list st) (key_of var_entry) with
  | Some (inr flags) =>
      if bool_decide (flags = []) then (var_entry, st)
      else (set_flags_of var_entry (env_parse_flags_to_bin cfg flags), st)
  | _ => (var_entry, st)
  end.

(** *** The blanket update when ".flags" changes *)
Definition clear_flags (e : env_entry) : env_entry := set_flags_of e 0.

(** A look-up runs no hook. *)
Definition find_only : hooks :=
  mk_hooks (fun _ _ _ _ => true) (fun _ _ _ _ _ _ => None) (fun e => e) (fun e => e) (fun _ => false)
    (fun _ => false).

(** [None] in the state: a search that did not end. *)
Definition set_flags (cfg : config) (name : str) (value : option str) (htab : option hsearch_data)
    : Z * option hsearch_data :=
  match htab with
  | None => (0, None)
  | Some htab =>
      match hsearch_r find_only name None ENV_FIND htab 0 with
      | None => (0, None)
      | Some r =>
          match s_retval r with
          | None => (0, Some htab)
          | Some idx =>
              let nd := node_at htab idx in
              let f := match value with
                       | None | Some [] => 0
                       | Some v => env_parse_flags_to_bin cfg v
                       end in
              (0, Some (set_node htab idx (mk_node (used nd) (set_flags_of (entry nd) f))))
          end
      end
  end.

Definition on_flags (cfg : config) (value : option str) (htab : hsearch_data) : option hsearch_data :=
  let htab := walk_update clear_flags htab in
  match env_attr_walk cfg (Some (flags_static cfg)) (set_flags cfg) (Some htab) with
  | None => None
  | Some (_, htab) =>
      match env_attr_walk cfg value (set_flags cfg) htab with
      | None => None
      | Some (_, htab) => htab
      end
  end.

(** *** The access check; [env_get_default]: the default environment *)
Definition env_flags_validate (cfg : config) (env_get_default : str -> option str) (item : env_entry)
    (newval : option str) (op : env_op) (flag : Z) : Z :=
  let oldval := match op with env_op_create => None | _ => e_data item end in
  let newval := default [] newval in
  let type := Z.land VARTYPE_BIN_MASK (e_flags item) in
  let bad_type := match op with
                  | env_op_delete => false
                  | _ => _env_flags_validate_type cfg newval type <? 0
                  end in
  if bad_type then -1
  else if c_writeable cfg && negb (Z.land flag H_DEFAULT =? 0) then 0
  else if c_writeable cfg && negb (Z.land flag H_EXTERNAL =? 0) &&
          (Z.land (e_flags item) VARACCESS_WRITEABLE =? 0) then 1
  else if negb (Z.land flag H_FORCE =? 0) && negb (c_ignore_force cfg) then 0
  else
    match op with
    | env_op_delete => if negb (Z.land (e_flags item) PREVENT_DELETE =? 0) then 1 else 0
    | env_op_overwrite =>
        if negb (Z.land (e_flags item) PREVENT_OVERWR =? 0) then 1
        else if negb (Z.land (e_flags item) PREVENT_NONDEF_OVERWR =? 0) then
          let defval := default [] (env_get_default (key_of item)) in
          if negb (strcmp (default [] oldval) defval =? 0) then 1 else 0
        else 0
    | env_op_create => if negb (Z.land (e_flags item) PREVENT_CREATE =? 0) then 1 else 0
    end.

(** ** Callbacks (env/callback.c) *)
Fixpoint find_loop (tbl : list (str * Z)) (name : str) : option Z :=
  match tbl with
  | [] => None
  | (n, cb) :: tbl => if strcmp name n =? 0 then Some cb else find_loop tbl name
  end.
Definition find_env_callback (cfg : config) (name : option str) : option Z :=
  match name with None => None | Some n => find_loop (clbk_tbl cfg) n end.

Definition set_callback_of (e : env_entry) (c : option Z) : env_entry :=
  mk_entry (e_key e) (e_data e) c (e_flags e).

(** [var]: env_get(".callbacks"), read at the first call. *)
Definition env_callback_init (cfg : config) (st : list_state) (var : option str) (var_entry : env_entry)
    : env_entry * list_state :=
  let st := if first_call st then mk_list_state false var else st in
  let e := set_callback_of var_entry None in
  let name := key_of var_entry in
  match (match the_list st with
         | Some _ => env_attr_lookup cfg (the_list st) name
         | None => Some (inl 1)
         end) with
  | None => (e, st)
  | Some r =>
      match (match r with
             | inr n => Some (inr n)
             | inl _ => env_attr_lookup cfg (Some (callbacks_static cfg)) name
             end) with
      | Some (inr n) =>
          if bool_decide (n = []) then (e, st)
          else match find_env_callback cfg (Some n) with
               | Some cb => (set_callback_of e (Some cb), st)
               | None => (e, st)
               end
      | _ => (e, st)
      end
  end.

Definition clear_callback (e : env_entry) : env_entry := set_callback_of e None.

Definition set_callback (cfg : config) (name : str) (value : option str) (htab : option hsearch_data)
    : Z * option hsearch_data :=
  match htab with
  | None => (0, None)
  | Some htab =>
      match hsearch_r find_only name None ENV_FIND htab 0 with
      | None => (0, None)
      | Some r =>
          match s_retval r with
          | None => (0, Some htab)
          | Some idx =>
              let nd := node_at htab idx in
              match value with
              | None | Some [] =>
                  (0, Some (set_node htab idx (mk_node (used nd) (set_callback_of (entry nd) None))))
              | Some v =>
                  match find_env_callback cfg (Some v) with
                  | Some cb => (0, Some (set_node htab idx (mk_node (used nd) (set_callback_of (entry nd) (Some cb)))))
                  | None => (0, Some htab)
                  end
              end
          end
      end
  end.

Definition on_callbacks (cfg : config) (value : option str) (htab : hsearch_data)
    : option hsearch_data :=
  let htab := walk_update clear_callback htab in
  match env_attr_walk cfg (Some (callbacks_static cfg)) (set_callback cfg) (Some htab) with
  | None => None
  | Some (_, htab) =>
      match env_attr_walk cfg value (set_callback cfg) htab with
      | None => None
      | Some (_, htab) => htab
      end
  end.

(** ** The hooks of the environment table

    Once both lists were read.  The entries of the linker list that stand for
    [on_flags] and [on_callbacks] have these numbers; [run] is what the other
    callbacks answer, which change nothing in the table. *)
Definition ON_FLAGS : Z := -1.
Definition ON_CALLBACKS : Z := -2.

Definition run_env_callback (cfg : config) (run : Z -> str -> option str -> env_op -> Z -> Z)
    (cb : Z) (name : str) (value : option str) (op : env_op) (flags : Z) (htab : hsearch_data)
    : option (Z * hsearch_data) :=
  if cb =? ON_FLAGS then htab ← on_flags cfg value htab; Some (0, htab)
  else if cb =? ON_CALLBACKS then htab ← on_callbacks cfg value htab; Some (0, htab)
  else Some (run cb name value op flags, htab).

Definition env_hooks (cfg : config) (flags_list callback_list : option str) (env_get_default : str -> option str)
    (run : Z -> str -> option str -> env_op -> Z -> Z) : hooks :=
  mk_hooks
    (fun e v op f => negb (env_flags_validate cfg env_get_default e v op f =? 0))
    (run_env_callback cfg run)
    (fun e => fst (env_callback_init cfg (mk_list_state false callback_list) None e))
    (fun e => fst (env_flags_init cfg (mk_list_state false flags_list) None e))
    (fun s => c_malloc cfg (Z.of_nat (length s) + 1))
    (fun n => c_malloc cfg n).

(** ** What the type check accepts *)
Definition digits (v : str) : Prop := Forall (fun c => isdigit c = true) v.

Lemma digit_nonzero c : isdigit c = true -> c <> 0 /\ c <> 46.
Proof. unfold isdigit. repeat cmp1; intros; lia || done. Qed.

(** The leading digits, no more than [i] unless that is negative. *)
Lemma skip_digits_spec v i :
  exists d, v = d ++ skip_digits false v i /\ digits d /\ (0 <= i -> Z.of_nat (length d) <= i) /\
    (0 <= i -> Z.of_nat (length d) < i -> isdigit (at_hd (skip_digits false v i)) = false) /\
    (i < 0 -> isdigit (at_hd (skip_digits false v i)) = false).
Proof.
  revert i. induction v as [|c v IH]; intros i.
  { exists []. split; [done|]. split; [constructor|]. by split_and!; intros. }
  cbn [skip_digits andb negb]. destruct (Z.eqb_spec i 0) as [->|Ni].
  { exists []. split; [done|]. split; [constructor|]. split_and!; intros; simpl in *; lia. }
  destruct (isdigit c) eqn:Ec; cbn [negb].
  - destruct (IH (i - 1)) as (d & E & D & L1 & L2 & L3). exists (c :: d). cbn [app length].
    split; [by f_equal|]. split; [by constructor|]. split_and!; intros; [lia|apply L2; lia|apply L3; lia].
  - exists []. split; [done|]. split; [constructor|]. by split_and!; intros; [simpl; lia|..].
Qed.

Lemma skip_digits_app d r i : digits d -> isdigit (at_hd r) = false -> i < 0 \/ Z.of_nat (length d) <= i ->
  skip_digits false (d ++ r) i = r.
Proof.
  intros D Hr. revert i. induction D as [|c d Hc D IH]; intros i Hi; cbn [app].
  - destruct r as [|c r]; [done|]. cbn [skip_digits andb negb]. cbn [at_hd hd] in Hr. rewrite Hr.
    by destruct (i =? 0).
  - cbn [skip_digits andb negb]. cbn [length] in Hi. destruct (Z.eqb_spec i 0); [lia|]. rewrite Hc. cbn [negb].
    apply IH. lia.
Qed.

(** Groups of one to [n] digits, joined by dots. *)
Fixpoint join (gs : list str) : str :=
  match gs with
  | [] => []
  | [g] => g
  | g :: gs => g ++ 46 :: join gs
  end.
Definition group (g : str) : Prop := digits g /\ (1 <= length g <= 3)%nat.

Lemma group_split v : Forall (fun c => c <> 0) v -> let e := skip_num false v 3 in
  Nat.eqb (length v) (length e) = false <-> exists g, group g /\ v = g ++ e.
Proof.
  intros _ e. unfold e, skip_num. cbn [andb]. destruct (skip_digits_spec v 3) as (d & E & D & L & _ & _).
  split.
  - intros N. apply Nat.eqb_neq in N. exists d. split; [|done]. split; [done|].
    assert (length v = length d + length (skip_digits false v 3))%nat by (rewrite E at 1; apply length_app). lia.
  - intros (g & [_ Hg] & Eg). apply Nat.eqb_neq.
    assert (length v = length g + length (skip_digits false v 3))%nat by (rewrite Eg at 1; apply length_app). lia.
Qed.

Lemma groups_join n v : Forall (fun c => c <> 0) v ->
  groups (S n) false 3 46 v = 0 <-> exists gs, length gs = S n /\ Forall group gs /\ v = join gs.
Proof.
  revert v. induction n as [|n IH]; intros v Nz.
  - cbn [groups]. cbv zeta. cbn [andb].
    pose proof (group_split v Nz) as G. cbv zeta in G. set (e := skip_num false v 3) in *. split.
    + destruct (Nat.eqb (length v) (length e)) eqn:En; [done|].
      destruct (Z.eqb_spec (at_hd e) 0) as [E0|]; [|done]. intros _.
      destruct (proj1 G eq_refl) as (g & Hg & Ev). exists [g]. split; [done|]. split; [by rewrite Forall_singleton|].
      assert (e = []) as E; [|by rewrite E, app_nil_r in Ev].
      destruct e as [|c r]; [done|]. rewrite Ev in Nz. apply Forall_app in Nz as [_ Nz].
      by apply Forall_cons in Nz as [? _].
    + intros (gs & L & F & ->). destruct gs as [|g [|]]; try done. cbn [join] in *.
      apply Forall_cons in F as [[D Lg] _].
      assert (e = []) as E.
      { unfold e, skip_num. cbn [andb]. rewrite <- (app_nil_r g). apply skip_digits_app; [done|done|lia]. }
      rewrite E. destruct (Nat.eqb_spec (length g) (length (@nil Z))); [simpl in *; lia|done].
  - cbn [groups]. cbv zeta. cbn [andb].
    pose proof (group_split v Nz) as G. cbv zeta in G. set (e := skip_num false v 3) in *. split.
    + destruct (Nat.eqb (length v) (length e)) eqn:En; [done|].
      destruct (Z.eqb_spec (at_hd e) 46) as [E0|]; [|done]. cbn [negb]. intros H.
      destruct (proj1 G eq_refl) as (g & Hg & Ev). destruct e as [|c r]; [done|]. cbn [at_hd hd tl] in *. subst c.
      assert (Forall (fun c => c <> 0) r) as Nr.
      { rewrite Ev in Nz. apply Forall_app in Nz as [_ Nz]. by apply Forall_cons in Nz as [_ ?]. }
      apply (IH r Nr) in H as (gs & L & F & Er). exists (g :: gs). split; [by simpl; rewrite L|].
      split; [by constructor|]. destruct gs; [done|]. cbn [join]. by rewrite Ev, Er.
    + intros (gs & L & F & ->). destruct gs as [|g [|g2 gs]]; try done.
      apply Forall_cons in F as [[D Lg] F].
      change (join (g :: g2 :: gs)) with (g ++ 46 :: join (g2 :: gs)) in *.
      assert (e = 46 :: join (g2 :: gs)) as E.
      { unfold e, skip_num. cbn [andb]. apply skip_digits_app; [done|done|lia]. }
      rewrite E. destruct (Nat.eqb_spec (length (g ++ 46 :: join (g2 :: gs))) (length (46 :: join (g2 :: gs)))) as [X|_];
        [rewrite length_app in X; lia|].
      cbn [at_hd hd tl Z.eqb Pos.eqb negb]. apply (IH (join (g2 :: gs))).
      * apply Forall_app in Nz as [_ Nz]. by apply Forall_cons in Nz as [_ ?].
      * exists (g2 :: gs). split; [simpl in L; simpl; lia|]. by split.
Qed.

(** Formats of typed values.  A decimal is accepted exactly when it has
    only digits, a boolean when it is one of ten letters, an IP address when it
    is four groups of one to three digits joined by dots. *)
Theorem type_formats (cfg : config) (v : str) :
  c_net cfg = true -> Forall (fun c => c <> 0) v ->
  (_env_flags_validate_type cfg v vartype_decimal = 0 <-> digits v) /\
  (_env_flags_validate_type cfg v vartype_bool = 0 <-> exists c, v = [c] /\ c ∈ lit "1ytYT0nfNF") /\
  (_env_flags_validate_type cfg v vartype_ipaddr = 0 <->
     exists gs, length gs = 4%nat /\ Forall group gs /\ v = join gs).
Proof.
  intros Hn Nz. unfold _env_flags_validate_type, vartype_string, vartype_decimal, vartype_hex, vartype_bool, vartype_ipaddr.
  cbn [Z.eqb Pos.eqb]. split_and!.
  - unfold skip_num. cbn [andb]. split.
    + destruct (skip_digits_spec v (-1)) as (d & E & D & _). destruct (skip_digits false v (-1)) as [|c r]; intros H.
      * by rewrite E, app_nil_r.
      * rewrite E in Nz. apply Forall_app in Nz as [_ Nz]. apply Forall_cons in Nz as [Nz _].
        cbn [at_hd hd] in H. by destruct (Z.eqb_spec c 0).
    + intros D. rewrite <- (app_nil_r v), skip_digits_app; [done|done|done|lia].
  - destruct v as [|c v].
    + split; [intros H; by vm_compute in H|by intros (? & ? & _)].
    + cbn [at_hd hd tl]. case_bool_decide as Hc; cbn [negb].
      * destruct v as [|c2 v]; [by split; [eauto|]|]. apply Forall_cons in Nz as [_ Nz].
        apply Forall_cons in Nz as [Nz _]. change (at_hd (c2 :: v)) with c2. destruct (Z.eqb_spec c2 0); [done|].
        cbn [negb]. split; [done|by intros (? & ? & _)].
      * split; [done|]. intros (? & [= <- _] & ?). done.
  - rewrite Hn. cbn [andb]. by apply groups_join.
Qed.

Lemma type_formats_witness :
  (_env_flags_validate_type (mk_config true false false None (fun _ => true) [] [] []) (lit "10.0.0.1") vartype_decimal = 0 <->
     digits (lit "10.0.0.1")) /\
  (_env_flags_validate_type (mk_config true false false None (fun _ => true) [] [] []) (lit "10.0.0.1") vartype_bool = 0 <->
     exists c, lit "10.0.0.1" = [c] /\ c ∈ lit "1ytYT0nfNF") /\
  (_env_flags_validate_type (mk_config true false false None (fun _ => true) [] [] []) (lit "10.0.0.1") vartype_ipaddr = 0 <->
     exists gs, length gs = 4%nat /\ Forall group gs /\ lit "10.0.0.1" = join gs).
Proof.
  apply (type_formats (mk_config true false false None (fun _ => true) [] [] []) (lit "10.0.0.1")); [done|].
  vm_compute. by repeat constructor.
Defined.

End EnvAttr.
