(* ===== verification/EnvAccess.v ===== *)
(** * Access control of the environment

    The environment table with the access check, flags and callbacks of
    env/flags.c and env/callback.c, [on_flags] and [on_callbacks] included: what
    any sequence of changes and imports can and cannot do to a variable. *)

From stdpp Require Import gmap.
From S2P Require Import Prelude.
From S2P Require Import Hashtable.
From S2P Require Import HashAcl.
From S2P Require Import HashEnv.
From S2P Require Import EnvAttr.

Module EnvAccess.
Import Hashtable HashAcl EnvAttr.
Local Abbreviation Relabels := HashEnv.Relabels.

(** ** The hooks are fit for the table *)
Lemma flags_init_keeps cfg st var e :
  e_key (fst (EnvAttr.env_flags_init cfg st var e)) = e_key e /\
  e_data (fst (EnvAttr.env_flags_init cfg st var e)) = e_data e.
Proof.
  unfold EnvAttr.env_flags_init. destruct (env_flags_lookup _ _ _) as [[err|flags]|]; [done| |done].
  by destruct (bool_decide _).
Qed.

Lemma callback_init_keeps cfg st var e :
  e_key (fst (EnvAttr.env_callback_init cfg st var e)) = e_key e /\
  e_data (fst (EnvAttr.env_callback_init cfg st var e)) = e_data e.
Proof. unfold EnvAttr.env_callback_init. repeat case_match; done. Qed.

Lemma groups_range n hex mx sep v : groups n hex mx sep v = 0 \/ groups n hex mx sep v = -1.
Proof.
  revert v. induction n as [|n IH]; intros v; cbn [groups]; [by left|].
  repeat (destruct (Nat.eqb _ _) || destruct (_ && _) || destruct (negb _)); try (by right); apply IH.
Qed.

Lemma validate_type_range cfg v t :
  _env_flags_validate_type cfg v t = 0 \/ _env_flags_validate_type cfg v t = -1.
Proof.
  unfold _env_flags_validate_type. cbv zeta.
  repeat match goal with |- context [if ?b then _ else _] => destruct b end; auto using groups_range.
Qed.

(** ** The attribute lists *)
Fixpoint split_delim (l : str) : list str :=
  match l with
  | [] => [[]]
  | c :: r =>
      if c =? DELIM then [] :: split_delim r
      else match split_delim r with
           | h :: t => (c :: h) :: t
           | [] => [[c]]
           end
  end.
(** The entries of a list that have a name. *)
Definition attr_entries (l : str) : list (str * option str) :=
  List.filter (fun e => negb (bool_decide (fst e = []))) (map split_entry (split_delim l)).

Lemma strchr_split l :
  match strchr l DELIM with
  | None => split_delim l = [l]
  | Some e => (exists c, e = c :: tl e) /\ split_delim l = before l e :: split_delim (tl e) /\ (length e <= length l)%nat
  end.
Proof.
  induction l as [|c l IH]; [done|]. cbn [strchr split_delim]. destruct (Z.eqb_spec c DELIM) as [->|N].
  - split; [by eexists|]. unfold before. by rewrite Nat.sub_diag.
  - destruct (strchr l DELIM) as [e|]; [|by rewrite IH]. destruct IH as (Hc & -> & L). split; [done|].
    split; [|cbn [length]; lia]. unfold before. cbn [length]. by rewrite Nat.sub_succ_l by lia.
Qed.

(** With callbacks that always go on, the walk ends and visits the entries in
    order. *)
Lemma walk_fold {S} fuel malloc (cb : str -> option str -> S -> Z * S) l s :
  (forall n, malloc n = true) -> (forall n a s, fst (cb n a s) = 0) -> (length l < fuel)%nat ->
  walk_loop fuel malloc cb l s =
    Some (0, fold_left (fun s e => snd (cb (fst e) (snd e) s)) (attr_entries l) s).
Proof.
  intros Hm Hc. revert l s. induction fuel as [|f IH]; intros l s Hf; [lia|]. cbn [walk_loop]. rewrite Hm.
  cbn [negb]. rewrite andb_false_r. pose proof (strchr_split l) as Sp. unfold attr_entries.
  destruct (strchr l DELIM) as [e|].
  - destruct Sp as ((c & Ee) & -> & L). cbn [map List.filter].
    destruct (split_entry (before l e)) as [name attrs]. cbn [fst]. fold (attr_entries (tl e)).
    assert (length (tl e) < f)%nat by (rewrite Ee in L; simpl in L; lia).
    destruct (decide (name = [])) as [Hn|Hn]; [rewrite !bool_decide_true by done|rewrite !bool_decide_false by done];
      cbn [Z.eqb negb]; [by rewrite IH|]. specialize (Hc name attrs s).
    destruct (cb name attrs s) as [r s'] eqn:Ecb. cbn [fst] in Hc. subst r. cbn [Z.eqb negb fold_left fst snd].
    rewrite Ecb, IH by done. done.
  - rewrite Sp. cbn [map List.filter]. destruct (split_entry l) as [name attrs]. cbn [fst].
    destruct (decide (name = [])) as [Hn|Hn]; [rewrite !bool_decide_true by done|rewrite !bool_decide_false by done];
      cbn [Z.eqb negb]; [done|]. specialize (Hc name attrs s).
    destruct (cb name attrs s) as [r s'] eqn:Ecb. cbn [fst] in Hc. subst r. cbn [Z.eqb negb fold_left fst snd].
    by rewrite Ecb.
Qed.

(** ** The blanket updates *)

(** What the entries of a list do to the variables they name, in order. *)
Definition assigned (set : option str -> env_entry -> env_entry) (entries : list (str * option str)) (m : emap) : emap :=
  fold_left (fun m e => alter (set (snd e)) (fst e) m) entries m.

Section Assign.
Context (set : option str -> env_entry -> env_entry)
  (put : str -> option str -> option hsearch_data -> Z * option hsearch_data).
Context (set_keeps : forall v e, e_key (set v e) = e_key e /\ e_data (set v e) = e_data e).
Context (put_sim : forall name value htab m, esim htab m ->
  exists htab', put name value (Some htab) = (0, Some htab') /\ esim htab' (alter (set value) name m) /\
    stays htab htab').
Context (put_zero : forall name value s, fst (put name value s) = 0).

Lemma put_fold entries htab m : esim htab m ->
  exists htab', fold_left (fun s e => snd (put (fst e) (snd e) s)) entries (Some htab) = Some htab' /\
    esim htab' (assigned set entries m) /\ stays htab htab'.
Proof using put_sim.
  revert htab m. induction entries as [|[n v] entries IH]; intros htab m S.
  - exists htab. split; [done|]. split; [done|apply stays_refl].
  - cbn [fold_left fst snd]. destruct (put_sim n v htab m S) as (h1 & -> & S1 & T1). cbn [snd].
    destruct (IH h1 _ S1) as (h2 & -> & S2 & T2). exists h2. split; [done|]. split; [done|].
    by apply (stays_trans _ h1).
Qed.

Lemma put_walk cfg l htab m : (forall n, c_malloc cfg n = true) -> esim htab m ->
  exists htab', env_attr_walk cfg (Some l) put (Some htab) = Some (0, Some htab') /\
    esim htab' (assigned set (attr_entries l) m) /\ stays htab htab'.
Proof using put_sim put_zero.
  intros Hm S. cbn [env_attr_walk]. rewrite walk_fold by (done || lia).
  destruct (put_fold (attr_entries l) htab m S) as (h & -> & S' & T). eauto.
Qed.

(** Clear all entries, then the static list, then the dynamic one. *)
Lemma blanket_sim cfg (clear : env_entry -> env_entry) static value htab m :
  (forall n, c_malloc cfg n = true) -> esim htab m ->
  (forall e, e_key (clear e) = e_key e /\ e_data (clear e) = e_data e) ->
  exists htab',
    match env_attr_walk cfg (Some static) put (Some (walk_update clear htab)) with
    | None => None
    | Some (_, htab) =>
        match env_attr_walk cfg value put htab with
        | None => None
        | Some (_, htab) => htab
        end
    end = Some htab' /\
    esim htab' (assigned set (attr_entries static ++ match value with Some v => attr_entries v | None => [] end)
                  (clear <$> m)) /\
    stays htab htab'.
Proof using put_sim put_zero.
  intros Hm S Hc. pose proof (walk_update_esim clear htab m S Hc) as S0.
  pose proof (walk_update_stays clear htab (es_inv _ _ S) (fun e => proj1 (Hc e))) as T0.
  destruct (put_walk cfg static _ _ Hm S0) as (h1 & -> & S1 & T1).
  unfold assigned. rewrite fold_left_app. destruct value as [v|].
  - destruct (put_walk cfg v _ _ Hm S1) as (h2 & -> & S2 & T2). exists h2. split; [done|]. split; [exact S2|].
    by apply (stays_trans _ _ _ T0), (stays_trans _ _ _ T1).
  - exists h1. split; [done|]. split; [exact S1|]. by apply (stays_trans _ _ _ T0).
Qed.

Lemma assigned_data entries m : data_of <$> assigned set entries m = data_of <$> m.
Proof using set_keeps.
  revert m. induction entries as [|[n v] entries IH]; intros m; [done|]. cbn [assigned fold_left fst snd].
  change (fold_left _ entries ?x) with (assigned set entries x). rewrite IH. apply map_eq. intros k.
  rewrite !lookup_fmap. destruct (decide (n = k)) as [->|N]; [|by rewrite lookup_alter_ne].
  rewrite lookup_alter_eq. destruct (m !! k) as [e|]; [|done]. cbn [fmap option_fmap option_map]. f_equal.
  unfold data_of. by rewrite (proj2 (set_keeps v e)).
Qed.
End Assign.

(** An entry found by name is changed in place. *)
Lemma found_sim (f : env_entry -> env_entry) name htab m : esim htab m ->
  (forall e, e_key (f e) = e_key e /\ e_data (f e) = e_data e) ->
  match hsearch_r find_only name None ENV_FIND htab 0 with
  | None => False
  | Some r =>
      match s_retval r with
      | None => alter f name m = m
      | Some idx =>
          let htab' := set_node htab idx (mk_node (used (node_at htab idx)) (f (entry (node_at htab idx)))) in
          esim htab' (alter f name m) /\ stays htab htab'
      end
  end.
Proof.
  intros S Hf. pose proof (find_sim find_only htab m name None 0 S) as F. destruct (m !! name) as [e|] eqn:E.
  - destruct F as (idx & H & ->). cbn [s_retval]. pose proof H as (_ & _ & Ee & Ek).
    destruct (holds_occ _ _ _ _ (es_inv _ _ S) H) as [_ Ed]. rewrite (alter_present f m name e E), Ee.
    split.
    + apply (esim_replace htab m idx name e (f e) S H); [by rewrite (proj1 (Hf e))|]. by rewrite (proj2 (Hf e)), Ed.
    + apply (replace_stays htab idx name e); [apply S|done|]. by rewrite (proj1 (Hf e)).
  - rewrite F. cbn [s_retval]. apply map_eq. intros k. destruct (decide (name = k)) as [->|N].
    + by rewrite lookup_alter_eq, E.
    + by rewrite lookup_alter_ne.
Qed.

(** *** Flags *)

(** The binary flags an entry of the list asks for. *)
Definition entry_bin (cfg : config) (value : option str) : Z :=
  match value with None | Some [] => 0 | Some v => env_parse_flags_to_bin cfg v end.
Definition give_flags (cfg : config) (value : option str) (e : env_entry) : env_entry :=
  set_flags_of e (entry_bin cfg value).

Lemma set_flags_sim cfg name value htab m : esim htab m ->
  exists htab', set_flags cfg name value (Some htab) = (0, Some htab') /\
    esim htab' (alter (give_flags cfg value) name m) /\ stays htab htab'.
Proof.
  intros S. cbn [set_flags]. pose proof (found_sim (give_flags cfg value) name htab m S) as F.
  destruct (hsearch_r find_only name None ENV_FIND htab 0) as [r|]; [|by destruct F].
  destruct (s_retval r) as [idx|].
  - destruct F as [S' T']; [done|]. by eexists.
  - exists htab. rewrite F by done. split; [done|]. split; [done|apply stays_refl].
Qed.

Lemma set_flags_zero cfg name value s : fst (set_flags cfg name value s) = 0.
Proof. destruct s; cbn [set_flags]; repeat case_match; done. Qed.

(** What a new value of ".flags" does to all variables. *)
Definition flags_assigned (cfg : config) (value : option str) (m : emap) : emap :=
  assigned (give_flags cfg)
    (attr_entries (flags_static cfg) ++ match value with Some v => attr_entries v | None => [] end)
    (clear_flags <$> m).

Lemma on_flags_sim cfg value htab m : (forall n, c_malloc cfg n = true) -> esim htab m ->
  exists htab', on_flags cfg value htab = Some htab' /\ esim htab' (flags_assigned cfg value m) /\ stays htab htab'.
Proof.
  intros Hm S. apply (blanket_sim (give_flags cfg) (set_flags cfg)); try done;
    [by apply set_flags_sim|apply set_flags_zero].
Qed.

(** *** Callbacks *)
Definition give_callback (cfg : config) (value : option str) (e : env_entry) : env_entry :=
  match value with
  | None | Some [] => set_callback_of e None
  | Some v => match find_env_callback cfg (Some v) with Some cb => set_callback_of e (Some cb) | None => e end
  end.

Lemma give_callback_keeps cfg value e :
  e_key (give_callback cfg value e) = e_key e /\ e_data (give_callback cfg value e) = e_data e.
Proof. unfold give_callback. repeat case_match; done. Qed.

Lemma alter_same (m : emap) name : alter (fun e => e) name m = m.
Proof.
  apply map_eq. intros k. destruct (decide (name = k)) as [->|N]; [|by rewrite lookup_alter_ne].
  rewrite lookup_alter_eq. by destruct (m !! k).
Qed.

Lemma set_callback_sim cfg name value htab m : esim htab m ->
  exists htab', set_callback cfg name value (Some htab) = (0, Some htab') /\
    esim htab' (alter (give_callback cfg value) name m) /\ stays htab htab'.
Proof.
  intros S. cbn [set_callback].
  pose proof (found_sim (give_callback cfg value) name htab m S (give_callback_keeps cfg value)) as F.
  destruct (hsearch_r find_only name None ENV_FIND htab 0) as [r|]; [|by destruct F].
  destruct (s_retval r) as [idx|].
  - unfold give_callback in *. destruct value as [[|c v]|]; [by eexists| |by eexists].
    revert F. destruct (find_env_callback cfg _) as [cb|]; intros F;
      [destruct F as [S' T']; eexists; split; [reflexivity|]; split; [exact S'|exact T']|]. exists htab. split; [done|].
    rewrite (alter_same m name). split; [done|apply stays_refl].
  - exists htab. rewrite F. split; [done|]. split; [done|apply stays_refl].
Qed.

Lemma set_callback_zero cfg name value s : fst (set_callback cfg name value s) = 0.
Proof. destruct s; cbn [set_callback]; repeat case_match; done. Qed.

Definition callbacks_assigned (cfg : config) (value : option str) (m : emap) : emap :=
  assigned (give_callback cfg)
    (attr_entries (callbacks_static cfg) ++ match value with Some v => attr_entries v | None => [] end)
    (clear_callback <$> m).

Lemma on_callbacks_sim cfg value htab m : (forall n, c_malloc cfg n = true) -> esim htab m ->
  exists htab', on_callbacks cfg value htab = Some htab' /\ esim htab' (callbacks_assigned cfg value m) /\
    stays htab htab'.
Proof.
  intros Hm S. apply (blanket_sim (give_callback cfg) (set_callback cfg)); try done;
    [by apply set_callback_sim|apply set_callback_zero].
Qed.

(** *** The last entry counts *)
Definition flags_given (cfg : config) (entries : list (str * option str)) (k : str) (start : Z) : Z :=
  fold_left (fun acc e => if bool_decide (fst e = k) then entry_bin cfg (snd e) else acc) entries start.

Lemma assigned_flags cfg entries m k :
  assigned (give_flags cfg) entries m !! k =
    (fun e => set_flags_of e (flags_given cfg entries k (e_flags e))) <$> m !! k.
Proof.
  revert m. induction entries as [|[n v] entries IH]; intros m.
  - cbn. by destruct (m !! k) as [[]|].
  - cbn [assigned fold_left fst snd]. change (fold_left _ entries ?x) with (assigned (give_flags cfg) entries x).
    rewrite IH. unfold flags_given. cbn [fold_left fst snd]. case_bool_decide as N.
    + subst n. rewrite lookup_alter_eq. by destruct (m !! k).
    + by rewrite lookup_alter_ne.
Qed.

(** Changing ".flags" reassigns all flags.  [on_flags] ends and keeps every
    variable with its value and callback; its flags become the ones the last
    entry with its name asks for in the static list followed by the new value,
    or none. *)
Theorem on_flags_reassigns (cfg : config) (value : option str) (htab : hsearch_data) (m : emap) :
  (forall n, c_malloc cfg n = true) -> esim htab m ->
  exists htab' m', on_flags cfg value htab = Some htab' /\ esim htab' m' /\
    forall k, m' !! k =
      (fun e => set_flags_of e (flags_given cfg (attr_entries (flags_static cfg) ++
                                  match value with Some v => attr_entries v | None => [] end) k 0)) <$> m !! k.
Proof.
  intros Hm S. destruct (on_flags_sim cfg value htab m Hm S) as (h & E & S' & _). eexists _, _.
  split; [exact E|]. split; [exact S'|]. intros k. unfold flags_assigned. rewrite assigned_flags, lookup_fmap.
  by destruct (m !! k).
Qed.

(** ** What the callbacks of the environment do *)
Definition env_effects (cfg : config) (run : Z -> str -> option str -> env_op -> Z -> Z) : effects :=
  fun cb k v op f m =>
    if cb =? ON_FLAGS then (0, flags_assigned cfg v m)
    else if cb =? ON_CALLBACKS then (0, callbacks_assigned cfg v m)
    else (run cb k v op f, m).

#[export] Instance env_effects_relabel cfg run : Relabels (env_effects cfg run).
Proof.
  split; intros; unfold env_effects; destruct (cb =? ON_FLAGS); try destruct (cb =? ON_CALLBACKS);
    cbn [fst snd]; try done; unfold flags_assigned, callbacks_assigned;
    (rewrite assigned_data; [|intros; apply give_callback_keeps || done]);
    rewrite <- map_fmap_compose; by apply map_fmap_ext.
Qed.

Section Access.
Context (cfg : config) (flags_list callback_list : option str) (env_get_default : str -> option str)
  (run : Z -> str -> option str -> env_op -> Z -> Z).
Local Abbreviation hk := (env_hooks cfg flags_list callback_list env_get_default run).
Local Abbreviation eff := (env_effects cfg run).

Lemma env_hooks_sane : (forall n, c_malloc cfg n = true) -> Sane hk eff.
Proof using Type.
  intros Hm. split.
  - intros s. apply Hm.
  - intros e. cbn [Hashtable.env_flags_init Hashtable.env_callback_init env_hooks].
    by rewrite (proj1 (flags_init_keeps _ _ _ _)), (proj1 (callback_init_keeps _ _ _ _)).
  - intros e. cbn [Hashtable.env_flags_init Hashtable.env_callback_init env_hooks].
    by rewrite (proj2 (flags_init_keeps _ _ _ _)), (proj2 (callback_init_keeps _ _ _ _)).
  - intros. reflexivity.
  - intros cb k v op f htab m S. cbn [run_callback env_hooks]. unfold run_env_callback, env_effects.
    destruct (cb =? ON_FLAGS); [|destruct (cb =? ON_CALLBACKS)]; cbn [fst snd].
    + destruct (on_flags_sim cfg v htab m Hm S) as (h & -> & S' & T). cbn [mbind option_bind]. eauto.
    + destruct (on_callbacks_sim cfg v htab m Hm S) as (h & -> & S' & T). cbn [mbind option_bind]. eauto.
    + exists htab. split; [done|]. split; [done|apply stays_refl].
Qed.

(** ** Commands *)
Inductive ecmd :=
  | COp (op : aop)
  | CImport (env : list Z) (sep flag : Z) (crlf_is_lf : bool) (vars : list str).

Context (append : bool) (min_entries max_entries : Z) (fuel : nat).

Definition cmd_step (htab : hsearch_data) (c : ecmd) : option hsearch_data :=
  match c with
  | COp op => snd <$> cstep hk htab op
  | CImport env sep flag crlf vars =>
      snd <$> himport_r hk fuel true append min_entries max_entries htab env sep flag crlf vars
  end.

Fixpoint cmd_run (htab : hsearch_data) (cs : list ecmd) : option hsearch_data :=
  match cs with
  | [] => Some htab
  | c :: cs => match cmd_step htab c with Some htab => cmd_run htab cs | None => None end
  end.

(** The import does not start from an empty table. *)
Definition keeps_table (c : ecmd) : Prop :=
  match c with
  | COp _ => True
  | CImport _ _ flag _ vars => append = true \/ Z.land flag H_NOCLEAR <> 0 \/ vars <> []
  end.

(** The flags the changes of a command carry satisfy [Q]. *)
Definition cmd_flags (Q : Z -> Prop) (c : ecmd) : Prop :=
  match c with
  | COp (AFind _) => True
  | COp (AEnter _ _ f) | COp (ADelete _ f) => Q f
  | CImport _ _ flag _ _ => Q (if append then Z.lor flag H_NOCLEAR else flag)
  end.

(** What every single change keeps, every run of commands keeps. *)
Lemma cmds_keep (P : emap -> Prop) (Q : Z -> Prop) htab m cs : (forall n, c_malloc cfg n = true) ->
  (forall cap m op flag, P m -> Q flag -> with_flag flag op -> P (snd (astep hk eff cap m op))) ->
  Q 0 -> esim htab m -> P m -> Forall keeps_table cs -> Forall (cmd_flags Q) cs ->
  exists htab' m', cmd_run htab cs = Some htab' /\ esim htab' m' /\ P m'.
Proof using Type.
  intros Hm Step Q0 S HP Hk Hq. pose proof (env_hooks_sane Hm) as Sn.
  revert htab m S HP. induction cs as [|c cs IH]; intros htab m S HP; [by exists htab, m|].
  apply Forall_cons in Hk as [Hk1 Hk], Hq as [Hq1 Hq]. cbn [cmd_run].
  assert (exists h m1, cmd_step htab c = Some h /\ esim h m1 /\ P m1) as (h & m1 & -> & S1 & P1); [|by eapply IH].
  destruct c as [op|env sep flag crlf vars]; cbn [cmd_step keeps_table cmd_flags] in *.
  - destruct (cstep_sim hk eff htab m op S) as (h & -> & S1 & _). exists h, (snd (astep hk eff (size htab) m op)).
    split; [done|]. split; [done|]. destruct op as [k|k d f|k f].
    + by apply (Step _ _ _ 0).
    + by apply (Step _ _ _ f).
    + by apply (Step _ _ _ f).
  - destruct (himport_reaches hk eff fuel append min_entries max_entries htab m env sep flag crlf vars Sn S Hk1)
      as (ret & h & -> & ops & F & S1 & _). exists h, (snd (arun hk eff (size htab) m ops)).
    split; [done|]. split; [done|]. clear S S1. revert m HP. induction F as [|op ops Fo F IHo]; intros m HP; [done|].
    change (op :: ops) with ([op] ++ ops). rewrite arun_app, arun_one. apply IHo. by eapply Step.
Qed.

(** ** Read-only variables *)
Definition readonly (e : env_entry) : Prop :=
  Z.land (e_flags e) PREVENT_DELETE <> 0 /\ Z.land (e_flags e) PREVENT_OVERWR <> 0.

(** Not forced, and not an import of the default environment where that is
    exempt. *)
Definition polite (flag : Z) : Prop :=
  (Z.land flag H_FORCE = 0 \/ c_ignore_force cfg = true) /\
  (Z.land flag H_DEFAULT = 0 \/ c_writeable cfg = false).

Lemma validate_readonly e v op flag : readonly e -> polite flag -> op <> env_op_create ->
  env_flags_validate cfg env_get_default e v op flag <> 0.
Proof using Type.
  intros [Rd Ro] [Pf Pd] Hop. unfold env_flags_validate. cbv zeta. destruct (match op with env_op_delete => false | _ => _ end); [done|].
  assert (c_writeable cfg && negb (Z.land flag H_DEFAULT =? 0) = false) as ->.
  { destruct Pd as [-> | ->]; [apply andb_false_r|done]. }
  destruct (_ && _ && _); [done|].
  assert (negb (Z.land flag H_FORCE =? 0) && negb (c_ignore_force cfg) = false) as ->.
  { destruct Pf as [-> | ->]; [done|apply andb_false_r]. }
  apply Z.eqb_neq in Rd, Ro. destruct op; [done|by rewrite Rd|by rewrite Ro].
Qed.

Lemma readonly_denied e v op flag : readonly e -> polite flag -> op <> env_op_create ->
  change_ok hk e v op flag = true.
Proof using Type.
  intros R P O. cbn [change_ok env_hooks]. apply negb_true_iff, Z.eqb_neq. by apply validate_readonly.
Qed.

Lemma allowed e v op flag : change_ok hk e v op flag = false ->
  env_flags_validate cfg env_get_default e v op flag = 0.
Proof using Type. cbn [change_ok env_hooks]. intros H. by apply negb_false_iff, Z.eqb_eq in H. Qed.

(** A callback that rewrites other variables. *)
Definition rewrites (cb : option Z) : bool :=
  match cb with Some c => (c =? ON_FLAGS) || (c =? ON_CALLBACKS) | None => false end.

(** The variables bound to such a callback, by their entry or by the lists, are
    in the table and read-only. *)
Record locked (m : emap) : Prop := {
  lk_entries : map_Forall (fun _ e => rewrites (e_callback e) = true -> readonly e) m;
  lk_names : forall k d, rewrites (e_callback (new_entry hk k d)) = true -> exists e, m !! k = Some e /\ readonly e
}.

Lemma quiet_callback e k v op flag m : rewrites (e_callback e) = false -> snd (callback eff e k v op flag m) = m.
Proof using Type.
  unfold rewrites, callback, env_effects. destruct (e_callback e) as [c|]; [|done].
  intros [-> ->]%orb_false_iff. done.
Qed.

(** What an unforced change does to a table whose rules are locked. *)
Inductive changed (m : emap) : emap -> Prop :=
  | changed_not : changed m m
  | changed_value k d e f : m !! k = Some e -> ~ readonly e ->
      env_flags_validate cfg env_get_default e (Some d) env_op_overwrite f = 0 ->
      changed m (<[k := set_data e d]> m)
  | changed_new k d f : m !! k = None -> rewrites (e_callback (new_entry hk k d)) = false ->
      env_flags_validate cfg env_get_default (new_entry hk k d) (Some d) env_op_create f = 0 ->
      changed m (<[k := new_entry hk k d]> m)
  | changed_gone k e : m !! k = Some e -> ~ readonly e -> changed m (delete k m).

Lemma polite_step cap m op flag : locked m -> polite flag -> with_flag flag op ->
  changed m (snd (astep hk eff cap m op)).
Proof using Type.
  intros [Le Ln] Pf Hf.
  assert (Not : forall k e v op, m !! k = Some e -> op <> env_op_create -> change_ok hk e v op flag = false ->
      ~ readonly e /\ rewrites (e_callback e) = false).
  { intros k e v o E Ho C. assert (~ readonly e) as N.
    { intros R. by rewrite (readonly_denied e v o flag R Pf Ho) in C. }
    split; [done|]. destruct (rewrites (e_callback e)) eqn:X; [|done]. by apply (Le k e) in X. }
  destruct op as [k|k d f|k f]; cbn [astep with_flag] in *; [constructor| |]; subst f; destruct (m !! k) as [e|] eqn:E.
  - destruct (change_ok hk e (Some d) env_op_overwrite flag) eqn:C; [constructor|].
    destruct (Not k e (Some d) env_op_overwrite E ltac:(done) C) as [N Q].
    pose proof (quiet_callback e k (Some d) env_op_overwrite flag m Q) as Qm.
    destruct (callback eff e k (Some d) env_op_overwrite flag m) as [ret m1]. cbn [snd] in Qm. subst m1.
    destruct (ret =? 0); cbn [snd]; [|constructor]. rewrite (alter_present _ m k e E).
    apply (changed_value m k d e flag); [done|done|by apply allowed].
  - destruct (_ =? cap); [constructor|].
    destruct (change_ok hk (new_entry hk k d) (Some d) env_op_create flag) eqn:C; [constructor|].
    assert (Q : rewrites (e_callback (new_entry hk k d)) = false).
    { destruct (rewrites (e_callback (new_entry hk k d))) eqn:X; [|done]. destruct (Ln k d X) as (e & E' & _). congruence. }
    pose proof (quiet_callback (new_entry hk k d) k (Some d) env_op_create flag (<[k := new_entry hk k d]> m) Q) as Qm.
    destruct (callback eff _ k (Some d) env_op_create flag _) as [ret m1]. cbn [snd] in Qm. subst m1.
    destruct (ret =? 0); cbn [snd].
    + apply (changed_new m k d flag); [done|done|by apply allowed].
    + rewrite delete_insert_id by done. constructor.
  - destruct (change_ok hk e None env_op_delete flag) eqn:C; [constructor|].
    destruct (Not k e None env_op_delete E ltac:(done) C) as [N Q].
    pose proof (quiet_callback e k None env_op_delete flag m Q) as Qm.
    destruct (callback eff e k None env_op_delete flag m) as [ret m1]. cbn [snd] in Qm. subst m1.
    destruct (ret =? 0); cbn [snd]; [|constructor]. by apply (changed_gone m k e).
  - constructor.
Qed.

Lemma changed_keeps m m' k e : changed m m' -> m !! k = Some e -> readonly e -> m' !! k = Some e.
Proof using Type.
  intros [|k' d e' f E N V|k' d f E Q V|k' e' E N] Hk R; [done|..].
  - rewrite lookup_insert_ne; [done|]. intros ->. congruence.
  - rewrite lookup_insert_ne; [done|]. intros ->. congruence.
  - rewrite lookup_delete_ne; [done|]. intros ->. congruence.
Qed.

Lemma changed_locked m m' : changed m m' -> locked m -> locked m'.
Proof using Type.
  intros C [Le Ln]. split.
  - destruct C as [|k d e f E N V|k d f E Q V|k e E N]; [done|..].
    + apply map_Forall_insert_2; [|done]. cbn [set_data e_callback]. intros X. by apply (Le k e) in X.
    + apply map_Forall_insert_2; [|done]. by rewrite Q.
    + by apply map_Forall_delete.
  - intros k d X. destruct (Ln k d X) as (e & E & R). exists e. split; [|done]. by apply (changed_keeps m).
Qed.


(** ** Typed variables *)
Definition well_typed (e : env_entry) : Prop :=
  _env_flags_validate_type cfg (data_of e) (Z.land VARTYPE_BIN_MASK (e_flags e)) = 0.

Lemma validated_type e d op flag : op <> env_op_delete ->
  env_flags_validate cfg env_get_default e (Some d) op flag = 0 ->
  _env_flags_validate_type cfg d (Z.land VARTYPE_BIN_MASK (e_flags e)) = 0.
Proof using Type.
  intros Hop V. unfold env_flags_validate in V. cbv zeta in V. change (default [] (Some d)) with d in V.
  pose proof (validate_type_range cfg d (Z.land VARTYPE_BIN_MASK (e_flags e))) as R.
  destruct op; [|done|]; (destruct (Z.ltb_spec (_env_flags_validate_type cfg d (Z.land VARTYPE_BIN_MASK (e_flags e))) 0);
    [discriminate V|lia]).
Qed.

Lemma changed_typed m m' : (forall n, c_malloc cfg n = true) -> changed m m' ->
  map_Forall (fun _ e => well_typed e) m -> map_Forall (fun _ e => well_typed e) m'.
Proof using Type.
  intros Hm [|k d e f E N V|k d f E Q V|k e E N] Ty; [done|..].
  - apply map_Forall_insert_2; [|done]. unfold well_typed. cbn [set_data data_of e_data e_flags default from_option].
    by apply (validated_type e d env_op_overwrite f).
  - apply map_Forall_insert_2; [|done]. unfold well_typed.
    assert (data_of (new_entry hk k d) = d) as ->.
    { unfold data_of, new_entry. by rewrite (sn_data (Sane := env_hooks_sane Hm)). }
    by apply (validated_type _ d env_op_create f).
  - by apply map_Forall_delete.
Qed.


End Access.
(** ** A concrete environment: serial# is write-once, ip is an address *)
Definition no_answer (_ : Z) (_ : str) (_ : option str) (_ : env_op) (_ : Z) : Z := 0.
Definition both_callbacks : list (str * Z) := [(lit "flags", ON_FLAGS); (lit "callbacks", ON_CALLBACKS)].
Definition both_static : str := lit ".callbacks:callbacks,.flags:flags".

Definition cfg0 : config :=
  mk_config true false false None (fun _ => true) (lit "serial#:so,ip:i") both_static both_callbacks.
Definition env_hk0 : hooks := env_hooks cfg0 None None (fun _ => None) no_answer.

Lemma env_hk0_sane : Sane env_hk0 (env_effects cfg0 no_answer).
Proof. by apply env_hooks_sane. Qed.

(** Without a lock, setting ".flags" takes the protection of serial#: the next
    unforced change goes through. *)
Lemma flags_strip_protection :
  fst <$> crun env_hk0 htab7
    [AEnter (lit "serial#") (lit "42") 0; AEnter (lit "serial#") (lit "43") 0;
     AEnter (lit ".flags") (lit "serial#:sa") 0; AEnter (lit "serial#") (lit "43") 0; AFind (lit "serial#")] =
  Some [OErr 0; OErr EPERM; OErr 0; OErr 0;
        OFound (Some (mk_entry (Some (lit "serial#")) (Some (lit "43")) None 0))].
Proof. vm_compute. reflexivity. Qed.

(** [on_flags] gives a variable a type that its value does not have. *)
Lemma flags_type_unchecked :
  fst <$> crun env_hk0 htab7
    [AEnter (lit "foo") (lit "bar") 0; AEnter (lit ".flags") (lit "foo:d") 0; AFind (lit "foo")] =
  Some [OErr 0; OErr 0; OFound (Some (mk_entry (Some (lit "foo")) (Some (lit "bar")) None vartype_decimal))] /\
  _env_flags_validate_type cfg0 (lit "bar") vartype_decimal = -1.
Proof. vm_compute. split; reflexivity. Qed.

(** A locked one: ".flags" and ".callbacks" are set and write-once.  The only
    regular expressions are names between the anchors. *)
Definition exact_match (re : str) : option (str -> bool) :=
  Some (fun s => bool_decide ([94] ++ s ++ [36] = re)).
Definition cfg1 : config :=
  mk_config true false false (Some exact_match) (fun _ => true) (lit "serial#:so,ip:i,.flags:so,.callbacks:so")
    both_static both_callbacks.
Definition env_hk1 : hooks := env_hooks cfg1 None None (fun _ => None) no_answer.

Definition locked_map : emap :=
  <[ lit "serial#" := mk_entry (Some (lit "serial#")) (Some (lit "42")) None 40 ]>
  (<[ lit ".flags" := mk_entry (Some (lit ".flags")) (Some (lit "a:d")) (Some ON_FLAGS) 40 ]>
  (<[ lit ".callbacks" := mk_entry (Some (lit ".callbacks")) (Some (lit "a:b")) (Some ON_CALLBACKS) 40 ]> ∅)).
Definition locking : list aop :=
  [AEnter (lit ".callbacks") (lit "a:b") 0; AEnter (lit ".flags") (lit "a:d") 0; AEnter (lit "serial#") (lit "42") 0].
Definition locked_htab : hsearch_data :=
  match crun env_hk1 htab7 locking with Some (_, h) => h | None => htab7 end.

Lemma env_hk1_sane : Sane env_hk1 (env_effects cfg1 no_answer).
Proof. by apply env_hooks_sane. Qed.

Lemma run_esim ops h m os h' : esim h m -> crun env_hk1 h ops = Some (os, h') ->
  esim h' (snd (arun env_hk1 (env_effects cfg1 no_answer) (size h) m ops)).
Proof.
  pose proof env_hk1_sane. revert h m os. induction ops as [|op ops IH]; intros h m os S; cbn [crun arun].
  - intros E. by injection E as _ <-.
  - destruct (cstep_sim env_hk1 (env_effects cfg1 no_answer) h m op S) as (h1 & -> & S1 & Z1).
    destruct (astep env_hk1 _ (size h) m op) as [o m1]. cbn [fst snd] in *.
    destruct (crun env_hk1 h1 ops) as [[os1 h2]|] eqn:E; [|done]. intros X. injection X as _ <-.
    specialize (IH h1 m1 os1 S1 E). rewrite Z1 in IH. by destruct (arun env_hk1 _ (size h) m1 ops).
Qed.

Lemma locked_esim : esim locked_htab locked_map.
Proof.
  unfold locked_htab. destruct (crun env_hk1 htab7 locking) as [[os h]|] eqn:E; [|vm_compute in E; discriminate].
  pose proof (run_esim locking htab7 ∅ os h htab7_esim E) as S.
  assert (X : snd (arun env_hk1 (env_effects cfg1 no_answer) (size htab7) ∅ locking) = locked_map)
    by (vm_compute; reflexivity).
  by rewrite X in S.
Qed.

(** The static list binds two names. *)
Lemma bound_names k : k <> lit ".callbacks" -> k <> lit ".flags" ->
  env_attr_lookup cfg1 (Some both_static) k = Some (inl (- ENOENT)).
Proof.
  intros N1 N2.
  assert (M : forall name, k <> name -> bool_decide ([94] ++ k ++ [36] = [94] ++ name ++ [36]) = false).
  { intros name N. apply bool_decide_eq_false_2. intros [= X]. by apply app_inj_tail in X as [X _]. }
  unfold env_attr_lookup, env_attr_lookup_regex. cbn [c_regex cfg1]. unfold env_attr_walk.
  set (cb := regex_callback _ _ _).
  assert (C1 : cb (lit ".callbacks") (Some (lit "callbacks")) (None, None) = (0, (None, None))).
  { unfold cb, regex_callback, exact_match. by rewrite M. }
  assert (C2 : cb (lit ".flags") (Some (lit "flags")) (None, None) = (0, (None, None))).
  { unfold cb, regex_callback, exact_match. by rewrite M. }
  clearbody cb.
  assert (W : walk_loop (S (length both_static)) (c_malloc cfg1) cb both_static (None, None) =
    (let '(r, p) := cb (lit ".callbacks") (Some (lit "callbacks")) (None, None) in
     if negb (r =? 0) then Some (r, p)
     else let '(r, p) := cb (lit ".flags") (Some (lit "flags")) p in
          if negb (r =? 0) then Some (r, p) else Some (0, p))) by reflexivity.
  rewrite W, C1, C2. reflexivity.
Qed.

Lemma locked_locked : locked cfg1 None None (fun _ => None) no_answer locked_map.
Proof.
  split.
  - repeat (apply map_Forall_insert_2; [intros _; by split|]). apply map_Forall_empty.
  - intros k d X. destruct (decide (k = lit ".callbacks")) as [->|N1]; [by eexists; split; [vm_compute; reflexivity|]|].
    destruct (decide (k = lit ".flags")) as [->|N2]; [by eexists; split; [vm_compute; reflexivity|]|]. exfalso.
    assert (F : forall st var e, e_callback (fst (EnvAttr.env_flags_init cfg1 st var e)) = e_callback e).
    { intros st var e. unfold EnvAttr.env_flags_init. destruct (env_flags_lookup _ _ _) as [[err|flags]|]; [done| |done].
      by destruct (bool_decide _). }
    unfold new_entry in X. cbn [Hashtable.env_flags_init Hashtable.env_callback_init env_hooks] in X. rewrite F in X.
    unfold EnvAttr.env_callback_init in X. cbn [first_call the_list key_of e_key default from_option] in X.
    change (callbacks_static cfg1) with both_static in X. unfold id in X.
    by rewrite bound_names in X.
Qed.

Definition some_cmds : list ecmd :=
  [COp (AEnter (lit "serial#") (lit "43") 0); CImport (lit "serial#=44" ++ [10] ++ lit "ip=1.2.3.4") 10 H_NOCLEAR false [];
   COp (AEnter (lit ".flags") (lit "serial#:sa") 0); COp (AEnter (lit "ip") (lit "1.2.3") 0);
   COp (ADelete (lit "serial#") 0)].

Lemma some_cmds_ok : Forall (keeps_table false) some_cmds /\ Forall (cmd_flags false (polite cfg1)) some_cmds.
Proof.
  split; repeat (apply Forall_cons; split; [first [by right; left|done|split; by left]|]); constructor.
Qed.



Lemma on_flags_reassigns_witness :
  exists htab' m', on_flags cfg1 (Some (lit "serial#:sr, other:d")) locked_htab = Some htab' /\ esim htab' m' /\
    forall k, m' !! k =
      (fun e => set_flags_of e (flags_given cfg1 (attr_entries (flags_static cfg1) ++
                                  attr_entries (lit "serial#:sr, other:d")) k 0)) <$> locked_map !! k.
Proof.
  apply (on_flags_reassigns cfg1 (Some (lit "serial#:sr, other:d")) locked_htab locked_map).
  - done.
  - exact locked_esim.
Defined.

End EnvAccess.
