(* ===== verification/EnvStore.v ===== *)
(** * The environment: setting, saving and loading (env/common.c)

    The global environment table with its state in the global data, the
    commands that change it, and its stored form with a CRC and, for the
    redundant storage, a serial number.  The storage drivers are not part of
    it: they pass buffers in and take them out.  Saving and loading work with
    hooks of the classes [Sane] and [Relabels], as the real ones are while memory
    can be allocated ([env_hooks_sane], [env_effects_relabel] in EnvAccess.v). *)

From stdpp Require Import gmap.
From Stdlib Require Import Znumtheory.
From S2P Require Import Prelude.
From S2P Require Import Crc.
From S2P Require Import Sort.
From S2P Require Import Hashtable.
From S2P Require Import HashAcl.
From S2P Require Import HashEnv.
From S2P Require Import EnvAttr.
From S2P Require Import EnvAccess.

Module EnvStore.
Import Crc Hashtable HashAcl HashEnv EnvAttr.

Definition H_PROGRAMMATIC : Z := 512.
Definition ENV_INVALID : Z := 0.
Definition ENV_VALID : Z := 1.
Definition ENV_REDUND : Z := 2.
Definition CMD_RET_USAGE : Z := -1.

(** The stored environment; [env_flags_of]: with CONFIG_SYS_REDUNDAND_ENVIRONMENT. *)
Record env_t := mk_env {
  env_crc : Z;
  env_flags_of : Z;
  env_data : list Z
}.

(** The state: the table, the global data and the static variables. *)
Record gd_t := mk_gd {
  env_htab : hsearch_data;
  env_valid : Z;
  flg_env_ready : bool;
  flg_env_default : bool;
  env_flags : Z;                (* unsigned char: the serial *)
  env_id : Z
}.

Definition set_htab (g : gd_t) (h : hsearch_data) : gd_t :=
  mk_gd h (env_valid g) (flg_env_ready g) (flg_env_default g) (env_flags g) (env_id g).
Definition set_valid (g : gd_t) (v : Z) : gd_t :=
  mk_gd (env_htab g) v (flg_env_ready g) (flg_env_default g) (env_flags g) (env_id g).
Definition set_ready (g : gd_t) (dflt : bool) : gd_t :=
  mk_gd (env_htab g) (env_valid g) true (flg_env_default g || dflt) (env_flags g) (env_id g).
Definition set_serial (g : gd_t) (s : Z) : gd_t :=
  mk_gd (env_htab g) (env_valid g) (flg_env_ready g) (flg_env_default g) s (env_id g).

Definition env_get_id (g : gd_t) : Z := env_id g.
Definition env_inc_id (g : gd_t) : gd_t :=
  mk_gd (env_htab g) (env_valid g) (flg_env_ready g) (flg_env_default g) (env_flags g) (s32 (env_id g + 1)).

(** ** The linear form, before relocation and for the defaults *)

(** The string at the start of the bytes. *)
Fixpoint cstr (l : list Z) : str :=
  match l with
  | c :: r => if c =? 0 then [] else c :: cstr r
  | [] => []
  end.

(** The length of the value and what is in [buf]. *)
Fixpoint linear_loop (fuel : nat) (env_size : Z) (name : str) (len : Z) (p : list Z) (ofs : Z)
    : option (Z * str) :=
  match fuel with
  | O => None
  | S f =>
      if at_hd p =? 0 then None
      else
        let e := cstr p in
        let e_len := Z.of_nat (length e) in
        if env_size <? ofs + e_len then None
        else if negb (bool_decide (take (length name) e = name)) || negb (nth (length name) e 0 =? EQUALS)
        then linear_loop f env_size name len (drop (S (length e)) p) (ofs + e_len + 1)
        else
          let value := drop (S (length name)) e in
          let res := Z.of_nat (length value) in
          Some (res, if len <=? res then take (Z.to_nat (len - 1)) value else value)
  end.

Definition env_get_from_linear (env_size : Z) (env : list Z) (name : str) (len : Z) : option (Z * str) :=
  match name with
  | [] => None
  | _ => linear_loop (S (length env)) env_size name len env 0
  end.

(** sizeof(gd->env_buf). *)
Definition ENV_BUF_SIZE : Z := 32.

Section Env.
(** [hk], [fuel], [malloc_ok], [append], [min_entries], [max_entries]: as for
    [himport_r]; [default_environment]: the built-in environment, [env_size]:
    CONFIG_ENV_SIZE, [ENV_SIZE]: of the data, [addr]: where the data is. *)
Context (hk : hooks) (fuel : nat) (malloc_ok append : bool) (min_entries max_entries : Z)
  (default_environment : list Z) (env_size ENV_SIZE addr : Z).

Definition env_get_default_into (name : str) (len : Z) : option (Z * str) :=
  env_get_from_linear env_size default_environment name len.

Definition env_get_default (name : str) : option str := snd <$> env_get_default_into name ENV_BUF_SIZE.

(** [env_addr]: the bytes at gd->env_addr. *)
Definition env_get_f (g : gd_t) (env_addr : list Z) (name : str) (len : Z) : option (Z * str) :=
  env_get_from_linear env_size (if env_valid g =? ENV_INVALID then default_environment else env_addr) name len.

(** ** Reading and setting; [None]: a search that does not end *)
Definition env_get (g : gd_t) (env_addr : list Z) (name : str) : option (option str) :=
  if flg_env_ready g then
    match hsearch_r hk name None ENV_FIND (env_htab g) 0 with
    | None => None
    | Some r => Some (match s_retval r with
                      | Some idx => e_data (entry (node_at (env_htab g) idx)) | None => None end)
    end
  else Some (snd <$> env_get_f g env_addr name ENV_BUF_SIZE).

Definition env_get_yesno (g : gd_t) (env_addr : list Z) (var : str) : option Z :=
  match env_get g env_addr var with
  | None => None
  | Some None => Some (-1)
  | Some (Some s) => Some (b2z (bool_decide (at_hd s ∈ lit "1yYtT")))
  end.

(** The options in front of the name: the flags and the arguments left, or
    the usage error. *)
Fixpoint option_chars (arg : str) (env_flag : Z) : option Z :=
  match arg with
  | [] => Some env_flag
  | c :: arg => if c =? 102 then option_chars arg (Z.lor env_flag H_FORCE) else None
  end.
Fixpoint set_options (args : list str) (env_flag : Z) : option (Z * list str) :=
  match args with
  | (45 :: arg) :: args =>
      match option_chars arg env_flag with
      | Some f => set_options args f
      | None => None
      end
  | _ => Some (env_flag, args)
  end.

(** The arguments joined by blanks. *)
Fixpoint join_args (args : list str) : str :=
  match args with
  | [] => []
  | [v] => v
  | v :: args => v ++ 32 :: join_args args
  end.

(** [args]: from argv[1] on; [malloc_ok] for the joined value.  No result when
    no name is left (a NULL pointer is used) or a search does not end. *)
Definition env_do_env_set (g : gd_t) (args : list str) (env_flag : Z) : option (Z * gd_t) :=
  match set_options args env_flag with
  | None => Some (CMD_RET_USAGE, g)
  | Some (_, []) => None
  | Some (env_flag, name :: values) =>
      match strchr name EQUALS with
      | Some _ => Some (1, g)
      | None =>
          let g := env_inc_id g in
          match values with
          | [] =>
              match hdelete_r hk name (env_htab g) env_flag with
              | None => None
              | Some (rc, h) =>
                  Some (if negb (rc =? 0) && negb (rc =? - ENOENT) then 1 else 0, set_htab g h)
              end
          | _ =>
              if negb malloc_ok then Some (1, g)
              else match hsearch_r hk name (Some (join_args values)) ENV_ENTER (env_htab g) env_flag with
                   | None => None
                   | Some r => Some (match s_retval r with Some _ => 0 | None => 1 end, set_htab g (s_htab r))
                   end
          end
      end
  end.

Definition env_set (g : gd_t) (varname : str) (varvalue : option str) : option (Z * gd_t) :=
  if negb (flg_env_ready g) then Some (1, g)
  else match varvalue with
       | None | Some [] => env_do_env_set g [varname] H_PROGRAMMATIC
       | Some v => env_do_env_set g [varname; v] H_PROGRAMMATIC
       end.

(** ** Defaults, import and export *)
Definition import (g : gd_t) (env : list Z) (flags : Z) (vars : list str) : option (Z * gd_t) :=
  match himport_r hk fuel malloc_ok append min_entries max_entries (env_htab g) env 0 flags false vars with
  | None => None
  | Some (ret, h) => Some (ret, set_htab g h)
  end.

Definition env_set_default (g : gd_t) (flags : Z) : option gd_t :=
  match import g default_environment (Z.lor flags H_DEFAULT) [] with
  | None => None
  | Some (ret, g) => Some (if ret =? 0 then g else set_ready g true)
  end.

Definition env_set_default_vars (g : gd_t) (vars : list str) (flags : Z) : option (Z * gd_t) :=
  let flags := if bool_decide (vars = []) then Z.lor flags H_NOCLEAR else flags in
  import g default_environment (Z.lor flags H_DEFAULT) vars.

Definition env_import (g : gd_t) (ep : env_t) (check : bool) (flags : Z) : option (Z * gd_t) :=
  if check && negb (crc32 addr 0 (env_data ep) =? env_crc ep) then
    match env_set_default g 0 with
    | None => None
    | Some g => Some (- ENOMSG, g)
    end
  else
    match import g (env_data ep) flags [] with
    | None => None
    | Some (ret, g) =>
        if negb (ret =? 0) then Some (0, set_ready g false)
        else match env_set_default g 0 with
             | None => None
             | Some g => Some (- EIO, g)
             end
    end.

(** [buf1_read_fail], [buf2_read_fail]: the copy could not be read. *)
Definition env_check_redund (g : gd_t) (buf1 : env_t) (buf1_read_fail : bool) (buf2 : env_t)
    (buf2_read_fail : bool) : Z * gd_t :=
  if buf1_read_fail && buf2_read_fail then (- EIO, g)
  else
    let crc1_ok := negb buf1_read_fail && (crc32 addr 0 (env_data buf1) =? env_crc buf1) in
    let crc2_ok := negb buf2_read_fail && (crc32 addr 0 (env_data buf2) =? env_crc buf2) in
    if negb crc1_ok && negb crc2_ok then (- ENOMSG, set_valid g ENV_INVALID)
    else
      (0, set_valid g
        (if crc1_ok && negb crc2_ok then ENV_VALID
         else if negb crc1_ok && crc2_ok then ENV_REDUND
         else if (env_flags_of buf1 =? 255) && (env_flags_of buf2 =? 0) then ENV_REDUND
         else if (env_flags_of buf2 =? 255) && (env_flags_of buf1 =? 0) then ENV_VALID
         else if env_flags_of buf2 <? env_flags_of buf1 then ENV_VALID
         else if env_flags_of buf1 <? env_flags_of buf2 then ENV_REDUND
         else ENV_VALID)).

Definition env_import_redund (g : gd_t) (buf1 : env_t) (buf1_read_fail : bool) (buf2 : env_t)
    (buf2_read_fail : bool) (flags : Z) : option (Z * gd_t) :=
  let '(ret, g) := env_check_redund g buf1 buf1_read_fail buf2 buf2_read_fail in
  if (ret =? - EIO) || (ret =? - ENOMSG) then
    match env_set_default g 0 with
    | None => None
    | Some g => Some (ret, g)
    end
  else
    let ep := if env_valid g =? ENV_VALID then buf1 else buf2 in
    env_import (set_serial g (env_flags_of ep)) ep false flags.

(** The buffer filled, or 1; [None]: the sort does not end.  [redund]: CONFIG_SYS_REDUNDAND_ENVIRONMENT. *)
Definition env_export (redund : bool) (regex : option (str -> option (str -> bool))) (g : gd_t)
    : option ((Z + env_t) * gd_t) :=
  match hexport_r hk regex (env_htab g) 0 0 true ENV_SIZE [] with
  | None => None
  | Some (inl _) => Some (inl 1, g)
  | Some (inr (len, out)) =>
      let data := exported_buffer len out in
      let g := if redund then set_serial g (u8 (env_flags g + 1)) else g in
      Some (inr (mk_env (crc32 addr 0 data) (env_flags g) data), g)
  end.
End Env.

(** ** Saving and loading *)
Lemma exported_fits n out : Z.of_nat (length (exported_buffer n out)) = n -> Z.of_nat (length out) <= n.
Proof. unfold exported_buffer. rewrite length_app. lia. Qed.

Section Store.
Context (hk : hooks) (eff : effects) `{!Sane hk eff, !Relabels eff} (Hc : forall n, calloc_ok hk n = true)
  (fuel : nat) (min_entries max_entries : Z) (default_environment : list Z) (ENV_SIZE addr : Z)
  (nent q : Z) (Hnent : nent = Z.min (min_entries + ENV_SIZE / 8) max_entries) (H4 : 4 <= nent)
  (Hq : prime q) (Hqn : Z.lor nent 1 <= q < 2 ^ 31) (Hfuel : q < nent + 2 * Z.of_nat fuel).

Local Abbreviation load := (env_import hk fuel true false min_entries max_entries default_environment addr).
Local Abbreviation load_redund :=
  (env_import_redund hk fuel true false min_entries max_entries default_environment addr).

(** Variables the stored form can carry, no more than the table takes. *)
Definition storable (m : gmap str str) : Prop :=
  map_Forall (fun k d => clean_key 0 k /\ clean_data d) m /\ Z.of_nat (base.size m) <= nent.

(** The variables a load with these flags may create: those that the access
    check and their callback accept. *)
Definition accepted (flags : Z) (m : gmap str str) : gmap str str :=
  filter (fun kd => creatable hk eff flags kd.1 kd.2 = true) m.

(** The data is the export of a table with these variables. *)
Definition stores (ep : env_t) (m : gmap str str) : Prop :=
  storable m /\ Z.of_nat (length (env_data ep)) = ENV_SIZE /\ env_crc ep = crc32 addr 0 (env_data ep) /\
  exists regex htab out, sim htab m /\ hexport_r hk regex htab 0 0 true ENV_SIZE [] = Some (inr (ENV_SIZE, out)) /\
    env_data ep = exported_buffer ENV_SIZE out.

Lemma export_stores redund regex g m ep g' : sim (env_htab g) m -> storable m -> ENV_SIZE <> 0 ->
  env_export hk ENV_SIZE addr redund regex g = Some (inr ep, g') -> Z.of_nat (length (env_data ep)) = ENV_SIZE ->
  stores ep m.
Proof.
  intros S St Hn. unfold env_export.
  destruct (hexport_r hk regex (env_htab g) 0 0 true ENV_SIZE []) as [[|[len out]]|] eqn:E; [done| |done].
  intros H L. injection H as <- _. cbn [env_data env_crc] in *.
  destruct (export_out _ _ _ _ _ _ _ _ _ _ E) as (_ & _ & _ & _ & Es). rewrite (Es Hn) in *.
  split; [done|]. split; [done|]. split; [done|]. by exists regex, (env_htab g), out.
Qed.

Lemma import_stored g ep m flags : stores ep m -> Z.land flags H_NOCLEAR = 0 ->
  exists g', import hk fuel true false min_entries max_entries g (env_data ep) flags [] = Some (1, g') /\
    sim (env_htab g') (accepted flags m) /\ env_flags g' = env_flags g.
Proof using All.
  intros ((Cl & Sz) & L & _ & regex & htab & out & S & E & D) Hf. unfold import. rewrite D in L |- *.
  destruct (reimport hk eff regex htab (env_htab g) m 0 0 flags true ENV_SIZE ENV_SIZE out fuel min_entries max_entries nent q)
    as (h & -> & Sh); try done.
  - by apply exported_fits.
  - by exists (set_htab g h).
Qed.

(** C27: saving and loading.  Loading what [env_export] wrote, from whatever
    state, passes the CRC check and gives exactly the saved variables whose
    creation the access check and the variable's callback accept, so all of
    them when none is refused; if their names and values fit the stored form,
    the text did not overrun the buffer, memory is there, the table made for
    the environment is large enough and callbacks change no values. *)
Theorem env_save_load (redund : bool) (regex : option (str -> option (str -> bool))) (g g' g0 : gd_t)
    (m : gmap str str) (ep : env_t) (flags : Z) :
  sim (env_htab g) m -> storable m -> ENV_SIZE <> 0 -> Z.land flags H_NOCLEAR = 0 ->
  env_export hk ENV_SIZE addr redund regex g = Some (inr ep, g') -> Z.of_nat (length (env_data ep)) = ENV_SIZE ->
  exists g2, load g0 ep true flags = Some (0, g2) /\ sim (env_htab g2) (accepted flags m) /\ flg_env_ready g2 = true.
Proof.
  intros S St Hn Hf E L. pose proof (export_stores _ _ _ _ _ _ S St Hn E L) as Sd.
  unfold env_import. destruct Sd as (St' & L' & C & X) eqn:Sde. rewrite C, Z.eqb_refl. cbn [negb andb].
  destruct (import_stored g0 ep m flags Sd Hf) as (g2 & -> & S2 & _). cbn [Z.eqb negb].
  exists (set_ready g2 false). done.
Qed.

Lemma load_slot g ep m flags : stores ep m -> Z.land flags H_NOCLEAR = 0 ->
  exists g2, load g ep false flags = Some (0, g2) /\ sim (env_htab g2) (accepted flags m) /\ env_flags g2 = env_flags g.
Proof.
  intros Sd Hf. unfold env_import. cbn [andb]. destruct (import_stored g ep m flags Sd Hf) as (g2 & -> & S2 & F2).
  cbn [Z.eqb negb]. exists (set_ready g2 false). done.
Qed.

(** Which copy is taken. *)
Definition good (ep : env_t) (fail : bool) : bool := negb fail && (crc32 addr 0 (env_data ep) =? env_crc ep).

Lemma stores_good ep m : stores ep m -> good ep false = true.
Proof. intros (_ & _ & C & _). unfold good. by rewrite C, Z.eqb_refl. Qed.

Lemma serial_order s : 0 <= s < 255 ->
  (s =? 255) = false /\ (s + 1 =? 255) && (s =? 0) = false /\ (s + 1 <? s) = false /\ (s <? s + 1) = true.
Proof. clear. intros H. split_and!; repeat cmp1; cbn [andb]; done || lia. Qed.

Lemma redund_picks g b1 f1 b2 f2 m flags (snd_slot : bool) :
  (if snd_slot then good b2 f2 = true else good b1 f1 = true) ->
  (if snd_slot then good b1 f1 = false \/ env_flags_of b2 = u8 (env_flags_of b1 + 1)
   else good b2 f2 = false \/ env_flags_of b1 = u8 (env_flags_of b2 + 1)) ->
  is_u8 (env_flags_of b1) -> is_u8 (env_flags_of b2) ->
  stores (if snd_slot then b2 else b1) m -> Z.land flags H_NOCLEAR = 0 ->
  exists g2, load_redund g b1 f1 b2 f2 flags = Some (0, g2) /\ sim (env_htab g2) (accepted flags m) /\
    env_flags g2 = env_flags_of (if snd_slot then b2 else b1).
Proof.
  intros G1 G2 U1 U2 Sd Hf. unfold env_import_redund, env_check_redund. fold (good b1 f1) (good b2 f2). unfold is_u8 in *.
  assert (f1 && f2 = false) as ->.
  { destruct snd_slot; unfold good in G1; destruct f1, f2; done. }
  unfold u8 in G2.
  assert (V : forall v, (if v =? ENV_VALID then b1 else b2) = (if snd_slot then b2 else b1) ->
    exists g2, load (set_serial (set_valid g v) (env_flags_of (if v =? ENV_VALID then b1 else b2)))
      (if v =? ENV_VALID then b1 else b2) false flags = Some (0, g2) /\ sim (env_htab g2) (accepted flags m) /\
      env_flags g2 = env_flags_of (if snd_slot then b2 else b1)).
  { intros v ->. by apply load_slot. }
  destruct snd_slot; rewrite G1.
  - rewrite andb_false_r. cbn [negb Z.eqb orb andb]. rewrite andb_false_r. apply V. destruct (good b1 f1); [|done].
    destruct G2 as [|G2]; [done|]. cbn [negb andb].
    destruct (Z.eq_dec (env_flags_of b1) 255) as [E|N].
    + rewrite E in *. rewrite G2. done.
    + rewrite Z.mod_small in G2 by lia. destruct (serial_order (env_flags_of b1)) as (-> & E1 & E2 & E3); [lia|].
      by rewrite G2, E1, E2, E3.
  - cbn [negb andb Z.eqb orb]. apply V. destruct (good b2 f2); [|done]. destruct G2 as [|G2]; [done|]. cbn [negb andb].
    destruct (Z.eq_dec (env_flags_of b2) 255) as [E|N].
    + rewrite E in *. rewrite G2. done.
    + rewrite Z.mod_small in G2 by lia. destruct (serial_order (env_flags_of b2)) as (E0 & E1 & E2 & E3); [lia|].
      rewrite G2, E1, E0, E3. done.
Qed.

(** C3: saving to redundant storage is atomic.  One copy holds the old
    environment, whose serial the running system remembers; [env_export] fills
    the buffer for the other one.  If that write completed, loading gives the
    new variables; if the new copy then cannot be read or its CRC is wrong,
    loading gives the old ones, less those that the access check or their
    callback refuse to create.  This holds whichever of the two copies is the
    old one and also when the 8-bit serial wraps, under the conditions of
    [storable] and of a memory and table that suffice, for an import that
    replaces the table and callbacks that change no values. *)
Theorem env_redund_atomic (regex : option (str -> option (str -> bool))) (g g' g0 : gd_t)
    (m_old m_new : gmap str str) (old new other : env_t) (fail swap : bool) (flags : Z) :
  stores old m_old -> is_u8 (env_flags_of old) -> env_flags g = env_flags_of old ->
  sim (env_htab g) m_new -> storable m_new -> ENV_SIZE <> 0 -> Z.land flags H_NOCLEAR = 0 ->
  env_export hk ENV_SIZE addr true regex g = Some (inr new, g') -> Z.of_nat (length (env_data new)) = ENV_SIZE ->
  is_u8 (env_flags_of other) -> other = new \/ good other fail = false ->
  exists g2,
    (if swap then load_redund g0 other fail old false flags else load_redund g0 old false other fail flags) =
      Some (0, g2) /\
    sim (env_htab g2) (accepted flags (if good other fail then m_new else m_old)).
Proof.
  intros So Uo Sg Sn St Hn Hf E L Ub Ho. pose proof (export_stores _ _ _ _ _ _ Sn St Hn E L) as Sw.
  assert (Serial : env_flags_of new = u8 (env_flags_of old + 1)).
  { unfold env_export in E. destruct (hexport_r _ _ _ _ _ _ _ _) as [[|[len out]]|]; [done| |done].
    injection E as <- _. cbn [env_flags_of set_serial env_flags]. by rewrite Sg. }
  pose proof (stores_good _ _ So) as Go.
  destruct (good other fail) eqn:Gb.
  - destruct Ho as [->|Ho]; [|done].
    destruct swap.
    + destruct (redund_picks g0 new fail old false m_new flags false) as (g2 & E2 & S2 & _); try done; [by right|].
      by exists g2.
    + destruct (redund_picks g0 old false new fail m_new flags true) as (g2 & E2 & S2 & _); try done; [by right|].
      by exists g2.
  - destruct swap.
    + destruct (redund_picks g0 other fail old false m_old flags true) as (g2 & E2 & S2 & _); try done; [by left|].
      by exists g2.
    + destruct (redund_picks g0 old false other fail m_old flags false) as (g2 & E2 & S2 & _); try done; [by left|].
      by exists g2.
Qed.

End Store.

(** ** Setting variables *)
Section Setting.
Context (hk : hooks) (Hk : permissive hk).

Lemma enter_retval key d htab flag m r : inv htab -> rep htab m ->
  hsearch_r hk key (Some d) ENV_ENTER htab flag = Some r -> s_retval r = None <-> s_ret r = 0.
Proof using Hk.
  intros I R E. destruct (m !! key) as [d0|] eqn:Em.
  - apply R in Em as [idx O]. pose proof O as ([Hi _] & _).
    rewrite (hsearch_present hk key (Some d) ENV_ENTER htab flag idx d0 I O) in E.
    unfold _compare_and_overwrite_entry in E.
    assert (H : hit htab key idx = true) by (apply hit_occ; [done|apply O|eauto]). unfold hit in H. rewrite H in E.
    cbv zeta in E. rewrite (pm_change _ Hk), (do_callback_ok hk _ _ _ _ _ _ Hk) in E. cbn [mbind option_bind Z.eqb negb] in E.
    unfold strdup in E. rewrite (pm_strdup _ Hk) in E. injection E as <-. cbn [s_ret s_retval]. split; [done|lia].
  - assert (Ab : forall idx d', ~ occ htab idx key d').
    { intros idx d' O. assert (m !! key = Some d') as X by (apply R; eauto). congruence. }
    pose proof (hsearch_new hk key d htab flag (pm_strdup _ Hk) I Ab) as N.
    destruct (_ =? _); [rewrite N in E; by injection E as <-|]. destruct N as (b & _ & _ & _ & N).
    cbv zeta in N. rewrite N, (pm_change _ Hk), (do_callback_ok hk _ _ _ _ _ _ Hk) in E. by injection E as <-.
Qed.

Lemma env_get_sim dflt env_size addr_bytes g m k : sim (env_htab g) m -> flg_env_ready g = true ->
  env_get hk dflt env_size g addr_bytes k = Some (m !! k).
Proof using Type.
  intros (I & R & _) Hr. unfold env_get. rewrite Hr.
  pose proof (hsearch_find hk k None (env_htab g) 0 m I R) as F.
  destruct (m !! k) as [d|]; [destruct F as (idx & (_ & _ & _ & D) & ->)|rewrite F]; cbn [s_retval]; [by rewrite D|done].
Qed.

Lemma set_options_name name vs f : at_hd name <> 45 -> set_options (name :: vs) f = Some (f, name :: vs).
Proof using Type.
  intros Hd. destruct name as [|c name]; [done|]. cbn [at_hd hd] in Hd. cbn [set_options].
  destruct c as [|p|p]; [done| |done]. repeat (destruct p as [p|p|]; try done).
Qed.

Lemma unset_sim g m name : sim (env_htab g) m -> strchr name EQUALS = None -> at_hd name <> 45 ->
  exists g', env_do_env_set hk true g [name] H_PROGRAMMATIC = Some (0, g') /\
    flg_env_ready g' = flg_env_ready g /\ sim (env_htab g') (delete name m).
Proof using Hk.
  intros (I & R & F) Hn Hd. unfold env_do_env_set. rewrite set_options_name, Hn by done.
  destruct (hdelete_spec hk name (env_htab g) H_PROGRAMMATIC m Hk I R) as (rc & h & E & I' & R' & Hs & H).
  change (env_htab (env_inc_id g)) with (env_htab g). rewrite E.
  destruct (m !! name) as [d|] eqn:Em.
  - destruct H as [-> Hf]. eexists. split; [done|]. split; [done|]. split; [done|]. split; [done|].
    cbn [set_htab env_htab].
    assert (base.size m <> 0)%nat by (intros Z0; apply map_size_empty_inv in Z0; by subst m).
    rewrite Hf, F, map_size_delete_Some by eauto. lia.
  - destruct H as [-> ->]. eexists. split; [done|]. split; [done|]. split; [done|]. split; [done|]. by rewrite delete_id.
Qed.

(** The table has no room for a new name. *)
Definition refused (htab : hsearch_data) (m : gmap str str) (name : str) : bool :=
  bool_decide (m !! name = None) && (Z.of_nat (base.size m) =? size htab).

Lemma set_sim g m name v : sim (env_htab g) m -> strchr name EQUALS = None -> at_hd name <> 45 ->
  exists g', env_do_env_set hk true g [name; v] H_PROGRAMMATIC = Some (b2z (refused (env_htab g) m name), g') /\
    flg_env_ready g' = flg_env_ready g /\
    sim (env_htab g') (if refused (env_htab g) m name then m else <[name := v]> m).
Proof using Hk.
  intros (I & R & F) Hn Hd. unfold env_do_env_set. rewrite set_options_name, Hn by done. cbn [negb join_args].
  change (env_htab (env_inc_id g)) with (env_htab g).
  destruct (hsearch_enter hk name v (env_htab g) H_PROGRAMMATIC m Hk I R) as (r & E & H). rewrite E.
  pose proof (enter_retval _ _ _ _ m r I R E) as Rv. unfold refused. rewrite <- F.
  assert (Ret : forall b : bool, (s_ret r = 0 <-> b = true) -> match s_retval r with Some _ => 0 | None => 1 end = b2z b).
  { intros b Hb. destruct (s_retval r) eqn:Er, b; try done.
    - assert (s_ret r = 0) as X%Rv by (by apply Hb). done.
    - assert (s_ret r = 0) as X%Hb by (by apply Rv). done. }
  destruct (m !! name) as [d|] eqn:Em.
  - rewrite (bool_decide_false (Some d = None)) by done. cbn [andb]. destruct H as (H1 & I' & R' & Hs & Hf).
    rewrite (Ret false) by (split; [lia|done]). eexists. split; [done|]. split; [done|].
    split; [done|]. split; [done|]. cbn [set_htab env_htab]. rewrite Hf, F. by rewrite map_size_insert_Some.
  - rewrite (bool_decide_true (@None str = None)) by done. cbn [andb].
    destruct (Z.eqb_spec (filled (env_htab g)) (size (env_htab g))).
    + subst r. eexists. split; [done|]. split; [done|]. by split_and!.
    + destruct H as (H1 & I' & R' & Hs & Hf). rewrite (Ret false) by (split; [lia|done]).
      eexists. split; [done|]. split; [done|]. split; [done|]. split; [done|]. cbn [set_htab env_htab].
      rewrite Hf, F, map_size_insert_None by done. lia.
Qed.

(** Setting and reading a variable.  On a running system, setting a
    variable to a value returns 0 and makes it, and no other variable, read as
    that value, or returns 1 and changes nothing when the name is new and the
    table is full; setting it to nothing deletes it and returns 0.  The name
    must not hold an equals sign or start with a dash. *)
Theorem env_set_get (g : gd_t) (m : gmap str str) (name : str) (value : option str) (addr_bytes dflt : list Z)
    (env_size : Z) :
  sim (env_htab g) m -> flg_env_ready g = true -> strchr name EQUALS = None -> at_hd name <> 45 ->
  exists ret g', env_set hk true g name value = Some (ret, g') /\
    let m' := match value with
              | None | Some [] => delete name m
              | Some v => if refused (env_htab g) m name then m else <[name := v]> m
              end in
    sim (env_htab g') m' /\
    ret = (match value with
           | None | Some [] => 0
           | Some _ => b2z (refused (env_htab g) m name)
           end) /\
    forall k, env_get hk dflt env_size g' addr_bytes k = Some (m' !! k).
Proof using Hk.
  intros S Hr Hn Hd. unfold env_set. rewrite Hr. cbn [negb].
  destruct (unset_sim g m name S Hn Hd) as (gd & Ed & Rd & Sd).
  destruct value as [[|c v]|]; [exists 0, gd| |exists 0, gd].
  - split; [done|]. split; [done|]. split; [done|]. intros k. apply env_get_sim; [done|congruence].
  - destruct (set_sim g m name (c :: v) S Hn Hd) as (gs & -> & Rs & Ss). eexists _, _. split; [done|]. split; [done|].
    split; [done|]. intros k. apply env_get_sim; [done|congruence].
  - split; [done|]. split; [done|]. split; [done|]. intros k. apply env_get_sim; [done|congruence].
Qed.
End Setting.

(** ** Default values and the change-default flag *)

(** The buffer length only truncates. *)
Lemma linear_truncates fuel env_size name len1 len2 p ofs res v : res < len1 ->
  linear_loop fuel env_size name len1 p ofs = Some (res, v) ->
  linear_loop fuel env_size name len2 p ofs =
    Some (res, if len2 <=? res then take (Z.to_nat (len2 - 1)) v else v) /\
  Z.of_nat (length v) = res /\ exists a b, p = a ++ v ++ b /\ Forall (fun c => c <> 0) v.
Proof.
  intros Hl. revert p ofs. induction fuel as [|f IH]; intros p ofs; [done|]. cbn [linear_loop].
  destruct (at_hd p =? 0); [done|]. destruct (env_size <? ofs + Z.of_nat (length (cstr p))); [done|].
  assert (Cs : exists b, p = cstr p ++ b /\ Forall (fun c => c <> 0) (cstr p)).
  { clear. induction p as [|c p IH]; [by exists []|]. cbn [cstr]. destruct (Z.eqb_spec c 0); [by exists (c :: p)|].
    destruct IH as (b & E & F). exists b. split; [by rewrite E at 1|by constructor]. }
  destruct Cs as (b & Ep & Fp). destruct (_ || _).
  - intros H. destruct (IH _ _ H) as (E & L & a & b2 & Ea & Fa). split; [done|]. split; [done|].
    exists (take (S (length (cstr p))) p ++ a), b2. split; [|done]. rewrite <- app_assoc, <- Ea. by rewrite take_drop.
  - intros [= <- H]. set (w := drop (S (length name)) (cstr p)) in *.
    destruct (Z.leb_spec len1 (Z.of_nat (length w))); [lia|]. subst v. split; [done|]. split; [done|].
    exists (take (S (length name)) (cstr p)), b. split.
    + rewrite app_assoc. unfold w. rewrite take_drop. exact Ep.
    + unfold w. apply Forall_drop. done.
Qed.

Lemma strcmp_prefix a b : Forall (fun c => 0 < c < 256) (a ++ b) -> b <> [] -> strcmp (a ++ b) a <> 0.
Proof.
  induction a as [|c a IH]; intros F Hb.
  - destruct b as [|c b]; [done|]. cbn [app] in *. apply Forall_cons in F as [F _]. cbn [strcmp].
    change (uchar_hd []) with 0. unfold uchar_hd, u8. cbn [hd]. rewrite Z.mod_small by lia. cbn [Z.eqb].
    rewrite orb_true_r. lia.
  - cbn [app] in *. apply Forall_cons in F as [F1 F]. cbn [strcmp tl]. unfold uchar_hd at 1 2 3 4, u8. cbn [hd].
    rewrite Z.mod_small by lia. rewrite Z.sub_diag. cbn [Z.eqb negb orb]. destruct (Z.eqb_spec c 0); [lia|].
    by apply IH.
Qed.

(** Long default values cannot be changed.  A variable flagged
    change-default may be overwritten while it has its default value; but the
    default is read through a 32-byte buffer, so when it is 32 bytes long or
    longer the comparison fails and the variable that still has it cannot be
    overwritten. *)
Theorem changedefault_long_denied (cfg : config) (default_environment : list Z) (env_size len res flag : Z)
    (name value newval : str) (cb : option Z) :
  Forall is_u8 default_environment -> res < len -> ENV_BUF_SIZE <= res ->
  env_get_from_linear env_size default_environment name len = Some (res, value) ->
  Z.land flag H_FORCE = 0 -> Z.land flag H_DEFAULT = 0 -> Z.land flag H_EXTERNAL = 0 ->
  env_flags_validate cfg (env_get_default default_environment env_size)
    (mk_entry (Some name) (Some value) cb (Z.lor PREVENT_DELETE PREVENT_NONDEF_OVERWR)) (Some newval)
    env_op_overwrite flag = 1.
Proof.
  intros U Hl Hres E F1 F2 F3. unfold env_flags_validate. cbv zeta. cbn [e_flags e_data].
  change (Z.land VARTYPE_BIN_MASK (Z.lor PREVENT_DELETE PREVENT_NONDEF_OVERWR)) with 0.
  change (_env_flags_validate_type cfg (default [] (Some newval)) 0) with 0.
  rewrite F1, F2, F3. cbn [Z.ltb Z.compare Z.eqb negb andb]. rewrite !andb_false_r. cbn [andb].
  change (Z.land (Z.lor PREVENT_DELETE PREVENT_NONDEF_OVERWR) PREVENT_OVERWR =? 0) with true.
  change (Z.land (Z.lor PREVENT_DELETE PREVENT_NONDEF_OVERWR) PREVENT_NONDEF_OVERWR =? 0) with false. cbn [negb].
  change (key_of (mk_entry (Some name) ?d ?c ?f)) with name. change (default [] (Some value)) with value.
  unfold env_get_default, env_get_default_into. unfold env_get_from_linear in *. destruct name as [|c name]; [done|].
  destruct (linear_truncates _ _ _ _ ENV_BUF_SIZE _ _ _ _ Hl E) as (-> & L & a & b & Ea & Fv).
  destruct (Z.leb_spec ENV_BUF_SIZE res); [|lia]. cbn [fmap option_fmap option_map snd].
  change (default [] (Some ?x)) with x. change (Z.to_nat (ENV_BUF_SIZE - 1)) with 31%nat.
  unfold ENV_BUF_SIZE in Hres.
  assert (strcmp value (take 31 value) <> 0) as N.
  { rewrite <- (take_drop 31 value) at 1. apply strcmp_prefix.
    - rewrite take_drop. rewrite Ea in U. apply Forall_app in U as [_ U]. apply Forall_app in U as [U _].
      apply Forall_forall. intros x Hx. rewrite Forall_forall in U, Fv. specialize (U x Hx). specialize (Fv x Hx).
      unfold is_u8 in U. lia.
    - intros N. apply (f_equal length) in N. rewrite length_drop in N. simpl in N. lia. }
  apply Z.eqb_neq in N. by rewrite N.
Qed.

(** ** Concrete environments, with the hooks of the environment table *)
Definition gd_with (h : hsearch_data) (serial : Z) : gd_t := mk_gd h ENV_VALID true false serial 1.
Definition saved (g : gd_t) : env_t :=
  match env_export EnvAccess.env_hk0 16 0 true None g with Some (inr ep, _) => ep | _ => mk_env 0 0 [] end.
Definition after_save (g : gd_t) : gd_t :=
  match env_export EnvAccess.env_hk0 16 0 true None g with Some (_, g) => g | None => g end.

Definition g_a : gd_t := gd_with (after [HEnter [97] [49]]) 254.
Definition g_b : gd_t := gd_with (after [HEnter [98] [50; 92]]) 255.

Lemma storable_one k d : clean_key 0 k -> clean_data d -> storable 7 {[ k := d ]}.
Proof.
  intros K D. split; [|rewrite map_size_singleton; lia].
  intros k' d' H. apply lookup_singleton_Some in H as [<- <-]. done.
Qed.

Lemma key_a : clean_key 0 [97] /\ clean_data [49].
Proof. split; [split; [done|]; split_and!; try done; by repeat constructor|split; [done|by repeat constructor]]. Qed.
Lemma key_b : clean_key 0 [98] /\ clean_data [50; 92].
Proof. split; [split; [done|]; split_and!; try done; by repeat constructor|split; [done|by repeat constructor]]. Qed.

Lemma env_save_load_witness :
  exists g2, env_import EnvAccess.env_hk0 1 true false 6 7 [0] 0 g_b (saved g_a) true 0 = Some (0, g2) /\
    sim (env_htab g2) {[ [97] := [49] ]} /\ flg_env_ready g2 = true.
Proof.
  pose proof (@env_save_load EnvAccess.env_hk0 (EnvAccess.env_effects EnvAccess.cfg0 EnvAccess.no_answer) EnvAccess.env_hk0_sane (EnvAccess.env_effects_relabel _ _) (fun _ => eq_refl) 1 6 7 [0] 16 0 7 7 eq_refl ltac:(lia) prime_7
    ltac:(change (Z.lor 7 1) with 7; lia) ltac:(lia) true None g_a (after_save g_a) g_b {[ [97] := [49] ]} (saved g_a) 0) as T.
  assert (E : accepted EnvAccess.env_hk0 (EnvAccess.env_effects EnvAccess.cfg0 EnvAccess.no_answer) 0 {[ [97] := [49] ]} = {[ [97] := [49] ]}) by (vm_compute; reflexivity).
  rewrite E in T. apply T; clear T E.
  - apply one_sim.
  - apply storable_one; apply key_a.
  - done.
  - done.
  - vm_compute. reflexivity.
  - vm_compute. reflexivity.
Defined.

Lemma env_redund_atomic_witness :
  exists g2,
    env_import_redund EnvAccess.env_hk0 1 true false 6 7 [0] 0 g_a (saved g_b) false (saved g_a) false 0 = Some (0, g2) /\
    sim (env_htab g2) {[ [98] := [50; 92] ]}.
Proof.
  pose proof (@env_redund_atomic EnvAccess.env_hk0 (EnvAccess.env_effects EnvAccess.cfg0 EnvAccess.no_answer) EnvAccess.env_hk0_sane (EnvAccess.env_effects_relabel _ _) (fun _ => eq_refl) 1 6 7 [0] 16 0 7 7 eq_refl ltac:(lia) prime_7
    ltac:(change (Z.lor 7 1) with 7; lia) ltac:(lia) None g_b (after_save g_b) g_a {[ [97] := [49] ]}
    {[ [98] := [50; 92] ]} (saved g_a) (saved g_b) (saved g_b) false true 0) as T.
  assert (E : accepted EnvAccess.env_hk0 (EnvAccess.env_effects EnvAccess.cfg0 EnvAccess.no_answer) 0 (if good 0 (saved g_b) false then {[ [98] := [50; 92] ]} else {[ [97] := [49] ]}) =
    {[ [98] := [50; 92] ]}) by (vm_compute; reflexivity).
  rewrite E in T. apply T; clear T E.
  - eapply (export_stores EnvAccess.env_hk0 16 0 7 true None g_a _ _ (after_save g_a)).
    + apply one_sim.
    + apply storable_one; apply key_a.
    + done.
    + vm_compute. reflexivity.
    + vm_compute. reflexivity.
  - vm_compute. split; congruence.
  - vm_compute. reflexivity.
  - apply one_sim.
  - apply storable_one; apply key_b.
  - done.
  - done.
  - vm_compute. reflexivity.
  - vm_compute. reflexivity.
  - vm_compute. split; congruence.
  - by left.
Defined.

Lemma env_set_get_witness :
  exists ret g', env_set hk0 true g_a [98] (Some [51]) = Some (ret, g') /\
    sim (env_htab g') (<[ [98] := [51] ]> {[ [97] := [49] ]}) /\ ret = 0 /\
    forall k, env_get hk0 [] 0 g' [] k = Some ((<[ [98] := [51] ]> {[ [97] := [49] ]} : gmap str str) !! k).
Proof.
  pose proof (env_set_get hk0 hk0_permissive g_a {[ [97] := [49] ]} [98] (Some [51]) [] [] 0) as T.
  assert (Er : refused (env_htab g_a) {[ [97] := [49] ]} [98] = false) by (vm_compute; reflexivity).
  rewrite Er in T. apply T.
  - apply one_sim.
  - done.
  - done.
  - done.
Defined.

Lemma changedefault_long_denied_witness :
  env_flags_validate (mk_config true false false None (fun _ => true) [] [] [])
    (env_get_default ([97; 61] ++ replicate 32 49 ++ [0; 0]) 64)
    (mk_entry (Some [97]) (Some (replicate 32 49)) None (Z.lor PREVENT_DELETE PREVENT_NONDEF_OVERWR)) (Some [50])
    env_op_overwrite 0 = 1.
Proof.
  apply (changedefault_long_denied (mk_config true false false None (fun _ => true) [] [] [])
    ([97; 61] ++ replicate 32 49 ++ [0; 0]) 64 100 32 0 [97] (replicate 32 49) [50] None).
  - by repeat constructor.
  - lia.
  - done.
  - vm_compute. reflexivity.
  - done.
  - done.
  - done.
Defined.

End EnvStore.
