(* ===== verification/Charset.v ===== *)
(** * Character sets (lib/charset.c, include/cp437.h, include/capitalization.h)

    Conversion between UTF-8, UTF-16, Unicode code points and code page 437.

    A [const char *] or [const u16 *] is the list of units in memory from the
    pointer on; a read past the end of the list gives the terminating zero.  A
    [char **dst] cursor is the list of units written so far, [None] the null
    pointer.  Loops over strings take the length of the list as fuel, and the
    theorems show that it is enough.  Lengths are [size_t] counts of units that
    are in memory, so they are written without wrap-around. *)

From S2P Require Import Prelude Bytes.

Module Charset.

(** ** Data *)
Definition codepage_437 : list Z :=
  [0x0000; 0x263a; 0x263b; 0x2665; 0x2666; 0x2663; 0x2660; 0x2022;
   0x25d8; 0x25cb; 0x25d9; 0x2642; 0x2640; 0x266a; 0x266b; 0x263c;
   0x25ba; 0x25c4; 0x2195; 0x203c; 0x00b6; 0x00a7; 0x25ac; 0x21a8;
   0x2191; 0x2193; 0x2192; 0x2190; 0x221f; 0x2194; 0x25b2; 0x25bc;
   0x00c7; 0x00fc; 0x00e9; 0x00e2; 0x00e4; 0x00e0; 0x00e5; 0x00e7;
   0x00ea; 0x00eb; 0x00e8; 0x00ef; 0x00ee; 0x00ec; 0x00c4; 0x00c5;
   0x00c9; 0x00e6; 0x00c6; 0x00f4; 0x00f6; 0x00f2; 0x00fb; 0x00f9;
   0x00ff; 0x00d6; 0x00dc; 0x00a2; 0x00a3; 0x00a5; 0x20a7; 0x0192;
   0x00e1; 0x00ed; 0x00f3; 0x00fa; 0x00f1; 0x00d1; 0x00aa; 0x00ba;
   0x00bf; 0x2310; 0x00ac; 0x00bd; 0x00bc; 0x00a1; 0x00ab; 0x00bb;
   0x2591; 0x2592; 0x2593; 0x2502; 0x2524; 0x2561; 0x2562; 0x2556;
   0x2555; 0x2563; 0x2551; 0x2557; 0x255d; 0x255c; 0x255b; 0x2510;
   0x2514; 0x2534; 0x252c; 0x251c; 0x2500; 0x253c; 0x255e; 0x255f;
   0x255a; 0x2554; 0x2569; 0x2566; 0x2560; 0x2550; 0x256c; 0x2567;
   0x2568; 0x2564; 0x2565; 0x2559; 0x2558; 0x2552; 0x2553; 0x256b;
   0x256a; 0x2518; 0x250c; 0x2588; 0x2584; 0x258c; 0x2590; 0x2580;
   0x03b1; 0x00df; 0x0393; 0x03c0; 0x03a3; 0x03c3; 0x00b5; 0x03c4;
   0x03a6; 0x0398; 0x03a9; 0x03b4; 0x221e; 0x03c6; 0x03b5; 0x2229;
   0x2261; 0x00b1; 0x2265; 0x2264; 0x2320; 0x2321; 0x00f7; 0x2248;
   0x00b0; 0x2219; 0x00b7; 0x221a; 0x207f; 0x00b2; 0x25a0; 0x00a0].

(** An entry of the table of capital and small letters; the table ends with a
    zero entry.  [CP437_CAPITALIZATION_TABLE] is the default configuration. *)
Record capitalization_table := mk_cap { upper : Z; lower : Z }.

Definition CP437_CAPITALIZATION_TABLE : list capitalization_table :=
  [mk_cap 0x00C4 0x00E4; mk_cap 0x00C5 0x00E5; mk_cap 0x00C6 0x00E6;
   mk_cap 0x00C7 0x00E7; mk_cap 0x00C9 0x00E9; mk_cap 0x00D1 0x00F1;
   mk_cap 0x00D6 0x00F6; mk_cap 0x00DC 0x00FC; mk_cap 0x03A3 0x03C3;
   mk_cap 0x03A6 0x03C6; mk_cap 0 0].

(** ** UTF-8 *)
Section Reader.
  Context {D : Type} (read_u8 : D -> Z * D).

Definition get_code (data : D) : Z * D :=
  let '(ch, data) := read_u8 data in
  if ch =? 0 then (0, data)
  else if (0xc2 <=? ch) && (ch <=? 0xf4) then
    let last code ch data :=
      let code := code + Z.shiftl (Z.land ch 0x3f) 6 in
      let '(ch, data) := read_u8 data in
      if (ch <? 0x80) || (0xbf <? ch) then (-1, data)
      else (Z.land ch 0x3f + code, data) in
    let middle code ch data :=
      let code := code + Z.shiftl ch 12 in
      if (0xD800 <=? code) && (code <=? 0xDFFF) || (0x110000 <=? code) then (-1, data)
      else
        let '(ch, data) := read_u8 data in
        if (ch <? 0x80) || (0xbf <? ch) then (-1, data)
        else last code ch data in
    if 0xe0 <=? ch then
      if 0xf0 <=? ch then
        let code := Z.shiftl (Z.land ch 0x07) 18 in
        let '(ch, data) := read_u8 data in
        if (ch <? 0x80) || (0xbf <? ch) then (-1, data)
        else middle code (Z.land ch 0x3f) data
      else middle 0 (Z.land ch 0x0f) data
    else last 0 ch data
  else if 0x80 <=? ch then (-1, data)
  else (ch, data).

End Reader.

Definition read_string (src : list Z) : Z * list Z :=
  match src with
  | [] => (0, src)
  | c :: r => if c =? 0 then (0, src) else (c, r)
  end.

Definition utf8_get (src : list Z) : Z * list Z := get_code read_string src.

Definition surrogate (code : Z) : bool := (0xD800 <=? code) && (code <=? 0xDFFF).

(** The bytes [utf8_put] writes for a code it accepts. *)
Definition utf8_units (code : Z) : list Z :=
  map u8
    (if code <=? 0x007F then [code]
     else if code <=? 0x07FF then
       [Z.lor (Z.shiftr code 6) 0xC0; Z.lor (Z.land code 0x3F) 0x80]
     else if code <? 0x10000 then
       [Z.lor (Z.shiftr code 12) 0xE0; Z.lor (Z.land (Z.shiftr code 6) 0x3F) 0x80;
        Z.lor (Z.land code 0x3F) 0x80]
     else
       [Z.lor (Z.shiftr code 18) 0xF0; Z.lor (Z.land (Z.shiftr code 12) 0x3F) 0x80;
        Z.lor (Z.land (Z.shiftr code 6) 0x3F) 0x80; Z.lor (Z.land code 0x3F) 0x80]).

Definition utf8_put (code : Z) (dst : option (list Z)) : Z * option (list Z) :=
  match dst with
  | None => (-1, dst)
  | Some out =>
      if surrogate code || (0x110000 <=? code) then (-1, dst)
      else (0, Some (out ++ utf8_units code))
  end.

(** ** UTF-16 *)
Definition utf16_get (src : option (list Z)) : Z * option (list Z) :=
  match src with
  | None => (-1, src)
  | Some [] => (0, src)
  | Some (code :: r) =>
      if code =? 0 then (0, src)
      else if (0xDC00 <=? code) && (code <=? 0xDFFF) then (-1, Some r)
      else if (0xD800 <=? code) && (code <=? 0xDBFF) then
        match r with
        | [] => (-1, Some r)
        | code2 :: r' =>
            if code2 =? 0 then (-1, Some r)
            else
              let code := Z.shiftl (Z.land code 0x3ff) 10 + 0x10000 in
              if (code2 <=? 0xDC00) || (0xDFFF <=? code2) then (-1, Some r')
              else (code + Z.land code2 0x3ff, Some r')
        end
      else (code, Some r)
  end.

(** The units [utf16_put] writes for a code it accepts. *)
Definition utf16_units (code : Z) : list Z :=
  map u16
    (if code <? 0x10000 then [code]
     else
       let code := code - 0x10000 in
       [Z.lor (Z.shiftr code 10) 0xD800; Z.lor (Z.land code 0x3ff) 0xDC00]).

Definition utf16_put (code : Z) (dst : option (list Z)) : Z * option (list Z) :=
  match dst with
  | None => (-1, dst)
  | Some out =>
      if surrogate code || (0x110000 <=? code) then (-1, dst)
      else (0, Some (out ++ utf16_units code))
  end.

(** ** Lengths and copies

    [*src && count] is the condition of every loop: the head of the list is
    the unit the pointer shows, zero past its end. *)
Definition SIZE_MAX : Z := 18446744073709551615.
Definition stops (src : list Z) (count : Z) : bool := (hd 0 src =? 0) || (count =? 0).

Fixpoint utf8_utf16_strnlen_loop (fuel : nat) (src : list Z) (count len : Z) : option Z :=
  match fuel with
  | O => None
  | S f =>
      if stops src count then Some len
      else
        let '(code, src) := utf8_get src in
        if code =? 0 then Some len
        else
          utf8_utf16_strnlen_loop f src (count - 1)
            (len + (if code <? 0 then 1 else if code <? 0x10000 then 1 else 2))
  end.
Definition utf8_utf16_strnlen (src : list Z) (count : Z) : option Z :=
  utf8_utf16_strnlen_loop (S (length src)) src count 0.

Fixpoint utf8_utf16_strncpy_loop (fuel : nat) (dst : option (list Z)) (src : list Z)
    (count : Z) : option (option (list Z)) :=
  match fuel with
  | O => None
  | S f =>
      if stops src count then Some dst
      else
        let '(code, src) := utf8_get src in
        let code := if code <? 0 then 0x3f else code in
        utf8_utf16_strncpy_loop f (snd (utf16_put code dst)) src (count - 1)
  end.

(** [None] is a loop out of fuel; a result is the return value and the cursor
    after the conversion, with the terminator [**dst = 0] appended to what
    precedes the cursor. *)
Definition terminate (dst : option (list Z)) : option (list Z) :=
  option_map (fun out => out ++ [0]) dst.

Definition utf8_utf16_strncpy (dst : option (list Z)) (src : option (list Z)) (count : Z)
    : option (Z * option (list Z)) :=
  match src, dst with
  | Some s, Some _ =>
      dst ← utf8_utf16_strncpy_loop (S (length s)) dst s count; Some (0, terminate dst)
  | _, _ => Some (-1, dst)
  end.

(** [utf16_get] through the address of a pointer that is not null. *)
Definition utf16_next (src : list Z) : Z * list Z :=
  let '(code, p) := utf16_get (Some src) in (code, default [] p).

Fixpoint utf16_strnlen_loop (fuel : nat) (src : list Z) (count len : Z) : option Z :=
  match fuel with
  | O => None
  | S f =>
      if stops src count then Some len
      else
        let '(code, src) := utf16_next src in
        if code =? 0 then Some len else utf16_strnlen_loop f src (count - 1) (len + 1)
  end.
Definition utf16_strnlen (src : list Z) (count : Z) : option Z :=
  utf16_strnlen_loop (S (length src)) src count 0.

Fixpoint utf16_utf8_strnlen_loop (fuel : nat) (src : list Z) (count len : Z) : option Z :=
  match fuel with
  | O => None
  | S f =>
      if stops src count then Some len
      else
        let '(code, src) := utf16_next src in
        if code =? 0 then Some len
        else
          utf16_utf8_strnlen_loop f src (count - 1)
            (len + (if code <? 0 then 1 else if code <? 0x80 then 1
                    else if code <? 0x800 then 2 else if code <? 0x10000 then 3 else 4))
  end.
Definition utf16_utf8_strnlen (src : list Z) (count : Z) : option Z :=
  utf16_utf8_strnlen_loop (S (length src)) src count 0.

Fixpoint utf16_utf8_strncpy_loop (fuel : nat) (dst : option (list Z)) (src : list Z)
    (count : Z) : option (option (list Z)) :=
  match fuel with
  | O => None
  | S f =>
      if stops src count then Some dst
      else
        let '(code, src) := utf16_next src in
        let code := if code <? 0 then 0x3f else code in
        utf16_utf8_strncpy_loop f (snd (utf8_put code dst)) src (count - 1)
  end.
Definition utf16_utf8_strncpy (dst : option (list Z)) (src : option (list Z)) (count : Z)
    : option (Z * option (list Z)) :=
  match src, dst with
  | Some s, Some _ =>
      dst ← utf16_utf8_strncpy_loop (S (length s)) dst s count; Some (0, terminate dst)
  | _, _ => Some (-1, dst)
  end.

(** ** Letter case, for any capitalization table *)
Section Case.
  Context (table : list capitalization_table).

Fixpoint find_upper (pos : list capitalization_table) (code : Z) : option Z :=
  match pos with
  | [] => None
  | e :: r =>
      if upper e =? 0 then None
      else if upper e =? code then Some (lower e) else find_upper r code
  end.
Definition utf_to_lower (code : Z) : Z :=
  if code <=? 0x7f then
    if (65 <=? code) && (code <=? 90) then code + 0x20 else code
  else default code (find_upper table code).

Fixpoint find_lower (pos : list capitalization_table) (code : Z) : option Z :=
  match pos with
  | [] => None
  | e :: r =>
      if lower e =? 0 then None
      else if lower e =? code then Some (upper e) else find_lower r code
  end.
Definition utf_to_upper (code : Z) : Z :=
  if code <=? 0x7f then
    if (97 <=? code) && (code <=? 122) then code - 0x20 else code
  else default code (find_lower table code).

Fixpoint u16_strcasecmp_loop (fuel : nat) (s1 s2 : list Z) : option Z :=
  match fuel with
  | O => None
  | S f =>
      let '(c1, s1) := utf16_next s1 in
      let '(c2, s2) := utf16_next s2 in
      let c1 := utf_to_upper c1 in
      let c2 := utf_to_upper c2 in
      let ret := c1 - c2 in
      if negb (ret =? 0) || (c1 =? 0) || (c1 =? -1) || (c2 =? -1) then Some ret
      else u16_strcasecmp_loop f s1 s2
  end.
Definition u16_strcasecmp (s1 s2 : list Z) : option Z :=
  u16_strcasecmp_loop (S (length s1)) s1 s2.

End Case.

(** ** UTF-16 strings *)
Fixpoint u16_strncmp_loop (fuel : nat) (s1 s2 : list Z) (n ret : Z) : option Z :=
  match fuel with
  | O => None
  | S f =>
      if n =? 0 then Some ret
      else
        let ret := hd 0 s1 - hd 0 s2 in
        if negb (ret =? 0) || (hd 0 s1 =? 0) then Some ret
        else u16_strncmp_loop f (tl s1) (tl s2) (n - 1) ret
  end.
Definition u16_strncmp (s1 s2 : list Z) (n : Z) : option Z :=
  u16_strncmp_loop (S (length s1)) s1 s2 n 0.

Fixpoint u16_strnlen_loop (rest : list Z) (count i : Z) : Z :=
  match rest with
  | [] => i
  | c :: r => if (count =? 0) || (c =? 0) then i else u16_strnlen_loop r (count - 1) (i + 1)
  end.
Definition u16_strnlen (s : list Z) (count : Z) : Z := u16_strnlen_loop s count 0.
Definition u16_strlen (s : list Z) : Z := u16_strnlen s SIZE_MAX.
Definition u16_strsize (s : list Z) : Z := (u16_strlen s + 1) * 2.

(** The units [u16_strcpy] stores, the terminator included. *)
Fixpoint u16_strcpy_units (src : list Z) : list Z :=
  match src with
  | [] => [0]
  | c :: r => if c =? 0 then [c] else c :: u16_strcpy_units r
  end.
Definition u16_strcpy (dest src : list Z) : list Z := write_at dest 0 (u16_strcpy_units src).

(** [avail] is the answer of [malloc]: the block is there or it is not.
    [memcpy] copies [u16_strsize] bytes, which the source holds with its
    terminator. *)
Definition u16_strdup (src : option (list Z)) (avail : bool) : option (list Z) :=
  match src with
  | None => None
  | Some s => if avail then Some (take (Z.to_nat (u16_strsize s / 2)) (s ++ [0])) else None
  end.

Definition u16_strlcat (dest src : list Z) (count : Z) : Z * list Z :=
  let destlen := u16_strnlen dest count in
  let srclen := u16_strlen src in
  let ret := destlen + srclen in
  if count <=? destlen then (ret, dest)
  else
    let srclen := if count <=? ret then srclen - (ret - count + 1) else srclen in
    let dest := write_at dest destlen (take (Z.to_nat srclen) src) in
    (ret, write_at dest (destlen + srclen) [0]).

(** ** The conversion the EFI device paths use *)
Fixpoint utf16_to_utf8_loop (size : nat) (dest src : list Z) (code_high : Z) : list Z :=
  match size with
  | O => dest
  | S n =>
      let code := hd 0 src in
      let next := tl src in
      if negb (code_high =? 0) then
        if (0xDC00 <=? code) && (code <=? 0xDFFF) then
          let code := Z.shiftl (code_high - 0xD800) 10 + (code - 0xDC00) + 0x10000 in
          let dest := dest ++ map u8
            [Z.lor (Z.shiftr code 18) 0xF0; Z.lor (Z.land (Z.shiftr code 12) 0x3F) 0x80;
             Z.lor (Z.land (Z.shiftr code 6) 0x3F) 0x80; Z.lor (Z.land code 0x3F) 0x80] in
          utf16_to_utf8_loop n dest next 0
        else utf16_to_utf8_loop n (dest ++ [0x3f]) src 0
      else if code <=? 0x007F then utf16_to_utf8_loop n (dest ++ map u8 [code]) next 0
      else if code <=? 0x07FF then
        let dest := dest ++ map u8
          [Z.lor (Z.shiftr code 6) 0xC0; Z.lor (Z.land code 0x3F) 0x80] in
        utf16_to_utf8_loop n dest next 0
      else if (0xD800 <=? code) && (code <=? 0xDBFF) then utf16_to_utf8_loop n dest next code
      else if (0xDC00 <=? code) && (code <=? 0xDFFF) then
        utf16_to_utf8_loop n (dest ++ [0x3f]) next 0
      else if code <? 0x10000 then
        let dest := dest ++ map u8
          [Z.lor (Z.shiftr code 12) 0xE0; Z.lor (Z.land (Z.shiftr code 6) 0x3F) 0x80;
           Z.lor (Z.land code 0x3F) 0x80] in
        utf16_to_utf8_loop n dest next 0
      else
        let dest := dest ++ map u8
          [Z.lor (Z.shiftr code 18) 0xF0; Z.lor (Z.land (Z.shiftr code 12) 0x3F) 0x80;
           Z.lor (Z.land (Z.shiftr code 6) 0x3F) 0x80; Z.lor (Z.land code 0x3F) 0x80] in
        utf16_to_utf8_loop n dest next 0
  end.
Definition utf16_to_utf8 (dest src : list Z) (size : Z) : list Z :=
  utf16_to_utf8_loop (Z.to_nat size) dest src 0.

(** ** Code page 437 *)
Fixpoint utf_to_cp_loop (codepage : list Z) (c j : Z) : option Z :=
  match codepage with
  | [] => None
  | e :: r =>
      if negb (j <? 0xA0) then None
      else if c =? e then Some (if j <? 0x20 then j else j + 0x60)
      else utf_to_cp_loop r c (j + 1)
  end.
Definition utf_to_cp (c : Z) (codepage : list Z) : Z * Z :=
  if 0x80 <=? c then
    match utf_to_cp_loop codepage c 0 with
    | Some j => (0, j)
    | None => (- ENOENT, 0x3f)
    end
  else (0, c).

(** ** Byte streams

    [buffer] is the string the caller's buffer holds (the bytes before its
    zero).  The byte [c] is stored at its end, [end] being the address after
    it; what [utf8_get] leaves of [buffer ++ [c]] is empty when [pos == end].
    [None] is a loop out of fuel. *)
Fixpoint utf8_to_utf32_stream (fuel : nat) (c : Z) (buffer : list Z) : option (Z * list Z) :=
  match fuel with
  | O => None
  | S f =>
      let '(s, pos) := utf8_get (buffer ++ [c]) in
      if 0 <? s then Some (s, [])
      else match pos with
           | [] => Some (0, buffer ++ [c])
           | _ => utf8_to_utf32_stream f c []
           end
  end.

Fixpoint utf8_to_cp437_stream (fuel : nat) (c : Z) (buffer : list Z) : option (Z * list Z) :=
  match fuel with
  | O => None
  | S f =>
      let '(s, pos) := utf8_get (buffer ++ [c]) in
      if 0 <? s then Some (snd (utf_to_cp s codepage_437), [])
      else match pos with
           | [] => Some (0, buffer ++ [c])
           | _ => utf8_to_cp437_stream f c []
           end
  end.

(** The highest index of the buffer a call stores to in its first round: the
    terminator goes after the string and the new byte. *)
Definition stored (buffer : list Z) : Z := Z.of_nat (length buffer) + 1.

(** The console as a source of bytes: [tstc] says whether input is waiting,
    [getchar] takes one character or fails with a negative value. *)
Section Console.
  Context {C : Type} (tstc : C -> bool * C) (getchar : C -> Z * C).

Definition read_console (con : C) : Z * C :=
  let '(ch, con) := getchar con in ((if ch <? 0 then 0 else u8 ch), con).

(** The return value, the code stored through the pointer and the console. *)
Fixpoint console_read_unicode (fuel : nat) (con : C) : option (Z * option Z * C) :=
  match fuel with
  | O => None
  | S f =>
      let '(ready, con) := tstc con in
      if negb ready then Some (1, None, con)
      else
        let '(c, con) := get_code read_console con in
        if 0 <? c then Some (0, Some c, con) else console_read_unicode f con
  end.

End Console.

(** ** Specification: code points and their encodings *)

(** A Unicode scalar value other than zero, which ends a string. *)
Definition scalar (c : Z) : Prop := 0 < c < 0x110000 /\ ~ (0xD800 <= c <= 0xDFFF).

(** The encoding forms of the Unicode standard (section 3.9): the bytes of a
    code point in UTF-8 and its units in UTF-16. *)
Definition utf8_form (c : Z) : list Z :=
  if c <? 0x80 then [c]
  else if c <? 0x800 then [0xC0 + c / 64; 0x80 + c mod 64]
  else if c <? 0x10000 then [0xE0 + c / 64 / 64; 0x80 + c / 64 mod 64; 0x80 + c mod 64]
  else [0xF0 + c / 64 / 64 / 64; 0x80 + c / 64 / 64 mod 64; 0x80 + c / 64 mod 64;
        0x80 + c mod 64].
Definition utf16_form (c : Z) : list Z :=
  if c <? 0x10000 then [c]
  else [0xD800 + (c - 0x10000) / 0x400; 0xDC00 + (c - 0x10000) mod 0x400].

Definition enc8 (cs : list Z) : list Z := concat (map utf8_form cs).
Definition enc16 (cs : list Z) : list Z := concat (map utf16_form cs).

(** The code points whose second UTF-16 unit is [0xDC00] or [0xDFFF]. *)
Definition edge_pair (c : Z) : bool :=
  (0x10000 <=? c) && ((c mod 0x400 =? 0) || (c mod 0x400 =? 0x3ff)).

(** What a string decodes to: the codes a loop over it gets. *)
Fixpoint decode (get : list Z -> Z * list Z) (fuel : nat) (src : list Z) (count : Z) : list Z :=
  match fuel with
  | O => []
  | S f =>
      if stops src count then []
      else let '(code, r) := get src in code :: decode get f r (count - 1)
  end.

(** ** Bit operations as arithmetic *)
Lemma land_mod k x m : m = Z.ones k -> 0 <= k -> Z.land x m = x mod 2 ^ k.
Proof. intros ->. apply Z.land_ones. Qed.

Lemma lor_add k x h : 0 <= k -> 0 <= x < 2 ^ k -> h mod 2 ^ k = 0 -> Z.lor x h = x + h.
Proof.
  intros Hk Hx Hh. rewrite Z.add_nocarry_lxor; [symmetry; apply Z.lxor_lor|];
    apply Z.bits_inj'; intros n Hn; rewrite Z.land_spec, Z.bits_0;
    (destruct (Z_lt_le_dec n k) as [Hlt|Hge];
      [rewrite <- (Z.mod_pow2_bits_low h k n) by lia; rewrite Hh, Z.bits_0; apply andb_false_r
      |destruct (decide (x = 0)) as [->|]; [by rewrite Z.bits_0|];
       rewrite (Z.bits_above_log2 x n); [done|lia|];
       apply Z.lt_le_trans with k; [|done]; apply Z.log2_lt_pow2; lia]).
Qed.

Ltac arith_bits :=
  repeat match goal with
  | |- context [Z.shiftr ?x ?k] => rewrite (Z.shiftr_div_pow2 x k) by done
  | |- context [Z.shiftl ?x ?k] => rewrite (Z.shiftl_mul_pow2 x k) by done
  | |- context [Z.land ?x 0x3f] => rewrite (land_mod 6 x 0x3f) by done
  | |- context [Z.land ?x 0x3ff] => rewrite (land_mod 10 x 0x3ff) by done
  | |- context [Z.land ?x 0x0f] => rewrite (land_mod 4 x 0x0f) by done
  | |- context [Z.land ?x 0x07] => rewrite (land_mod 3 x 0x07) by done
  end;
  change (2 ^ 3) with 8; change (2 ^ 4) with 16; change (2 ^ 6) with 64;
  change (2 ^ 10) with 1024; change (2 ^ 12) with 4096; change (2 ^ 18) with 262144.

(** The encodings, unit by unit. *)
Lemma utf8_units_eq c : 0 <= c < 0x110000 ->
  utf8_units c =
    if c <=? 0x7f then [c]
    else if c <=? 0x7ff then [c / 64 + 0xC0; c mod 64 + 0x80]
    else if c <? 0x10000 then [c / 4096 + 0xE0; c / 64 mod 64 + 0x80; c mod 64 + 0x80]
    else [c / 262144 + 0xF0; c / 4096 mod 64 + 0x80; c / 64 mod 64 + 0x80; c mod 64 + 0x80].
Proof.
  intros Hc. unfold utf8_units. arith_bits.
  cmp_cases; simpl map;
  repeat match goal with
  | |- context [Z.lor ?x 0x80] =>
      rewrite (lor_add 6 x 0x80) by (done || apply Z.mod_pos_bound; done)
  | |- context [Z.lor ?x 0xC0] => rewrite (lor_add 5 x 0xC0) by (done || Z.to_euclidean_division_equations; lia)
  | |- context [Z.lor ?x 0xE0] => rewrite (lor_add 4 x 0xE0) by (done || Z.to_euclidean_division_equations; lia)
  | |- context [Z.lor ?x 0xF0] => rewrite (lor_add 3 x 0xF0) by (done || Z.to_euclidean_division_equations; lia)
  end; repeat f_equal; apply u8_small; Z.to_euclidean_division_equations; lia.
Qed.

Lemma utf16_units_eq c : 0 <= c < 0x110000 ->
  utf16_units c =
    if c <? 0x10000 then [c]
    else [(c - 0x10000) / 1024 + 0xD800; c mod 1024 + 0xDC00].
Proof.
  intros Hc. unfold utf16_units. cbv zeta. arith_bits.
  destruct (Z.ltb_spec c 65536); simpl map; [by rewrite u16_small by lia|].
  rewrite (lor_add 10 _ 0xD800), (lor_add 10 _ 0xDC00)
    by (done || Z.to_euclidean_division_equations; lia).
  rewrite !u16_small by (Z.to_euclidean_division_equations; lia).
  do 2 f_equal. f_equal. Z.to_euclidean_division_equations; lia.
Qed.

(** The units the code writes are those of the encoding forms. *)
Lemma utf8_units_form c : 0 <= c < 0x110000 -> utf8_units c = utf8_form c.
Proof.
  intros Hc. rewrite utf8_units_eq by done. unfold utf8_form. rewrite !Z.div_div by done.
  change (64 * 64 * 64) with 262144. change (64 * 64) with 4096.
  cmp_cases; try lia; repeat first [apply (f_equal2 cons); [lia|] | done].
Qed.

Lemma utf16_units_form c : 0 <= c < 0x110000 -> utf16_units c = utf16_form c.
Proof.
  intros Hc. rewrite utf16_units_eq by done. unfold utf16_form.
  destruct (c <? 0x10000); [done|]. f_equal; [lia|]. f_equal.
  Z.to_euclidean_division_equations; lia.
Qed.

Lemma enc8_units cs : Forall scalar cs -> enc8 cs = concat (map utf8_units cs).
Proof.
  unfold enc8. induction 1 as [|c cs [Hc _] Hcs IH]; simpl; [done|].
  by rewrite IH, utf8_units_form by lia.
Qed.

Lemma enc16_units cs : Forall scalar cs -> enc16 cs = concat (map utf16_units cs).
Proof.
  unfold enc16. induction 1 as [|c cs [Hc _] Hcs IH]; simpl; [done|].
  by rewrite IH, utf16_units_form by lia.
Qed.

(** ** One code point *)
Lemma utf8_get_1 a r : 0 < a < 0x80 -> utf8_get (a :: r) = (a, r).
Proof. intros. unfold utf8_get, get_code. simpl. cmp_cases; try lia. simpl. done. Qed.

Lemma read_cons a r : a <> 0 -> read_string (a :: r) = (a, r).
Proof. intros. simpl. cmp_cases; [lia|done]. Qed.

(** Decide the next comparison, or read the next byte. *)
Ltac take_branch :=
  match goal with
  | |- context [read_string (?a :: ?r)] => rewrite (read_cons a r) by lia; cbv iota
  | _ => branch
  end.

Lemma utf8_get_2 a b r : 0xc2 <= a <= 0xdf -> 0x80 <= b <= 0xbf ->
  utf8_get (a :: b :: r) = (b mod 64 + (a mod 64) * 64, r).
Proof.
  intros. unfold utf8_get, get_code. repeat take_branch. arith_bits. f_equal; lia.
Qed.

Lemma utf8_get_3 a b c r : 0xe0 <= a <= 0xef -> 0x80 <= b <= 0xbf -> 0x80 <= c <= 0xbf ->
  utf8_get (a :: b :: c :: r) = (c mod 64 + ((a mod 16) * 4096 + (b mod 64) * 64), r).
Proof.
  intros. unfold utf8_get, get_code. do 6 take_branch. arith_bits.
  assert (a mod 16 = a - 0xe0) as -> by (Z.to_euclidean_division_equations; lia).
  destruct (Z.leb_spec 55296 (0 + (a - 224) * 4096));
    repeat take_branch; arith_bits; f_equal; lia.
Qed.

Lemma utf8_get_4 a b c d r : 0xf0 <= a <= 0xf4 -> 0x80 <= b <= 0xbf -> 0x80 <= c <= 0xbf ->
  0x80 <= d <= 0xbf -> 0x10000 <= (a mod 8) * 262144 + (b mod 64) * 4096 < 0x110000 ->
  utf8_get (a :: b :: c :: d :: r) =
    (d mod 64 + ((a mod 8) * 262144 + (b mod 64) * 4096 + (c mod 64) * 64), r).
Proof.
  intros. unfold utf8_get, get_code. do 9 take_branch. arith_bits. repeat take_branch.
  arith_bits. f_equal; lia.
Qed.

Lemma utf8_get_put c r : scalar c -> utf8_get (utf8_units c ++ r) = (c, r).
Proof.
  intros [Hc Hs]. rewrite utf8_units_eq by lia. cmp_cases; try lia; simpl app.
  - apply utf8_get_1; lia.
  - rewrite utf8_get_2 by (Z.to_euclidean_division_equations; lia).
    f_equal. Z.to_euclidean_division_equations; lia.
  - rewrite utf8_get_3 by (Z.to_euclidean_division_equations; lia).
    f_equal. Z.to_euclidean_division_equations; lia.
  - rewrite utf8_get_4 by (Z.to_euclidean_division_equations; lia).
    f_equal. Z.to_euclidean_division_equations; lia.
Qed.

Lemma utf16_get_put c r : scalar c ->
  utf16_next (utf16_units c ++ r) = (if edge_pair c then -1 else c, r).
Proof.
  intros [Hc Hs]. rewrite utf16_units_eq by lia.
  unfold utf16_next, utf16_get, edge_pair. destruct (Z.ltb_spec c 0x10000); simpl app.
  - take_branch. destruct (Z.leb_spec 0xDC00 c), (Z.leb_spec 0xD800 c);
      repeat take_branch; done.
  - pose proof (Z.mod_pos_bound c 1024 ltac:(done)).
    assert (0 <= (c - 65536) / 1024 < 1024) by (Z.to_euclidean_division_equations; lia).
    repeat take_branch. arith_bits.
    assert (((c - 65536) / 1024 + 55296) mod 1024 = (c - 65536) / 1024) as ->
      by (Z.to_euclidean_division_equations; lia).
    rewrite Z.add_comm, Z.mul_comm.
    destruct (Z.eqb_spec (c mod 1024) 0), (Z.eqb_spec (c mod 1024) 0x3ff);
      repeat take_branch; try done; try (exfalso; lia).
    simpl. f_equal. Z.to_euclidean_division_equations; lia.
Qed.

(** Reading a unit other than the terminator moves the pointer. *)
Lemma utf8_get_shrinks src : hd 0 src <> 0 -> (length (snd (utf8_get src)) < length src)%nat.
Proof.
  assert (R : forall l, (length (snd (read_string l)) <= length l)%nat)
    by (intros [|x l]; simpl; [done|]; cmp_cases; simpl; lia).
  destruct src as [|a r]; simpl; [done|]. intros Ha.
  unfold utf8_get, get_code. rewrite read_cons by done.
  repeat match goal with
  | |- context [read_string ?l] =>
      let E := fresh "E" in
      pose proof (R l); destruct (read_string l) eqn:E; simpl snd in *
  | |- context [if ?b then _ else _] => destruct b
  end; simpl snd; simpl length; lia.
Qed.

Lemma utf16_next_shrinks src : hd 0 src <> 0 -> (length (snd (utf16_next src)) < length src)%nat.
Proof.
  destruct src as [|a [|b r]]; simpl; try done; intros Ha; unfold utf16_next, utf16_get;
    repeat match goal with |- context [if ?b then _ else _] => destruct b eqn:? end;
    simpl; try lia; cmp_cases; lia.
Qed.

(** ** The shape the length and copy loops share *)
Fixpoint until_zero (cs : list Z) : list Z :=
  match cs with [] => [] | c :: r => if c =? 0 then [] else c :: until_zero r end.

Definition width16 (code : Z) : Z := if code <? 0 then 1 else if code <? 0x10000 then 1 else 2.
Definition width8 (code : Z) : Z :=
  if code <? 0 then 1 else if code <? 0x80 then 1
  else if code <? 0x800 then 2 else if code <? 0x10000 then 3 else 4.
Definition total (width : Z -> Z) (cs : list Z) : Z := foldr Z.add 0 (map width cs).

(** What a copy loop stores for a code: a question mark for an illegal
    sequence, nothing for a code the encoder refuses. *)
Definition emitted (units : Z -> list Z) (code : Z) : list Z :=
  let code := if code <? 0 then 0x3f else code in
  if surrogate code || (0x110000 <=? code) then [] else units code.

Section Loops.
  Context (get : list Z -> Z * list Z) (width : Z -> Z) (units : Z -> list Z).
  Context (get_shrinks : forall src, hd 0 src <> 0 -> (length (snd (get src)) < length src)%nat).

Fixpoint len_loop (fuel : nat) (src : list Z) (count len : Z) : option Z :=
  match fuel with
  | O => None
  | S f =>
      if stops src count then Some len
      else
        let '(code, src) := get src in
        if code =? 0 then Some len else len_loop f src (count - 1) (len + width code)
  end.

Definition put (code : Z) (dst : option (list Z)) : Z * option (list Z) :=
  match dst with
  | None => (-1, dst)
  | Some out =>
      if surrogate code || (0x110000 <=? code) then (-1, dst) else (0, Some (out ++ units code))
  end.

Fixpoint copy_loop (fuel : nat) (dst : option (list Z)) (src : list Z) (count : Z)
    : option (option (list Z)) :=
  match fuel with
  | O => None
  | S f =>
      if stops src count then Some dst
      else
        let '(code, src) := get src in
        let code := if code <? 0 then 0x3f else code in
        copy_loop f (snd (put code dst)) src (count - 1)
  end.

Lemma stops_false src count : stops src count = false -> hd 0 src <> 0.
Proof. unfold stops. intros [? _]%orb_false_iff. cmp_cases; done. Qed.

Lemma len_loop_decode fuel src count len : (length src < fuel)%nat ->
  len_loop fuel src count len = Some (len + total width (until_zero (decode get fuel src count))).
Proof.
  unfold total. revert src count len.
  induction fuel as [|f IH]; intros src count len Hf; [lia|]. simpl.
  destruct (stops src count) eqn:E; [simpl; f_equal; lia|].
  pose proof (get_shrinks _ (stops_false _ _ E)) as Hs.
  destruct (get src) as [code r]. simpl in Hs |- *.
  destruct (code =? 0); [simpl; f_equal; lia|].
  rewrite IH by lia. simpl. f_equal. lia.
Qed.

Lemma copy_loop_decode fuel out src count : (length src < fuel)%nat ->
  copy_loop fuel (Some out) src count =
    Some (Some (out ++ concat (map (emitted units) (decode get fuel src count)))).
Proof.
  revert out src count. induction fuel as [|f IH]; intros out src count Hf; [lia|]. simpl.
  destruct (stops src count) eqn:E; [simpl; by rewrite app_nil_r|].
  pose proof (get_shrinks _ (stops_false _ _ E)) as Hs.
  destruct (get src) as [code r]. simpl in Hs |- *. unfold emitted at 1.
  destruct (_ || _); simpl; rewrite IH by lia; [done|by rewrite app_assoc].
Qed.

(** A string that was written unit by unit decodes to the codes it was made of. *)
Context (f : Z -> Z).
Context (get_put : forall c r, scalar c -> get (units c ++ r) = (f c, r)).
Context (units_hd : forall c r, scalar c -> hd 0 (units c ++ r) <> 0).

Lemma decode_encoded cs junk fuel count : Forall scalar cs -> 0 <= count ->
  (length cs < fuel)%nat ->
  decode get fuel (concat (map units cs) ++ 0 :: junk) count = map f (take (Z.to_nat count) cs).
Proof.
  intros Hcs. revert fuel count.
  induction Hcs as [|c cs Hc Hcs IH]; intros fuel count Hn Hf;
    (destruct fuel as [|fuel]; [simpl in Hf; lia|]); simpl.
  { unfold stops. simpl. by rewrite take_nil. }
  rewrite <- app_assoc. unfold stops.
  rewrite (proj2 (Z.eqb_neq _ _) (units_hd c _ Hc)). simpl.
  destruct (Z.eqb_spec count 0) as [->|]; [done|].
  rewrite get_put by done. rewrite IH by (simpl in Hf; lia).
  replace (Z.to_nat count) with (S (Z.to_nat (count - 1))) by lia. done.
Qed.
End Loops.

Lemma utf8_units_hd c r : scalar c -> hd 0 (utf8_units c ++ r) <> 0.
Proof.
  intros [Hc Hs]. rewrite utf8_units_eq by lia.
  cmp_cases; simpl; try lia; Z.to_euclidean_division_equations; lia.
Qed.

Lemma utf16_units_hd c r : scalar c -> hd 0 (utf16_units c ++ r) <> 0.
Proof.
  intros [Hc Hs]. rewrite utf16_units_eq by lia.
  cmp_cases; simpl; try lia; Z.to_euclidean_division_equations; lia.
Qed.

(** An encoded string has at least one unit per code. *)
Lemma length_encoded (units : Z -> list Z) cs : Forall scalar cs ->
  (forall c r, scalar c -> hd 0 (units c ++ r) <> 0) ->
  (length cs <= length (concat (map units cs)))%nat.
Proof.
  intros Hcs Hu. induction Hcs as [|c cs Hc Hcs IH]; simpl; [done|].
  rewrite length_app. pose proof (Hu c [] Hc) as H. rewrite app_nil_r in H.
  destruct (units c); simpl in *; lia.
Qed.

Lemma utf8_decode cs junk fuel count : Forall scalar cs -> 0 <= count ->
  (length (enc8 cs) < fuel)%nat ->
  decode utf8_get fuel (enc8 cs ++ 0 :: junk) count = take (Z.to_nat count) cs.
Proof.
  intros Hcs Hn Hf. rewrite enc8_units in * by done.
  rewrite (decode_encoded utf8_get utf8_units id); [by rewrite map_id|..]; try done.
  - intros. by apply utf8_get_put.
  - apply utf8_units_hd.
  - pose proof (length_encoded utf8_units cs Hcs utf8_units_hd). lia.
Qed.

Lemma utf16_decode cs junk count : Forall scalar cs -> 0 <= count ->
  decode utf16_next (S (length (enc16 cs ++ 0 :: junk))) (enc16 cs ++ 0 :: junk) count =
  map (fun c => if edge_pair c then -1 else c) (take (Z.to_nat count) cs).
Proof.
  intros Hcs Hn. rewrite enc16_units by done.
  rewrite (decode_encoded utf16_next utf16_units (fun c => if edge_pair c then -1 else c));
    try done.
  - intros. by apply utf16_get_put.
  - apply utf16_units_hd.
  - pose proof (length_encoded utf16_units cs Hcs utf16_units_hd). rewrite length_app. lia.
Qed.

(** The four string functions as what their source decodes to. *)
Lemma utf8_utf16_strnlen_decode src count :
  utf8_utf16_strnlen src count =
    Some (total width16 (until_zero (decode utf8_get (S (length src)) src count))).
Proof. apply (len_loop_decode utf8_get width16 utf8_get_shrinks). lia. Qed.

Lemma utf16_strnlen_decode src count :
  utf16_strnlen src count =
    Some (total (fun _ => 1) (until_zero (decode utf16_next (S (length src)) src count))).
Proof. apply (len_loop_decode utf16_next (fun _ => 1) utf16_next_shrinks). lia. Qed.

Lemma utf16_utf8_strnlen_decode src count :
  utf16_utf8_strnlen src count =
    Some (total width8 (until_zero (decode utf16_next (S (length src)) src count))).
Proof. apply (len_loop_decode utf16_next width8 utf16_next_shrinks). lia. Qed.

Lemma utf8_utf16_strncpy_decode out src count :
  utf8_utf16_strncpy (Some out) (Some src) count =
    Some (0, Some ((out ++ concat (map (emitted utf16_units)
                     (decode utf8_get (S (length src)) src count))) ++ [0])).
Proof.
  unfold utf8_utf16_strncpy.
  assert (E := copy_loop_decode utf8_get utf16_units utf8_get_shrinks
                 (S (length src)) out src count ltac:(lia)).
  change (copy_loop utf8_get utf16_units) with utf8_utf16_strncpy_loop in E. by rewrite E.
Qed.

Lemma utf16_utf8_strncpy_decode out src count :
  utf16_utf8_strncpy (Some out) (Some src) count =
    Some (0, Some ((out ++ concat (map (emitted utf8_units)
                     (decode utf16_next (S (length src)) src count))) ++ [0])).
Proof.
  unfold utf16_utf8_strncpy.
  assert (E := copy_loop_decode utf16_next utf8_units utf16_next_shrinks
                 (S (length src)) out src count ltac:(lia)).
  change (copy_loop utf16_next utf8_units) with utf16_utf8_strncpy_loop in E. by rewrite E.
Qed.

(** ** Conversions *)
Lemma until_zero_scalars cs : Forall scalar cs -> until_zero cs = cs.
Proof.
  induction 1 as [|c cs [Hc _] Hcs IH]; simpl; [done|]. rewrite IH. cmp_cases; [lia|done].
Qed.

Lemma emitted_scalar units c : scalar c -> emitted units c = units c.
Proof.
  intros [Hc Hs]. unfold emitted, surrogate. take_branch.
  destruct (Z.leb_spec 0xD800 c); repeat take_branch; done.
Qed.

Lemma emitted_all units cs : Forall scalar cs ->
  concat (map (emitted units) cs) = concat (map units cs).
Proof. induction 1 as [|c cs Hc Hcs IH]; simpl; [done|]. by rewrite IH, emitted_scalar. Qed.

Lemma length_utf16_units c : 0 <= c < 0x110000 ->
  Z.of_nat (length (utf16_units c)) = width16 c.
Proof. intros. rewrite utf16_units_eq by done. unfold width16. cmp_cases; simpl; lia. Qed.

Lemma length_utf8_units c : 0 <= c < 0x110000 ->
  Z.of_nat (length (utf8_units c)) = width8 c.
Proof. intros. rewrite utf8_units_eq by done. unfold width8. cmp_cases; simpl; lia. Qed.

Lemma total_encoded (units : Z -> list Z) width cs : Forall scalar cs ->
  (forall c, 0 <= c < 0x110000 -> Z.of_nat (length (units c)) = width c) ->
  total width cs = Z.of_nat (length (concat (map units cs))).
Proof.
  intros Hcs Hw. unfold total. induction Hcs as [|c cs [Hc _] Hcs IH]; simpl; [done|].
  rewrite length_app, IH, <- Hw by lia. lia.
Qed.

(** C35: a well-formed UTF-8 string is converted to UTF-16 code point by code point, at most
    [count] of them, with a terminator, both in the encoding forms of the Unicode standard;
    [utf8_utf16_strnlen] is the number of units this
    takes without the terminator. *)
Theorem utf8_utf16_converts cs junk out count : Forall scalar cs -> 0 <= count ->
  let src := enc8 cs ++ 0 :: junk in
  let res := enc16 (take (Z.to_nat count) cs) in
  utf8_utf16_strncpy (Some out) (Some src) count = Some (0, Some (out ++ res ++ [0])) /\
  utf8_utf16_strnlen src count = Some (Z.of_nat (length res)).
Proof.
  intros Hcs Hn src res. assert (Ht : Forall scalar (take (Z.to_nat count) cs)) by by apply Forall_take.
  rewrite utf8_utf16_strncpy_decode, utf8_utf16_strnlen_decode.
  unfold src. rewrite utf8_decode, emitted_all, until_zero_scalars by (done || rewrite length_app; lia).
  rewrite (total_encoded utf16_units width16 _ Ht length_utf16_units).
  unfold res. rewrite enc16_units by done. by rewrite <- app_assoc.
Qed.

(** What [utf16_utf8_strncpy] makes of a code point. *)
Definition kept (c : Z) : Z := if edge_pair c then 0x3f else c.

Lemma kept_scalar c : scalar c -> scalar (kept c).
Proof. unfold kept. intros H. destruct (edge_pair c); [|done]. split; lia. Qed.

Lemma kept_scalars cs : Forall scalar cs -> Forall scalar (map kept cs).
Proof. intros H. apply Forall_map. eapply Forall_impl; [exact H|apply kept_scalar]. Qed.

Lemma edge_emitted cs : Forall scalar cs ->
  concat (map (emitted utf8_units) (map (fun c => if edge_pair c then -1 else c) cs)) =
  enc8 (map kept cs).
Proof.
  intros Hcs. rewrite enc8_units by by apply kept_scalars.
  induction Hcs as [|c cs Hc Hcs IH]; simpl; [done|]. rewrite IH. f_equal.
  unfold kept. destruct (edge_pair c); [done|]. by apply emitted_scalar.
Qed.

Lemma edge_total cs : Forall scalar cs ->
  total width8 (until_zero (map (fun c => if edge_pair c then -1 else c) cs)) =
  Z.of_nat (length (enc8 (map kept cs))).
Proof.
  intros Hcs.
  pose proof (kept_scalars cs Hcs) as Hk. rewrite enc8_units by done. rewrite <- (total_encoded _ _ _ Hk length_utf8_units). clear Hk.
  unfold total. induction Hcs as [|c cs [Hc _] Hcs IH]; simpl; [done|].
  unfold kept at 1. destruct (edge_pair c); simpl; rewrite <- IH; [done|].
  destruct (Z.eqb_spec c 0); [lia|done].
Qed.

(** A well-formed UTF-16 string is converted to UTF-8 code point by code point, at most
    [count] of them, with a terminator, and [utf16_utf8_strnlen] is the number of bytes this
    takes; but [utf16_get] refuses the low surrogates [0xDC00] and [0xDFFF], so exactly the
    code points whose pair ends in one of them come out as a question mark. *)
Theorem utf16_utf8_converts cs junk out count : Forall scalar cs -> 0 <= count ->
  let src := enc16 cs ++ 0 :: junk in
  let res := enc8 (map kept (take (Z.to_nat count) cs)) in
  utf16_utf8_strncpy (Some out) (Some src) count = Some (0, Some (out ++ res ++ [0])) /\
  utf16_utf8_strnlen src count = Some (Z.of_nat (length res)).
Proof.
  intros Hcs Hn src res. assert (Ht : Forall scalar (take (Z.to_nat count) cs)) by by apply Forall_take.
  rewrite utf16_utf8_strncpy_decode, utf16_utf8_strnlen_decode.
  unfold src. rewrite utf16_decode, edge_emitted, edge_total by done.
  by rewrite <- app_assoc.
Qed.

(** The number of code points of a string, edge pairs counted once like the rest. *)
Lemma utf16_strnlen_counts cs junk count : Forall scalar cs -> 0 <= count ->
  utf16_strnlen (enc16 cs ++ 0 :: junk) count = Some (Z.min count (Z.of_nat (length cs))).
Proof.
  intros Hcs Hn. rewrite utf16_strnlen_decode, utf16_decode by done. f_equal.
  assert (Ht : Forall scalar (take (Z.to_nat count) cs)) by by apply Forall_take.
  assert (L : Z.min count (Z.of_nat (length cs)) = Z.of_nat (length (take (Z.to_nat count) cs)))
    by (rewrite length_take; lia).
  rewrite L. clear L. unfold total. induction Ht as [|c l [Hc _] Hl IH]; simpl; [done|].
  destruct (edge_pair c); simpl.
  - rewrite IH. lia.
  - destruct (Z.eqb_spec c 0); [lia|]. simpl. rewrite IH. lia.
Qed.

(** ** Ill-formed input *)
Lemma emitted_width cs : 0 ∉ cs ->
  Z.of_nat (length (concat (map (emitted utf16_units) cs))) <= total width16 (until_zero cs).
Proof.
  unfold total. induction cs as [|c cs IH]; simpl; [done|].
  intros [Hc Hcs]%not_elem_of_cons. destruct (Z.eqb_spec c 0) as [->|Hz]; [done|]. simpl.
  rewrite length_app. specialize (IH Hcs).
  assert (Z.of_nat (length (emitted utf16_units c)) <= width16 c); [|lia].
  unfold emitted. destruct (Z.ltb_spec c 0).
  - unfold width16. take_branch. done.
  - destruct (surrogate c || (0x110000 <=? c)) eqn:E; simpl.
    + unfold width16. cmp_cases; lia.
    + apply orb_false_iff in E as [_ E]. cmp_cases; [lia|]. rewrite length_utf16_units by lia. lia.
Qed.

(** For any bytes whatever, unless a sequence of more than one byte decodes to zero, the
    copy fits a buffer of [utf8_utf16_strnlen + 1] units. *)
Theorem utf8_utf16_strncpy_fits src count len : 0 ∉ decode utf8_get (S (length src)) src count ->
  utf8_utf16_strnlen src count = Some len ->
  exists w, utf8_utf16_strncpy (Some []) (Some src) count = Some (0, Some w) /\
    Z.of_nat (length w) <= len + 1.
Proof.
  intros Hz E. pose proof (utf8_utf16_strnlen_decode src count) as L. rewrite E in L.
  apply (inj Some) in L. rewrite utf8_utf16_strncpy_decode.
  eexists. split; [done|]. pose proof (emitted_width _ Hz).
  rewrite app_nil_l, length_app. change (length [0]) with 1%nat. lia.
Qed.

(** The three bytes E0 80 80 decode to zero, where the length stops and the copy goes on:
    whatever follows them is written to a buffer that was measured at zero units. *)
Theorem strncpy_exceeds_strnlen cs junk count : Forall scalar cs -> 0 < count ->
  let src := [0xE0; 0x80; 0x80] ++ enc8 cs ++ 0 :: junk in
  utf8_utf16_strnlen src count = Some 0 /\
  utf8_utf16_strncpy (Some []) (Some src) count =
    Some (0, Some (0 :: enc16 (take (Z.to_nat (count - 1)) cs) ++ [0])).
Proof.
  intros Hcs Hn src.
  assert (D : decode utf8_get (S (length src)) src count = 0 :: take (Z.to_nat (count - 1)) cs).
  { unfold src at 2. simpl app. cbn [decode]. unfold stops. simpl hd. take_branch.
    rewrite utf8_get_3 by lia. rewrite utf8_decode; [by take_branch|done|lia|].
    unfold src. cbn [length app]. rewrite length_app. lia. }
  rewrite utf8_utf16_strnlen_decode, utf8_utf16_strncpy_decode, D. simpl.
  rewrite emitted_all, enc16_units by by apply Forall_take. done.
Qed.

(** ** Byte streams *)

(** The caller of a stream function: the bytes one after the other, the codes
    other than zero kept.  Two rounds are enough for every byte but zero. *)
Fixpoint feed (bytes buffer : list Z) : option (list Z * list Z) :=
  match bytes with
  | [] => Some ([], buffer)
  | c :: r =>
      '(s, buffer) ← utf8_to_utf32_stream 2 c buffer;
      '(out, buffer) ← feed r buffer;
      Some (if s =? 0 then (out, buffer) else (s :: out, buffer))
  end.

(** A prefix the bytes of which are all consumed without a code is kept. *)
Lemma stream_pending c buffer : utf8_get (buffer ++ [c]) = (-1, []) ->
  utf8_to_utf32_stream 2 c buffer = Some (0, buffer ++ [c]).
Proof. intros E. simpl. by rewrite E. Qed.

Lemma stream_complete c buffer s : 0 < s -> utf8_get (buffer ++ [c]) = (s, []) ->
  utf8_to_utf32_stream 2 c buffer = Some (s, []).
Proof. intros Hs E. simpl. rewrite E. by take_branch. Qed.

Lemma feed_pending c r buffer : utf8_get (buffer ++ [c]) = (-1, []) ->
  feed (c :: r) buffer = feed r (buffer ++ [c]).
Proof.
  intros E. cbn [feed]. rewrite stream_pending by done. simpl.
  by destruct (feed r (buffer ++ [c])) as [[]|].
Qed.

Lemma feed_complete c r buffer s : 0 < s -> utf8_get (buffer ++ [c]) = (s, []) ->
  feed (c :: r) buffer = '(out, b) ← feed r []; Some (s :: out, b).
Proof.
  intros Hs E. cbn [feed]. rewrite (stream_complete _ _ s) by done. simpl.
  destruct (feed r []) as [[]|]; simpl; [|done]. by take_branch.
Qed.

(** Incomplete sequences. *)
Lemma read_nil : read_string [] = (0, []).
Proof. done. Qed.

Lemma utf8_get_lead a : 0xc2 <= a <= 0xf4 -> utf8_get [a] = (-1, []).
Proof.
  intros. unfold utf8_get, get_code. do 4 take_branch.
  destruct (Z.leb_spec 0xe0 a); [|rewrite read_nil; done].
  destruct (Z.leb_spec 0xf0 a); [rewrite read_nil; done|]. arith_bits.
  assert (a mod 16 = a - 0xe0) as -> by (Z.to_euclidean_division_equations; lia).
  destruct (Z.leb_spec 55296 (0 + (a - 224) * 4096)); repeat take_branch; rewrite read_nil; done.
Qed.

Lemma utf8_get_lead3 a b : 0xe0 <= a <= 0xef -> 0x80 <= b <= 0xbf -> utf8_get [a; b] = (-1, []).
Proof.
  intros. unfold utf8_get, get_code. do 6 take_branch. arith_bits.
  assert (a mod 16 = a - 0xe0) as -> by (Z.to_euclidean_division_equations; lia).
  destruct (Z.leb_spec 55296 (0 + (a - 224) * 4096)); repeat take_branch; rewrite read_nil; done.
Qed.

Lemma utf8_get_lead4 a b : 0xf0 <= a <= 0xf4 -> 0x80 <= b <= 0xbf ->
  0x10000 <= (a mod 8) * 262144 + (b mod 64) * 4096 < 0x110000 -> utf8_get [a; b] = (-1, []).
Proof.
  intros. unfold utf8_get, get_code. do 9 take_branch. arith_bits. repeat take_branch.
  rewrite read_nil. done.
Qed.

Lemma utf8_get_lead43 a b c r : 0xf0 <= a <= 0xf4 -> 0x80 <= b <= 0xbf -> 0x80 <= c <= 0xbf ->
  0x10000 <= (a mod 8) * 262144 + (b mod 64) * 4096 < 0x110000 ->
  hd 0 r < 0x80 \/ 0xbf < hd 0 r -> r <> [0] -> (length r <= 1)%nat ->
  utf8_get (a :: b :: c :: r) = (-1, []).
Proof.
  intros Ha Hb Hc Hm Hr Hz Hl. unfold utf8_get, get_code. do 9 take_branch. arith_bits.
  repeat take_branch. destruct r as [|d [|]]; simpl in Hl; try lia; [rewrite read_nil; done|].
  simpl in Hr. rewrite read_cons by congruence. destruct (Z.ltb_spec d 0x80); [done|].
  by repeat take_branch.
Qed.

Lemma feed_one c r : scalar c ->
  feed (utf8_units c ++ r) [] = '(out, b) ← feed r []; Some (c :: out, b).
Proof.
  intros Hc. pose proof (utf8_get_put c [] Hc) as G. rewrite app_nil_r in G.
  destruct Hc as [Hc Hs]. rewrite utf8_units_eq in * by lia.
  cmp_cases; try lia; simpl app in *.
  - by rewrite (feed_complete _ _ _ c) by (done || lia).
  - rewrite feed_pending by (apply utf8_get_lead; Z.to_euclidean_division_equations; lia).
    by rewrite (feed_complete _ _ _ c) by (done || lia).
  - rewrite feed_pending by (apply utf8_get_lead; Z.to_euclidean_division_equations; lia).
    rewrite feed_pending by (apply utf8_get_lead3; Z.to_euclidean_division_equations; lia).
    by rewrite (feed_complete _ _ _ c) by (done || lia).
  - rewrite feed_pending by (apply utf8_get_lead; Z.to_euclidean_division_equations; lia).
    rewrite feed_pending by (apply utf8_get_lead4; Z.to_euclidean_division_equations; lia).
    rewrite feed_pending
      by (apply utf8_get_lead43; simpl; try done; try lia; Z.to_euclidean_division_equations; lia).
    by rewrite (feed_complete _ _ _ c) by (done || lia).
Qed.

(** A well-formed UTF-8 stream fed byte by byte to [utf8_to_utf32_stream] yields its code
    points in order, one at the last byte of each, and leaves the buffer empty. *)
Theorem stream_decodes cs : Forall scalar cs -> feed (enc8 cs) [] = Some (cs, []).
Proof.
  intros Hcs. rewrite enc8_units by done.
  induction Hcs as [|c cs Hc Hcs IH]; [done|]. cbn [map concat].
  rewrite feed_one, IH by done. done.
Qed.

(** A four-byte sequence broken off at its last byte stays in the buffer, with the byte
    that broke it off: the next call stores its terminator at index 5, one past the five bytes
    callers provide, and the byte that broke the sequence off is lost. *)
Theorem stream_stores_past_buffer a b c d e : 0xf0 <= a <= 0xf4 -> 0x80 <= b <= 0xbf ->
  0x80 <= c <= 0xbf -> 0x10000 <= (a mod 8) * 262144 + (b mod 64) * 4096 < 0x110000 ->
  0 < d < 0x80 -> 0 < e < 0x80 ->
  feed [a; b; c; d] [] = Some ([], [a; b; c; d]) /\ stored [a; b; c; d] = 5 /\
  feed [a; b; c; d; e] [] = Some ([e], []).
Proof.
  intros Ha Hb Hc Hm Hd He.
  assert (P : forall r, feed (a :: b :: c :: d :: r) [] = feed r [a; b; c; d]).
  { intros r. rewrite feed_pending by (apply utf8_get_lead; lia).
    rewrite feed_pending by (by apply utf8_get_lead4).
    rewrite feed_pending by (apply utf8_get_lead43; simpl; try done; lia).
    rewrite feed_pending; [done|]. apply utf8_get_lead43; simpl; try done; try lia.
    intros [= ->]. lia. }
  rewrite !P. repeat split. cbn [feed utf8_to_utf32_stream app].
  assert (G : utf8_get [a; b; c; d; e] = (-1, [e])).
  { unfold utf8_get, get_code. do 9 take_branch. arith_bits. by repeat take_branch. }
  rewrite G. simpl. rewrite utf8_get_1 by done. take_branch. simpl. by take_branch.
Qed.

(** A zero byte is never consumed: on an empty buffer the loop does not end. *)
Lemma stream_zero_hangs fuel : utf8_to_utf32_stream fuel 0 [] = None.
Proof. by induction fuel. Qed.

(** ** The conversion without terminator *)
Lemma utf16_to_utf8_one c n dest r : scalar c ->
  utf16_to_utf8_loop (length (utf16_units c) + n) dest (utf16_units c ++ r) 0 =
  utf16_to_utf8_loop n (dest ++ utf8_units c) r 0.
Proof.
  intros [Hc Hs]. rewrite utf16_units_eq by lia. unfold utf8_units.
  destruct (Z.ltb_spec c 0x10000).
  - cbn [length app Nat.add utf16_to_utf8_loop hd tl negb Z.eqb].
    destruct (Z.leb_spec c 0x7f); [done|]. destruct (Z.leb_spec c 0x7ff); [done|].
    destruct (Z.leb_spec 0xD800 c), (Z.leb_spec 0xDC00 c); try lia; repeat take_branch; done.
  - cbn [length app Nat.add utf16_to_utf8_loop hd tl negb Z.eqb].
    set (h := (c - 65536) / 1024 + 0xD800). set (l := c mod 1024 + 0xDC00).
    assert (0xD800 <= h <= 0xDBFF) by (unfold h; Z.to_euclidean_division_equations; lia).
    assert (0xDC00 <= l <= 0xDFFF) by (unfold l; Z.to_euclidean_division_equations; lia).
    assert (E : Z.shiftl (h - 0xD800) 10 + (l - 0xDC00) + 0x10000 = c)
      by (arith_bits; unfold h, l; Z.to_euclidean_division_equations; lia).
    do 6 take_branch. rewrite E. simpl. by repeat take_branch.
Qed.

(** On well-formed UTF-16 of a given size, edge pairs included, [utf16_to_utf8] appends
    the UTF-8 encoding. *)
Lemma utf16_to_utf8_encodes cs dest junk : Forall scalar cs ->
  utf16_to_utf8 dest (enc16 cs ++ junk) (Z.of_nat (length (enc16 cs))) = dest ++ enc8 cs.
Proof.
  intros Hcs. unfold utf16_to_utf8. rewrite enc16_units, enc8_units, Nat2Z.id by done. revert dest.
  induction Hcs as [|c cs Hc Hcs IH]; intros dest; simpl; [by rewrite app_nil_r|].
  rewrite length_app, <- app_assoc, utf16_to_utf8_one, IH by done. by rewrite app_assoc.
Qed.

(** A high surrogate without its partner: the unit that follows is read again, but counted
    twice, so the conversion stops one unit early. *)
Lemma utf16_to_utf8_unpaired h x src n dest : 0xD800 <= h <= 0xDBFF ->
  x < 0xDC00 \/ 0xDFFF < x ->
  utf16_to_utf8_loop (S (S n)) dest (h :: x :: src) 0 =
  utf16_to_utf8_loop n (dest ++ [0x3f]) (x :: src) 0.
Proof.
  intros Hh Hx. cbn [utf16_to_utf8_loop hd tl negb Z.eqb]. do 5 take_branch.
  simpl. destruct (Z.leb_spec 0xDC00 x); repeat take_branch; done.
Qed.

(** ** UTF-16 strings *)
Definition nonzero (s : list Z) : Prop := Forall (fun c => c <> 0) s.

Lemma u16_strnlen_eq s junk count : nonzero s -> 0 <= count ->
  u16_strnlen (s ++ 0 :: junk) count = Z.min count (Z.of_nat (length s)).
Proof.
  intros Hs. unfold u16_strnlen.
  enough (H : forall i, 0 <= count ->
    u16_strnlen_loop (s ++ 0 :: junk) count i = i + Z.min count (Z.of_nat (length s)))
    by (intros; rewrite H by done; lia).
  revert count. induction Hs as [|c s Hc Hs IH]; intros count i Hn; simpl.
  - rewrite orb_true_r. lia.
  - destruct (Z.eqb_spec count 0); simpl; [lia|]. rewrite (proj2 (Z.eqb_neq c 0) Hc).
    rewrite IH by lia. lia.
Qed.

(** [u16_strlcat] joins two strings in a buffer of [count] units, cutting the result to
    [count - 1] units, and returns the length it would have had. *)
Lemma u16_strlcat_joins d s junk junk' count :
  nonzero d -> nonzero s -> Z.of_nat (length s) <= SIZE_MAX ->
  Z.of_nat (length d) < count <= Z.of_nat (length (d ++ 0 :: junk)) ->
  exists rest,
    u16_strlcat (d ++ 0 :: junk) (s ++ 0 :: junk') count =
      (Z.of_nat (length d + length s), take (Z.to_nat (count - 1)) (d ++ s) ++ 0 :: rest) /\
    length (take (Z.to_nat (count - 1)) (d ++ s) ++ 0 :: rest) = length (d ++ 0 :: junk).
Proof.
  intros Hd Hs Hm Hc. unfold u16_strlcat, u16_strlen.
  rewrite !u16_strnlen_eq by (done || lia).
  rewrite Z.min_r, (Z.min_r SIZE_MAX) by lia. take_branch.
  set (k := if _ <=? _ then _ else _).
  assert (Hk : k = Z.min (Z.of_nat (length s)) (count - 1 - Z.of_nat (length d)))
    by (unfold k; cmp_cases; lia).
  rewrite Hk. clear k Hk. set (k := Z.min _ _).
  rewrite length_app in Hc. simpl in Hc.
  assert (T : take (Z.to_nat k) (s ++ 0 :: junk') = take (Z.to_nat k) s)
    by (apply take_app_le; lia).
  assert (R : take (Z.to_nat (count - 1)) (d ++ s) = d ++ take (Z.to_nat k) s).
  { rewrite take_app, take_ge by lia. f_equal. unfold k.
    destruct (Z.min_spec (Z.of_nat (length s)) (count - 1 - Z.of_nat (length d))) as [[? ->]|[? ->]].
    - rewrite !take_ge by lia. done.
    - f_equal. lia. }
  rewrite R, T.
  set (t := take (Z.to_nat k) s).
  assert (Lt : Z.of_nat (length t) = k) by (unfold t; rewrite length_take; lia).
  exists (drop (S (length t)) (0 :: junk)). split.
  - f_equal; [lia|]. rewrite write_at_app by (simpl; lia). rewrite app_assoc, <- Lt.
    rewrite <- Nat2Z.inj_add, <- length_app, write_at_app by (rewrite length_drop; simpl; lia).
    by rewrite drop_drop, Nat.add_1_r.
  - rewrite !length_app. simpl. rewrite length_drop. lia.
Qed.

(** ** Letter case *)
Lemma find_lower_upper e : In e CP437_CAPITALIZATION_TABLE -> lower e <> 0 ->
  utf_to_upper CP437_CAPITALIZATION_TABLE (lower e) = upper e /\
  utf_to_lower CP437_CAPITALIZATION_TABLE (upper e) = lower e.
Proof.
  simpl. intros H Hz. repeat destruct H as [<-|H]; try done; by simpl in Hz.
Qed.

(** ** Code page 437 *)
Lemma utf_to_cp_inverse j c : codepage_437 !! Z.to_nat j = Some c -> 0 < j < 0xA0 ->
  utf_to_cp c codepage_437 = (0, if j <? 0x20 then j else j + 0x60).
Proof.
  intros Hc Hj.
  assert (A : forallb (fun i => match codepage_437 !! i with
                | Some c => bool_decide (utf_to_cp c codepage_437 =
                    (0, if Z.of_nat i <? 0x20 then Z.of_nat i else Z.of_nat i + 0x60))
                | None => false end) (seq 1 159) = true) by (vm_compute; reflexivity).
  rewrite forallb_forall in A. specialize (A (Z.to_nat j) ltac:(apply in_seq; lia)).
  rewrite Hc in A. apply bool_decide_eq_true in A. rewrite Z2Nat.id in A by lia. done.
Qed.

(** ** Witnesses *)
Ltac scalars := repeat apply Forall_cons_2; try apply Forall_nil_2; unfold scalar; lia.

Lemma utf8_utf16_converts_witness :
  utf8_utf16_strncpy (Some []) (Some (enc8 [0x55; 0xE1; 0x6F5C; 0x1F600; 0x21] ++ [0])) 4 =
    Some (0, Some ([] ++ [0x55; 0xE1; 0x6F5C; 0xD83D; 0xDE00] ++ [0])).
Proof.
  apply (utf8_utf16_converts [0x55; 0xE1; 0x6F5C; 0x1F600; 0x21] [] [] 4); [scalars|lia].
Defined.

Lemma utf16_utf8_converts_witness :
  utf16_utf8_strncpy (Some []) (Some (enc16 [0x1F600; 0x1F400] ++ [0])) SIZE_MAX =
    Some (0, Some ([] ++ [0xF0; 0x9F; 0x98; 0x80; 0x3f] ++ [0])) /\
  utf16_utf8_strnlen (enc16 [0x1F600; 0x1F400] ++ [0]) SIZE_MAX = Some 5.
Proof.
  apply (utf16_utf8_converts [0x1F600; 0x1F400] [] [] 4); [scalars|lia].
Defined.

Lemma utf8_utf16_strncpy_fits_witness :
  exists w, utf8_utf16_strncpy (Some []) (Some [0x61; 0xC3; 0x62; 0xED; 0xA0; 0x80]) 9 =
    Some (0, Some w) /\ Z.of_nat (length w) <= 3 + 1.
Proof.
  apply (utf8_utf16_strncpy_fits [0x61; 0xC3; 0x62; 0xED; 0xA0; 0x80] 9 3); [|reflexivity].
  refine (bool_decide_unpack _ _). vm_compute. exact I.
Defined.

Lemma strncpy_exceeds_strnlen_witness :
  utf8_utf16_strnlen ([0xE0; 0x80; 0x80] ++ enc8 [0x61; 0x62] ++ [0]) 9 = Some 0 /\
  utf8_utf16_strncpy (Some []) (Some ([0xE0; 0x80; 0x80] ++ enc8 [0x61; 0x62] ++ [0])) 9 =
    Some (0, Some [0; 0x61; 0x62; 0]).
Proof. apply (strncpy_exceeds_strnlen [0x61; 0x62] [] 9); [scalars|lia]. Defined.

Lemma stream_decodes_witness :
  feed [0x6b; 0xc3; 0xa1; 0xe6; 0xbd; 0x9c; 0xf0; 0x9f; 0x98; 0x80] [] =
    Some ([0x6b; 0xe1; 0x6f5c; 0x1f600], []).
Proof. apply (stream_decodes [0x6b; 0xe1; 0x6f5c; 0x1f600]). scalars. Defined.

Lemma stream_stores_past_buffer_witness :
  feed [0xf0; 0x9f; 0x98; 0x61] [] = Some ([], [0xf0; 0x9f; 0x98; 0x61]) /\
  stored [0xf0; 0x9f; 0x98; 0x61] = 5 /\
  feed [0xf0; 0x9f; 0x98; 0x61; 0x62] [] = Some ([0x62], []).
Proof.
  apply (stream_stores_past_buffer 0xf0 0x9f 0x98 0x61 0x62);
    try lia; split; vm_compute; congruence.
Defined.

End Charset.
