(* ===== verification/Rtc.v ===== *)
(** * Dates and times (lib/rtc-lib.c, lib/date.c, include/rtc.h)

    Conversion between seconds since 1970 and Gregorian dates.  [int] and
    [unsigned int] values keep their width where the code converts between
    them; [/] and [%] on [int] truncate toward zero.  [unsigned long] has 64
    bits. *)

From S2P Require Import Prelude.

Module Rtc.

Record rtc_time := mk_tm {
  tm_sec : Z; tm_min : Z; tm_hour : Z; tm_mday : Z; tm_mon : Z; tm_year : Z;
  tm_wday : Z; tm_yday : Z; tm_isdst : Z }.

Definition is_leap_year (year : Z) : bool :=
  (year mod 4 =? 0) && negb (year mod 100 =? 0) || (year mod 400 =? 0).

Definition rtc_days_in_month : list Z := [31; 28; 31; 30; 31; 30; 31; 31; 30; 31; 30; 31].

Definition LEAPS_THRU_END_OF (y : Z) : Z := y / 4 - y / 100 + y / 400.

Definition rtc_month_days (month year : Z) : Z :=
  nth (Z.to_nat month) rtc_days_in_month 0 + b2z (is_leap_year year && (month =? 1)).

(** [while (days < 0)]: the year goes down and [days] up by its length. *)
Fixpoint year_loop (fuel : nat) (year days : Z) : option (Z * Z) :=
  match fuel with
  | O => None
  | S f =>
      if days <? 0 then
        let year := u32 (year - 1) in
        year_loop f year (days + (365 + b2z (is_leap_year year)))
      else Some (year, days)
  end.

(** The months from [month] on; [left] of the eleven rounds are to come. *)
Fixpoint month_loop (left : nat) (month year days : Z) : Z * Z :=
  match left with
  | O => (month, days)
  | S n =>
      let newdays := days - rtc_month_days month year in
      if newdays <? 0 then (month, days) else month_loop n (month + 1) year newdays
  end.

Definition rtc_to_tm (time : Z) : option rtc_time :=
  let days := s32 (time / 86400) in
  let secs := time mod 86400 in
  let wday := Z.rem (days + 4) 7 in
  let year := u32 (1970 + Z.quot days 365) in
  let days := s32 (days - ((year - 1970) * 365 + LEAPS_THRU_END_OF (u32 (year - 1))
                           - LEAPS_THRU_END_OF (1970 - 1))) in
  '(year, days) ← year_loop (S (Z.to_nat (- days))) year days;
  let yday := days + 1 in
  let '(month, days) := month_loop 11 0 year days in
  let hour := secs / 3600 in
  let secs := secs - hour * 3600 in
  let min := secs / 60 in
  Some (mk_tm (secs - min * 60) min hour (days + 1) (month + 1) year wday yday 0).

Definition month_offset : list Z := [0; 31; 59; 90; 120; 151; 181; 212; 243; 273; 304; 334].

(** The return value and the time with its weekday.  The days are counted from the year 1 in
    an [int], whose sum wraps around. *)
Definition rtc_calc_weekday (tm : rtc_time) : Z * rtc_time :=
  if tm_year tm <? 1753 then (-1, tm)
  else
    let last_year := tm_year tm - 1 in
    let leaps_to_date := Z.quot last_year 4 - Z.quot last_year 100 + Z.quot last_year 400 in
    let day :=
      if (Z.rem (tm_year tm) 4 =? 0) &&
         (negb (Z.rem (tm_year tm) 100 =? 0) || (Z.rem (tm_year tm) 400 =? 0)) &&
         (2 <? tm_mon tm)
      then 1 else 0 in
    let day := s32 (day + (last_year * 365 + leaps_to_date
                           + nth (Z.to_nat (tm_mon tm - 1)) month_offset 0 + tm_mday tm)) in
    (0, mk_tm (tm_sec tm) (tm_min tm) (tm_hour tm) (tm_mday tm) (tm_mon tm) (tm_year tm)
              (Z.rem day 7) (tm_yday tm) (tm_isdst tm)).

(** Conversion of an [unsigned long] to [time64_t]. *)
Definition s64 (x : Z) : Z :=
  let y := u64 x in if y <? 9223372036854775808 then y else y - 18446744073709551616.

Definition rtc_mktime (tm : rtc_time) : Z :=
  let mon := tm_mon tm - 2 in
  let '(mon, year) := if mon <=? 0 then (mon + 12, tm_year tm - 1) else (mon, tm_year tm) in
  let days :=
    u64 (u64 (Z.quot year 4 - Z.quot year 100 + Z.quot year 400 + Z.quot (367 * mon) 12
              + tm_mday tm) + year * 365 - 719499) in
  let hours := s64 (days * 24 + tm_hour tm) in
  s64 ((hours * 60 + tm_min tm) * 60 + tm_sec tm).

Definition mktime64 (year mon day hour min sec : Z) : Z :=
  rtc_mktime (mk_tm sec min hour day mon year 0 0 0).

(** ** Specification: the day number of a date *)
Definition days_before (y : Z) : Z := (y - 1970) * 365 + LEAPS_THRU_END_OF (y - 1) - 477.

(** Days of the year before a month, counted from 0. *)
Definition before_month (m y : Z) : Z :=
  nth (Z.to_nat m) month_offset 0 + b2z (is_leap_year y && (1 <? m)).

(** A date and time of the Gregorian calendar. *)
Definition valid_date (tm : rtc_time) : Prop :=
  1970 <= tm_year tm /\ 1 <= tm_mon tm <= 12 /\
  1 <= tm_mday tm <= rtc_month_days (tm_mon tm - 1) (tm_year tm) /\
  0 <= tm_hour tm < 24 /\ 0 <= tm_min tm < 60 /\ 0 <= tm_sec tm < 60.

Definition day_number (tm : rtc_time) : Z :=
  days_before (tm_year tm) + before_month (tm_mon tm - 1) (tm_year tm) + tm_mday tm - 1.

(** The days from the first whose number, or the weekday computed from it, does not fit
    [int]. *)
Definition MAX_DAYS : Z := 2147483644.

(** The first day whose number counted from the year 1 does not fit [int]. *)
Definition MAX_WEEKDAY : Z := 2146764485.

(** ** The calendar *)
Lemma leaps_step y : LEAPS_THRU_END_OF y = LEAPS_THRU_END_OF (y - 1) + b2z (is_leap_year y).
Proof.
  unfold LEAPS_THRU_END_OF, is_leap_year.
  destruct (Z.eqb_spec (y mod 4) 0), (Z.eqb_spec (y mod 100) 0), (Z.eqb_spec (y mod 400) 0);
    simpl; Z.to_euclidean_division_equations; lia.
Qed.

Lemma days_before_next y : days_before (y + 1) = days_before y + 365 + b2z (is_leap_year y).
Proof.
  unfold days_before. replace (y + 1 - 1) with y by lia. rewrite (leaps_step y). lia.
Qed.

Lemma b2z_range b : 0 <= b2z b <= 1.
Proof. destruct b; simpl; lia. Qed.

Lemma leaps_bounds y : 0 <= y -> 0 <= LEAPS_THRU_END_OF y <= y.
Proof. intros. unfold LEAPS_THRU_END_OF. Z.to_euclidean_division_equations; lia. Qed.

(** [days_before] grows, so the year of a day is unique. *)
Lemma days_before_mono y y' : y <= y' -> days_before y + 365 * (y' - y) <= days_before y'.
Proof.
  intros H. replace y' with (y + Z.of_nat (Z.to_nat (y' - y))) by lia.
  generalize (Z.to_nat (y' - y)) as n. induction n as [|n IH]; [rewrite Z.add_0_r; lia|].
  replace (y + Z.of_nat (S n)) with (y + Z.of_nat n + 1) by lia.
  rewrite days_before_next. pose proof (b2z_range (is_leap_year (y + Z.of_nat n))). lia.
Qed.

Lemma year_unique y y' d d' : days_before y + d = days_before y' + d' ->
  0 <= d < 365 + b2z (is_leap_year y) -> 0 <= d' < 365 + b2z (is_leap_year y') -> y = y' /\ d = d'.
Proof.
  intros E Hd Hd'. pose proof (days_before_next y). pose proof (days_before_next y').
  destruct (Z.lt_trichotomy y y') as [L|[->|L]].
  - pose proof (days_before_mono (y + 1) y' ltac:(lia)). lia.
  - lia.
  - pose proof (days_before_mono (y' + 1) y ltac:(lia)). lia.
Qed.

(** The year loop ends at the year of the day. *)
Lemma year_loop_finds fuel year days : (Z.to_nat (- days) < fuel)%nat ->
  days < 365 + b2z (is_leap_year year) -> 1970 <= year < 4294967296 ->
  0 <= days_before year + days ->
  exists y d, year_loop fuel year days = Some (y, d) /\
    days_before y + d = days_before year + days /\ 0 <= d < 365 + b2z (is_leap_year y) /\
    1970 <= y <= year.
Proof.
  revert year days. induction fuel as [|f IH]; intros year days Hf Hd Hy Hn; [lia|]. simpl.
  destruct (Z.ltb_spec days 0); [|exists year, days; repeat split; try lia; done].
  assert (year <> 1970).
  { intros ->. change (days_before 1970) with 0 in Hn. lia. }
  rewrite u32_small by lia.
  pose proof (days_before_next (year - 1)) as E. rewrite Z.sub_add in E.
  pose proof (b2z_range (is_leap_year (year - 1))).
  destruct (IH (year - 1) (days + (365 + b2z (is_leap_year (year - 1))))) as (y & d & -> & ? & ? & ?);
    try lia.
  exists y, d. repeat split; lia.
Qed.

(** Case analysis on a month in range. *)
Ltac month_cases m :=
  let C := fresh in
  assert (m = 0 \/ m = 1 \/ m = 2 \/ m = 3 \/ m = 4 \/ m = 5 \/ m = 6 \/ m = 7 \/ m = 8 \/ m = 9 \/
          m = 10 \/ m = 11) as C by lia;
  repeat destruct C as [->|C]; [..|subst m].

Lemma before_month_next m y : 0 <= m < 11 ->
  before_month (m + 1) y = before_month m y + rtc_month_days m y.
Proof.
  intros Hm. unfold rtc_month_days, before_month.
  destruct (is_leap_year y); month_cases m; try done; lia.
Qed.

(** The month loop splits the day of the year. *)
Lemma month_loop_finds left month year days : 0 <= month -> month + Z.of_nat left = 11 ->
  0 <= days -> before_month month year + days < 365 + b2z (is_leap_year year) ->
  let '(m, d) := month_loop left month year days in
  0 <= m <= 11 /\ 0 <= d < rtc_month_days m year /\
  before_month m year + d = before_month month year + days.
Proof.
  revert month days. induction left as [|n IH]; intros month days Hm Hl Hd Hb.
  - assert (month = 11) as -> by lia. simpl. split; [lia|]. split; [|done].
    unfold rtc_month_days. unfold before_month in Hb. simpl in *. destruct (is_leap_year year); simpl in *; lia.
  - pose proof (before_month_next month year ltac:(lia)). simpl.
    destruct (Z.ltb_spec (days - rtc_month_days month year) 0); [lia|].
    specialize (IH (month + 1) (days - rtc_month_days month year)).
    destruct (month_loop _ _ _ _) as [m d]. destruct IH as (? & ? & ?); lia.
Qed.

(** The month of a day of the year is unique. *)
Lemma month_unique m m' d d' y : 0 <= m <= 11 -> 0 <= m' <= 11 ->
  0 <= d < rtc_month_days m y -> 0 <= d' < rtc_month_days m' y ->
  before_month m y + d = before_month m' y + d' -> m = m' /\ d = d'.
Proof.
  intros Hm Hm'. unfold rtc_month_days, before_month.
  destruct (is_leap_year y); month_cases m; month_cases m'; simpl; lia.
Qed.

Lemma day_of_year m d y : 0 <= m <= 11 -> 1 <= d <= rtc_month_days m y ->
  0 <= before_month m y + d - 1 < 365 + b2z (is_leap_year y).
Proof.
  intros Hm Hd. unfold before_month, rtc_month_days in *.
  destruct (is_leap_year y); month_cases m; simpl in *; lia.
Qed.

(** ** Seconds *)
Lemma s64_small x : 0 <= x < 9223372036854775808 -> s64 x = x.
Proof. intros. unfold s64. rewrite u64_small by lia. cmp1; lia. Qed.

Lemma s32_pos x : -2147483648 <= x < 2147483648 -> s32 x = x.
Proof.
  intros. destruct (Z_lt_le_dec x 0); [|apply s32_small; lia].
  unfold s32, u32. rewrite <- (Z_mod_plus_full x 1), Z.mod_small by lia. cmp1; lia.
Qed.

Lemma month_days_bound m y : 0 <= m <= 11 -> 28 <= rtc_month_days m y <= 31.
Proof. intros Hm. unfold rtc_month_days. destruct (is_leap_year y); month_cases m; simpl; lia. Qed.

Lemma before_month_bound m y : 0 <= m <= 11 -> 0 <= before_month m y <= 335.
Proof. intros Hm. unfold before_month. destruct (is_leap_year y); month_cases m; simpl; lia. Qed.

(** Gauss's formula counts the days. *)
Lemma gauss_days m y d : 0 <= m <= 11 -> 1970 <= y ->
  let '(mon, year) := if m + 1 - 2 <=? 0 then (m + 1 - 2 + 12, y - 1) else (m + 1 - 2, y) in
  Z.quot year 4 - Z.quot year 100 + Z.quot year 400 + Z.quot (367 * mon) 12 + d + year * 365
    - 719499 = days_before y + before_month m y + d - 1.
Proof.
  intros Hm Hy. pose proof (leaps_step y) as L. unfold days_before, before_month.
  destruct (is_leap_year y); month_cases m; simpl;
    rewrite !Z.quot_div_nonneg by lia; unfold LEAPS_THRU_END_OF in *; simpl b2z in *;
    match goal with |- context [367 * ?k / 12] =>
      let v := eval vm_compute in (367 * k / 12) in change (367 * k / 12) with v
    end; lia.
Qed.

Lemma mktime_day tm : valid_date tm -> tm_year tm < 6000000 ->
  rtc_mktime tm =
    day_number tm * 86400 + (tm_hour tm * 60 + tm_min tm) * 60 + tm_sec tm.
Proof.
  intros (Hy & Hm & Hd & Hh & Hi & Hs) Hb. unfold rtc_mktime, day_number.
  pose proof (gauss_days (tm_mon tm - 1) (tm_year tm) (tm_mday tm) ltac:(lia) Hy) as G.
  rewrite Z.sub_add in G.
  pose proof (month_days_bound (tm_mon tm - 1) (tm_year tm) ltac:(lia)).
  pose proof (before_month_bound (tm_mon tm - 1) (tm_year tm) ltac:(lia)).
  assert (B : 0 <= days_before (tm_year tm) < 6000000 * 366).
  { pose proof (days_before_mono 1970 (tm_year tm) Hy).
    change (days_before 1970) with 0 in *. pose proof (leaps_bounds (tm_year tm - 1) ltac:(lia)).
    unfold days_before in *. lia. }
  destruct (if tm_mon tm - 2 <=? 0 then _ else _) as [mon year] eqn:E.
  assert (1 <= mon <= 12 /\ 1969 <= year < 6000000) as [Hmon Hyear]
    by (destruct (Z.leb_spec (tm_mon tm - 2) 0); injection E as <- <-; lia).
  set (A := Z.quot year 4 - _ + _ + _ + tm_mday tm) in *.
  assert (0 <= A < 10000000)
    by (unfold A; rewrite !Z.quot_div_nonneg by lia; Z.to_euclidean_division_equations; lia).
  rewrite (u64_small A), (u64_small (A + _ - _)) by lia.
  rewrite (s64_small (_ * 24 + _)) by lia. rewrite s64_small by lia. lia.
Qed.

(** The first guess of the year is not too early. *)
Lemma first_year days : 0 <= days < 2147483644 ->
  let y := 1970 + days / 365 in
  1970 <= y <= 5885486 /\ days - days_before y < 365 + b2z (is_leap_year y) /\
  -10000000 < days - days_before y /\ 0 <= days_before y.
Proof.
  intros Hd y.
  assert (0 <= days / 365 <= 5883516) by (Z.to_euclidean_division_equations; lia).
  assert (days - 365 < (y - 1970) * 365 <= days)
    by (unfold y; Z.to_euclidean_division_equations; lia).
  pose proof (leaps_bounds (y - 1) ltac:(lia)). pose proof (b2z_range (is_leap_year y)).
  pose proof (days_before_mono 1970 y ltac:(lia)) as M. change (days_before 1970) with 0 in M.
  unfold days_before in *. lia.
Qed.

(** ** Correctness *)

(** The date of a time: valid, with the day number, second and weekday of the time. *)
Lemma rtc_to_tm_spec time : 0 <= time < MAX_DAYS * 86400 ->
  exists tm, rtc_to_tm time = Some tm /\ valid_date tm /\ tm_year tm < 6000000 /\
    day_number tm = time / 86400 /\
    (tm_hour tm * 60 + tm_min tm) * 60 + tm_sec tm = time mod 86400 /\
    tm_wday tm = (time / 86400 + 4) mod 7 /\ tm_isdst tm = 0 /\
    tm_yday tm = before_month (tm_mon tm - 1) (tm_year tm) + tm_mday tm.
Proof.
  unfold MAX_DAYS. intros Ht. unfold rtc_to_tm.
  assert (Hd : 0 <= time / 86400 < 2147483644) by (Z.to_euclidean_division_equations; lia).
  rewrite (s32_small (time / 86400)) by lia.
  assert (Hs : 0 <= time mod 86400 < 86400) by (apply Z.mod_pos_bound; lia).
  set (days := time / 86400) in *. set (secs := time mod 86400) in *.
  rewrite Z.quot_div_nonneg, Z.rem_mod_nonneg by lia.
  destruct (first_year days Hd) as (Hy0 & Hlo & Hhi & Hb).
  rewrite (u32_small (1970 + _)) by lia. rewrite u32_small by lia.
  change (LEAPS_THRU_END_OF (1970 - 1)) with 477.
  set (y0 := 1970 + days / 365) in *.
  change ((y0 - 1970) * 365 + LEAPS_THRU_END_OF (y0 - 1) - 477) with (days_before y0).
  rewrite s32_pos by lia.
  destruct (year_loop_finds (S (Z.to_nat (- (days - days_before y0)))) y0 (days - days_before y0))
    as (y & d & -> & E & Hdy & Hy); try lia.
  unfold mbind, option_bind. cbv beta iota zeta.
  pose proof (month_loop_finds 11 0 y d) as L. destruct (month_loop 11 0 y d) as [m d'].
  change (before_month 0 y) with (0 + b2z (is_leap_year y && false)) in L.
  rewrite andb_false_r in L. simpl b2z in L.
  destruct L as (Hm & Hd' & Em); [lia..|].
  eexists. split; [reflexivity|]. unfold valid_date, day_number. simpl. rewrite Z.add_simpl_r.
  assert (0 <= secs / 3600 < 24) by (Z.to_euclidean_division_equations; lia).
  repeat split; try lia; Z.to_euclidean_division_equations; lia.
Qed.

(** The weekday of a date after 1970 follows from its day number. *)
Lemma weekday_day_number tm : valid_date tm -> day_number tm < MAX_WEEKDAY ->
  rtc_calc_weekday tm =
    (0, mk_tm (tm_sec tm) (tm_min tm) (tm_hour tm) (tm_mday tm) (tm_mon tm) (tm_year tm)
          ((day_number tm + 4) mod 7) (tm_yday tm) (tm_isdst tm)).
Proof.
  intros (Hy & Hm & Hd & _). unfold MAX_WEEKDAY, rtc_calc_weekday, day_number, before_month, days_before.
  intros Hw.
  rewrite (proj2 (Z.ltb_ge _ _)) by lia. do 2 f_equal.
  rewrite !Z.quot_div_nonneg, (Z.rem_mod_nonneg (tm_year tm) 4),
    (Z.rem_mod_nonneg (tm_year tm) 100), (Z.rem_mod_nonneg (tm_year tm) 400) by lia.
  assert (P : 0 <= nth (Z.to_nat (tm_mon tm - 1)) month_offset 0).
  { pose proof (before_month_bound (tm_mon tm - 1) (tm_year tm) ltac:(lia)) as B.
    unfold before_month in B. remember (tm_mon tm - 1) as m. assert (Hm' : 0 <= m <= 11) by lia.
    clear Heqm B. month_cases m; simpl; lia. }
  pose proof (leaps_bounds (tm_year tm - 1) ltac:(lia)) as L. unfold LEAPS_THRU_END_OF in *.
  assert (G : (tm_year tm mod 4 =? 0) &&
      (negb (tm_year tm mod 100 =? 0) || (tm_year tm mod 400 =? 0)) = is_leap_year (tm_year tm)).
  { unfold is_leap_year.
    destruct (Z.eqb_spec (tm_year tm mod 4) 0), (Z.eqb_spec (tm_year tm mod 100) 0),
      (Z.eqb_spec (tm_year tm mod 400) 0); simpl; try done;
      exfalso; Z.to_euclidean_division_equations; lia. }
  replace (1 <? tm_mon tm - 1) with (2 <? tm_mon tm) in * by (cmp_cases; lia). rewrite G.
  set (N := nth _ _ _) in *. set (K := _ / 4 - _ + _) in *.
  destruct (is_leap_year (tm_year tm) && (2 <? tm_mon tm)); simpl b2z in *;
    rewrite s32_small, Z.rem_mod_nonneg by lia;
    rewrite <- (Z_mod_plus_full (_ + 4) 102737); f_equal; lia.
Qed.

(** C36: every time whose day number fits [int] is converted to a valid date with the day
    number, the second of the day and the weekday of the time, and converting that date back
    gives the time.  Computing its weekday again gives the weekday while the days counted
    from the year 1 fit [int] as well, that is up to day 2146764484. *)
Theorem rtc_time_roundtrip time : 0 <= time < MAX_DAYS * 86400 ->
  exists tm, rtc_to_tm time = Some tm /\ valid_date tm /\ rtc_mktime tm = time /\
    tm_wday tm = (time / 86400 + 4) mod 7 /\
    (time / 86400 < MAX_WEEKDAY -> rtc_calc_weekday tm = (0, tm)).
Proof.
  intros Ht. destruct (rtc_to_tm_spec time Ht) as (tm & -> & V & Hy & Hn & Hs & Hw & _).
  exists tm. split; [done|]. split; [done|]. split; [|split; [done|intros Hd]].
  - rewrite mktime_day, Hn by done. rewrite <- Z.add_assoc, Hs.
    pose proof (Z.div_mod time 86400 ltac:(lia)). lia.
  - rewrite weekday_day_number, Hn, <- Hw by (done || by rewrite Hn). by destruct tm.
Qed.

(** Later the sum of the days wraps around: the weekday of a date in the year 5880256 comes
    out as -2, where the conversion of its time gives 2. *)
Lemma weekday_overflows :
  option_map (fun tm => (tm_year tm, tm_wday tm, tm_wday (rtc_calc_weekday tm).2))
    (rtc_to_tm (2147000000 * 86400)) = Some (5880256, 2, -2).
Proof. vm_compute. reflexivity. Qed.

(** Every valid date from 1970 on whose day number fits [int] comes back from its time:
    year, month, day, hour, minute and second are those it was made from. *)
Theorem rtc_date_roundtrip tm : valid_date tm -> day_number tm < MAX_DAYS ->
  exists tm', rtc_to_tm (rtc_mktime tm) = Some tm' /\
    tm_year tm' = tm_year tm /\ tm_mon tm' = tm_mon tm /\ tm_mday tm' = tm_mday tm /\
    tm_hour tm' = tm_hour tm /\ tm_min tm' = tm_min tm /\ tm_sec tm' = tm_sec tm.
Proof.
  intros V Hn. unfold MAX_DAYS in *. pose proof V as (Hy & Hm & Hd & Hh & Hi & Hs).
  pose proof (before_month_bound (tm_mon tm - 1) (tm_year tm) ltac:(lia)) as B.
  pose proof (days_before_mono 1970 (tm_year tm) Hy) as M. change (days_before 1970) with 0 in M.
  assert (0 <= day_number tm /\ tm_year tm < 6000000) as [Hp Hb] by (unfold day_number in *; lia).
  rewrite mktime_day by done. set (t := day_number tm * 86400 + _ + _).
  destruct (rtc_to_tm_spec t) as (tm' & -> & V' & Hb' & Hn' & Hs' & _); [unfold t, MAX_DAYS; lia|].
  exists tm'. split; [done|]. pose proof V' as (Hy' & Hm' & Hd' & Hh' & Hi' & Hs2).
  assert (t / 86400 = day_number tm) as Et by (unfold t; Z.to_euclidean_division_equations; lia).
  assert (t mod 86400 = (tm_hour tm * 60 + tm_min tm) * 60 + tm_sec tm) as Em
    by (unfold t; Z.to_euclidean_division_equations; lia).
  rewrite Et in Hn'. rewrite Em in Hs'. unfold day_number in Hn'.
  destruct (year_unique (tm_year tm') (tm_year tm)
    (before_month (tm_mon tm' - 1) (tm_year tm') + tm_mday tm' - 1)
    (before_month (tm_mon tm - 1) (tm_year tm) + tm_mday tm - 1)) as [Ey Ed]; [lia|..].
  1, 2: apply day_of_year; lia.
  rewrite Ey in *.
  destruct (month_unique (tm_mon tm' - 1) (tm_mon tm - 1) (tm_mday tm' - 1) (tm_mday tm - 1)
    (tm_year tm)) as [E1 E2]; lia || (repeat split; lia).
Qed.

(** ** Witnesses *)
Lemma rtc_time_roundtrip_witness :
  exists tm, rtc_to_tm 1709210096 = Some tm /\ valid_date tm /\ rtc_mktime tm = 1709210096 /\
    tm_wday tm = 4 /\ rtc_calc_weekday tm = (0, tm).
Proof.
  destruct (rtc_time_roundtrip 1709210096) as (tm & E & V & M & W & C); [unfold MAX_DAYS; lia|].
  exists tm. split; [exact E|]. split; [exact V|]. split; [exact M|].
  split; [exact W|apply C; reflexivity].
Defined.

Lemma rtc_date_roundtrip_witness :
  exists tm', rtc_to_tm (rtc_mktime (mk_tm 56 34 12 29 2 2024 0 0 0)) = Some tm' /\
    tm_year tm' = 2024 /\ tm_mon tm' = 2 /\ tm_mday tm' = 29 /\
    tm_hour tm' = 12 /\ tm_min tm' = 34 /\ tm_sec tm' = 56.
Proof.
  apply (rtc_date_roundtrip (mk_tm 56 34 12 29 2 2024 0 0 0)); [|reflexivity].
  unfold valid_date. simpl. change (rtc_month_days (2 - 1) 2024) with 29. lia.
Defined.
End Rtc.
