(* ===== verification/Blkcache.v ===== *)
(** * Block devices and their cache (drivers/block/blkcache.c, blk-uclass.c)

    The cache is the list of its nodes, most recently used first, with the
    counters of [_stats].  A node's [cache] is the block of memory it holds,
    which may be larger than the data in it when the block was reused; whether
    [malloc] succeeds is a parameter of [blkcache_fill].  [lbaint_t] and
    [unsigned long] have 64 bits.  Block drivers are behind the interface
    [blk_driver], whose laws are what a driver promises. *)

From S2P Require Import Prelude Bytes.

Module Blkcache.

Record block_cache_node := mk_node {
  iftype : Z; devnum : Z; nstart : Z; nblkcnt : Z; nblksz : Z; ncache : list Z }.

Record block_cache_stats := mk_stats {
  hits : Z; misses : Z; entries : Z; max_blocks_per_entry : Z; max_entries : Z }.

Record blkcache := mk_bc { block_cache : list block_cache_node; stats : block_cache_stats }.

Definition blkcache_init : blkcache := mk_bc [] (mk_stats 0 0 0 8 32).

Definition set_entries (s : block_cache_stats) (n : Z) : block_cache_stats :=
  mk_stats (hits s) (misses s) n (max_blocks_per_entry s) (max_entries s).
Definition set_counts (s : block_cache_stats) (h m : Z) : block_cache_stats :=
  mk_stats h m (entries s) (max_blocks_per_entry s) (max_entries s).

(** ** The cache *)
Definition node_covers (node : block_cache_node) (ift dn start blkcnt blksz : Z) : bool :=
  (iftype node =? ift) && (devnum node =? dn) && (nblksz node =? blksz) &&
  (nstart node <=? start) && (u64 (start + blkcnt) <=? u64 (nstart node + nblkcnt node)).

(** The first node that covers the blocks and the list without it. *)
Fixpoint find_node (l : list block_cache_node) (ift dn start blkcnt blksz : Z)
    : option (block_cache_node * list block_cache_node) :=
  match l with
  | [] => None
  | node :: r =>
      if node_covers node ift dn start blkcnt blksz then Some (node, r)
      else '(found, r) ← find_node r ift dn start blkcnt blksz; Some (found, node :: r)
  end.

Definition cache_find (c : blkcache) (ift dn start blkcnt blksz : Z)
    : option block_cache_node * blkcache :=
  match find_node (block_cache c) ift dn start blkcnt blksz with
  | Some (node, r) => (Some node, mk_bc (node :: r) (stats c))
  | None => (None, c)
  end.

(** [Some data] is the return value 1 with [data] copied to the buffer. *)
Definition blkcache_read (c : blkcache) (ift dn start blkcnt blksz : Z)
    : option (list Z) * blkcache :=
  let '(found, c) := cache_find c ift dn start blkcnt blksz in
  let s := stats c in
  match found with
  | Some node =>
      (Some (sub (ncache node) (u64 (u64 (start - nstart node) * blksz)) (u64 (blksz * blkcnt))),
       mk_bc (block_cache c) (set_counts s (u32 (hits s + 1)) (misses s)))
  | None => (None, mk_bc (block_cache c) (set_counts s (hits s) (u32 (misses s + 1))))
  end.

Definition blkcache_fill (c : blkcache) (ift dn start blkcnt blksz : Z) (buffer : list Z)
    (malloc_node malloc_cache : bool) : blkcache :=
  let s := stats c in
  if max_blocks_per_entry s <? blkcnt then c
  else if max_entries s =? 0 then c
  else
    let bytes := u64 (blksz * blkcnt) in
    (* the rest of the list, the counters and the memory of the node to fill *)
    let node :=
      if max_entries s <=? entries s then
        match last (block_cache c) with
        | Some node =>
            Some (removelast (block_cache c), set_entries s (u32 (entries s - 1)),
                  if u64 (nblkcnt node * nblksz node) <? bytes then None
                  else Some (ncache node))
        | None => None
        end
      else if malloc_node then Some (block_cache c, s, None) else None in
    match node with
    | None => c
    | Some (l, s, mem) =>
        let mem :=
          match mem with
          | Some m => Some m
          | None => if malloc_cache then Some (sub buffer 0 bytes) else None
          end in
        match mem with
        | None => mk_bc l s
        | Some m =>
            mk_bc (mk_node ift dn start blkcnt blksz (write_at m 0 (sub buffer 0 bytes)) :: l)
                  (set_entries s (u32 (entries s + 1)))
        end
    end.

Definition dropped (ift dn : Z) (node : block_cache_node) : bool :=
  (ift =? -1) || (iftype node =? ift) && (devnum node =? dn).

Fixpoint invalidate_loop (l : list block_cache_node) (ift dn n : Z)
    : list block_cache_node * Z :=
  match l with
  | [] => ([], n)
  | node :: r =>
      if dropped ift dn node then invalidate_loop r ift dn (u32 (n - 1))
      else let '(r, n) := invalidate_loop r ift dn n in (node :: r, n)
  end.
Definition blkcache_invalidate (c : blkcache) (ift dn : Z) : blkcache :=
  let '(l, n) := invalidate_loop (block_cache c) ift dn (entries (stats c)) in
  mk_bc l (set_entries (stats c) n).

Definition blkcache_configure (c : blkcache) (blocks ents : Z) : blkcache :=
  let s := stats c in
  let c :=
    if negb (blocks =? max_blocks_per_entry s) || negb (ents =? max_entries s)
    then blkcache_invalidate c (-1) 0 else c in
  mk_bc (block_cache c) (mk_stats 0 0 (entries (stats c)) blocks ents).

Definition blkcache_stats (c : blkcache) : block_cache_stats * blkcache :=
  (stats c, mk_bc (block_cache c) (set_counts (stats c) 0 0)).

Definition blkcache_free (c : blkcache) : blkcache := blkcache_invalidate c (-1) 0.

(** ** Block devices *)
Record blk_desc := mk_desc { uclass_id : Z; d_devnum : Z; blksz : Z }.

(** The operations of a driver over its own state; an operation the driver
    does not have is [None].  A read gives the number of blocks and the
    buffer. *)
Record blk_ops (S : Type) := mk_ops {
  ops_read : option (S -> blk_desc -> Z -> Z -> Z * list Z * S);
  ops_write : option (S -> blk_desc -> Z -> Z -> list Z -> Z * S);
  ops_erase : option (S -> blk_desc -> Z -> Z -> Z * S) }.
Arguments ops_read {S}. Arguments ops_write {S}. Arguments ops_erase {S}.

Definition ENOSYS : Z := 38.

Section Blk.
  Context {S : Type} (ops : blk_ops S).

(** The memory [malloc] has for the cache, and the result of setting up the
    bounce buffer when the device needs one. *)
Record conditions := mk_cond { c_node : bool; c_cache : bool; c_bounce : option Z }.

(** Return value, buffer if it was written, cache and driver. *)
Definition blk_read (c : blkcache) (s : S) (desc : blk_desc) (start blkcnt : Z) (k : conditions)
    : Z * option (list Z) * blkcache * S :=
  match ops_read ops with
  | None => (- ENOSYS, None, c, s)
  | Some read =>
      match blkcache_read c (uclass_id desc) (d_devnum desc) start blkcnt (blksz desc) with
      | (Some data, c) => (blkcnt, Some data, c, s)
      | (None, c) =>
          if default 0 (c_bounce k) =? 0 then
            let '(blks_read, buf, s) := read s desc start blkcnt in
            let c :=
              if blks_read =? blkcnt
              then blkcache_fill c (uclass_id desc) (d_devnum desc) start blkcnt (blksz desc) buf
                     (c_node k) (c_cache k)
              else c in
            (blks_read, Some buf, c, s)
          else (default 0 (c_bounce k), None, c, s)
      end
  end.

Definition blk_write (c : blkcache) (s : S) (desc : blk_desc) (start blkcnt : Z) (buf : list Z)
    (k : conditions) : Z * blkcache * S :=
  match ops_write ops with
  | None => (- ENOSYS, c, s)
  | Some write =>
      let c := blkcache_invalidate c (uclass_id desc) (d_devnum desc) in
      if default 0 (c_bounce k) =? 0 then
        let '(blks_written, s) := write s desc start blkcnt buf in (blks_written, c, s)
      else (default 0 (c_bounce k), c, s)
  end.

Definition blk_erase (c : blkcache) (s : S) (desc : blk_desc) (start blkcnt : Z)
    : Z * blkcache * S :=
  match ops_erase ops with
  | None => (- ENOSYS, c, s)
  | Some erase =>
      let c := blkcache_invalidate c (uclass_id desc) (d_devnum desc) in
      let '(ret, s) := erase s desc start blkcnt in (ret, c, s)
  end.

End Blk.

(** ** Specification *)

(** What a driver promises: a complete read gives the blocks of its device's
    medium and changes no medium, and a write or an erase changes the medium of
    its own device only. *)
Class blk_driver {S : Type} (ops : blk_ops S) (media : S -> Z -> Z -> list Z) := {
  driver_read read s desc start blkcnt n buf s' :
    ops_read ops = Some read -> read s desc start blkcnt = (n, buf, s') ->
    (forall i d, media s' i d = media s i d) /\
    (n = blkcnt -> blksz desc * blkcnt <= Z.of_nat (length buf) /\
       sub buf 0 (blksz desc * blkcnt) =
       sub (media s (uclass_id desc) (d_devnum desc)) (start * blksz desc) (blksz desc * blkcnt));
  driver_write write s desc start blkcnt buf n s' i d :
    ops_write ops = Some write -> write s desc start blkcnt buf = (n, s') ->
    (i, d) <> (uclass_id desc, d_devnum desc) -> media s' i d = media s i d;
  driver_erase erase s desc start blkcnt n s' i d :
    ops_erase ops = Some erase -> erase s desc start blkcnt = (n, s') ->
    (i, d) <> (uclass_id desc, d_devnum desc) -> media s' i d = media s i d }.

(** The counters agree with the list, which never exceeds the configured
    number of entries. *)
Definition counted (c : blkcache) : Prop :=
  entries (stats c) = Z.of_nat (length (block_cache c)) /\
  entries (stats c) <= max_entries (stats c) < 4294967296.

(** A request within the 64-bit arithmetic of the code. *)
Definition in_bounds (blksz start blkcnt : Z) : Prop :=
  0 <= start /\ 0 <= blkcnt /\ 0 <= blksz /\ start + blkcnt < 18446744073709551616 /\
  blksz * blkcnt < 18446744073709551616.

(** A node holds the blocks it stands for. *)
Definition node_ok (m : Z -> Z -> list Z) (n : block_cache_node) : Prop :=
  in_bounds (nblksz n) (nstart n) (nblkcnt n) /\
  nblksz n * nblkcnt n <= Z.of_nat (length (ncache n)) /\
  sub (ncache n) 0 (nblksz n * nblkcnt n) =
  sub (m (iftype n) (devnum n)) (nstart n * nblksz n) (nblksz n * nblkcnt n).

Definition coherent (m : Z -> Z -> list Z) (c : blkcache) : Prop :=
  Forall (node_ok m) (block_cache c).

(** ** The cache operations keep the invariants *)
Lemma find_node_split l ift dn start blkcnt bs node r :
  find_node l ift dn start blkcnt bs = Some (node, r) ->
  node_covers node ift dn start blkcnt bs = true /\ l ≡ₚ node :: r.
Proof.
  revert node r. induction l as [|x l IH]; intros node r; simpl; [done|].
  destruct (node_covers x _ _ _ _ _) eqn:E; [by intros [= -> ->]|].
  destruct (find_node l _ _ _ _ _) as [[y r']|]; simpl; [|done]. intros [= <- <-].
  destruct (IH y r' eq_refl) as [? P]. split; [done|]. rewrite P. apply Permutation_swap.
Qed.

(** A hit is a node of the list; the list keeps its nodes. *)
Lemma read_cases c ift dn start blkcnt bs :
  let '(res, c') := blkcache_read c ift dn start blkcnt bs in
  block_cache c' ≡ₚ block_cache c /\
  entries (stats c') = entries (stats c) /\ max_entries (stats c') = max_entries (stats c) /\
  match res with
  | Some data => exists node, node ∈ block_cache c /\ node_covers node ift dn start blkcnt bs = true /\
      data = sub (ncache node) (u64 (u64 (start - nstart node) * bs)) (u64 (bs * blkcnt))
  | None => True
  end.
Proof.
  unfold blkcache_read, cache_find.
  destruct (find_node _ _ _ _ _ _) as [[node r]|] eqn:E; simpl; [|done].
  apply find_node_split in E as [Hc P]. rewrite P. repeat split; try done.
  exists node. rewrite P. repeat split; [by left|done].
Qed.

Lemma hit_data m node ift dn start blkcnt bs : node_ok m node ->
  node_covers node ift dn start blkcnt bs = true -> in_bounds bs start blkcnt ->
  sub (ncache node) (u64 (u64 (start - nstart node) * bs)) (u64 (bs * blkcnt)) =
  sub (m ift dn) (start * bs) (bs * blkcnt).
Proof.
  intros ((Hs & Hc & Hz & Hb & Hx) & Hl & Hd) Hcov (? & ? & ? & ? & ?).
  unfold node_covers in Hcov. rewrite !andb_true_iff, !Z.eqb_eq, !Z.leb_le in Hcov.
  destruct Hcov as [[[[<- <-] <-] Hle] Hge]. nowrap_in Hge.
  assert (0 <= (start - nstart node) * nblksz node) by nia.
  assert ((start - nstart node) * nblksz node + nblksz node * blkcnt <= nblksz node * nblkcnt node)
    by nia.
  rewrite (u64_small (start - _)) by lia. rewrite !u64_small by nia.
  pose proof (sub_sub (ncache node) 0 (nblksz node * nblkcnt node)
    ((start - nstart node) * nblksz node) (nblksz node * blkcnt)) as E1.
  rewrite Z.add_0_l in E1. rewrite <- E1 by lia. rewrite Hd, sub_sub by nia. f_equal. nia.
Qed.

Lemma coherent_perm m c c' : block_cache c' ≡ₚ block_cache c -> coherent m c -> coherent m c'.
Proof. unfold coherent. by intros ->. Qed.

Lemma fill_node_ok m ift dn start blkcnt bs buf mem :
  in_bounds bs start blkcnt -> bs * blkcnt <= Z.of_nat (length buf) ->
  bs * blkcnt <= Z.of_nat (length mem) ->
  sub buf 0 (bs * blkcnt) = sub (m ift dn) (start * bs) (bs * blkcnt) ->
  node_ok m (mk_node ift dn start blkcnt bs (write_at mem 0 (sub buf 0 (u64 (bs * blkcnt))))).
Proof.
  intros B Hl Hm Hd. pose proof B as (? & ? & ? & ? & ?).
  assert (0 <= bs * blkcnt) by nia. rewrite u64_small by lia.
  split; [done|]. simpl. rewrite length_write_at. split; [done|].
  pose proof (length_sub buf 0 (bs * blkcnt) ltac:(lia) ltac:(lia) ltac:(lia)) as L.
  rewrite <- Hd. set (d := sub buf 0 _) in *. rewrite <- L. apply sub_write_at_same; lia.
Qed.

Lemma last_removelast {A} (l : list A) x : last l = Some x -> l = removelast l ++ [x].
Proof.
  induction l as [|y [|z l] IH]; simpl in *; [done|by intros [= ->]|]. intros H. by rewrite <- IH.
Qed.

Lemma fill_coherent m c ift dn start blkcnt bs buf a b :
  coherent m c -> counted c -> in_bounds bs start blkcnt ->
  bs * blkcnt <= Z.of_nat (length buf) ->
  sub buf 0 (bs * blkcnt) = sub (m ift dn) (start * bs) (bs * blkcnt) ->
  coherent m (blkcache_fill c ift dn start blkcnt bs buf a b) /\
  counted (blkcache_fill c ift dn start blkcnt bs buf a b).
Proof.
  intros Hc [Hn Hx] B Hl Hd. pose proof B as (? & ? & ? & ? & ?).
  assert (0 <= bs * blkcnt) by nia.
  unfold blkcache_fill. destruct (_ <? _); [done|].
  destruct (Z.eqb_spec (max_entries (stats c)) 0); [done|].
  assert (L : length (sub buf 0 (u64 (bs * blkcnt))) = Z.to_nat (bs * blkcnt)).
  { rewrite u64_small by lia. pose proof (length_sub buf 0 (bs * blkcnt)). lia. }
  destruct (Z.leb_spec (max_entries (stats c)) (entries (stats c))).
  - destruct (last (block_cache c)) as [old|] eqn:E; [|done].
    apply last_removelast in E. unfold coherent, counted in *. rewrite E in Hc, Hn.
    apply Forall_app in Hc as [Hr Ho]. rewrite Forall_singleton in Ho.
    rewrite length_app in Hn. simpl in Hn.
    destruct Ho as ((? & ? & ? & ? & ?) & Ho & _).
    assert (0 <= nblksz old * nblkcnt old) by nia.
    rewrite (u64_small (nblkcnt old * _)), (u64_small (bs * blkcnt)) by lia.
    destruct (Z.ltb_spec (nblkcnt old * nblksz old) (bs * blkcnt)); [destruct b|]; simpl;
      rewrite ?(u32_small (entries (stats c) - 1)), ?u32_small by lia;
      (split; [|split; [simpl; lia|lia]]); try done; constructor; try done;
      rewrite <- (u64_small (bs * blkcnt)) by lia; apply fill_node_ok; try done; lia.
  - destruct a; [|done]. destruct b; [|done]. unfold coherent, counted in *. simpl.
    rewrite u32_small by lia. split; [|split; [simpl; lia|lia]].
    constructor; [|done]. apply fill_node_ok; try done. lia.
Qed.

Lemma invalidate_loop_spec l ift dn n : Z.of_nat (length l) <= n < 4294967296 ->
  let '(l', n') := invalidate_loop l ift dn n in
  l' = filter (fun x => dropped ift dn x = false) l /\
  n' = n - Z.of_nat (length l) + Z.of_nat (length l').
Proof.
  revert n. induction l as [|x l IH]; intros n Hn; simpl in *; [split; [done|lia]|].
  rewrite filter_cons. destruct (dropped ift dn x) eqn:E.
  - rewrite decide_False by done. rewrite u32_small by lia.
    specialize (IH (n - 1) ltac:(lia)). destruct (invalidate_loop _ _ _ _).
    destruct IH as [-> ->]. split; [done|lia].
  - rewrite decide_True by done. specialize (IH n ltac:(lia)).
    destruct (invalidate_loop _ _ _ _). destruct IH as [-> ->]. split; [done|simpl; lia].
Qed.

Lemma invalidate_spec c ift dn : counted c ->
  counted (blkcache_invalidate c ift dn) /\
  block_cache (blkcache_invalidate c ift dn) =
    filter (fun x => dropped ift dn x = false) (block_cache c) /\
  max_entries (stats (blkcache_invalidate c ift dn)) = max_entries (stats c).
Proof.
  intros [Hn Hx]. unfold blkcache_invalidate.
  pose proof (invalidate_loop_spec (block_cache c) ift dn (entries (stats c)) ltac:(lia)) as H.
  destruct (invalidate_loop _ _ _ _) as [l n]. destruct H as [-> ->]. simpl.
  repeat split; simpl; try lia.
  pose proof (length_filter (fun x => dropped ift dn x = false) (block_cache c)). lia.
Qed.

(** What is left after an invalidation stays right when only the medium of the
    invalidated device changes. *)
Lemma invalidate_coherent m m' c ift dn : counted c -> coherent m c ->
  (forall i d, (i, d) <> (ift, dn) -> m' i d = m i d) ->
  coherent m' (blkcache_invalidate c ift dn).
Proof.
  intros Hn Hc Hm. unfold coherent in *. destruct (invalidate_spec c ift dn Hn) as (_ & -> & _).
  apply Forall_forall. intros x [Hx Hin]%list_elem_of_filter.
  rewrite Forall_forall in Hc. destruct (Hc x Hin) as (? & ? & E). repeat split; try done; try apply H.
  rewrite E. f_equal. symmetry. apply Hm. unfold dropped in Hx.
  intros [= E1 E2]. by rewrite E1, E2, !Z.eqb_refl, orb_true_r in Hx.
Qed.

(** ** Requests *)
Inductive request :=
  | Read (desc : blk_desc) (start blkcnt : Z) (k : conditions)
  | Write (desc : blk_desc) (start blkcnt : Z) (buf : list Z) (k : conditions)
  | Erase (desc : blk_desc) (start blkcnt : Z)
  | Configure (blocks ents : Z)
  | Invalidate (ift dn : Z)
  | Stats
  | Free.

Section Coherence.
  Context {S : Type} (ops : blk_ops S) (media : S -> Z -> Z -> list Z).

(** What a read found: the device and blocks asked for, the driver's state at
    the time, the return value and the buffer. *)
Record answer := mk_ans {
  a_desc : blk_desc; a_start : Z; a_blkcnt : Z; a_state : S; a_ret : Z; a_buf : option (list Z) }.

Definition serve (c : blkcache) (s : S) (r : request) : list answer * blkcache * S :=
  match r with
  | Read desc start blkcnt k =>
      let '(ret, buf, c', s') := blk_read ops c s desc start blkcnt k in
      ([mk_ans desc start blkcnt s ret buf], c', s')
  | Write desc start blkcnt buf k =>
      let '(_, c', s') := blk_write ops c s desc start blkcnt buf k in ([], c', s')
  | Erase desc start blkcnt =>
      let '(_, c', s') := blk_erase ops c s desc start blkcnt in ([], c', s')
  | Configure blocks ents => ([], blkcache_configure c blocks ents, s)
  | Invalidate ift dn => ([], blkcache_invalidate c ift dn, s)
  | Stats => ([], snd (blkcache_stats c), s)
  | Free => ([], blkcache_free c, s)
  end.

Fixpoint serve_all (c : blkcache) (s : S) (l : list request) : list answer * blkcache * S :=
  match l with
  | [] => ([], c, s)
  | r :: l =>
      let '(a, c, s) := serve c s r in
      let '(b, c, s) := serve_all c s l in (a ++ b, c, s)
  end.

(** Requests within 64 bits; setting up a bounce buffer gives zero or an error. *)
Definition request_ok (r : request) : Prop :=
  match r with
  | Read desc start blkcnt k =>
      in_bounds (blksz desc) start blkcnt /\ default 0 (c_bounce k) <= 0
  | Configure blocks ents => 0 <= ents < 4294967296
  | _ => True
  end.

(** A read that reports all its blocks gives what the medium holds. *)
Definition answer_ok (a : answer) : Prop :=
  a_ret a = a_blkcnt a ->
  exists buf, a_buf a = Some buf /\
    let d := a_desc a in
    sub buf 0 (blksz d * a_blkcnt a) =
    sub (media (a_state a) (uclass_id d) (d_devnum d)) (a_start a * blksz d) (blksz d * a_blkcnt a).

Definition good (c : blkcache) (s : S) : Prop := counted c /\ coherent (media s) c.

Context `{D : !blk_driver ops media}.

Lemma coherent_media m m' c : (forall i d, m' i d = m i d) -> coherent m c -> coherent m' c.
Proof.
  unfold coherent. intros Hm Hc. eapply Forall_impl; [exact Hc|].
  intros n (? & ? & ?). repeat split; try done; try apply H. by rewrite Hm.
Qed.

Lemma read_good c s desc start blkcnt k : good c s -> request_ok (Read desc start blkcnt k) ->
  let '(ret, buf, c', s') := blk_read ops c s desc start blkcnt k in
  good c' s' /\ answer_ok (mk_ans desc start blkcnt s ret buf).
Proof.
  intros [Hn Hc] [B Hk]. unfold blk_read, answer_ok, good. simpl.
  destruct (ops_read ops) as [read|] eqn:Er; [|split; [done|unfold ENOSYS; destruct B as (? & ? & _); lia]].
  pose proof (read_cases c (uclass_id desc) (d_devnum desc) start blkcnt (blksz desc)) as R.
  destruct (blkcache_read _ _ _ _ _ _) as [[data|] c'];
    destruct R as (P & E1 & E2 & R); pose proof (coherent_perm _ _ _ P Hc) as Hc';
    assert (Hn' : counted c') by (destruct Hn; split; rewrite ?P, ?E1, ?E2; done).
  - destruct R as (node & Hin & Hcov & ->). split; [done|]. intros _. eexists. split; [done|].
    assert (Ho : node_ok (media s) node) by (by apply (proj1 (Forall_forall _ _) Hc)).
    rewrite (hit_data _ _ _ _ _ _ _ Ho Hcov B). destruct B as (? & ? & ? & ? & ?).
    rewrite sub_sub by nia. f_equal. lia.
  - destruct (Z.eqb_spec (default 0 (c_bounce k)) 0); [|split; [done|destruct B as (? & ? & _); lia]].
    destruct (read s desc start blkcnt) as [[n buf] s'] eqn:Ed.
    destruct (driver_read _ _ _ _ _ _ _ _ Er Ed) as [Hm Hd].
    destruct (Z.eqb_spec n blkcnt) as [->|]; [|split; [split; [done|]|done]].
    + destruct (Hd eq_refl) as [Hl Hs].
      destruct (fill_coherent (media s) c' (uclass_id desc) (d_devnum desc) start blkcnt
        (blksz desc) buf (c_node k) (c_cache k) Hc' Hn' B Hl Hs) as [F G].
      split; [split; [done|by apply (coherent_media (media s))]|]. intros _. by exists buf.
    + by apply (coherent_media (media s)).
Qed.

(** A change of one medium after its device was invalidated. *)
Lemma change_good c s s' ift dn : good c s ->
  (forall i d, (i, d) <> (ift, dn) -> media s' i d = media s i d) ->
  good (blkcache_invalidate c ift dn) s'.
Proof.
  intros [Hn Hc] Hm. split; [by apply invalidate_spec|]. by apply (invalidate_coherent (media s)).
Qed.

Lemma configure_good c s blocks ents : good c s -> 0 <= ents < 4294967296 ->
  good (blkcache_configure c blocks ents) s.
Proof.
  intros [Hn Hc] He. unfold blkcache_configure.
  destruct (_ || _) eqn:E.
  - destruct (invalidate_spec c (-1) 0 Hn) as ([H1 H2] & Hl & H3).
    assert (Hnil : block_cache (blkcache_invalidate c (-1) 0) = []).
    { rewrite Hl. clear. induction (block_cache c) as [|x l IH]; [done|].
      rewrite filter_cons_False; [done|]. unfold dropped. simpl. done. }
    unfold good, counted, coherent. simpl. rewrite H1, Hnil. simpl. repeat split; try lia. constructor.
  - apply orb_false_iff in E as [_ E]. apply negb_false_iff, Z.eqb_eq in E. subst ents.
    destruct Hn. unfold good, counted. simpl. repeat split; try done; lia.
Qed.

Lemma serve_good c s r : good c s -> request_ok r ->
  let '(a, c', s') := serve c s r in good c' s' /\ Forall answer_ok a.
Proof.
  intros G Hr. destruct r as [desc start cnt k|desc start cnt buf k|desc start cnt|bl en|ift dn| |]; simpl.
  - pose proof (read_good c s desc start cnt k G Hr) as R.
    destruct (blk_read _ _ _ _ _ _ _) as [[[ret buf] c'] s']. destruct R. split; [done|]. by apply Forall_singleton.
  - unfold blk_write. destruct (ops_write ops) as [w|] eqn:Ew; [|by split; [|constructor]].
    destruct (_ =? 0); [|split; [by apply (change_good c s)|constructor]].
    destruct (w s desc start cnt buf) as [n s'] eqn:E. split; [|constructor].
    apply (change_good c s); [done|]. intros. by eapply driver_write.
  - unfold blk_erase. destruct (ops_erase ops) as [w|] eqn:Ew; [|by split; [|constructor]].
    destruct (w s desc start cnt) as [n s'] eqn:E. split; [|constructor].
    apply (change_good c s); [done|]. intros. by eapply driver_erase.
  - split; [by apply configure_good|constructor].
  - split; [by apply (change_good c s)|constructor].
  - split; [|constructor]. done.
  - split; [by apply (change_good c s)|constructor].
Qed.

Lemma serve_all_good c s l : good c s -> Forall request_ok l ->
  let '(a, c', s') := serve_all c s l in good c' s' /\ Forall answer_ok a.
Proof.
  intros G Hl. revert c s G. induction Hl as [|r l Hr Hl IH]; intros c s G; simpl; [by split; [|constructor]|].
  pose proof (serve_good c s r G Hr) as R. destruct (serve c s r) as [[a c1] s1].
  destruct R as [G1 Ha]. specialize (IH c1 s1 G1). destruct (serve_all c1 s1 l) as [[b c2] s2].
  destruct IH. split; [done|]. by apply Forall_app.
Qed.

(** C28: whatever sequence of reads, writes, erases and cache settings is served on any number
    of devices, each read that reports all its blocks gives what the medium holds at that
    time, whether it came from the cache or the driver, and the cache never holds more
    entries than configured. *)
Theorem blk_reads_coherent s l : Forall request_ok l ->
  let '(answers, c, s') := serve_all blkcache_init s l in
  Forall answer_ok answers /\ entries (stats c) = Z.of_nat (length (block_cache c)) /\
  entries (stats c) <= max_entries (stats c).
Proof.
  intros Hl. assert (G : good blkcache_init s) by (repeat split; simpl; try lia; constructor).
  pose proof (serve_all_good _ _ l G Hl) as R. destruct (serve_all _ _ _) as [[a c] s'].
  destruct R as ([[? [? _]] _] & ?). done.
Qed.
End Coherence.

(** ** What is cached *)

(** The head of the list after a fill that finds memory. *)
Lemma fill_head c ift dn start blkcnt bs buf : counted c ->
  (forall n, n ∈ block_cache c -> u64 (nblkcnt n * nblksz n) <= Z.of_nat (length (ncache n))) ->
  in_bounds bs start blkcnt -> bs * blkcnt <= Z.of_nat (length buf) ->
  blkcnt <= max_blocks_per_entry (stats c) -> 0 < max_entries (stats c) ->
  exists mem l s, blkcache_fill c ift dn start blkcnt bs buf true true =
    mk_bc (mk_node ift dn start blkcnt bs (write_at mem 0 (sub buf 0 (bs * blkcnt))) :: l) s /\
    bs * blkcnt <= Z.of_nat (length mem).
Proof.
  intros [Hn Hx] Hcap (? & ? & ? & ? & ?) Hl Hb Hm. assert (0 <= bs * blkcnt) by nia.
  unfold blkcache_fill. rewrite (proj2 (Z.ltb_ge _ _)), (proj2 (Z.eqb_neq _ _)) by lia.
  rewrite (u64_small (bs * blkcnt)) by lia.
  pose proof (length_sub buf 0 (bs * blkcnt) ltac:(lia) ltac:(lia) ltac:(lia)) as L.
  destruct (Z.leb_spec (max_entries (stats c)) (entries (stats c))).
  - destruct (last (block_cache c)) as [old|] eqn:E.
    + apply last_Some in E as [l' E]. specialize (Hcap old ltac:(rewrite E, elem_of_app; right; by left)).
      destruct (Z.ltb_spec (u64 (nblkcnt old * nblksz old)) (bs * blkcnt));
        do 3 eexists; (split; [reflexivity|lia]).
    + apply last_None in E. rewrite E in Hn. simpl in Hn. lia.
  - do 3 eexists. split; [reflexivity|lia].
Qed.

(** Blocks that were just put into the cache are found there. *)
Lemma fill_then_read c ift dn start blkcnt bs buf : counted c ->
  (forall n, n ∈ block_cache c -> u64 (nblkcnt n * nblksz n) <= Z.of_nat (length (ncache n))) ->
  in_bounds bs start blkcnt -> bs * blkcnt <= Z.of_nat (length buf) ->
  blkcnt <= max_blocks_per_entry (stats c) -> 0 < max_entries (stats c) ->
  fst (blkcache_read (blkcache_fill c ift dn start blkcnt bs buf true true) ift dn start blkcnt bs) =
    Some (sub buf 0 (bs * blkcnt)).
Proof.
  intros Hn Hcap B Hl Hb Hm.
  destruct (fill_head c ift dn start blkcnt bs buf Hn Hcap B Hl Hb Hm) as (mem & l & s & -> & Hmem).
  destruct B as (? & ? & ? & ? & ?). assert (0 <= bs * blkcnt) by nia.
  unfold blkcache_read, cache_find. simpl. unfold node_covers. simpl.
  rewrite !Z.eqb_refl, Z.leb_refl, Z.leb_refl. simpl.
  rewrite Z.sub_diag. change (u64 (u64 0 * bs)) with 0. rewrite u64_small by lia.
  pose proof (length_sub buf 0 (bs * blkcnt) ltac:(lia) ltac:(lia) ltac:(lia)) as L.
  f_equal. rewrite <- L at 2. apply sub_write_at_same; lia.
Qed.

(** The end of the request is computed modulo 2^64: the last block a 64-bit number can name
    is taken to be in every node of its device. *)
Lemma wrapped_end_hits node : 0 <= nstart node < 18446744073709551616 ->
  node_covers node (iftype node) (devnum node) 18446744073709551615 1 (nblksz node) = true.
Proof.
  intros. unfold node_covers. rewrite !Z.eqb_refl. simpl.
  pose proof (u64_range (nstart node + nblkcnt node)).
  change (u64 (18446744073709551615 + 1)) with 0.
  rewrite !(proj2 (Z.leb_le _ _)) by lia. done.
Qed.

(** ** A driver that keeps its promises: one device in memory *)
Definition in_disk (s : list Z) (desc : blk_desc) (start blkcnt : Z) : bool :=
  (uclass_id desc =? 1) && (d_devnum desc =? 0) && (0 <=? start * blksz desc) &&
  (0 <=? blksz desc * blkcnt) &&
  (start * blksz desc + blksz desc * blkcnt <=? Z.of_nat (length s)).

Definition ramdisk : blk_ops (list Z) :=
  mk_ops (list Z)
    (Some (fun s desc start blkcnt =>
       if in_disk s desc start blkcnt
       then (blkcnt, sub s (start * blksz desc) (blksz desc * blkcnt), s)
       else (blkcnt - 1, [], s)))
    (Some (fun s desc start blkcnt buf =>
       if in_disk s desc start blkcnt
       then (blkcnt, write_at s (start * blksz desc) (sub buf 0 (blksz desc * blkcnt)))
       else (-5, s)))
    (Some (fun s desc start blkcnt =>
       if in_disk s desc start blkcnt
       then (blkcnt, write_at s (start * blksz desc)
                       (replicate (Z.to_nat (blksz desc * blkcnt)) 0))
       else (-5, s))).

Definition ram_media (s : list Z) (i d : Z) : list Z := if (i =? 1) && (d =? 0) then s else [].

Lemma in_disk_device s desc start blkcnt : in_disk s desc start blkcnt = true ->
  uclass_id desc = 1 /\ d_devnum desc = 0 /\ 0 <= start * blksz desc /\ 0 <= blksz desc * blkcnt /\
  start * blksz desc + blksz desc * blkcnt <= Z.of_nat (length s).
Proof. unfold in_disk. rewrite !andb_true_iff, !Z.eqb_eq, !Z.leb_le. tauto. Qed.

(** A change of the disk does not show on another device. *)
Lemma ram_media_other s s' desc start blkcnt n new i d :
  (if in_disk s desc start blkcnt then (blkcnt, new) else (-5, s)) = (n, s') ->
  (i, d) <> (uclass_id desc, d_devnum desc) -> ram_media s' i d = ram_media s i d.
Proof.
  intros E Hne. unfold ram_media. destruct ((i =? 1) && (d =? 0)) eqn:Ei; [|done].
  rewrite andb_true_iff, !Z.eqb_eq in Ei. destruct Ei as [-> ->].
  destruct (in_disk s desc start blkcnt) eqn:Ed; [|by injection E].
  apply in_disk_device in Ed as (E1 & E2 & _). by rewrite E1, E2 in Hne.
Qed.

#[export] Instance ramdisk_driver : blk_driver ramdisk ram_media.
Proof.
  split.
  - simpl. intros read s desc start blkcnt n buf s' [= <-].
    destruct (in_disk s desc start blkcnt) eqn:E; intros [= <- <- <-]; (split; [done|]); [|lia].
    intros _. apply in_disk_device in E as (E1 & E2 & ? & ? & ?).
    unfold ram_media. rewrite E1, E2. simpl.
    pose proof (length_sub s (start * blksz desc) (blksz desc * blkcnt)).
    split; [lia|]. apply sub_all. lia.
  - simpl. intros write s desc start blkcnt buf n s' i d [= <-]. apply ram_media_other.
  - simpl. intros erase s desc start blkcnt n s' i d [= <-]. apply ram_media_other.
Qed.

(** ** Witnesses *)
Definition disk0 : blk_desc := mk_desc 1 0 2.
Definition fine : conditions := mk_cond true true None.

Lemma blk_reads_coherent_witness :
  let '(answers, c, s') := serve_all ramdisk blkcache_init [1; 2; 3; 4; 5; 6; 7; 8]
    [Read disk0 0 2 fine; Read disk0 1 1 fine; Write disk0 1 1 [9; 9] fine; Read disk0 1 1 fine] in
  Forall (answer_ok ram_media) answers /\
  entries (stats c) = Z.of_nat (length (block_cache c)) /\
  entries (stats c) <= max_entries (stats c).
Proof.
  apply (blk_reads_coherent ramdisk ram_media [1; 2; 3; 4; 5; 6; 7; 8]
    [Read disk0 0 2 fine; Read disk0 1 1 fine; Write disk0 1 1 [9; 9] fine; Read disk0 1 1 fine]).
  repeat apply Forall_cons_2; try apply Forall_nil_2; unfold request_ok, in_bounds; simpl; lia.
Defined.
End Blkcache.
