(* ===== verification/MallocSimple.v ===== *)
(** * The early heap (common/malloc_simple.c)

    Memory is handed out from one region and never taken back.  The state is
    the three fields of [gd]: [malloc_base] is an [unsigned long] of 64 bits,
    [malloc_limit] and [malloc_ptr] are [unsigned int].  A pointer is its
    address, [None] the null pointer; [map_sysmem] is the identity outside the
    sandbox board. *)

From S2P Require Import Prelude.
Local Open Scope uboot_scope.
Local Open Scope Z_scope.

Module MallocSimple.

Record gd_malloc := mk_gd { malloc_base : Z; malloc_limit : Z; malloc_ptr : Z }.

(** [ALIGN(x, a)] on [unsigned long]. *)
Definition ALIGN (x a : Z) : Z := Z.land (x +64 (a -64 1)) (u64 (Z.lnot (a -64 1))).

Definition alloc_simple (gd : gd_malloc) (bytes align : Z) : option Z * gd_malloc :=
  let addr := ALIGN (malloc_base gd +64 malloc_ptr gd) align in
  let new_ptr := (addr +64 bytes) -64 malloc_base gd in
  if malloc_limit gd <? new_ptr then (None, gd)
  else (Some addr, mk_gd (malloc_base gd) (malloc_limit gd) (u32 (ALIGN new_ptr 8))).

Definition malloc_simple (gd : gd_malloc) (bytes : Z) : option Z * gd_malloc :=
  alloc_simple gd bytes 1.

Definition memalign_simple (gd : gd_malloc) (align bytes : Z) : option Z * gd_malloc :=
  alloc_simple gd bytes align.

(** The block, the number of its bytes set to zero, and the heap. *)
Definition calloc (gd : gd_malloc) (nmemb elem_size : Z) : option (Z * Z) * gd_malloc :=
  let size := u64 (nmemb * elem_size) in
  match malloc_simple gd size with
  | (None, gd) => (None, gd)
  | (Some ptr, gd) => (Some (ptr, size), gd)
  end.

(** ** Rounding up *)
Lemma align_up x a k : a = 2 ^ k -> 0 <= k < 64 -> 0 <= x -> x + a <= 18446744073709551616 ->
  ALIGN x a = (x + a - 1) / a * a.
Proof.
  intros -> Hk Hx Hb. assert (0 < 2 ^ k) by lia.
  assert (2 ^ k <= 2 ^ 63) by (apply Z.pow_le_mono_r; lia).
  unfold ALIGN. rewrite (u64_small (2 ^ k - 1)), u64_small by lia.
  replace (x + (2 ^ k - 1)) with (x + 2 ^ k - 1) by lia. set (y := x + 2 ^ k - 1).
  replace (2 ^ k - 1) with (Z.ones k) by (rewrite Z.ones_equiv; lia).
  rewrite <- Z.shiftr_div_pow2, <- Z.shiftl_mul_pow2, <- Z.ldiff_ones_r by lia.
  unfold u64. change 18446744073709551616 with (2 ^ 64).
  apply Z.bits_inj'. intros n Hn. rewrite Z.land_spec, Z.ldiff_spec.
  destruct (Z_lt_le_dec n 64).
  - by rewrite Z.mod_pow2_bits_low, Z.lnot_spec by lia.
  - assert (Z.testbit y n = false) as ->; [|done].
    rewrite <- (Z.mod_small y (2 ^ 64)) by (unfold y; lia). apply Z.mod_pow2_bits_high. lia.
Qed.

Lemma align_up_bounds x a k : a = 2 ^ k -> 0 <= k < 64 -> 0 <= x ->
  x + a <= 18446744073709551616 -> x <= ALIGN x a < x + a /\ ALIGN x a mod a = 0.
Proof.
  intros Ha Hk Hx Hb. rewrite (align_up x a k) by done. assert (0 < a) by lia.
  split; [|apply Z.mod_mul; lia].
  pose proof (Z.div_mod (x + a - 1) a ltac:(lia)). pose proof (Z.mod_pos_bound (x + a - 1) a). lia.
Qed.

(** ** Specification *)

(** The region is in the address space, and the next free byte in reach. *)
Definition wf (gd : gd_malloc) : Prop :=
  0 <= malloc_base gd /\ 0 <= malloc_ptr gd <= malloc_limit gd + 7 /\
  malloc_limit gd < 4294967288 /\
  malloc_base gd + malloc_limit gd < 9223372036854775808.

Record block := mk_block { b_addr : Z; b_size : Z; b_align : Z }.

(** A block in the region, aligned. *)
Definition block_ok (gd : gd_malloc) (b : block) : Prop :=
  malloc_base gd <= b_addr b /\ b_addr b + b_size b <= malloc_base gd + malloc_limit gd /\
  b_addr b mod b_align b = 0.

(** Requests: a size, and an alignment that is a power of two. *)
Definition request_ok (r : Z * Z) : Prop :=
  0 <= fst r < 4611686018427387904 /\ exists k, snd r = 2 ^ k /\ 0 <= k < 62.

(** The blocks a sequence of requests gets, the last one first. *)
Fixpoint allocate (gd : gd_malloc) (l : list (Z * Z)) : list block * gd_malloc :=
  match l with
  | [] => ([], gd)
  | (bytes, align) :: r =>
      let '(p, gd) := alloc_simple gd bytes align in
      let '(bs, gd) := allocate gd r in
      (match p with Some a => mk_block a bytes align :: bs | None => bs end, gd)
  end.

Definition apart (b b' : block) : Prop := b_addr b + b_size b <= b_addr b'.

Lemma alloc_simple_spec gd bytes align : wf gd -> request_ok (bytes, align) ->
  let '(p, gd') := alloc_simple gd bytes align in
  wf gd' /\ malloc_base gd' = malloc_base gd /\ malloc_limit gd' = malloc_limit gd /\
  match p with
  | None => gd' = gd
  | Some a =>
      malloc_base gd + malloc_ptr gd <= a /\ a mod align = 0 /\
      a + bytes <= malloc_base gd + malloc_limit gd /\
      a + bytes <= malloc_base gd' + malloc_ptr gd'
  end.
Proof.
  intros (Hb & Hp & Hl & Hx) ([Hs1 Hs2] & k & Ek & Hk). simpl in Hs1, Hs2, Ek. subst align.
  unfold alloc_simple.
  assert (2 ^ k <= 2 ^ 61) by (apply Z.pow_le_mono_r; lia). assert (0 < 2 ^ k) by lia.
  rewrite (u64_small (malloc_base gd + malloc_ptr gd)) by lia.
  destruct (align_up_bounds (malloc_base gd + malloc_ptr gd) (2 ^ k) k) as [Ha Hm]; try done; try lia.
  set (a := ALIGN _ _) in *. rewrite (u64_small (a + bytes)), u64_small by lia.
  destruct (Z.ltb_spec (malloc_limit gd) (a + bytes - malloc_base gd));
    [unfold wf; repeat split; try done; lia|].
  destruct (align_up_bounds (a + bytes - malloc_base gd) 8 3) as [Hn _]; try done; try lia.
  set (n := ALIGN _ 8) in *. rewrite u32_small by lia. unfold wf. simpl.
  repeat split; try done; lia.
Qed.

Lemma allocate_spec gd l : wf gd -> Forall request_ok l ->
  let '(bs, gd') := allocate gd l in
  Forall (block_ok gd) bs /\ ForallOrdPairs apart bs /\
  Forall (fun b => malloc_base gd + malloc_ptr gd <= b_addr b) bs.
Proof.
  intros Hw Hl. revert gd Hw. induction Hl as [|[bytes align] l Hr Hl IH]; intros gd Hw; simpl.
  { repeat split; constructor. }
  pose proof (alloc_simple_spec gd bytes align Hw Hr) as A.
  destruct (alloc_simple gd bytes align) as [p gd1]. destruct A as (Hw1 & Eb & El & A).
  specialize (IH gd1 Hw1). destruct (allocate gd1 l) as [bs gd2].
  destruct IH as (Hok & Hap & Hge). unfold block_ok in *. rewrite Eb, El in *.
  destruct p as [a|]; [|by subst gd1].
  destruct A as (A1 & A2 & A3 & A4). destruct Hw as (? & ? & ? & ?).
  split; [|split]; constructor; simpl; try done.
  - repeat split; try done; lia.
  - eapply Forall_impl; [exact Hge|]. unfold apart. simpl. lia.
  - eapply Forall_impl; [exact Hge|]. simpl. destruct Hr as [[Hr _] _]. simpl in Hr. lia.
Qed.

(** The blocks that a sequence of [malloc_simple] and [memalign_simple] calls gets lie in
    the region of the early heap, have the alignment asked for and do not overlap: each ends
    before those that come later begin. *)
Theorem malloc_simple_disjoint gd l : wf gd -> Forall request_ok l ->
  let '(bs, gd') := allocate gd l in Forall (block_ok gd) bs /\ ForallOrdPairs apart bs.
Proof.
  intros Hw Hl. pose proof (allocate_spec gd l Hw Hl) as A. destruct (allocate gd l). tauto.
Qed.

(** A size close to 2^64 wraps around: the request succeeds and the heap moves back over
    memory in use. *)
Lemma malloc_simple_wraps gd n : wf gd -> malloc_ptr gd mod 8 = 0 -> n mod 8 = 0 ->
  0 < n <= malloc_ptr gd -> malloc_ptr gd <= malloc_limit gd ->
  malloc_simple gd (18446744073709551616 - n) =
    (Some (malloc_base gd + malloc_ptr gd),
     mk_gd (malloc_base gd) (malloc_limit gd) (malloc_ptr gd - n)).
Proof.
  intros (Hb & Hp & Hl & Hx) Hm Hn Hr Hle. unfold malloc_simple, alloc_simple.
  rewrite (u64_small (malloc_base gd + malloc_ptr gd)) by lia.
  assert (E : ALIGN (malloc_base gd + malloc_ptr gd) 1 = malloc_base gd + malloc_ptr gd)
    by (rewrite (align_up _ 1 0) by (done || lia); rewrite Z.div_1_r; lia).
  rewrite E.
  assert (W : u64 (u64 (malloc_base gd + malloc_ptr gd + (18446744073709551616 - n)) - malloc_base gd)
              = malloc_ptr gd - n) by mlia.
  rewrite W. rewrite (proj2 (Z.ltb_ge _ _)) by lia. do 2 f_equal.
  assert (ALIGN (malloc_ptr gd - n) 8 = malloc_ptr gd - n) as ->; [|apply u32_small; lia].
  rewrite (align_up _ 8 3) by (done || lia). Z.to_euclidean_division_equations; lia.
Qed.

(** ** Witnesses *)
Lemma malloc_simple_disjoint_witness :
  let '(bs, gd') := allocate (mk_gd 0x80000000 0x400 0) [(10, 1); (100, 64); (2000, 1); (8, 8)] in
  Forall (block_ok (mk_gd 0x80000000 0x400 0)) bs /\ ForallOrdPairs apart bs.
Proof.
  apply (malloc_simple_disjoint (mk_gd 0x80000000 0x400 0) [(10, 1); (100, 64); (2000, 1); (8, 8)]).
  - unfold wf. simpl. lia.
  - repeat apply Forall_cons_2; try apply Forall_nil_2; (split; [simpl; lia|]);
      [exists 0|exists 6|exists 0|exists 3]; (split; [reflexivity|lia]).
Defined.
End MallocSimple.
