(* ===== verification/Memsize.v ===== *)
(** * Finding the size of memory (common/memsize.c)

    [get_ram_size] writes a different word at each power of two, looks which of
    them are still there, and puts the old words back.  Memory is a function
    from cells to words; how addresses select cells is a parameter, since it is
    the hardware the code explores.  Addresses count words from [base], a [long]
    has 64 bits, and flushing caches changes nothing that is seen here. *)

From S2P Require Import Prelude.
Local Open Scope uboot_scope.
Local Open Scope Z_scope.

Module Memsize.

Definition BITS_PER_LONG : nat := 64.
Definition sizeof_long : Z := 8.

Section Hardware.
(** The cell of an address, or none; the word that is read where none answers. *)
Context (cell : Z -> option Z) (bus : Z -> Z).

Definition rd (m : Z -> Z) (a : Z) : Z := match cell a with Some c => m c | None => bus a end.
Definition wr (m : Z -> Z) (a v : Z) : Z -> Z :=
  match cell a with Some c => fun b => if b =? c then v else m b | None => m end.

(** [save] has the word saved last in front; [None] when the array is overrun.
    The fuel covers the shifts of a [long]. *)
Fixpoint probe_loop (n : nat) (cnt : Z) (save : list Z) (m : Z -> Z) : option (list Z * (Z -> Z)) :=
  match n with
  | O => None
  | S n =>
    if 0 <? cnt then
      if (length save <? BITS_PER_LONG - 1)%nat
      then probe_loop n (Z.shiftr cnt 1) (rd m cnt :: save) (wr m cnt (Z.lnot cnt))
      else None
    else Some (save, m)
  end.

Fixpoint restore_loop (n : nat) (cnt words : Z) (save : list Z) (m : Z -> Z) : option (Z -> Z) :=
  match n with
  | O => None
  | S n =>
    if cnt <? words then
      match save with
      | [] => None
      | v :: save => restore_loop n (Z.shiftl cnt 1) words save (wr m cnt v)
      end
    else Some m
  end.

(** The size in words and memory, or memory alone when all words were there. *)
Fixpoint check_loop (n : nat) (cnt words : Z) (save : list Z) (m : Z -> Z) : option (option Z * (Z -> Z)) :=
  match n with
  | O => None
  | S n =>
    if cnt <? words then
      match save with
      | [] => None
      | v :: save =>
        let val := rd m cnt in
        let m := wr m cnt v in
        if negb (val =? Z.lnot cnt) then
          m ← restore_loop n (Z.shiftl cnt 1) words save m; Some (Some cnt, m)
        else check_loop n (Z.shiftl cnt 1) words save m
      end
    else Some (None, m)
  end.

(** Two shifts more than a [long] has bits. *)
Definition FUEL : nat := 66.

Definition get_ram_size (maxsize : Z) (m : Z -> Z) : option (Z * (Z -> Z)) :=
  let words := u64 maxsize / sizeof_long in
  '(save, m) ← probe_loop FUEL (Z.shiftr words 1) [] m;
  let save_base := rd m 0 in
  let m := wr m 0 0 in
  if negb (rd m 0 =? 0) then
    m ← restore_loop FUEL 1 words save (wr m 0 save_base); Some (0, m)
  else
    '(r, m) ← check_loop FUEL 1 words save m;
    match r with
    | Some cnt => Some (cnt * sizeof_long, m)
    | None => Some (maxsize, wr m 0 save_base)
    end.
End Hardware.

(** CONFIG_MPC85xx and CFG_MAX_MEM_MAPPED. *)
Definition get_effective_memsize (mpc85xx : bool) (max_mapped : option Z) (ram_base ram_size : Z) : Z :=
  let ram_size := if mpc85xx && (ram_base +64 ram_size <? ram_base) then u64 (Z.lnot 0xfff) -64 ram_base else ram_size in
  match max_mapped with Some mx => if mx <? ram_size then mx else ram_size | None => ram_size end.

(** ** Memory whose address lines above its size are ignored *)
Section Mirror.
Context (k n : nat).

(** [2 ^ k] words that appear again and again. *)
Definition mirror (a : Z) : option Z := Some (a mod 2 ^ Z.of_nat k).
#[local] Abbreviation P j := (2 ^ Z.of_nat j).

Lemma cell_low j : (j < k)%nat -> P j mod P k = P j.
Proof. intros H. apply Z.mod_small. split; [lia|]. apply Z.pow_lt_mono_r; lia. Qed.

Lemma cell_high j : (k <= j)%nat -> P j mod P k = 0.
Proof.
  intros H. replace (Z.of_nat j) with (Z.of_nat (j - k) + Z.of_nat k) by lia.
  rewrite Z.pow_add_r by lia. apply Z_mod_mult.
Qed.

Lemma pow_inj i j : P i = P j -> i = j.
Proof. intros H. apply Z.pow_inj_r in H; lia. Qed.

Lemma pow_half j : Z.shiftr (P (S j)) 1 = P j.
Proof.
  rewrite Z.shiftr_div_pow2 by lia. replace (Z.of_nat (S j)) with (Z.of_nat j + 1) by lia.
  rewrite Z.pow_add_r by lia. apply Z.div_mul. lia.
Qed.

Lemma pow_double j : Z.shiftl (P j) 1 = P (S j).
Proof.
  rewrite Z.shiftl_mul_pow2 by lia. replace (Z.of_nat (S j)) with (Z.of_nat j + 1) by lia. by rewrite Z.pow_add_r by lia.
Qed.

(** The word saved at [2 ^ i] by a walk that starts at [2 ^ j]. *)
Definition saved (m : Z -> Z) (j i : nat) : Z :=
  if (i <? k)%nat then m (P i) else if (i =? j)%nat then m 0 else Z.lnot (P (S i)).

(** Memory after the walk. *)
Record marked (m m' : Z -> Z) (j : nat) : Prop := {
  mk_low i : (i < k)%nat -> (i <= j)%nat -> m' (P i) = Z.lnot (P i);
  mk_zero : m' 0 = if (k <=? j)%nat then Z.lnot (P k) else m 0;
  mk_other c : c <> 0 -> (forall i, (i < k)%nat -> (i <= j)%nat -> c <> P i) -> m' c = m c }.

Context (bus : Z -> Z).

Lemma rd_mirror m j : rd mirror bus m (P j) = m (if (j <? k)%nat then P j else 0).
Proof. unfold rd, mirror. destruct (Nat.ltb_spec j k); [by rewrite cell_low|by rewrite cell_high]. Qed.

Lemma wr_mirror m j v b : wr mirror m (P j) v b = if b =? (if (j <? k)%nat then P j else 0) then v else m b.
Proof. unfold wr, mirror. destruct (Nat.ltb_spec j k); [by rewrite cell_low|by rewrite cell_high]. Qed.

Lemma wr_zero m v b : wr mirror m 0 v b = if b =? 0 then v else m b.
Proof. done. Qed.

Lemma pow_pos j : 0 < P j.
Proof. lia. Qed.

(** What one step of the walk changes does not show in what is saved below. *)
Lemma saved_step m j i : (i <= j)%nat ->
  saved (wr mirror m (P (S j)) (Z.lnot (P (S j)))) j i = saved m (S j) i.
Proof.
  intros Hi. unfold saved. rewrite !wr_mirror. pose proof (pow_pos i).
  destruct (Nat.ltb_spec i k).
  - destruct (Nat.ltb_spec (S j) k); [|by replace (P i =? 0) with false by lia].
    destruct (Z.eqb_spec (P i) (P (S j))) as [E%pow_inj|]; [lia|done].
  - replace (S j <? k)%nat with false by (symmetry; apply Nat.ltb_ge; lia). replace (i =? S j)%nat with false by (symmetry; apply Nat.eqb_neq; lia).
    destruct (Nat.eqb_spec i j) as [->|]; done.
Qed.

Lemma saved_top m j : saved m j j = rd mirror bus m (P j).
Proof. rewrite rd_mirror. unfold saved. rewrite Nat.eqb_refl. by destruct (j <? k)%nat. Qed.

Lemma marked_step m m' j : marked (wr mirror m (P (S j)) (Z.lnot (P (S j)))) m' j -> marked m m' (S j).
Proof.
  intros [L Z0 O]. pose proof (pow_pos (S j)). split.
  - intros i Hk Hj. destruct (decide (i = S j)) as [->|]; [|apply L; lia].
    rewrite O; [|lia|intros i' H1 H2 E%pow_inj; lia]. rewrite wr_mirror. replace (S j <? k)%nat with true by (symmetry; apply Nat.ltb_lt; lia).
    by rewrite Z.eqb_refl.
  - rewrite Z0, wr_mirror. destruct (Nat.leb_spec k j), (Nat.leb_spec k (S j)); try lia.
    + replace k with (S j) by lia. replace (S j <? S j)%nat with false by (symmetry; apply Nat.ltb_ge; lia). done.
    + replace (S j <? k)%nat with true by (symmetry; apply Nat.ltb_lt; lia). destruct (Z.eqb_spec 0 (P (S j))); [congruence || lia|done].
  - intros c C0 Hc. rewrite O; [|done|intros i H1 H2; apply Hc; lia]. rewrite wr_mirror.
    destruct (Nat.ltb_spec (S j) k); [|by replace (c =? 0) with false by lia].
    destruct (Z.eqb_spec c (P (S j))) as [E|]; [|done]. by destruct (Hc (S j)).
Qed.

Lemma probe_loop_step fuel j save m : (length save < 63)%nat ->
  probe_loop mirror bus (S fuel) (P j) save m =
  probe_loop mirror bus fuel (Z.shiftr (P j) 1) (rd mirror bus m (P j) :: save) (wr mirror m (P j) (Z.lnot (P j))).
Proof.
  intros H. cbn [probe_loop]. pose proof (pow_pos j). replace (0 <? P j) with true by lia.
  by replace (length save <? BITS_PER_LONG - 1)%nat with true by (symmetry; apply Nat.ltb_lt; unfold BITS_PER_LONG; lia).
Qed.

Lemma probe_loop_spec j : forall fuel save m, (j + 1 < fuel)%nat -> (length save + j < 63)%nat ->
  exists m', probe_loop mirror bus fuel (P j) save m = Some (map (saved m j) (seq 0 (S j)) ++ save, m') /\ marked m m' j.
Proof.
  induction j as [|j IH]; intros fuel save m Hf Hs; (destruct fuel as [|fuel]; [lia|]); rewrite probe_loop_step by lia.
  - destruct fuel as [|fuel]; [lia|]. cbn [probe_loop]. change (Z.shiftr (P 0) 1) with 0. cbn [Z.ltb Z.compare].
    eexists. split; [by rewrite <- saved_top|]. split.
    + intros i Hk Hj. replace i with O by lia. rewrite wr_mirror. replace (0 <? k)%nat with true by (symmetry; apply Nat.ltb_lt; lia). by rewrite Z.eqb_refl.
    + rewrite wr_mirror. destruct (Nat.leb_spec k 0).
      * replace k with O by lia. done.
      * by replace (0 <? k)%nat with true by (symmetry; apply Nat.ltb_lt; lia).
    + intros c C0 Hc. rewrite wr_mirror. destruct (Nat.ltb_spec 0 k) as [H|]; [|by replace (c =? 0) with false by lia].
      destruct (Z.eqb_spec c (P 0)) as [E|]; [|done]. by destruct (Hc O).
  - rewrite pow_half. destruct (IH fuel (rd mirror bus m (P (S j)) :: save) (wr mirror m (P (S j)) (Z.lnot (P (S j)))))
      as (m' & -> & M); [lia|simpl; lia|]. exists m'. split; [|by apply marked_step]. do 2 f_equal.
    rewrite (seq_S (S j)), map_app, <- app_assoc. cbn [map app Nat.add]. rewrite saved_top. f_equal.
    apply map_ext_in. intros i Hi%in_seq. apply saved_step. lia.
Qed.

Lemma seq_cons j : (j < n)%nat -> seq j (n - j) = j :: seq (S j) (n - S j).
Proof. intros H. replace (n - j)%nat with (S (n - S j)) by lia. done. Qed.

Lemma pow_below j : (P j <? P n) = (j <? n)%nat.
Proof.
  destruct (Nat.ltb_spec j n); [apply Z.ltb_lt, Z.pow_lt_mono_r; lia|apply Z.ltb_ge, Z.pow_le_mono_r; lia].
Qed.

(** The words above the size go back one after the other to the first cell. *)
Lemma restore_spec m d : forall fuel j m2, (n - j = d)%nat -> (d < fuel)%nat -> (k <= j)%nat ->
  (forall c, c <> 0 -> m2 c = m c) -> ((n <= j)%nat -> m2 0 = m 0) ->
  exists m', restore_loop mirror fuel (P j) (P n) (map (saved m (n - 1)) (seq j (n - j))) m2 = Some m' /\ forall c, m' c = m c.
Proof.
  induction d as [|d IH]; intros fuel j m2 Hd Hf Hk O Z0; (destruct fuel as [|fuel]; [lia|]); cbn [restore_loop];
    rewrite pow_below; destruct (Nat.ltb_spec j n); try lia.
  - exists m2. split; [done|]. intros c. destruct (decide (c = 0)) as [->|]; [apply Z0; lia|by apply O].
  - rewrite seq_cons by done. cbn [map]. rewrite pow_double. apply IH; [lia|lia|lia| |].
    + intros c Hc. rewrite wr_mirror. replace (j <? k)%nat with false by (symmetry; apply Nat.ltb_ge; lia).
      replace (c =? 0) with false by lia. by apply O.
    + intros Hn. rewrite wr_mirror. replace (j <? k)%nat with false by (symmetry; apply Nat.ltb_ge; lia). cbn [Z.eqb].
      unfold saved. replace (j <? k)%nat with false by (symmetry; apply Nat.ltb_ge; lia).
      replace (n - 1)%nat with j by lia. by rewrite Nat.eqb_refl.
Qed.

(** Memory before the word at [2 ^ j] is looked at. *)
Record unchecked (m m2 : Z -> Z) (j : nat) : Prop := {
  un_low i : (j <= i)%nat -> (i < k)%nat -> (i < n)%nat -> m2 (P i) = Z.lnot (P i);
  un_zero : m2 0 = 0;
  un_other c : c <> 0 -> (forall i, (j <= i)%nat -> (i < k)%nat -> (i < n)%nat -> c <> P i) -> m2 c = m c }.

Lemma unchecked_step m m2 j : (j < k)%nat -> (j < n)%nat -> unchecked m m2 j -> unchecked m (wr mirror m2 (P j) (m (P j))) (S j).
Proof.
  intros Hk Hn [L Z0 O]. pose proof (pow_pos j).
  assert (W : forall b, wr mirror m2 (P j) (m (P j)) b = if b =? P j then m (P j) else m2 b).
  { intros b. rewrite wr_mirror. by replace (j <? k)%nat with true by (symmetry; apply Nat.ltb_lt; lia). }
  split.
  - intros i H1 H2 H3. rewrite W. destruct (Z.eqb_spec (P i) (P j)) as [E%pow_inj|]; [lia|]. apply L; lia.
  - rewrite W. destruct (Z.eqb_spec 0 (P j)); [lia|done].
  - intros c C0 Hc. rewrite W. destruct (Z.eqb_spec c (P j)) as [->|N]; [done|]. apply O; [done|].
    intros i H1 H2 H3. destruct (decide (i = j)) as [->|]; [done|]. apply Hc; lia.
Qed.

Definition checked (m : Z -> Z) (r : option Z * (Z -> Z)) : Prop :=
  if (k <? n)%nat then r.1 = Some (P k) /\ forall c, r.2 c = m c
  else r.1 = None /\ forall c, r.2 c = if c =? 0 then 0 else m c.

Lemma check_spec m d : forall fuel j m2, (n - j = d)%nat -> (d < fuel)%nat -> (j <= k)%nat -> unchecked m m2 j ->
  exists r, check_loop mirror bus fuel (P j) (P n) (map (saved m (n - 1)) (seq j (n - j))) m2 = Some r /\ checked m r.
Proof.
  induction d as [|d IH]; intros fuel j m2 Hd Hf Hj U; (destruct fuel as [|fuel]; [lia|]); cbn [check_loop];
    rewrite pow_below; destruct (Nat.ltb_spec j n); try lia.
  - exists (None, m2). split; [done|]. unfold checked. replace (k <? n)%nat with false by (symmetry; apply Nat.ltb_ge; lia).
    split; [done|]. intros c. cbn [snd]. destruct (Z.eqb_spec c 0) as [->|]; [apply U|]. apply (un_other _ _ _ U); [done|lia].
  - rewrite seq_cons by done. cbn [map]. rewrite rd_mirror, pow_double. pose proof (pow_pos j).
    destruct (Nat.ltb_spec j k).
    + rewrite (un_low _ _ _ U), Z.eqb_refl by lia. cbn [negb]. apply IH; [lia|lia|lia|].
      unfold saved at 1. replace (j <? k)%nat with true by (symmetry; apply Nat.ltb_lt; lia). by apply unchecked_step.
    + assert (j = k) as -> by lia. rewrite (un_zero _ _ _ U). destruct (Z.eqb_spec 0 (Z.lnot (P k))) as [E|_]; [unfold Z.lnot in E; lia|]. cbn [negb].
      destruct (restore_spec m d fuel (S k) (wr mirror m2 (P k) (saved m (n - 1) k))) as (m' & -> & R); [lia|lia|lia| | |].
      * intros c Hc. rewrite wr_mirror. replace (k <? k)%nat with false by (symmetry; apply Nat.ltb_ge; lia).
        replace (c =? 0) with false by lia. apply (un_other _ _ _ U); [done|lia].
      * intros Hn. rewrite wr_mirror. replace (k <? k)%nat with false by (symmetry; apply Nat.ltb_ge; lia). cbn [Z.eqb].
        unfold saved. replace (k <? k)%nat with false by (symmetry; apply Nat.ltb_ge; lia).
        replace (n - 1)%nat with k by lia. by rewrite Nat.eqb_refl.
      * exists (Some (P k), m'). split; [done|]. unfold checked. by replace (k <? n)%nat with true by (symmetry; apply Nat.ltb_lt; lia).
Qed.

Lemma marked_unchecked m m' : (0 < n)%nat -> marked m m' (n - 1) -> unchecked m (wr mirror m' 0 0) 0.
Proof.
  intros Hn [L Z0 O]. split.
  - intros i _ H1 H2. rewrite wr_zero. pose proof (pow_pos i). replace (P i =? 0) with false by lia. apply L; lia.
  - by rewrite wr_zero.
  - intros c C0 Hc. rewrite wr_zero. replace (c =? 0) with false by lia. apply O; [done|]. intros i H1 H2. apply Hc; lia.
Qed.

Lemma get_ram_size_eq m : (n <= 59)%nat ->
  exists m', get_ram_size mirror bus (8 * P n) m = Some (8 * P (Nat.min k n), m') /\ forall c, m' c = m c.
Proof.
  intros Hn. unfold get_ram_size, sizeof_long. pose proof (pow_pos n) as Pn.
  assert (Bn : P n <= 2 ^ 59) by (apply Z.pow_le_mono_r; lia). change (2 ^ 59) with 576460752303423488 in Bn.
  rewrite u64_small, (Z.mul_comm 8 (P n)), Z.div_mul by lia. destruct n as [|n1] eqn:En.
  - change (probe_loop mirror bus FUEL _ [] m) with (Some ([] : list Z, m)). cbn [mbind option_bind].
    change (rd mirror bus (wr mirror m 0 0) 0) with 0. cbn [Z.eqb negb check_loop FUEL]. rewrite Nat.min_0_r.
    change (1 <? P 0) with false. cbn [mbind option_bind]. eexists. split; [reflexivity|]. intros c. rewrite wr_zero.
    change (rd mirror bus m 0) with (m (0 mod P k)). rewrite Zmod_0_l. rewrite wr_zero. destruct (Z.eqb_spec c 0) as [->|]; done.
  - rewrite pow_half. destruct (probe_loop_spec n1 FUEL [] m) as (m1 & -> & M); [unfold FUEL; lia|simpl; lia|].
    rewrite app_nil_r. cbn [mbind option_bind]. rewrite <- En in *. replace n1 with (n - 1)%nat in * by lia.
    pose proof (marked_unchecked m m1 ltac:(lia) M) as U.
    assert (R0 : rd mirror bus m1 0 = m1 0) by (unfold rd, mirror; by rewrite Zmod_0_l).
    assert (R1 : rd mirror bus (wr mirror m1 0 0) 0 = 0) by (unfold rd, mirror; rewrite Zmod_0_l; apply U).
    rewrite R0, R1. cbn [Z.eqb negb].
    destruct (check_spec m n FUEL 0 (wr mirror m1 0 0)) as (r & E & C); [lia|unfold FUEL; lia|lia|done|].
    change (P 0) with 1 in E. rewrite Nat.sub_0_r in E. rewrite E. cbn [mbind option_bind]. destruct r as [r m2]. unfold checked in C.
    destruct (Nat.ltb_spec k n); cbn [fst snd] in C; destruct C as [-> C].
    + exists m2. rewrite Nat.min_l by lia. split; [f_equal; f_equal; lia|done].
    + eexists. rewrite Nat.min_r by lia. split; [f_equal; f_equal; lia|]. intros c. rewrite wr_zero, C, (mk_zero _ _ _ M).
      replace (k <=? n - 1)%nat with false by (symmetry; apply Nat.leb_gt; lia). by destruct (Z.eqb_spec c 0) as [->|].
Qed.

End Mirror.

(** C20: finding the memory size.  Where [2 ^ k] words of memory repeat over the
    whole range, [get_ram_size] with a maximum of [2 ^ n] words (a power of two:
    see [odd_maximum_overruns]) ends within the saved-words array, answers the
    size of the memory, or the maximum if there is more, and leaves every word of
    memory as it was. *)
Theorem get_ram_size_detects (k n : nat) (bus m : Z -> Z) : (n <= 59)%nat ->
  exists m', get_ram_size (mirror k) bus (8 * 2 ^ Z.of_nat n) m = Some (8 * 2 ^ Z.of_nat (Nat.min k n), m') /\
    forall c, m' c = m c.
Proof. apply get_ram_size_eq. Qed.

Lemma get_ram_size_detects_witness : (8 <= 59)%nat /\
  exists m', get_ram_size (mirror 5) (fun _ => 0) 2048 (fun c => c * c) = Some (256, m') /\ forall c, m' c = c * c.
Proof. split; [lia|]. exact (get_ram_size_detects 5 8 (fun _ => 0) (fun c => c * c) ltac:(lia)). Defined.

(** Where nothing answers above the memory, the first word is lost. *)
Definition four_words (a : Z) : option Z := if a <? 4 then Some a else None.

Lemma absent_memory_clears_base : exists m',
  get_ram_size four_words (fun _ => -1) 64 (fun c => 7) = Some (32, m') /\ m' 0 = 0.
Proof. eexists. split; [vm_compute; reflexivity|]. done. Qed.

(** For a maximum that is not a power of two, more words are put back than were
    saved. *)
Lemma odd_maximum_overruns : get_ram_size Some (fun _ => -1) 48 (fun c => 7) = None.
Proof. vm_compute. done. Qed.

End Memsize.
