(* ===== verification/Memtop.v ===== *)
(** * The top of usable memory (common/memtop.c)

    Before relocation there is no heap, so the reserved regions of the device
    tree are collected in arrays of fixed size.  The device tree is a parameter:
    its memory reservations and the subnodes of its reserved-memory node, in
    order.  [None] means a store behind the array. *)

From S2P Require Import Prelude.
From S2P Require Import Alist Lmb.
Local Open Scope uboot_scope.
Local Open Scope Z_scope.

Module Memtop.

Definition MEM_RGN_COUNT : nat := 16.

Record region := mk_region { base : Z; size : Z }.
Record mem_region := mk_mem_region { rgn : list region; count : nat }.

Definition set_slot (i : nat) (r : region) (l : list region) : option (list region) :=
  if (i <? length l)%nat then Some (<[i := r]> l) else None.

(** The loop from [i] down. *)
Fixpoint add_loop (i : nat) (l : list region) (b s : Z) : option (list region) :=
  match i with
  | O => set_slot 0 (mk_region b s) l
  | S i' =>
    r ← l !! i';
    if b <? base r then l ← set_slot i r l; add_loop i' l b s
    else set_slot i (mk_region b s) l
  end.

Definition add_mem_region (m : mem_region) (b s : Z) : option mem_region :=
  l ← add_loop (count m) (rgn m) b s; Some (mk_mem_region l (S (count m))).

Definition mem_regions_init : mem_region := mk_mem_region (replicate MEM_RGN_COUNT (mk_region 0 0)) 0.

(** A device tree: the check of its header, the reservations, which may fail to
    be read, and for each subnode of reserved-memory the first and last address
    of its [reg], if it has one, and whether it is enabled. *)
Record fdt := mk_fdt {
  check_header : Z;
  mem_rsv : list (option (Z * Z));
  reserved_memory : list (option (Z * Z) * bool) }.

Fixpoint add_mem_rsv (l : list (option (Z * Z))) (m : mem_region) : option mem_region :=
  match l with
  | [] => Some m
  | None :: l => add_mem_rsv l m
  | Some (addr, sz) :: l => m ← add_mem_region m addr sz; add_mem_rsv l m
  end.

Fixpoint add_reserved_memory (l : list (option (Z * Z) * bool)) (m : mem_region) : option mem_region :=
  match l with
  | [] => Some m
  | (Some (start, stop), true) :: l => m ← add_mem_region m start (u64 (stop - start + 1)); add_reserved_memory l m
  | _ :: l => add_reserved_memory l m
  end.

Definition fdt_add_reserved_regions (reserved_mem : mem_region) (f : fdt) : option (Z * mem_region) :=
  if negb (check_header f =? 0) then Some (-1, reserved_mem)
  else
    m ← add_mem_rsv (mem_rsv f) reserved_mem;
    m ← add_reserved_memory (reserved_memory f) m;
    Some (0, m).

Definition addrs_overlap (base1 size1 base2 size2 : Z) : bool :=
  let base1_end := u64 (base1 + size1 - 1) in
  let base2_end := u64 (base2 + size2 - 1) in
  (base1 <=? base2_end) && (base2 <=? base1_end).

(** The first region that overlaps; [None] is -1. *)
Definition region_overlap_check (m : mem_region) (b s : Z) : option region :=
  snd <$> list_find (fun r => addrs_overlap b s (base r) (size r) = true) (take (count m) (rgn m)).

(** The inner loop; [None] when it leaves the free region. *)
Fixpoint fit_loop (n : nat) (reserved : mem_region) (rgnbase b s : Z) : option Z :=
  match n with
  | O => None
  | S n =>
    if negb (b =? 0) && (rgnbase <=? b) then
      match region_overlap_check reserved b s with
      | None => Some b
      | Some r => if base r <? s then None else fit_loop n reserved rgnbase (base r -64 s) s
      end
    else None
  end.

Fixpoint top_loop (i : nat) (free reserved : mem_region) (s : Z) : Z :=
  match i with
  | O => 0
  | S i =>
    match rgn free !! i with
    | Some r =>
      if size r <? s then top_loop i free reserved s
      else
        match fit_loop (S (count reserved)) reserved (base r) (u64 (base r + size r - s)) s with
        | Some b => b
        | None => top_loop i free reserved s
        end
    | None => 0
    end
  end.

Definition find_ram_top (free reserved : mem_region) (s : Z) : Z := top_loop (count free) free reserved s.

Definition get_mem_top (ram_start ram_size s : Z) (f : fdt) : option Z :=
  free_mem ← add_mem_region mem_regions_init ram_start ram_size;
  '(i, reserved_mem) ← fdt_add_reserved_regions mem_regions_init f;
  if i <? 0 then Some 0 else Some (find_ram_top free_mem reserved_mem s).

(** ** The regions of the device tree *)
Definition live (m : mem_region) : list region := take (count m) (rgn m).

(** The array holds the regions of a list, in some order. *)
Definition holds (m : mem_region) (l : list region) : Prop :=
  live m ≡ₚ l /\ length (rgn m) = MEM_RGN_COUNT /\ count m = length l.

Lemma set_slot_mid p x q r : set_slot (length p) r (p ++ x :: q) = Some (p ++ r :: q).
Proof.
  unfold set_slot. rewrite length_app. simpl. replace (_ <? _)%nat with true by (symmetry; apply Nat.ltb_lt; lia).
  by rewrite insert_app_r_alt, Nat.sub_diag by lia.
Qed.

Lemma add_loop_spec b s p : forall x q junk,
  exists l, add_loop (length p) (p ++ x :: q ++ junk) b s = Some (l ++ junk) /\ l ≡ₚ mk_region b s :: p ++ q.
Proof.
  induction p as [|r p IH] using rev_ind; intros x q junk.
  - exists (mk_region b s :: q). split; [apply (set_slot_mid [])|done].
  - rewrite length_app, Nat.add_1_r. cbn [add_loop]. rewrite <- app_assoc. cbn [app].
    rewrite list_lookup_middle by done. cbn [mbind option_bind].
    pose proof (set_slot_mid (p ++ [r]) x (q ++ junk)) as E. rewrite length_app, Nat.add_1_r in E.
    setoid_rewrite <- app_assoc in E. cbn [app] in E. destruct (b <? base r).
    + rewrite E. cbn [mbind option_bind]. destruct (IH r (r :: q) junk) as (l & El & P). cbn [app] in El. rewrite El. exists l. split; [done|].
      by rewrite P, <- app_assoc.
    + rewrite E. exists (p ++ r :: mk_region b s :: q). split; [by rewrite <- app_assoc|].
      rewrite <- (app_assoc p [r] q). cbn [app]. change (r :: mk_region b s :: q) with ([r; mk_region b s] ++ q).
      solve_Permutation.
Qed.

Lemma add_holds m l b s : holds m l -> (length l < MEM_RGN_COUNT)%nat ->
  exists m', add_mem_region m b s = Some m' /\ holds m' (mk_region b s :: l).
Proof.
  intros (P & L & C) Hl. unfold add_mem_region. assert (Lp : length (live m) = count m).
  { unfold live. rewrite length_take. lia. }
  destruct (drop (count m) (rgn m)) as [|x junk] eqn:D.
  { apply (f_equal length) in D. rewrite length_drop in D. simpl in D. lia. }
  destruct (add_loop_spec b s (live m) x [] junk) as (l' & E & P'). rewrite app_nil_r in P'. cbn [app] in E.
  rewrite <- D in E. unfold live in E at 2. rewrite take_drop, Lp in E. rewrite E. cbn [mbind option_bind].
  eexists. split; [reflexivity|]. unfold holds, live. cbn [rgn count].
  assert (Ll : length l' = S (count m)) by (rewrite P'; simpl; by rewrite Lp). split_and!.
  - rewrite <- Ll, take_app_length, P'. by rewrite P.
  - apply (f_equal length) in D. rewrite length_drop in D. simpl in D. rewrite length_app. lia.
  - simpl. lia.
Qed.

Definition rsv_regions (f : fdt) : list region :=
  omap (fun x => '(a, s) ← x; Some (mk_region a s)) (mem_rsv f).
Definition node_regions (f : fdt) : list region :=
  omap (fun x => if x.2 : bool then '(a, e) ← x.1; Some (mk_region a (u64 (e - a + 1))) else None) (reserved_memory f).

Lemma add_mem_rsv_holds rs : forall m l,
  holds m l -> (length (omap (fun x => '(a, s) ← x; Some (mk_region a s)) rs) + length l <= MEM_RGN_COUNT)%nat ->
  exists m', add_mem_rsv rs m = Some m' /\ holds m' (rev (omap (fun x => '(a, s) ← x; Some (mk_region a s)) rs) ++ l).
Proof.
  induction rs as [|[[a s]|] rs IH]; intros m l H Hl; cbn [add_mem_rsv]; [by exists m| |by apply IH].
  change (omap _ (Some (a, s) :: rs)) with (mk_region a s :: omap (fun x => '(a, s) ← x; Some (mk_region a s)) rs) in *.
  cbn [length] in Hl. destruct (add_holds m l a s H) as (m1 & -> & H1); [lia|]. cbn [mbind option_bind].
  destruct (IH m1 _ H1) as (m2 & E2 & H2); [simpl; lia|]. exists m2. split; [done|]. cbn [rev]. by rewrite <- app_assoc.
Qed.

#[local] Abbreviation node_region :=
  (fun x : option (Z * Z) * bool => if x.2 : bool then '(a, e) ← x.1; Some (mk_region a (u64 (e - a + 1))) else None).

Lemma add_reserved_memory_holds rs : forall m l,
  holds m l -> (length (omap node_region rs) + length l <= MEM_RGN_COUNT)%nat ->
  exists m', add_reserved_memory rs m = Some m' /\ holds m' (rev (omap node_region rs) ++ l).
Proof.
  induction rs as [|[[[a e]|] [|]] rs IH]; intros m l H Hl; cbn [add_reserved_memory]; [by exists m| |by apply IH..].
  change (omap _ ((Some (a, e), true) :: rs)) with (mk_region a (u64 (e - a + 1)) :: omap node_region rs) in *.
  cbn [length] in Hl. destruct (add_holds m l a (u64 (e - a + 1)) H) as (m1 & -> & H1); [lia|]. cbn [mbind option_bind].
  destruct (IH m1 _ H1) as (m2 & E2 & H2); [simpl; lia|]. exists m2. split; [done|]. cbn [rev]. by rewrite <- app_assoc.
Qed.

Lemma init_holds : holds mem_regions_init [].
Proof. done. Qed.

Definition reserved_regions (f : fdt) : list region := rsv_regions f ++ node_regions f.

Lemma reserved_holds f : check_header f = 0 -> (length (reserved_regions f) <= MEM_RGN_COUNT)%nat ->
  exists m, fdt_add_reserved_regions mem_regions_init f = Some (0, m) /\ holds m (reserved_regions f).
Proof.
  intros Hc Hl. unfold fdt_add_reserved_regions, reserved_regions in *. rewrite Hc. cbn [Z.eqb negb]. rewrite length_app in Hl.
  destruct (add_mem_rsv_holds (mem_rsv f) mem_regions_init [] init_holds) as (m1 & -> & H1); [unfold rsv_regions in Hl; simpl; lia|].
  cbn [mbind option_bind].
  destruct (add_reserved_memory_holds (reserved_memory f) m1 _ H1) as (m2 & -> & H2).
  { rewrite app_nil_r, length_rev. unfold rsv_regions, node_regions in Hl. lia. }
  cbn [mbind option_bind]. exists m2. split; [done|]. destruct H2 as (P & L & C). rewrite app_nil_r in *.
  split_and!; [|done|].
  - rewrite P. unfold rsv_regions, node_regions. rewrite <- !Permutation_rev. apply Permutation_app_comm.
  - rewrite C, !length_app, !length_rev. unfold rsv_regions, node_regions. lia.
Qed.

(** ** The search *)
Definition region_ok (r : region) : Prop := Lmb.range_ok (base r) (size r).
Definition apart (b s : Z) (r : region) : Prop := b + s <= base r \/ base r + size r <= b.

Lemma overlap_apart b s r : Lmb.range_ok b s -> region_ok r -> addrs_overlap b s (base r) (size r) = false <-> apart b s r.
Proof.
  intros Hb Hr. pose proof (Lmb.overlap_spec b s (base r) (size r) Hb Hr) as E. unfold Lmb.lmb_addrs_overlap in E.
  unfold addrs_overlap. rewrite E. unfold apart. rewrite andb_false_iff, !Z.ltb_ge. lia.
Qed.

Lemma overlap_check_spec m b s : Lmb.range_ok b s -> Forall region_ok (live m) ->
  match region_overlap_check m b s with
  | None => Forall (apart b s) (live m)
  | Some r => r ∈ live m /\ ~ apart b s r
  end.
Proof.
  intros Hb Hl. unfold region_overlap_check. fold (live m). rewrite Forall_forall in Hl.
  destruct (list_find _ (live m)) as [[i r]|] eqn:F; cbn [fmap option_fmap option_map snd].
  - apply list_find_Some in F as (F1 & F2 & _). assert (Hr : r ∈ live m) by (by eapply list_elem_of_lookup_2).
    split; [done|]. intros A. apply (overlap_apart b s r Hb (Hl r Hr)) in A. congruence.
  - apply list_find_None in F. rewrite Forall_forall in F. apply Forall_forall. intros r Hr.
    apply (overlap_apart b s r Hb (Hl r Hr)). apply not_true_is_false, F, Hr.
Qed.

(** The regions that may still be in the way. *)
Definition below (top : Z) (l : list region) : nat := length (List.filter (fun r => base r <? top) l).

Lemma below_step l r top top' : r ∈ l -> top' <= base r < top -> (below top' l < below top l)%nat.
Proof.
  intros Hr Ht. unfold below. induction l as [|x l IH]; [by apply elem_of_nil in Hr|]. cbn [List.filter].
  assert (M : (below top' l <= below top l)%nat).
  { clear IH Hr. unfold below. induction l as [|y l IHl]; [done|]. cbn [List.filter].
    destruct (Z.ltb_spec (base y) top'), (Z.ltb_spec (base y) top); simpl; lia. }
  unfold below in M. apply elem_of_cons in Hr as [<-|Hr].
  - replace (base r <? top') with false by lia. replace (base r <? top) with true by lia. simpl. lia.
  - specialize (IH Hr). destruct (Z.ltb_spec (base x) top'), (Z.ltb_spec (base x) top); simpl; lia.
Qed.

(** [c] is a place at or below [b]. *)
Definition place (l : list region) (lo b s c : Z) : Prop := 0 < c /\ lo <= c <= b /\ Forall (apart c s) l.

Lemma fit_loop_spec m lo s n : forall b, Forall region_ok (live m) -> 0 < s -> 0 <= lo -> 0 <= b -> b + s < Lmb.TOP ->
  (below (b + s) (live m) < n)%nat ->
  match fit_loop n m lo b s with
  | Some c => place (live m) lo b s c /\ forall c', place (live m) lo b s c' -> c' <= c
  | None => forall c, ~ place (live m) lo b s c
  end.
Proof.
  induction n as [|n IH]; intros b Hl Hs Hlo Hb Ht Hn; [lia|]. cbn [fit_loop].
  destruct (negb (b =? 0) && (lo <=? b)) eqn:G; [|intros c (P1 & P2 & _); lia].
  apply andb_true_iff in G as [G1 G2]. apply negb_true_iff, Z.eqb_neq in G1. apply Z.leb_le in G2.
  pose proof (overlap_check_spec m b s ltac:(split_and!; lia) Hl) as C. destruct (region_overlap_check m b s) as [r|].
  - destruct C as [Hr N]. rewrite Forall_forall in Hl. pose proof (Hl r Hr) as (R1 & R2 & R3). unfold apart in N.
    assert (Lower : forall c, place (live m) lo b s c -> c <= base r - s).
    { intros c (P1 & P2 & P3). rewrite Forall_forall in P3. specialize (P3 r Hr). unfold apart in P3. lia. }
    destruct (Z.ltb_spec (base r) s) as [L|L]; [intros c P; specialize (Lower c P); destruct P; lia|].
    rewrite u64_small by (unfold Lmb.TOP in *; lia).
    assert (Same : forall c, place (live m) lo b s c <-> place (live m) lo (base r - s) s c).
    { intros c. split; [intros P; specialize (Lower c P)|intros P]; destruct P as (P1 & P2 & P3); split_and!; try done; lia. }
    pose proof (IH (base r - s)) as I. rewrite <- Forall_forall in Hl.
    specialize (I Hl Hs Hlo ltac:(lia) ltac:(unfold Lmb.TOP in *; lia)). destruct (fit_loop n m lo (base r - s) s).
    + destruct I as [I1 I2]; [|split; [by apply Same|intros c' P; by apply I2, Same]].
      pose proof (below_step (live m) r (b + s) (base r - s + s) Hr). lia.
    + intros c P. apply Same in P. revert P. apply I. pose proof (below_step (live m) r (b + s) (base r - s + s) Hr). lia.
  - split; [split_and!; [lia|lia|lia|done]|]. intros c (P1 & P2 & _). lia.
Qed.

(** [c] can be the bottom of [s] usable bytes. *)
Definition usable (ram_start ram_size s : Z) (l : list region) (c : Z) : Prop :=
  0 < c /\ ram_start <= c /\ c + s <= ram_start + ram_size /\ Forall (apart c s) l.

Lemma below_le top l : (below top l <= length l)%nat.
Proof. unfold below. induction l as [|x l IH]; [done|]. cbn [List.filter]. destruct (base x <? top); simpl; lia. Qed.

Lemma one_region b s : exists l, add_mem_region mem_regions_init b s = Some (mk_mem_region (mk_region b s :: l) 1).
Proof. eexists. reflexivity. Qed.


(** 64 MiB with two overlapping reservations at its end. *)
Definition sample_fdt : fdt :=
  mk_fdt 0 [Some (0x43000000, 0x1000000)] [(Some (0x42f00000, 0x430fffff), true); (Some (0x40000000, 0x4000ffff), false)].


Lemma sample_mem_top : get_mem_top 0x40000000 0x4000000 0x100000 sample_fdt = Some 0x42e00000.
Proof. vm_compute. done. Qed.

(** Nine reservations and eight nodes, both fewer than the 16 that are asserted,
    are stored behind the array. *)
Lemma too_many_reservations :
  get_mem_top 0 0x4000000 4096 (mk_fdt 0 (replicate 9 (Some (4096, 4096))) (replicate 8 (Some (8192, 12287), true))) = None.
Proof. vm_compute. done. Qed.

End Memtop.
