(* ===== verification/Cli.v ===== *)
(** * The simple command line (common/cli_simple.c)

    Strings are lists of characters without the terminating zero.  The
    environment is a parameter, [env name] being the value of a variable;
    commands are executed by a parameter over a state of their own.  The sizes
    [CONFIG_SYS_CBSIZE] and [CONFIG_SYS_MAXARGS] are parameters. *)

From Stdlib Require Import String Ascii.
From S2P Require Import Prelude.

Module Cli.

(** Characters the parser looks at. *)
Definition BACKSLASH : Z := 92.
Definition QUOTE : Z := 39.
Definition DOLLAR : Z := 36.
Definition SEMICOLON : Z := 59.
Definition NEWLINE : Z := 10.
Definition opens (c : Z) : bool := (c =? 40) || (c =? 123).
Definition closes (c : Z) : bool := (c =? 41) || (c =? 125).
Definition isblank (c : Z) : bool := (c =? 32) || (c =? 9).

(** ** Macros *)
Section Macros.
  Context (env : list Z -> option (list Z)).

(** The characters stored and how many more fit, the state of the parser (0 to
    3 as in the source), the string at [varname_start] and the largest number
    of bytes stored in [envname]. *)
Record macros := mk_mac {
  output : list Z; outputcnt : Z; state : Z; varname : list Z; named : Z }.

Definition set_state (m : macros) (st : Z) : macros :=
  mk_mac (output m) (outputcnt m) st (varname m) (named m).
Definition put_char (m : macros) (c : Z) : macros :=
  mk_mac (output m ++ [c]) (outputcnt m - 1) (state m) (varname m) (named m).

(** The closing bracket: [input] is what follows it. *)
Definition close_var (m : macros) (input : list Z) : macros :=
  let envcnt := Z.of_nat (length (varname m)) - Z.of_nat (length input) - 1 in
  let envname := take (Z.to_nat envcnt) (varname m) in
  let val :=
    match env envname with
    | Some envval => take (Z.to_nat (outputcnt m)) envval
    | None => []
    end in
  mk_mac (output m ++ val) (outputcnt m - Z.of_nat (length val)) 0 (varname m)
         (Z.max (named m) (envcnt + 1)).

(** [switch (state)] *)
Definition macros_switch (m : macros) (c prev : Z) (input : list Z) : macros :=
  if state m =? 0 then
    if (c =? QUOTE) && negb (prev =? BACKSLASH) then set_state m 3
    else if (c =? DOLLAR) && negb (prev =? BACKSLASH) then set_state m 1
    else put_char m c
  else if state m =? 1 then
    if opens c then mk_mac (output m) (outputcnt m) 2 input (named m)
    else
      let m := put_char (set_state m 0) DOLLAR in
      if negb (outputcnt m =? 0) then put_char m c else m
  else if state m =? 2 then
    if closes c then close_var m input else m
  else
    if (c =? QUOTE) && negb (prev =? BACKSLASH) then set_state m 0 else put_char m c.

(** [inputcnt] and the parser when the loop ends; [None] is a loop out of fuel. *)
Fixpoint macros_loop (fuel : nat) (input : list Z) (inputcnt : Z) (m : macros) (prev : Z)
    : option (Z * macros) :=
  match fuel with
  | O => None
  | S f =>
      if (inputcnt =? 0) || (outputcnt m =? 0) then Some (inputcnt, m)
      else
        let c := hd 0 input in
        let input := tl input in
        let inputcnt := inputcnt - 1 in
        if negb (state m =? 3) && ((c =? BACKSLASH) && negb (prev =? BACKSLASH)) then
          if inputcnt =? 0 then Some (inputcnt - 1, m)
          else
            let prev := c in
            let c := hd 0 input in
            let input := tl input in
            macros_loop f input (inputcnt - 1) (macros_switch m c prev input) c
        else macros_loop f input inputcnt (macros_switch m c prev input) c
  end.

(** The return value, the string in the output and the bytes of [envname] used.
    When the output is full its last character becomes the terminator. *)
Definition cli_simple_process_macros (input : list Z) (max_size : Z)
    : option (Z * list Z * Z) :=
  '(inputcnt, m) ←
    macros_loop (S (length input)) input (Z.of_nat (length input)) (mk_mac [] max_size 0 [] 0) 0;
  Some (if negb (outputcnt m =? 0)
        then (if inputcnt =? 0 then 0 else - ENOSPC, output m, named m)
        else (- ENOSPC, removelast (output m), named m)).

End Macros.

(** ** Arguments *)
Fixpoint skip_blanks (line : list Z) : list Z :=
  match line with
  | [] => []
  | c :: r => if isblank c then skip_blanks r else line
  end.
Fixpoint word (line : list Z) : list Z * list Z :=
  match line with
  | [] => ([], [])
  | c :: r => if isblank c then ([], line) else let '(w, r) := word r in (c :: w, r)
  end.

(** The arguments, and whether [argv] was ended with a null pointer.  [left]
    is the number of arguments that may still come. *)
Fixpoint parse_loop (left : nat) (line : list Z) : list (list Z) * bool :=
  match left with
  | O => ([], false)
  | S n =>
      match skip_blanks line with
      | [] => ([], true)
      | c :: r =>
          match word (c :: r) with
          | (w, []) => ([w], true)
          | (w, _ :: rest) => let '(args, ended) := parse_loop n rest in (w :: args, ended)
          end
      end
  end.
Definition cli_simple_parse_line (maxargs : Z) (line : list Z) : list (list Z) * bool :=
  parse_loop (Z.to_nat maxargs) line.

(** ** Commands *)
Section Commands.
  Context (CONFIG_SYS_CBSIZE CONFIG_SYS_MAXARGS : Z).
  Context {S : Type} (env : S -> list Z -> option (list Z)).
  (** [cmd_process]: flag, arguments and [repeatable] give the result, the new
      [repeatable] and the state. *)
  Context (cmd_process : S -> Z -> list (list Z) -> Z -> Z * Z * S).
  Context (had_ctrlc : S -> bool) (clear_ctrlc : S -> S).

(** The token up to an unquoted, unescaped semicolon, and what follows it.
    [prev] is the character before; [start] says that [sep == str]. *)
Fixpoint split_token (s : list Z) (start : bool) (prev : Z) (inquotes : bool)
    : list Z * option (list Z) :=
  match s with
  | [] => ([], None)
  | c :: r =>
      let inquotes :=
        if (c =? QUOTE) && negb (prev =? BACKSLASH) then negb inquotes else inquotes in
      if negb inquotes && (c =? SEMICOLON) && negb start && negb (prev =? BACKSLASH)
      then ([], Some r)
      else let '(token, rest) := split_token r false c inquotes in (c :: token, rest)
  end.

(** The result and the state; [None] is a loop out of fuel.  [below] is the
    byte before the string: what precedes the buffer for the first token, the
    zero that ended the token before for the others. *)
Fixpoint run_loop (fuel : nat) (str : list Z) (below : Z) (flag rc repeatable : Z) (s : S)
    : option (Z * S) :=
  match fuel with
  | O => None
  | Datatypes.S f =>
      match str with
      | [] => Some (if rc =? 0 then repeatable else rc, s)
      | _ =>
          let '(token, rest) := split_token str true below false in
          let str := default [] rest in
          '(_, finaltoken, _) ← cli_simple_process_macros (env s) token CONFIG_SYS_CBSIZE;
          match fst (cli_simple_parse_line CONFIG_SYS_MAXARGS finaltoken) with
          | [] => run_loop f str 0 flag (-1) repeatable s
          | argv =>
              let '(ret, repeatable, s) := cmd_process s flag argv repeatable in
              let rc := if ret =? 0 then rc else -1 in
              if had_ctrlc s then Some (-1, s)
              else run_loop f str 0 flag rc repeatable s
          end
      end
  end.

Definition cli_simple_run_command (cmd : option (list Z)) (below flag : Z) (s : S)
    : option (Z * S) :=
  let s := clear_ctrlc s in
  match cmd with
  | None | Some [] => Some (-1, s)
  | Some cmd =>
      if CONFIG_SYS_CBSIZE <=? Z.of_nat (length cmd) then Some (-1, s)
      else run_loop (Datatypes.S (length cmd)) cmd below flag 0 1 s
  end.

(** [line] is the current line read so far.  The result is [rcode]. *)
Fixpoint list_loop (next line : list Z) (below : Z) (s : S) : option (Z * S) :=
  match next with
  | [] =>
      match line with
      | [] => Some (0, s)
      | _ => '(r, s) ← cli_simple_run_command (Some line) below 0 s;
             Some (b2z (r <? 0), s)
      end
  | c :: next =>
      if c =? NEWLINE then
        match line with
        | [] => list_loop next [] below s
        | _ => '(r, s) ← cli_simple_run_command (Some line) below 0 s;
               if r <? 0 then Some (1, s) else list_loop next [] below s
        end
      else list_loop next (line ++ [c]) below s
  end.
Definition cli_simple_run_command_list (cmd : list Z) (below : Z) (s : S) : option (Z * S) :=
  list_loop cmd [] below s.

End Commands.

(** ** Bounds of the macro expansion *)

(** What is stored and what still fits make up the size, and the name buffer is
    used for at most [L] bytes. *)
Definition within (size L : Z) (m : macros) : Prop :=
  0 <= outputcnt m /\ Z.of_nat (length (output m)) + outputcnt m = size /\
  Z.of_nat (length (varname m)) <= L /\ named m <= L.

Lemma put_char_within size L m c : within size L m -> outputcnt m <> 0 ->
  within size L (put_char m c).
Proof. intros (? & ? & ? & ?) ?. unfold within. simpl. rewrite length_app. simpl. lia. Qed.

Lemma macros_switch_within env size L m c prev input : within size L m -> outputcnt m <> 0 ->
  Z.of_nat (length input) <= L -> within size L (macros_switch env m c prev input).
Proof.
  intros W Hne Hi. unfold macros_switch.
  repeat match goal with |- context [if ?b then _ else _] => destruct b eqn:? end;
    try done; try (by apply put_char_within).
  - destruct W as (? & ? & ? & ?). unfold within. simpl. lia.
  - apply put_char_within; [by apply (put_char_within _ _ (set_state m 0))|].
    by apply negb_true_iff, Z.eqb_neq in Heqb2.
  - destruct W as (? & ? & ? & ?). unfold within, close_var. simpl.
    destruct (env _) as [v|]; rewrite length_app, ?length_take; simpl; lia.
Qed.

Lemma macros_loop_within env size L fuel input m prev : (length input < fuel)%nat ->
  within size L m -> Z.of_nat (length input) <= L ->
  exists ic m', macros_loop env fuel input (Z.of_nat (length input)) m prev = Some (ic, m') /\
    within size L m'.
Proof.
  revert input m prev. induction fuel as [|f IH]; intros input m prev Hf W Hi; [lia|].
  cbn [macros_loop]. destruct (_ || _) eqn:E; [by eauto|].
  apply orb_false_iff in E as [E1 E2]. apply Z.eqb_neq in E1, E2.
  destruct input as [|c input]; [done|]. cbn [hd tl]. simpl length in *.
  replace (Z.of_nat (S (length input)) - 1) with (Z.of_nat (length input)) by lia.
  destruct (_ && _).
  - destruct (Z.eqb_spec (Z.of_nat (length input)) 0); [by eauto|].
    destruct input as [|d input]; [done|]. cbn [hd tl]. simpl length in *.
    replace (Z.of_nat (S (length input)) - 1) with (Z.of_nat (length input)) by lia.
    apply IH; [lia| |lia]. apply macros_switch_within; [done|done|lia].
  - apply IH; [lia| |lia]. apply macros_switch_within; [done|done|lia].
Qed.

(** For any input and environment the expansion ends, stores a string that fits the output
    with its terminator and uses at most as many bytes of [envname] as the input has
    characters. *)
Theorem process_macros_bounded env input max_size : 0 < max_size ->
  exists ret out used, cli_simple_process_macros env input max_size = Some (ret, out, used) /\
    Z.of_nat (length out) < max_size /\ used <= Z.of_nat (length input) /\
    (ret = 0 \/ ret = - ENOSPC).
Proof.
  intros Hs. unfold cli_simple_process_macros.
  destruct (macros_loop_within env max_size (Z.of_nat (length input)) (S (length input)) input
    (mk_mac [] max_size 0 [] 0) 0) as (ic & m & -> & Ho & Hl & _ & Hn);
    [lia|unfold within; simpl; lia|lia|].
  simpl. destruct (Z.eqb_spec (outputcnt m) 0); simpl.
  - eexists _, _, _. split; [done|]. split; [|by auto].
    destruct (output m) as [|c o] using rev_ind; simpl in *; [lia|].
    rewrite removelast_last. rewrite length_app in Hl. simpl in Hl. lia.
  - eexists _, _, _. split; [done|]. split; [lia|]. split; [done|]. destruct (ic =? 0); auto.
Qed.

(** ** What the expansion means *)

(** Pieces of a command: a plain character, an escaped one, quoted text, a
    variable in braces. *)
Inductive piece := Plain (c : Z) | Escaped (c : Z) | Quoted (s : list Z) | Var (name : list Z).

Definition source (p : piece) : list Z :=
  match p with
  | Plain c => [c]
  | Escaped c => [BACKSLASH; c]
  | Quoted s => QUOTE :: s ++ [QUOTE]
  | Var name => DOLLAR :: 123 :: name ++ [125]
  end.

Definition meaning (env : list Z -> option (list Z)) (p : piece) : list Z :=
  match p with
  | Plain c | Escaped c => [c]
  | Quoted s => s
  | Var name => default [] (env name)
  end.

Definition piece_ok (p : piece) : Prop :=
  match p with
  | Plain c => c <> BACKSLASH /\ c <> QUOTE /\ c <> DOLLAR
  | Escaped c => c <> BACKSLASH
  | Quoted s => (QUOTE ∉ s) /\ last s <> Some BACKSLASH
  | Var name => Forall (fun c => closes c = false /\ c <> BACKSLASH) name
  end.

Section Meaning.
  Context (env : list Z -> option (list Z)).

(** The loop reads one character that is not an escape. *)
Lemma loop_char f c r m prev : outputcnt m <> 0 -> state m = 3 \/ c <> BACKSLASH ->
  macros_loop env (S f) (c :: r) (Z.of_nat (length (c :: r))) m prev =
  macros_loop env f r (Z.of_nat (length r)) (macros_switch env m c prev r) c.
Proof.
  intros Ho Hc. cbn [macros_loop hd tl length]. rewrite (proj2 (Z.eqb_neq (outputcnt m) 0)) by done.
  rewrite (proj2 (Z.eqb_neq (Z.of_nat _) 0)) by lia. simpl orb. cbv iota.
  replace (negb (state m =? 3) && _) with false.
  - do 2 f_equal. lia.
  - destruct Hc as [-> | Hc]; [done|].
    by rewrite (proj2 (Z.eqb_neq c BACKSLASH)) by done; rewrite andb_false_r.
Qed.

Lemma loop_escape f c r m prev : outputcnt m <> 0 -> state m <> 3 -> prev <> BACKSLASH ->
  macros_loop env (S f) (BACKSLASH :: c :: r) (Z.of_nat (length (BACKSLASH :: c :: r))) m prev =
  macros_loop env f r (Z.of_nat (length r)) (macros_switch env m c BACKSLASH r) c.
Proof.
  intros Ho Hs Hp. cbn [macros_loop hd tl length]. rewrite (proj2 (Z.eqb_neq (outputcnt m) 0)) by done.
  rewrite (proj2 (Z.eqb_neq (state m) 3)), (proj2 (Z.eqb_neq prev BACKSLASH)), Z.eqb_refl by done.
  rewrite !(proj2 (Z.eqb_neq (Z.of_nat _) 0)), (proj2 (Z.eqb_neq (Z.of_nat _ - 1) 0)) by lia.
  simpl. f_equal. lia.
Qed.

Lemma switch_dollar out oc vs nm prev r : prev <> BACKSLASH ->
  macros_switch env (mk_mac out oc 0 vs nm) DOLLAR prev r = mk_mac out oc 1 vs nm.
Proof.
  intros. unfold macros_switch, set_state. simpl.
  by rewrite (proj2 (Z.eqb_neq prev BACKSLASH)) by done.
Qed.

Lemma quoted_run s f r out oc vs nm prev : QUOTE ∉ s ->
  (s = [] -> prev <> BACKSLASH) -> last s <> Some BACKSLASH -> Z.of_nat (length s) < oc ->
  macros_loop env (length s + S f) (s ++ QUOTE :: r) (Z.of_nat (length (s ++ QUOTE :: r)))
    (mk_mac out oc 3 vs nm) prev =
  macros_loop env f r (Z.of_nat (length r))
    (mk_mac (out ++ s) (oc - Z.of_nat (length s)) 0 vs nm) QUOTE.
Proof.
  revert out oc prev. induction s as [|c s IH]; intros out oc prev Hq Hp Hl Ho.
  - cbn [app length Nat.add]. rewrite loop_char by (simpl in *; lia || by left).
    unfold macros_switch, set_state. simpl. rewrite (proj2 (Z.eqb_neq prev BACKSLASH)) by auto.
    simpl. by rewrite app_nil_r, Z.sub_0_r.
  - apply not_elem_of_cons in Hq as [Hc Hq]. simpl in Ho. cbn [app length Nat.add].
    change (length (c :: s ++ QUOTE :: r)) with (length (c :: (s ++ QUOTE :: r))).
    rewrite loop_char by (simpl in *; lia || by left).
    unfold macros_switch, put_char. simpl. rewrite (proj2 (Z.eqb_neq c QUOTE)) by congruence. simpl.
    rewrite IH; [|done| | |lia].
    + rewrite <- app_assoc. simpl. do 2 f_equal. lia.
    + intros ->. simpl in Hl. congruence.
    + by destruct s.
Qed.

Lemma name_run name1 name2 f r out oc nm prev :
  Forall (fun c => closes c = false /\ c <> BACKSLASH) name2 -> oc <> 0 ->
  let vs := name1 ++ name2 ++ 125 :: r in
  let v := match env (name1 ++ name2) with Some v => take (Z.to_nat oc) v | None => [] end in
  macros_loop env (length name2 + S f) (name2 ++ 125 :: r)
    (Z.of_nat (length (name2 ++ 125 :: r))) (mk_mac out oc 2 vs nm) prev =
  macros_loop env f r (Z.of_nat (length r))
    (mk_mac (out ++ v) (oc - Z.of_nat (length v)) 0 vs
       (Z.max nm (Z.of_nat (length (name1 ++ name2)) + 1))) 125.
Proof.
  intros Hn Ho. revert name1 prev. induction Hn as [|c name2 [Hc Hb] Hn IH]; intros name1 prev vs v.
  - cbn [app length Nat.add]. rewrite loop_char by (done || by right). unfold macros_switch, close_var.
    simpl. unfold vs, v. rewrite !app_nil_r. simpl app. rewrite length_app. simpl length.
    replace (Z.of_nat (length name1 + S (length r)) - Z.of_nat (length r) - 1)
      with (Z.of_nat (length name1)) by lia.
    rewrite Nat2Z.id, take_app_length. done.
  - cbn [app length Nat.add]. change (length (c :: name2 ++ 125 :: r))
      with (length (c :: (name2 ++ 125 :: r))).
    rewrite loop_char by (done || by right). unfold macros_switch. simpl. rewrite Hc.
    specialize (IH (name1 ++ [c]) c). rewrite <- !app_assoc in IH. simpl in IH.
    unfold vs. simpl app. rewrite IH. unfold v. done.
Qed.

(** One piece. *)
Lemma piece_run p r fuel out oc vs nm prev : piece_ok p -> prev <> BACKSLASH ->
  Z.of_nat (length (meaning env p)) < oc -> (length (source p ++ r) < fuel)%nat ->
  exists f prev' vs' nm', (length r < f)%nat /\ prev' <> BACKSLASH /\
    macros_loop env fuel (source p ++ r) (Z.of_nat (length (source p ++ r)))
      (mk_mac out oc 0 vs nm) prev =
    macros_loop env f r (Z.of_nat (length r))
      (mk_mac (out ++ meaning env p) (oc - Z.of_nat (length (meaning env p))) 0 vs' nm') prev'.
Proof.
  intros Hp Hprev Ho Hf. destruct p as [c|c|s|name]; simpl source in *; simpl meaning in *;
    (destruct fuel as [|f]; [simpl in Hf; lia|]).
  - destruct Hp as (Hb & Hq & Hd). cbn [app] in *.
    exists f, c, vs, nm. simpl in Hf. repeat split; [lia|done|].
    rewrite loop_char by (simpl in *; lia || by right). unfold macros_switch, put_char. simpl.
    by rewrite (proj2 (Z.eqb_neq c QUOTE)), (proj2 (Z.eqb_neq c DOLLAR)) by done.
  - cbn [app] in *. exists f, c, vs, nm. simpl in Hf. repeat split; [lia|done|].
    rewrite loop_escape by (simpl in *; lia || done). unfold macros_switch, put_char. simpl.
    by rewrite !andb_false_r.
  - destruct Hp as [Hq Hl]. cbn [app] in *. rewrite <- app_assoc in *. simpl app in *.
    cbn [length] in Hf. rewrite length_app in Hf. cbn [length] in Hf.
    exists (f - length s - 1)%nat, QUOTE, vs, nm. repeat split; [lia|done|].
    rewrite loop_char by (simpl in *; lia || by right).
    unfold macros_switch, set_state. simpl. rewrite (proj2 (Z.eqb_neq prev BACKSLASH)) by done. simpl.
    replace f with (length s + S (f - length s - 1))%nat at 1 by lia.
    by rewrite quoted_run.
  - cbn [app] in *. rewrite <- app_assoc in *. simpl app in *.
    cbn [length] in Hf. rewrite length_app in Hf. cbn [length] in Hf.
    destruct f as [|f]; [lia|].
    exists (f - length name - 1)%nat, 125, (name ++ 125 :: r), (Z.max nm (Z.of_nat (length name) + 1)).
    repeat split; [lia|done|].
    rewrite loop_char, switch_dollar by (done || (simpl in *; lia) || by right).
    rewrite loop_char by (simpl in *; lia || by right).
    change (macros_switch env (mk_mac out oc 1 vs nm) 123 DOLLAR (name ++ 125 :: r))
      with (mk_mac out oc 2 (name ++ 125 :: r) nm).
    replace f with (length name + S (f - length name - 1))%nat at 1 by lia.
    rewrite (name_run [] name) by (done || lia). simpl app.
    destruct (env name) as [v|]; simpl in *; [rewrite take_ge by lia|]; done.
Qed.

Lemma pieces_run ps fuel out oc vs nm prev : Forall piece_ok ps -> prev <> BACKSLASH ->
  Z.of_nat (length (concat (map (meaning env) ps))) < oc ->
  (length (concat (map source ps)) < fuel)%nat ->
  exists vs' nm',
    macros_loop env fuel (concat (map source ps)) (Z.of_nat (length (concat (map source ps))))
      (mk_mac out oc 0 vs nm) prev =
    Some (0, mk_mac (out ++ concat (map (meaning env) ps))
               (oc - Z.of_nat (length (concat (map (meaning env) ps)))) 0 vs' nm').
Proof.
  intros Hps. revert fuel out oc vs nm prev.
  induction Hps as [|p ps Hp Hps IH]; intros fuel out oc vs nm prev Hprev Ho Hf.
  - destruct fuel as [|f]; [simpl in Hf; lia|]. exists vs, nm. simpl.
    by rewrite app_nil_r, Z.sub_0_r.
  - cbn [map concat] in *. rewrite length_app in Ho.
    destruct (piece_run p (concat (map source ps)) fuel out oc vs nm prev Hp Hprev ltac:(lia) Hf)
      as (f & prev' & vs' & nm' & Hf' & Hprev' & ->).
    destruct (IH f (out ++ meaning env p) (oc - Z.of_nat (length (meaning env p))) vs' nm' prev'
      Hprev' ltac:(lia) Hf') as (vs2 & nm2 & ->).
    exists vs2, nm2. rewrite app_assoc, length_app. do 3 f_equal. lia.
Qed.

(** The output is full: the loop ends. *)
Lemma loop_full f input ic out st vs nm prev :
  macros_loop env (S f) input ic (mk_mac out 0 st vs nm) prev = Some (ic, mk_mac out 0 st vs nm).
Proof. simpl. by rewrite orb_true_r. Qed.

Lemma quoted_full s f r out oc vs nm prev : QUOTE ∉ s -> 0 < oc <= Z.of_nat (length s) ->
  (length s < f)%nat ->
  exists ic vs' nm', macros_loop env f (s ++ r) (Z.of_nat (length (s ++ r)))
    (mk_mac out oc 3 vs nm) prev = Some (ic, mk_mac (out ++ take (Z.to_nat oc) s) 0 3 vs' nm').
Proof.
  revert f out oc prev. induction s as [|c s IH]; intros f out oc prev Hq Ho Hf; [simpl in Ho; lia|].
  destruct f as [|f]; [lia|]. apply not_elem_of_cons in Hq as [Hc Hq]. simpl length in *.
  cbn [app]. change (S (length (s ++ r))) with (length (c :: (s ++ r))).
  rewrite loop_char by (simpl in *; lia || by left).
  unfold macros_switch, put_char. simpl. rewrite (proj2 (Z.eqb_neq c QUOTE)) by congruence. simpl.
  destruct (Z.eq_dec oc 1) as [->|Hne].
  - destruct f as [|f]; [lia|]. rewrite loop_full. change (Z.to_nat 1) with 1%nat. simpl.
    rewrite take_0. eauto.
  - destruct (IH f (out ++ [c]) (oc - 1) c Hq) as (ic & vs' & nm' & ->); [lia..|].
    exists ic, vs', nm'. replace (Z.to_nat oc) with (S (Z.to_nat (oc - 1))) by lia. simpl.
    by rewrite <- app_assoc.
Qed.

(** A piece that fills the output: as much of it as fits. *)
Lemma piece_full p r fuel out oc vs nm prev : piece_ok p -> prev <> BACKSLASH ->
  0 < oc <= Z.of_nat (length (meaning env p)) -> (length (source p ++ r) < fuel)%nat ->
  exists ic st vs' nm',
    macros_loop env fuel (source p ++ r) (Z.of_nat (length (source p ++ r)))
      (mk_mac out oc 0 vs nm) prev =
    Some (ic, mk_mac (out ++ take (Z.to_nat oc) (meaning env p)) 0 st vs' nm').
Proof.
  intros Hp Hprev Ho Hf. destruct p as [c|c|s|name]; simpl source in *; simpl meaning in *;
    (destruct fuel as [|f]; [simpl in Hf; lia|]).
  - destruct Hp as (Hb & Hq & Hd). cbn [app] in *. simpl in Hf, Ho. assert (oc = 1) as -> by lia.
    rewrite loop_char by (simpl in *; lia || by right). unfold macros_switch, put_char. simpl.
    rewrite (proj2 (Z.eqb_neq c QUOTE)), (proj2 (Z.eqb_neq c DOLLAR)) by done. simpl.
    destruct f as [|f]; [lia|]. rewrite loop_full. eauto.
  - cbn [app] in *. simpl in Hf, Ho. assert (oc = 1) as -> by lia.
    rewrite loop_escape by (simpl in *; lia || done). unfold macros_switch, put_char. simpl.
    rewrite !andb_false_r. destruct f as [|f]; [lia|]. rewrite loop_full. eauto.
  - destruct Hp as [Hq Hl]. cbn [app] in *. rewrite <- app_assoc in *. simpl app in *.
    cbn [length] in Hf. rewrite length_app in Hf. cbn [length] in Hf.
    rewrite loop_char by (simpl in *; lia || by right).
    unfold macros_switch, set_state. simpl. rewrite (proj2 (Z.eqb_neq prev BACKSLASH)) by done. simpl.
    destruct (quoted_full s f (QUOTE :: r) out oc vs nm QUOTE) as (ic & vs' & nm' & ->); [done..|lia|].
    eauto.
  - cbn [app] in *. rewrite <- app_assoc in *. simpl app in *.
    cbn [length] in Hf. rewrite length_app in Hf. cbn [length] in Hf.
    destruct f as [|f]; [lia|].
    rewrite loop_char, switch_dollar by (done || (simpl in *; lia) || by right).
    rewrite loop_char by (simpl in *; lia || by right).
    change (macros_switch env (mk_mac out oc 1 vs nm) 123 DOLLAR (name ++ 125 :: r))
      with (mk_mac out oc 2 (name ++ 125 :: r) nm).
    replace f with (length name + S (f - length name - 1))%nat by lia.
    rewrite (name_run [] name) by (done || lia). simpl app.
    destruct (env name) as [v|]; simpl in *; [|lia].
    rewrite length_take. replace (oc - _) with 0 by lia.
    destruct (f - length name - 1)%nat as [|k] eqn:Ek; [lia|]. rewrite loop_full. eauto.
Qed.

(** The pieces, as far as they fit the output. *)
Lemma pieces_cut ps fuel out oc vs nm prev : Forall piece_ok ps ->
  (length (concat (map source ps)) < fuel)%nat -> 0 < oc -> prev <> BACKSLASH ->
  exists ic st vs' nm',
    macros_loop env fuel (concat (map source ps)) (Z.of_nat (length (concat (map source ps))))
      (mk_mac out oc 0 vs nm) prev =
    Some (ic, mk_mac (out ++ take (Z.to_nat oc) (concat (map (meaning env) ps)))
                (Z.max 0 (oc - Z.of_nat (length (concat (map (meaning env) ps))))) st vs' nm').
Proof.
  intros Hps. revert fuel out oc vs nm prev.
  induction Hps as [|p ps Hp Hps IH]; intros fuel out oc vs nm prev Hf Ho Hprev.
  - destruct fuel as [|f]; [simpl in Hf; lia|]. simpl. rewrite take_nil, app_nil_r.
    eexists _, _, _, _. do 3 f_equal. lia.
  - cbn [map concat] in *. rewrite (length_app (meaning env p)).
    destruct (Z_lt_le_dec (Z.of_nat (length (meaning env p))) oc) as [Hlt|Hge].
    + destruct (piece_run p (concat (map source ps)) fuel out oc vs nm prev Hp Hprev Hlt Hf)
        as (f & prev' & vs' & nm' & Hf' & Hprev' & ->).
      destruct (IH f (out ++ meaning env p) (oc - Z.of_nat (length (meaning env p))) vs' nm' prev' Hf')
        as (ic & st & vs2 & nm2 & ->); [lia|done|].
      eexists _, _, _, _.
      rewrite take_app, (take_ge (meaning env p)) by lia. rewrite <- app_assoc.
      replace (Z.to_nat (oc - Z.of_nat (length (meaning env p))))
        with (Z.to_nat oc - length (meaning env p))%nat by lia.
      do 3 f_equal. lia.
    + destruct (piece_full p (concat (map source ps)) fuel out oc vs nm prev Hp Hprev ltac:(lia) Hf)
        as (ic & st & vs' & nm' & ->).
      eexists _, _, _, _. rewrite take_app_le by lia. do 3 f_equal. lia.
Qed.

(** The text a command expands to, cut to what fits the output with its terminator. *)
Lemma expands_cut ps max_size : Forall piece_ok ps -> 0 < max_size ->
  exists ret used, cli_simple_process_macros env (concat (map source ps)) max_size =
    Some (ret, take (Z.to_nat (max_size - 1)) (concat (map (meaning env) ps)), used).
Proof.
  intros Hps Hm. unfold cli_simple_process_macros.
  destruct (pieces_cut ps (S (length (concat (map source ps)))) [] max_size [] 0 0 Hps)
    as (ic & st & vs' & nm' & ->); [lia|done|done|].
  simpl. set (text := concat (map (meaning env) ps)).
  destruct (Z.eqb_spec (Z.max 0 (max_size - Z.of_nat (length text))) 0); simpl.
  - eexists _, _. do 3 f_equal. rewrite removelast_firstn_len, take_take, length_take. f_equal. lia.
  - eexists _, _. do 3 f_equal. rewrite !take_ge by lia. done.
Qed.

Lemma expands ps max_size : Forall piece_ok ps ->
  Z.of_nat (length (concat (map (meaning env) ps))) < max_size ->
  exists used, cli_simple_process_macros env (concat (map source ps)) max_size =
    Some (0, concat (map (meaning env) ps), used).
Proof.
  intros Hps Hm. unfold cli_simple_process_macros.
  destruct (pieces_run ps (S (length (concat (map source ps)))) [] max_size [] 0 0 Hps
    ltac:(done) Hm ltac:(lia)) as (vs & nm & ->).
  exists nm. simpl. by rewrite (proj2 (Z.eqb_neq _ 0)) by lia.
Qed.

(** A command made of plain and escaped characters, quoted text and variables in braces
    is expanded to the characters, the text and the values of the variables, when they fit. *)
Theorem process_macros_expands ps max_size : Forall piece_ok ps ->
  Z.of_nat (length (concat (map (meaning env) ps))) < max_size ->
  exists used, cli_simple_process_macros env (concat (map source ps)) max_size =
    Some (0, concat (map (meaning env) ps), used).
Proof. apply expands. Qed.
End Meaning.

(** A name is copied to the stack whatever its length: expanding the command of the bootargs
    substitution with a longer name than [CONFIG_SYS_CBSIZE] overruns [envname]. *)
Lemma long_name_stored env name max_size : Forall (fun c => closes c = false /\ c <> BACKSLASH) name ->
  env name = None -> 0 < max_size ->
  cli_simple_process_macros env (source (Var name)) max_size =
    Some (0, [], Z.of_nat (length name) + 1).
Proof.
  intros Hn He Hm. unfold cli_simple_process_macros. simpl source.
  set (fuel := S _).
  assert (E : fuel = S (S (length name + S 1))) by (unfold fuel; simpl; rewrite length_app; simpl; lia).
  rewrite E, loop_char, switch_dollar by (done || (simpl; lia) || by right).
  rewrite loop_char by (simpl; lia || by right).
  change (macros_switch env (mk_mac [] max_size 1 [] 0) 123 DOLLAR (name ++ [125]))
    with (mk_mac [] max_size 2 (name ++ [125]) 0).
  rewrite (name_run env [] name 1 []) by (done || lia). simpl app. rewrite He. simpl.
  rewrite Z.sub_0_r, (proj2 (Z.eqb_neq max_size 0)) by lia. simpl. do 2 f_equal. lia.
Qed.

(** ** Arguments *)
Definition blanks (g : list Z) : Prop := Forall (fun c => isblank c = true) g.
Definition is_word (w : list Z) : Prop := w <> [] /\ Forall (fun c => isblank c = false) w.

(** Words with the blanks after them; only the last may have none. *)
Fixpoint spaced (ws : list (list Z * list Z)) : Prop :=
  match ws with
  | [] => True
  | (w, g) :: r => is_word w /\ blanks g /\ (g <> [] \/ r = []) /\ spaced r
  end.
Definition line_of (ws : list (list Z * list Z)) : list Z :=
  concat (map (fun '(w, g) => w ++ g) ws).

Lemma skip_blanks_app g r : blanks g -> (forall c r', r = c :: r' -> isblank c = false) ->
  skip_blanks (g ++ r) = r.
Proof.
  intros Hg Hr. induction Hg as [|c g Hc Hg IH]; simpl; [|by rewrite Hc].
  destruct r as [|c r]; [done|]. simpl. by rewrite (Hr c r).
Qed.

Lemma word_app w r : Forall (fun c => isblank c = false) w ->
  (forall c r', r = c :: r' -> isblank c = true) -> word (w ++ r) = (w, r).
Proof.
  intros Hw Hr. induction Hw as [|c w Hc Hw IH]; simpl; [|by rewrite Hc, IH].
  destruct r as [|c r]; [done|]. simpl. by rewrite (Hr c r).
Qed.

Lemma line_of_head w g ws c r : is_word w -> line_of ((w, g) :: ws) = c :: r -> isblank c = false.
Proof.
  intros [Hne Hw]. destruct w as [|x w]; [done|]. simpl. intros [= <- _].
  by apply Forall_cons in Hw as [? _].
Qed.

Definition fits_args (ws : list (list Z * list Z)) (n : nat) : bool :=
  bool_decide (length ws < n)%nat ||
  bool_decide (length ws = n) && bool_decide (snd <$> last ws = Some []).

Lemma parse_loop_words n lead ws : blanks lead -> spaced ws -> (0 < n)%nat ->
  parse_loop n (lead ++ line_of ws) = (take n (map fst ws), fits_args ws n).
Proof.
  revert n lead. induction ws as [|[w g] ws IH]; intros n lead Hl Hs Hn;
    (destruct n as [|n]; [lia|]); cbn [parse_loop].
  { rewrite skip_blanks_app by done. done. }
  destruct Hs as (Hw & Hg & Hge & Hs).
  rewrite skip_blanks_app by (done || (intros c r; by apply line_of_head)).
  pose proof (line_of_head w g ws) as Hh. unfold line_of in *. cbn [map concat] in *.
  destruct ((w ++ g) ++ _) as [|c r] eqn:E.
  { destruct Hw as [Hne _]. by destruct w. }
  rewrite <- E, <- app_assoc. destruct g as [|b g].
  - destruct Hge as [Hge| ->]; [done|]. simpl. destruct Hw as [_ Hw].
    rewrite word_app by done. f_equal; [by destruct n|]. unfold fits_args. destruct n; [done|].
    by rewrite bool_decide_eq_true_2 by (simpl; lia).
  - apply Forall_cons in Hg as [Hb Hg]. destruct Hw as [_ Hw].
    rewrite word_app; [|done|intros c' r' [= <- _]; done]. cbn [app].
    destruct n as [|n].
    + simpl. unfold fits_args. rewrite bool_decide_eq_false_2 by (simpl; lia).
      destruct ws as [|x ws]; [done|]. by rewrite (bool_decide_eq_false_2 (length _ = 1%nat)) by (simpl; lia).
    + rewrite IH by (done || lia). simpl. f_equal. unfold fits_args. simpl length.
      destruct ws as [|x ws].
      { by rewrite !bool_decide_eq_true_2 by (simpl; lia). }
      f_equal; [apply bool_decide_ext; simpl; lia|]. f_equal. apply bool_decide_ext. simpl. lia.
Qed.

(** The words of a text: the non-empty stretches between blanks. *)
Definition words (text : list Z) : list (list Z) :=
  List.filter (fun w => match w with [] => false | _ => true end)
    (foldr (fun c ws =>
        if isblank c then [] :: ws
        else match ws with w :: r => (c :: w) :: r | [] => [[c]] end) [[]] text).

Lemma stretches_blank b r : isblank b = true ->
  forall w, Forall (fun c => isblank c = false) w ->
  words (w ++ b :: r) = (match w with [] => [] | _ => [w] end) ++ words r.
Proof.
  intros Hb w Hw. unfold words. rewrite foldr_app. cbn [foldr]. rewrite Hb.
  set (ws := foldr _ _ r). clearbody ws.
  assert (E : foldr (fun c ws => if isblank c then [] :: ws
      else match ws with w :: r => (c :: w) :: r | [] => [[c]] end) ([] :: ws) w = w :: ws)
    by (induction Hw as [|c w Hc Hw IH]; simpl; [done|by rewrite Hc, IH]).
  rewrite E. by destruct w.
Qed.

Lemma words_word w : Forall (fun c => isblank c = false) w ->
  words w = match w with [] => [] | _ => [w] end.
Proof.
  intros Hw. unfold words.
  assert (E : foldr (fun c ws => if isblank c then [] :: ws
      else match ws with w :: r => (c :: w) :: r | [] => [[c]] end) [[]] w = [w])
    by (induction Hw as [|c w Hc Hw IH]; simpl; [done|by rewrite Hc, IH]).
  rewrite E. by destruct w.
Qed.

Lemma words_skip line : words (skip_blanks line) = words line.
Proof.
  induction line as [|c line IH]; simpl; [done|]. destruct (isblank c) eqn:E; [|done].
  rewrite IH. symmetry. by apply (stretches_blank c line E []).
Qed.

Lemma word_split line w r : word line = (w, r) ->
  line = w ++ r /\ Forall (fun c => isblank c = false) w /\
  (forall b r', r = b :: r' -> isblank b = true).
Proof.
  revert w r. induction line as [|c line IH]; simpl; intros w r E; [by injection E as <- <-|].
  destruct (isblank c) eqn:Ec.
  - injection E as <- <-. split; [done|]. split; [constructor|]. by intros b r' [= <- _].
  - destruct (word line) as [w' r'] eqn:E'. injection E as <- <-.
    destruct (IH w' r' eq_refl) as (-> & Hw & Hr). split; [done|]. split; [by constructor|done].
Qed.

(** Every line is cut into its words, at most [CONFIG_SYS_MAXARGS] of them. *)
Lemma parse_loop_cuts n line : fst (parse_loop n line) = take n (words line).
Proof.
  revert line. induction n as [|n IH]; intros line; [by rewrite take_0|]. cbn [parse_loop].
  rewrite <- words_skip. destruct (skip_blanks line) as [|c r] eqn:Es; [done|].
  assert (Hc : isblank c = false).
  { clear -Es. induction line as [|d line IH]; simpl in Es; [done|].
    destruct (isblank d) eqn:E; [auto|]. by injection Es as <- _. }
  destruct (word (c :: r)) as [w rest] eqn:Ew.
  destruct (word_split _ _ _ Ew) as (E & Hw & Hr). rewrite E.
  assert (w <> []) by (intros ->; simpl in Ew; rewrite Hc in Ew; by destruct (word r)).
  destruct rest as [|b rest].
  - rewrite app_nil_r, words_word by done. destruct w; [done|]. simpl. by rewrite take_nil.
  - rewrite (stretches_blank b rest (Hr b rest eq_refl) w Hw). specialize (IH rest).
    destruct (parse_loop n rest) as [args ended]. simpl in *. subst args. by destruct w.
Qed.

Lemma parse_line_cuts maxargs line :
  fst (cli_simple_parse_line maxargs line) = take (Z.to_nat maxargs) (words line).
Proof. apply parse_loop_cuts. Qed.

(** A line of words separated by blanks is cut into the words, at most
    [CONFIG_SYS_MAXARGS] of them; but [argv] is ended with a null pointer only when there are
    fewer words, or as many with nothing after the last. *)
Theorem parse_line_words maxargs lead ws : 0 < maxargs -> blanks lead -> spaced ws ->
  cli_simple_parse_line maxargs (lead ++ line_of ws) =
    (take (Z.to_nat maxargs) (map fst ws), fits_args ws (Z.to_nat maxargs)).
Proof. intros. unfold cli_simple_parse_line. apply parse_loop_words; done || lia. Qed.

(** ** Sequences of commands *)

(** Pieces that a semicolon does not cut: the semicolons of a command are
    escaped or quoted. *)
Definition uncut (p : piece) : Prop :=
  match p with
  | Plain c => c <> SEMICOLON
  | Var name => (SEMICOLON ∉ name) /\ (QUOTE ∉ name)
  | _ => True
  end.

(** A command as it is typed, and what it expands to in an environment. *)
Definition command := list piece.
Definition text (c : command) : list Z := concat (map source c).
Definition expansion (env : list Z -> option (list Z)) (c : command) : list Z :=
  concat (map (meaning env) c).
Definition command_ok (c : command) : Prop := c <> [] /\ Forall piece_ok c /\ Forall uncut c.

(** Commands joined by semicolons. *)
Fixpoint join (cs : list command) : list Z :=
  match cs with
  | [] => []
  | [c] => text c
  | c :: r => text c ++ SEMICOLON :: join r
  end.

(** Characters before [r] that belong to the token. *)
Definition passes (l : list Z) (q q' : bool) : Prop :=
  forall r start prev, (start = true -> l <> []) -> prev <> BACKSLASH ->
    exists prev', prev' <> BACKSLASH /\
      split_token (l ++ r) start prev q =
      (let '(token, rest) := split_token r (match l with [] => start | _ => false end) prev' q' in
       (l ++ token, rest)).

Lemma quoted_passes s r prev : QUOTE ∉ s -> (s = [] -> prev <> BACKSLASH) ->
  last s <> Some BACKSLASH ->
  split_token (s ++ QUOTE :: r) false prev true =
  (let '(token, rest) := split_token r false QUOTE false in (s ++ QUOTE :: token, rest)).
Proof.
  revert prev. induction s as [|c s IH]; intros prev Hq Hp Hl; cbn [app split_token].
  - rewrite Z.eqb_refl, (proj2 (Z.eqb_neq prev BACKSLASH)) by auto. simpl.
    by destruct (split_token r _ _ _).
  - apply not_elem_of_cons in Hq as [Hc Hq].
    rewrite (proj2 (Z.eqb_neq c QUOTE)) by congruence. simpl. rewrite IH; [|done| |by destruct s].
    + by destruct (split_token r _ _ _).
    + intros ->. simpl in Hl. congruence.
Qed.

Lemma name_passes name r prev : SEMICOLON ∉ name -> QUOTE ∉ name ->
  split_token (name ++ 125 :: r) false prev false =
  (let '(token, rest) := split_token r false 125 false in (name ++ 125 :: token, rest)).
Proof.
  revert prev. induction name as [|c name IH]; intros prev Hs Hq; cbn [app split_token].
  - simpl. by destruct (split_token r _ _ _).
  - apply not_elem_of_cons in Hq as [Hc Hq]. apply not_elem_of_cons in Hs as [Hd Hs].
    rewrite (proj2 (Z.eqb_neq c QUOTE)), (proj2 (Z.eqb_neq c SEMICOLON)) by congruence. simpl.
    rewrite IH by done. by destruct (split_token r _ _ _).
Qed.

Lemma piece_passes p : piece_ok p -> uncut p -> passes (source p) false false.
Proof.
  intros Hp Hu r start prev _ Hprev. destruct p as [c|c|s|name]; simpl in *.
  - destruct Hp as (Hb & Hq & _). exists c. split; [done|].
    rewrite (proj2 (Z.eqb_neq c QUOTE)), (proj2 (Z.eqb_neq c SEMICOLON)) by done. simpl.
    by destruct (split_token r _ _ _).
  - exists c. split; [done|]. rewrite andb_false_r. simpl. rewrite !andb_false_r.
    by destruct (split_token r _ _ _).
  - destruct Hp as [Hq Hl]. exists QUOTE. split; [done|].
    rewrite (proj2 (Z.eqb_neq prev BACKSLASH)) by done. simpl. rewrite <- app_assoc. simpl.
    rewrite quoted_passes by done. by destruct (split_token r _ _ _) as [a b]; simpl; rewrite <- app_assoc.
  - destruct Hu as [Hs Hq]. exists 125. split; [done|]. rewrite <- app_assoc. simpl.
    rewrite name_passes by done. by destruct (split_token r _ _ _) as [a b]; simpl; rewrite <- app_assoc.
Qed.

Lemma split_command c r start prev : Forall piece_ok c -> Forall uncut c -> prev <> BACKSLASH ->
  start = false \/ c <> [] ->
  split_token (text c ++ SEMICOLON :: r) start prev false = (text c, Some r) /\
  split_token (text c) start prev false = (text c, None).
Proof.
  intros Hp. revert start prev. induction Hp as [|p c Hp Hps IH]; intros start prev Hu Hprev Hst.
  - destruct Hst as [-> |]; [|done]. simpl. by rewrite (proj2 (Z.eqb_neq prev BACKSLASH)) by done.
  - apply Forall_cons in Hu as [Hu Hus]. unfold text in *. cbn [map concat].
    assert (source p <> []) as Hne by (by destruct p).
    split.
    + rewrite <- app_assoc.
      destruct (piece_passes p Hp Hu (concat (map source c) ++ SEMICOLON :: r) start prev)
        as (prev' & Hprev' & ->); [done..|].
      destruct (source p) as [|x l] eqn:El; [done|].
      by destruct (IH false prev' Hus Hprev' (or_introl eq_refl)) as [-> _].
    + destruct (piece_passes p Hp Hu (concat (map source c)) start prev)
        as (prev' & Hprev' & ->); [done..|].
      destruct (source p) as [|x l] eqn:El; [done|].
      by destruct (IH false prev' Hus Hprev' (or_introl eq_refl)) as [_ ->].
Qed.

(** The byte before the string does not matter to a token that does not begin
    with a quote. *)
Lemma split_below s below : hd_error s <> Some QUOTE ->
  split_token s true below false = split_token s true 0 false.
Proof.
  intros Hq. destruct s as [|c s]; [done|]. simpl in *.
  rewrite (proj2 (Z.eqb_neq c QUOTE)) by congruence. simpl. by rewrite !andb_false_r.
Qed.

Section Sequence.
  Context (CB MAXARGS : Z) {S : Type} (env : S -> list Z -> option (list Z)).
  Context (cmd_process : S -> Z -> list (list Z) -> Z -> Z * Z * S).
  Context (had_ctrlc : S -> bool) (clear_ctrlc : S -> S).

(** The words of a command in a state: of what its text expands to, cut to the
    size of the buffer. *)
Definition args (c : command) (s : S) : list (list Z) :=
  take (Z.to_nat MAXARGS) (words (take (Z.to_nat (CB - 1)) (expansion (env s) c))).

(** The commands of a list one after the other: an empty one is an error, one
    that fails makes the result an error, an interrupt ends the sequence. *)
Fixpoint run_commands (cs : list command) (flag rc repeatable : Z) (s : S) : Z * S :=
  match cs with
  | [] => (if rc =? 0 then repeatable else rc, s)
  | c :: r =>
      match args c s with
      | [] => run_commands r flag (-1) repeatable s
      | argv =>
          let '(ret, repeatable, s) := cmd_process s flag argv repeatable in
          if had_ctrlc s then (-1, s)
          else run_commands r flag (if ret =? 0 then rc else -1) repeatable s
      end
  end.

(** One round of the loop on a command. *)
Lemma run_loop_command f c str rest below flag rc rep s : command_ok c -> 0 < CB ->
  split_token str true below false = (text c, rest) -> str <> [] ->
  run_loop CB MAXARGS env cmd_process had_ctrlc (Datatypes.S f) str below flag rc rep s =
  match args c s with
  | [] => run_loop CB MAXARGS env cmd_process had_ctrlc f (default [] rest) 0 flag (-1) rep s
  | argv =>
      let '(ret, rep, s) := cmd_process s flag argv rep in
      if had_ctrlc s then Some (-1, s)
      else run_loop CB MAXARGS env cmd_process had_ctrlc f (default [] rest) 0 flag
             (if ret =? 0 then rc else -1) rep s
  end.
Proof.
  intros (Hne & Ht & _) Hl Hs Hstr. cbn [run_loop]. destruct str as [|d str]; [done|]. rewrite Hs.
  destruct (expands_cut (env s) c CB Ht Hl) as (ret & used & E). unfold text. rewrite E. simpl.
  rewrite parse_line_cuts. done.
Qed.

Lemma text_nonempty c : command_ok c -> text c <> [].
Proof. intros (Hne & _). destruct c as [|p c]; [done|]. unfold text. simpl. by destruct p. Qed.

(** The byte before the buffer is no backslash, or the line does not begin with
    a quote. *)
Definition before_ok (below : Z) (cs : list command) : Prop :=
  below <> BACKSLASH \/ hd_error (join cs) <> Some QUOTE.

Lemma run_loop_commands cs f below flag rc rep s : Forall command_ok cs -> cs <> [] ->
  before_ok below cs -> 0 < CB -> (length (join cs) < f)%nat ->
  run_loop CB MAXARGS env cmd_process had_ctrlc f (join cs) below flag rc rep s =
  Some (run_commands cs flag rc rep s).
Proof.
  intros Ht. revert f below rc rep s. induction Ht as [|c cs Ht Hts IH]; [done|].
  intros f below rc rep s _ Hbl Hl Hf. destruct f as [|f]; [lia|].
  pose proof (text_nonempty c Ht) as Hne. pose proof Ht as (Hc & Hp & Hu).
  assert (Hsp : forall str, str = join (c :: cs) ->
      split_token str true below false = split_token str true 0 false \/ below <> BACKSLASH).
  { intros str ->. destruct Hbl as [Hb|Hb]; [by right|]. left. by apply split_below. }
  destruct cs as [|c2 cs].
  - cbn [join] in *. rewrite (run_loop_command _ c _ None); [|done|done| |done].
    2:{ destruct (Hsp _ eq_refl) as [->|Hb];
          [apply (split_command c [] true 0)|apply (split_command c [] true below)]; auto; done. }
    cbn [run_commands default from_option].
    assert (N : forall rc rep s, run_loop CB MAXARGS env cmd_process had_ctrlc f [] 0 flag rc rep s =
      Some (if rc =? 0 then rep else rc, s))
      by (destruct f; [destruct (text c); simpl in *; [done|lia]|done]).
    destruct (args c s) as [|a argv]; [by rewrite N|].
    destruct (cmd_process _ _ _ _) as [[ret rep'] s']. destruct (had_ctrlc s'); [done|]. by rewrite N.
  - change (join (c :: c2 :: cs)) with (text c ++ SEMICOLON :: join (c2 :: cs)) in *.
    rewrite length_app in Hf. cbn [length] in Hf.
    rewrite (run_loop_command _ c _ (Some (join (c2 :: cs)))); [|done|done| |by destruct (text c)].
    2:{ destruct (Hsp _ eq_refl) as [->|Hb];
          [apply (split_command c (join (c2 :: cs)) true 0)
          |apply (split_command c (join (c2 :: cs)) true below)]; auto; done. }
    assert (B : before_ok 0 (c2 :: cs)) by (left; done).
    change (run_commands (c :: c2 :: cs) flag rc rep s) with
      (match args c s with
       | [] => run_commands (c2 :: cs) flag (-1) rep s
       | argv =>
           let '(ret, rep, s) := cmd_process s flag argv rep in
           if had_ctrlc s then (-1, s)
           else run_commands (c2 :: cs) flag (if ret =? 0 then rc else -1) rep s
       end).
    cbn [default from_option]. change (id (join (c2 :: cs))) with (join (c2 :: cs)).
    destruct (args c s) as [|a argv]; [apply IH; done || lia|].
    destruct (cmd_process _ _ _ _) as [[ret rep'] s']. destruct (had_ctrlc s'); [done|].
    apply IH; done || lia.
Qed.

End Sequence.

(** ** Witnesses *)
Definition str (s : string) : list Z := map (fun a => Z.of_nat (Ascii.nat_of_ascii a)) (String.list_ascii_of_string s).
Definition env0 (name : list Z) : option (list Z) :=
  if decide (name = str "ip") then Some (str "10.0.0.2") else None.

Lemma process_macros_bounded_witness :
  exists ret out used, cli_simple_process_macros env0 (str "a ${ip} b") 8 = Some (ret, out, used) /\
    Z.of_nat (length out) < 8 /\ used <= 9 /\ (ret = 0 \/ ret = - ENOSPC).
Proof. apply (process_macros_bounded env0 (str "a ${ip} b") 8). lia. Defined.

Lemma process_macros_expands_witness :
  exists used, cli_simple_process_macros env0 (str "x\$ '$ip' ${ip}") 64 =
    Some (0, str "x$ $ip 10.0.0.2", used).
Proof.
  apply (process_macros_expands env0
    [Plain 120; Escaped 36; Plain 32; Quoted (str "$ip"); Plain 32; Var (str "ip")] 64).
  - repeat apply Forall_cons_2; try apply Forall_nil_2; simpl; try done.
    split; [|done]. refine (bool_decide_unpack _ _). vm_compute. exact I.
  - vm_compute. reflexivity.
Defined.

Lemma parse_line_words_witness :
  cli_simple_parse_line 2 (str " setenv  ip ") = ([str "setenv"; str "ip"], false).
Proof.
  apply (parse_line_words 2 (str " ") [(str "setenv", str "  "); (str "ip", str " ")]).
  - lia.
  - apply Forall_cons_2; [done|apply Forall_nil_2].
  - simpl. repeat split; try done; try (by left); repeat apply Forall_cons_2;
      try apply Forall_nil_2; done.
Defined.

End Cli.
