(* ===== verification/PartDos.v ===== *)
(** * DOS partition tables (disk/part_dos.c, disk/part_dos.h)

    The four primary partitions of the master boot record and the chain of
    extended boot records behind an extended partition.  A block device is read
    and written a block at a time through the class [SectorDev]; a request that
    does not report one block is [None].  A block is a list of bytes and an
    entry of its table is sixteen of them.  [lbaint_t] has 64 bits.  Names and
    type strings of a partition and everything printed are left out. *)

From S2P Require Import Prelude Bytes.
Local Open Scope uboot_scope.
Local Open Scope Z_scope.

Module PartDos.

Definition DOS_PART_DISKSIG_OFFSET : Z := 0x1b8.
Definition DOS_PART_TBL_OFFSET : Z := 0x1be.
Definition DOS_PART_MAGIC_OFFSET : Z := 0x1fe.
Definition DOS_PBR_FSTYPE_OFFSET : Z := 0x36.
Definition DOS_PBR32_FSTYPE_OFFSET : Z := 0x52.
Definition DOS_MBR : Z := 0.
Definition DOS_PBR : Z := 1.
Definition DOS_PART_TYPE_EXTENDED : Z := 0x05.
Definition DOS_PART_TYPE_EXTENDED_LBA : Z := 0x0F.
Definition DOS_PART_TYPE_EXTENDED_LINUX : Z := 0x85.
Definition DOS_PART_DEFAULT_GAP : Z := 2048.
Definition DOS_PART_DEFAULT_SECTOR : Z := 512.
Definition MAX_EXT_PARTS : Z := 256.
Definition PART_BOOTABLE : Z := 1.
Definition PART_EFI_SYSTEM_PARTITION : Z := 2.

Class SectorDev (D : Type) := {
  dread : D -> Z -> option (list Z);
  dwrite : D -> Z -> list Z -> option D }.

Record blk_desc := mk_desc { lba : Z; blksz : Z; mbr_sig : option Z }.

(** [uuid] is the disk signature and partition number the string is made of. *)
Record disk_partition := mk_part {
  start : Z; size : Z; pblksz : Z; bootable : Z; psys_ind : Z; uuid : option (Z * Z) }.

(** ** Table entries *)
Definition entry_offset (i : nat) : Z := DOS_PART_TBL_OFFSET + 16 * Z.of_nat i.
Definition boot_ind (b : list Z) (i : nat) : Z := byteat b (entry_offset i).
Definition sys_ind (b : list Z) (i : nat) : Z := byteat b (entry_offset i + 4).
Definition start4 (b : list Z) (i : nat) : Z := get_le 4 b (entry_offset i + 8).
Definition size4 (b : list Z) (i : nat) : Z := get_le 4 b (entry_offset i + 12).

Definition is_extended (part_type : Z) : bool :=
  (part_type =? DOS_PART_TYPE_EXTENDED) || (part_type =? DOS_PART_TYPE_EXTENDED_LBA) ||
  (part_type =? DOS_PART_TYPE_EXTENDED_LINUX).

Definition get_bootable (b : list Z) (i : nat) : Z :=
  Z.lor (if sys_ind b i =? 0xef then PART_EFI_SYSTEM_PARTITION else 0)
        (if boot_ind b i =? 0x80 then PART_BOOTABLE else 0).

Definition has_magic (b : list Z) : bool :=
  (byteat b DOS_PART_MAGIC_OFFSET =? 0x55) && (byteat b (DOS_PART_MAGIC_OFFSET + 1) =? 0xaa).

(** The slots from [slot] on: where the loop stops and the number of entries in use. *)
Fixpoint count_slots (left : nat) (b : list Z) (slot : nat) (part_count : Z) : nat * Z :=
  match left with
  | O => (slot, part_count)
  | S n =>
      if negb (boot_ind b slot =? 0) && negb (boot_ind b slot =? 0x80) then (slot, part_count)
      else count_slots n b (S slot) (if sys_ind b slot =? 0 then part_count else part_count + 1)
  end.

Definition is_fat (b : list Z) : bool :=
  bool_decide (sub b DOS_PBR_FSTYPE_OFFSET 3 = [70; 65; 84]) ||
  bool_decide (sub b DOS_PBR32_FSTYPE_OFFSET 5 = [70; 65; 84; 51; 50]).

Definition test_block_type (b : list Z) : Z :=
  if negb (has_magic b) then -1
  else
    let '(slot, part_count) := count_slots 4 b 0 0 in
    if (negb (Nat.eqb slot 4) || (part_count =? 0)) && is_fat b then DOS_PBR
    else if Nat.eqb slot 4 then DOS_MBR
    else -1.

Definition is_valid_dos_buf (b : list Z) : Z := if test_block_type b =? DOS_MBR then 0 else -1.

Section Read.
  Context {D : Type} `{SectorDev D}.

(** The result and the descriptor, which takes the signature of the record. *)
Definition part_test_dos (d : D) (desc : blk_desc) : Z * blk_desc :=
  match dread d 0 with
  | None => (-1, desc)
  | Some mbr =>
      if negb (test_block_type mbr =? DOS_MBR) then (-1, desc)
      else
        let sig := get_le 4 mbr DOS_PART_DISKSIG_OFFSET in
        match mbr_sig desc with
        | None => (0, if sig =? 0 then desc else mk_desc (lba desc) (blksz desc) (Some sig))
        | Some _ => (0, desc)
        end
  end.

(** The first pass over the table: the entry with the number asked for, or the
    next number.  [sector] is zero in the master boot record. *)
Fixpoint find_part (left : nat) (b : list Z) (i : nat) (sector part_num which_part : Z)
    : nat + Z :=
  match left with
  | O => inr part_num
  | S n =>
      if (Z.land (boot_ind b i) (Z.lnot 0x80) =? 0) && negb (sys_ind b i =? 0) &&
         (part_num =? which_part) && ((sector =? 0) || negb (is_extended (sys_ind b i)))
      then inl i
      else
        find_part n b (S i) sector
          (if (sector =? 0) || negb (sys_ind b i =? 0) && negb (is_extended (sys_ind b i))
           then part_num + 1 else part_num) which_part
  end.

(** The second pass: the first extended entry. *)
Fixpoint find_ext (left : nat) (b : list Z) (i : nat) : option nat :=
  match left with
  | O => None
  | S n => if is_extended (sys_ind b i) then Some i else find_ext n b (S i)
  end.

(** The return value and [*info]; [None] is a recursion out of fuel. *)
Fixpoint part_get_info_extended (fuel : nat) (d : D) (desc : blk_desc)
    (sector relative part_num which_part : Z) (info : disk_partition) (disksig : Z)
    : option (Z * disk_partition) :=
  match fuel with
  | O => None
  | S f =>
      if MAX_EXT_PARTS <? part_num then Some (-1, info)
      else
        match dread d sector with
        | None => Some (-1, info)
        | Some b =>
            if negb (has_magic b) then Some (-1, info)
            else
              let disksig := if sector =? 0 then get_le 4 b DOS_PART_DISKSIG_OFFSET else disksig in
              let bs :=
                if DOS_PART_DEFAULT_SECTOR <? blksz desc then blksz desc
                else DOS_PART_DEFAULT_SECTOR in
              match find_part 4 b 0 sector part_num which_part with
              | inl i =>
                  Some (0, mk_part (sector +64 start4 b i) (size4 b i) bs (get_bootable b i)
                             (sys_ind b i) (Some (disksig, which_part)))
              | inr part_num =>
                  match find_ext 4 b 0 with
                  | Some i =>
                      let lba_start := start4 b i +64 relative in
                      part_get_info_extended f d desc lba_start
                        (if sector =? 0 then lba_start else relative)
                        part_num which_part info disksig
                  | None =>
                      if test_block_type b =? DOS_PBR
                      then Some (0, mk_part 0 (lba desc) bs 0 (psys_ind info) None)
                      else Some (-1, info)
                  end
              end
        end
  end.

Definition part_get_info_dos (fuel : nat) (d : D) (desc : blk_desc) (part : Z)
    (info : disk_partition) : option (Z * disk_partition) :=
  part_get_info_extended fuel d desc 0 0 1 part info 0.

End Read.

(** ** Writing *)

(** Cylinder, head and sector with the upper bits of the cylinder. *)
Definition lba_to_chs (a : Z) : Z * Z * Z :=
  let sectpertrack := 63 in
  let heads := 255 in
  let c := u32 ((a +64 1) / sectpertrack / heads) in
  let h := u32 ((a +64 1) / sectpertrack - c * heads) in
  let s := u32 ((a +64 1) - (c * heads + h) * sectpertrack) in
  let '(c, h, s) := if 1023 <? c then (1023, 254, 63) else (c, h, s) in
  (Z.land c 0xff, u8 h, u8 (s + Z.shiftr (Z.land c 0x300) 2)).

Definition mbr_fill_pt_entry (b : list Z) (i : nat) (start relative size sys_ind : Z)
    (bootable : bool) : list Z :=
  let '(cyl, head, sector) := lba_to_chs start in
  let '(end_cyl, end_head, end_sector) := lba_to_chs (u64 (start + size - 1)) in
  write_at b (entry_offset i)
    ([if bootable then 0x80 else 0x00; head; sector; cyl; u8 sys_ind; end_head; end_sector;
      end_cyl] ++ le_bytes 4 relative ++ le_bytes 4 size).

(** An empty table with its magic number. *)
Definition empty_table (blksz : Z) : list Z :=
  write_at (replicate (Z.to_nat blksz) 0) DOS_PART_MAGIC_OFFSET [0x55; 0xaa].

(** ** Layout

    [info] entries with a zero start or size are given one.  The room of an
    entry ends where the next one with a start begins, less the [gap] of an
    extended boot record, or at [stop]; entries between take their size of it. *)
Fixpoint room_end (rest : list disk_partition) (gap stop allocated : Z) : Z * Z :=
  match rest with
  | [] => (stop, allocated)
  | q :: r =>
      if negb (start q =? 0) then (start q -64 gap, allocated)
      else room_end r gap stop (u64 (allocated + (size q + gap)))
  end.

Definition set_extent (p : disk_partition) (st sz : Z) : disk_partition :=
  mk_part st sz (pblksz p) (bootable p) (psys_ind p) (uuid p).

Definition layout_entry (p : disk_partition) (rest : list disk_partition) (default_start gap stop : Z)
    : disk_partition :=
  let st := if start p =? 0 then default_start else start p in
  let sz :=
    if size p =? 0 then
      let '(e, allocated) := room_end rest gap stop 0 in u64 (e - allocated - st)
    else size p in
  set_extent p st sz.

(** The primary partitions and the last one of type 5. *)
Fixpoint layout_primary (ps : list disk_partition) (next : Z) (total : Z)
    (ext : option disk_partition) : list disk_partition * option disk_partition :=
  match ps with
  | [] => ([], ext)
  | p :: r =>
      let p := layout_entry p r next 0 total in
      let '(r, ext) :=
        layout_primary r (start p +64 size p) total (if psys_ind p =? 0x05 then Some p else ext) in
      (p :: r, ext)
  end.

Fixpoint layout_logical (ps : list disk_partition) (vol_start stop : Z) : list disk_partition :=
  match ps with
  | [] => []
  | p :: r =>
      let p := layout_entry p r (vol_start +64 DOS_PART_DEFAULT_GAP) DOS_PART_DEFAULT_GAP stop in
      p :: layout_logical r (start p +64 size p) stop
  end.

Definition layout_mbr_partitions (ps : list disk_partition) (total_sectors : Z)
    : Z * list disk_partition :=
  let '(prim, ext) := layout_primary (take 4 ps) DOS_PART_DEFAULT_GAP total_sectors None in
  if Z.of_nat (length ps) <=? 4 then (0, prim)
  else
    match ext with
    | None => (- EINVAL, prim ++ drop 4 ps)
    | Some e => (0, prim ++ layout_logical (drop 4 ps) (start e) (start e +64 size e))
    end.

Section Write.
  Context {D : Type} `{SectorDev D}.

(** The primary entries and the start of the extended partition. *)
Fixpoint fill_primary (b : list Z) (i : nat) (ps : list disk_partition) (ext : Z) : list Z * Z :=
  match ps with
  | [] => (b, ext)
  | p :: r =>
      let b := mbr_fill_pt_entry b i (start p) (start p) (size p) (psys_ind p)
                 (negb (bootable p =? 0)) in
      fill_primary b (S i) r (if is_extended (psys_ind p) then start p else ext)
  end.

(** The extended boot record of a logical partition at [sect]; the chain goes
    on behind the partition. *)
Definition ebr_block (bs : Z) (p : disk_partition) (next : option disk_partition)
    (ext_start sect : Z) : list Z :=
  let b := mbr_fill_pt_entry (empty_table bs) 0 (start p) (start p -64 sect) (size p) (psys_ind p)
             (negb (bootable p =? 0)) in
  match next with
  | None => b
  | Some q =>
      let next_ebr := start p +64 size p in
      mbr_fill_pt_entry b 1 next_ebr (next_ebr -64 ext_start)
        (u64 (start q + size q - next_ebr)) DOS_PART_TYPE_EXTENDED false
  end.

Fixpoint write_ebrs (d : D) (bs : Z) (ps : list disk_partition) (ext_start sect : Z) : Z * D :=
  match ps with
  | [] => (0, d)
  | p :: r =>
      match dwrite d sect (ebr_block bs p (hd_error r) ext_start sect) with
      | None => (-1, d)
      | Some d => write_ebrs d bs r ext_start (start p +64 size p)
      end
  end.

Definition write_mbr_partitions (d : D) (desc : blk_desc) (ps : list disk_partition) (disksig : Z)
    : Z * D :=
  let b := put_le 4 (empty_table (blksz desc)) DOS_PART_DISKSIG_OFFSET disksig in
  let '(b, ext) := fill_primary b 0 (take 4 ps) 0 in
  if (4 <? Z.of_nat (length ps)) && (ext =? 0) then (-1, d)
  else
    match dwrite d 0 b with
    | None => (-1, d)
    | Some d => write_ebrs d (blksz desc) (drop 4 ps) ext ext
    end.

Definition write_mbr_sector (d : D) (b : list Z) : Z * D :=
  if negb (is_valid_dos_buf b =? 0) then (-1, d)
  else match dwrite d 0 b with None => (1, d) | Some d => (0, d) end.

End Write.

(** ** Entries of a block *)
Definition entry_bytes (b : list Z) (i : nat) : list Z := sub b (entry_offset i) 16.

Lemma entry_in_block (b : list Z) (i : nat) : (i < 4)%nat -> 512 <= Z.of_nat (length b) ->
  0 <= entry_offset i /\ entry_offset i + 16 <= DOS_PART_MAGIC_OFFSET /\
  DOS_PART_DISKSIG_OFFSET + 6 <= entry_offset i.
Proof. unfold entry_offset, DOS_PART_TBL_OFFSET, DOS_PART_MAGIC_OFFSET, DOS_PART_DISKSIG_OFFSET. lia. Qed.

(** The fields are those of the entry's bytes. *)
Lemma entry_fields b i :
  boot_ind b i = byteat (entry_bytes b i) 0 /\ sys_ind b i = byteat (entry_bytes b i) 4 /\
  start4 b i = le_val (sub (entry_bytes b i) 8 4) /\ size4 b i = le_val (sub (entry_bytes b i) 12 4).
Proof.
  assert (0 <= entry_offset i) by (unfold entry_offset, DOS_PART_TBL_OFFSET; lia).
  unfold boot_ind, sys_ind, start4, size4, get_le, entry_bytes.
  rewrite !byteat_sub, !sub_sub by lia. by rewrite Z.add_0_r.
Qed.

Definition entry_data (st rel sz si : Z) (boot : bool) : list Z :=
  let '(cyl, head, sector) := lba_to_chs st in
  let '(end_cyl, end_head, end_sector) := lba_to_chs (u64 (st + sz - 1)) in
  [if boot then 0x80 else 0x00; head; sector; cyl; u8 si; end_head; end_sector; end_cyl]
    ++ le_bytes 4 rel ++ le_bytes 4 sz.

Lemma length_entry_data st rel sz si boot : length (entry_data st rel sz si boot) = 16%nat.
Proof.
  unfold entry_data. destruct (lba_to_chs st) as [[]], (lba_to_chs (u64 (st + sz - 1))) as [[]]. done.
Qed.

Lemma fill_is_write b i st rel sz si boot :
  mbr_fill_pt_entry b i st rel sz si boot = write_at b (entry_offset i) (entry_data st rel sz si boot).
Proof.
  unfold mbr_fill_pt_entry, entry_data.
  by destruct (lba_to_chs st) as [[]], (lba_to_chs (u64 (st + sz - 1))) as [[]].
Qed.

Lemma entry_data_fields st rel sz si boot :
  byteat (entry_data st rel sz si boot) 0 = (if boot then 0x80 else 0) /\
  byteat (entry_data st rel sz si boot) 4 = u8 si /\
  le_val (sub (entry_data st rel sz si boot) 8 4) = rel mod 4294967296 /\
  le_val (sub (entry_data st rel sz si boot) 12 4) = sz mod 4294967296.
Proof.
  unfold entry_data. destruct (lba_to_chs st) as [[]], (lba_to_chs (u64 (st + sz - 1))) as [[]].
  pose proof (le_val_bytes 4 rel). pose proof (le_val_bytes 4 sz). done.
Qed.

(** What an entry of a block says. *)
Definition entry_is (b : list Z) (i : nat) (rel sz si : Z) (boot : bool) : Prop :=
  boot_ind b i = (if boot then 0x80 else 0) /\ sys_ind b i = si /\ start4 b i = rel /\ size4 b i = sz.

(** A block with room for a table. *)
Definition table (b : list Z) : Prop := 512 <= Z.of_nat (length b) /\ has_magic b = true.

Lemma fill_same b i st rel sz si boot : table b -> (i < 4)%nat ->
  is_u32 rel -> is_u32 sz -> is_u8 si ->
  entry_is (mbr_fill_pt_entry b i st rel sz si boot) i rel sz si boot.
Proof.
  intros [Hl _] Hi Hr Hz Hs. destruct (entry_in_block b i Hi Hl) as (H1 & H2 & _).
  unfold DOS_PART_MAGIC_OFFSET in H2. unfold entry_is.
  destruct (entry_fields (mbr_fill_pt_entry b i st rel sz si boot) i) as (-> & -> & -> & ->).
  pose proof (length_entry_data st rel sz si boot) as L.
  assert (E : entry_bytes (mbr_fill_pt_entry b i st rel sz si boot) i = entry_data st rel sz si boot).
  { rewrite fill_is_write. unfold entry_bytes. change 16 with (Z.of_nat 16). rewrite <- L.
    apply sub_write_at_same; lia. }
  rewrite E. destruct (entry_data_fields st rel sz si boot) as (-> & -> & -> & ->).
  unfold is_u32, is_u8 in *. rewrite u8_small by lia. by rewrite !Z.mod_small by lia.
Qed.

Lemma fill_other b i j st rel sz si boot rel' sz' si' boot' : table b -> (i < 4)%nat -> (j < 4)%nat ->
  i <> j -> entry_is b j rel' sz' si' boot' ->
  entry_is (mbr_fill_pt_entry b i st rel sz si boot) j rel' sz' si' boot'.
Proof.
  intros [Hl _] Hi Hj Hne. destruct (entry_in_block b i Hi Hl) as (H1 & H2 & _).
  unfold DOS_PART_MAGIC_OFFSET in H2. unfold entry_is.
  destruct (entry_fields (mbr_fill_pt_entry b i st rel sz si boot) j) as (-> & -> & -> & ->).
  destruct (entry_fields b j) as (-> & -> & -> & ->).
  pose proof (length_entry_data st rel sz si boot) as L.
  assert (E : entry_bytes (mbr_fill_pt_entry b i st rel sz si boot) j = entry_bytes b j).
  { rewrite fill_is_write. unfold entry_bytes. apply sub_write_at_out;
      unfold entry_offset, DOS_PART_TBL_OFFSET in *; rewrite ?L; lia. }
  by rewrite E.
Qed.

Lemma fill_table b i st rel sz si boot : table b -> (i < 4)%nat ->
  table (mbr_fill_pt_entry b i st rel sz si boot) /\
  get_le 4 (mbr_fill_pt_entry b i st rel sz si boot) DOS_PART_DISKSIG_OFFSET =
  get_le 4 b DOS_PART_DISKSIG_OFFSET.
Proof.
  intros [Hl Hm] Hi. destruct (entry_in_block b i Hi Hl) as (H1 & H2 & H3).
  pose proof (length_entry_data st rel sz si boot) as L. rewrite fill_is_write.
  unfold table, has_magic, get_le in *. rewrite length_write_at.
  unfold DOS_PART_MAGIC_OFFSET, DOS_PART_DISKSIG_OFFSET in *.
  rewrite !byteat_write_at by (rewrite ?L; lia). rewrite !decide_False by (rewrite ?L; lia).
  rewrite sub_write_at_out by (rewrite ?L; lia). done.
Qed.

Lemma empty_table_ok bs : 512 <= bs ->
  table (empty_table bs) /\ forall j, (j < 4)%nat -> entry_is (empty_table bs) j 0 0 0 false.
Proof.
  intros Hb. unfold table, has_magic, empty_table.
  assert (L : Z.of_nat (length (replicate (Z.to_nat bs) 0)) = bs) by (rewrite length_replicate; lia).
  rewrite length_write_at, !byteat_write_at by (unfold DOS_PART_MAGIC_OFFSET in *; simpl; lia).
  rewrite !decide_True by (unfold DOS_PART_MAGIC_OFFSET; simpl; lia).
  split; [split; [lia|done]|]. intros j Hj. unfold entry_is.
  match goal with |- context [boot_ind ?b j] => destruct (entry_fields b j) as (-> & -> & -> & ->) end.
  assert (E : entry_bytes (write_at (replicate (Z.to_nat bs) 0) DOS_PART_MAGIC_OFFSET [85; 170]) j
              = replicate 16 0).
  { unfold entry_bytes. rewrite sub_write_at_out
      by (unfold entry_offset, DOS_PART_TBL_OFFSET, DOS_PART_MAGIC_OFFSET; simpl; lia).
    unfold sub. rewrite drop_replicate, take_replicate. f_equal.
    unfold entry_offset, DOS_PART_TBL_OFFSET. lia. }
  rewrite E. done.
Qed.

(** ** Reading a table *)
Definition boot_flag (p : disk_partition) : bool := negb (bootable p =? 0).

(** The mask a reader makes of a partition that was written. *)
Definition boot_mask (p : disk_partition) : Z :=
  Z.lor (if psys_ind p =? 0xef then PART_EFI_SYSTEM_PARTITION else 0)
        (if boot_flag p then PART_BOOTABLE else 0).

Definition entry_of (b : list Z) (i : nat) (rel : Z) (p : disk_partition) : Prop :=
  entry_is b i rel (size p) (psys_ind p) (boot_flag p).

Lemma entry_bootable b i rel p : entry_of b i rel p -> get_bootable b i = boot_mask p.
Proof.
  intros (Eb & Es & _ & _). unfold get_bootable, boot_mask. rewrite Eb, Es. by destruct (boot_flag p).
Qed.

Lemma boot_bits (f : bool) : (Z.land (if f then 0x80 else 0) (Z.lnot 0x80) =? 0) = true.
Proof. by destruct f. Qed.

(** In the master boot record every entry has a number. *)
Lemma find_part_primary left b i k rel p : (left + i = 4)%nat -> (i <= k < 4)%nat ->
  entry_of b k rel p -> psys_ind p <> 0 ->
  find_part left b i 0 (Z.of_nat i + 1) (Z.of_nat k + 1) = inl k.
Proof.
  revert i. induction left as [|n IH]; intros i Hl Hk He Hp; [lia|]. cbn [find_part].
  destruct (decide (i = k)) as [->|Hne].
  - destruct He as (-> & -> & _ & _). rewrite boot_bits, Z.eqb_refl, (proj2 (Z.eqb_neq _ 0)) by done. done.
  - rewrite (proj2 (Z.eqb_neq (_ + 1) (_ + 1))) by lia. rewrite andb_false_r. simpl.
    rewrite <- (IH (S i)) by (done || lia). f_equal; lia.
Qed.

Lemma find_part_behind left b i which : (left + i = 4)%nat -> 4 < which ->
  find_part left b i 0 (Z.of_nat i + 1) which = inr 5.
Proof.
  revert i. induction left as [|n IH]; intros i Hl Hw; cbn [find_part].
  - f_equal. lia.
  - rewrite (proj2 (Z.eqb_neq (_ + 1) which)) by lia. rewrite andb_false_r. simpl.
    rewrite <- (IH (S i)) by (done || lia). f_equal; lia.
Qed.

Lemma find_ext_first left b i k : (i <= k < left + i)%nat -> is_extended (sys_ind b k) = true ->
  (forall j, (i <= j < k)%nat -> is_extended (sys_ind b j) = false) -> find_ext left b i = Some k.
Proof.
  revert i. induction left as [|n IH]; intros i Hk He Hn; [lia|]. simpl.
  destruct (decide (i = k)) as [->|Hne]; [by rewrite He|]. rewrite Hn by lia.
  apply IH; [lia|done|]. intros. apply Hn. lia.
Qed.

(** ** Extended boot records *)

(** What the partitions behind a boot record at [s] must be like for the chain
    to go forward within 32 bits. *)
Fixpoint chain_ok (ps : list disk_partition) (ext s : Z) : Prop :=
  match ps with
  | [] => True
  | p :: r =>
      0 < ext <= s /\ s <= start p /\ 0 < size p /\ start p + size p < 4294967296 /\
      is_u8 (psys_ind p) /\ psys_ind p <> 0 /\ is_extended (psys_ind p) = false /\
      chain_ok r ext (start p + size p)
  end.

Lemma ebr_block_spec bs p r ext s : 512 <= bs -> chain_ok (p :: r) ext s ->
  let b := ebr_block bs p (hd_error r) ext s in
  table b /\ entry_of b 0 (start p - s) p /\
  entry_is b 2 0 0 0 false /\ entry_is b 3 0 0 0 false /\
  match r with
  | [] => entry_is b 1 0 0 0 false
  | q :: _ => exists sz, entry_is b 1 (start p + size p - ext) sz DOS_PART_TYPE_EXTENDED false
  end.
Proof.
  intros Hb (He & Hs & Hz & Hm & Hu & _ & _ & Hr) b.
  destruct (empty_table_ok bs Hb) as [T E].
  unfold b, ebr_block. set (b0 := mbr_fill_pt_entry (empty_table bs) 0 _ _ _ _ _).
  assert (T0 : table b0) by (apply fill_table; [done|lia]).
  assert (E0 : entry_of b0 0 (start p - s) p).
  { unfold b0, entry_of, boot_flag. rewrite u64_small by lia. apply fill_same; try done; unfold is_u32; lia. }
  assert (Z0 : forall j, (0 < j < 4)%nat -> entry_is b0 j 0 0 0 false)
    by (intros j Hj; apply fill_other; try done; try lia; apply E; lia).
  destruct r as [|q r]; cbn [hd_error].
  - repeat split; try done; apply Z0 || apply E0 || apply T0; lia.
  - destruct Hr as (_ & Hs2 & Hz2 & Hm2 & _).
    rewrite !u64_small by (rewrite ?u64_small by lia; lia).
    split; [apply fill_table; [done|lia]|].
    split; [apply fill_other; done || lia|].
    split; [apply fill_other; try (done || lia); apply Z0; lia|].
    split; [apply fill_other; try (done || lia); apply Z0; lia|].
    eexists. apply fill_same; try done; try lia; unfold is_u32; lia.
Qed.

Lemma find_part_logical b s n which rel p r1 s1 si1 f1 :
  entry_of b 0 rel p -> psys_ind p <> 0 -> is_extended (psys_ind p) = false -> s <> 0 ->
  entry_is b 1 r1 s1 si1 f1 -> si1 = 0 \/ is_extended si1 = true ->
  entry_is b 2 0 0 0 false -> entry_is b 3 0 0 0 false ->
  find_part 4 b 0 s n which = if n =? which then inl 0%nat else inr (n + 1).
Proof.
  intros (A0 & B0 & _) Hp Hx Hs (A1 & B1 & _) H1 (A2 & B2 & _) (A3 & B3 & _). cbn [find_part].
  rewrite A0, B0, A1, B1, A2, B2, A3, B3, !boot_bits.
  rewrite (proj2 (Z.eqb_neq s 0)), (proj2 (Z.eqb_neq (psys_ind p) 0)), Hx by done. simpl.
  destruct (n =? which); [done|].
  destruct H1 as [-> |He]; [done|]. rewrite He, !andb_false_r. done.
Qed.

Section Device.
  Context {D : Type} `{SD : SectorDev D}.

(** Blocks that were written are there. *)
Class SectorLaws := {
  dwrite_same d s b d' : dwrite d s b = Some d' -> dread d' s = Some b;
  dwrite_other d s b d' s' : dwrite d s b = Some d' -> s' <> s -> dread d' s' = dread d s' }.
Context `{SL : SectorLaws}.

Fixpoint chain (d : D) (bs : Z) (ps : list disk_partition) (ext s : Z) : Prop :=
  match ps with
  | [] => True
  | p :: r => dread d s = Some (ebr_block bs p (hd_error r) ext s) /\
              chain d bs r ext (start p + size p)
  end.

Lemma write_ebrs_chain d bs ps ext s d' : chain_ok ps ext s ->
  write_ebrs d bs ps ext s = (0, d') ->
  chain d' bs ps ext s /\ forall s', s' < s -> dread d' s' = dread d s'.
Proof.
  revert d s. induction ps as [|p r IH]; intros d s; cbn [write_ebrs chain chain_ok].
  { by intros _ [= ->]. }
  intros (He & Hs & Hz & Hm & _ & _ & _ & Hr) Hw.
  destruct (dwrite d s _) as [d1|] eqn:E; [|done].
  rewrite u64_small in Hw by lia. destruct (IH d1 _ Hr Hw) as [Hc Ho]. split; [split; [|done]|].
  - rewrite Ho by lia. by eapply dwrite_same.
  - intros s' Hs'. rewrite Ho by lia. eapply dwrite_other; [exact E|lia].
Qed.

Definition block_size (desc : blk_desc) : Z :=
  if DOS_PART_DEFAULT_SECTOR <? blksz desc then blksz desc else DOS_PART_DEFAULT_SECTOR.

(** The partition a reader gives for one that was written. *)
Definition as_read (desc : blk_desc) (p : disk_partition) (sig n : Z) : disk_partition :=
  mk_part (start p) (size p) (block_size desc) (boot_mask p) (psys_ind p) (Some (sig, n)).

Lemma read_chain fuel d desc bs ps ext s n k p info sig : 512 <= bs -> chain_ok ps ext s ->
  chain d bs ps ext s -> ps !! k = Some p -> (k < fuel)%nat -> n + Z.of_nat k <= MAX_EXT_PARTS ->
  part_get_info_extended fuel d desc s ext n (n + Z.of_nat k) info sig =
    Some (0, as_read desc p sig (n + Z.of_nat k)).
Proof.
  intros Hb. revert ps s n k. induction fuel as [|f IH]; intros ps s n k Ok C Hk Hf Hn; [lia|].
  destruct ps as [|q r]; [done|]. pose proof Ok as (He & Hs & Hz & Hm & Hu & H0 & Hx & Hr).
  destruct C as [Cr Cc]. destruct (ebr_block_spec bs q r ext s Hb Ok) as (T & E0 & E2 & E3 & E1).
  set (b := ebr_block bs q (hd_error r) ext s) in *. cbn [part_get_info_extended].
  rewrite (proj2 (Z.ltb_ge _ _)) by lia. rewrite Cr. destruct T as [_ Hmagic]. rewrite Hmagic. simpl negb.
  cbv iota. rewrite (proj2 (Z.eqb_neq s 0)) by lia.
  assert (F : find_part 4 b 0 s n (n + Z.of_nat k) =
              if n =? n + Z.of_nat k then inl 0%nat else inr (n + 1)).
  { destruct r as [|q2 r]; [|destruct E1 as [sz E1]]; eapply find_part_logical; eauto; lia. }
  rewrite F. destruct k as [|k].
  - rewrite (proj2 (Z.eqb_eq _ _)) by lia. simpl in Hk. injection Hk as ->.
    rewrite (entry_bootable _ _ _ _ E0). destruct E0 as (_ & -> & -> & ->).
    rewrite u64_small by lia. unfold as_read, block_size. do 3 f_equal. lia.
  - rewrite (proj2 (Z.eqb_neq _ _)) by lia. simpl in Hk. destruct r as [|q2 r]; [done|].
    destruct E1 as [sz E1].
    assert (X : find_ext 4 b 0 = Some 1%nat).
    { apply find_ext_first; [lia|by destruct E1 as (_ & -> & _)|].
      intros j Hj. assert (j = 0%nat) as -> by lia. destruct E0 as (_ & -> & _). done. }
    rewrite X. destruct E1 as (_ & _ & -> & _).
    rewrite u64_small by lia. replace (start q + size q - ext + ext) with (start q + size q) by lia.
    replace (n + Z.of_nat (S k)) with (n + 1 + Z.of_nat k) by lia. apply (IH (q2 :: r)); done || lia.
Qed.
End Device.

(** ** The master boot record *)
Definition primary_ok (p : disk_partition) : Prop :=
  is_u32 (start p) /\ is_u32 (size p) /\ is_u8 (psys_ind p) /\ psys_ind p <> 0.

Lemma fill_primary_spec ps b i ext : table b -> Forall primary_ok ps ->
  (i + length ps <= 4)%nat ->
  let '(b', ext') := fill_primary b i ps ext in
  table b' /\ get_le 4 b' DOS_PART_DISKSIG_OFFSET = get_le 4 b DOS_PART_DISKSIG_OFFSET /\
  (forall j rel sz si f, (j < 4)%nat -> (j < i \/ i + length ps <= j)%nat ->
     entry_is b j rel sz si f -> entry_is b' j rel sz si f) /\
  (forall k p, ps !! k = Some p -> entry_of b' (i + k) (start p) p).
Proof.
  intros T Hps. revert b i ext T. induction Hps as [|p ps Hp Hps IH]; intros b i ext T Hl; simpl in *.
  { done. }
  destruct Hp as (Hs & Hz & Hu & _).
  destruct (fill_table b i (start p) (start p) (size p) (psys_ind p) (boot_flag p) T ltac:(lia)) as [T1 G1].
  specialize (IH (mbr_fill_pt_entry b i (start p) (start p) (size p) (psys_ind p) (boot_flag p)) (S i)
    (if is_extended (psys_ind p) then start p else ext) T1 ltac:(lia)).
  unfold boot_flag in *. destruct (fill_primary _ _ _ _) as [b' ext']. destruct IH as (T2 & G2 & O2 & E2).
  split; [done|]. split; [congruence|]. split.
  - intros j rel sz si f Hj Hout He. apply O2; [done|lia|]. apply fill_other; done || lia.
  - intros [|k] q Hk; simpl in Hk.
    + injection Hk as <-. rewrite Nat.add_0_r. apply O2; [lia|lia|]. apply fill_same; done || lia.
    + rewrite Nat.add_succ_r. by apply (E2 k).
Qed.

(** The extended partition whose start the writer keeps. *)
Lemma fill_primary_ext ps b i ext k p : ps !! k = Some p -> is_extended (psys_ind p) = true ->
  (forall j q, ps !! j = Some q -> j <> k -> is_extended (psys_ind q) = false) ->
  snd (fill_primary b i ps ext) = start p.
Proof.
  revert b i ext k. induction ps as [|q ps IH]; intros b i ext k Hk He Ho; [done|]. simpl.
  destruct k as [|k]; simpl in Hk.
  - injection Hk as ->. rewrite He.
    assert (N : forall b i e, snd (fill_primary b i ps e) = e).
    { assert (Hn : forall j q, ps !! j = Some q -> is_extended (psys_ind q) = false)
        by (intros j q Hq; by apply (Ho (S j))).
      clear - Hn. induction ps as [|q ps IH]; intros b i e; simpl; [done|].
      rewrite (Hn 0%nat q eq_refl). apply IH. intros j r Hr. by apply (Hn (S j)). }
    apply N.
  - apply (IH _ _ _ k); [done|done|]. intros j r Hr Hj. by apply (Ho (S j)); [|lia].
Qed.

(** A set of partitions that can be written: at most 256 of them, and behind
    the fourth only logical partitions in the single extended one. *)
Definition partitions_ok (ps : list disk_partition) : Prop :=
  (length ps <= 256)%nat /\ Forall primary_ok (take 4 ps) /\
  (drop 4 ps <> [] -> exists k e, (k < 4)%nat /\ ps !! k = Some e /\
     is_extended (psys_ind e) = true /\ chain_ok (drop 4 ps) (start e) (start e) /\
     forall j q, (j < 4)%nat -> ps !! j = Some q -> j <> k -> is_extended (psys_ind q) = false).

Section RoundTrip.
  Context {D : Type} `{SD : SectorDev D} `{SL : !SectorLaws}.

(** The master boot record on the device after a successful write. *)
Lemma write_mbr_blocks d desc ps sig d' : 512 <= blksz desc -> partitions_ok ps ->
  write_mbr_partitions d desc ps sig = (0, d') ->
  exists b, dread d' 0 = Some b /\ table b /\
    get_le 4 b DOS_PART_DISKSIG_OFFSET = sig mod 4294967296 /\
    (forall k p, (k < 4)%nat -> ps !! k = Some p -> entry_of b k (start p) p) /\
    (forall k e, (k < 4)%nat -> ps !! k = Some e -> is_extended (psys_ind e) = true -> drop 4 ps <> [] ->
       (forall j q, (j < 4)%nat -> ps !! j = Some q -> j <> k -> is_extended (psys_ind q) = false) ->
       chain_ok (drop 4 ps) (start e) (start e) ->
       chain d' (blksz desc) (drop 4 ps) (start e) (start e)).
Proof.
  intros Hb (Hl & Hp & Hx) Hw. unfold write_mbr_partitions in Hw.
  destruct (empty_table_ok (blksz desc) Hb) as [T _].
  assert (T0 : table (put_le 4 (empty_table (blksz desc)) DOS_PART_DISKSIG_OFFSET sig)).
  { destruct T as [Tl Tm]. unfold table, has_magic, put_le in *.
    rewrite length_write_at, !byteat_write_at, !decide_False; try done; rewrite ?length_le_bytes;
      unfold DOS_PART_MAGIC_OFFSET, DOS_PART_DISKSIG_OFFSET; lia. }
  set (b0 := put_le 4 _ _ _) in *.
  assert (G0 : get_le 4 b0 DOS_PART_DISKSIG_OFFSET = sig mod 4294967296).
  { destruct T as [Tl _]. unfold b0. rewrite get_put_le by (unfold DOS_PART_DISKSIG_OFFSET; lia). done. }
  pose proof (fill_primary_spec (take 4 ps) b0 0 0 T0 Hp ltac:(rewrite length_take; lia)) as F.
  pose proof (fill_primary_ext (take 4 ps) b0 0 0) as X.
  destruct (fill_primary b0 0 (take 4 ps) 0) as [b ext]. destruct F as (T1 & G1 & _ & E1). simpl in X.
  destruct (_ && _); [done|]. destruct (dwrite d 0 b) as [d1|] eqn:W; [|done].
  assert (R0 : dread d' 0 = Some b /\ forall k e, (k < 4)%nat -> ps !! k = Some e ->
     is_extended (psys_ind e) = true -> drop 4 ps <> [] ->
     (forall j q, (j < 4)%nat -> ps !! j = Some q -> j <> k -> is_extended (psys_ind q) = false) ->
     chain_ok (drop 4 ps) (start e) (start e) ->
     chain d' (blksz desc) (drop 4 ps) (start e) (start e)).
  { destruct (drop 4 ps) as [|l r] eqn:Ed.
    - injection Hw as <-. split; [by eapply dwrite_same|done].
    - destruct Hx as (k & e & Hk & He & Hext & Hc & Ho); [done|].
      assert (Ext : ext = start e).
      { apply (X k e); [by rewrite lookup_take_lt by lia|done|].
        intros j q Hq Hj. apply lookup_take_Some in Hq as [Hq ?]. by apply (Ho j). }
      subst ext. destruct (write_ebrs_chain _ _ _ _ _ _ Hc Hw) as [Ch Oth]. split.
      + rewrite Oth by (destruct Hc; lia). by eapply dwrite_same.
      + intros k' e' Hk' He' Hext' _ Ho' _. destruct (decide (k' = k)) as [->|Hne]; [congruence|].
        rewrite (Ho k' e' Hk' He' Hne) in Hext'. done. }
  exists b. destruct R0 as [R0 RC]. split; [done|]. split; [done|]. split; [congruence|].
  split; [|exact RC]. intros k p Hk Hkp. apply (E1 k). by rewrite lookup_take_lt.
Qed.

(** C29: partitions written by [write_mbr_partitions], primary ones and logical ones in an
    extended partition, are found again by number with their start, size, type and flags. *)
Theorem mbr_partitions_roundtrip d desc ps sig d' k p info : 512 <= blksz desc ->
  partitions_ok ps -> write_mbr_partitions d desc ps sig = (0, d') -> ps !! k = Some p ->
  part_get_info_dos (S (length ps)) d' desc (Z.of_nat k + 1) info =
    Some (0, as_read desc p (sig mod 4294967296) (Z.of_nat k + 1)).
Proof.
  intros Hb Hok Hw Hk. destruct (write_mbr_blocks _ _ _ _ _ Hb Hok Hw) as (b & R & [_ M] & G & E & C).
  destruct Hok as (Hl & Hp & Hx). pose proof (lookup_lt_Some _ _ _ Hk) as Hlt.
  unfold part_get_info_dos. cbn [part_get_info_extended]. simpl (_ <? 1). rewrite R, M. simpl negb.
  rewrite Z.eqb_refl, G. cbv iota.
  destruct (decide (k < 4)%nat) as [H4|H4].
  - specialize (E k p H4 Hk).
    assert (Hs : primary_ok p)
      by (rewrite Forall_lookup in Hp; apply (Hp k); by rewrite lookup_take_lt).
    destruct Hs as (Hs & Hz & _ & H0). unfold is_u32 in *.
    pose proof (find_part_primary 4 b 0 k (start p) p eq_refl ltac:(lia) E H0) as F.
    change (Z.of_nat 0 + 1) with 1 in F.
    rewrite F, (entry_bootable _ _ _ _ E). destruct E as (_ & -> & -> & ->).
    rewrite u64_small by lia. unfold as_read, block_size. do 3 f_equal.
  - pose proof (find_part_behind 4 b 0 (Z.of_nat k + 1) eq_refl ltac:(lia)) as F5.
    change (Z.of_nat 0 + 1) with 1 in F5. rewrite F5. clear F5.
    destruct Hx as (e & q & He & Hq & Hext & Hc & Ho).
    { intros Hn. apply (f_equal length) in Hn. rewrite length_drop in Hn. simpl in Hn. lia. }
    assert (F : find_ext 4 b 0 = Some e).
    { apply find_ext_first; [lia| |].
      - destruct (E e q He Hq) as (_ & -> & _). done.
      - intros j Hj. assert (Hjl : (j < length ps)%nat) by (pose proof (lookup_lt_Some _ _ _ Hq); lia).
        apply lookup_lt_is_Some in Hjl as [r Hr].
        destruct (E j r ltac:(lia) Hr) as (_ & -> & _). apply (Ho j); done || lia. }
    rewrite F. destruct (E e q He Hq) as (_ & _ & -> & _).
    assert (Hd : drop 4 ps <> []).
    { intros Hn. apply (f_equal length) in Hn. rewrite length_drop in Hn. simpl in Hn. lia. }
    specialize (C e q He Hq Hext Hd Ho Hc).
    rewrite Z.add_0_r, u64_small.
    2: { destruct (drop 4 ps); [done|]. destruct Hc as (? & ? & ? & ? & _). lia. }
    replace (Z.of_nat k + 1) with (5 + Z.of_nat (k - 4)) by lia.
    apply (read_chain _ _ _ (blksz desc) (drop 4 ps)); try done.
    + rewrite lookup_drop. rewrite <- Hk. f_equal. lia.
    + lia.
    + unfold MAX_EXT_PARTS. lia.
Qed.

(** C40: the limit on nested tables counts partitions, not tables: an extended boot record
    that has no partition and whose link points to itself is followed for ever. *)
Theorem self_link_never_ends fuel d desc b s n which info sig : s <> 0 -> n <= MAX_EXT_PARTS ->
  0 <= s < 4294967296 -> dread d s = Some b -> has_magic b = true ->
  sys_ind b 0 = DOS_PART_TYPE_EXTENDED -> start4 b 0 = 0 ->
  sys_ind b 1 = 0 -> sys_ind b 2 = 0 -> sys_ind b 3 = 0 ->
  part_get_info_extended fuel d desc s s n which info sig = None.
Proof.
  intros Hs Hn Hr R M E0 L0 E1 E2 E3. induction fuel as [|f IH]; [done|].
  cbn [part_get_info_extended]. rewrite (proj2 (Z.ltb_ge _ _)) by lia. rewrite R, M. simpl negb. cbv iota.
  assert (F : find_part 4 b 0 s n which = inr n).
  { cbn [find_part]. rewrite E0, E1, E2, E3, (proj2 (Z.eqb_neq s 0)) by done. simpl.
    by rewrite !andb_false_r. }
  rewrite F. assert (X : find_ext 4 b 0 = Some 0%nat) by (simpl; by rewrite E0).
  rewrite X, L0, (proj2 (Z.eqb_neq s 0)) by done. simpl. by rewrite u64_small by lia.
Qed.
End RoundTrip.

(** ** Layout *)
Definition given (p : disk_partition) : Prop := start p <> 0 /\ size p <> 0.

Lemma layout_entry_given p r def gap stop : given p -> layout_entry p r def gap stop = p.
Proof.
  intros [Hs Hz]. unfold layout_entry.
  rewrite (proj2 (Z.eqb_neq (start p) 0)), (proj2 (Z.eqb_neq (size p) 0)) by done. by destruct p.
Qed.

(** Partitions with a start and a size of their own are left as they are. *)
Lemma layout_keeps_given ps total : Forall given ps -> snd (layout_mbr_partitions ps total) = ps.
Proof.
  intros Hg. unfold layout_mbr_partitions.
  assert (P : forall l next ext, Forall given l -> fst (layout_primary l next total ext) = l).
  { induction l as [|p l IH]; intros next ext Hl; [done|]. apply Forall_cons in Hl as [Hp Hl].
    cbn [layout_primary]. rewrite layout_entry_given by done.
    specialize (IH (u64 (start p + size p)) (if psys_ind p =? 5 then Some p else ext) Hl).
    destruct (layout_primary l _ _ _) as [l' e']. simpl in *. by subst l'. }
  assert (L : forall l s e, Forall given l -> layout_logical l s e = l).
  { induction l as [|p l IH]; intros s e Hl; [done|]. apply Forall_cons in Hl as [Hp Hl]. simpl.
    rewrite layout_entry_given by done. by rewrite IH. }
  specialize (P (take 4 ps) DOS_PART_DEFAULT_GAP None ltac:(by apply Forall_take)).
  destruct (layout_primary _ _ _ _) as [prim ext]. simpl in P. subst prim.
  destruct (Z.leb_spec (Z.of_nat (length ps)) 4); simpl; [apply take_ge; lia|].
  destruct ext; simpl; [rewrite L by (by apply Forall_drop)|]; apply take_drop.
Qed.

(** An entry without a start follows the one before, one without a size takes
    the room up to the next start. *)
Lemma layout_fills p q total : start p = 0 -> size p = 0 -> DOS_PART_DEFAULT_GAP < start q ->
  size q = 0 -> start q < total < 18446744073709551616 ->
  snd (layout_mbr_partitions [p; q] total) =
    [set_extent p DOS_PART_DEFAULT_GAP (start q - DOS_PART_DEFAULT_GAP);
     set_extent q (start q) (total - start q)].
Proof.
  unfold DOS_PART_DEFAULT_GAP. intros Hs Hz Hq Hqz Ht.
  unfold layout_mbr_partitions, layout_primary, layout_entry, room_end. cbn [take fst snd].
  rewrite Hs, Hz, Hqz, (proj2 (Z.eqb_neq (start q) 0)) by lia. simpl.
  rewrite !Z.sub_0_r, (u64_small (start q)), !u64_small by (unfold DOS_PART_DEFAULT_GAP; lia). done.
Qed.

(** ** A device of written blocks *)
Fixpoint find_block (d : list (Z * list Z)) (s : Z) : option (list Z) :=
  match d with [] => None | (t, b) :: r => if t =? s then Some b else find_block r s end.

#[export] Instance block_list : SectorDev (list (Z * list Z)) := {|
  dread := find_block; dwrite d s b := Some ((s, b) :: d) |}.

#[export] Instance block_list_laws : SectorLaws (D := list (Z * list Z)).
Proof.
  split.
  - intros d s b d' [= <-]. simpl. by rewrite Z.eqb_refl.
  - intros d s b d' s' [= <-] Hne. simpl. by rewrite (proj2 (Z.eqb_neq s s')) by done.
Qed.

(** ** Witnesses *)
Definition disk_desc : blk_desc := mk_desc 100000 512 None.
Definition no_info : disk_partition := mk_part 0 0 0 0 0 None.
Definition five_parts : list disk_partition :=
  [mk_part 2048 4096 512 1 0x0c None; mk_part 6144 2048 512 0 0x83 None;
   mk_part 8192 20000 512 0 0x05 None; mk_part 30000 1000 512 0 0xef None;
   mk_part 10240 1024 512 0 0x83 None].

Lemma mbr_partitions_roundtrip_witness :
  part_get_info_dos 6 (snd (write_mbr_partitions [] disk_desc five_parts 0x1234)) disk_desc 5 no_info =
    Some (0, as_read disk_desc (mk_part 10240 1024 512 0 0x83 None) 0x1234 5).
Proof.
  apply (mbr_partitions_roundtrip [] disk_desc five_parts 0x1234
    (snd (write_mbr_partitions [] disk_desc five_parts 0x1234)) 4%nat); [simpl; lia| |vm_compute; reflexivity|reflexivity].
  split; [simpl; lia|]. split.
  - simpl. repeat apply Forall_cons_2; try apply Forall_nil_2; unfold primary_ok, is_u32, is_u8; simpl; lia.
  - intros _. exists 2%nat, (mk_part 8192 20000 512 0 0x05 None). split; [lia|]. split; [reflexivity|].
    split; [reflexivity|]. split; [simpl; unfold is_u8; repeat split; lia || done|].
    intros j q Hj Hq Hne. destruct j as [|[|[|[|j]]]]; simpl in Hq; try lia;
      injection Hq as <-; reflexivity.
Defined.

Definition self_link : list Z := mbr_fill_pt_entry (empty_table 512) 0 4096 0 1 0x05 false.

Lemma self_link_never_ends_witness :
  part_get_info_extended 1000 [(4096, self_link)] disk_desc 4096 4096 5 6 no_info 0 = None.
Proof.
  apply (self_link_never_ends 1000 [(4096, self_link)] disk_desc self_link 4096 5 6 no_info 0);
    try lia; vm_compute; reflexivity || congruence.
Defined.
End PartDos.
