(* ===== verification/Strto.v ===== *)
(** * Characters and numbers in strings (lib/ctype.c, include/linux/ctype.h,
    lib/strto.c)

    The character classes come from the table of the code.  A string is a list
    of bytes without its terminator, a pointer into it the rest of the string
    from there on.  [unsigned long] has 64 bits.  The loops that read digits
    stop at the terminator for every base up to 256, which is all that callers
    use (8, 10, 16, or 0 to let the string decide). *)

From S2P Require Import Prelude Bytes.
From S2P Require Import Hashtable.

Module Ctype.

Definition _U : Z := 0x01.
Definition _L : Z := 0x02.
Definition _D : Z := 0x04.
Definition _C : Z := 0x08.
Definition _P : Z := 0x10.
Definition _S : Z := 0x20.
Definition _X : Z := 0x40.
Definition _SP : Z := 0x80.

Local Notation "a '|.' b" := (Z.lor a b) (at level 50, left associativity).

Definition _ctype : list Z := [
_C;_C;_C;_C;_C;_C;_C;_C;
_C;_C|._S;_C|._S;_C|._S;_C|._S;_C|._S;_C;_C;
_C;_C;_C;_C;_C;_C;_C;_C;
_C;_C;_C;_C;_C;_C;_C;_C;
_S|._SP;_P;_P;_P;_P;_P;_P;_P;
_P;_P;_P;_P;_P;_P;_P;_P;
_D;_D;_D;_D;_D;_D;_D;_D;
_D;_D;_P;_P;_P;_P;_P;_P;
_P;_U|._X;_U|._X;_U|._X;_U|._X;_U|._X;_U|._X;_U;
_U;_U;_U;_U;_U;_U;_U;_U;
_U;_U;_U;_U;_U;_U;_U;_U;
_U;_U;_U;_P;_P;_P;_P;_P;
_P;_L|._X;_L|._X;_L|._X;_L|._X;_L|._X;_L|._X;_L;
_L;_L;_L;_L;_L;_L;_L;_L;
_L;_L;_L;_L;_L;_L;_L;_L;
_L;_L;_L;_P;_P;_P;_P;_C;
0;0;0;0;0;0;0;0;0;0;0;0;0;0;0;0;
0;0;0;0;0;0;0;0;0;0;0;0;0;0;0;0;
_S|._SP;_P;_P;_P;_P;_P;_P;_P;_P;_P;_P;_P;_P;_P;_P;_P;
_P;_P;_P;_P;_P;_P;_P;_P;_P;_P;_P;_P;_P;_P;_P;_P;
_U;_U;_U;_U;_U;_U;_U;_U;_U;_U;_U;_U;_U;_U;_U;_U;
_U;_U;_U;_U;_U;_U;_U;_P;_U;_U;_U;_U;_U;_U;_U;_L;
_L;_L;_L;_L;_L;_L;_L;_L;_L;_L;_L;_L;_L;_L;_L;_L;
_L;_L;_L;_L;_L;_L;_L;_P;_L;_L;_L;_L;_L;_L;_L;_L].

Definition __ismask (x : Z) : Z := byteat _ctype (u8 x).
Definition is_class (mask c : Z) : bool := negb (Z.land (__ismask c) mask =? 0).

Definition isalnum (c : Z) : bool := is_class (_U |. _L |. _D) c.
Definition isdigit (c : Z) : bool := is_class _D c.
Definition islower (c : Z) : bool := is_class _L c.
Definition isprint (c : Z) : bool := is_class (_P |. _U |. _L |. _D |. _SP) c.
Definition isupper (c : Z) : bool := is_class _U c.
Definition isxdigit (c : Z) : bool := is_class (_D |. _X) c.

(** The argument is converted to [unsigned char]. *)
Definition tolower (c : Z) : Z := if isupper c then u8 (u8 c - (65 - 97)) else u8 c.
Definition toupper (c : Z) : Z := if islower c then u8 (u8 c - (97 - 65)) else u8 c.

End Ctype.

Module Strto.
Import Ctype Hashtable.

(** ** Numbers *)
Definition _parse_integer_fixup_radix (s : str) (base : Z) : str * Z :=
  let '(s, base) :=
    if at_hd s =? 48 then
      let ch := tolower (at_hd (tl s)) in
      if ch =? 120 then (drop 2 s, 16)
      else if base =? 0 then (s, 8) else (s, base)
    else (s, base) in
  (s, if base =? 0 then 10 else base).

Definition decode_digit (ch : Z) : Z :=
  if negb (isxdigit ch) then 256
  else
    let ch := tolower ch in
    if ch <=? 57 then ch - 48 else ch - 97 + 0xa.

(** The value and where the digits end. *)
Fixpoint digits_loop (base result : Z) (cp : str) : Z * str :=
  match cp with
  | [] => (result, [])
  | c :: r =>
    let value := decode_digit c in
    if value <? base then digits_loop base (u64 (result * base + value)) r
    else (result, cp)
  end.

Definition simple_strtoul (cp : str) (base : Z) : Z * str :=
  let '(cp, base) := _parse_integer_fixup_radix cp base in digits_loop base 0 cp.

Definition simple_strtoull (cp : str) (base : Z) : Z * str :=
  let '(cp, base) := _parse_integer_fixup_radix cp base in digits_loop base 0 cp.

Definition hextoul (cp : str) : Z * str := simple_strtoul cp 16.
Definition hextoull (cp : str) : Z * str := simple_strtoull cp 16.
Definition dectoul (cp : str) : Z * str := simple_strtoul cp 10.

(** The return value and what is left in [*res]. *)
Definition strict_strtoul (cp : str) (base : Z) : Z * Z :=
  let len := Z.of_nat (length cp) in
  if len =? 0 then (- EINVAL, 0)
  else
    let '(val, tail) := simple_strtoul cp base in
    let consumed := len - Z.of_nat (length tail) in
    if consumed =? 0 then (- EINVAL, 0)
    else if (at_hd tail =? 0) || ((len =? consumed + 1) && (at_hd tail =? 10)) then (0, val)
    else (- EINVAL, 0).

(** Conversion to [long]. *)
Definition s64 (x : Z) : Z :=
  let y := u64 x in if y <? 9223372036854775808 then y else y - 18446744073709551616.

Definition simple_strtol (cp : str) (base : Z) : Z * str :=
  if at_hd cp =? 45 then
    let '(v, e) := simple_strtoul (tl cp) base in (s64 (- v), e)
  else
    let '(v, e) := simple_strtoul cp base in (s64 v, e).

Definition simple_strtoll (cp : str) (base : Z) : Z * str :=
  if at_hd cp =? 45 then
    let '(v, e) := simple_strtoull (tl cp) base in (s64 (- v), e)
  else
    let '(v, e) := simple_strtoull cp base in (s64 v, e).

(** The unit behind a number: the cases fall through from [g] to [k]. *)
Definition unit_suffix (result : Z) (endp : str) : Z * str :=
  let ch := tolower (at_hd endp) in
  if (ch =? 103) || (ch =? 109) || (ch =? 107) then
    let result := if ch =? 103 then u64 (result * 1024) else result in
    let result := if (ch =? 103) || (ch =? 109) then u64 (result * 1024) else result in
    let result := u64 (result * 1024) in
    let endp := tl endp in
    let endp := if at_hd endp =? 105 then tl endp else endp in
    let endp := if at_hd endp =? 66 then tl endp else endp in
    (result, endp)
  else (result, endp).

Definition ustrtoul (cp : str) (base : Z) : Z * str :=
  let '(result, endp) := simple_strtoul cp base in unit_suffix result endp.
Definition ustrtoull (cp : str) (base : Z) : Z * str :=
  let '(result, endp) := simple_strtoull cp base in unit_suffix result endp.

(** [p] is the offset of the pointer; the offset of the number is returned
    beside its value. *)
Fixpoint trailing_loop (s : str) (p : nat) : option (Z * nat) :=
  match p with
  | O => None
  | S q =>
    if negb (isdigit (byteat s (Z.of_nat q))) then Some (s64 (dectoul (drop p s)).1, p)
    else trailing_loop s q
  end.

Definition trailing_strtoln_end (s : str) (e : option nat) : Z * nat :=
  let e := default (length s) e in
  let p := (e - 1)%nat in
  if (0 <? Z.of_nat p) && isdigit (byteat s (Z.of_nat p)) then
    match trailing_loop s p with
    | Some r => r
    | None => (-1, e)
    end
  else (-1, e).

Definition trailing_strtoln (s : str) (e : option nat) : Z := (trailing_strtoln_end s e).1.
Definition trailing_strtol (s : str) : Z := trailing_strtoln s None.

(** ** Whole strings *)

(** [out] is written in place; [len] is the room in it. *)
Fixpoint str_to_upper (inp out : list Z) (len : nat) : list Z :=
  match len, inp, out with
  | S len', c :: inp', _ :: out' => toupper c :: str_to_upper inp' out' len'
  | S _, [], _ :: out' => 0 :: out'
  | _, _, _ => out
  end.

(** Blanks become terminators: the buffer after the counting loop and the count. *)
Fixpoint count_words (p : str) : str * Z :=
  match p with
  | [] => ([], 0)
  | c :: r =>
    let '(r', n) := count_words r in
    if c =? 32 then (0 :: r', n + 1) else (c :: r', n)
  end.

(** The string at [p] and the rest behind its terminator. *)
Fixpoint cstr_at (p : str) : str * str :=
  match p with
  | [] => ([], [])
  | c :: r => if c =? 0 then ([], r) else let '(w, q) := cstr_at r in (c :: w, q)
  end.

Fixpoint fill_ptrs (count : nat) (p : str) : list str :=
  match count with
  | O => []
  | S n => let '(w, q) := cstr_at p in w :: fill_ptrs n q
  end.

(** The strings the entries of the array point to; [malloc] says whether an
    allocation of that many bytes succeeds, [None] is NULL. *)
Definition str_to_list (malloc : Z -> bool) (instr : str) : option (list str) :=
  if negb (at_hd instr =? 0) && negb (malloc (Z.of_nat (length instr) + 1)) then None
  else
    let '(p, count) := count_words instr in
    let count := if (0 <? Z.of_nat (length p)) && negb (List.last p 0 =? 0)
                 then count + 1 else count in
    if negb (malloc (8 * (count + 1))) then None
    else Some (fill_ptrs (Z.to_nat count) p).

(** ** Laws *)

(** A property of bytes, checked on each of them. *)
Lemma bytes_forall (P : Z -> bool) c :
  forallb (fun i => P (Z.of_nat i)) (seq 0 256) = true -> is_u8 c -> P c = true.
Proof.
  intros H Hc. rewrite forallb_forall in H. unfold is_u8 in Hc.
  rewrite <- (Z2Nat.id c) by lia. apply H, in_seq. lia.
Qed.

Lemma decode_digit_xdigit c : decode_digit c < 256 -> isxdigit c = true.
Proof. unfold decode_digit. destruct (isxdigit c); cbn [negb]; [done|lia]. Qed.

Lemma decode_digit_nonneg c : is_u8 c -> 0 <= decode_digit c.
Proof.
  intros Hc. apply Z.leb_le. by apply (bytes_forall (fun c => 0 <=? decode_digit c)).
Qed.

(** The value of a string of digits. *)
Definition digits_val (base : Z) (ds : list Z) : Z := fold_left (fun a d => a * base + d) ds 0.

Lemma digits_loop_app base ds rest a :
  Forall (fun c => decode_digit c < base) ds -> base <= decode_digit (at_hd rest) ->
  digits_loop base (u64 a) (ds ++ rest) =
  (u64 (fold_left (fun a d => a * base + d) (decode_digit <$> ds) a), rest).
Proof.
  intros Hd Hr. revert a. induction Hd as [|c ds Hc Hds IH]; intros a; simpl.
  - destruct rest as [|c r]; [done|]. simpl in *. branch. done.
  - branch. rewrite <- IH. f_equal. unfold u64. rewrite Zplus_mod, Zmult_mod, Zmod_mod, <- Zmult_mod.
    by rewrite <- Zplus_mod.
Qed.

(** No digit is read as a base prefix. *)
Definition no_prefix (s : str) : Prop := at_hd s <> 48 \/ tolower (at_hd (tl s)) <> 120.

Lemma fixup_none s base : base <> 0 -> no_prefix s ->
  _parse_integer_fixup_radix s base = (s, base).
Proof.
  intros Hb Hp. unfold _parse_integer_fixup_radix, no_prefix in *.
  repeat branch. destruct (Z.eqb_spec (at_hd s) 48); repeat branch; [|done].
  destruct (Z.eqb_spec (tolower (at_hd (tl s))) 120); [lia|]. repeat branch. done.
Qed.

Lemma strtoul_digits base ds rest :
  0 < base -> no_prefix (ds ++ rest) ->
  Forall (fun c => decode_digit c < base) ds -> base <= decode_digit (at_hd rest) ->
  simple_strtoul (ds ++ rest) base = (u64 (digits_val base (decode_digit <$> ds)), rest).
Proof.
  intros Hb Hp Hd Hr. unfold simple_strtoul. rewrite fixup_none by (done || lia).
  change 0 with (u64 0). rewrite digits_loop_app by done. done.
Qed.

(** ** Numbers at the end of a string *)
Lemma isdigit_decode c : is_u8 c -> isdigit c = true -> 0 <= decode_digit c < 10 /\ tolower c <> 120.
Proof.
  intros Hc Hd.
  assert (H : (fun c => negb (isdigit c) || (0 <=? decode_digit c) && (decode_digit c <? 10) &&
    negb (tolower c =? 120)) c = true).
  { apply (bytes_forall (fun c => negb (isdigit c) || (0 <=? decode_digit c) && (decode_digit c <? 10) &&
      negb (tolower c =? 120))); [vm_compute; reflexivity|done]. }
  cbv beta in H. rewrite Hd in H. simpl in H. rewrite !andb_true_iff, negb_true_iff in H. lia.
Qed.

Lemma dectoul_digits ds : Forall is_u8 ds -> Forall (fun c => isdigit c = true) ds ->
  dectoul ds = (u64 (digits_val 10 (decode_digit <$> ds)), []).
Proof.
  intros U D. unfold dectoul. rewrite <- (app_nil_r ds) at 1. apply strtoul_digits; [lia| | |by vm_compute].
  - rewrite app_nil_r. right. destruct D as [|c ds Hc [|d r Hd Hr]]; [by vm_compute..|].
    apply Forall_cons in U as [_ [Ud _]%Forall_cons]. by apply isdigit_decode.
  - apply Forall_forall. intros c Hc. rewrite Forall_forall in U, D.
    apply isdigit_decode; [by apply U|by apply D].
Qed.

Lemma trailing_loop_digits pre c ds k : isdigit c = false ->
  Forall (fun c => isdigit c = true) ds -> (k <= length ds)%nat ->
  trailing_loop (pre ++ c :: ds) (length pre + 1 + k) =
  Some (s64 (dectoul ds).1, (length pre + 1)%nat).
Proof.
  intros Hc D. induction k as [|k IH]; intros Hk.
  - rewrite Nat.add_0_r, Nat.add_1_r. cbn [trailing_loop].
    rewrite byteat_lookup, Nat2Z.id, lookup_app_r, Nat.sub_diag by lia. change (default 0 ((c :: ds) !! 0%nat)) with c.
    rewrite Hc. cbn [negb]. rewrite drop_app, drop_ge by lia.
    replace (S (length pre) - length pre)%nat with 1%nat by lia. done.
  - rewrite Nat.add_succ_r. cbn [trailing_loop].
    rewrite byteat_lookup, Nat2Z.id, lookup_app_r by lia.
    replace (length pre + 1 + k - length pre)%nat with (S k) by lia.
    change ((c :: ds) !! S k) with (ds !! k).
    destruct (ds !! k) as [d|] eqn:E; [|apply lookup_ge_None_1 in E; lia].
    change (default 0 (Some d)) with d. rewrite (Forall_lookup_1 _ _ _ _ D E). cbn [negb]. apply IH. lia.
Qed.

(** The digits behind the last other character of a string, and where they
    start. *)
Lemma trailing_strtol_number pre c ds : isdigit c = false -> ds <> [] ->
  Forall is_u8 ds -> Forall (fun c => isdigit c = true) ds ->
  trailing_strtoln_end (pre ++ c :: ds) None =
  (s64 (u64 (digits_val 10 (decode_digit <$> ds))), (length pre + 1)%nat).
Proof.
  intros Hc N U D. unfold trailing_strtoln_end. cbn [default]. rewrite length_app. simpl length.
  destruct (exists_last N) as (ds' & d & ->). rewrite length_app. simpl length.
  replace (length pre + S (length ds' + 1) - 1)%nat with (length pre + 1 + length ds')%nat by lia.
  rewrite (trailing_loop_digits pre c (ds' ++ [d]) (length ds') Hc D) by (rewrite length_app; lia).
  rewrite dectoul_digits by done.
  assert (Hd : isdigit d = true) by (apply Forall_app in D as [_ D]; by rewrite Forall_singleton in D).
  branch. rewrite byteat_lookup, Nat2Z.id, lookup_app_r by lia.
  replace (length pre + 1 + length ds' - length pre)%nat with (S (length ds')) by lia.
  change ((c :: ds' ++ [d]) !! S (length ds')) with ((ds' ++ [d]) !! length ds').
  rewrite lookup_app_r, Nat.sub_diag by lia. change (default 0 ([d] !! 0%nat)) with d. by rewrite Hd.
Qed.

(** With an end given, "ab12345" up to the 2, the digits behind it are read too. *)
Lemma trailing_reads_past_end :
  trailing_strtoln_end [97; 98; 49; 50; 51; 52; 53] (Some 4%nat) = (12345, 2%nat).
Proof. vm_compute. reflexivity. Qed.

(** The prefix alone, "0x", is taken as the number zero. *)
Lemma strict_strtoul_bare_prefix base : strict_strtoul [48; 120] base = (0, 0).
Proof. vm_compute. reflexivity. Qed.

(** ** Lists of words *)
Fixpoint join (sep : Z) (ws : list str) : str :=
  match ws with
  | [] => []
  | [w] => w
  | w :: r => w ++ sep :: join sep r
  end.

Definition is_word (w : str) : Prop := w <> [] /\ Forall (fun c => c <> 32 /\ c <> 0) w.

Lemma count_words_word w r : Forall (fun c => c <> 32 /\ c <> 0) w ->
  count_words (w ++ r) = (w ++ (count_words r).1, (count_words r).2).
Proof.
  induction 1 as [|c w Hc Hw IH]; simpl; [by destruct (count_words r)|].
  rewrite IH. branch. done.
Qed.

Lemma count_words_join ws : Forall is_word ws ->
  count_words (join 32 ws) = (join 0 ws, Z.of_nat (length ws - 1)).
Proof.
  induction 1 as [|w ws [_ Hw] Hws IH]; [done|]. destruct ws as [|v ws].
  - simpl. rewrite <- (app_nil_r w) at 1. rewrite count_words_word by done. simpl. by rewrite app_nil_r.
  - cbn [join] in *. rewrite count_words_word by done. cbn [count_words]. rewrite IH. simpl.
    f_equal. lia.
Qed.

Lemma cstr_at_word w r : Forall (fun c => c <> 32 /\ c <> 0) w -> cstr_at (w ++ 0 :: r) = (w, r).
Proof. induction 1 as [|c w Hc Hw IH]; simpl; [done|]. branch. by rewrite IH. Qed.

Lemma cstr_at_last w : Forall (fun c => c <> 32 /\ c <> 0) w -> cstr_at w = (w, []).
Proof. induction 1 as [|c w Hc Hw IH]; simpl; [done|]. branch. by rewrite IH. Qed.

Lemma fill_ptrs_join ws : Forall is_word ws -> fill_ptrs (length ws) (join 0 ws) = ws.
Proof.
  induction 1 as [|w ws [_ Hw] Hws IH]; [done|]. destruct ws as [|v ws].
  - simpl. by rewrite cstr_at_last.
  - cbn [length fill_ptrs]. change (join 0 (w :: v :: ws)) with (w ++ 0 :: join 0 (v :: ws)).
    rewrite cstr_at_word by done. f_equal. exact IH.
Qed.

Lemma last_app_ne {A} (l r : list A) d : r <> [] -> List.last (l ++ r) d = List.last r d.
Proof. intros N. destruct (exists_last N) as (r' & x & ->). by rewrite app_assoc, !List.last_last. Qed.

Lemma last_join ws : Forall is_word ws -> ws <> [] ->
  join 0 ws <> [] /\ List.last (join 0 ws) 0 <> 0.
Proof.
  induction 1 as [|w ws [Nw Hw] Hws IH]; [done|]. intros _. destruct ws as [|v ws].
  - split; [done|]. cbn [join]. destruct (exists_last Nw) as (w' & x & ->). rewrite List.last_last.
    apply Forall_app in Hw as [_ Hw]. rewrite Forall_singleton in Hw. tauto.
  - destruct IH as [N L]; [done|]. change (join 0 (w :: v :: ws)) with (w ++ 0 :: join 0 (v :: ws)).
    split; [by destruct w|]. rewrite last_app_ne by done.
    change (0 :: join 0 (v :: ws)) with ([0] ++ join 0 (v :: ws)). by rewrite last_app_ne.
Qed.

Lemma str_to_list_words malloc ws : (forall n, malloc n = true) -> Forall is_word ws ->
  str_to_list malloc (join 32 ws) = Some ws.
Proof.
  intros M W. unfold str_to_list. rewrite !M, andb_false_r, count_words_join by done.
  destruct (decide (ws = [])) as [->|N]; [by rewrite M|].
  destruct (last_join ws W N) as [N' L].
  assert (0 < Z.of_nat (length (join 0 ws))) by (destruct (join 0 ws); [done|simpl; lia]).
  repeat branch. cbn [negb andb]. rewrite M. cbn [negb]. f_equal.
  assert (length ws <> 0%nat) by (by destruct ws).
  replace (Z.to_nat (Z.of_nat (length ws - 1) + 1)) with (length ws) by lia. by apply fill_ptrs_join.
Qed.

End Strto.
