(* ===== verification/Printf.v ===== *)
(** * The pieces of formatted output (lib/vsprintf.c, include/hexdump.h)

    Output goes to a buffer through [ADDCH], which drops what does not fit but
    counts it.  Each helper of the format loop gives the characters it sends
    through [ADDCH], in order; only [string16], which writes whole code points,
    works on the buffer itself.  Field widths and precisions are small enough
    for [int]. *)

From S2P Require Import Prelude Bytes.
From S2P Require Import Hashtable Strto Charset.

Module Printf.
Import Hashtable Ctype Strto Charset.

(** ** The output buffer: [o_pos] is the offset of the write pointer. *)
Record out := mk_out { o_buf : list Z; o_pos : Z }.

(** A store below [e], the end of the buffer. *)
Definition poke (e : Z) (o : out) (ch : Z) : list Z :=
  if o_pos o <? e then <[Z.to_nat (o_pos o) := u8 ch]> (o_buf o) else o_buf o.
Definition ADDCH (e : Z) (o : out) (ch : Z) : out := mk_out (poke e o ch) (o_pos o + 1).
Definition addchs (e : Z) (o : out) (chs : list Z) : out := fold_left (ADDCH e) chs o.

(** ** Decimal digits, least significant first *)
Definition div10 (x : Z) : Z := Z.shiftr (u32 (x * 0xcd)) 11.

Definition put_dec_trunc (q : Z) : list Z :=
  let d1 := Z.land (Z.shiftr q 4) 0xf in
  let d2 := Z.land (Z.shiftr q 8) 0xf in
  let d3 := Z.shiftr q 12 in
  let d0 := u32 (6 * (d3 + d2 + d1) + Z.land q 0xf) in
  let q := div10 d0 in
  let d0 := u32 (d0 - 10 * q) in
  let d1 := u32 (q + 9 * d3 + 5 * d2 + d1) in
  u8 (d0 + 48) ::
  if negb (d1 =? 0) then
    let q := div10 d1 in
    let d1 := u32 (d1 - 10 * q) in
    let d2 := u32 (q + 2 * d2) in
    u8 (d1 + 48) ::
    if negb (d2 =? 0) || negb (d3 =? 0) then
      let q := Z.shiftr (u32 (d2 * 0xd)) 7 in
      let d2 := u32 (d2 - 10 * q) in
      let d3 := u32 (q + 4 * d3) in
      u8 (d2 + 48) ::
      if negb (d3 =? 0) then
        let q := div10 d3 in
        let d3 := u32 (d3 - 10 * q) in
        u8 (d3 + 48) :: if negb (q =? 0) then [u8 (q + 48)] else []
      else []
    else []
  else [].

Definition put_dec_full (q : Z) : list Z :=
  let d1 := Z.land (Z.shiftr q 4) 0xf in
  let d2 := Z.land (Z.shiftr q 8) 0xf in
  let d3 := Z.shiftr q 12 in
  let d0 := u32 (6 * (d3 + d2 + d1) + Z.land q 0xf) in
  let q := div10 d0 in
  let c0 := u8 (u32 (d0 - 10 * q) + 48) in
  let d1 := u32 (q + 9 * d3 + 5 * d2 + d1) in
  let q := div10 d1 in
  let c1 := u8 (u32 (d1 - 10 * q) + 48) in
  let d2 := u32 (q + 2 * d2) in
  let q := Z.shiftr (u32 (d2 * 0xd)) 7 in
  let c2 := u8 (u32 (d2 - 10 * q) + 48) in
  let d3 := u32 (q + 4 * d3) in
  let q := div10 d3 in
  let c3 := u8 (u32 (d3 - 10 * q) + 48) in
  [c0; c1; c2; c3; u8 (q + 48)].

(** A 64-bit number takes at most four rounds. *)
Fixpoint put_dec_loop (fuel : nat) (num : Z) : option (list Z) :=
  match fuel with
  | O => None
  | S f =>
    if num <? 100000 then Some (put_dec_trunc num)
    else r ← put_dec_loop f (num / 100000); Some (put_dec_full (num mod 100000) ++ r)
  end.
Definition put_dec (num : Z) : list Z := default [] (put_dec_loop 4 num).

(** ** Numbers *)
Definition ZEROPAD : Z := 1.
Definition SIGN : Z := 2.
Definition PLUS : Z := 4.
Definition SPACE : Z := 8.
Definition LEFT : Z := 16.
Definition SMALL : Z := 32.
Definition SPECIAL : Z := 64.
Definition ERRSTR : Z := 128.

Definition flag (type f : Z) : bool := negb (Z.land type f =? 0).

Definition digits : list Z :=
  [48; 49; 50; 51; 52; 53; 54; 55; 56; 57; 65; 66; 67; 68; 69; 70].

(** The digits of a base that is a power of two; 64 rounds are enough. *)
Fixpoint radix_loop (fuel : nat) (mask shift locase num : Z) : list Z :=
  let c := Z.lor (byteat digits (Z.land (u8 num) mask)) locase in
  let num := Z.shiftr num shift in
  match fuel with
  | O => [c]
  | S f => if num =? 0 then [c] else c :: radix_loop f mask shift locase num
  end.

(** [while (--size >= 0)]: how often it runs and what is left in [size]. *)
Definition pad (size ch : Z) : list Z := replicate (Z.to_nat size) ch.
Definition padded (size : Z) : Z := Z.min size 0 - 1.

(** The sign, the absolute value and the width left. *)
Definition split_sign (type num size : Z) : Z * Z * Z :=
  if flag type SIGN then
    if s64 num <? 0 then (45, u64 (- s64 num), size - 1)
    else if flag type PLUS then (43, num, size - 1)
    else if flag type SPACE then (32, num, size - 1)
    else (0, num, size)
  else (0, num, size).

Definition number (num base size precision type : Z) : list Z :=
  let need_pfx := flag type SPECIAL && negb (base =? 10) in
  let locase := Z.land type SMALL in
  let type := if flag type LEFT then Z.ldiff type ZEROPAD else type in
  let '(sign, num, size) := split_sign type num size in
  let size := if need_pfx then if base =? 16 then size - 2 else size - 1 else size in
  let tmp :=
    if num =? 0 then [48]
    else if negb (base =? 10) then
      radix_loop 63 (base - 1) (if base =? 16 then 4 else 3) locase num
    else put_dec num in
  let i := Z.of_nat (length tmp) in
  let precision := if precision <? i then i else precision in
  let size := size - precision in
  let '(lead, size) :=
    if negb (flag type (ZEROPAD + LEFT)) then (pad size 32, padded size) else ([], size) in
  let '(mid, size) :=
    if negb (flag type LEFT) then
      (pad size (if flag type ZEROPAD then 48 else 32), padded size)
    else ([], size) in
  lead ++
  (if negb (sign =? 0) then [sign] else []) ++
  (if need_pfx then if base =? 16 then [48; Z.lor 88 locase] else [48] else []) ++
  mid ++ pad (precision - i) 48 ++ rev tmp ++ pad size 32.

(** ** Strings *)
Definition NULL_TEXT : str := [60; 78; 85; 76; 76; 62].   (* "<NULL>" *)

(** A precision of -1 is the largest [size_t]. *)
Definition strnlen (s : str) (count : Z) : Z := Z.min (Z.of_nat (length s)) (u64 count).

Definition string (s : option str) (field_width precision flags : Z) : list Z :=
  let s := default NULL_TEXT s in
  let len := strnlen s precision in
  let '(lead, field_width) :=
    if negb (flag flags LEFT)
    then (pad (field_width - len) 32, Z.min field_width len - 1) else ([], field_width) in
  lead ++ take (Z.to_nat len) s ++ pad (field_width - len) 32.

(** The bytes of a code point, written if they all fit with a terminator. *)
Fixpoint string16_loop (e : Z) (n : nat) (s : list Z) (o : out) : out :=
  match n with
  | O => o
  | S n' =>
    let slen := default 0 (utf16_utf8_strnlen s 1) in
    let '(c, s) := utf16_next s in
    let c := if c <? 0 then 63 else c in
    let o :=
      if o_pos o + slen <? e then
        let bytes := default [] (utf8_put c (Some [])).2 in
        let o := mk_out (write_at (o_buf o) (o_pos o) bytes)
                        (o_pos o + Z.of_nat (length bytes)) in
        mk_out (poke e o 0) (o_pos o)
      else mk_out (o_buf o) (o_pos o + slen) in
    string16_loop e n' s o
  end.

Definition string16 (e : Z) (o : out) (s : option (list Z)) (field_width precision flags : Z)
    : out :=
  let s := default NULL_TEXT s in
  let len := default 0 (utf16_strnlen s (u64 precision)) in
  let '(o, field_width) :=
    if negb (flag flags LEFT)
    then (addchs e o (pad (field_width - len) 32), Z.min field_width len) else (o, field_width) in
  let o := mk_out (poke e o 0) (o_pos o) in
  let o := string16_loop e (Z.to_nat len) s o in
  addchs e o (pad (field_width - len) 32).

(** ** Addresses *)
Definition hex_asc : list Z :=
  [48; 49; 50; 51; 52; 53; 54; 55; 56; 57; 97; 98; 99; 100; 101; 102].
Definition hex_byte_pack (byte : Z) : list Z :=
  [byteat hex_asc (Z.shiftr (Z.land byte 0xf0) 4); byteat hex_asc (Z.land byte 0x0f)].

Definition mac_address_string (addr : list Z) (field_width precision flags : Z) : list Z :=
  let mac_addr :=
    flat_map (fun i => hex_byte_pack (byteat addr i) ++
                       (if negb (flag flags SPECIAL) && negb (i =? 5) then [58] else []))
             [0; 1; 2; 3; 4; 5] in
  string (Some mac_addr) field_width precision (Z.ldiff flags SPECIAL).

Definition ip6_addr_string (addr : list Z) (field_width precision flags : Z) : list Z :=
  let ip6_addr :=
    flat_map (fun i => hex_byte_pack (byteat addr (2 * i)) ++ hex_byte_pack (byteat addr (2 * i + 1)) ++
                       (if negb (flag flags SPECIAL) && negb (i =? 7) then [58] else []))
             [0; 1; 2; 3; 4; 5; 6; 7] in
  string (Some ip6_addr) field_width precision (Z.ldiff flags SPECIAL).

Definition ip4_addr_string (addr : list Z) (field_width precision flags : Z) : list Z :=
  let ip4_addr :=
    flat_map (fun i => rev (put_dec_trunc (byteat addr i)) ++
                       (if negb (i =? 3) then [46] else []))
             [0; 1; 2; 3] in
  string (Some ip4_addr) field_width precision (Z.ldiff flags SPECIAL).

(** ** Numbers without a format *)
Fixpoint itoa_loop (fuel : nat) (i : Z) (p : str) : str :=
  let p := 48 + i mod 10 :: p in
  let i := i / 10 in
  match fuel with
  | O => p
  | S f => if 0 <? i then itoa_loop f i p else p
  end.
Definition simple_itoa (i : Z) : str := itoa_loop 20 i [].

Fixpoint xtoa_loop (fuel : nat) (num : Z) (p : str) : str :=
  let p := hex_byte_pack (Z.land num 0xff) ++ p in
  let num := Z.shiftr num 8 in
  match fuel with
  | O => p
  | S f => if 0 <? num then xtoa_loop f num p else p
  end.
Definition simple_xtoa (num : Z) : str := xtoa_loop 8 num [].

Definition str2off (p : str) : Z * bool :=
  let '(num, endptr) := simple_strtoull p 16 in
  (s64 num, negb (at_hd p =? 0) && (at_hd endptr =? 0)).
Definition str2long (p : str) : Z * bool :=
  let '(num, endptr) := hextoul p in
  (num, negb (at_hd p =? 0) && (at_hd endptr =? 0)).

(** ** The specification of printed numbers: the digits of [n], the least
    significant first, and the characters of the number *)
Fixpoint rdigits (fuel : nat) (base n : Z) : list Z :=
  match fuel with
  | O => []
  | S f => n mod base :: if n <? base then [] else rdigits f base (n / base)
  end.
Definition digits_of (base n : Z) : list Z := rdigits 64 base n.
Global Arguments digits_of : simpl never.
Definition digit_char (locase d : Z) : Z := if d <? 10 then 48 + d else Z.lor (55 + d) locase.
Definition print_number (base locase n : Z) : str := rev (digit_char locase <$> digits_of base n).

(** ** Digits *)
Lemma rdigits_fuel f g base n : 2 <= base -> 0 <= n < base ^ Z.of_nat f -> (1 <= f <= g)%nat ->
  rdigits g base n = rdigits f base n.
Proof.
  intros Hb. revert g n. induction f as [|f IH]; intros g n Hn Hg; [lia|].
  destruct g as [|g]; [lia|]. simpl. destruct (Z.ltb_spec n base); [done|]. f_equal.
  rewrite Nat2Z.inj_succ, Z.pow_succ_r in Hn by lia.
  apply IH; [|destruct f; [simpl in Hn|]; lia].
  split; [apply Z.div_pos; lia|apply Z.div_lt_upper_bound; lia].
Qed.

Lemma rdigits_S f base n :
  rdigits (S f) base n = n mod base :: if n <? base then [] else rdigits f base (n / base).
Proof. done. Qed.

(** One digit at a time. *)
Lemma digits_of_step base n : 2 <= base -> is_u64 n ->
  digits_of base n = n mod base :: if n <? base then [] else digits_of base (n / base).
Proof.
  intros Hb Hn. unfold digits_of. rewrite (rdigits_S 63 base n).
  destruct (Z.ltb_spec n base); [reflexivity|].
  apply (f_equal (cons (n mod base))). unfold is_u64 in Hn.
  assert (n / base < 9223372036854775808) by (apply Z.div_lt_upper_bound; nia).
  pose proof (Z.pow_le_mono_l 2 base 63 ltac:(lia)) as P.
  symmetry. apply (rdigits_fuel 63 64); [exact Hb| |lia].
  split; [apply Z.div_pos; lia|]. change (2 ^ 63) with 9223372036854775808 in P.
  change (Z.of_nat 63) with 63. lia.
Qed.

Lemma digits_val_snoc base ds d : digits_val base (ds ++ [d]) = digits_val base ds * base + d.
Proof. unfold digits_val. by rewrite fold_left_app. Qed.

Lemma rdigits_val f base n : 2 <= base -> 0 <= n < base ^ Z.of_nat f ->
  digits_val base (rev (rdigits f base n)) = n.
Proof.
  intros Hb. revert n. induction f as [|f IH]; intros n Hn.
  { change (base ^ Z.of_nat 0) with 1 in Hn. cbn. lia. }
  cbn [rdigits rev]. rewrite digits_val_snoc. destruct (Z.ltb_spec n base).
  - rewrite Z.mod_small by lia. done.
  - rewrite Nat2Z.inj_succ, Z.pow_succ_r in Hn by lia.
    rewrite IH by (split; [apply Z.div_pos|apply Z.div_lt_upper_bound]; lia).
    pose proof (Z.div_mod n base ltac:(lia)). lia.
Qed.

Lemma rdigits_range f base n : 2 <= base -> Forall (fun d => 0 <= d < base) (rdigits f base n).
Proof.
  intros Hb. revert n. induction f as [|f IH]; intros n; simpl; constructor.
  - apply Z.mod_pos_bound. lia.
  - destruct (n <? base); [constructor|apply IH].
Qed.

Fixpoint list_eqb (a b : list Z) : bool :=
  match a, b with
  | [], [] => true
  | x :: a, y :: b => (x =? y) && list_eqb a b
  | _, _ => false
  end.

Lemma list_eqb_eq a b : list_eqb a b = true -> a = b.
Proof.
  revert b. induction a as [|x a IH]; intros [|y b]; simpl; try done.
  intros [H1 H2]%andb_true_iff. f_equal; [lia|by apply IH].
Qed.

(** A check of every number below [n]. *)
Fixpoint all_below (P : Z -> bool) (n : nat) (from : Z) : bool :=
  match n with O => true | S k => P from && all_below P k (from + 1) end.

Lemma all_below_spec P n from : all_below P n from = true ->
  forall x, from <= x < from + Z.of_nat n -> P x = true.
Proof.
  revert from. induction n as [|n IH]; intros from H x Hx; [lia|]. simpl in H.
  apply andb_true_iff in H as [H1 H2]. destruct (decide (x = from)) as [->|]; [done|].
  apply (IH (from + 1)); [done|lia].
Qed.

Definition five_digits (q : Z) : list Z :=
  (fun d => 48 + d) <$> [q mod 10; q / 10 mod 10; q / 100 mod 10; q / 1000 mod 10; q / 10000 mod 10].

(** The multiplications that stand for divisions by ten. *)
Lemma div10_exact x : 0 <= x < 1024 -> div10 x = x / 10.
Proof.
  intros Hx. apply Z.eqb_eq.
  refine (all_below_spec (fun x => div10 x =? x / 10) 1024 0 _ x ltac:(lia)). vm_compute. reflexivity.
Qed.

Lemma div10_short x : 0 <= x < 69 -> Z.shiftr (u32 (x * 0xd)) 7 = x / 10.
Proof.
  intros Hx. apply Z.eqb_eq.
  refine (all_below_spec (fun x => Z.shiftr (u32 (x * 0xd)) 7 =? x / 10) 69 0 _ x ltac:(lia)).
  vm_compute. reflexivity.
Qed.

Lemma digit_char_dec locase d : 0 <= d < 10 -> digit_char locase d = 48 + d.
Proof. intros. unfold digit_char. by branch. Qed.

(** The nibbles of a number below 100000. *)
Lemma nibbles q : 0 <= q < 100000 -> exists d3 d2 d1 d0,
  q = 4096 * d3 + 256 * d2 + 16 * d1 + d0 /\ 0 <= d3 < 25 /\ 0 <= d2 < 16 /\ 0 <= d1 < 16 /\
  0 <= d0 < 16 /\ Z.land (Z.shiftr q 4) 0xf = d1 /\ Z.land (Z.shiftr q 8) 0xf = d2 /\
  Z.shiftr q 12 = d3 /\ Z.land q 0xf = d0.
Proof.
  intros Hq. exists (q / 4096), (q / 256 mod 16), (q / 16 mod 16), (q mod 16).
  change 0xf with (Z.ones 4). rewrite !Z.land_ones, !Z.shiftr_div_pow2 by lia.
  change (2 ^ 4) with 16. change (2 ^ 8) with 256. change (2 ^ 12) with 4096.
  Z.to_euclidean_division_equations; lia.
Qed.

Ltac small_div10 :=
  repeat match goal with
  | |- context [div10 ?x] => rewrite (div10_exact x) by (Z.to_euclidean_division_equations; lia)
  | |- context [Z.shiftr (u32 (?x * 0xd)) 7] =>
      rewrite (div10_short x) by (Z.to_euclidean_division_equations; lia)
  | |- context [u32 ?x] => rewrite (u32_small x) by (Z.to_euclidean_division_equations; lia)
  | |- context [u8 ?x] => rewrite (u8_small x) by (Z.to_euclidean_division_equations; lia)
  end.

Lemma put_dec_full_five q : 0 <= q < 100000 -> put_dec_full q = five_digits q.
Proof.
  intros Hq. destruct (nibbles q Hq) as (d3 & d2 & d1 & d0 & -> & H3 & H2 & H1 & H0 & E1 & E2 & E3 & E0).
  unfold put_dec_full. rewrite E1, E2, E3, E0. clear E1 E2 E3 E0. cbv zeta. small_div10.
  unfold five_digits. cbn [fmap list_fmap].
  repeat apply (f_equal2 cons); [..|reflexivity]; Z.to_euclidean_division_equations; lia.
Qed.

(** Replace the outermost condition on the left by a simpler one. *)
Ltac condition t :=
  match goal with |- _ :: (if ?b then _ else _) = _ =>
    replace b with t by
      (cbn [Z.mul Pos.mul]; repeat cmp1; try reflexivity; exfalso; Z.to_euclidean_division_equations; lia)
  end.

(** The digits from the one of weight [k] on. *)
Lemma digits_of_weight n k k' : is_u64 n -> k' = k * 10 -> 0 < k ->
  (digit_char 0 <$> digits_of 10 (n / k)) =
  48 + n / k mod 10 :: if negb (n <? k') then digit_char 0 <$> digits_of 10 (n / k') else [].
Proof.
  intros Hn -> Hk. unfold is_u64 in Hn.
  assert (is_u64 (n / k)).
  { split; [apply Z.div_pos; lia|]. apply Z.div_lt_upper_bound; nia. }
  rewrite digits_of_step, Z.div_div, fmap_cons, digit_char_dec
    by (try apply Z.mod_pos_bound; done || lia).
  destruct (Z.ltb_spec (n / k) 10), (Z.ltb_spec n (k * 10)); try done; exfalso.
  - pose proof (Z.mul_succ_div_gt n k Hk). nia.
  - assert (n / k < 10) by (apply Z.div_lt_upper_bound; lia). lia.
Qed.

Lemma put_dec_trunc_digits q : 0 <= q < 100000 ->
  put_dec_trunc q = (digit_char 0 <$> digits_of 10 q).
Proof.
  intros Hq. pose proof (put_dec_full_five q Hq) as F. unfold five_digits in F.
  cbn [fmap list_fmap] in F. unfold put_dec_full in F. unfold put_dec_trunc.
  destruct (nibbles q Hq) as (d3 & d2 & d1 & d0 & Eq & H3 & H2 & H1 & H0 & E1 & E2 & E3 & E0).
  rewrite E1, E2, E3, E0 in *. clear E1 E2 E3 E0. cbv zeta in *. injection F as F0 F1 F2 F3 F4.
  rewrite F0, F1, F2, F3, F4. clear F0 F1 F2 F3 F4. small_div10.
  pose proof (digits_of_weight q 1 10) as D. rewrite Z.div_1_r in D. rewrite D by mlia. clear D.
  rewrite (digits_of_weight q 10 100), (digits_of_weight q 100 1000),
    (digits_of_weight q 1000 10000), (digits_of_weight q 10000 100000) by mlia.
  repeat match goal with |- _ :: (if _ then _ else _) = _ :: (if ?b then _ else _) =>
    condition b; apply (f_equal2 cons); [reflexivity|]; destruct b eqn:?; [|reflexivity] end.
  branch. reflexivity.
Qed.

(** Five digits at a time. *)
Lemma digits_of_five n : 100000 <= n -> is_u64 n ->
  (digit_char 0 <$> digits_of 10 n) =
  five_digits (n mod 100000) ++ (digit_char 0 <$> digits_of 10 (n / 100000)).
Proof.
  intros Hn Hu. unfold five_digits. cbn [fmap list_fmap app].
  pose proof (digits_of_weight n 1 10) as D. rewrite Z.div_1_r in D. rewrite D by (done || lia). clear D.
  rewrite (digits_of_weight n 10 100), (digits_of_weight n 100 1000),
    (digits_of_weight n 1000 10000), (digits_of_weight n 10000 100000) by (done || lia).
  repeat branch. cbn [negb].
  repeat apply (f_equal2 cons); [..|reflexivity]; Z.to_euclidean_division_equations; lia.
Qed.

(** ** Decimal conversion *)
Lemma put_dec_digits n : is_u64 n -> put_dec n = (digit_char 0 <$> digits_of 10 n).
Proof.
  intros Hn. unfold put_dec.
  assert (L : forall f n, is_u64 n -> n < 100000 ^ Z.of_nat (S f) ->
    put_dec_loop (S f) n = Some (digit_char 0 <$> digits_of 10 n)); cycle 1.
  { rewrite L; [done..|]. unfold is_u64 in *. change (100000 ^ Z.of_nat 4) with 100000000000000000000.
    lia. }
  clear n Hn. induction f as [|f IH]; intros n Hn Hf; unfold is_u64 in Hn.
  { change (100000 ^ Z.of_nat 1) with 100000 in Hf. cbn [put_dec_loop]. branch.
    by rewrite put_dec_trunc_digits by lia. }
  cbn [put_dec_loop] in IH |- *. destruct (Z.ltb_spec n 100000).
  - by rewrite put_dec_trunc_digits by lia.
  - rewrite Nat2Z.inj_succ, Z.pow_succ_r in Hf by lia.
    rewrite IH by (unfold is_u64; Z.to_euclidean_division_equations; lia). cbn [mbind option_bind].
    rewrite (digits_of_five n), put_dec_full_five by (done || (apply Z.mod_pos_bound; lia)). done.
Qed.

(** ** Numbers in any base *)
Lemma digits_lookup locase d : locase = 0 \/ locase = 32 -> 0 <= d < 16 ->
  Z.lor (byteat digits d) locase = digit_char locase d.
Proof.
  intros Hl Hd. apply Z.eqb_eq.
  refine (all_below_spec (fun d => Z.lor (byteat digits d) locase =? digit_char locase d) 16 0 _ d
            ltac:(lia)).
  destruct Hl as [-> | ->]; vm_compute; reflexivity.
Qed.

Lemma radix_loop_digits f shift locase num :
  locase = 0 \/ locase = 32 -> 1 <= shift <= 4 -> 0 <= num ->
  radix_loop f (2 ^ shift - 1) shift locase num =
  (digit_char locase <$> rdigits (S f) (2 ^ shift) num).
Proof.
  intros Hl Hs. revert num.
  assert (B : 2 <= 2 ^ shift <= 16).
  { split; [apply (Z.pow_le_mono_r 2 1 shift); lia|apply (Z.pow_le_mono_r 2 shift 4); lia]. }
  assert (D : (2 ^ shift | 256)) by (exists (2 ^ (8 - shift)); rewrite <- Z.pow_add_r by lia;
    replace (8 - shift + shift) with 8 by lia; done).
  assert (C : forall num, 0 <= num ->
    Z.lor (byteat digits (Z.land (u8 num) (2 ^ shift - 1))) locase =
    digit_char locase (num mod 2 ^ shift)).
  { intros num Hn. replace (2 ^ shift - 1) with (Z.ones shift) by (rewrite Z.ones_equiv; lia).
    rewrite Z.land_ones by lia. unfold u8. rewrite Z.mod_mod_divide by done.
    apply digits_lookup; [done|]. pose proof (Z.mod_pos_bound num (2 ^ shift)). lia. }
  induction f as [|f IH]; intros num Hn.
  - cbn [radix_loop rdigits]. rewrite C by done. by destruct (num <? 2 ^ shift).
  - cbn [radix_loop]. rewrite C, Z.shiftr_div_pow2 by lia. rewrite rdigits_S.
    destruct (Z.ltb_spec num (2 ^ shift)).
    + rewrite Z.div_small by lia. done.
    + assert (1 <= num / 2 ^ shift) by (apply Z.div_le_lower_bound; lia).
      branch. rewrite IH by lia. done.
Qed.

(** What C says of an integer conversion: sign, prefix, digits filled up with
    zeros to the precision, and the field filled up to its width. *)
Definition signed_val (type num : Z) : Z := if flag type SIGN then s64 num else num.
Definition sign_text (type num : Z) : list Z :=
  if signed_val type num <? 0 then [45] else if negb (flag type SIGN) then []
  else if flag type PLUS then [43] else if flag type SPACE then [32] else [].
Definition prefix_text (type base : Z) : list Z :=
  if negb (flag type SPECIAL) || (base =? 10) then []
  else if base =? 16 then [48; Z.lor 88 (Z.land type SMALL)] else [48].
Definition len (l : list Z) : Z := Z.of_nat (length l).

Definition format_number (num base size precision type : Z) : list Z :=
  let ds := print_number base (Z.land type SMALL) (Z.abs (signed_val type num)) in
  let ds := pad (precision - len ds) 48 ++ ds in
  let head := sign_text type num ++ prefix_text type base in
  let gap := size - len head - len ds in
  if flag type LEFT then head ++ ds ++ pad gap 32
  else if flag type ZEROPAD then head ++ pad gap 48 ++ ds
  else pad gap 32 ++ head ++ ds.

(** The digits [number] collects in [tmp]. *)
Lemma number_digits base locase num :
  base = 8 \/ base = 10 \/ base = 16 -> locase = 0 \/ locase = 32 -> is_u64 num ->
  rev (if num =? 0 then [48]
       else if negb (base =? 10) then
         radix_loop 63 (base - 1) (if base =? 16 then 4 else 3) locase num
       else put_dec num) = print_number base locase num.
Proof.
  intros Hb Hl Hn. unfold print_number. f_equal. destruct (Z.eqb_spec num 0) as [->|Hz].
  - destruct Hb as [-> | [-> | ->]], Hl as [-> | ->]; vm_compute; reflexivity.
  - unfold is_u64 in Hn. destruct Hb as [-> | [-> | ->]]; repeat branch; cbn [negb].
    + apply (radix_loop_digits 63 3); lia.
    + rewrite put_dec_digits by done. apply list_fmap_ext. intros i d Hd.
      apply list_elem_of_lookup_2 in Hd.
      pose proof (rdigits_range 64 10 num ltac:(lia)) as R. rewrite Forall_forall in R.
      specialize (R d Hd). by rewrite !digit_char_dec by lia.
    + apply (radix_loop_digits 63 4); lia.
Qed.

Lemma flag_ldiff_same type f : flag (Z.ldiff type f) f = false.
Proof.
  unfold flag. replace (Z.land (Z.ldiff type f) f) with 0; [done|].
  apply Z.bits_inj'. intros n Hn. rewrite Z.land_spec, Z.ldiff_spec, Z.bits_0.
  by destruct (Z.testbit type n), (Z.testbit f n).
Qed.

Lemma flag_ldiff_other type f g : Z.land f g = 0 -> flag (Z.ldiff type f) g = flag type g.
Proof.
  intros H. unfold flag. do 2 f_equal. apply Z.bits_inj'. intros n Hn.
  assert (T : Z.testbit (Z.land f g) n = false) by (by rewrite H, Z.bits_0).
  rewrite Z.land_spec in T. rewrite !Z.land_spec, Z.ldiff_spec.
  destruct (Z.testbit type n), (Z.testbit f n), (Z.testbit g n); done.
Qed.

Lemma flag_or type f g : flag type (Z.lor f g) = flag type f || flag type g.
Proof.
  unfold flag. rewrite Z.land_lor_distr_r, <- negb_andb. f_equal.
  destruct (Z.eqb_spec (Z.land type f) 0) as [->|H1]; [done|]. simpl.
  apply Z.eqb_neq. rewrite Z.lor_eq_0_iff. tauto.
Qed.

Lemma land_small type : Z.land type SMALL = 0 \/ Z.land type SMALL = 32.
Proof.
  assert (E : Z.land type SMALL = if Z.testbit type 5 then 2 ^ 5 else 0);
    [|destruct (Z.testbit type 5); rewrite E; auto].
  apply Z.bits_inj'. intros n Hn. rewrite Z.land_spec. change SMALL with (2 ^ 5).
  destruct (Z.eqb_spec 5 n) as [<-|].
  - rewrite Z.pow2_bits_true by lia. destruct (Z.testbit type 5); done.
  - rewrite Z.pow2_bits_false by lia. rewrite andb_false_r.
    destruct (Z.testbit type 5); [by rewrite Z.pow2_bits_false by lia|by rewrite Z.bits_0].
Qed.

Lemma pad_neg size ch : size <= 0 -> pad size ch = [].
Proof. intros. unfold pad. by replace (Z.to_nat size) with O by lia. Qed.

Lemma s64_range num : is_u64 num -> - 9223372036854775808 <= s64 num < 9223372036854775808.
Proof. unfold s64, is_u64. intros. rewrite u64_small by lia. cmp1; lia. Qed.

Lemma split_sign_spec type type' num size : is_u64 num ->
  flag type' SIGN = flag type SIGN -> flag type' PLUS = flag type PLUS ->
  flag type' SPACE = flag type SPACE ->
  exists c, split_sign type' num size =
    (c, Z.abs (signed_val type num), size - len (sign_text type num)) /\
    (if negb (c =? 0) then [c] else []) = sign_text type num.
Proof.
  intros Hn FS FP FB. pose proof (s64_range num Hn) as Hs. unfold is_u64 in Hn.
  assert (A : s64 num >= 0 -> s64 num = num).
  { unfold s64. rewrite u64_small by lia. cmp1; lia. }
  unfold split_sign, sign_text, signed_val. rewrite FS, FP, FB.
  destruct (flag type SIGN); cbn [negb].
  - destruct (Z.ltb_spec (s64 num) 0).
    + eexists. rewrite Z.abs_neq, u64_small by lia. done.
    + rewrite A, Z.abs_eq by lia.
      destruct (flag type PLUS); [eexists; done|]. destruct (flag type SPACE); eexists; [done|].
      rewrite Z.sub_0_r. done.
  - branch. exists 0. rewrite Z.abs_eq, Z.sub_0_r by lia. done.
Qed.

(** Without the zero padding that a left-justified field has none of. *)
Lemma type_flags type :
  let type' := if flag type LEFT then Z.ldiff type ZEROPAD else type in
  flag type' LEFT = flag type LEFT /\ flag type' SIGN = flag type SIGN /\
  flag type' PLUS = flag type PLUS /\ flag type' SPACE = flag type SPACE /\
  flag type' ZEROPAD = flag type ZEROPAD && negb (flag type LEFT).
Proof.
  intros type'. subst type'. destruct (flag type LEFT) eqn:E; [|by rewrite andb_true_r].
  rewrite !flag_ldiff_other, flag_ldiff_same, andb_false_r by done. done.
Qed.

Lemma number_format num base size precision type :
  base = 8 \/ base = 10 \/ base = 16 -> is_u64 num ->
  number num base size precision type = format_number num base size precision type.
Proof.
  intros Hb Hn. unfold number, format_number.
  destruct (type_flags type) as (FL & FS & FP & FB & FZ). cbv zeta in *.
  set (type' := if flag type LEFT then Z.ldiff type ZEROPAD else type) in *.
  change (ZEROPAD + LEFT) with (Z.lor ZEROPAD LEFT). rewrite flag_or, FZ, FL.
  destruct (split_sign_spec type type' num size Hn FS FP FB) as (c & -> & E). rewrite E.
  clear E FS FP FB FZ FL type'.
  set (v := Z.abs (signed_val type num)). set (sg := sign_text type num).
  assert (Hv : is_u64 v).
  { subst v. unfold signed_val. pose proof (s64_range num Hn). unfold is_u64 in *. destruct (flag _ _); lia. }
  pose proof (number_digits base (Z.land type SMALL) v Hb (land_small type) Hv) as D.
  match type of D with rev ?t = _ => set (tmp := t) in * end.
  rewrite <- D. unfold len. rewrite !length_app, length_rev.
  assert (P : (if flag type SPECIAL && negb (base =? 10)
    then if base =? 16 then [48; Z.lor 88 (Z.land type SMALL)] else [48] else []) = prefix_text type base).
  { unfold prefix_text. destruct (flag type SPECIAL), (base =? 10); done. }
  rewrite P.
  assert (W : forall x, (if flag type SPECIAL && negb (base =? 10)
     then if base =? 16 then x - 2 else x - 1 else x) = x - Z.of_nat (length (prefix_text type base))).
  { intros x. rewrite <- P. destruct (flag type SPECIAL && negb (base =? 10)); [|simpl; lia].
    destruct (base =? 16); simpl; lia. }
  rewrite W. clear W P. generalize (prefix_text type base) as pf. intros pf.
  set (n := Z.of_nat (length tmp)).
  assert (Z1 : pad ((if precision <? n then n else precision) - n) 48 = pad (precision - n) 48).
  { cmp1; [|done]. by rewrite !pad_neg by lia. }
  assert (Z2 : Z.of_nat (length (pad (precision - n) 48) + length tmp) =
    if precision <? n then n else precision).
  { unfold pad. rewrite length_replicate. cmp1; lia. }
  rewrite Z1, Z2, Nat2Z.inj_add, Z.sub_add_distr. clear Z1 Z2.
  generalize (if precision <? n then n else precision) as k. intros k.
  destruct (flag type LEFT), (flag type ZEROPAD); cbn [negb orb andb];
    rewrite ?(pad_neg (padded _)) by (unfold padded; lia); simpl app; by rewrite ?app_nil_r, <- ?app_assoc.
Qed.

(** ** Printing and parsing *)
Lemma decode_digit_char locase d : locase = 0 \/ locase = 32 -> 0 <= d < 16 ->
  decode_digit (digit_char locase d) = d /\ tolower (digit_char locase d) <> 120 /\
  is_u8 (digit_char locase d) /\ digit_char locase d <> 0.
Proof.
  intros Hl Hd.
  assert (C : (decode_digit (digit_char locase d) =? d) &&
    negb (tolower (digit_char locase d) =? 120) && (0 <? digit_char locase d) &&
    (digit_char locase d <? 256) = true).
  { refine (all_below_spec (fun d => (decode_digit (digit_char locase d) =? d) &&
      negb (tolower (digit_char locase d) =? 120) && (0 <? digit_char locase d) &&
      (digit_char locase d <? 256)) 16 0 _ d ltac:(lia)).
    destruct Hl as [-> | ->]; vm_compute; reflexivity. }
  rewrite !andb_true_iff, negb_true_iff in C. unfold is_u8. lia.
Qed.

Lemma fmap_rev (f : Z -> Z) l : f <$> rev l = rev (f <$> l).
Proof. induction l as [|x l IH]; [done|]. simpl. by rewrite fmap_app, IH. Qed.

Lemma print_number_chars base locase n : 2 <= base <= 16 -> locase = 0 \/ locase = 32 ->
  Forall (fun c => decode_digit c < base /\ tolower c <> 120 /\ is_u8 c /\ c <> 0)
    (print_number base locase n).
Proof.
  intros Hb Hl. unfold print_number. apply Forall_rev. rewrite Forall_fmap.
  eapply Forall_impl; [apply rdigits_range; lia|]. intros d Hd. simpl in Hd |- *.
  destruct (decode_digit_char locase d Hl ltac:(lia)) as (E & H). rewrite E. tauto || lia.
Qed.

Lemma print_number_nonempty base locase n : print_number base locase n <> [].
Proof.
  unfold print_number. intros H. apply (f_equal (@rev Z)) in H. rewrite rev_involutive in H.
  apply fmap_nil_inv in H. unfold digits_of in H. by rewrite (rdigits_S 63) in H.
Qed.

Lemma print_number_val base locase n : 2 <= base <= 16 -> locase = 0 \/ locase = 32 -> is_u64 n ->
  digits_val base (decode_digit <$> print_number base locase n) = n.
Proof.
  intros Hb Hl Hn. unfold print_number. rewrite fmap_rev, <- list_fmap_compose.
  pose proof (rdigits_range 64 base n ltac:(lia)) as R. rewrite Forall_forall in R.
  rewrite (list_fmap_ext (decode_digit ∘ digit_char locase) id), list_fmap_id.
  - apply rdigits_val; [lia|]. unfold is_u64 in Hn. split; [lia|].
    pose proof (Z.pow_le_mono_l 2 base 64 ltac:(lia)) as P.
    change (2 ^ 64) with 18446744073709551616 in P. change (Z.of_nat 64) with 64. lia.
  - intros i d Hd. apply list_elem_of_lookup_2 in Hd. specialize (R d Hd). simpl in *.
    apply decode_digit_char; [done|lia].
Qed.

Lemma strtoul_print base locase n rest :
  2 <= base <= 16 -> locase = 0 \/ locase = 32 -> is_u64 n ->
  base <= decode_digit (at_hd rest) -> tolower (at_hd rest) <> 120 ->
  simple_strtoul (print_number base locase n ++ rest) base = (n, rest).
Proof.
  intros Hb Hl Hn Hr Hx. pose proof (print_number_chars base locase n Hb Hl) as C.
  rewrite strtoul_digits; [|lia| |by eapply Forall_impl; [exact C|]; simpl; tauto|done].
  - rewrite print_number_val, u64_small by done. done.
  - right. destruct (print_number base locase n) as [|c [|d r]] eqn:E; simpl; [|done|].
    + by destruct (print_number_nonempty base locase n).
    + apply Forall_cons in C as [_ [C _]%Forall_cons]. tauto.
Qed.

Lemma itoa_loop_digits f i p : 0 <= i ->
  itoa_loop f i p = rev (digit_char 0 <$> rdigits (S f) 10 i) ++ p.
Proof.
  revert i p. induction f as [|f IH]; intros i p Hi.
  - cbn [itoa_loop rdigits]. rewrite fmap_cons, digit_char_dec by (apply Z.mod_pos_bound; lia).
    by destruct (i <? 10).
  - cbn [itoa_loop]. rewrite rdigits_S, fmap_cons, digit_char_dec by (apply Z.mod_pos_bound; lia).
    destruct (Z.ltb_spec i 10).
    + rewrite Z.div_small by lia. done.
    + assert (1 <= i / 10) by (apply Z.div_le_lower_bound; lia). branch.
      rewrite IH by lia. cbn [rev]. by rewrite <- app_assoc.
Qed.

Lemma simple_itoa_prints i : is_u64 i -> simple_itoa i = print_number 10 0 i.
Proof.
  intros Hi. unfold is_u64 in Hi. unfold simple_itoa, print_number, digits_of.
  rewrite itoa_loop_digits, app_nil_r by lia. rewrite (rdigits_fuel 21 64) by lia. reflexivity.
Qed.

(** A number without sign, prefix, width and precision is its digits. *)
Lemma number_plain num base locase : base = 8 \/ base = 10 \/ base = 16 -> is_u64 num ->
  locase = 0 \/ locase = 32 -> number num base (-1) (-1) locase = print_number base locase num.
Proof.
  intros Hb Hn Hl. rewrite number_format by done. unfold is_u64 in Hn. unfold format_number.
  assert (F : signed_val locase num = num /\ sign_text locase num = [] /\ prefix_text locase base = [] /\
    flag locase LEFT = false /\ flag locase ZEROPAD = false /\ Z.land locase SMALL = locase).
  { unfold sign_text, prefix_text, signed_val.
    replace (flag locase SIGN) with false by (destruct Hl as [-> | ->]; done).
    replace (flag locase SPECIAL) with false by (destruct Hl as [-> | ->]; done).
    branch. destruct Hl as [-> | ->]; done. }
  destruct F as (-> & -> & -> & -> & -> & ->). rewrite Z.abs_eq by lia.
  rewrite !pad_neg by (unfold len; simpl; lia). done.
Qed.

(** C30: what the number printer of printf writes, for the bases it is called
    with, any width, precision and flags, is what C asks for: sign, prefix, the
    digits filled up with zeros to the precision, and blanks or zeros on the
    side the flags say up to the width.  In particular the multiplications and
    nibble sums of the decimal conversion give the decimal digits. *)
Theorem number_formats num base size precision type :
  base = 8 \/ base = 10 \/ base = 16 -> is_u64 num ->
  number num base size precision type = format_number num base size precision type.
Proof. apply number_format. Qed.

Lemma number_formats_witness :
  number 18446744073709551493 10 8 5 (SIGN + LEFT) = [45; 48; 48; 49; 50; 51; 32; 32].
Proof.
  etransitivity; [apply number_formats; [auto|unfold is_u64; lia]|]. vm_compute. reflexivity.
Defined.

(** A 64-bit number printed in a base is read back by the parser of that
    base, which stops where the digits end, also for either letter case; what
    follows must not look like a digit or complete a 0x. *)
Theorem number_strtoul_roundtrip num base locase rest :
  base = 8 \/ base = 10 \/ base = 16 -> locase = 0 \/ locase = SMALL -> is_u64 num ->
  base <= decode_digit (at_hd rest) -> tolower (at_hd rest) <> 120 ->
  simple_strtoul (number num base (-1) (-1) locase ++ rest) base = (num, rest).
Proof.
  intros Hb Hl Hn Hr Hx. rewrite number_plain by done. apply strtoul_print; try done. lia.
Qed.

Lemma number_strtoul_roundtrip_witness :
  simple_strtoul (number 3735928559 16 (-1) (-1) SMALL ++ [44; 49]) 16 = (3735928559, [44; 49]).
Proof.
  apply number_strtoul_roundtrip; [auto|auto|unfold is_u64; lia|vm_compute; discriminate|
    vm_compute; discriminate].
Defined.

End Printf.
