(* ===== verification/Uuid.v ===== *)
(** * UUIDs (lib/uuid.c, include/u-boot/uuid.h, lib/rand.c)

    A binary UUID is sixteen bytes, its text thirty-six characters.  The table
    of known GUIDs depends on the configuration and is a parameter, as are
    SHA-1, the random device and the timer.  The machine is little-endian. *)

From S2P Require Import Prelude Bytes.
From S2P Require Import Hashtable Strto Printf.

Module Uuid.
Import Hashtable Strto Printf.

Definition UUID_STR_FORMAT_STD : Z := 0.
Definition UUID_STR_FORMAT_GUID : Z := 0x1.
Definition UUID_STR_UPPER_CASE : Z := 0x2.
Definition UUID_STR_LEN : Z := 36.
Definition UUID_VERSION_MASK : Z := 0xf000.
Definition UUID_VERSION_SHIFT : Z := 12.
Definition UUID_VERSION : Z := 0x4.
Definition UUID_VARIANT_MASK : Z := 0xc0.
Definition UUID_VARIANT_SHIFT : Z := 7.
Definition UUID_VARIANT : Z := 0x1.
Definition ENODEV : Z := 19.

(** ** Text to binary *)

(** Where a dash must be. *)
Definition is_dash (i : Z) : bool := (i =? 8) || (i =? 13) || (i =? 18) || (i =? 23).

(** [i] and [valid] at the end of the loop. *)
Fixpoint valid_loop (uuid : str) (i : Z) : Z * bool :=
  match uuid with
  | [] => (i, true)
  | c :: r =>
    let valid := if is_dash i then c =? 45 else Ctype.isxdigit c in
    if valid then valid_loop r (i + 1) else (i + 1, false)
  end.

Definition uuid_str_valid (uuid : option str) : bool :=
  match uuid with
  | None => false
  | Some uuid =>
    let '(i, valid) := valid_loop uuid 0 in negb (negb (i =? UUID_STR_LEN) || negb valid)
  end.

(** [cpu_to_be..] and a copy to memory. *)

Definition guid_table := list (str * list Z).

Fixpoint uuid_guid_get_bin (list_guid : guid_table) (guid_str : str) (guid_bin : list Z)
    : Z * list Z :=
  match list_guid with
  | [] => (- ENODEV, guid_bin)
  | (s, g) :: r =>
    if bool_decide (s = guid_str) then (0, write_at guid_bin 0 (take 16 g))
    else uuid_guid_get_bin r guid_str guid_bin
  end.

Fixpoint uuid_guid_get_str (list_guid : guid_table) (guid_bin : list Z) : option str :=
  match list_guid with
  | [] => None
  | (s, g) :: r =>
    if bool_decide (take 16 g = take 16 guid_bin) then Some s else uuid_guid_get_str r guid_bin
  end.

(** The number that starts at offset [i] of the string. *)
Definition hex_at (uuid_str : str) (i : nat) : Z := (hextoul (drop i uuid_str)).1.

(** [list_guid] is the table if CONFIG_PARTITION_TYPE_GUID is set. *)
Definition uuid_str_to_bin (list_guid : option guid_table) (uuid_str : str) (uuid_bin : list Z)
    (str_format : Z) : Z * list Z :=
  if negb (uuid_str_valid (Some uuid_str)) then
    match list_guid with
    | Some table =>
      let '(ret, bin) := uuid_guid_get_bin table uuid_str uuid_bin in
      if ret =? 0 then (0, bin) else (- EINVAL, bin)
    | None => (- EINVAL, uuid_bin)
    end
  else
    let order (n : nat) (x : Z) :=
      if str_format =? UUID_STR_FORMAT_STD then be_bytes n x else le_bytes n x in
    let bin := write_at uuid_bin 0 (order 4%nat (u32 (hex_at uuid_str 0))) in
    let bin := write_at bin 4 (order 2%nat (u16 (hex_at uuid_str 9))) in
    let bin := write_at bin 6 (order 2%nat (u16 (hex_at uuid_str 14))) in
    let bin := write_at bin 8 (be_bytes 2 (u16 (hex_at uuid_str 19))) in
    let tmp64 := be_bytes 8 (hextoull (drop 24 uuid_str)).1 in
    (0, write_at bin 10 (sub tmp64 2 6)).

Definition uuid_str_to_le_bin (uuid_str : str) (uuid_bin : option (list Z)) : Z * option (list Z) :=
  match uuid_bin with
  | Some bin =>
    if negb (uuid_str_valid (Some uuid_str)) then (- EINVAL, uuid_bin)
    else
      let bin := write_at bin 0 (le_bytes 4 (u32 (hex_at uuid_str 0))) in
      let bin := write_at bin 4 (le_bytes 2 (u16 (hex_at uuid_str 9))) in
      let bin := write_at bin 6 (le_bytes 2 (u16 (hex_at uuid_str 14))) in
      let bin := write_at bin 8 (le_bytes 2 (u16 (hex_at uuid_str 19))) in
      let tmp64 := le_bytes 8 (hextoull (drop 24 uuid_str)).1 in
      (0, Some (write_at bin 10 (sub tmp64 0 6)))
  | None => (- EINVAL, None)
  end.

(** ** Binary to text *)
Definition uuid_char_order : list nat := [0; 1; 2; 3; 4; 5; 6; 7; 8; 9; 10; 11; 12; 13; 14; 15]%nat.
Definition guid_char_order : list nat := [3; 2; 1; 0; 5; 4; 7; 6; 8; 9; 10; 11; 12; 13; 14; 15]%nat.

(** [sprintf] with "%02X" or "%02x". *)
Definition hex2 (str_format b : Z) : list Z :=
  number b 16 2 (-1) (ZEROPAD + if flag str_format UUID_STR_UPPER_CASE then 0 else SMALL).

Definition dash_after (i : nat) : bool :=
  match i with 3 | 5 | 7 | 9 => true | _ => false end%nat.

Definition uuid_bin_to_str (uuid_bin : list Z) (str_format : Z) : str :=
  let char_order :=
    if flag str_format UUID_STR_FORMAT_GUID then guid_char_order else uuid_char_order in
  flat_map (fun i =>
    hex2 str_format (byteat uuid_bin (Z.of_nat (nth i char_order O))) ++
    (if dash_after i then [45] else []))
    (seq 0 16).

(** ** New UUIDs *)

(** [uuid] is sixteen bytes in big-endian order. *)
Definition configure_uuid (uuid : list Z) (version : Z) : list Z :=
  let tmp := be_val (sub uuid 6 2) in
  let tmp := u16 (Z.lor (Z.ldiff tmp UUID_VERSION_MASK) (Z.shiftl version UUID_VERSION_SHIFT)) in
  let uuid := write_at uuid 6 (be_bytes 2 tmp) in
  let b := Z.ldiff (byteat uuid 8) UUID_VARIANT_MASK in
  write_at uuid 8 [u8 (Z.lor b (Z.shiftl UUID_VARIANT UUID_VARIANT_SHIFT))].

(** [args] are the data up to the NULL that ends the arguments. *)
Definition gen_v5_guid (sha1 : list Z -> list Z) (namespace : list Z) (args : list (list Z))
    : list Z :=
  let hash := sha1 (take 16 namespace ++ concat args) in
  let guid := configure_uuid (take 16 hash) 5 in
  let guid := write_at guid 0 (rev (sub guid 0 4)) in
  let guid := write_at guid 4 (rev (sub guid 4 2)) in
  write_at guid 6 (rev (sub guid 6 2)).

(** The generator of lib/rand.c: the new state is also the value. *)
Definition rand_r (seed : Z) : Z :=
  let seed := Z.lxor seed (u32 (Z.shiftl seed 13)) in
  let seed := Z.lxor seed (Z.shiftr seed 17) in
  Z.lxor seed (u32 (Z.shiftl seed 5)).

Fixpoint rands (n : nat) (y : Z) : list Z * Z :=
  match n with
  | O => ([], y)
  | S k => let y := rand_r y in let '(l, y') := rands k y in (y :: l, y')
  end.

(** [rng] is what the random device stored, if there is one and it worked; [y]
    is the state of the generator.  The bytes and the new state. *)
Definition gen_rand_uuid (rng : option Z) (ticks y : Z) : list Z * Z :=
  let randv := u32 (default 0 rng) in
  let y := if negb (randv =? 0) then randv else u32 (ticks + rand_r y) in
  let '(ptr, y) := rands 4 y in
  (configure_uuid (flat_map (le_bytes 4) ptr) UUID_VERSION, y).

Definition gen_rand_uuid_str (rng : option Z) (ticks y str_format : Z) : str * Z :=
  let '(uuid_bin, y) := gen_rand_uuid rng ticks y in (uuid_bin_to_str uuid_bin str_format, y).

(** ** Laws *)
Definition hex_case (str_format : Z) : Z := if flag str_format UUID_STR_UPPER_CASE then 0 else SMALL.

Lemma hex2_chars str_format b : is_u8 b ->
  hex2 str_format b =
  [digit_char (hex_case str_format) (b / 16); digit_char (hex_case str_format) (b mod 16)].
Proof.
  intros Hb. unfold hex2, hex_case. unfold is_u8 in Hb. apply list_eqb_eq.
  destruct (flag str_format UUID_STR_UPPER_CASE).
  - refine (all_below_spec (fun b => list_eqb (number b 16 2 (-1) (ZEROPAD + 0))
      [digit_char 0 (b / 16); digit_char 0 (b mod 16)]) 256 0 _ b ltac:(lia)). vm_compute. reflexivity.
  - refine (all_below_spec (fun b => list_eqb (number b 16 2 (-1) (ZEROPAD + SMALL))
      [digit_char SMALL (b / 16); digit_char SMALL (b mod 16)]) 256 0 _ b ltac:(lia)).
    vm_compute. reflexivity.
Qed.

Lemma hex_case_ok str_format : hex_case str_format = 0 \/ hex_case str_format = 32.
Proof. unfold hex_case. destruct (flag _ _); auto. Qed.

(** The text of a field. *)
Definition field (str_format : Z) (bs : list Z) : str := flat_map (hex2 str_format) bs.

Lemma field_chars str_format bs : Forall is_u8 bs ->
  Forall (fun c => decode_digit c < 16 /\ Ctype.tolower c <> 120) (field str_format bs) /\
  length (field str_format bs) = (2 * length bs)%nat.
Proof.
  induction 1 as [|b bs Hb Hbs [IH1 IH2]]; [by split|]. unfold is_u8 in Hb.
  unfold field in *. cbn [flat_map]. rewrite hex2_chars by done. split.
  - destruct (decode_digit_char (hex_case str_format) (b / 16) (hex_case_ok _)) as (E1 & X1 & _);
      [Z.to_euclidean_division_equations; lia|].
    destruct (decode_digit_char (hex_case str_format) (b mod 16) (hex_case_ok _)) as (E2 & X2 & _);
      [apply Z.mod_pos_bound; lia|].
    repeat constructor; try done; rewrite ?E1, ?E2; Z.to_euclidean_division_equations; lia.
  - simpl. rewrite IH2. lia.
Qed.

Lemma field_val str_format bs : Forall is_u8 bs ->
  digits_val 16 (decode_digit <$> field str_format bs) = be_val bs.
Proof.
  induction bs as [|b bs IH] using rev_ind; intros H; [done|].
  apply Forall_app in H as [Hbs Hb]. rewrite Forall_singleton in Hb. unfold is_u8 in Hb.
  unfold field in *. rewrite flat_map_app, be_val_snoc, <- IH by done. cbn [flat_map].
  rewrite app_nil_r, hex2_chars, fmap_app by done. cbn [fmap list_fmap].
  rewrite (proj1 (decode_digit_char _ (b / 16) (hex_case_ok _) ltac:(Z.to_euclidean_division_equations; lia))).
  rewrite (proj1 (decode_digit_char _ (b mod 16) (hex_case_ok _) ltac:(apply Z.mod_pos_bound; lia))).
  unfold digits_val. rewrite fold_left_app. simpl. Z.to_euclidean_division_equations; lia.
Qed.

(** A field followed by something else than a digit, or by the end of the string. *)
Lemma hextoul_field str_format bs rest : Forall is_u8 bs -> (1 <= length bs <= 8)%nat ->
  16 <= decode_digit (at_hd rest) -> hextoul (field str_format bs ++ rest) = (be_val bs, rest).
Proof.
  intros Hb Hl R. destruct (field_chars str_format bs Hb) as [C L].
  unfold hextoul. rewrite strtoul_digits; [|lia| |by eapply Forall_impl; [exact C|]; simpl; tauto|done].
  - rewrite field_val by done. rewrite u64_small; [done|]. pose proof (be_val_range bs Hb). pose proof (Z.pow_le_mono_r 256 (Z.of_nat (length bs)) 8).
    change (256 ^ 8) with 18446744073709551616 in *. lia.
  - right. destruct (field str_format bs) as [|c [|d r]]; simpl in *; [lia..|].
    apply Forall_cons in C as [_ [C _]%Forall_cons]. tauto.
Qed.

Lemma valid_loop_hex cs rest i : Forall (fun c => Ctype.isxdigit c = true) cs ->
  (forall j, i <= j < i + Z.of_nat (length cs) -> is_dash j = false) ->
  valid_loop (cs ++ rest) i = valid_loop rest (i + Z.of_nat (length cs)).
Proof.
  intros H. revert i. induction H as [|c cs Hc Hcs IH]; intros i D; [by rewrite Z.add_0_r|].
  cbn [app valid_loop length]. rewrite D by (simpl; lia). rewrite Hc, IH; [f_equal; lia|].
  intros j Hj. apply D. simpl. lia.
Qed.

(** The text of five fields. *)
Definition text (f : Z) (a b c d e : list Z) : str :=
  field f a ++ 45 :: field f b ++ 45 :: field f c ++ 45 :: field f d ++ 45 :: field f e.

Lemma field_xdigits f bs : Forall is_u8 bs -> Forall (fun c => Ctype.isxdigit c = true) (field f bs).
Proof.
  intros H. eapply Forall_impl; [apply (field_chars f bs H)|]. intros c [Hc _].
  apply decode_digit_xdigit. lia.
Qed.

Lemma length_field f bs n : Forall is_u8 bs -> length bs = n -> length (field f bs) = (2 * n)%nat.
Proof. intros H <-. apply (field_chars f bs H). Qed.

Ltac no_dash := intros j Hj; unfold is_dash; repeat branch; reflexivity.

Lemma text_valid f a b c d e :
  Forall is_u8 a -> Forall is_u8 b -> Forall is_u8 c -> Forall is_u8 d -> Forall is_u8 e ->
  length a = 4%nat -> length b = 2%nat -> length c = 2%nat -> length d = 2%nat -> length e = 6%nat ->
  uuid_str_valid (Some (text f a b c d e)) = true.
Proof.
  intros Ha Hb Hc Hd He La Lb Lc Ld Le. unfold uuid_str_valid, text.
  apply (length_field f) in La, Lb, Lc, Ld, Le; try done.
  rewrite valid_loop_hex by (by apply field_xdigits || (rewrite La; no_dash)).
  cbn [valid_loop]. rewrite La. cbn.
  rewrite valid_loop_hex by (by apply field_xdigits || (rewrite Lb; no_dash)).
  cbn [valid_loop]. rewrite Lb. cbn.
  rewrite valid_loop_hex by (by apply field_xdigits || (rewrite Lc; no_dash)).
  cbn [valid_loop]. rewrite Lc. cbn.
  rewrite valid_loop_hex by (by apply field_xdigits || (rewrite Ld; no_dash)).
  cbn [valid_loop]. rewrite Ld. cbn. rewrite <- (app_nil_r (field f e)).
  rewrite valid_loop_hex by (by apply field_xdigits || (rewrite Le; no_dash)).
  rewrite Le. reflexivity.
Qed.

Lemma drop_field f bs n rest : Forall is_u8 bs -> length bs = n ->
  drop (2 * n + 1) (field f bs ++ 45 :: rest) = rest.
Proof.
  intros H L. apply (length_field f) in L; [|done]. rewrite drop_app, L, drop_ge by lia.
  replace (2 * n + 1 - 2 * n)%nat with 1%nat by lia. done.
Qed.

Lemma text_fields f a b c d e :
  Forall is_u8 a -> Forall is_u8 b -> Forall is_u8 c -> Forall is_u8 d -> Forall is_u8 e ->
  length a = 4%nat -> length b = 2%nat -> length c = 2%nat -> length d = 2%nat -> length e = 6%nat ->
  let s := text f a b c d e in
  hex_at s 0 = be_val a /\ hex_at s 9 = be_val b /\ hex_at s 14 = be_val c /\
  hex_at s 19 = be_val d /\ hextoull (drop 24 s) = (be_val e, []).
Proof.
  intros Ha Hb Hc Hd He La Lb Lc Ld Le s. subst s. unfold hex_at, text.
  change 24%nat with (9 + (5 + (5 + 5)))%nat. change 19%nat with (9 + (5 + 5))%nat.
  change 14%nat with (9 + 5)%nat. rewrite <- !drop_drop, drop_0.
  rewrite (drop_field f a 4), (drop_field f b 2), (drop_field f c 2), (drop_field f d 2) by done.
  rewrite <- (app_nil_r (field f e)).
  change hextoull with hextoul. rewrite !hextoul_field by (done || lia). done.
Qed.

Lemma le_bytes_be_val bs n : Forall is_u8 bs -> length bs = n -> le_bytes n (be_val bs) = rev bs.
Proof.
  intros H L. rewrite <- (be_bytes_val bs n) at 2 by done. unfold be_bytes. by rewrite rev_involutive.
Qed.

Lemma be_bytes_low bs : Forall is_u8 bs -> length bs = 6%nat -> sub (be_bytes 8 (be_val bs)) 2 6 = bs.
Proof.
  intros H L. unfold be_bytes. rewrite (le_bytes_add 6 2), rev_app_distr.
  change (rev (le_bytes 6 (be_val bs))) with (be_bytes 6 (be_val bs)). rewrite be_bytes_val by done.
  unfold sub. rewrite drop_app_length', take_ge; [done|simpl; lia|]. by rewrite length_rev, length_le_bytes.
Qed.

(** The bytes of a UUID in the order of its text. *)
Definition swap_guid (guid : bool) (bin : list Z) : list Z :=
  if guid then rev (sub bin 0 4) ++ rev (sub bin 4 2) ++ rev (sub bin 6 2) ++ drop 8 bin else bin.

Lemma bin_to_str_text bin f : length bin = 16%nat ->
  let xs := swap_guid (flag f UUID_STR_FORMAT_GUID) bin in
  uuid_bin_to_str bin f = text f (sub xs 0 4) (sub xs 4 2) (sub xs 6 2) (sub xs 8 2) (sub xs 10 6).
Proof.
  intros L. do 16 (destruct bin as [|? bin]; [discriminate|]). destruct bin; [|discriminate].
  unfold uuid_bin_to_str, swap_guid, text, field. destruct (flag f UUID_STR_FORMAT_GUID);
    unfold sub; simpl; unfold byteat; simpl; by rewrite ?app_nil_r, <- ?app_assoc.
Qed.

(** The five fields fill the sixteen bytes. *)
Lemma write_fields buf a b c d e : length buf = 16%nat ->
  length a = 4%nat -> length b = 2%nat -> length c = 2%nat -> length d = 2%nat -> length e = 6%nat ->
  write_at (write_at (write_at (write_at (write_at buf 0 a) 4 b) 6 c) 8 d) 10 e = a ++ b ++ c ++ d ++ e.
Proof.
  intros L La Lb Lc Ld Le.
  do 16 (destruct buf as [|? buf]; [discriminate|]). destruct buf; [|discriminate].
  do 4 (destruct a as [|? a]; [discriminate|]). destruct a; [|discriminate].
  do 2 (destruct b as [|? b]; [discriminate|]). destruct b; [|discriminate].
  do 2 (destruct c as [|? c]; [discriminate|]). destruct c; [|discriminate].
  do 2 (destruct d as [|? d]; [discriminate|]). destruct d; [|discriminate].
  do 6 (destruct e as [|? e]; [discriminate|]). destruct e; [|discriminate].
  reflexivity.
Qed.

(** A GUID that was found does not depend on what the buffer held. *)
Definition table_ok (table : option guid_table) : Prop :=
  Forall (fun sg => length sg.2 = 16%nat /\ Forall is_u8 sg.2) (default [] table).

Lemma get_bin_found t s buf bin : table_ok (Some t) -> length buf = 16%nat ->
  uuid_guid_get_bin t s buf = (0, bin) ->
  length bin = 16%nat /\ Forall is_u8 bin /\
  forall buf', length buf' = 16%nat -> uuid_guid_get_bin t s buf' = (0, bin).
Proof.
  unfold table_ok. cbn [from_option id]. intros T L. induction T as [|[n g] t [Lg Ug] Ht IH]; cbn [uuid_guid_get_bin].
  - intros [= E]. 
  - case_bool_decide; [|exact IH]. cbn [snd] in *. intros [= <-].
    assert (W : forall b : list Z, length b = 16%nat -> write_at b 0 (take 16 g) = g).
    { intros b Lb. rewrite take_ge by lia. apply list_eq. intros j. rewrite write_at_lookup by lia.
      case_decide; [f_equal; lia|]. rewrite !lookup_ge_None_2 by lia. done. }
    rewrite W by done. split_and!; try done. intros buf' L'. by rewrite W.
Qed.

Lemma str_to_bin_found table s buf f bin : table_ok table -> length buf = 16%nat ->
  uuid_str_to_bin table s buf f = (0, bin) ->
  length bin = 16%nat /\ Forall is_u8 bin /\
  forall buf', length buf' = 16%nat -> uuid_str_to_bin table s buf' f = (0, bin).
Proof.
  intros T L. unfold uuid_str_to_bin. destruct (negb (uuid_str_valid (Some s))).
  - destruct table as [t|]; [|discriminate]. destruct (uuid_guid_get_bin t s buf) as [ret b] eqn:E.
    destruct (ret =? 0) eqn:R; [intros [= <-]|discriminate]. apply Z.eqb_eq in R. subst.
    destruct (get_bin_found t s buf b T L E) as (Lb & Ub & A). split_and!; try done.
    intros buf' L'. by rewrite A.
  - cbv zeta.
    assert (Bl : forall n x, length (be_bytes n x) = n) by (intros; unfold be_bytes; by rewrite length_rev, length_le_bytes).
    assert (Ol : forall n x, length (if f =? UUID_STR_FORMAT_STD then be_bytes n x else le_bytes n x) = n)
      by (intros; destruct (_ =? _); [apply Bl|apply length_le_bytes]).
    assert (Bu : forall n x, Forall is_u8 (be_bytes n x)) by (intros; unfold be_bytes; apply Forall_rev, le_bytes_u8).
    assert (Ou : forall n x, Forall is_u8 (if f =? UUID_STR_FORMAT_STD then be_bytes n x else le_bytes n x))
      by (intros; destruct (_ =? _); [apply Bu|apply le_bytes_u8]).
    assert (Sl : forall x, length (sub (be_bytes 8 x) 2 6) = 6%nat).
    { intros x. apply Nat2Z.inj. rewrite length_sub; rewrite ?Bl; lia. }
    rewrite write_fields by (done || apply Ol || apply Bl || apply Sl). intros E. apply (f_equal snd) in E. cbn [snd] in E.
    subst bin. split_and!.
    + by rewrite !length_app, !Ol, !Bl, Sl.
    + rewrite !Forall_app. split_and!; try apply Ou; [apply Bu|apply Forall_sub, Bu].
    + intros buf' L'. rewrite write_fields by (done || apply Ol || apply Bl || apply Sl). done.
Qed.

(** What parsing a text stores. *)
Lemma str_to_bin_text table f buf g a b c d e :
  Forall is_u8 a -> Forall is_u8 b -> Forall is_u8 c -> Forall is_u8 d -> Forall is_u8 e ->
  length a = 4%nat -> length b = 2%nat -> length c = 2%nat -> length d = 2%nat -> length e = 6%nat ->
  length buf = 16%nat ->
  uuid_str_to_bin table (text f a b c d e) buf g =
  (0, if g =? UUID_STR_FORMAT_STD then a ++ b ++ c ++ d ++ e else rev a ++ rev b ++ rev c ++ d ++ e).
Proof.
  intros Ha Hb Hc Hd He La Lb Lc Ld Le L. unfold uuid_str_to_bin.
  rewrite text_valid by done. cbn [negb].
  destruct (text_fields f a b c d e) as (-> & -> & -> & -> & ->); try done. cbn [fst].
  pose proof (be_val_range a Ha) as Ra. pose proof (be_val_range b Hb) as Rb.
  pose proof (be_val_range c Hc) as Rc. pose proof (be_val_range d Hd) as Rd.
  rewrite La in Ra. rewrite Lb in Rb. rewrite Lc in Rc. rewrite Ld in Rd.
  rewrite (u32_small (be_val a)), !u16_small by assumption.
  rewrite !be_bytes_val, !le_bytes_be_val, be_bytes_low by done. f_equal.
  destruct (g =? UUID_STR_FORMAT_STD); apply write_fields; by rewrite ?length_rev.
Qed.

Lemma uuid_print_parse table bin buf f :
  Forall is_u8 bin -> length bin = 16%nat -> length buf = 16%nat ->
  uuid_str_to_bin table (uuid_bin_to_str bin f) buf (Z.land f UUID_STR_FORMAT_GUID) = (0, bin).
Proof.
  intros Hb L Lb. rewrite bin_to_str_text by done. cbv zeta.
  set (xs := swap_guid (flag f UUID_STR_FORMAT_GUID) bin).
  assert (X : Forall is_u8 xs /\ length xs = 16%nat).
  { subst xs. unfold swap_guid. destruct (flag f UUID_STR_FORMAT_GUID); [|done].
    rewrite !Forall_app, !length_app, !length_rev, length_drop, L. unfold sub.
    rewrite !length_take, !length_drop, L.
    split; [|done]. repeat split; try apply Forall_rev; try apply Forall_take; by apply Forall_drop. }
  destruct X as [HX LX].
  rewrite str_to_bin_text by (try apply Forall_sub; try done;
    unfold sub; rewrite length_take, length_drop, LX; done).
  f_equal. subst xs. unfold flag, swap_guid, UUID_STR_FORMAT_STD in *. clear HX LX.
  do 16 (destruct bin as [|? bin]; [discriminate|]). destruct bin; [|discriminate].
  destruct (Z.land f UUID_STR_FORMAT_GUID =? 0); reflexivity.
Qed.

(** ** Letter case does not matter *)
Lemma tolower_byte c : is_u8 c ->
  decode_digit (Ctype.tolower c) = decode_digit c /\ Ctype.tolower (Ctype.tolower c) = Ctype.tolower c /\
  Ctype.isxdigit (Ctype.tolower c) = Ctype.isxdigit c /\
  (Ctype.tolower c =? 48) = (c =? 48) /\ (Ctype.tolower c =? 45) = (c =? 45) /\
  (Ctype.isxdigit c = true -> decode_digit c < 16 /\ Ctype.tolower c = digit_char 32 (decode_digit c)).
Proof.
  intros Hc.
  pose (P := fun c => (decode_digit (Ctype.tolower c) =? decode_digit c) &&
    (Ctype.tolower (Ctype.tolower c) =? Ctype.tolower c) &&
    Bool.eqb (Ctype.isxdigit (Ctype.tolower c)) (Ctype.isxdigit c) &&
    Bool.eqb (Ctype.tolower c =? 48) (c =? 48) && Bool.eqb (Ctype.tolower c =? 45) (c =? 45) &&
    (negb (Ctype.isxdigit c) ||
     (decode_digit c <? 16) && (Ctype.tolower c =? digit_char 32 (decode_digit c)))).
  assert (H : P c = true).
  { apply (bytes_forall P); [vm_compute; reflexivity|done]. }
  unfold P in H. rewrite !andb_true_iff, !Z.eqb_eq, !eqb_true_iff in H.
  destruct H as (((((H1 & H2) & H3) & H4) & H5) & H6). split_and!; try done.
  intros X. rewrite X in H6. simpl in H6. lia.
Qed.

Lemma digits_loop_lower base r s : Forall is_u8 s ->
  (digits_loop base r (Ctype.tolower <$> s)).1 = (digits_loop base r s).1.
Proof.
  intros H. revert r. induction H as [|c s Hc Hs IH]; intros r; [done|]. cbn [fmap list_fmap digits_loop].
  rewrite (proj1 (tolower_byte c Hc)). destruct (decode_digit c <? base); [apply IH|done].
Qed.

Lemma strtoul_lower s base : Forall is_u8 s ->
  (simple_strtoul (Ctype.tolower <$> s) base).1 = (simple_strtoul s base).1.
Proof.
  intros H. unfold simple_strtoul, _parse_integer_fixup_radix.
  assert (A : (at_hd (Ctype.tolower <$> s) =? 48) = (at_hd s =? 48)).
  { destruct H as [|c s Hc Hs]; [done|]. apply (tolower_byte c Hc). }
  assert (B : Ctype.tolower (at_hd (tl (Ctype.tolower <$> s))) = Ctype.tolower (at_hd (tl s))).
  { destruct H as [|c s Hc [|d r Hd Hr]]; [done..|]. apply (tolower_byte d Hd). }
  rewrite A, B. destruct (at_hd s =? 48); [|by apply digits_loop_lower].
  destruct (_ =? 120); [|destruct (base =? 0); by apply digits_loop_lower].
  change (list_fmap Z Z Ctype.tolower s) with (Ctype.tolower <$> s). rewrite <- fmap_drop.
  by apply digits_loop_lower, Forall_drop.
Qed.

Lemma valid_loop_lower s i : Forall is_u8 s -> valid_loop (Ctype.tolower <$> s) i = valid_loop s i.
Proof.
  intros H. revert i. induction H as [|c s Hc Hs IH]; intros i; [done|]. cbn [fmap list_fmap valid_loop].
  destruct (tolower_byte c Hc) as (_ & _ & -> & _ & -> & _). by rewrite IH.
Qed.

Lemma str_to_bin_lower table (s : str) buf g : Forall is_u8 s -> uuid_str_valid (Some s) = true ->
  uuid_str_to_bin table (Ctype.tolower <$> s) buf g = uuid_str_to_bin table s buf g.
Proof.
  intros H V. unfold uuid_str_to_bin.
  assert (V' : uuid_str_valid (@Some str (Ctype.tolower <$> s)) = true).
  { unfold uuid_str_valid in *. by rewrite valid_loop_lower. }
  assert (X : forall i, hex_at (Ctype.tolower <$> s) i = hex_at s i).
  { intros i. unfold hex_at, hextoul. rewrite <- fmap_drop. by apply strtoul_lower, Forall_drop. }
  rewrite V, V', !X. cbn [negb]. change hextoull with hextoul. unfold hextoul.
  rewrite <- fmap_drop, strtoul_lower by (by apply Forall_drop). done.
Qed.

(** Digits two by two are the text of bytes. *)
Lemma xdigit_field cs n : length cs = (2 * n)%nat -> Forall is_u8 cs ->
  Forall (fun c => Ctype.isxdigit c = true) cs ->
  exists bs, Forall is_u8 bs /\ length bs = n /\ (Ctype.tolower <$> cs) = field 0 bs.
Proof.
  revert cs. induction n as [|n IH]; intros cs L U X.
  - destruct cs; [|discriminate]. by exists [].
  - destruct cs as [|c [|d cs]]; [simpl in L; lia..|].
    apply Forall_cons in U as [Uc [Ud U]%Forall_cons]. apply Forall_cons in X as [Xc [Xd X]%Forall_cons].
    destruct (IH cs) as (bs & B1 & B2 & B3); [simpl in L; lia|done..|].
    destruct (tolower_byte c Uc) as (_ & _ & _ & _ & _ & Tc). destruct (Tc Xc) as [Rc Ec].
    destruct (tolower_byte d Ud) as (_ & _ & _ & _ & _ & Td). destruct (Td Xd) as [Rd Ed].
    pose proof (decode_digit_nonneg c Uc). pose proof (decode_digit_nonneg d Ud).
    set (b := 16 * decode_digit c + decode_digit d).
    assert (Hb : is_u8 b) by (unfold is_u8, b; lia).
    exists (b :: bs). split; [by constructor|]. split; [simpl; lia|].
    unfold field in *. cbn [flat_map fmap list_fmap]. rewrite hex2_chars by done.
    change (hex_case 0) with 32. replace (b / 16) with (decode_digit c) by (subst b; mlia).
    replace (b mod 16) with (decode_digit d) by (subst b; mlia).
    rewrite Ec, Ed. simpl. do 2 f_equal. exact B3.
Qed.

(** What a valid string looks like. *)
Lemma valid_loop_true s i j : valid_loop s i = (j, true) ->
  j = i + Z.of_nat (length s) /\
  forall k c, s !! k = Some c -> if is_dash (i + Z.of_nat k) then c = 45 else Ctype.isxdigit c = true.
Proof.
  revert i. induction s as [|x s IH]; intros i; cbn [valid_loop].
  - intros [= <-]. split; [simpl; lia|]. intros k c Hk. by destruct k.
  - destruct (if is_dash i then x =? 45 else Ctype.isxdigit x) eqn:E; [|discriminate].
    intros H. destruct (IH _ H) as [-> A]. split; [simpl; lia|]. intros [|k] c Hk.
    + injection Hk as <-. rewrite Z.add_0_r. destruct (is_dash i); [lia|done].
    + specialize (A k c Hk). replace (i + Z.of_nat (S k)) with (i + 1 + Z.of_nat k) by lia. exact A.
Qed.

Lemma sub_xdigits s i n : Forall is_u8 s -> length s = 36%nat ->
  (forall k c, s !! k = Some c -> if is_dash (Z.of_nat k) then c = 45 else Ctype.isxdigit c = true) ->
  0 <= i -> 0 <= n -> i + 2 * n <= 36 ->
  (forall j, i <= j < i + 2 * n -> is_dash j = false) ->
  exists bs, Forall is_u8 bs /\ length bs = Z.to_nat n /\ (Ctype.tolower <$> sub s i (2 * n)) = field 0 bs.
Proof.
  intros U L A Hi Hn Hr D. apply xdigit_field; [|by apply Forall_sub|].
  - apply Nat2Z.inj. rewrite length_sub by lia. lia.
  - apply Forall_lookup. intros k c Hk. rewrite sub_lookup in Hk by lia.
    case_decide; [|discriminate]. specialize (A _ _ Hk). rewrite D in A by lia. done.
Qed.

Lemma valid_text s : Forall is_u8 s -> uuid_str_valid (Some s) = true ->
  exists a b c d e, (Ctype.tolower <$> s) = text 0 a b c d e /\
    Forall is_u8 a /\ Forall is_u8 b /\ Forall is_u8 c /\ Forall is_u8 d /\ Forall is_u8 e /\
    length a = 4%nat /\ length b = 2%nat /\ length c = 2%nat /\ length d = 2%nat /\ length e = 6%nat.
Proof.
  intros U V. unfold uuid_str_valid in V. destruct (valid_loop s 0) as [i v] eqn:E.
  rewrite negb_orb, !negb_involutive, andb_true_iff, Z.eqb_eq in V. destruct V as [-> ->].
  apply valid_loop_true in E as [L A]. unfold UUID_STR_LEN in L. simpl in A.
  assert (L' : length s = 36%nat) by lia. clear L.
  destruct (sub_xdigits s 0 4 U L' A) as (a & Ua & La & Ea); [lia..|no_dash|].
  destruct (sub_xdigits s 9 2 U L' A) as (b & Ub & Lb & Eb); [lia..|no_dash|].
  destruct (sub_xdigits s 14 2 U L' A) as (c & Uc & Lc & Ec); [lia..|no_dash|].
  destruct (sub_xdigits s 19 2 U L' A) as (d & Ud & Ld & Ed); [lia..|no_dash|].
  destruct (sub_xdigits s 24 6 U L' A) as (e & Ue & Le & Ee); [lia..|no_dash|].
  exists a, b, c, d, e. split_and!; try done. unfold text. rewrite <- Ea, <- Eb, <- Ec, <- Ed, <- Ee.
  do 36 (destruct s as [|? s]; [discriminate|]). destruct s; [|discriminate].
  pose proof (A 8%nat _ eq_refl) as A8. pose proof (A 13%nat _ eq_refl) as A13.
  pose proof (A 18%nat _ eq_refl) as A18. pose proof (A 23%nat _ eq_refl) as A23.
  vm_compute in A8, A13, A18, A23. subst. reflexivity.
Qed.

Lemma uuid_parse_print table s buf f :
  Forall is_u8 s -> uuid_str_valid (Some s) = true -> length buf = 16%nat ->
  f = UUID_STR_FORMAT_STD \/ f = UUID_STR_FORMAT_GUID ->
  let '(ret, bin) := uuid_str_to_bin table s buf f in
  ret = 0 /\ uuid_bin_to_str bin f = (Ctype.tolower <$> s).
Proof.
  intros U V L Hf. destruct (valid_text s U V) as (a & b & c & d & e & T & Ha & Hb & Hc & Hd & He & La & Lb & Lc & Ld & Le).
  rewrite <- str_to_bin_lower by done. rewrite T, str_to_bin_text by done. split; [done|].
  do 4 (destruct a as [|? a]; [discriminate|]). destruct a; [|discriminate].
  do 2 (destruct b as [|? b]; [discriminate|]). destruct b; [|discriminate].
  do 2 (destruct c as [|? c]; [discriminate|]). destruct c; [|discriminate].
  do 2 (destruct d as [|? d]; [discriminate|]). destruct d; [|discriminate].
  do 6 (destruct e as [|? e]; [discriminate|]). destruct e; [|discriminate].
  rewrite bin_to_str_text by (by destruct Hf as [-> | ->]).
  destruct Hf as [-> | ->]; reflexivity.
Qed.

(** ** The version and variant of generated UUIDs *)
Lemma version_bits x v : is_u16 x -> 0 <= v < 16 ->
  Z.lor (Z.ldiff x UUID_VERSION_MASK) (Z.shiftl v UUID_VERSION_SHIFT) = v * 4096 + x mod 4096.
Proof.
  intros Hx Hv. change (Z.lor _ _) with
    (Z.lor (Z.ldiff x (Z.shiftl (Z.ones 4) 12)) (Z.shiftl v 12)).
  assert (E : Z.ldiff x (Z.shiftl (Z.ones 4) 12) = x mod 2 ^ 12).
  { apply Z.bits_inj'. intros n Hn. rewrite Z.ldiff_spec, Z.shiftl_spec by lia.
    destruct (Z_lt_le_dec n 12).
    - rewrite Z.mod_pow2_bits_low, (Z.testbit_neg_r _ (n - 12)), andb_true_r by lia. done.
    - rewrite Z.mod_pow2_bits_high by lia. destruct (Z_lt_le_dec n 16).
      + rewrite Z.ones_spec_low by lia. apply andb_false_r.
      + rewrite <- (Z.mod_small x (2 ^ 16)) by (unfold is_u16 in Hx; lia).
        by rewrite Z.mod_pow2_bits_high by lia. }
  rewrite E. clear E. change (2 ^ 12) with 4096. rewrite Z.lor_comm, <- Z.add_lor_land.
  rewrite Z.shiftl_mul_pow2 by lia. change (2 ^ 12) with 4096.
  replace (Z.land (v * 4096) (x mod 4096)) with 0; [lia|]. symmetry.
  apply Z.bits_inj'. intros n Hn. rewrite Z.land_spec, Z.bits_0. change 4096 with (2 ^ 12).
  destruct (Z_lt_le_dec n 12).
  - by rewrite Z.mul_pow2_bits_low by lia.
  - by rewrite Z.mod_pow2_bits_high, andb_false_r by lia.
Qed.

Lemma configure_uuid_bytes uuid version :
  Forall is_u8 uuid -> length uuid = 16%nat -> 0 <= version < 16 ->
  configure_uuid uuid version =
  write_at (write_at uuid 6 [version * 16 + byteat uuid 6 mod 16]) 8 [128 + byteat uuid 8 mod 64].
Proof.
  intros U L Hv. do 16 (destruct uuid as [|? uuid]; [discriminate|]). destruct uuid; [|discriminate].
  clear L. do 16 (apply Forall_cons in U as [? U]). unfold configure_uuid.
  match goal with |- context [be_val (sub ?l 6 2)] =>
    change (be_val (sub l 6 2)) with (z6 + 256 * (z5 + 256 * 0)) end.
  unfold is_u8 in *. rewrite version_bits by (unfold is_u16; lia || done).
  rewrite (u16_small (version * 4096 + _)) by mlia.
  assert (B : be_bytes 2 (version * 4096 + (z6 + 256 * (z5 + 256 * 0)) mod 4096) =
    [version * 16 + z5 mod 16; z6]).
  { unfold be_bytes. cbn [le_bytes rev app]. repeat apply (f_equal2 cons); [..|done]; mlia. }
  rewrite B. cbv zeta.
  match goal with |- context [byteat (write_at ?l 6 [?x; ?y]) 8] =>
    change (byteat (write_at l 6 [x; y]) 8) with z7; change (byteat l 6) with z5;
    change (byteat l 8) with z7 end.
  replace (u8 (Z.lor (Z.ldiff z7 UUID_VARIANT_MASK) (Z.shiftl UUID_VARIANT UUID_VARIANT_SHIFT)))
    with (128 + z7 mod 64); [reflexivity|].
  symmetry. apply Z.eqb_eq. apply (bytes_forall (fun z7 => u8 (Z.lor (Z.ldiff z7 UUID_VARIANT_MASK)
    (Z.shiftl UUID_VARIANT UUID_VARIANT_SHIFT)) =? 128 + z7 mod 64)); [vm_compute; reflexivity|done].
Qed.

(** A random UUID has sixteen bytes, version four and the variant of RFC 4122. *)
Lemma gen_rand_uuid_version rng ticks y : 
  let u := (gen_rand_uuid rng ticks y).1 in
  length u = 16%nat /\ Forall is_u8 u /\ byteat u 6 / 16 = 4 /\ byteat u 8 / 64 = 2.
Proof.
  intros u. subst u. unfold gen_rand_uuid.
  set (s := if negb (u32 (default 0 rng) =? 0) then _ else _). cbn [rands].
  set (bytes := flat_map (le_bytes 4) _). cbn [fst].
  assert (L : length bytes = 16%nat) by reflexivity.
  assert (U : Forall is_u8 bytes) by (subst bytes; cbn [flat_map];
    rewrite !Forall_app; repeat split; try apply le_bytes_u8; constructor).
  rewrite configure_uuid_bytes by done.
  pose proof (byteat_u8 bytes 6 U) as B6. pose proof (byteat_u8 bytes 8 U) as B8.
  rewrite !length_write_at, !byteat_write_at by (rewrite ?length_write_at, ?L; simpl; lia).
  rewrite decide_False, !decide_True by (simpl; lia).
  split_and!; [done| | |].
  - unfold is_u8 in *. repeat apply Forall_write_at; [done|..]; rewrite Forall_singleton;
      unfold UUID_VERSION; mlia.
  - unfold byteat at 1. change (Z.to_nat (6 - 6)) with O. cbn [nth]. unfold UUID_VERSION. mlia.
  - unfold byteat at 1. change (Z.to_nat (8 - 8)) with O. cbn [nth]. mlia.
Qed.

(** A timer value that cancels the generator's next number leaves it at zero for
    good: every later UUID made without the timer is the same. *)
Lemma gen_rand_uuid_stuck ticks y : u32 (ticks + rand_r y) = 0 ->
  gen_rand_uuid None ticks y = (configure_uuid (replicate 16 0) UUID_VERSION, 0).
Proof. intros E. unfold gen_rand_uuid. simpl. rewrite E. reflexivity. Qed.

(** A binary UUID or GUID printed in either letter case is a valid string
    that parses back to the same sixteen bytes; and a valid string in any
    letter case, once parsed, is printed as itself in lower case. *)
Theorem uuid_roundtrip table bin s buf f g :
  Forall is_u8 bin -> length bin = 16%nat -> length buf = 16%nat ->
  Forall is_u8 s -> uuid_str_valid (Some s) = true ->
  g = UUID_STR_FORMAT_STD \/ g = UUID_STR_FORMAT_GUID ->
  uuid_str_to_bin table (uuid_bin_to_str bin f) buf (Z.land f UUID_STR_FORMAT_GUID) = (0, bin) /\
  (uuid_str_to_bin table s buf g).1 = 0 /\
  uuid_bin_to_str (uuid_str_to_bin table s buf g).2 g = (Ctype.tolower <$> s).
Proof.
  intros Hb Lb Lbuf Hs Hv Hg. split; [by apply uuid_print_parse|].
  pose proof (uuid_parse_print table s buf g Hs Hv Lbuf Hg) as P.
  by destruct (uuid_str_to_bin table s buf g).
Qed.

Definition sample_bin : list Z := [1; 35; 69; 103; 137; 171; 205; 239; 0; 255; 16; 32; 48; 64; 80; 96].
Lemma uuid_roundtrip_witness :
  uuid_str_to_bin None (uuid_bin_to_str sample_bin 3) (replicate 16 0) 1 = (0, sample_bin).
Proof.
  apply (uuid_roundtrip None sample_bin (uuid_bin_to_str sample_bin 2) (replicate 16 0) 3 0);
    [by apply all_u8|done|done|apply all_u8; vm_compute; reflexivity|vm_compute; reflexivity|by left].
Defined.

End Uuid.
