(* ===== verification/Vsprintf.v ===== *)
(** * Formatted output (lib/vsprintf.c)

    The format loop over a list of arguments.  An argument is an integer, a
    string, a UTF-16 string or a pointer with the bytes it points to; what a
    format that asks for another kind of argument than the one at hand does is
    [Undefined], which is not [OutOfFuel], a loop that goes on for too long.
    The text of device paths and of error numbers comes from other files and is
    a parameter.  Buffers do not reach the end of the address space,
    and texts are short enough for [int] to count them. *)

From S2P Require Import Prelude Bytes.
From S2P Require Import Hashtable Strto Charset Printf Uuid.

Module Vsprintf.
Import Hashtable Ctype Strto Charset Printf Uuid.

Record config := mk_cfg {
  c_ipv6 : bool;                                    (* CONFIG_IPV6 *)
  c_efi : bool;                                     (* EFI_LOADER or EFI_APP *)
  c_dp : option (list Z -> option (list Z));        (* efi_dp_str, EFI_DEVICE_PATH_TO_TEXT *)
  c_uuid : option guid_table;                       (* CONFIG_LIB_UUID *)
  c_errno : option (Z -> str)                       (* errno_str, CONFIG_ERRNO_STR *)
}.

Inductive arg :=
| Int (n : Z)
| Str (s : option str)
| Wstr (s : option (list Z))
| Ptr (addr : Z) (mem : list Z).

Definition INT_MAX : Z := 2147483647.

(** What becomes of a call. *)
Inductive run (A : Type) :=
| Result (a : A)
| Undefined
| OutOfFuel.
Arguments Result {A}.
Arguments Undefined {A}.
Arguments OutOfFuel {A}.

#[global] Instance run_bind : MBind run := fun A B f r =>
  match r with
  | Result a => f a
  | Undefined => Undefined
  | OutOfFuel => OutOfFuel
  end.

Definition returned {A} (r : run A) : option A := match r with Result a => Some a | _ => None end.

(** ** Pointers *)
Definition uuid_string (table : guid_table) (addr : Z) (mem : list Z)
    (field_width precision flags : Z) (fmt : str) : list Z :=
  let c := at_hd (tl fmt) in
  let known := if c =? 115 then uuid_guid_get_str table mem else None in
  match known with
  | Some s => string (Some s) field_width precision flags
  | None =>
    let str_format :=
      if c =? 76 then Z.lor UUID_STR_FORMAT_GUID UUID_STR_UPPER_CASE
      else if c =? 108 then UUID_STR_FORMAT_GUID
      else if c =? 66 then Z.lor UUID_STR_FORMAT_STD UUID_STR_UPPER_CASE
      else if c =? 115 then UUID_STR_FORMAT_GUID
      else UUID_STR_FORMAT_STD in
    let uuid := if negb (addr =? 0) then uuid_bin_to_str mem str_format else NULL_TEXT in
    string (Some uuid) field_width precision flags
  end.

(** The pointer as a number. *)
Definition pointer_number (num field_width precision flags : Z) : list Z :=
  let flags := Z.lor flags SMALL in
  let '(field_width, flags) :=
    if field_width =? -1 then (2 * 8, Z.lor flags ZEROPAD) else (field_width, flags) in
  number num 16 field_width precision flags.

Definition device_path_string (dp_str : list Z -> option (list Z)) (e : Z) (o : out)
    (addr : Z) (mem : list Z) (field_width precision flags : Z) : out + Z :=
  if addr =? 0 then inl (string16 e o None field_width precision flags)
  else
    match dp_str mem with
    | None => inr (- ENOMEM)
    | Some s => inl (string16 e o (Some s) field_width precision flags)
    end.

(** [inr] is an error number in the place of a pointer. *)
Definition pointer (cfg : config) (fmt : str) (e : Z) (o : out) (addr : Z) (mem : list Z)
    (field_width precision flags : Z) : out + Z :=
  let c := at_hd fmt in
  let emit (l : list Z) := inl (addchs e o l) in
  match (if c =? 68 then c_dp cfg else None), (if c =? 85 then c_uuid cfg else None) with
  | Some dp_str, _ => device_path_string dp_str e o addr mem field_width precision flags
  | None, Some table => emit (uuid_string table addr mem field_width precision flags fmt)
  | None, None =>
    if c =? 97 then
      emit (pointer_number (get_le 8 mem 0) (8 * 2 + 2) precision (Z.lor flags (Z.lor SPECIAL ZEROPAD)))
    else if (c =? 109) || (c =? 77) then
      emit (mac_address_string mem field_width precision
              (if c =? 109 then Z.lor flags SPECIAL else flags))
    else if (c =? 105) || (c =? 73) then
      let flags := if c =? 105 then Z.lor flags SPECIAL else flags in
      if c_ipv6 cfg && (at_hd (tl fmt) =? 54) then
        emit (ip6_addr_string mem field_width precision flags)
      else if at_hd (tl fmt) =? 52 then
        emit (ip4_addr_string mem field_width precision flags)
      else emit (pointer_number addr field_width precision (Z.ldiff flags SPECIAL))
    else emit (pointer_number addr field_width precision flags)
  end.

(** ** The parts of a conversion *)
Definition is_digit (c : Z) : bool := (48 <=? c) && (c <=? 57).

Fixpoint skip_atoi (i : Z) (s : str) : Z * str :=
  match s with
  | c :: r => if is_digit c then skip_atoi (i * 10 + c - 48) r else (i, s)
  | [] => (i, [])
  end.

Fixpoint parse_flags (flags : Z) (fmt : str) : Z * str :=
  match fmt with
  | c :: r =>
    if c =? 45 then parse_flags (Z.lor flags LEFT) r
    else if c =? 43 then parse_flags (Z.lor flags PLUS) r
    else if c =? 32 then parse_flags (Z.lor flags SPACE) r
    else if c =? 35 then parse_flags (Z.lor flags SPECIAL) r
    else if c =? 48 then parse_flags (Z.lor flags ZEROPAD) r
    else (flags, fmt)
  | [] => (flags, [])
  end.

(** The next argument, an [int]. *)
Definition int_next (args : list arg) : option (Z * list arg) :=
  match args with Int n :: r => Some (s32 n, r) | _ => None end.

Definition parse_width (flags : Z) (fmt : str) (args : list arg)
    : option (Z * Z * str * list arg) :=
  if is_digit (at_hd fmt) then
    let '(w, fmt) := skip_atoi 0 fmt in Some (w, flags, fmt, args)
  else if at_hd fmt =? 42 then
    '(w, args) ← int_next args;
    if w <? 0 then Some (- w, Z.lor flags LEFT, tl fmt, args) else Some (w, flags, tl fmt, args)
  else Some (-1, flags, fmt, args).

Definition parse_precision (fmt : str) (args : list arg) : option (Z * str * list arg) :=
  if at_hd fmt =? 46 then
    let fmt := tl fmt in
    '(p, fmt, args) ←
      (if is_digit (at_hd fmt) then
         let '(p, fmt) := skip_atoi 0 fmt in Some (p, fmt, args)
       else if at_hd fmt =? 42 then
         '(p, args) ← int_next args; Some (p, tl fmt, args)
       else Some (-1, fmt, args));
    Some (if p <? 0 then 0 else p, fmt, args)
  else Some (-1, fmt, args).

Definition parse_qualifier (fmt : str) : Z * str :=
  let c := at_hd fmt in
  if (c =? 104) || (c =? 108) || (c =? 76) || (c =? 90) || (c =? 122) || (c =? 116) then
    let fmt := tl fmt in
    if (c =? 108) && (at_hd fmt =? 108) then (76, tl fmt) else (c, fmt)
  else (-1, fmt).

(** The integer argument at the width of the qualifier, as a 64-bit number. *)
Definition s16 (x : Z) : Z := let y := u16 x in if y <? 32768 then y else y - 65536.
Definition int_arg (qualifier flags : Z) (args : list arg) : option (Z * list arg) :=
  match args with
  | Int n :: r =>
    let num :=
      if (qualifier =? 76) || (qualifier =? 108) || (qualifier =? 90) || (qualifier =? 122) ||
         (qualifier =? 116) then u64 n
      else if qualifier =? 104 then if flag flags SIGN then u64 (s16 n) else u16 n
      else if flag flags SIGN then u64 (s32 n) else u32 n in
    Some (num, r)
  | _ => None
  end.

Fixpoint skip_alnum (fmt : str) : str :=
  match fmt with c :: r => if isalnum c then skip_alnum r else fmt | [] => [] end.

(** A conversion's result: the output, the rest of the format and of the
    arguments, and what %n has stored; or what is left when an error number is
    returned: the number, the buffer and the stores. *)
Definition result : Type := Z * list Z * list Z.
Record conv := mk_conv { k_out : out; k_fmt : str; k_args : list arg; k_stores : list Z }.

(** An integer conversion, whose letter sets the base and flags. *)
Definition convert_int (cfg : config) (e : Z) (o : out) (base flags field_width precision qualifier : Z)
    (fmt : str) (args : list arg) (stores : list Z) : option (conv + result) :=
  '(num, args) ← int_arg qualifier flags args;
  let o := addchs e o (number num base field_width precision flags) in
  let o := match (if flag flags ERRSTR then c_errno cfg else None) with
           | Some errno_str => addchs e o ([58; 32] ++ errno_str num)
           | None => o
           end in
  Some (inl (mk_conv o fmt args stores)).

Definition convert (cfg : config) (e : Z) (o : out) (flags field_width precision qualifier : Z)
    (fmt : str) (args : list arg) (stores : list Z) : option (conv + result) :=
  let c := at_hd fmt in
  let fmt := tl fmt in
  if c =? 99 then                                                  (* c *)
    '(n, args) ← int_next args;
    let fill := pad (field_width - 1) 32 in
    let text := if flag flags LEFT then u8 n :: fill else fill ++ [u8 n] in
    Some (inl (mk_conv (addchs e o text) fmt args stores))
  else if c =? 115 then                                            (* s *)
    if c_efi cfg && (qualifier =? 108) then
      match args with
      | Wstr s :: args => Some (inl (mk_conv (string16 e o s field_width precision flags) fmt args stores))
      | _ => None
      end
    else
      match args with
      | Str s :: args => Some (inl (mk_conv (addchs e o (string s field_width precision flags)) fmt args stores))
      | _ => None
      end
  else if c =? 112 then                                            (* p *)
    match args with
    | Ptr addr mem :: args =>
      match pointer cfg fmt e o addr mem field_width precision flags with
      | inl o => Some (inl (mk_conv o (skip_alnum fmt) args stores))
      | inr err => Some (inr (err, o_buf o, stores))
      end
    | _ => None
    end
  else if c =? 110 then                                            (* n *)
    match args with
    | Ptr _ _ :: args =>
      let n := if qualifier =? 108 then s64 (o_pos o) else s32 (o_pos o) in
      Some (inl (mk_conv o fmt args (stores ++ [n])))
    | _ => None
    end
  else if c =? 37 then Some (inl (mk_conv (ADDCH e o 37) fmt args stores))
  else if c =? 111 then                                            (* o *)
    convert_int cfg e o 8 flags field_width precision qualifier fmt args stores
  else if c =? 120 then                                            (* x *)
    convert_int cfg e o 16 (Z.lor flags SMALL) field_width precision qualifier fmt args stores
  else if c =? 88 then                                             (* X *)
    convert_int cfg e o 16 flags field_width precision qualifier fmt args stores
  else if c =? 100 then                                            (* d *)
    let '(flags, fmt) :=
      if at_hd fmt =? 69 then (Z.lor flags ERRSTR, tl fmt) else (flags, fmt) in
    convert_int cfg e o 10 (Z.lor flags SIGN) field_width precision qualifier fmt args stores
  else if c =? 105 then                                            (* i *)
    convert_int cfg e o 10 (Z.lor flags SIGN) field_width precision qualifier fmt args stores
  else if c =? 117 then                                            (* u *)
    convert_int cfg e o 10 flags field_width precision qualifier fmt args stores
  else
    let o := ADDCH e o 37 in
    Some (inl (mk_conv (if negb (c =? 0) then ADDCH e o c else o) fmt args stores)).

(** One round of the loop; the format is not empty. *)
Definition format_step (cfg : config) (e : Z) (k : conv) : option (conv + result) :=
  let c := at_hd (k_fmt k) in
  let fmt := tl (k_fmt k) in
  if negb (c =? 37) then Some (inl (mk_conv (ADDCH e (k_out k) c) fmt (k_args k) (k_stores k)))
  else
    let '(flags, fmt) := parse_flags 0 fmt in
    '(field_width, flags, fmt, args) ← parse_width flags fmt (k_args k);
    '(precision, fmt, args) ← parse_precision fmt args;
    let '(qualifier, fmt) := parse_qualifier fmt in
    convert cfg e (k_out k) flags field_width precision qualifier fmt args (k_stores k).

(** Each round takes at least a character of the format. *)
Fixpoint format_loop (cfg : config) (fuel : nat) (e : Z) (k : conv) : run (conv + result) :=
  match k_fmt k with
  | [] => Result (inl k)
  | _ :: _ =>
    match fuel with
    | O => OutOfFuel
    | S f =>
      match format_step cfg e k with
      | Some (inl k) => format_loop cfg f e k
      | Some (inr err) => Result (inr err)
      | None => Undefined
      end
    end
  end.

(** The return value, the buffer and what %n stored. *)
Definition vsnprintf_internal (cfg : config) (buf : list Z) (size : Z) (fmt : str) (args : list arg)
    : run result :=
  r ← format_loop cfg (length fmt) size (mk_conv (mk_out buf 0) fmt args []);
  match r with
  | inr err => Result err
  | inl k =>
    let o := k_out k in
    if 0 <? size then
      let o' := ADDCH size o 0 in
      let b := if size <? o_pos o' then <[Z.to_nat (size - 1) := 0]> (o_buf o') else o_buf o' in
      Result (o_pos o' - 1, b, k_stores k)
    else Result (o_pos o, o_buf o, k_stores k)
  end.

Definition vsnprintf := vsnprintf_internal.

Definition vscnprintf (cfg : config) (buf : list Z) (size : Z) (fmt : str) (args : list arg)
    : run result :=
  '(i, buf, stores) ← vsnprintf cfg buf size fmt args;
  Result (if u64 i <? size then i else if negb (size =? 0) then s32 (size - 1) else 0, buf, stores).

Definition snprintf := vsnprintf.
Definition scnprintf := vscnprintf.

Definition vsprintf (cfg : config) (buf : list Z) (fmt : str) (args : list arg) :=
  vsnprintf_internal cfg buf INT_MAX fmt args.
Definition sprintf := vsprintf.

(** The text sent to the console; [printbuffer] is what was on the stack. *)
Definition vprintf (cfg : config) (printbuffer : list Z) (fmt : str) (args : list arg)
    : run (Z * str) :=
  '(i, b, _) ← vscnprintf cfg printbuffer (Z.of_nat (length printbuffer)) fmt args;
  let i := u32 i in
  if i =? 0 then Result (i, []) else Result (i, until_zero b).

(** ** Grouped digits and frequencies *)

(** The groups from [s] on; [prev] is the character in front of it.  [None] if
    the pointer steps over the terminator. *)
Fixpoint groups (fuel : nat) (prev : option Z) (s : str) : option str :=
  match s, fuel with
  | [], _ => Some []
  | _, O => None
  | _, S f =>
    let sep := match prev with
               | Some c => if negb (c =? 32) then [44] else [32]
               | None => []
               end in
    if Z.of_nat (length s) <? 3 then None
    else
      r ← groups f (Some (byteat s 2)) (drop 3 s);
      Some (sep ++ string (Some s) (-1) 3 0 ++ r)
  end.

(** [None] also if the text does not fit the 21 bytes for it. *)
Definition print_grouped_ull (int_val digits : Z) : option str :=
  let digits := Z.quot (digits + 2) 3 in
  let text := number int_val 10 (digits * 3) (-1) 0 in
  if 21 <=? Z.of_nat (length text) then None else groups (length text) None text.

Definition strmhz (hz : Z) : str :=
  let n := u64 (hz + 500) / 1000 / 1000 in
  let hz := u64 (hz - n * 1000000) in
  let m := u64 (hz + 500) / 1000 in
  number n 10 (-1) (-1) SIGN ++
  (if negb (m =? 0) then 46 :: number m 10 3 (-1) (Z.lor ZEROPAD SIGN) else []).

(** ** Output is text sent through [ADDCH] *)
Lemma addchs_app e o a b : addchs e o (a ++ b) = addchs e (addchs e o a) b.
Proof. apply fold_left_app. Qed.

Lemma addchs_pos e o l : o_pos (addchs e o l) = o_pos o + Z.of_nat (length l).
Proof.
  revert o. induction l as [|c l IH]; intros o; simpl; [lia|].
  change (fold_left (ADDCH e) l (ADDCH e o c)) with (addchs e (ADDCH e o c) l). rewrite IH. simpl. lia.
Qed.

(** ** What a format asks for *)
Inductive kind := KInt | KStr | KWstr | KPtr.
Definition kind_of (a : arg) : kind :=
  match a with Int _ => KInt | Str _ => KStr | Wstr _ => KWstr | Ptr _ _ => KPtr end.

(** A field width or precision: digits, or an argument. *)
Definition star_kinds (fmt : str) : list kind * str :=
  if is_digit (at_hd fmt) then ([], (skip_atoi 0 fmt).2)
  else if at_hd fmt =? 42 then ([KInt], tl fmt)
  else ([], fmt).

Definition letter_kinds (cfg : config) (qualifier c : Z) : list kind :=
  if c =? 115 then [if c_efi cfg && (qualifier =? 108) then KWstr else KStr]       (* s *)
  else if (c =? 112) || (c =? 110) then [KPtr]                                     (* p n *)
  else if existsb (Z.eqb c) [99; 111; 120; 88; 100; 105; 117] then [KInt]          (* c o x X d i u *)
  else [].

Definition letter_rest (c : Z) (fmt : str) : str :=
  if c =? 112 then skip_alnum fmt
  else if (c =? 100) && (at_hd fmt =? 69) then tl fmt
  else fmt.

(** The kinds of the arguments of a format, in order. *)
Fixpoint kinds (cfg : config) (fuel : nat) (fmt : str) : list kind :=
  match fuel, fmt with
  | S f, c :: fmt =>
    if negb (c =? 37) then kinds cfg f fmt
    else
      let '(width, fmt) := star_kinds (parse_flags 0 fmt).2 in
      let '(precision, fmt) := if at_hd fmt =? 46 then star_kinds (tl fmt) else ([], fmt) in
      let '(qualifier, fmt) := parse_qualifier fmt in
      width ++ precision ++ letter_kinds cfg qualifier (at_hd fmt) ++
      kinds cfg f (letter_rest (at_hd fmt) (tl fmt))
  | _, _ => []
  end.

(** The arguments begin with those the format asks for. *)
Definition supplied (cfg : config) (fmt : str) (args : list arg) : Prop :=
  kinds cfg (length fmt) fmt `prefix_of` (kind_of <$> args).

Lemma supply ks k args : k :: ks `prefix_of` (kind_of <$> args) ->
  exists a r, args = a :: r /\ kind_of a = k /\ ks `prefix_of` (kind_of <$> r).
Proof.
  intros [l H]. destruct args as [|a r]; [discriminate|]. injection H as H1 H2. exists a, r.
  split_and!; [done|done|by exists l].
Qed.

Ltac supply H := let a := fresh in let E := fresh in
  apply supply in H as (a & ? & -> & E & H); destruct a; try discriminate E.

Lemma convert_int_supplied cfg e o base flags w prec q fmt args stores ks :
  KInt :: ks `prefix_of` (kind_of <$> args) ->
  exists k, convert_int cfg e o base flags w prec q fmt args stores = Some (inl k) /\
    k_fmt k = fmt /\ ks `prefix_of` (kind_of <$> k_args k).
Proof. intros H. supply H. eexists. split; [reflexivity|done]. Qed.

(** A conversion that has its argument takes it. *)
Lemma convert_supplied cfg e o flags w prec q fmt args stores ks :
  letter_kinds cfg q (at_hd fmt) ++ ks `prefix_of` (kind_of <$> args) ->
  exists r, convert cfg e o flags w prec q fmt args stores = Some r /\
    match r with
    | inl k => k_fmt k = letter_rest (at_hd fmt) (tl fmt) /\ ks `prefix_of` (kind_of <$> k_args k)
    | inr _ => True
    end.
Proof.
  unfold letter_kinds, letter_rest, convert, int_next. set (c := at_hd fmt). intros H.
  assert (I : forall base flags, KInt :: ks `prefix_of` (kind_of <$> args) -> forall f,
    exists r, convert_int cfg e o base flags w prec q f args stores = Some r /\
      match r with inl k => k_fmt k = f /\ ks `prefix_of` (kind_of <$> k_args k) | inr _ => True end).
  { intros base fl H' f. destruct (convert_int_supplied cfg e o base fl w prec q f args stores ks H') as (k & E & K).
    eexists. split; [exact E|exact K]. }
  destruct (Z.eqb_spec c 99) as [Ec|?]; [rewrite Ec in *; cbn in H; supply H; eexists; split; [reflexivity|done]|].
  destruct (Z.eqb_spec c 115) as [Ec|?].
  { rewrite Ec. cbn [app] in H. destruct (c_efi cfg && (q =? 108)); supply H; eexists; (split; [reflexivity|done]). }
  destruct (Z.eqb_spec c 112) as [Ec|?].
  { cbn [app orb] in H. supply H. destruct (pointer _ _ _ _ _ _ _ _ _); eexists; (split; [reflexivity|done]). }
  destruct (Z.eqb_spec c 110) as [Ec|?].
  { rewrite Ec. cbn [app orb] in H. supply H. eexists. split; [reflexivity|done]. }
  cbn [orb] in H.
  destruct (Z.eqb_spec c 37) as [Ec|?]; [rewrite Ec in *; cbn in H; eexists; split; [reflexivity|done]|].
  destruct (Z.eqb_spec c 111) as [Ec|?]; [rewrite Ec in *; cbn in H; by apply I|].
  destruct (Z.eqb_spec c 120) as [Ec|?]; [rewrite Ec in *; cbn in H; by apply I|].
  destruct (Z.eqb_spec c 88) as [Ec|?]; [rewrite Ec in *; cbn in H; by apply I|].
  destruct (Z.eqb_spec c 100) as [Ec|?].
  { rewrite Ec in *. cbn in H. destruct (at_hd (tl fmt) =? 69); by apply I. }
  destruct (Z.eqb_spec c 105) as [Ec|?]; [rewrite Ec in *; cbn in H; by apply I|].
  destruct (Z.eqb_spec c 117) as [Ec|?]; [rewrite Ec in *; cbn in H; by apply I|].
  replace (existsb _ _) with false in H by (symmetry; cbn; rewrite !orb_false_r; repeat (apply orb_false_intro); apply Z.eqb_neq; done).
  eexists. split; [reflexivity|done].
Qed.

Lemma parse_width_supplied flags fmt args ks : (star_kinds fmt).1 ++ ks `prefix_of` (kind_of <$> args) ->
  exists w flags' args', parse_width flags fmt args = Some (w, flags', (star_kinds fmt).2, args') /\
    ks `prefix_of` (kind_of <$> args').
Proof.
  unfold star_kinds, parse_width, int_next. intros H. destruct (is_digit (at_hd fmt)).
  { destruct (skip_atoi 0 fmt). by eexists _, _, _. }
  destruct (at_hd fmt =? 42); [|by eexists _, _, _].
  cbn [fst app] in H. supply H. cbn [mbind option_bind]. destruct (_ <? 0); by eexists _, _, _.
Qed.

Lemma parse_precision_supplied fmt args ks :
  let r := if at_hd fmt =? 46 then star_kinds (tl fmt) else ([], fmt) in
  r.1 ++ ks `prefix_of` (kind_of <$> args) ->
  exists p args', parse_precision fmt args = Some (p, r.2, args') /\ ks `prefix_of` (kind_of <$> args').
Proof.
  unfold star_kinds, parse_precision, int_next. intros H. destruct (at_hd fmt =? 46); [|by eexists _, _].
  destruct (is_digit (at_hd (tl fmt))).
  { destruct (skip_atoi 0 (tl fmt)). by eexists _, _. }
  destruct (at_hd (tl fmt) =? 42); [|by eexists _, _].
  cbn [fst app] in H. supply H. by eexists _, _.
Qed.

(** So the loop meets no missing argument. *)
Lemma format_loop_supplied cfg f e k :
  kinds cfg f (k_fmt k) `prefix_of` (kind_of <$> k_args k) -> format_loop cfg f e k <> Undefined.
Proof.
  revert k. induction f as [|f IH]; intros [o fmt args stores] H; cbn [k_fmt k_args] in H.
  { by destruct fmt. }
  destruct fmt as [|c fmt]; [done|]. cbn [format_loop kinds k_fmt] in *. unfold format_step.
  cbn [k_fmt k_out k_args k_stores]. change (at_hd (c :: fmt)) with c. change (tl (c :: fmt)) with fmt.
  destruct (negb (c =? 37)); [by apply IH|].
  destruct (parse_flags 0 fmt) as [flags f1]. cbn [snd] in H.
  pose proof (parse_width_supplied flags f1 args) as W. destruct (star_kinds f1) as [ws f2].
  pose proof (fun a => parse_precision_supplied f2 a) as P.
  destruct (if at_hd f2 =? 46 then _ else _) as [ps f3]. destruct (parse_qualifier f3) as [q f4] eqn:Q.
  destruct (W _ H) as (w & fl & a2 & -> & H2). cbn [mbind option_bind fst snd].
  destruct (P _ _ H2) as (pr & a3 & -> & H3). cbn [mbind option_bind fst snd]. rewrite Q.
  destruct (convert_supplied cfg e o fl w pr q f4 a3 stores _ H3) as (r & -> & R).
  destruct r as [k|]; [|done]. apply IH. destruct R as [-> R]. exact R.
Qed.

(** Arguments and formats without UTF-16 text: no wide strings, and no "pD" in
    the format where that stands for a device path. *)
Definition narrow (a : arg) : Prop := match a with Wstr _ => False | _ => True end.

Fixpoint has_pD (fmt : str) : bool :=
  match fmt with
  | c :: r => ((c =? 112) && (at_hd r =? 68)) || has_pD r
  | [] => false
  end.
Definition wide (cfg : config) (fmt : str) : bool :=
  match c_dp cfg with Some _ => has_pD fmt | None => false end.

(** The result of sending a text, at position [p] of any buffer. *)
Definition sent (e : Z) (buf : list Z) (p : Z) (r : option (list Z * str * list arg * list Z))
    : option (conv + result) :=
  match r with
  | Some (t, fmt, args, stores) => Some (inl (mk_conv (addchs e (mk_out buf p) t) fmt args stores))
  | None => None
  end.

Definition sends (F : Z -> out -> option (conv + result)) (p : Z) (rest : str) : Prop :=
  exists r, (forall e buf, F e (mk_out buf p) = sent e buf p r) /\
    match r with
    | Some (_, fmt, args, _) => Forall narrow args /\ fmt `suffix_of` rest
    | None => True
    end.

Lemma sends_text F p rest t fmt args stores :
  (forall e buf, F e (mk_out buf p) = Some (inl (mk_conv (addchs e (mk_out buf p) t) fmt args stores))) ->
  Forall narrow args -> fmt `suffix_of` rest -> sends F p rest.
Proof. intros H A L. exists (Some (t, fmt, args, stores)). split; [exact H|]. done. Qed.

Lemma sends_none F p rest : (forall e buf, F e (mk_out buf p) = None) -> sends F p rest.
Proof. intros H. exists None. split; [exact H|done]. Qed.

Lemma suffix_tl {A} (l : list A) : tl l `suffix_of` l.
Proof. destruct l as [|x l]; [done|]. by exists [x]. Qed.

Lemma suffix_tl_r {A} (l k : list A) : l `suffix_of` k -> tl l `suffix_of` k.
Proof. intros H. etransitivity; [apply suffix_tl|exact H]. Qed.

(** The parts of a conversion stop at a later place of the format. *)
Lemma skip_alnum_suffix fmt : skip_alnum fmt `suffix_of` fmt.
Proof. induction fmt as [|c r IH]; simpl; [done|]. destruct (isalnum c); [by apply suffix_cons_r|done]. Qed.

Lemma has_pD_suffix s t : s `suffix_of` t -> has_pD t = false -> has_pD s = false.
Proof. intros [l ->]. induction l as [|c l IH]; [done|]. simpl. intros [_ H]%orb_false_iff. by apply IH. Qed.

Lemma wide_suffix cfg s t : s `suffix_of` t -> wide cfg t = false -> wide cfg s = false.
Proof. unfold wide. destruct (c_dp cfg); [apply has_pD_suffix|done]. Qed.

Lemma convert_int_sends cfg base flags w prec q fmt args stores p rest :
  Forall narrow args -> fmt `suffix_of` rest ->
  sends (fun e o => convert_int cfg e o base flags w prec q fmt args stores) p rest.
Proof.
  intros A L. unfold convert_int, int_arg. destruct args as [|[x| | |] args]; [by apply sends_none| |by apply sends_none..].
  apply Forall_cons in A as [_ A]. cbn [mbind option_bind]. destruct (if flag flags ERRSTR then c_errno cfg else None) as [f|].
  - eapply sends_text; [|done|done]. intros e buf. rewrite <- addchs_app. reflexivity.
  - eapply sends_text; [|done|done]. intros e buf. reflexivity.
Qed.

Lemma pointer_sends cfg fmt addr mem w prec flags p :
  (if at_hd fmt =? 68 then c_dp cfg else None) = None ->
  exists t, forall e buf, pointer cfg fmt e (mk_out buf p) addr mem w prec flags =
    inl (addchs e (mk_out buf p) t).
Proof.
  intros D. unfold pointer. rewrite D.
  destruct (if at_hd fmt =? 85 then c_uuid cfg else None) as [tb|];
    try (eexists; intros; reflexivity);
    repeat match goal with |- context [if ?b then inl _ else _] => destruct b;
      [eexists; intros; reflexivity|] end; repeat (destruct (_ || _); [|eexists; intros; reflexivity]);
    repeat match goal with |- context [if ?b then inl _ else _] => destruct b;
      [eexists; intros; reflexivity|] end; eexists; intros; reflexivity.
Qed.


Ltac args_case A := match goal with |- context [match ?l with [] => _ | _ :: _ => _ end] =>
  destruct l as [|[?|?|?|? ?] ?]; try (by apply sends_none); apply Forall_cons in A as [? A] end.

Lemma no_device_path cfg fmt : wide cfg fmt = false -> (at_hd fmt =? 112) = true ->
  (if at_hd (tl fmt) =? 68 then c_dp cfg else None) = None.
Proof.
  unfold wide. intros W E. destruct (at_hd (tl fmt) =? 68) eqn:D; [|done]. destruct (c_dp cfg); [|done].
  destruct fmt as [|c r]; [discriminate|]. simpl in *. by rewrite E, D in W.
Qed.

Lemma convert_sends cfg flags w prec q fmt args stores p :
  wide cfg fmt = false -> Forall narrow args ->
  sends (fun e o => convert cfg e o flags w prec q fmt args stores) p (tl fmt).
Proof.
  intros D A. unfold convert, int_next.
  destruct (at_hd fmt =? 99).
  { args_case A. eapply sends_text; [intros; reflexivity|done|done]. }
  destruct (at_hd fmt =? 115).
  { destruct (c_efi cfg && (q =? 108)); args_case A; [done|].
    eapply sends_text; [intros; reflexivity|done|done]. }
  destruct (at_hd fmt =? 112) eqn:Ep.
  { args_case A. edestruct (pointer_sends cfg (tl fmt)) as [t Ht]; [by apply no_device_path|].
    eapply sends_text; [intros e buf; rewrite Ht; reflexivity|done|apply skip_alnum_suffix]. }
  clear Ep.
  destruct (at_hd fmt =? 110).
  { args_case A. eapply (sends_text _ _ _ [] _ _ (stores ++ [if q =? 108 then s64 p else s32 p]));
      [intros; reflexivity|done|done]. }
  destruct (at_hd fmt =? 37); [by apply (sends_text _ _ _ [37] (tl fmt) args stores)|].
  do 3 (destruct (_ =? _); [by apply convert_int_sends|]).
  destruct (at_hd fmt =? 100).
  { destruct (_ =? 69); apply convert_int_sends; try done; apply suffix_tl. }
  do 2 (destruct (_ =? _); [by apply convert_int_sends|]).
  destruct (negb _).
  - by apply (sends_text _ _ _ [37; at_hd fmt] (tl fmt) args stores).
  - by apply (sends_text _ _ _ [37] (tl fmt) args stores).
Qed.

Lemma skip_atoi_suffix i s : (skip_atoi i s).2 `suffix_of` s.
Proof.
  revert i. induction s as [|c s IH]; intros i; simpl; [done|]. destruct (is_digit c); simpl; [|done].
  apply suffix_cons_r, IH.
Qed.

Lemma parse_flags_suffix flags s : (parse_flags flags s).2 `suffix_of` s.
Proof.
  revert flags. induction s as [|c s IH]; intros flags; simpl; [done|].
  repeat (destruct (_ =? _); [apply suffix_cons_r, IH|]). done.
Qed.

Lemma parse_width_suffix flags fmt args w flags' fmt' args' :
  parse_width flags fmt args = Some (w, flags', fmt', args') -> fmt' `suffix_of` fmt.
Proof.
  unfold parse_width, int_next. intros H. destruct (is_digit _).
  - pose proof (skip_atoi_suffix 0 fmt) as L. destruct (skip_atoi 0 fmt). injection H as <- <- <- <-. done.
  - destruct (_ =? 42); [|injection H as <- <- <- <-; done].
    destruct args as [|[x|?|?|? ?] args]; try discriminate.
    simpl in H. destruct (_ <? 0); injection H as <- <- <- <-; apply suffix_tl.
Qed.

Lemma parse_precision_suffix fmt args p fmt' args' :
  parse_precision fmt args = Some (p, fmt', args') -> fmt' `suffix_of` fmt.
Proof.
  unfold parse_precision, int_next. intros H.
  destruct (_ =? 46); [|injection H as <- <- <-; done].
  transitivity (tl fmt); [|apply suffix_tl]. destruct (is_digit _).
  - pose proof (skip_atoi_suffix 0 (tl fmt)) as L. destruct (skip_atoi 0 (tl fmt)). simpl in H.
    injection H as <- <- <-. exact L.
  - destruct (_ =? 42).
    + destruct args as [|[x|?|?|? ?] args]; try discriminate. simpl in H. injection H as <- <- <-. apply suffix_tl.
    + simpl in H. injection H as <- <- <-. done.
Qed.

(** Arguments are taken from the front. *)
Lemma parse_width_args flags fmt args w flags' fmt' args' :
  parse_width flags fmt args = Some (w, flags', fmt', args') -> Forall narrow args -> Forall narrow args'.
Proof.
  unfold parse_width, int_next. intros H A. destruct (is_digit _).
  - destruct (skip_atoi 0 fmt). by injection H as <- <- <- <-.
  - destruct (_ =? 42); [|by injection H as <- <- <- <-].
    destruct args as [|[x|?|?|? ?] args]; try discriminate. apply Forall_cons in A as [_ A].
    simpl in H. destruct (_ <? 0); by injection H as <- <- <- <-.
Qed.

Lemma parse_precision_args fmt args p fmt' args' :
  parse_precision fmt args = Some (p, fmt', args') -> Forall narrow args -> Forall narrow args'.
Proof.
  unfold parse_precision, int_next. intros H A. destruct (_ =? 46); [|by injection H as <- <- <-].
  destruct (is_digit _); [destruct (skip_atoi 0 (tl fmt)); by injection H as <- <- <-|].
  destruct (_ =? 42); [|by injection H as <- <- <-].
  destruct args as [|[x|?|?|? ?] args]; try discriminate. apply Forall_cons in A as [_ A].
  by injection H as <- <- <-.
Qed.

Lemma parse_qualifier_suffix fmt : (parse_qualifier fmt).2 `suffix_of` fmt.
Proof.
  unfold parse_qualifier. destruct (_ || _); [|done].
  destruct (_ && _); simpl; repeat apply suffix_tl_r; done.
Qed.

Lemma sends_le F p s t : sends F p s -> s `suffix_of` t -> sends F p t.
Proof.
  intros (r & H & R) L. exists r. split; [done|]. destruct r as [[[[? ?] ?] ?]|]; [|done].
  destruct R. split; [done|by etransitivity].
Qed.

Lemma format_step_sends cfg fmt args stores p : wide cfg fmt = false -> Forall narrow args -> fmt <> [] ->
  sends (fun e o => format_step cfg e (mk_conv o fmt args stores)) p (tl fmt).
Proof.
  intros D A N. destruct fmt as [|c fmt]; [done|]. unfold format_step. cbn [k_fmt k_out k_args k_stores].
  change (at_hd (c :: fmt)) with c. change (tl (c :: fmt)) with fmt.
  destruct (negb (c =? 37)).
  { by apply (sends_text _ _ _ [c] fmt args stores). }
  pose proof (parse_flags_suffix 0 fmt) as L1. destruct (parse_flags 0 fmt) as [flags f1]. simpl in L1.
  destruct (parse_width flags f1 args) as [[[[w flags'] f2] args2]|] eqn:E; [|by apply sends_none].
  pose proof (parse_width_args _ _ _ _ _ _ _ E A) as A2. apply parse_width_suffix in E. cbn [mbind option_bind].
  destruct (parse_precision f2 args2) as [[[pr f3] args3]|] eqn:E3; [|by apply sends_none].
  pose proof (parse_precision_args _ _ _ _ _ E3 A2) as A3. apply parse_precision_suffix in E3. cbn [mbind option_bind].
  pose proof (parse_qualifier_suffix f3) as L4. destruct (parse_qualifier f3) as [q f4]. simpl in L4.
  assert (L : f4 `suffix_of` fmt) by (etransitivity; [exact L4|]; etransitivity; [exact E3|]; by etransitivity).
  eapply sends_le; [apply convert_sends; [|done]|by apply suffix_tl_r].
  eapply wide_suffix; [apply suffix_cons_r, L|exact D].
Qed.

Lemma format_loop_sends cfg f fmt args stores p :
  wide cfg fmt = false -> Forall narrow args -> (length fmt <= f)%nat ->
  exists r : option (list Z * list arg * list Z), forall e buf,
    format_loop cfg f e (mk_conv (mk_out buf p) fmt args stores) =
    match r with
    | Some (t, args', stores') => Result (inl (mk_conv (addchs e (mk_out buf p) t) [] args' stores'))
    | None => Undefined
    end.
Proof.
  revert fmt args stores p. induction f as [|f IH]; intros fmt args stores p D A L.
  - destruct fmt; [|simpl in L; lia]. by exists (Some ([], args, stores)).
  - destruct fmt as [|c fmt]; [by exists (Some ([], args, stores))|].
    destruct (format_step_sends cfg (c :: fmt) args stores p D A ltac:(done)) as (r & H & R).
    cbn [format_loop k_fmt]. destruct r as [[[[t fmt'] args'] stores']|].
    + destruct R as [A' L']. cbn [tl] in L'. pose proof (suffix_length _ _ L'). simpl in L.
      destruct (IH fmt' args' stores' (p + Z.of_nat (length t))
                  (wide_suffix _ _ _ (suffix_cons_r _ _ _ L') D) A' ltac:(lia)) as [r' H'].
      exists (match r' with Some (t', a, s) => Some (t ++ t', a, s) | None => None end).
      intros e buf. rewrite H. cbn [sent].
      pose proof (addchs_pos e (mk_out buf p) t) as P. destruct (addchs e (mk_out buf p) t) as [b q] eqn:E.
      simpl in P. subst q. rewrite H'. destruct r' as [[[t' a] s']|]; [|done].
      by rewrite addchs_app, E.
    + exists None. intros e buf. rewrite H. done.
Qed.

(** ** What is in the buffer *)
Lemma addchs_buf e buf p t : 0 <= p -> e <= Z.of_nat (length buf) ->
  o_buf (addchs e (mk_out buf p) t) = write_at buf p (take (Z.to_nat (e - p)) (u8 <$> t)).
Proof.
  revert buf p. induction t as [|c t IH]; intros buf p Hp He.
  - cbn [fmap list_fmap]. by rewrite take_nil.
  - change (addchs e (mk_out buf p) (c :: t)) with (addchs e (ADDCH e (mk_out buf p) c) t).
    unfold ADDCH, poke. cbn [o_pos o_buf fmap list_fmap]. destruct (Z.ltb_spec p e).
    + rewrite IH by (rewrite ?length_insert; lia).
      replace (Z.to_nat (e - p)) with (S (Z.to_nat (e - (p + 1)))) by lia. cbn [take].
      set (l := take _ _). unfold write_at. replace (Z.to_nat (p + 1)) with (S (Z.to_nat p)) by lia.
      cbn [list_inserts]. symmetry. apply list_insert_inserts_lt. lia.
    + rewrite IH by lia. replace (Z.to_nat (e - (p + 1))) with O by lia.
      by replace (Z.to_nat (e - p)) with O by lia.
Qed.

Lemma poke_lookup (buf : list Z) (i c : Z) (j : nat) : 0 <= i < Z.of_nat (length buf) ->
  <[Z.to_nat i := c]> buf !! j = if decide (Z.of_nat j = i) then Some c else buf !! j.
Proof.
  intros Hi. case_decide as E.
  - replace (Z.to_nat i) with j by lia. apply list_lookup_insert_eq. lia.
  - apply list_lookup_insert_ne. lia.
Qed.

(** A terminated copy of what fits; nothing in a buffer of no size. *)
Definition stored_text (buf : list Z) (size : Z) (text : list Z) : list Z :=
  if 0 <? size then write_at buf 0 (take (Z.to_nat (size - 1)) (u8 <$> text) ++ [0]) else buf.

Lemma terminate_text buf size text : 0 < size <= Z.of_nat (length buf) ->
  let o' := ADDCH size (addchs size (mk_out buf 0) text) 0 in
  o_pos o' - 1 = Z.of_nat (length text) /\
  (if size <? o_pos o' then <[Z.to_nat (size - 1) := 0]> (o_buf o') else o_buf o') =
  stored_text buf size text.
Proof.
  intros Hs o'. subst o'. cbn [ADDCH o_pos o_buf]. rewrite addchs_pos. cbn [o_pos]. split; [lia|].
  unfold poke. rewrite addchs_pos, addchs_buf by lia. cbn [o_pos].
  rewrite Z.add_0_l, Z.sub_0_r. unfold stored_text. rewrite (proj2 (Z.ltb_lt 0 size)) by lia. set (t := u8 <$> text).
  assert (L : length t = length text) by apply length_fmap.
  assert (W : forall k, (k <= Z.to_nat size)%nat ->
    (length (take k t) <= k)%nat /\ (length (take k t) <= length buf)%nat).
  { intros k Hk. rewrite length_take. lia. }
  destruct (Z.ltb_spec (Z.of_nat (length text)) size), (Z.ltb_spec size (Z.of_nat (length text) + 1)); try lia.
  - rewrite !take_ge by lia. apply list_eq. intros j.
    rewrite poke_lookup by (rewrite length_write_at; lia).
    rewrite !write_at_lookup by (rewrite ?length_app; simpl; lia). rewrite length_app, lookup_app. simpl.
    change (u8 0) with 0. rewrite L.
    repeat case_decide; try lia; try done.
    + replace (j - Z.to_nat 0)%nat with (length text) by lia. rewrite lookup_ge_None_2, Nat.sub_diag by lia. done.
    + destruct (t !! (j - Z.to_nat 0)%nat) eqn:E; [done|]. apply lookup_ge_None_1 in E. lia.
  - destruct (W (Z.to_nat size)) as [W1 W2]; [lia|]. destruct (W (Z.to_nat (size - 1))) as [W3 W4]; [lia|].
    apply list_eq. intros j.
    rewrite poke_lookup by (rewrite length_write_at; lia).
    rewrite !write_at_lookup by (rewrite ?length_app; simpl; lia).
    rewrite length_app, lookup_app, !length_take, !L. simpl.
    repeat case_decide; try lia; try done.
    + rewrite (lookup_ge_None_2 (take _ _)) by (rewrite length_take; lia). 
      replace (j - Z.to_nat 0 - _)%nat with O by lia. done.
    + rewrite !lookup_take_lt by lia. destruct (t !! _) eqn:E; [done|]. apply lookup_ge_None_1 in E. lia.
Qed.

Lemma vsnprintf_text cfg fmt args : wide cfg fmt = false -> Forall narrow args -> supplied cfg fmt args ->
  exists text stores, forall buf size, 0 <= size <= Z.of_nat (length buf) ->
    vsnprintf cfg buf size fmt args =
    Result (Z.of_nat (length text), stored_text buf size text, stores).
Proof.
  intros D A S. destruct (format_loop_sends cfg (length fmt) fmt args [] 0 D A ltac:(lia)) as [r H].
  unfold vsnprintf, vsnprintf_internal. destruct r as [[[t args'] stores]|].
  - exists t, stores. intros buf size Hs. rewrite H. cbn [mbind run_bind k_out k_stores].
    destruct (Z.ltb_spec 0 size).
    + destruct (terminate_text buf size t ltac:(lia)) as [E1 E2]. by rewrite E1, E2.
    + replace size with 0 by lia. rewrite addchs_pos, addchs_buf by lia. done.
  - exfalso. eapply (format_loop_supplied cfg (length fmt) 0 (mk_conv (mk_out [] 0) fmt args [])); [exact S|apply H].
Qed.

(** ** Stores stay inside the buffer, whatever the arguments *)
Definition within (e : Z) (o o' : out) : Prop :=
  o_pos o <= o_pos o' /\ length (o_buf o') = length (o_buf o) /\
  forall j, e <= Z.of_nat j -> o_buf o' !! j = o_buf o !! j.

Lemma within_refl e o : within e o o.
Proof. done. Qed.

Lemma within_trans e o1 o2 o3 : within e o1 o2 -> within e o2 o3 -> within e o1 o3.
Proof.
  intros (P1 & L1 & B1) (P2 & L2 & B2). split; [lia|]. split; [congruence|].
  intros j Hj. by rewrite B2, B1.
Qed.

Lemma within_poke e o c : 0 <= o_pos o -> within e o (mk_out (poke e o c) (o_pos o)).
Proof.
  intros Hp. unfold poke. destruct (Z.ltb_spec (o_pos o) e); [|done].
  split; [done|]. split; [apply length_insert|]. intros j Hj. apply list_lookup_insert_ne. lia.
Qed.

Lemma within_ADDCH e o c : 0 <= o_pos o -> within e o (ADDCH e o c).
Proof.
  intros Hp. destruct (within_poke e o c Hp) as (P & L & B). split; [simpl; lia|]. done.
Qed.

Lemma within_addchs e o l : 0 <= o_pos o -> within e o (addchs e o l).
Proof.
  revert o. induction l as [|c l IH]; intros o Hp; [done|].
  eapply within_trans; [by apply (within_ADDCH e o c)|]. apply IH. simpl. lia.
Qed.

(** The bytes of a code point are as many as were counted for it. *)
Lemma utf8_put_length s c s' : utf16_next s = (c, s') ->
  0 <= default 0 (utf16_utf8_strnlen s 1) /\
  Z.of_nat (length (default [] (utf8_put (if c <? 0 then 63 else c) (Some [])).2)) <=
  Z.max 1 (default 0 (utf16_utf8_strnlen s 1)).
Proof.
  intros E. unfold utf16_utf8_strnlen. cbn [utf16_utf8_strnlen_loop].
  assert (B : Z.of_nat (length (default [] (utf8_put (if c <? 0 then 63 else c) (Some [])).2)) <=
    if c <? 0 then 1 else if c <? 0x80 then 1 else if c <? 0x800 then 2 else if c <? 0x10000 then 3 else 4).
  { unfold utf8_put. destruct (Z.ltb_spec c 0); [vm_compute; discriminate|].
    destruct (surrogate c || _); [simpl; repeat cmp1; lia|]. cbn [snd default app].
    unfold utf8_units. repeat cmp1; simpl; lia. }
  destruct (stops s 1) eqn:St.
  - split; [simpl; lia|]. unfold stops in St. rewrite orb_false_r in St.
    destruct s as [|x s]; [|]; unfold utf16_next in E; simpl in *.
    + injection E as <- <-. vm_compute. discriminate.
    + rewrite St in E. injection E as <- <-. vm_compute. discriminate.
  - rewrite E. destruct (Z.eqb_spec c 0) as [->|].
    + simpl. vm_compute. split; discriminate.
    + change (1 - 1) with 0. assert (S0 : forall f x l, (1 <= f)%nat -> utf16_utf8_strnlen_loop f x 0 l = Some l).
      { intros [|f] x l Hf; [lia|]. cbn [utf16_utf8_strnlen_loop]. unfold stops. by rewrite orb_true_r. }
      destruct s as [|x s]; [by vm_compute in St|]. rewrite S0 by (simpl; lia).
      match type of B with _ <= ?X => assert (0 <= X) by (repeat cmp1; lia); set (w := X) in * end.
      change (default 0 (Some (0 + w))) with (0 + w). lia.
Qed.

Lemma within_string16_loop e n s o : 0 <= o_pos o -> e <= Z.of_nat (length (o_buf o)) ->
  within e o (string16_loop e n s o).
Proof.
  revert s o. induction n as [|n IH]; intros s o Hp He; [done|]. cbn [string16_loop].
  destruct (utf16_next s) as [c s'] eqn:E. destruct (utf8_put_length s c s' E) as [S0 S1].
  set (slen := default 0 _) in *. set (bytes := default [] _) in *.
  destruct (Z.ltb_spec (o_pos o + slen) e) as [Hlt|].
  - set (o1 := mk_out (write_at (o_buf o) (o_pos o) bytes) (o_pos o + Z.of_nat (length bytes))).
    assert (W1 : within e o o1).
    { split; [simpl; lia|]. split; [apply length_write_at|]. intros j Hj. cbn [o1 o_buf].
      rewrite write_at_lookup by lia. rewrite decide_False by lia. done. }
    assert (W2 : within e o1 (mk_out (poke e o1 0) (o_pos o1))) by (apply within_poke; simpl; lia).
    pose proof (within_trans _ _ _ _ W1 W2) as W. eapply within_trans; [exact W|].
    destruct W as (P & L & _). apply IH; [lia|]. rewrite L. lia.
  - eapply within_trans; [|apply IH]; simpl; [|lia..]. split; [simpl; lia|done].
Qed.

Lemma within_pos e o o' : within e o o' -> 0 <= o_pos o -> 0 <= o_pos o'.
Proof. intros (P & _). lia. Qed.

Lemma within_len e o o' : within e o o' -> e <= Z.of_nat (length (o_buf o)) ->
  e <= Z.of_nat (length (o_buf o')).
Proof. intros (_ & -> & _). done. Qed.

Lemma within_string16 e o s w prec flags : 0 <= o_pos o -> e <= Z.of_nat (length (o_buf o)) ->
  within e o (string16 e o s w prec flags).
Proof.
  intros Hp He. unfold string16. set (len := default 0 _).
  set (r := if negb (flag flags LEFT) then _ else _).
  assert (W : within e o r.1) by (subst r; destruct (negb _); [by apply within_addchs|done]).
  destruct r as [o1 w1]. cbn [fst] in W. pose proof (within_pos _ _ _ W Hp) as P1.
  pose proof (within_trans _ _ _ _ W (within_poke e o1 0 P1)) as W2.
  set (o2 := mk_out _ _) in *. pose proof (within_pos _ _ _ W2 Hp) as P2.
  pose proof (within_len _ _ _ W2 He) as L2.
  pose proof (within_trans _ _ _ _ W2 (within_string16_loop e (Z.to_nat len) (default NULL_TEXT s) o2 P2 L2)) as W3.
  eapply within_trans; [exact W3|]. apply within_addchs. by apply (within_pos _ _ _ W3).
Qed.

(** The parts of a result that theorems about stores and termination need. *)
Definition good (e : Z) (o : out) (n : nat) (r : conv + result) : Prop :=
  match r with
  | inl k => within e o (k_out k) /\ (length (k_fmt k) <= n)%nat
  | inr (err, buf, _) => err < 0 /\ within e o (mk_out buf (o_pos o))
  end.

Lemma pointer_good cfg fmt e o addr mem w prec flags :
  0 <= o_pos o -> e <= Z.of_nat (length (o_buf o)) ->
  match pointer cfg fmt e o addr mem w prec flags with
  | inl o' => within e o o'
  | inr err => err < 0
  end.
Proof.
  intros Hp He. unfold pointer, device_path_string.
  destruct (if at_hd fmt =? 68 then c_dp cfg else None) as [dp|].
  - destruct (addr =? 0); [by apply within_string16|].
    destruct (dp mem); [by apply within_string16|unfold ENOMEM; lia].
  - destruct (if at_hd fmt =? 85 then c_uuid cfg else None); [by apply within_addchs|].
    repeat match goal with |- context [if ?b then _ else _] => destruct b end; by apply within_addchs.
Qed.

Lemma convert_int_good cfg e o base flags w prec q fmt args stores r n :
  0 <= o_pos o -> convert_int cfg e o base flags w prec q fmt args stores = Some r ->
  (length fmt <= n)%nat -> good e o n r.
Proof.
  intros Hp. unfold convert_int. destruct (int_arg q flags args) as [[num args']|]; [|discriminate].
  cbn [mbind option_bind]. intros [= <-] L. split; [|done]. cbn [k_out].
  destruct (if flag flags ERRSTR then c_errno cfg else None); [|by apply within_addchs].
  apply (within_trans e o (addchs e o (number num base w prec flags))); [by apply within_addchs|].
  apply (within_addchs e _ ([58; 32] ++ s num)). rewrite addchs_pos. lia.
Qed.

Lemma convert_good cfg e o flags w prec q fmt args stores r :
  0 <= o_pos o -> e <= Z.of_nat (length (o_buf o)) ->
  convert cfg e o flags w prec q fmt args stores = Some r -> good e o (length (tl fmt)) r.
Proof.
  intros Hp He. unfold convert, int_next.
  destruct (_ =? 99).
  { destruct args as [|[x|?|?|? ?] args]; try discriminate. intros [= <-].
    split; [by apply within_addchs|done]. }
  destruct (_ =? 115).
  { destruct (_ && _); destruct args as [|[?|?|?|? ?] args]; try discriminate; intros [= <-];
      (split; [|done]); [by apply within_string16|by apply within_addchs]. }
  destruct (_ =? 112).
  { destruct args as [|[?|?|?|addr mem] args]; try discriminate.
    pose proof (pointer_good cfg (tl fmt) e o addr mem w prec flags Hp He) as P.
    destruct (pointer _ _ _ _ _ _ _ _ _) as [o'|err]; intros [= <-].
    - split; [done|apply suffix_length, skip_alnum_suffix].
    - split; [done|]. by destruct o. }
  destruct (_ =? 110).
  { destruct args as [|[?|?|?|? ?] args]; try discriminate. intros [= <-]. done. }
  destruct (_ =? 37); [intros [= <-]; split; [by apply within_ADDCH|done]|].
  do 3 (destruct (_ =? _); [intros H; by apply (convert_int_good _ _ _ _ _ _ _ _ _ _ _ _ _ Hp H)|]).
  destruct (_ =? 100).
  { destruct (_ =? 69); intros H; apply (convert_int_good _ _ _ _ _ _ _ _ _ _ _ _ _ Hp H); [apply suffix_length, suffix_tl|done]. }
  do 2 (destruct (_ =? _); [intros H; by apply (convert_int_good _ _ _ _ _ _ _ _ _ _ _ _ _ Hp H)|]).
  intros [= <-]. split; [|done]. cbn [k_out]. destruct (negb _).
  - change (within e o (addchs e o [37; at_hd fmt])). by apply within_addchs.
  - by apply within_ADDCH.
Qed.

Lemma format_step_good cfg e k r :
  0 <= o_pos (k_out k) -> e <= Z.of_nat (length (o_buf (k_out k))) -> k_fmt k <> [] ->
  format_step cfg e k = Some r -> good e (k_out k) (length (k_fmt k) - 1) r.
Proof.
  destruct k as [o fmt args stores]. cbn [k_out k_fmt]. intros Hp He N. unfold format_step.
  cbn [k_fmt k_out k_args k_stores]. destruct fmt as [|c fmt]; [done|].
  change (at_hd (c :: fmt)) with c. change (tl (c :: fmt)) with fmt.
  replace (length (c :: fmt) - 1)%nat with (length fmt) by (simpl; lia). destruct (negb (c =? 37)).
  { intros [= <-]. split; [by apply within_ADDCH|done]. }
  pose proof (suffix_length _ _ (parse_flags_suffix 0 fmt)) as L1. destruct (parse_flags 0 fmt) as [flags f1]. simpl in L1.
  destruct (parse_width flags f1 args) as [[[[w flags'] f2] args2]|] eqn:E2; [|discriminate].
  apply parse_width_suffix, suffix_length in E2. cbn [mbind option_bind].
  destruct (parse_precision f2 args2) as [[[pr f3] args3]|] eqn:E3; [|discriminate].
  apply parse_precision_suffix, suffix_length in E3. cbn [mbind option_bind].
  pose proof (suffix_length _ _ (parse_qualifier_suffix f3)) as L4. destruct (parse_qualifier f3) as [q f4]. simpl in L4.
  intros H. apply convert_good in H; [|done..]. pose proof (suffix_length _ _ (suffix_tl f4)).
  destruct r as [k|[[err b] st]]; [|done]. destruct H as [H1 H2]. split; [done|lia].
Qed.

Lemma format_loop_good cfg f e k r :
  0 <= o_pos (k_out k) -> e <= Z.of_nat (length (o_buf (k_out k))) ->
  format_loop cfg f e k = Result r -> good e (k_out k) O r.
Proof.
  revert k. induction f as [|f IH]; intros k Hp He; destruct (k_fmt k) as [|c fmt] eqn:E; cbn [format_loop]; rewrite E.
  1, 3: intros [= <-]; split; [done|by rewrite E].
  - discriminate.
  - destruct (format_step cfg e k) as [[k'|err]|] eqn:S; [| |discriminate].
    + apply format_step_good in S; [|done..|by rewrite E]. destruct S as [W _]. intros H.
      apply IH in H; [|by apply (within_pos _ _ _ W)|by apply (within_len _ _ _ W)].
      destruct r as [k2|[[er b] st]]; destruct H as [H1 H2]; (split; [|done]) || (split; [done|]).
      * by eapply within_trans.
      * destruct W as (P & L & B), H2 as (P2 & L2 & B2). simpl in *. split; [simpl; lia|].
        split; [simpl; congruence|]. intros j Hj. simpl. by rewrite B2, B.
    + intros [= <-]. apply format_step_good in S; [|done..|by rewrite E]. done.
Qed.

(** The loop ends within as many rounds as the format has characters. *)
Lemma format_loop_ends cfg f e k :
  0 <= o_pos (k_out k) -> e <= Z.of_nat (length (o_buf (k_out k))) ->
  (length (k_fmt k) <= f)%nat -> format_loop cfg f e k <> OutOfFuel.
Proof.
  revert k. induction f as [|f IH]; intros k Hp He Hf; cbn [format_loop].
  - destruct (k_fmt k) eqn:E; [done|simpl in Hf; lia].
  - destruct (k_fmt k) as [|c fmt] eqn:E; [done|].
    destruct (format_step cfg e k) as [[k'|err]|] eqn:S; [|done..].
    apply format_step_good in S; [|done..|by rewrite E]. destruct S as [W L]. rewrite E in L. simpl in L, Hf.
    apply IH; [by apply (within_pos _ _ _ W)|by apply (within_len _ _ _ W)|lia].
Qed.

(** The terminator behind the text or at the end of the buffer. *)
Lemma terminator_stored (size : Z) (buf : list Z) (o : out) :
  0 < size <= Z.of_nat (length buf) -> 0 <= o_pos o -> length (o_buf o) = length buf ->
  (forall j, size <= Z.of_nat j -> o_buf o !! j = buf !! j) ->
  let o' := ADDCH size o 0 in
  let buf' := if size <? o_pos o' then <[Z.to_nat (size - 1) := 0]> (o_buf o') else o_buf o' in
  length buf' = length buf /\ drop (Z.to_nat size) buf' = drop (Z.to_nat size) buf /\
  (0 <= o_pos o' - 1 -> 0 < size -> byteat buf' (Z.min (o_pos o' - 1) (size - 1)) = 0).
Proof.
  intros Hs P L B o'. destruct (within_ADDCH size o 0 P) as (_ & L1 & B1). fold o' in L1, B1.
  assert (Po : o_pos o' = o_pos o + 1) by done.
  assert (L2 : length (o_buf o') = length buf) by congruence.
  assert (B2 : forall j, size <= Z.of_nat j -> o_buf o' !! j = buf !! j) by (intros j Hj; by rewrite B1, B).
  split_and!.
  - destruct (size <? o_pos o'); [rewrite length_insert|]; exact L2.
  - apply list_eq. intros j. rewrite !lookup_drop.
    destruct (size <? o_pos o'); [rewrite list_lookup_insert_ne by lia|]; apply B2; lia.
  - intros _ _. rewrite byteat_lookup. destruct (Z.ltb_spec size (o_pos o')).
    + rewrite Z.min_r, list_lookup_insert_eq by lia. done.
    + rewrite Z.min_l by lia. subst o'. unfold ADDCH, poke. cbn [o_buf o_pos] in *. branch.
      rewrite Z.add_simpl_r, list_lookup_insert_eq by (rewrite L; lia). done.
Qed.

(** ** Unbounded output into a buffer that is large enough *)
Lemma addchs_fits e buf p t : 0 <= p -> p + Z.of_nat (length t) <= e ->
  o_buf (addchs e (mk_out buf p) t) = write_at buf p (u8 <$> t).
Proof.
  revert buf p. induction t as [|c t IH]; intros buf p Hp He; [done|].
  change (addchs e (mk_out buf p) (c :: t)) with (addchs e (ADDCH e (mk_out buf p) c) t). simpl in He.
  unfold ADDCH, poke. cbn [o_pos o_buf fmap list_fmap]. branch. rewrite IH by lia.
  unfold write_at. replace (Z.to_nat (p + 1)) with (S (Z.to_nat p)) by lia. cbn [list_inserts].
  symmetry. apply list_insert_inserts_lt. lia.
Qed.

Lemma sprintf_fits cfg buf fmt args text args' stores :
  (forall e o, format_loop cfg (length fmt) e (mk_conv o fmt args []) =
     Result (inl (mk_conv (addchs e o text) [] args' stores))) ->
  Z.of_nat (length text) < Z.of_nat (length buf) -> Z.of_nat (length text) < INT_MAX ->
  sprintf cfg buf fmt args =
  Result (Z.of_nat (length text), write_at buf 0 ((u8 <$> text) ++ [0]), stores).
Proof.
  intros H Hb Hm. unfold sprintf, vsprintf, vsnprintf_internal. rewrite H. cbn [mbind run_bind k_out k_stores].
  change (0 <? INT_MAX) with true. cbv iota. rewrite <- (addchs_pos INT_MAX (mk_out buf 0) text) at 1.
  change (ADDCH INT_MAX (addchs INT_MAX (mk_out buf 0) text) 0)
    with (addchs INT_MAX (addchs INT_MAX (mk_out buf 0) text) [0]).
  rewrite <- addchs_app, !addchs_pos, length_app. cbn [o_pos length].
  rewrite (proj2 (Z.ltb_ge _ _)) by lia. rewrite addchs_fits by (rewrite ?length_app; simpl; lia).
  rewrite fmap_app. simpl. do 3 f_equal. lia.
Qed.

(** An error of a device path conversion is returned by [vsnprintf] but not by
    [vscnprintf], which compares it as an unsigned number. *)
Lemma vscnprintf_hides_error cfg dp buf size : c_dp cfg = Some dp ->
  dp [1] = None -> 0 < size < 1000 ->
  vsnprintf cfg buf size [37; 112; 68] [Ptr 4096 [1]] = Result (- ENOMEM, buf, []) /\
  vscnprintf cfg buf size [37; 112; 68] [Ptr 4096 [1]] = Result (size - 1, buf, []).
Proof.
  intros D E Hs.
  assert (V : vsnprintf cfg buf size [37; 112; 68] [Ptr 4096 [1]] = Result (- ENOMEM, buf, [])).
  { unfold vsnprintf, vsnprintf_internal, format_loop, format_step, convert, pointer. simpl.
    rewrite D. unfold device_path_string. simpl. by rewrite E. }
  split; [exact V|]. unfold vscnprintf. rewrite V. cbn [mbind run_bind].
  change (u64 (- ENOMEM)) with 18446744073709551604. repeat branch. cbn [negb].
  rewrite s32_small by lia. done.
Qed.

(** The bootstage report prints times with nine digits; one of ten, from a
    thousand seconds on, is grouped from the left and the loop runs past the end
    of the string. *)
Lemma print_grouped_overruns :
  print_grouped_ull 999999999 9 = Some [57; 57; 57; 44; 57; 57; 57; 44; 57; 57; 57] /\
  print_grouped_ull 1000000000 9 = None.
Proof. vm_compute. done. Qed.

(** C31: formatting does not depend on the buffer.  For a format and the
    arguments it asks for, neither with UTF-16 text (wide strings, device paths),
    there is a text, the same for every buffer, whose length is returned; a
    buffer of at least a byte gets the text up to its size less one and a
    terminator, with the bytes behind left as they were, and a buffer of no size
    is left alone. *)
Theorem vsnprintf_truncates cfg fmt args :
  wide cfg fmt = false -> Forall narrow args -> supplied cfg fmt args ->
  exists text stores, forall buf size, 0 <= size <= Z.of_nat (length buf) ->
    vsnprintf cfg buf size fmt args =
    Result (Z.of_nat (length text),
      if 0 <? size then write_at buf 0 (take (Z.to_nat (size - 1)) (u8 <$> text) ++ [0]) else buf,
      stores).
Proof. apply vsnprintf_text. Qed.

Definition plain_cfg : config := mk_cfg false false None None None.
(** A build with EFI: device paths are printed. *)
Definition efi_cfg : config := mk_cfg true true (Some (fun _ => None)) None None.

(** "%3d|%s" *)
Definition sample_fmt : str := [37; 51; 100; 124; 37; 115].
Lemma vsnprintf_truncates_witness : exists text stores, forall buf size, 0 <= size <= Z.of_nat (length buf) ->
    vsnprintf efi_cfg buf size sample_fmt [Int (-5); Str (Some [97; 98])] =
    Result (Z.of_nat (length text),
      if 0 <? size then write_at buf 0 (take (Z.to_nat (size - 1)) (u8 <$> text) ++ [0]) else buf,
      stores).
Proof.
  apply (vsnprintf_truncates efi_cfg sample_fmt [Int (-5); Str (Some [97; 98])]);
    [reflexivity|repeat constructor|by exists []].
Defined.



End Vsprintf.
