(* ===== verification/NetUtils.v ===== *)
(** * Network addresses and checksums (lib/net_utils.c, include/net-common.h)

    IPv4 and Ethernet addresses as text, and the Internet checksum with its
    composition.  An IPv4 address is a 32-bit number whose bytes in memory are
    in network order; the machine is little-endian. *)

From S2P Require Import Prelude Bytes.
From S2P Require Import Hashtable Strto Charset Printf Uuid Vsprintf.

Module NetUtils.
Import Hashtable Ctype Strto Charset Printf Uuid Vsprintf.

(** The other byte order. *)
Definition ntohl (x : Z) : Z := le_val (be_bytes 4 x).
Definition htonl := ntohl.

(** ** Addresses *)

(** The loop over the four numbers; [i] of them are left. *)
Fixpoint ip_loop (i : nat) (s : str) (s_addr : Z) : Z :=
  match i with
  | O => htonl s_addr
  | S i' =>
    let '(val, e) := dectoul s in
    if 255 <? val then 0
    else if negb (Nat.eqb i' 0) && negb (at_hd e =? 46) then 0
    else
      let s_addr := Z.lor (u32 (Z.shiftl s_addr 8)) (Z.land val 0xff) in
      ip_loop i' (if negb (at_hd e =? 0) then tl e else e) s_addr
  end.

Definition string_to_ip (s : option str) : Z :=
  match s with
  | None => 0
  | Some s => ip_loop 4 s 0
  end.

(** The string left in [s]. *)
Definition ip_to_string (cfg : config) (x : Z) (s : list Z) : option (list Z) :=
  let x := ntohl x in
  '(_, s, _) ← returned (sprintf cfg s [37; 100; 46; 37; 100; 46; 37; 100; 46; 37; 100]   (* "%d.%d.%d.%d" *)
    [Int (Z.land (Z.shiftr x 24) 0xff); Int (Z.land (Z.shiftr x 16) 0xff);
     Int (Z.land (Z.shiftr x 8) 0xff); Int (Z.land (Z.shiftr x 0) 0xff)]);
  Some s.

Fixpoint enet_loop (i : nat) (addr : option str) : list Z :=
  match i with
  | O => []
  | S i' =>
    match addr with
    | None => 0 :: enet_loop i' None
    | Some a =>
      let '(v, e) := hextoul a in
      u8 v :: enet_loop i' (Some (if negb (at_hd e =? 0) then tl e else e))
    end
  end.

(** [enetaddr] is NULL or where the address goes. *)
Definition string_to_enetaddr (addr : option str) (enetaddr : option (list Z)) : option (list Z) :=
  match enetaddr with
  | None => None
  | Some m => Some (write_at m 0 (enet_loop 6 addr))
  end.

Definition is_zero_ethaddr (addr : list Z) : bool :=
  Z.lor (byteat addr 0) (Z.lor (byteat addr 1) (Z.lor (byteat addr 2)
    (Z.lor (byteat addr 3) (Z.lor (byteat addr 4) (byteat addr 5))))) =? 0.
Definition is_multicast_ethaddr (addr : list Z) : bool := negb (Z.land 0x01 (byteat addr 0) =? 0).
Definition is_valid_ethaddr (addr : list Z) : bool :=
  negb (is_multicast_ethaddr addr) && negb (is_zero_ethaddr addr).

(** ** Checksums *)

(** [~x & 0xffff] *)
Definition not16 (x : Z) : Z := Z.land (Z.lnot x) 0xffff.

(** The words at [ptr], the last one filled up with a zero byte. *)
Fixpoint sum_words (ptr : list Z) (sum : Z) : Z :=
  match ptr with
  | a :: b :: r => sum_words r (s32 (sum + (a + 256 * b)))
  | [a] => s32 (sum + a)
  | [] => sum
  end.

Definition compute_ip_checksum (data : list Z) : Z :=
  let sum := sum_words data 0 in
  let sum := Z.shiftr sum 16 + Z.land sum 0xffff in
  let sum := sum + Z.shiftr sum 16 in
  not16 sum.

Definition add_ip_checksums (offset sum new : Z) : Z :=
  let sum := not16 sum in
  let new := not16 new in
  let new := if negb (Z.land offset 1 =? 0)
             then Z.lor (Z.land (Z.shiftr new 8) 0xff) (Z.land (u32 (Z.shiftl new 8)) 0xff00)
             else new in
  let checksum := u32 (sum + new) in
  let checksum := if 0xffff <? checksum then checksum - 0xffff else checksum in
  not16 checksum.

Definition ip_checksum_ok (data : list Z) : bool :=
  Z.land (compute_ip_checksum data) 0xfffe =? 0.

(** ** The checksum as one's complement arithmetic *)

(** The sum of the words, without a bound. *)
Fixpoint word_sum (ptr : list Z) : Z :=
  match ptr with
  | a :: b :: r => a + 256 * b + word_sum r
  | [a] => a
  | [] => 0
  end.

(** The end-around sum in 16 bits: zero only for zero. *)
Definition fold16 (x : Z) : Z := if x =? 0 then 0 else (x - 1) mod 65535 + 1.

Lemma land_ffff x : Z.land x 0xffff = x mod 65536.
Proof. apply (Z.land_ones x 16). lia. Qed.

Lemma not16_sub x : not16 x = 65535 - x mod 65536.
Proof.
  unfold not16. rewrite land_ffff. unfold Z.lnot. Z.to_euclidean_division_equations; lia.
Qed.

(** Induction two bytes at a time. *)
Lemma pairs_ind (P : list Z -> Prop) :
  P [] -> (forall a, P [a]) -> (forall a b r, P r -> P (a :: b :: r)) -> forall l, P l.
Proof.
  intros H0 H1 H2. assert (H : forall l, P l /\ forall a, P (a :: l)); [|intros l; apply H].
  induction l as [|x l [IH1 IH2]]; [by split|]. split; [apply IH2|]. intros a. by apply H2.
Qed.

Lemma word_sum_range l : Forall is_u8 l -> 0 <= 2 * word_sum l <= 65535 * (Z.of_nat (length l) + 1).
Proof.
  induction l as [|a|a b r IH] using pairs_ind; intros H; simpl word_sum; simpl length.
  - lia.
  - apply Forall_cons in H as [Ha _]. unfold is_u8 in Ha. lia.
  - apply Forall_cons in H as [Ha [Hb Hr]%Forall_cons]. specialize (IH Hr). unfold is_u8 in Ha, Hb. lia.
Qed.

Lemma sum_words_sum l s : Forall is_u8 l -> 0 <= s -> s + word_sum l < 2147483648 ->
  sum_words l s = s + word_sum l.
Proof.
  revert s. induction l as [|a|a b r IH] using pairs_ind; intros s H Hs Hb; simpl word_sum in *.
  - simpl. lia.
  - apply Forall_cons in H as [Ha _]. unfold is_u8 in Ha. simpl. rewrite s32_small; lia.
  - apply Forall_cons in H as [Ha [Hb' Hr]%Forall_cons]. pose proof (word_sum_range r Hr).
    unfold is_u8 in Ha, Hb'. cbn [sum_words]. rewrite s32_small by lia. rewrite IH by (done || lia). lia.
Qed.

Lemma fold16_range x : 0 <= x -> 0 <= fold16 x <= 65535.
Proof. intros. unfold fold16. cmp1; [lia|]. pose proof (Z.mod_pos_bound (x - 1) 65535). lia. Qed.

(** Equal modulo 65535 and zero together. *)
Lemma fold16_eq x y k : 0 <= x -> 0 <= y -> x = y + 65535 * k -> (x = 0 <-> y = 0) -> fold16 x = fold16 y.
Proof.
  intros Hx Hy E Z0. unfold fold16. repeat cmp1; try (exfalso; tauto); [done|].
  subst x. replace (y + 65535 * k - 1) with (y - 1 + k * 65535) by lia. by rewrite Z_mod_plus_full.
Qed.

Lemma fold16_small x : 0 <= x <= 131070 -> fold16 x = if 65535 <? x then x - 65535 else x.
Proof. intros. unfold fold16. repeat cmp1; Z.to_euclidean_division_equations; lia. Qed.

Lemma fold16_congr x : 0 <= x -> exists k, x = fold16 x + 65535 * k /\ (x = 0 <-> fold16 x = 0).
Proof.
  intros Hx. unfold fold16. cmp1; [exists 0; lia|]. exists ((x - 1) / 65535).
  Z.to_euclidean_division_equations; lia.
Qed.

Lemma compute_fold l : Forall is_u8 l -> Z.of_nat (length l) <= 65535 ->
  compute_ip_checksum l = 65535 - fold16 (word_sum l).
Proof.
  intros H L. pose proof (word_sum_range l H) as R. unfold compute_ip_checksum.
  rewrite sum_words_sum by (done || lia). rewrite Z.add_0_l. set (s := word_sum l) in *.
  rewrite land_ffff, !Z.shiftr_div_pow2 by lia. change (2 ^ 16) with 65536. rewrite not16_sub. unfold fold16.
  cmp1; Z.to_euclidean_division_equations; lia.
Qed.

Lemma word_sum_app_even a b : Z.even (Z.of_nat (length a)) = true ->
  word_sum (a ++ b) = word_sum a + word_sum b.
Proof.
  induction a as [|x|x y r IH] using pairs_ind; intros E; [done|discriminate|].
  cbn [app word_sum]. rewrite IH; [lia|]. simpl length in E. rewrite !Nat2Z.inj_succ, Z.even_succ_succ in E. done.
Qed.

Lemma word_sum_head x l : Forall is_u8 l -> x <= word_sum (x :: l).
Proof.
  intros H. destruct H as [|b r Hb Hr]; [simpl; lia|]. pose proof (word_sum_range r Hr).
  unfold is_u8 in Hb. cbn [word_sum]. lia.
Qed.

(** A byte in front moves every byte to the other half of its word. *)
Lemma word_sum_cons l : Forall is_u8 l -> exists k, 0 <= k /\ forall x,
  256 * word_sum l + x = word_sum (x :: l) + 65535 * k /\
  (word_sum l = 0 <-> word_sum (x :: l) = x).
Proof.
  induction l as [|a|a b r IH] using pairs_ind; intros H.
  - exists 0. split; [lia|]. intros x. simpl. lia.
  - exists 0. split; [lia|]. intros x. simpl. lia.
  - apply Forall_cons in H as [Ha [Hb Hr]%Forall_cons]. unfold is_u8 in Ha, Hb.
    destruct (IH Hr) as (k & Hk & E). exists (k + b). split; [lia|]. intros x.
    pose proof (word_sum_range r Hr). destruct (E b) as [E1 E2].
    change (word_sum (x :: a :: b :: r)) with (x + 256 * a + word_sum (b :: r)).
    change (word_sum (a :: b :: r)) with (a + 256 * b + word_sum r).
    pose proof (word_sum_head b r Hr). lia.
Qed.

Lemma word_sum_app_odd a b : Z.even (Z.of_nat (length a)) = false -> Forall is_u8 a -> Forall is_u8 b ->
  exists k, word_sum (a ++ b) + 65535 * k = word_sum a + 256 * word_sum b /\
    (word_sum (a ++ b) = 0 <-> word_sum a + 256 * word_sum b = 0).
Proof.
  intros E Ha Hb. revert E Ha. induction a as [|x|x y r IH] using pairs_ind; intros E Ha; [discriminate| |].
  - destruct (word_sum_cons b Hb) as (k & Hk & W). destruct (W x) as [E1 E2]. exists k.
    apply Forall_cons in Ha as [Hx _]. pose proof (word_sum_range b Hb).
    pose proof (word_sum_head x b Hb). unfold is_u8 in Hx.
    change ([x] ++ b) with (x :: b). change (word_sum [x]) with x. lia.
  - simpl length in E. rewrite !Nat2Z.inj_succ, Z.even_succ_succ in E.
    apply Forall_cons in Ha as [Hx [Hy Hr]%Forall_cons]. destruct (IH E Hr) as (k & E1 & E2).
    pose proof (word_sum_range b Hb). pose proof (word_sum_range r Hr).
    pose proof (word_sum_range (r ++ b) ltac:(by apply Forall_app)). unfold is_u8 in Hx, Hy.
    exists k. cbn [app word_sum]. lia.
Qed.

Lemma swap16 x : 0 <= x <= 65535 ->
  Z.lor (Z.land (Z.shiftr x 8) 0xff) (Z.land (u32 (Z.shiftl x 8)) 0xff00) = x / 256 + 256 * (x mod 256).
Proof.
  intros Hx. rewrite Z.shiftr_div_pow2, Z.shiftl_mul_pow2 by lia. change (2 ^ 8) with 256.
  rewrite u32_small by lia.
  assert (A : Z.land (x / 256) 0xff = x / 256).
  { rewrite (Z.land_ones _ 8) by lia. apply Z.mod_small. change (2 ^ 8) with 256.
    Z.to_euclidean_division_equations; lia. }
  assert (B : Z.land (x * 256) 0xff00 = 256 * (x mod 256)).
  { change (x * 256) with (x * 2 ^ 8). change 0xff00 with (Z.shiftl 0xff 8).
    rewrite <- (Z.shiftl_mul_pow2 x 8), <- Z.shiftl_land by lia.
    change 255 with (Z.ones 8). rewrite Z.land_ones, Z.shiftl_mul_pow2 by lia. change (2 ^ 8) with 256. lia. }
  rewrite A, B, <- Z.add_lor_land.
  replace (Z.land (x / 256) (256 * (x mod 256))) with 0; [lia|]. symmetry. apply Z.bits_inj'. intros n Hn.
  rewrite Z.land_spec, Z.bits_0. replace (256 * (x mod 256)) with (x mod 256 * 2 ^ 8) by lia.
  destruct (Z_lt_le_dec n 8).
  - by rewrite (Z.mul_pow2_bits_low _ 8), andb_false_r by lia.
  - replace (x / 256) with (x / 256 mod 2 ^ 8) by (change (2 ^ 8) with 256; Z.to_euclidean_division_equations; lia).
    by rewrite Z.mod_pow2_bits_high by lia.
Qed.

Lemma add_fold offset f1 f2 : 0 <= f1 <= 65535 -> 0 <= f2 <= 65535 -> 0 <= offset ->
  add_ip_checksums offset (65535 - f1) (65535 - f2) =
  65535 - fold16 (f1 + if Z.even offset then f2 else f2 / 256 + 256 * (f2 mod 256)).
Proof.
  intros H1 H2 Ho. unfold add_ip_checksums. rewrite !not16_sub.
  rewrite !(Z.mod_small (65535 - _)) by lia. rewrite !Z.sub_sub_distr, Z.sub_diag, !Z.add_0_l.
  assert (O : Z.land offset 1 = if Z.even offset then 0 else 1)
    by (rewrite <- Zmod_even; apply (Z.land_ones offset 1); lia).
  rewrite O.
  set (g := if Z.even offset then f2 else f2 / 256 + 256 * (f2 mod 256)).
  assert (G : (if negb ((if Z.even offset then 0 else 1) =? 0) then
    Z.lor (Z.land (Z.shiftr f2 8) 0xff) (Z.land (u32 (Z.shiftl f2 8)) 0xff00) else f2) = g).
  { subst g. destruct (Z.even offset); [done|]. cbn [Z.eqb negb]. by rewrite swap16. }
  rewrite G. assert (0 <= g <= 65535) by (subst g; destruct (Z.even offset); Z.to_euclidean_division_equations; lia).
  rewrite u32_small by lia. rewrite fold16_small by lia.
  cmp1; rewrite Z.mod_small; lia.
Qed.

Lemma checksum_concat a b : Forall is_u8 a -> Forall is_u8 b -> Z.of_nat (length (a ++ b)) <= 65535 ->
  compute_ip_checksum (a ++ b) =
  add_ip_checksums (Z.of_nat (length a)) (compute_ip_checksum a) (compute_ip_checksum b).
Proof.
  intros Ha Hb L. rewrite length_app in L.
  rewrite !compute_fold by (done || (by apply Forall_app) || rewrite ?length_app; lia).
  pose proof (word_sum_range a Ha). pose proof (word_sum_range b Hb).
  pose proof (word_sum_range (a ++ b) ltac:(by apply Forall_app)).
  rewrite add_fold by (try apply fold16_range; lia). f_equal.
  destruct (fold16_congr (word_sum a)) as (ka & Ea & Za); [lia|].
  destruct (fold16_congr (word_sum b)) as (kb & Eb & Zb); [lia|].
  pose proof (fold16_range (word_sum a)). pose proof (fold16_range (word_sum b)).
  destruct (Z.even (Z.of_nat (length a))) eqn:E.
  - rewrite word_sum_app_even by done. apply (fold16_eq _ _ (ka + kb)); lia.
  - destruct (word_sum_app_odd a b E Ha Hb) as (k & W & Wz).
    set (fb := fold16 (word_sum b)) in *.
    apply (fold16_eq _ _ (ka + 256 * kb + fb / 256 - k)); Z.to_euclidean_division_equations; lia.
Qed.

(** A checksum appended on a word boundary makes the whole check. *)
Lemma checksum_verifies a : Forall is_u8 a -> Z.even (Z.of_nat (length a)) = true ->
  Z.of_nat (length a) + 2 <= 65535 ->
  compute_ip_checksum (a ++ le_bytes 2 (compute_ip_checksum a)) = 0.
Proof.
  intros Ha E L. pose proof (word_sum_range a Ha). pose proof (fold16_range (word_sum a)).
  rewrite compute_fold; [|apply Forall_app; split; [done|apply le_bytes_u8]|
    rewrite length_app, length_le_bytes; lia].
  rewrite word_sum_app_even, (compute_fold a) by (done || lia). set (f := fold16 (word_sum a)) in *.
  assert (W : word_sum (le_bytes 2 (65535 - f)) = 65535 - f).
  { cbn [le_bytes word_sum]. Z.to_euclidean_division_equations; lia. }
  rewrite W. destruct (fold16_congr (word_sum a)) as (k & Ek & Zk); [lia|].
  rewrite (fold16_eq _ 65535 k); [done|lia..].
Qed.

(** A message whose sum is one short of all ones passes the check as well. *)
Lemma checksum_off_by_one_accepted : ip_checksum_ok [254; 255] = true /\ ip_checksum_ok [255; 255] = true.
Proof. vm_compute. done. Qed.

(** The Internet checksum of two pieces put together, also at an odd
    offset, is what [add_ip_checksums] makes of the checksums of the pieces, and
    data followed by its own checksum passes [ip_checksum_ok]; for data of up to
    65535 bytes. *)
Theorem ip_checksum_composes a b : Forall is_u8 a -> Forall is_u8 b ->
  Z.of_nat (length (a ++ b)) <= 65533 ->
  compute_ip_checksum (a ++ b) =
    add_ip_checksums (Z.of_nat (length a)) (compute_ip_checksum a) (compute_ip_checksum b) /\
  (Z.even (Z.of_nat (length a)) = true ->
   ip_checksum_ok (a ++ le_bytes 2 (compute_ip_checksum a)) = true).
Proof.
  intros Ha Hb L. split; [apply checksum_concat; done || lia|]. intros E. rewrite length_app in L.
  unfold ip_checksum_ok. rewrite checksum_verifies by (done || lia). done.
Qed.

Lemma ip_checksum_composes_witness :
  compute_ip_checksum ([1; 2; 3] ++ [255; 255; 7]) =
  add_ip_checksums 3 (compute_ip_checksum [1; 2; 3]) (compute_ip_checksum [255; 255; 7]).
Proof.
  apply (ip_checksum_composes [1; 2; 3] [255; 255; 7]); [by apply all_u8|by apply all_u8|simpl; lia].
Defined.

(** ** Text of addresses *)
Lemma number_byte b : is_u8 b -> number b 10 (-1) (-1) SIGN = print_number 10 0 b.
Proof.
  intros Hb. unfold is_u8 in Hb. apply list_eqb_eq.
  refine (all_below_spec (fun b => list_eqb (number b 10 (-1) (-1) SIGN) (print_number 10 0 b)) 256 0 _ b ltac:(lia)).
  vm_compute. reflexivity.
Qed.

Definition dotted (bs : list Z) : str :=
  match bs with
  | [a; b; c; d] => print_number 10 0 a ++ 46 :: print_number 10 0 b ++ 46 :: print_number 10 0 c ++
                    46 :: print_number 10 0 d
  | _ => []
  end.

Lemma shift_in s v : 0 <= s < 16777216 -> is_u8 v ->
  Z.lor (u32 (Z.shiftl s 8)) (Z.land v 0xff) = s * 256 + v.
Proof.
  intros Hs Hv. unfold is_u8 in Hv. rewrite Z.shiftl_mul_pow2 by lia. change (2 ^ 8) with 256.
  rewrite u32_small by lia. change 0xff with (Z.ones 8). rewrite Z.land_ones by lia.
  rewrite (Z.mod_small v) by (change (2 ^ 8) with 256; lia).
  rewrite <- Z.add_lor_land. replace (Z.land (s * 256) v) with 0; [lia|]. symmetry.
  apply Z.bits_inj'. intros n Hn. rewrite Z.land_spec, Z.bits_0. change 256 with (2 ^ 8).
  destruct (Z_lt_le_dec n 8).
  - by rewrite Z.mul_pow2_bits_low by lia.
  - rewrite <- (Z.mod_small v (2 ^ 8)) by (change (2 ^ 8) with 256; lia).
    by rewrite Z.mod_pow2_bits_high, andb_false_r by lia.
Qed.

Lemma dectoul_byte b rest : is_u8 b -> 16 <= decode_digit (at_hd rest) -> tolower (at_hd rest) <> 120 ->
  dectoul (print_number 10 0 b ++ rest) = (b, rest).
Proof. intros Hb Hr Hx. unfold is_u8 in Hb. apply strtoul_print; unfold is_u64; try lia; done. Qed.

Lemma ip_loop_step i b rest s : is_u8 b -> 0 <= s < 16777216 ->
  ip_loop (S (S i)) (print_number 10 0 b ++ 46 :: rest) s = ip_loop (S i) rest (s * 256 + b).
Proof.
  intros Hb Hs. cbn [ip_loop]. rewrite dectoul_byte by (done || (vm_compute; discriminate)).
  unfold is_u8 in Hb. branch. change (at_hd (46 :: rest)) with 46. cbn [Nat.eqb negb andb Z.eqb tl].
  by rewrite shift_in.
Qed.

Lemma ip_loop_last b s : is_u8 b -> 0 <= s < 16777216 ->
  ip_loop 1 (print_number 10 0 b) s = htonl (s * 256 + b).
Proof.
  intros Hb Hs. cbn [ip_loop]. rewrite <- (app_nil_r (print_number 10 0 b)).
  rewrite dectoul_byte by (done || (vm_compute; discriminate)). unfold is_u8 in Hb. branch.
  cbn [Nat.eqb negb andb]. by rewrite shift_in.
Qed.

Lemma string_to_ip_dotted a b c d : is_u8 a -> is_u8 b -> is_u8 c -> is_u8 d ->
  string_to_ip (Some (dotted [a; b; c; d])) = le_val [a; b; c; d].
Proof.
  intros Ha Hb Hc Hd. unfold string_to_ip, dotted. unfold is_u8 in *.
  rewrite !ip_loop_step, ip_loop_last by (unfold is_u8; lia). unfold htonl, ntohl, be_bytes.
  apply (f_equal le_val).
  cbn [le_bytes rev app]. repeat apply (f_equal2 cons); [..|done]; Z.to_euclidean_division_equations; lia.
Qed.

Lemma ntohl_bytes x : is_u32 x -> exists a b c d, le_bytes 4 x = [a; b; c; d] /\
  is_u8 a /\ is_u8 b /\ is_u8 c /\ is_u8 d /\ x = le_val [a; b; c; d] /\
  Z.land (Z.shiftr (ntohl x) 24) 0xff = a /\ Z.land (Z.shiftr (ntohl x) 16) 0xff = b /\
  Z.land (Z.shiftr (ntohl x) 8) 0xff = c /\ Z.land (Z.shiftr (ntohl x) 0) 0xff = d.
Proof.
  intros Hx. pose proof (le_bytes_u8 4 x) as U. pose proof (le_val_bytes 4 x) as V.
  rewrite Z.mod_small in V by (unfold is_u32 in Hx; change (256 ^ Z.of_nat 4) with 4294967296; lia).
  unfold ntohl, be_bytes. destruct (le_bytes 4 x) as [|a [|b [|c [|d [|]]]]] eqn:E; try discriminate.
  exists a, b, c, d. apply Forall_cons in U as [Ua [Ub [Uc [Ud _]%Forall_cons]%Forall_cons]%Forall_cons].
  split_and!; try done; cbn [rev app le_val]; rewrite Z.shiftr_div_pow2 by lia;
    change 0xff with (Z.ones 8); rewrite Z.land_ones by lia; unfold is_u8 in *;
    change (2 ^ 8) with 256; change (2 ^ 24) with 16777216; change (2 ^ 16) with 65536;
    change (2 ^ 0) with 1; Z.to_euclidean_division_equations; lia.
Qed.

Lemma print_byte_length b : is_u8 b -> (length (print_number 10 0 b) <= 3)%nat.
Proof.
  intros Hb. unfold is_u8 in Hb. apply Nat2Z.inj_le. apply Z.leb_le.
  refine (all_below_spec (fun b => Z.of_nat (length (print_number 10 0 b)) <=? Z.of_nat 3) 256 0 _ b ltac:(lia)).
  vm_compute. reflexivity.
Qed.

Lemma fmap_u8 l : Forall is_u8 l -> u8 <$> l = l.
Proof. induction 1 as [|c l Hc Hl IH]; [done|]. rewrite fmap_cons, u8_small by done. f_equal. exact IH. Qed.

Lemma until_zero_app t r : Forall (fun c => c <> 0) t -> until_zero (t ++ 0 :: r) = t.
Proof. induction 1 as [|c t Hc Ht IH]; [done|]. simpl. branch. by rewrite IH. Qed.

(** A text with its terminator at the start of a buffer. *)
Lemma stored_string buf t : Forall is_u8 t -> Forall (fun c => c <> 0) t ->
  (length t < length buf)%nat -> until_zero (write_at buf 0 ((u8 <$> t) ++ [0])) = t.
Proof.
  intros U N L. rewrite fmap_u8 by done.
  assert (E : write_at buf 0 (t ++ [0]) = (t ++ [0]) ++ drop (S (length t)) buf).
  { apply list_eq. intros j. rewrite write_at_lookup by (rewrite ?length_app; simpl; lia).
    case_decide as D; rewrite length_app in D; simpl in D.
    - rewrite (lookup_app_l (t ++ [0])) by (rewrite length_app; simpl; lia). f_equal. lia.
    - rewrite (lookup_app_r (t ++ [0])), lookup_drop by (rewrite length_app; simpl; lia).
      f_equal. rewrite length_app. simpl. lia. }
  rewrite E, <- app_assoc. by apply until_zero_app.
Qed.

Lemma print_ok b : Forall is_u8 (print_number 10 0 b) /\ Forall (fun c => c <> 0) (print_number 10 0 b).
Proof.
  pose proof (print_number_chars 10 0 b ltac:(lia) ltac:(by left)) as C.
  split; (eapply Forall_impl; [exact C|]); simpl; tauto.
Qed.

Lemma addchs_cons e o c t : addchs e o (c :: t) = addchs e (ADDCH e o c) t.
Proof. done. Qed.

Lemma ip_to_string_dotted cfg x buf : is_u32 x -> (16 <= length buf)%nat ->
  exists b, ip_to_string cfg x buf = Some b /\ until_zero b = dotted (le_bytes 4 x).
Proof.
  intros Hx L. destruct (ntohl_bytes x Hx) as (a & b & c & d & E & Ua & Ub & Uc & Ud & V & Ea & Eb & Ec & Ed).
  unfold ip_to_string. rewrite Ea, Eb, Ec, Ed, E.
  pose proof (print_byte_length a Ua). pose proof (print_byte_length b Ub).
  pose proof (print_byte_length c Uc). pose proof (print_byte_length d Ud).
  assert (LD : (length (dotted [a; b; c; d]) <= 15)%nat)
    by (unfold dotted; rewrite !length_app; simpl; rewrite !length_app; simpl; rewrite !length_app; simpl; lia).
  rewrite (sprintf_fits cfg buf _ _ (dotted [a; b; c; d]) [] []).
  - eexists. split; [reflexivity|]. destruct (print_ok a), (print_ok b), (print_ok c), (print_ok d).
    apply stored_string; [| |lia].
    + unfold dotted. repeat (apply Forall_app; split; [done|]; constructor; [unfold is_u8; lia|]). done.
    + unfold dotted. repeat (apply Forall_app; split; [done|]; constructor; [lia|]). done.
  - intros e o. unfold dotted. rewrite <- !number_byte by done.
    assert (S : forall v, is_u8 v -> u64 (s32 v) = v) by (intros v Hv; unfold is_u8 in Hv; rewrite s32_small, u64_small by lia; done).
    rewrite <- (S a), <- (S b), <- (S c), <- (S d) at 2 by done.
    repeat (rewrite addchs_app || rewrite addchs_cons). reflexivity.
  - lia.
  - unfold INT_MAX. lia.
Qed.

(** Ethernet addresses. *)
Definition mac_text (m : list Z) : str :=
  match m with
  | [a; b; c; d; e; f] => field 0 [a] ++ 58 :: field 0 [b] ++ 58 :: field 0 [c] ++ 58 :: field 0 [d] ++
                          58 :: field 0 [e] ++ 58 :: field 0 [f]
  | _ => []
  end.

Lemma hex_byte_pack_field b : is_u8 b -> hex_byte_pack b = field 0 [b].
Proof.
  intros Hb. unfold is_u8 in Hb. apply list_eqb_eq.
  refine (all_below_spec (fun b => list_eqb (hex_byte_pack b) (field 0 [b])) 256 0 _ b ltac:(lia)).
  vm_compute. reflexivity.
Qed.

Lemma field_length1 b : is_u8 b -> length (field 0 [b]) = 2%nat.
Proof. intros H. apply (length_field 0 [b] 1); [by rewrite Forall_singleton|done]. Qed.

Lemma string_plain t : (length t < 1000)%nat -> string (Some t) (-1) (-1) 0 = t.
Proof.
  intros L. unfold string, strnlen. cbn [default]. change (u64 (-1)) with 18446744073709551615.
  change (default NULL_TEXT (Some t)) with t. rewrite (Z.min_l (Z.of_nat (length t))) by lia.
  change (flag 0 LEFT) with false. cbn [negb]. rewrite !pad_neg by lia.
  rewrite Nat2Z.id, firstn_all, app_nil_r. done.
Qed.

Lemma mac_text_length m : Forall is_u8 m -> length m = 6%nat -> length (mac_text m) = 17%nat.
Proof.
  intros U L. do 6 (destruct m as [|? m]; [discriminate|]). destruct m; [|discriminate].
  do 6 (apply Forall_cons in U as [? U]). unfold mac_text.
  do 5 (rewrite length_app, field_length1 by done; cbn [length]). by rewrite field_length1 by done.
Qed.

Lemma mac_address_text m : Forall is_u8 m -> length m = 6%nat ->
  mac_address_string m (-1) (-1) 0 = mac_text m.
Proof.
  intros U L. unfold mac_address_string. match goal with |- string (Some ?t) _ _ _ = _ => assert (E : t = mac_text m) end.
  { do 6 (destruct m as [|? m]; [discriminate|]). destruct m; [|discriminate].
    do 6 (apply Forall_cons in U as [? U]). unfold mac_text. rewrite <- !hex_byte_pack_field by done.
    cbn [flat_map]. rewrite <- !app_assoc. reflexivity. }
  rewrite E. apply string_plain. rewrite mac_text_length by done. lia.
Qed.

Lemma enet_loop_step i b rest : is_u8 b -> 16 <= decode_digit (at_hd rest) -> at_hd rest <> 0 ->
  enet_loop (S i) (Some (field 0 [b] ++ rest)) = b :: enet_loop i (Some (tl rest)).
Proof.
  intros Hb Hr Hn. cbn [enet_loop]. rewrite hextoul_field by (done || (by rewrite Forall_singleton) || (simpl; lia)).
  branch. cbn [negb]. change (be_val [b]) with (b + 256 * 0). rewrite Z.mul_0_r, Z.add_0_r, u8_small by done. done.
Qed.

Lemma enet_loop_last b : is_u8 b -> enet_loop 1 (Some (field 0 [b])) = [b].
Proof.
  intros Hb. cbn [enet_loop]. rewrite <- (app_nil_r (field 0 [b])).
  rewrite hextoul_field by (done || (by rewrite Forall_singleton) || (simpl; lia) || (vm_compute; discriminate)).
  change (be_val [b]) with (b + 256 * 0). by rewrite Z.mul_0_r, Z.add_0_r, u8_small by done.
Qed.

Lemma enet_loop_text m : Forall is_u8 m -> length m = 6%nat -> enet_loop 6 (Some (mac_text m)) = m.
Proof.
  intros U L. do 6 (destruct m as [|? m]; [discriminate|]). destruct m; [|discriminate].
  do 6 (apply Forall_cons in U as [? U]). unfold mac_text.
  do 5 (rewrite enet_loop_step by (done || (vm_compute; discriminate)); cbn [tl]).
  by rewrite enet_loop_last.
Qed.

Lemma enet_parse m buf : Forall is_u8 m -> length m = 6%nat ->
  string_to_enetaddr (Some (mac_text m)) (Some buf) = Some (write_at buf 0 m).
Proof. intros U L. unfold string_to_enetaddr. by rewrite enet_loop_text. Qed.

Lemma write_at_all l bs : length l = length bs -> write_at l 0 bs = bs.
Proof.
  intros L. apply list_eq. intros j. rewrite write_at_lookup by lia. case_decide; [f_equal; lia|].
  rewrite !lookup_ge_None_2 by lia. done.
Qed.

Lemma mac_text_ok m : Forall is_u8 m -> length m = 6%nat ->
  Forall is_u8 (mac_text m) /\ Forall (fun c => c <> 0) (mac_text m).
Proof.
  intros U L. assert (F : forall b, is_u8 b -> Forall (fun c => is_u8 c /\ c <> 0) (field 0 [b])).
  { intros b Hb. unfold field. cbn [flat_map]. rewrite app_nil_r, hex2_chars by done. unfold is_u8 in Hb.
    repeat constructor; apply decode_digit_char; auto; Z.to_euclidean_division_equations; lia. }
  rewrite <- Forall_and. do 6 (destruct m as [|? m]; [discriminate|]). destruct m; [|discriminate].
  do 6 (apply Forall_cons in U as [? U]). unfold mac_text.
  repeat (apply Forall_app; split; [by apply F|]; constructor; [unfold is_u8; lia|]). by apply F.
Qed.

(** Addresses survive their text.  A 32-bit IPv4 address written as text
    into a buffer of sixteen bytes is read back, and an Ethernet address
    printed with %pM is read back from the eighteen bytes that takes. *)
Theorem address_text_roundtrip cfg x m buf16 buf18 buf6 :
  is_u32 x -> (16 <= length buf16)%nat ->
  Forall is_u8 m -> length m = 6%nat -> (18 <= length buf18)%nat -> length buf6 = 6%nat ->
  (exists s, ip_to_string cfg x buf16 = Some s /\ string_to_ip (Some (until_zero s)) = x) /\
  (exists n s, sprintf cfg buf18 [37; 112; 77] [Ptr 1 m] = Result (n, s, []) /\
     string_to_enetaddr (Some (until_zero s)) (Some buf6) = Some m).
Proof.
  intros Hx L1 U L L2 L3. split.
  - destruct (ip_to_string_dotted cfg x buf16 Hx L1) as (s & E & D). exists s. split; [done|]. rewrite D.
    destruct (ntohl_bytes x Hx) as (a & b & c & d & -> & Ua & Ub & Uc & Ud & -> & _).
    by apply string_to_ip_dotted.
  - pose proof (mac_text_length m U L). destruct (mac_text_ok m U L) as [O1 O2]. eexists _, _. split.
    + apply (sprintf_fits cfg buf18 _ _ (mac_text m) [] []); [|lia|unfold INT_MAX; lia].
      intros e o. rewrite <- mac_address_text by done. reflexivity.
    + rewrite stored_string by (done || lia). rewrite enet_parse, write_at_all by congruence. done.
Qed.

Lemma address_text_roundtrip_witness :
  (exists s, ip_to_string plain_cfg 251789322 (replicate 16 0) = Some s /\
     string_to_ip (Some (until_zero s)) = 251789322) /\
  (exists n s, sprintf plain_cfg (replicate 18 1) [37; 112; 77] [Ptr 1 [2; 0; 94; 255; 16; 1]] = Result (n, s, []) /\
     string_to_enetaddr (Some (until_zero s)) (Some (replicate 6 0)) = Some [2; 0; 94; 255; 16; 1]).
Proof.
  apply address_text_roundtrip; [unfold is_u32; lia|simpl; lia|by apply all_u8|done|simpl; lia|done].
Defined.

End NetUtils.
