(* ===== verification/EnvNum.v ===== *)
(** * Numbers and addresses in the environment (env/common.c)

    Variables whose values are numbers or Ethernet addresses, on top of the
    environment store and of the text conversions.  Local arrays start with what
    was on the stack, a parameter. *)

From stdpp Require Import gmap.
From S2P Require Import Prelude Bytes.
From S2P Require Import Hashtable HashEnv EnvAttr EnvStore.
From S2P Require Import Strto Charset Printf Uuid Vsprintf NetUtils.

Module EnvNum.
Import Hashtable HashEnv EnvAttr EnvStore Strto Charset Printf Uuid Vsprintf NetUtils.

Section EnvNum.
Context (hk : hooks) (malloc_ok : bool) (default_environment : list Z) (env_size : Z)
  (pf : Vsprintf.config).

Definition env_set_ulong (g : gd_t) (varname : str) (value : Z) : option (Z * gd_t) :=
  env_set hk malloc_ok g varname (Some (simple_itoa value)).

Definition env_set_hex (stack : list Z) (g : gd_t) (varname : str) (value : Z) : option (Z * gd_t) :=
  '(_, buf, _) ← returned (sprintf pf (take 17 stack) [37; 108; 120] [Int value]);      (* "%lx" *)
  env_set hk malloc_ok g varname (Some (until_zero buf)).

Definition env_get_hex (g : gd_t) (env_addr : list Z) (varname : str) (default_val : Z) : option Z :=
  s ← env_get hk default_environment env_size g env_addr varname;
  Some (match s with
        | None => default_val
        | Some s =>
          let '(value, endp) := hextoul s in
          if Nat.eqb (length endp) (length s) then default_val else value
        end).

Definition env_get_ulong (g : gd_t) (env_addr : list Z) (name : str) (base default_val : Z) : option Z :=
  s ← env_get hk default_environment env_size g env_addr name;
  Some (match s with
        | Some s => (simple_strtoul s base).1
        | None => default_val
        end).

Definition env_get_autostart (g : gd_t) (env_addr : list Z) : option bool :=
  r ← env_get_yesno hk default_environment env_size g env_addr (lit "autostart");
  Some (r =? 1).

(** Whether the address is valid, and the six bytes. *)
Definition eth_env_get_enetaddr (g : gd_t) (env_addr : list Z) (name : str) (enetaddr : list Z)
    : option (bool * list Z) :=
  s ← env_get hk default_environment env_size g env_addr name;
  let m := default enetaddr (string_to_enetaddr s (Some enetaddr)) in
  Some (is_valid_ethaddr m, m).

Definition eth_env_set_enetaddr (stack : list Z) (g : gd_t) (env_addr : list Z) (name : str)
    (enetaddr : list Z) : option (Z * gd_t) :=
  let buf := take 18 stack in
  '(valid, buf) ← eth_env_get_enetaddr g env_addr name buf;
  if valid : bool then Some (- EEXIST, g)
  else
    '(_, buf, _) ← returned (sprintf pf buf [37; 112; 77] [Ptr 1 enetaddr]);            (* "%pM" *)
    env_set hk malloc_ok g name (Some (until_zero buf)).

(** The commands "uuid" and "guid" (lib/uuid.c): the result, what is printed,
    the environment and the state of the random numbers. *)
Definition CMD_RET_USAGE : Z := -1.

Definition do_uuid (rng : option Z) (ticks y : Z) (g : gd_t) (argv : list str)
    : option (Z * str * gd_t * Z) :=
  match argv with
  | [] => None
  | cmd :: args =>
    let str_format := if bool_decide (cmd = lit "uuid") then UUID_STR_FORMAT_STD else UUID_STR_FORMAT_GUID in
    if 2 <? Z.of_nat (length argv) then Some (CMD_RET_USAGE, [], g, y)
    else
      let '(uuid, y) := gen_rand_uuid_str rng ticks y str_format in
      match args with
      | [] => Some (0, uuid ++ [10], g, y)
      | name :: _ => '(_, g) ← env_set hk malloc_ok g name (Some uuid); Some (0, [], g, y)
      end
  end.

End EnvNum.

(** ** What is set is read back *)
Section Roundtrip.
Context (hk : hooks) (Hk : permissive hk) (dflt : list Z) (env_size : Z) (pf : Vsprintf.config).

(** Setting a value that is not empty in a table with room. *)
Lemma env_set_sim g m name (v : str) : sim (env_htab g) m -> flg_env_ready g = true ->
  strchr name EQUALS = None -> at_hd name <> 45 -> refused (env_htab g) m name = false -> v <> [] ->
  exists g', env_set hk true g name (Some v) = Some (0, g') /\
    sim (env_htab g') (<[name := v]> m) /\
    forall addr_bytes, env_get hk dflt env_size g' addr_bytes name = Some (Some v).
Proof using Hk.
  intros S Hr Hn Hd Rf Nv. unfold env_set. rewrite Hr. cbn [negb].
  destruct v as [|c v]; [done|].
  destruct (set_sim hk Hk g m name (c :: v) S Hn Hd) as (g' & E & R & S'). rewrite Rf in E, S'.
  exists g'. split; [done|]. split; [done|]. intros a.
  rewrite (env_get_sim hk dflt env_size a g' _ name S') by congruence. by rewrite lookup_insert_eq.
Qed.

Lemma hex_text_length value : is_u64 value -> (length (print_number 16 32 value) <= 16)%nat.
Proof.
  intros Hv. unfold is_u64 in Hv. unfold print_number, digits_of.
  rewrite length_rev, length_fmap, (rdigits_fuel 16 64) by (try change (16 ^ Z.of_nat 16) with 18446744073709551616; lia).
  clear Hv. generalize 16%nat. intros n. revert value. induction n as [|n IH]; intros value; simpl; [lia|].
  destruct (value <? 16); simpl; [lia|]. specialize (IH (value / 16)). lia.
Qed.

Lemma print_hex_ok value : let t := print_number 16 32 value in
  Forall is_u8 t /\ Forall (fun c => c <> 0) t /\ t <> [].
Proof.
  pose proof (print_number_chars 16 32 value ltac:(lia) ltac:(by right)) as C.
  split_and!; [| |apply print_number_nonempty]; (eapply Forall_impl; [exact C|]); simpl; tauto.
Qed.

Lemma hex_sprintf stack value : is_u64 value -> (17 <= length stack)%nat ->
  exists n b, sprintf pf (take 17 stack) [37; 108; 120] [Int value] = Result (n, b, []) /\
    until_zero b = print_number 16 32 value.
Proof.
  intros Hv L. pose proof (hex_text_length value Hv). destruct (print_hex_ok value) as (O1 & O2 & _).
  assert (length (take 17 stack) = 17%nat) by (rewrite length_take; lia).
  eexists _, _. split.
  - apply (sprintf_fits pf _ _ _ (print_number 16 32 value) [] []); [|lia|unfold INT_MAX; lia].
    intros e o. rewrite <- number_plain by (auto || done). rewrite <- (u64_small value) at 2 by done. reflexivity.
  - apply stored_string; done || lia.
Qed.

Lemma hextoul_print value : is_u64 value -> hextoul (print_number 16 32 value) = (value, []).
Proof.
  intros Hv. rewrite <- (app_nil_r (print_number 16 32 value)).
  apply strtoul_print; done || lia || auto.
Qed.

Lemma dectoul_print value : is_u64 value -> simple_strtoul (print_number 10 0 value) 10 = (value, []).
Proof.
  intros Hv. rewrite <- (app_nil_r (print_number 10 0 value)).
  apply strtoul_print; done || lia || auto.
Qed.

(** Numbers and addresses in the environment.  In a table with room for the
    name, a 64-bit value stored by [env_set_hex] or [env_set_ulong] is read back
    by [env_get_hex] or [env_get_ulong]; a valid Ethernet address stored under a
    name that had none is read back as valid, and a second one is refused. *)
Theorem env_number_roundtrip g m name value mac stack addr_bytes d :
  sim (env_htab g) m -> flg_env_ready g = true -> strchr name EQUALS = None -> at_hd name <> 45 ->
  refused (env_htab g) m name = false -> is_u64 value -> (18 <= length stack)%nat ->
  m !! name = None -> Forall is_u8 mac -> length mac = 6%nat -> is_valid_ethaddr mac = true ->
  (exists g', env_set_hex hk true pf stack g name value = Some (0, g') /\
     env_get_hex hk dflt env_size g' addr_bytes name d = Some value) /\
  (exists g', env_set_ulong hk true g name value = Some (0, g') /\
     env_get_ulong hk dflt env_size g' addr_bytes name 10 d = Some value) /\
  (exists g', eth_env_set_enetaddr hk true dflt env_size pf stack g addr_bytes name mac = Some (0, g') /\
     eth_env_get_enetaddr hk dflt env_size g' addr_bytes name (replicate 6 0) = Some (true, mac) /\
     forall mac2, eth_env_set_enetaddr hk true dflt env_size pf stack g' addr_bytes name mac2 =
       Some (- EEXIST, g')).
Proof using Hk.
  intros S Hr Hn Hd Rf Hv Ls Nm Um Lm Vm. split_and!.
  - destruct (hex_sprintf stack value Hv ltac:(lia)) as (n & b & E & U). destruct (print_hex_ok value) as (_ & _ & N).
    destruct (env_set_sim g m name _ S Hr Hn Hd Rf N) as (g' & E' & _ & G). exists g'.
    unfold env_set_hex, env_get_hex. rewrite E. cbn [returned mbind option_bind]. rewrite U, G. split; [exact E'|].
    cbn [mbind option_bind]. rewrite hextoul_print by done. simpl length at 1.
    destruct (print_number 16 32 value); done.
  - pose proof (print_number_nonempty 10 0 value) as N.
    destruct (env_set_sim g m name _ S Hr Hn Hd Rf N) as (g' & E' & _ & G). exists g'.
    unfold env_set_ulong, env_get_ulong. rewrite simple_itoa_prints, E', G by done. split; [done|].
    cbn [mbind option_bind]. by rewrite dectoul_print.
  - pose proof (mac_text_length mac Um Lm) as L17. destruct (mac_text_ok mac Um Lm) as [O1 O2].
    assert (N : mac_text mac <> []) by (intros X; by rewrite X in L17).
    destruct (env_set_sim g m name _ S Hr Hn Hd Rf N) as (g' & E' & S' & G). exists g'.
    assert (Lt : length (take 18 stack) = 18%nat) by (rewrite length_take; lia).
    assert (V : forall b, (6 <= length b)%nat -> is_valid_ethaddr (write_at b 0 mac) = true).
    { intros b Lb. rewrite <- Vm. unfold is_valid_ethaddr, is_multicast_ethaddr, is_zero_ethaddr.
      rewrite !byteat_write_at, !decide_True by lia. done. }
    unfold eth_env_set_enetaddr, eth_env_get_enetaddr. split_and!.
    + rewrite (env_get_sim hk dflt env_size addr_bytes g m name S Hr), Nm. cbn [mbind option_bind default].
      change (default (take 18 stack) (string_to_enetaddr None (Some (take 18 stack))))
        with (write_at (take 18 stack) 0 (replicate 6 0)).
      set (b0 := write_at (take 18 stack) 0 (replicate 6 0)).
      assert (Z0 : is_valid_ethaddr b0 = false).
      { subst b0. unfold is_valid_ethaddr, is_zero_ethaddr. rewrite !byteat_write_at, !decide_True by (simpl; lia).
        apply andb_false_r. }
      rewrite Z0. assert (Lb : length b0 = 18%nat) by (subst b0; by rewrite length_write_at).
      rewrite (sprintf_fits pf b0 _ _ (mac_text mac) [] []); [| |lia|unfold INT_MAX; lia].
      * cbn [returned mbind option_bind]. rewrite stored_string by (done || lia). exact E'.
      * intros e o. rewrite <- mac_address_text by done. reflexivity.
    + rewrite G. cbn [mbind option_bind]. rewrite enet_parse by done. cbn [from_option id].
      rewrite V by (simpl; lia). by rewrite write_at_all.
    + intros mac2. rewrite G. cbn [mbind option_bind]. rewrite enet_parse by done. cbn [from_option id].
      rewrite V by lia. done.
Qed.

End Roundtrip.

(** A table with one variable, and an address set in it. *)
Lemma env_number_roundtrip_witness : exists g',
  env_set_hex hk0 true plain_cfg (replicate 18 7) g_a [98] 3735928559 = Some (0, g') /\
  env_get_hex hk0 [] 0 g' [] [98] 5 = Some 3735928559.
Proof.
  apply (env_number_roundtrip hk0 hk0_permissive [] 0 plain_cfg g_a {[ [97] := [49] ]} [98] 3735928559
    [2; 0; 94; 255; 16; 1] (replicate 18 7) [] 5).
  - apply one_sim.
  - done.
  - done.
  - done.
  - vm_compute. reflexivity.
  - unfold is_u64. lia.
  - simpl. lia.
  - vm_compute. reflexivity.
  - by apply all_u8.
  - done.
  - vm_compute. reflexivity.
Defined.

End EnvNum.
