(* ===== verification/Gpt.v ===== *)
(** * GUID partition tables (disk/part_efi.c, include/part_efi.h)

    A header is a block of bytes with its fields at fixed offsets, the array of
    partition entries a list of bytes with 128 for each entry.  A block device
    is read and written through the class [BlockDev]: a read that does not
    report all its blocks is [None], a write says whether it reported all of
    them.  [None] from a function means that the code reads outside a buffer.
    Allocation succeeds or not by a parameter.  Numbers are little-endian, as is
    the machine; [lbaint_t] and [size_t] have 64 bits.  Printing is left out. *)

From S2P Require Import Prelude Bytes.
From S2P Require Import Crc Hashtable Strto Charset Uuid.
Local Open Scope uboot_scope.
Local Open Scope Z_scope.

Module Gpt.
Import Crc Hashtable Ctype Charset Uuid.

Definition MSDOS_MBR_SIGNATURE : Z := 0xAA55.
Definition MSDOS_MBR_BOOT_CODE_SIZE : Z := 440.
Definition EFI_PMBR_OSTYPE_EFI_GPT : Z := 0xEE.
Definition GPT_HEADER_SIGNATURE_UBOOT : Z := 0x5452415020494645.
Definition GPT_HEADER_CHROMEOS_IGNORE : Z := 0x454d45524f4e4749.
Definition GPT_HEADER_REVISION_V1 : Z := 0x00010000.
Definition GPT_PRIMARY_PARTITION_TABLE_LBA : Z := 1.
Definition sizeof_gpt_header : Z := 92.
Definition sizeof_gpt_entry : Z := 128.
Definition PARTNAME_SZ : Z := 36.
Definition PART_NAME_LEN : Z := 32.
Definition PART_BOOTABLE : Z := 1.
Definition PART_EFI_SYSTEM_PARTITION : Z := 2.
Definition SIG_TYPE_NONE : Z := 0.
Definition SIG_TYPE_MBR : Z := 1.
Definition SIG_TYPE_GUID : Z := 2.

Definition EFI_GUID (a b c : Z) (d : list Z) : list Z := le_bytes 4 a ++ le_bytes 2 b ++ le_bytes 2 c ++ d.
Definition system_guid : list Z :=
  EFI_GUID 0xC12A7328 0xF81F 0x11d2 [0xBA; 0x4B; 0x00; 0xA0; 0xC9; 0x3E; 0xC9; 0x3B].
Definition partition_basic_data_guid : list Z :=
  EFI_GUID 0xEBD0A0A2 0xB9E5 0x4433 [0x87; 0xC0; 0x68; 0xB6; 0xB7; 0x26; 0x99; 0xC7].

Class BlockDev (D : Type) := {
  dread : D -> Z -> Z -> option (list Z);
  dwrite : D -> Z -> Z -> list Z -> bool * D }.

Record blk_desc := mk_desc {
  lba : Z; blksz : Z; sig_type : Z; mbr_sig : Z; guid_sig : list Z }.

(** ** Fields of the header and of an entry *)
Definition signature (h : list Z) : Z := get_le 8 h 0.
Definition header_size (h : list Z) : Z := get_le 4 h 12.
Definition header_crc32 (h : list Z) : Z := get_le 4 h 16.
Definition my_lba (h : list Z) : Z := get_le 8 h 24.
Definition alternate_lba (h : list Z) : Z := get_le 8 h 32.
Definition first_usable_lba (h : list Z) : Z := get_le 8 h 40.
Definition last_usable_lba (h : list Z) : Z := get_le 8 h 48.
Definition disk_guid (h : list Z) : list Z := sub h 56 16.
Definition partition_entry_lba (h : list Z) : Z := get_le 8 h 72.
Definition num_partition_entries (h : list Z) : Z := get_le 4 h 80.
Definition sizeof_partition_entry (h : list Z) : Z := get_le 4 h 84.
Definition partition_entry_array_crc32 (h : list Z) : Z := get_le 4 h 88.

Definition set_header_crc32 (h : list Z) (x : Z) : list Z := put_le 4 h 16 x.
Definition set_my_lba (h : list Z) (x : Z) : list Z := put_le 8 h 24 x.
Definition set_alternate_lba (h : list Z) (x : Z) : list Z := put_le 8 h 32 x.
Definition set_partition_entry_lba (h : list Z) (x : Z) : list Z := put_le 8 h 72 x.
Definition set_entry_array_crc32 (h : list Z) (x : Z) : list Z := put_le 4 h 88 x.

Definition partition_type_guid (e : list Z) : list Z := sub e 0 16.
Definition unique_partition_guid (e : list Z) : list Z := sub e 16 16.
Definition starting_lba (e : list Z) : Z := get_le 8 e 32.
Definition ending_lba (e : list Z) : Z := get_le 8 e 40.
Definition attributes_raw (e : list Z) : Z := get_le 8 e 48.
Definition partition_name (e : list Z) (i : nat) : Z := get_le 2 e (56 + 2 * Z.of_nat i).
Definition legacy_bios_bootable (e : list Z) : bool := Z.testbit (attributes_raw e) 2.
Definition type_guid_specific (e : list Z) : Z := Z.shiftr (attributes_raw e) 48.

(** The entry at index [i] of an array; [None] outside the allocation. *)
Definition entry_at (gpt_e : list Z) (i : Z) : option (list Z) :=
  if (i + 1) * sizeof_gpt_entry <=? Z.of_nat (length gpt_e)
  then Some (sub gpt_e (i * sizeof_gpt_entry) sizeof_gpt_entry) else None.

(** [PAD_COUNT] of include/memalign.h for [BLOCK_CNT] and [PAD_TO_BLOCKSIZE]. *)
Definition PAD_COUNT (s pad : Z) : Z := u64 (s - 1) / pad + 1.
Definition BLOCK_CNT (size : Z) (desc : blk_desc) : Z := PAD_COUNT size (blksz desc).
Definition PAD_TO_BLOCKSIZE (size : Z) (desc : blk_desc) : Z := u64 (BLOCK_CNT size desc * blksz desc).

(** Buffers are aligned; [None] if the buffer is shorter. *)
Definition efi_crc32 (buf : list Z) (len : Z) : option Z :=
  if len <=? Z.of_nat (length buf) then Some (crc32 0 0 (take (Z.to_nat len) buf)) else None.

(** ** Checks *)
Definition validate_gpt_header (gpt_h : list Z) (lba lastlba : Z) : option Z :=
  if negb (signature gpt_h =? GPT_HEADER_SIGNATURE_UBOOT) then Some (-1)
  else
    let crc32_backup := header_crc32 gpt_h in
    calc_crc32 ← efi_crc32 (set_header_crc32 gpt_h 0) (header_size gpt_h);
    Some (if negb (calc_crc32 =? crc32_backup) then -1
          else if negb (my_lba gpt_h =? lba) then -1
          else if lastlba <? first_usable_lba gpt_h then -1
          else if lastlba <? last_usable_lba gpt_h then -1
          else 0).

Definition validate_gpt_entries (gpt_h gpt_e : list Z) : option Z :=
  calc_crc32 ← efi_crc32 gpt_e (u32 (num_partition_entries gpt_h * sizeof_partition_entry gpt_h));
  Some (if negb (calc_crc32 =? partition_entry_array_crc32 gpt_h) then -1 else 0).

(** The CRC of a header, computed with its field zero. *)
Definition seal_header (gpt_h : list Z) : option (list Z) :=
  let gpt_h := set_header_crc32 gpt_h 0 in
  calc_crc32 ← efi_crc32 gpt_h (header_size gpt_h);
  Some (set_header_crc32 gpt_h calc_crc32).

Definition prepare_backup_gpt_header (gpt_h : list Z) : option (list Z) :=
  let val := my_lba gpt_h in
  let gpt_h := set_my_lba gpt_h (alternate_lba gpt_h) in
  let gpt_h := set_alternate_lba gpt_h val in
  let gpt_h := set_partition_entry_lba gpt_h (u64 (last_usable_lba gpt_h + 1)) in
  seal_header gpt_h.

Definition pmbr_part_valid (mbr : list Z) (i : nat) : bool :=
  let o := 446 + 16 * Z.of_nat i in
  (byteat mbr (o + 4) =? EFI_PMBR_OSTYPE_EFI_GPT) && (get_le 4 mbr (o + 8) =? 1).

Definition is_pmbr_valid (mbr : list Z) : bool :=
  if negb (get_le 2 mbr 510 =? MSDOS_MBR_SIGNATURE) then false
  else existsb (pmbr_part_valid mbr) (seq 0 4).

Definition is_pte_valid (pte : list Z) : bool :=
  negb (bool_decide (partition_type_guid pte = replicate 16 0)).

(** ** Reading a table *)
Section Device.
Context {D : Type} `{BD : BlockDev D} (malloc : Z -> bool).

Definition alloc_read_gpt_entries (d : D) (desc : blk_desc) (pgpt_head : list Z) : option (list Z) :=
  let count := u32 (num_partition_entries pgpt_head * sizeof_partition_entry pgpt_head) in
  if (count =? 0) || negb (malloc (PAD_TO_BLOCKSIZE count desc)) then None
  else dread d (partition_entry_lba pgpt_head) (BLOCK_CNT count desc).

(** The signature of the disk, kept in its descriptor the first time. *)
Definition note_signature (desc : blk_desc) (head mbr : list Z) : blk_desc :=
  if sig_type desc =? SIG_TYPE_NONE then
    if negb (bool_decide (disk_guid head = replicate 16 0)) then
      mk_desc (lba desc) (blksz desc) SIG_TYPE_GUID (mbr_sig desc) (disk_guid head)
    else if negb (get_le 4 mbr 440 =? 0) then
      mk_desc (lba desc) (blksz desc) SIG_TYPE_MBR (get_le 4 mbr 440) (guid_sig desc)
    else desc
  else desc.

(** What is left in the caller's variables: the result, the descriptor, the
    header buffer and the entries (NULL where they were freed). *)
Record valid_result := mk_valid {
  v_ret : Z; v_desc : blk_desc; v_head : list Z; v_pte : option (list Z) }.

Definition is_gpt_valid (d : D) (desc : blk_desc) (at_lba : Z) (head : list Z) (pte : option (list Z))
    : option valid_result :=
  match dread d 0 1 with
  | None => Some (mk_valid 0 desc head pte)
  | Some mbr =>
    match dread d at_lba 1 with
    | None => Some (mk_valid 0 desc head pte)
    | Some head =>
      if signature head =? GPT_HEADER_CHROMEOS_IGNORE then Some (mk_valid 2 desc head pte)
      else
        v ← validate_gpt_header head at_lba (lba desc);
        if negb (v =? 0) then Some (mk_valid 0 desc head pte)
        else
          let desc := note_signature desc head mbr in
          match alloc_read_gpt_entries d desc head with
          | None => Some (mk_valid 0 desc head None)
          | Some e =>
            w ← validate_gpt_entries head e;
            if negb (w =? 0) then Some (mk_valid 0 desc head None)
            else Some (mk_valid 1 desc head (Some e))
          end
    end
  end.

Definition find_valid_gpt (d : D) (desc : blk_desc) (head : list Z) : option valid_result :=
  r ← is_gpt_valid d desc GPT_PRIMARY_PARTITION_TABLE_LBA head None;
  if negb (v_ret r =? 1) then
    b ← is_gpt_valid d (v_desc r) (lba desc -64 1) (v_head r) (v_pte r);
    if negb (v_ret b =? 1) then Some (mk_valid 0 (v_desc b) (v_head b) (v_pte b)) else Some b
  else Some r.

(** ** Information about a partition *)
Definition print_efiname (pte : list Z) : list Z :=
  map (fun i => let c := Z.land (partition_name pte i) 0xff in
                if negb (c =? 0) && negb (isprint c) then 46 else c) (seq 0 36).

Definition get_bootable (p : list Z) : Z :=
  Z.lor (if bool_decide (partition_type_guid p = system_guid) then PART_EFI_SYSTEM_PARTITION else 0)
        (if legacy_bios_bootable p then PART_BOOTABLE else 0).

Record part_info := mk_info {
  i_start : Z; i_size : Z; i_blksz : Z; i_name : str; i_bootable : Z; i_type_flags : Z;
  i_uuid : str; i_type_guid : str }.

(** The buffer for the header holds [stack] before.  The last two strings are
    stored with CONFIG_PARTITION_UUIDS and CONFIG_PARTITION_TYPE_GUID; the type
    name, always "U-Boot", is left out. *)
Definition part_get_info_efi (stack : list Z) (d : D) (desc : blk_desc) (part : Z)
    : option (Z + part_info) :=
  if part <? 1 then Some (inl (- EINVAL))
  else
    r ← find_valid_gpt d desc stack;
    if negb (v_ret r =? 1) then Some (inl (- EINVAL))
    else if num_partition_entries (v_head r) <? part then Some (inl (- EPERM))
    else
      pte ← v_pte r;
      e ← entry_at pte (part - 1);
      if negb (is_pte_valid e) then Some (inl (- EPERM))
      else Some (inr (mk_info (starting_lba e) (ending_lba e + 1 -64 starting_lba e) (blksz desc)
        (take 31 (until_zero (print_efiname e))) (get_bootable e) (type_guid_specific e)
        (uuid_bin_to_str (unique_partition_guid e) UUID_STR_FORMAT_GUID)
        (uuid_bin_to_str (partition_type_guid e) UUID_STR_FORMAT_GUID))).

Definition get_disk_guid (stack : list Z) (d : D) (desc : blk_desc) : option (Z + str) :=
  r ← find_valid_gpt d desc stack;
  Some (if negb (v_ret r =? 1) then inl (- EINVAL)
        else inr (uuid_bin_to_str (disk_guid (v_head r)) UUID_STR_FORMAT_GUID)).

(** Without CONFIG_TEGRA_PARTITION. *)
Definition part_test_efi (d : D) : Z :=
  match dread d 0 1 with
  | Some mbr => if is_pmbr_valid mbr then 0 else -1
  | None => -1
  end.

(** ** Writing a table *)

(** A write of [n] blocks from the start of a buffer; the rest happens if all
    of them are reported. *)
Definition wr (d : D) (desc : blk_desc) (start n : Z) (buf : list Z) : bool * D :=
  dwrite d start n (sub buf 0 (n * blksz desc)).

Definition protective_mbr (desc : blk_desc) (mbr : list Z) : list Z :=
  let p := write_at mbr MSDOS_MBR_BOOT_CODE_SIZE (replicate 72 0) in
  let p := put_le 2 p 510 MSDOS_MBR_SIGNATURE in
  let p := write_at p 450 [EFI_PMBR_OSTYPE_EFI_GPT] in
  let p := put_le 4 p 454 1 in
  put_le 4 p 458 (u32 (u32 (lba desc) - 1)).

Definition set_protective_mbr (d : D) (desc : blk_desc) : Z * D :=
  match dread d 0 1 with
  | None => (- EIO, d)
  | Some mbr =>
    let '(ok, d) := wr d desc 0 1 (protective_mbr desc mbr) in
    if ok : bool then (0, d) else (- EIO, d)
  end.

(** The blocks of the entries. *)
Definition pte_blk_cnt (desc : blk_desc) (gpt_h : list Z) : Z :=
  s32 (BLOCK_CNT (num_partition_entries gpt_h * sizeof_gpt_entry) desc).

(** The primary header, sealed; the entries' CRC is stored first.  [header_crc32]
    is not cleared here: the caller's header has it zero. *)
Definition seal_primary (gpt_h gpt_e : list Z) : option (list Z) :=
  crc ← efi_crc32 gpt_e (u32 (num_partition_entries gpt_h * sizeof_partition_entry gpt_h));
  let gpt_h := set_entry_array_crc32 gpt_h crc in
  crc ← efi_crc32 gpt_h (header_size gpt_h);
  Some (set_header_crc32 gpt_h crc).

(** Writes one after the other, until one fails. *)
Fixpoint write_all (d : D) (desc : blk_desc) (ws : list (Z * Z * list Z)) : bool * D :=
  match ws with
  | [] => (true, d)
  | (start, n, buf) :: r =>
    let '(ok, d) := wr d desc start n buf in
    if ok : bool then write_all d desc r else (false, d)
  end.

Definition write_gpt_table (d : D) (desc : blk_desc) (gpt_h gpt_e : list Z) : option (Z * D) :=
  let cnt := pte_blk_cnt desc gpt_h in
  let '(ret, d) := set_protective_mbr d desc in
  if ret <? 0 then Some (- EIO, d)
  else
    h1 ← seal_primary gpt_h gpt_e;
    h2 ← prepare_backup_gpt_header h1;
    let '(ok, d) := write_all d desc
      [(1, 1, h1); (partition_entry_lba h1, cnt, gpt_e);
       (u64 (last_usable_lba h2 + 1), cnt, gpt_e); (my_lba h2, 1, h2)] in
    Some (if ok : bool then 0 else - EIO, d).

(** ** Laying out a table *)

(** What the configuration and the device tree say: [type_guids] is the table
    of names if CONFIG_PARTITION_TYPE_GUID is set. *)
Record gpt_config := mk_gcfg {
  GPT_ENTRY_NUMBERS : Z;
  entries_off : option Z;          (* CONFIG_EFI_PARTITION_ENTRIES_OFF *)
  dt_entries_off : Z;              (* the property of /config, or -EINVAL *)
  type_guids : option guid_table;
  partition_uuids : bool           (* PARTITION_UUIDS *)
}.

Record partition := mk_partition {
  p_start : Z; p_size : Z; p_name : list Z; p_bootable : Z; p_uuid : str; p_type_guid : str }.

Definition name_bytes (name : list Z) : list Z :=
  flat_map (fun k => [byteat name (Z.of_nat k); 0]) (seq 0 32).

(** The attributes and the name of an entry. *)
Definition fill_tail (e : list Z) (p : partition) : list Z :=
  let e := write_at e 48 (replicate 8 0) in
  let e := if negb (Z.land (p_bootable p) PART_BOOTABLE =? 0)
           then write_at e 48 [Z.lor (byteat e 48) 4] else e in
  let e := write_at e 56 (replicate 72 0) in
  write_at e 56 (name_bytes (p_name p)).

Definition fill_uuid (cfg : gpt_config) (e : list Z) (p : partition) : option (list Z) :=
  if partition_uuids cfg then
    let '(ret, bin) := uuid_str_to_bin (type_guids cfg) (p_uuid p) (unique_partition_guid e)
                         UUID_STR_FORMAT_GUID in
    if negb (ret =? 0) then None else Some (write_at e 16 bin)
  else Some e.

Definition fill_type (cfg : gpt_config) (e : list Z) (p : partition) : option (list Z) :=
  match type_guids cfg with
  | Some table =>
    if (0 <? Z.of_nat (length (p_type_guid p))) then
      let '(ret, bin) := uuid_str_to_bin (Some table) (p_type_guid p) (partition_type_guid e)
                           UUID_STR_FORMAT_GUID in
      if negb (ret =? 0) then None else Some (write_at e 0 bin)
    else Some (write_at e 0 partition_basic_data_guid)
  | None => Some (write_at e 0 partition_basic_data_guid)
  end.

(** [None] if the code writes outside the entries, [inl] is the error. *)
Fixpoint fill_ptes (cfg : gpt_config) (desc : blk_desc) (gpt_h gpt_e : list Z)
    (partitions : list partition) (i offset : Z) : option (Z + list Z) :=
  match partitions with
  | [] => Some (inr gpt_e)
  | p :: r =>
    let hdr_start := my_lba gpt_h in
    let hdr_end := hdr_start +64 1 in
    let pte_start := partition_entry_lba gpt_h in
    let pte_end := pte_start +64
      (u32 (num_partition_entries gpt_h * sizeof_partition_entry gpt_h) / blksz desc) in
    let '(start, offset) := if negb (p_start p =? 0) then (p_start p, p_start p +64 p_size p)
                            else (offset, offset +64 p_size p) in
    let stop := start +64 p_size p in
    if (start <? hdr_end) && (hdr_start <? stop) || (start <? pte_end) && (pte_start <? stop)
    then Some (inl (- ENOSPC))
    else
      e ← entry_at gpt_e i;
      let e := put_le 8 e 32 start in
      if last_usable_lba gpt_h +64 1 <? offset then Some (inl (- E2BIG))
      else
        let e := put_le 8 e 40 (if (match r with [] => true | _ => false end) && (p_size p =? 0)
                                then last_usable_lba gpt_h else offset -64 1) in
        match fill_type cfg e p with
        | None => Some (inl (- EINVAL))
        | Some e =>
          match fill_uuid cfg e p with
          | None => Some (inl (- EINVAL))
          | Some e =>
            fill_ptes cfg desc gpt_h (write_at gpt_e (i * sizeof_gpt_entry) (fill_tail e p)) r
              (i + 1) offset
          end
        end
  end.

Definition gpt_fill_pte (cfg : gpt_config) (desc : blk_desc) (gpt_h gpt_e : list Z)
    (partitions : list partition) : option (Z + list Z) :=
  fill_ptes cfg desc gpt_h gpt_e partitions 0 (first_usable_lba gpt_h).

Definition partition_entries_offset (cfg : gpt_config) (desc : blk_desc) : Z :=
  let in_blocks (x : Z) := u32 (u32 (PAD_TO_BLOCKSIZE x desc) / blksz desc) in
  let offset_blks := match entries_off cfg with Some x => in_blocks x | None => 2 end in
  let offset_blks := if negb (dt_entries_off cfg =? - EINVAL)
                     then in_blocks (dt_entries_off cfg) else offset_blks in
  if offset_blks <? 2 then 2 else offset_blks.

(** [inl] is the error. *)
Definition gpt_fill_header (cfg : gpt_config) (desc : blk_desc) (gpt_h : list Z) (str_guid : str)
    : Z + list Z :=
  let h := put_le 8 gpt_h 0 GPT_HEADER_SIGNATURE_UBOOT in
  let h := put_le 4 h 8 GPT_HEADER_REVISION_V1 in
  let h := put_le 4 h 12 sizeof_gpt_header in
  let h := set_my_lba h 1 in
  let h := set_alternate_lba h (lba desc -64 1) in
  let h := put_le 8 h 48 (lba desc -64 34) in
  let h := set_partition_entry_lba h (partition_entries_offset cfg desc) in
  let h := put_le 8 h 40 (partition_entry_lba h +64 32) in
  let h := put_le 4 h 80 (GPT_ENTRY_NUMBERS cfg) in
  let h := put_le 4 h 84 sizeof_gpt_entry in
  let h := set_header_crc32 h 0 in
  let h := set_entry_array_crc32 h 0 in
  let '(ret, bin) := uuid_str_to_bin (type_guids cfg) str_guid (disk_guid h) UUID_STR_FORMAT_GUID in
  if negb (ret =? 0) then inl (-1) else inr (write_at h 56 bin).

Definition gpt_restore (cfg : gpt_config) (d : D) (desc : blk_desc) (str_disk_guid : str)
    (partitions : list partition) : option (Z * D) :=
  let size := PAD_TO_BLOCKSIZE sizeof_gpt_header desc in
  if negb (malloc size) then Some (- ENOMEM, d)
  else
    let gpt_h := replicate (Z.to_nat size) 0 in
    let size := PAD_TO_BLOCKSIZE (GPT_ENTRY_NUMBERS cfg * sizeof_gpt_entry) desc in
    if negb (malloc size) then Some (- ENOMEM, d)
    else
      let gpt_e := replicate (Z.to_nat size) 0 in
      match gpt_fill_header cfg desc gpt_h str_disk_guid with
      | inl err => Some (err, d)
      | inr gpt_h =>
        r ← gpt_fill_pte cfg desc gpt_h gpt_e partitions;
        match r with
        | inl err => Some (err, d)
        | inr gpt_e => write_gpt_table d desc gpt_h gpt_e
        end
      end.

(** ** Verifying and repairing *)
Definition gpt_verify_headers (d : D) (desc : blk_desc) (head : list Z) (pte : option (list Z))
    : option valid_result :=
  r ← is_gpt_valid d desc GPT_PRIMARY_PARTITION_TABLE_LBA head pte;
  if negb (v_ret r =? 1) then Some (mk_valid (-1) (v_desc r) (v_head r) (v_pte r))
  else if negb (alternate_lba (v_head r) =? lba desc -64 1)
  then Some (mk_valid (-1) (v_desc r) (v_head r) None)
  else
    b ← is_gpt_valid d (v_desc r) (lba desc -64 1) (v_head r) None;
    Some (mk_valid (if negb (v_ret b =? 1) then -1 else 0) (v_desc b) (v_head b) (v_pte b)).

Definition restore_primary_gpt_header (cfg : gpt_config) (gpt_h : list Z) (desc : blk_desc)
    : option (list Z) :=
  let val := my_lba gpt_h in
  let gpt_h := set_my_lba gpt_h (alternate_lba gpt_h) in
  let gpt_h := set_alternate_lba gpt_h val in
  let gpt_h := set_partition_entry_lba gpt_h (partition_entries_offset cfg desc) in
  seal_header gpt_h.

(** [gpt_e] is NULL or the entries; a write from NULL has no result. *)
Definition write_one_gpt_table (d : D) (desc : blk_desc) (gpt_h : list Z) (gpt_e : option (list Z))
    : option (Z * D) :=
  let cnt := pte_blk_cnt desc gpt_h in
  let '(ok, d) := wr d desc (my_lba gpt_h) 1 gpt_h in
  if negb ok then Some (-1, d)
  else
    e ← gpt_e;
    let '(ok, d) := wr d desc (partition_entry_lba gpt_h) cnt e in
    Some (if ok : bool then 0 else -1, d).

(** The buffers for the headers hold [s1] and [s2] before. *)
Definition gpt_repair_headers (cfg : gpt_config) (s1 s2 : list Z) (d : D) (desc : blk_desc)
    : option (Z * D) :=
  r1 ← is_gpt_valid d desc GPT_PRIMARY_PARTITION_TABLE_LBA s1 None;
  r2 ← is_gpt_valid d (v_desc r1) (lba desc -64 1) s2 None;
  let is_gpt1_valid := negb (v_ret r1 =? 0) in
  let is_gpt2_valid := negb (v_ret r2 =? 0) in
  if is_gpt1_valid && is_gpt2_valid then Some (0, d)
  else if is_gpt1_valid then
    h ← prepare_backup_gpt_header (v_head r1);
    write_one_gpt_table d desc h (v_pte r1)
  else if is_gpt2_valid then
    h ← restore_primary_gpt_header cfg (v_head r2) desc;
    write_one_gpt_table d desc h (v_pte r2)
  else Some (-1, d).

(** The name at [off] of the entries as a string of at most 37 characters; one
    of 36 characters is read one byte past its end. *)
Fixpoint gpt_convert_efi_name_to_char (n : nat) (gpt_e : list Z) (off : Z) : str :=
  match n with
  | O => []
  | S k => let c := byteat gpt_e off in
           if c =? 0 then [] else c :: gpt_convert_efi_name_to_char k gpt_e (off + 2)
  end.

Fixpoint verify_loop (gpt_head gpt_e : list Z) (partitions : list partition) (i : Z) : option Z :=
  match partitions with
  | [] => Some 0
  | p :: r =>
    if i =? num_partition_entries gpt_head then Some (-1)
    else
      e ← entry_at gpt_e i;
      let efi_str := gpt_convert_efi_name_to_char 37 gpt_e (i * sizeof_gpt_entry + 56) in
      if negb (bool_decide (take 32 efi_str = take 32 (until_zero (p_name p)))) then Some (-1)
      else
        let gpt_part_size := u64 (ending_lba e - starting_lba e + 1) in
        if negb (gpt_part_size =? p_size p) then
          if (match r with [] => true | _ => false end) && (p_size p =? 0)
          then verify_loop gpt_head gpt_e r (i + 1) else Some (-1)
        else if p_start p =? 0 then verify_loop gpt_head gpt_e r (i + 1)
        else if negb (starting_lba e =? p_start p) then Some (-1)
        else verify_loop gpt_head gpt_e r (i + 1)
  end.

Definition gpt_verify_partitions (d : D) (desc : blk_desc) (partitions : list partition)
    (gpt_head : list Z) (gpt_pte : option (list Z)) : option (Z * valid_result) :=
  r ← gpt_verify_headers d desc gpt_head gpt_pte;
  if negb (v_ret r =? 0) then Some (v_ret r, r)
  else
    e ← v_pte r;
    ret ← verify_loop (v_head r) e partitions 0;
    Some (ret, r).

(** ** Tables in a buffer *)
Definition is_valid_gpt_buf (desc : blk_desc) (buf : list Z) : option Z :=
  let gpt_h := drop (Z.to_nat (GPT_PRIMARY_PARTITION_TABLE_LBA * blksz desc)) buf in
  v ← validate_gpt_header gpt_h GPT_PRIMARY_PARTITION_TABLE_LBA (lba desc);
  if negb (v =? 0) then Some (-1)
  else
    let gpt_e := drop (Z.to_nat (partition_entry_lba gpt_h * blksz desc)) buf in
    w ← validate_gpt_entries gpt_h gpt_e;
    Some (if negb (w =? 0) then -1 else 0).

Definition write_mbr_and_gpt_partitions (d : D) (desc : blk_desc) (buf : list Z) : option (Z * D) :=
  v ← is_valid_gpt_buf desc buf;
  if negb (v =? 0) then Some (-1, d)
  else
    let gpt_h := drop (Z.to_nat (GPT_PRIMARY_PARTITION_TABLE_LBA * blksz desc)) buf in
    let gpt_e := drop (Z.to_nat (partition_entry_lba gpt_h * blksz desc)) buf in
    let cnt := s32 (BLOCK_CNT (u32 (num_partition_entries gpt_h * sizeof_partition_entry gpt_h)) desc) in
    h2 ← prepare_backup_gpt_header gpt_h;
    let '(ok, d) := write_all d desc
      [(0, 1, buf); (GPT_PRIMARY_PARTITION_TABLE_LBA, 1, gpt_h); (partition_entry_lba gpt_h, cnt, gpt_e);
       (partition_entry_lba h2, cnt, gpt_e); (my_lba h2, 1, h2)] in
    Some (if ok : bool then 0 else 1, d).

End Device.
End Gpt.
