(* ===== verification/GptTable.v ===== *)
(** * The two copies of a GUID partition table (disk/part_efi.c)

    What a device must promise, the algebra of header fields, and the theorems:
    a table that was written validates in both places and gives back the
    partitions it was made from, the backup copy stands in for a damaged primary
    one, repairing restores the primary copy byte by byte, and an interrupted
    update leaves the old or the new table. *)

From S2P Require Import Prelude Bytes.
From S2P Require Import Crc Hashtable Strto Charset Printf Uuid Gpt.
Local Open Scope uboot_scope.
Local Open Scope Z_scope.

Module GptTable.
Import Crc Hashtable Charset Uuid Gpt.

(** What reading and writing promise, for blocks of [bs] bytes.  A write that
    fails has changed nothing outside its blocks, and one of a single block is
    done or not. *)
Class BlockLaws (D : Type) `{BD : BlockDev D} (bs : Z) := {
  read_bytes d s n l : dread d s n = Some l -> Z.of_nat (length l) = n * bs /\ Forall is_u8 l;
  write_read d s n l d' : dwrite d s n l = (true, d') -> 0 <= s -> 0 < n ->
    Z.of_nat (length l) = n * bs -> Forall is_u8 l -> dread d' s n = Some l;
  write_other d s n l ok d' s' n' : dwrite d s n l = (ok, d') ->
    s' + n' <= s \/ s + n <= s' -> dread d' s' n' = dread d s' n';
  write_one d s l ok d' : dwrite d s 1 l = (ok, d') -> 0 <= s -> Z.of_nat (length l) = bs ->
    Forall is_u8 l -> dread d' s 1 = dread d s 1 \/ dread d' s 1 = Some l }.

(** ** Fields *)
Lemma length_put_le n l o x : length (put_le n l o x) = length l.
Proof. apply length_write_at. Qed.

Lemma get_put_ne n m l o o' x : 0 <= o -> 0 <= o' -> o' + Z.of_nat m <= Z.of_nat (length l) ->
  o + Z.of_nat n <= o' \/ o' + Z.of_nat m <= o -> get_le n (put_le m l o' x) o = get_le n l o.
Proof.
  intros. unfold get_le, put_le. f_equal. apply sub_write_at_out; rewrite ?length_le_bytes; lia.
Qed.

Lemma write_at_twice l o a b : 0 <= o -> length a = length b -> o + Z.of_nat (length b) <= Z.of_nat (length l) ->
  write_at (write_at l o a) o b = write_at l o b.
Proof.
  intros Ho L Hl. apply list_eq. intros j.
  rewrite !write_at_lookup by (rewrite ?length_write_at; lia). repeat case_decide; try done; lia.
Qed.

Lemma put_put_same n l o x y : 0 <= o -> o + Z.of_nat n <= Z.of_nat (length l) ->
  put_le n (put_le n l o x) o y = put_le n l o y.
Proof. intros. apply write_at_twice; rewrite ?length_le_bytes; done || lia. Qed.

Lemma write_at_comm l o a o' b : 0 <= o -> 0 <= o' -> o + Z.of_nat (length a) <= Z.of_nat (length l) ->
  o' + Z.of_nat (length b) <= Z.of_nat (length l) ->
  o + Z.of_nat (length a) <= o' \/ o' + Z.of_nat (length b) <= o ->
  write_at (write_at l o a) o' b = write_at (write_at l o' b) o a.
Proof.
  intros. apply list_eq. intros j. rewrite !write_at_lookup by (rewrite ?length_write_at; lia).
  repeat case_decide; try done; lia.
Qed.

Lemma put_put_comm n l o x m o' y : 0 <= o -> 0 <= o' -> o + Z.of_nat n <= Z.of_nat (length l) ->
  o' + Z.of_nat m <= Z.of_nat (length l) -> o + Z.of_nat n <= o' \/ o' + Z.of_nat m <= o ->
  put_le m (put_le n l o x) o' y = put_le n (put_le m l o' y) o x.
Proof. intros. apply write_at_comm; rewrite ?length_le_bytes; lia. Qed.

Lemma put_get n l o : 0 <= o -> o + Z.of_nat n <= Z.of_nat (length l) -> Forall is_u8 l ->
  put_le n l o (get_le n l o) = l.
Proof.
  intros Ho Hl U. unfold put_le, get_le.
  pose proof (length_sub l o (Z.of_nat n) Ho ltac:(lia) Hl) as L.
  replace n with (length (sub l o (Z.of_nat n))) at 1 by lia.
  rewrite le_bytes_val by (by apply Forall_sub). by apply write_at_sub; lia.
Qed.

Lemma put_le_u8 n l o x : Forall is_u8 l -> Forall is_u8 (put_le n l o x).
Proof. intros. apply Forall_write_at; [done|apply le_bytes_u8]. Qed.

Lemma sub_put_out n l o x k m : 0 <= o -> o + Z.of_nat n <= Z.of_nat (length l) -> 0 <= k ->
  k + m <= o \/ o + Z.of_nat n <= k -> sub (put_le n l o x) k m = sub l k m.
Proof. intros. apply sub_write_at_out; rewrite ?length_le_bytes; lia. Qed.

(** Read a field through updates of the others. *)
Ltac len_ok := rewrite ?length_put_le, ?length_write_at; lia.
Ltac fields :=
  repeat first
    [ rewrite get_put_le by len_ok
    | rewrite get_put_ne by len_ok
    | rewrite length_put_le ].

Ltac unfold_fields :=
  unfold signature, header_size, header_crc32, my_lba, alternate_lba, first_usable_lba, last_usable_lba,
    partition_entry_lba, num_partition_entries, sizeof_partition_entry, partition_entry_array_crc32,
    set_header_crc32, set_my_lba, set_alternate_lba, set_partition_entry_lba, set_entry_array_crc32 in *.

(** ** Sealed headers *)
Definition is_header (bs : Z) (h : list Z) : Prop :=
  Z.of_nat (length h) = bs /\ Forall is_u8 h /\ 512 <= bs.

Lemma efi_crc32_some buf n : 0 <= n <= Z.of_nat (length buf) -> Forall is_u8 buf ->
  exists c, efi_crc32 buf n = Some c /\ 0 <= c < 4294967296.
Proof.
  intros Hn U. unfold efi_crc32. branch. eexists. split; [done|].
  pose proof (crc32_range 0 0 (take (Z.to_nat n) buf)) as R. unfold u32v in R. apply R; [lia|].
  by apply Forall_take.
Qed.

(** A header whose CRC is that of its bytes with the field zero. *)
Definition sealed (h : list Z) : Prop :=
  efi_crc32 (set_header_crc32 h 0) (header_size h) = Some (header_crc32 h).

Lemma seal_header_sealed bs h : is_header bs h -> 0 <= header_size h <= bs ->
  exists h', seal_header h = Some h' /\ is_header bs h' /\ sealed h' /\
    set_header_crc32 h' 0 = set_header_crc32 h 0.
Proof.
  intros (L & U & B) Hs. unfold seal_header.
  assert (S0 : header_size (set_header_crc32 h 0) = header_size h) by (unfold_fields; fields; done).
  rewrite S0.
  destruct (efi_crc32_some (set_header_crc32 h 0) (header_size h)) as (c & Ec & Rc).
  { unfold_fields. rewrite length_put_le. lia. }
  { by apply put_le_u8. }
  rewrite Ec. cbn [mbind option_bind]. eexists. split; [done|].
  assert (Z0 : set_header_crc32 (set_header_crc32 (set_header_crc32 h 0) c) 0 = set_header_crc32 h 0).
  { unfold_fields. rewrite !put_put_same by len_ok. done. }
  split; [|split; [|done]].
  - split; [by unfold_fields; rewrite !length_put_le|]. split; [|done]. by repeat apply put_le_u8.
  - unfold sealed. rewrite Z0.
    assert (S1 : header_size (set_header_crc32 (set_header_crc32 h 0) c) = header_size h)
      by (unfold_fields; fields; done).
    rewrite S1, Ec. f_equal. unfold_fields. fields. rewrite Z.mod_small; [done|].
    change (256 ^ Z.of_nat 4) with 4294967296. lia.
Qed.

(** Fields other than the CRC do not change. *)
Lemma set_crc_fields h x n o : (92 <= length h)%nat -> 0 <= o -> o + Z.of_nat n <= 16 \/ 20 <= o ->
  get_le n (set_header_crc32 h x) o = get_le n h o.
Proof. intros. unfold_fields. apply get_put_ne; lia. Qed.

Lemma same_but_crc h h' n o : (92 <= length h)%nat -> (92 <= length h')%nat ->
  set_header_crc32 h' 0 = set_header_crc32 h 0 -> 0 <= o -> o + Z.of_nat n <= 16 \/ 20 <= o ->
  get_le n h' o = get_le n h o.
Proof. intros L L' E Ho Hd. rewrite <- (set_crc_fields h' 0), E by done. by apply set_crc_fields. Qed.

(** Two sealed headers that agree but for the CRC are the same. *)
Lemma sealed_eq bs h h' : is_header bs h -> is_header bs h' -> sealed h -> sealed h' ->
  set_header_crc32 h' 0 = set_header_crc32 h 0 -> h' = h.
Proof.
  intros (L & U & B) (L' & U' & _) S S' E. unfold sealed in *.
  assert (Hs : header_size h' = header_size h) by (apply same_but_crc; done || lia).
  rewrite E, Hs, S in S'. injection S' as C. 
  assert (X : set_header_crc32 (set_header_crc32 h' 0) (header_crc32 h') =
              set_header_crc32 (set_header_crc32 h 0) (header_crc32 h)) by (rewrite E, C; done).
  unfold_fields. rewrite !put_put_same in X by lia. by rewrite !put_get in X by (done || lia).
Qed.

Lemma validate_sealed bs h at_lba last : is_header bs h -> sealed h ->
  signature h = GPT_HEADER_SIGNATURE_UBOOT -> my_lba h = at_lba ->
  first_usable_lba h <= last -> last_usable_lba h <= last ->
  validate_gpt_header h at_lba last = Some 0.
Proof.
  intros (L & U & B) S E1 E2 E3 E4. unfold validate_gpt_header. rewrite E1, Z.eqb_refl. cbn [negb].
  rewrite S. cbn [mbind option_bind]. rewrite E2, !Z.eqb_refl. cbn [negb]. repeat branch. done.
Qed.

(** The fields of a header that come in one copy and the other. *)
Definition set_place (h : list Z) (my alt ent : Z) : list Z :=
  set_partition_entry_lba (set_alternate_lba (set_my_lba h my) alt) ent.

Lemma set_place_header bs h my alt ent : is_header bs h -> is_header bs (set_place h my alt ent).
Proof.
  intros (L & U & B). unfold set_place. unfold_fields.
  split; [by rewrite !length_put_le|]. split; [by repeat apply put_le_u8|done].
Qed.

(** A field outside of those. *)
Lemma set_place_fields bs h my alt ent n o : is_header bs h -> 0 <= o ->
  o + Z.of_nat n <= 24 \/ 40 <= o /\ o + Z.of_nat n <= 72 \/ 80 <= o ->
  get_le n (set_place h my alt ent) o = get_le n h o.
Proof. intros (L & U & B) Ho Hd. unfold set_place. unfold_fields. fields. done. Qed.

Lemma set_place_twice bs h my alt ent my' alt' ent' : is_header bs h ->
  set_place (set_place h my alt ent) my' alt' ent' = set_place h my' alt' ent'.
Proof.
  intros (L & U & B). unfold set_place. unfold_fields.
  rewrite (put_put_comm 8 (put_le 8 (put_le 8 h 24 my) 32 alt) 72 ent 8 24 my') by len_ok.
  rewrite (put_put_comm 8 (put_le 8 h 24 my) 32 alt 8 24 my') by len_ok.
  rewrite (put_put_same 8 h 24 my my') by len_ok.
  rewrite (put_put_comm 8 (put_le 8 (put_le 8 h 24 my') 32 alt) 72 ent 8 32 alt') by len_ok.
  rewrite (put_put_same 8 (put_le 8 h 24 my') 32 alt alt') by len_ok.
  by rewrite put_put_same by len_ok.
Qed.

Lemma set_place_crc bs h my alt ent x : is_header bs h ->
  set_header_crc32 (set_place h my alt ent) x = set_place (set_header_crc32 h x) my alt ent.
Proof.
  intros (L & U & B). unfold set_place. unfold_fields.
  rewrite (put_put_comm 8 (put_le 8 (put_le 8 h 24 my) 32 alt) 72 ent 4 16 x) by len_ok.
  rewrite (put_put_comm 8 (put_le 8 h 24 my) 32 alt 4 16 x) by len_ok.
  by rewrite (put_put_comm 8 h 24 my 4 16 x) by len_ok.
Qed.

Lemma set_place_same bs h : is_header bs h ->
  set_place h (my_lba h) (alternate_lba h) (partition_entry_lba h) = h.
Proof.
  intros (L & U & B). unfold set_place. unfold_fields.
  rewrite (put_get 8 h 24), (put_get 8 h 32) by (done || lia). by apply put_get; lia || done.
Qed.

Lemma set_place_values bs h my alt ent : is_header bs h -> is_u64 my -> is_u64 alt -> is_u64 ent ->
  my_lba (set_place h my alt ent) = my /\ alternate_lba (set_place h my alt ent) = alt /\
  partition_entry_lba (set_place h my alt ent) = ent.
Proof.
  intros (L & U & B) H1 H2 H3. unfold is_u64 in *. unfold set_place. unfold_fields. fields.
  change (256 ^ Z.of_nat 8) with 18446744073709551616. by rewrite !Z.mod_small by lia.
Qed.

Lemma field_u64 bs h o : is_header bs h -> 0 <= o -> o + 8 <= 512 -> is_u64 (get_le 8 h o).
Proof. intros (L & U & B) Ho Hl. apply (get_le_range 8 h o U); lia. Qed.

(** The backup header of a primary one. *)
Lemma prepare_backup_spec bs h1 : is_header bs h1 -> 0 <= header_size h1 <= bs ->
  exists h2, prepare_backup_gpt_header h1 = Some h2 /\ is_header bs h2 /\ sealed h2 /\
    set_header_crc32 h2 0 =
    set_place (set_header_crc32 h1 0) (alternate_lba h1) (my_lba h1) (u64 (last_usable_lba h1 + 1)).
Proof.
  intros H Hs. pose proof H as (L & U & B). unfold prepare_backup_gpt_header.
  change (set_partition_entry_lba (set_alternate_lba (set_my_lba h1 (alternate_lba h1)) (my_lba h1))
    (u64 (last_usable_lba (set_alternate_lba (set_my_lba h1 (alternate_lba h1)) (my_lba h1)) + 1)))
    with (set_place h1 (alternate_lba h1) (my_lba h1)
      (u64 (last_usable_lba (set_alternate_lba (set_my_lba h1 (alternate_lba h1)) (my_lba h1)) + 1))).
  replace (last_usable_lba (set_alternate_lba _ _)) with (last_usable_lba h1)
    by (unfold_fields; fields; done).
  set (x := set_place _ _ _ _). assert (Hx : is_header bs x) by (by apply set_place_header).
  destruct (seal_header_sealed bs x Hx) as (h2 & E & H2 & S2 & C).
  { subst x. unfold header_size. by rewrite (set_place_fields bs) by (done || lia). }
  exists h2. split_and!; try done. rewrite C. subst x. by apply set_place_crc with bs.
Qed.

Lemma restore_primary_spec cfg desc bs h1 h2 : is_header bs h1 -> sealed h1 -> is_header bs h2 ->
  0 <= header_size h1 <= bs -> partition_entries_offset cfg desc = partition_entry_lba h1 ->
  set_header_crc32 h2 0 =
    set_place (set_header_crc32 h1 0) (alternate_lba h1) (my_lba h1) (u64 (last_usable_lba h1 + 1)) ->
  restore_primary_gpt_header cfg h2 desc = Some h1.
Proof.
  intros H1 S1 H2 Hs Ho C. pose proof H1 as (L & U & B). pose proof H2 as (L2 & U2 & _).
  assert (F : forall n o, 0 <= o -> o + Z.of_nat n <= 16 \/ 20 <= o ->
    get_le n h2 o = get_le n (set_place h1 (alternate_lba h1) (my_lba h1) (u64 (last_usable_lba h1 + 1))) o).
  { intros n o H0 Hd. apply same_but_crc; try (done || lia).
    - unfold set_place. unfold_fields. rewrite !length_put_le. lia.
    - rewrite C. symmetry. by apply set_place_crc with bs. }
  destruct (set_place_values bs h1 (alternate_lba h1) (my_lba h1) (u64 (last_usable_lba h1 + 1))) as (V1 & V2 & _);
    [done|apply (field_u64 bs); done || lia|apply (field_u64 bs); done || lia|apply u64_range|].
  assert (M2 : my_lba h2 = alternate_lba h1) by (rewrite <- V1; apply F; lia).
  assert (A2 : alternate_lba h2 = my_lba h1) by (rewrite <- V2; apply F; lia).
  unfold restore_primary_gpt_header. rewrite Ho, M2, A2.
  change (set_partition_entry_lba (set_alternate_lba (set_my_lba h2 (my_lba h1)) (alternate_lba h1)) (partition_entry_lba h1))
    with (set_place h2 (my_lba h1) (alternate_lba h1) (partition_entry_lba h1)).
  set (x := set_place _ _ _ _). assert (Hx : is_header bs x) by (by apply set_place_header).
  destruct (seal_header_sealed bs x Hx) as (h' & E & H' & S' & C').
  { subst x. unfold header_size. rewrite (set_place_fields bs) by (done || lia).
    rewrite F, (set_place_fields bs) by (done || lia). exact Hs. }
  rewrite E. f_equal. apply (sealed_eq bs); try done. rewrite C'. subst x.
  rewrite (set_place_crc bs), C by done. rewrite (set_place_twice bs).
  - rewrite <- (set_place_crc bs) by done. by rewrite (set_place_same bs).
  - split; [by unfold_fields; rewrite length_put_le|]. split; [by apply put_le_u8|done].
Qed.

(** ** Writes that do not overlap *)
Definition clear_of (s n : Z) (w : Z * Z * list Z) : Prop :=
  let '(s', n', _) := w in s' + n' <= s \/ s + n <= s'.

Fixpoint apart (ws : list (Z * Z * list Z)) : Prop :=
  match ws with
  | [] => True
  | (s, n, _) :: r => Forall (clear_of s n) r /\ apart r
  end.

Section Device.
Context {D : Type} `{BD : BlockDev D} {bs : Z} {BL : BlockLaws D bs} (malloc : Z -> bool).

Definition write_ok (w : Z * Z * list Z) : Prop :=
  let '(s, n, buf) := w in 0 <= s /\ 0 < n /\ n * bs <= Z.of_nat (length buf) /\ Forall is_u8 buf.

Lemma wr_read d desc s n buf d' : blksz desc = bs -> 0 <= bs -> write_ok (s, n, buf) ->
  wr d desc s n buf = (true, d') -> dread d' s n = Some (sub buf 0 (n * bs)).
Proof.
  intros Hb H0 (Hs & Hn & Hl & U) W. unfold wr in W. rewrite Hb in W.
  apply (write_read (bs := bs) d s n _ d' W Hs Hn); [apply length_sub; nia|by apply Forall_sub].
Qed.

Lemma write_all_other d desc ws ok d' s n : write_all d desc ws = (ok, d') ->
  Forall (clear_of s n) ws -> dread d' s n = dread d s n.
Proof.
  intros W F. revert d W. induction F as [|[[s' n'] buf] ws Hw Hws IH]; intros d; cbn [write_all].
  - by intros [= _ ->].
  - unfold wr. destruct (dwrite d s' n' _) as [ok1 d1] eqn:E.
    pose proof (write_other (bs := bs) _ _ _ _ _ _ s n E) as O.
    destruct ok1; intros W.
    + rewrite (IH _ W). apply O. unfold clear_of in Hw. lia.
    + injection W as _ <-. apply O. unfold clear_of in Hw. lia.
Qed.

Lemma clear_of_sym s n s' n' b b' : clear_of s n (s', n', b) -> clear_of s' n' (s, n, b').
Proof. unfold clear_of. lia. Qed.

Lemma write_all_reads d desc ws d' : blksz desc = bs -> 0 <= bs -> apart ws -> Forall write_ok ws ->
  write_all d desc ws = (true, d') ->
  Forall (fun w => let '(s, n, buf) := w in dread d' s n = Some (sub buf 0 (n * bs))) ws.
Proof.
  intros Hb H0 A F. revert d. induction F as [|[[s n] buf] ws Hw Hws IH]; intros d W; [constructor|].
  cbn [write_all] in W. destruct A as [A1 A2]. destruct (wr d desc s n buf) as [[] d1] eqn:E; [|discriminate].
  constructor; [|by apply (IH A2 d1)].
  rewrite (write_all_other _ _ _ _ _ s n W) by done. by apply (wr_read d desc).
Qed.

(** ** A copy that is there is found valid *)
Lemma is_gpt_valid_ok d desc at_lba head pte mbr h e :
  dread d 0 1 = Some mbr -> dread d at_lba 1 = Some h ->
  validate_gpt_header h at_lba (lba desc) = Some 0 -> signature h = GPT_HEADER_SIGNATURE_UBOOT ->
  (forall n, malloc n = true) ->
  u32 (num_partition_entries h * sizeof_partition_entry h) <> 0 ->
  dread d (partition_entry_lba h)
    (BLOCK_CNT (u32 (num_partition_entries h * sizeof_partition_entry h)) desc) = Some e ->
  validate_gpt_entries h e = Some 0 ->
  is_gpt_valid malloc d desc at_lba head pte =
  Some (mk_valid 1 (note_signature desc h mbr) h (Some e)).
Proof using Type.
  intros R0 R1 V Sg M Nz Re Ve. unfold is_gpt_valid. rewrite R0, R1, Sg. cbn [Z.eqb].
  change (GPT_HEADER_SIGNATURE_UBOOT =? GPT_HEADER_CHROMEOS_IGNORE) with false. cbv iota.
  rewrite V. cbn [mbind option_bind Z.eqb negb]. unfold alloc_read_gpt_entries.
  replace (BLOCK_CNT _ (note_signature desc h mbr)) with
    (BLOCK_CNT (u32 (num_partition_entries h * sizeof_partition_entry h)) desc).
  - branch. rewrite M. cbn [negb orb]. rewrite Re, Ve. done.
  - unfold BLOCK_CNT, note_signature. repeat (destruct (_ =? _) || destruct (negb _)); done.
Qed.

(** ** The copies of a table *)

(** A disk of [L] blocks with the entries of a table of [N] at block [P]: both
    copies have room, and the 32 blocks the code reckons with are enough. *)
Definition room (desc : blk_desc) (P N : Z) : Prop :=
  blksz desc = bs /\ 512 <= bs <= 65536 /\ 1 <= N <= 1048576 /\ N * 128 <= 32 * bs /\
  2 <= P /\ P + 66 <= lba desc /\ lba desc < 9223372036854775808.

(** A header for the copy at block [at_lba] with its entries [e] at [ent]. *)
Definition copy (desc : blk_desc) (P N at_lba ent : Z) (e h : list Z) : Prop :=
  is_header bs h /\ sealed h /\ signature h = GPT_HEADER_SIGNATURE_UBOOT /\ header_size h = 92 /\
  my_lba h = at_lba /\ partition_entry_lba h = ent /\ first_usable_lba h = P + 32 /\
  last_usable_lba h = lba desc - 34 /\ num_partition_entries h = N /\ sizeof_partition_entry h = 128 /\
  efi_crc32 e (N * 128) = Some (partition_entry_array_crc32 h).

Definition cnt (N : Z) : Z := (N * 128 - 1) / bs + 1.

Lemma block_cnt_cnt desc P N : room desc P N ->
  BLOCK_CNT (u32 (N * 128)) desc = cnt N /\ BLOCK_CNT (N * 128) desc = cnt N /\
  u32 (N * 128) = N * 128 /\ 1 <= cnt N <= 32 /\ N * 128 <= cnt N * bs.
Proof using Type.
  intros (Hb & B & HN & Hc & HP & HL & Hm). unfold BLOCK_CNT, PAD_COUNT, cnt. rewrite Hb.
  rewrite (u32_small (N * 128)), (u64_small (N * 128 - 1)) by lia.
  split_and!; try done.
  - assert (0 <= (N * 128 - 1) / bs) by (apply Z.div_pos; lia). lia.
  - assert ((N * 128 - 1) / bs < 32) by (apply Z.div_lt_upper_bound; lia). lia.
  - pose proof (Z.mul_succ_div_gt (N * 128 - 1) bs ltac:(lia)). lia.
Qed.

Lemma copy_valid d desc P N at_lba ent e h head pte mbr :
  room desc P N -> copy desc P N at_lba ent e h -> (forall n, malloc n = true) ->
  dread d 0 1 = Some mbr -> dread d at_lba 1 = Some h -> dread d ent (cnt N) = Some e ->
  is_gpt_valid malloc d desc at_lba head pte =
  Some (mk_valid 1 (note_signature desc h mbr) h (Some e)).
Proof using Type.
  intros R (H & S & Sg & Hs & My & En & Fu & Lu & Nn & Sz & Cr) M R0 R1 R2.
  pose proof (block_cnt_cnt desc P N R) as (B1 & _ & Eu & _). destruct R as (_ & B & HN & _ & HP & HL & Hm).
  apply is_gpt_valid_ok; try done.
  - apply (validate_sealed bs); try done; lia.
  - rewrite Nn, Sz, Eu. lia.
  - by rewrite Nn, Sz, En, B1.
  - unfold validate_gpt_entries. rewrite Nn, Sz, Eu, Cr. cbn [mbind option_bind]. by rewrite Z.eqb_refl.
Qed.

(** A header as [gpt_fill_header] leaves it. *)
Definition fresh (desc : blk_desc) (P N : Z) (h : list Z) : Prop :=
  is_header bs h /\ set_header_crc32 h 0 = h /\ signature h = GPT_HEADER_SIGNATURE_UBOOT /\
  header_size h = 92 /\ my_lba h = 1 /\ alternate_lba h = lba desc - 1 /\ partition_entry_lba h = P /\
  first_usable_lba h = P + 32 /\ last_usable_lba h = lba desc - 34 /\ num_partition_entries h = N /\
  sizeof_partition_entry h = 128.

(** How the backup header comes from the primary one. *)
Definition mirror (h1 h2 : list Z) : Prop :=
  set_header_crc32 h2 0 =
  set_place (set_header_crc32 h1 0) (alternate_lba h1) (my_lba h1) (u64 (last_usable_lba h1 + 1)).

Lemma seal_primary_spec desc P N h e : room desc P N -> fresh desc P N h -> Forall is_u8 e ->
  N * 128 <= Z.of_nat (length e) ->
  exists h1, seal_primary h e = Some h1 /\ copy desc P N 1 P e h1 /\ alternate_lba h1 = lba desc - 1.
Proof using Type.
  intros R (H & Z0 & Sg & Hs & My & Al & En & Fu & Lu & Nn & Sz) U Le.
  pose proof (block_cnt_cnt desc P N R) as (_ & _ & Eu & _ & _). destruct R as (_ & B & HN & _).
  pose proof H as (L & Uh & _). unfold seal_primary. rewrite Nn, Sz, Eu.
  destruct (efi_crc32_some e (N * 128)) as (c & Ec & Rc); [lia|done|]. rewrite Ec. cbn [mbind option_bind].
  set (h' := set_entry_array_crc32 h c).
  assert (H' : is_header bs h').
  { split; [by unfold h'; unfold_fields; rewrite length_put_le|]. split; [by apply put_le_u8|lia]. }
  assert (F : forall n o, 0 <= o -> o + Z.of_nat n <= 88 -> get_le n h' o = get_le n h o).
  { intros n o Ho Hn. unfold h'. unfold_fields. apply get_put_ne; lia. }
  assert (Z1 : set_header_crc32 h' 0 = h').
  { unfold h'. unfold_fields. rewrite put_put_comm by lia. by rewrite Z0. }
  destruct (seal_header_sealed bs h' H') as (h1 & E1 & H1 & S1 & C1).
  { unfold header_size. rewrite F by lia. fold (header_size h). lia. }
  unfold seal_header in E1. rewrite Z1 in E1. rewrite E1. exists h1. split; [done|].
  rewrite Z1 in C1.
  assert (G : forall n o, 0 <= o -> o + Z.of_nat n <= 16 \/ 20 <= o -> get_le n h1 o = get_le n h' o).
  { intros n o Ho Hd. destruct H1 as (L1 & _). destruct H' as (L' & _). apply same_but_crc; try (done || lia).
    by rewrite C1, Z1. }
  split; [|unfold alternate_lba; rewrite G, F by lia; done].
  split_and!; try done; unfold signature, header_size, my_lba, partition_entry_lba, first_usable_lba,
    last_usable_lba, num_partition_entries, sizeof_partition_entry; rewrite ?G, ?F by lia; try done.
  unfold partition_entry_array_crc32. rewrite Ec, G by lia. unfold h'. unfold_fields. fields.
  rewrite Z.mod_small; [done|]. change (256 ^ Z.of_nat 4) with 4294967296. lia.
Qed.

Lemma backup_copy desc P N e h1 : room desc P N -> copy desc P N 1 P e h1 ->
  alternate_lba h1 = lba desc - 1 ->
  exists h2, prepare_backup_gpt_header h1 = Some h2 /\ mirror h1 h2 /\
    copy desc P N (lba desc - 1) (lba desc - 33) e h2.
Proof using Type.
  intros R (H & S & Sg & Hs & My & En & Fu & Lu & Nn & Sz & Cr) Al.
  destruct R as (_ & B & HN & _ & HP & HL & Hm).
  destruct (prepare_backup_spec bs h1 H) as (h2 & E & H2 & S2 & C); [lia|].
  exists h2. split; [done|]. split; [done|].
  assert (F : forall n o, 0 <= o -> o + Z.of_nat n <= 16 \/ 20 <= o ->
    get_le n h2 o = get_le n (set_place h1 (alternate_lba h1) (my_lba h1) (u64 (last_usable_lba h1 + 1))) o).
  { intros n o H0 Hd. destruct H2 as (L2 & _). pose proof H as (L & _). apply same_but_crc; try (done || lia).
    - unfold set_place. unfold_fields. rewrite !length_put_le. lia.
    - rewrite C. symmetry. by apply set_place_crc with bs. }
  destruct (set_place_values bs h1 (alternate_lba h1) (my_lba h1) (u64 (last_usable_lba h1 + 1))) as (V1 & V2 & V3);
    [done|apply (field_u64 bs); done || lia|apply (field_u64 bs); done || lia|apply u64_range|].
  rewrite Lu, u64_small in V3 by lia.
  split_and!; try done; unfold signature, header_size, first_usable_lba, last_usable_lba,
    num_partition_entries, sizeof_partition_entry, partition_entry_array_crc32 in *;
    rewrite ?F, ?(set_place_fields bs) by (done || lia); try done.
  - unfold my_lba in V1. rewrite <- Al, <- V1. unfold my_lba at 1. by rewrite F by lia.
  - unfold partition_entry_lba at 1. rewrite F by lia. unfold partition_entry_lba in V3.
    rewrite Lu, u64_small by lia. rewrite V3. lia.
Qed.

(** ** Writing a table *)
Lemma protective_mbr_ok desc mbr : Z.of_nat (length mbr) = bs -> 512 <= bs -> Forall is_u8 mbr ->
  length (protective_mbr desc mbr) = length mbr /\ Forall is_u8 (protective_mbr desc mbr) /\
  is_pmbr_valid (protective_mbr desc mbr) = true /\
  sub (protective_mbr desc mbr) 0 440 = sub mbr 0 440.
Proof using Type.
  intros L B U. unfold protective_mbr. cbv zeta. split_and!.
  - unfold put_le. by rewrite !length_write_at.
  - repeat apply put_le_u8. apply Forall_write_at; [apply put_le_u8, Forall_write_at; [done|]|].
    + apply all_u8. vm_compute. reflexivity.
    + apply all_u8. vm_compute. reflexivity.
  - unfold is_pmbr_valid. rewrite !get_put_ne by (rewrite ?length_put_le, ?length_write_at, ?length_put_le, ?length_write_at; lia).
    unfold get_le at 1. rewrite sub_write_at_out by (rewrite ?length_put_le, ?length_write_at; simpl; lia).
    fold (get_le 2 (put_le 2 (write_at mbr MSDOS_MBR_BOOT_CODE_SIZE (replicate 72 0)) 510 MSDOS_MBR_SIGNATURE) 510).
    rewrite get_put_le by (rewrite ?length_write_at; lia). change (MSDOS_MBR_SIGNATURE mod 256 ^ Z.of_nat 2 =? MSDOS_MBR_SIGNATURE) with true.
    cbn [negb seq existsb]. apply orb_true_iff. left. unfold pmbr_part_valid. change (446 + 16 * Z.of_nat 0) with 446.
    change (446 + 8) with 454. change (446 + 4) with 450.
    rewrite get_put_ne by (rewrite ?length_put_le, ?length_write_at, ?length_put_le, ?length_write_at; lia).
    rewrite get_put_le by (rewrite ?length_put_le, ?length_write_at, ?length_put_le, ?length_write_at; lia).
    change (1 mod 256 ^ Z.of_nat 4 =? 1) with true. rewrite andb_true_r.
    unfold put_le at 1 2. rewrite !byteat_write_at by
      (rewrite ?length_le_bytes, ?length_write_at, ?length_put_le, ?length_write_at; simpl; lia).
    rewrite !length_le_bytes. repeat (rewrite decide_False by lia). rewrite decide_True by (simpl; lia). done.
  - rewrite !sub_put_out by (rewrite ?length_put_le, ?length_write_at, ?length_put_le, ?length_write_at; lia).
    rewrite sub_write_at_out by (rewrite ?length_put_le, ?length_write_at; simpl; lia).
    rewrite sub_put_out by (rewrite ?length_write_at; lia).
    apply sub_write_at_out; rewrite ?length_replicate; unfold MSDOS_MBR_BOOT_CODE_SIZE; lia.
Qed.

(** A table in two copies, and where they are on a disk. *)
Definition table (desc : blk_desc) (P N : Z) (e h1 h2 : list Z) : Prop :=
  copy desc P N 1 P e h1 /\ alternate_lba h1 = lba desc - 1 /\ mirror h1 h2 /\
  copy desc P N (lba desc - 1) (lba desc - 33) e h2 /\ Z.of_nat (length e) = cnt N * bs /\ Forall is_u8 e.

Definition readable (d : D) : Prop := exists mbr, dread d 0 1 = Some mbr.
Definition primary (d : D) (P N : Z) (e h1 : list Z) : Prop :=
  dread d 1 1 = Some h1 /\ dread d P (cnt N) = Some e.
Definition backup (d : D) (desc : blk_desc) (N : Z) (e h2 : list Z) : Prop :=
  dread d (lba desc - 1) 1 = Some h2 /\ dread d (lba desc - 33) (cnt N) = Some e.

Lemma sub_header h : is_header bs h -> sub h 0 (1 * bs) = h.
Proof using Type. intros (L & _). apply sub_all. lia. Qed.

(** The writes of a table, the protective MBR apart. *)
Definition table_writes (desc : blk_desc) (P N : Z) (e h1 h2 : list Z) : list (Z * Z * list Z) :=
  [(1, 1, h1); (P, cnt N, e); (lba desc - 33, cnt N, e); (lba desc - 1, 1, h2)].

Lemma table_writes_ok desc P N e h1 h2 : room desc P N -> copy desc P N 1 P e h1 ->
  copy desc P N (lba desc - 1) (lba desc - 33) e h2 -> Forall is_u8 e -> Z.of_nat (length e) = cnt N * bs ->
  apart (table_writes desc P N e h1 h2) /\ Forall write_ok (table_writes desc P N e h1 h2) /\
  Forall (clear_of 0 1) (table_writes desc P N e h1 h2).
Proof using Type.
  intros R ((L1 & U1 & _) & _) ((L2 & U2 & _) & _) U Le.
  pose proof (block_cnt_cnt desc P N R) as (_ & _ & _ & C & _).
  destruct R as (_ & B & HN & _ & HP & HL & Hm). unfold table_writes.
  split; [|split].
  - cbn [apart]. repeat split; repeat (constructor; [unfold clear_of; lia|]); constructor.
  - repeat (constructor; [split_and!; done || lia|]). constructor.
  - repeat (constructor; [unfold clear_of; lia|]). constructor.
Qed.

(** What [write_gpt_table] does after the protective MBR. *)
Lemma write_gpt_table_eq d desc P N h e : room desc P N -> fresh desc P N h -> Forall is_u8 e ->
  Z.of_nat (length e) = cnt N * bs ->
  exists h1 h2, seal_primary h e = Some h1 /\ table desc P N e h1 h2 /\
  write_gpt_table d desc h e =
    let '(ret, d) := set_protective_mbr d desc in
    if ret <? 0 then Some (- EIO, d)
    else let '(ok, d) := write_all d desc (table_writes desc P N e h1 h2) in
         Some (if ok : bool then 0 else - EIO, d).
Proof using Type.
  intros R F U Le. pose proof (block_cnt_cnt desc P N R) as (_ & B2 & _ & C & C').
  destruct (seal_primary_spec desc P N h e R F U ltac:(lia)) as (h1 & E1 & C1 & A1).
  destruct (backup_copy desc P N e h1 R C1 A1) as (h2 & E2 & M & C2).
  exists h1, h2. split; [done|]. split; [by split_and!|].
  pose proof R as (Hb & B & HN & _ & HP & HL & Hm).
  unfold write_gpt_table. assert (En : pte_blk_cnt desc h = cnt N).
  { unfold pte_blk_cnt. destruct F as (_ & _ & _ & _ & _ & _ & _ & _ & _ & -> & _).
    change sizeof_gpt_entry with 128. rewrite B2. apply s32_small. lia. }
  rewrite En. destruct (set_protective_mbr d desc) as [ret d1]. destruct (ret <? 0); [done|].
  rewrite E1. cbn [mbind option_bind]. rewrite E2. cbn [mbind option_bind].
  pose proof C1 as (H1 & _ & _ & _ & _ & -> & _ & _). pose proof C2 as (H2 & _ & _ & _ & -> & _ & _ & -> & _).
  rewrite (u64_small (lba desc - 34 + 1)) by lia.
  replace (lba desc - 34 + 1) with (lba desc - 33) by lia. done.
Qed.

(** The protective MBR is there or block 0 is as before. *)
Lemma set_protective_mbr_spec d desc ret d1 : blksz desc = bs -> 512 <= bs ->
  set_protective_mbr d desc = (ret, d1) ->
  (forall s n, 1 <= s -> dread d1 s n = dread d s n) /\ (readable d -> readable d1) /\
  (ret = 0 -> part_test_efi d1 = 0 /\ readable d1) /\ (ret = 0 \/ ret = - EIO).
Proof using BL.
  intros Hb B. unfold set_protective_mbr. destruct (dread d 0 1) as [mbr|] eqn:R0.
  - destruct (read_bytes (bs := bs) d 0 1 mbr R0) as [Lm Um].
    destruct (protective_mbr_ok desc mbr ltac:(lia) ltac:(lia) Um) as (Lp & Up & Vp & _).
    destruct (wr d desc 0 1 (protective_mbr desc mbr)) as [ok d'] eqn:W. intros E.
    assert (d1 = d' /\ ret = if ok then 0 else - EIO) as [-> ->] by (destruct ok; injection E; done).
    pose proof W as W'. unfold wr in W'. split_and!.
    + intros s n Hs. apply (write_other (bs := bs) _ _ _ _ _ _ s n W'). lia.
    + intros _. unfold readable. rewrite Hb, sub_all in W' by lia.
      destruct (write_one (bs := bs) _ _ _ _ _ W' ltac:(lia) ltac:(lia) Up) as [-> | ->]; eauto.
    + destruct ok; [|done]. intros _.
      assert (Ok0 : write_ok (0, 1, protective_mbr desc mbr)) by (unfold write_ok; split_and!; done || lia).
      pose proof (wr_read d desc 0 1 _ d' Hb ltac:(lia) Ok0 W) as Rm. rewrite sub_all in Rm by lia.
      unfold part_test_efi, readable. rewrite Rm, Vp. eauto.
    + destruct ok; auto.
  - intros [= <- <-]. split_and!; try done. by right.
Qed.

Lemma write_gpt_table_spec d desc P N h e d' : room desc P N -> fresh desc P N h -> Forall is_u8 e ->
  Z.of_nat (length e) = cnt N * bs -> write_gpt_table d desc h e = Some (0, d') ->
  exists h1 h2, seal_primary h e = Some h1 /\ table desc P N e h1 h2 /\ primary d' P N e h1 /\ backup d' desc N e h2 /\
    readable d' /\ part_test_efi d' = 0.
Proof using BL.
  intros R F U Le W. destruct (write_gpt_table_eq d desc P N h e R F U Le) as (h1 & h2 & Sp & T & E).
  exists h1, h2. split; [done|]. split; [done|]. rewrite E in W. clear E. destruct T as (C1 & A1 & M & C2 & _).
  pose proof R as (Hb & B & HN & _ & HP & HL & Hm).
  destruct (set_protective_mbr d desc) as [ret d1] eqn:S.
  destruct (set_protective_mbr_spec d desc ret d1 Hb ltac:(lia) S) as (_ & _ & Z & [-> | ->]); [|discriminate].
  destruct (Z eq_refl) as [T0 R0]. cbn [Z.ltb Z.compare] in W.
  destruct (write_all d1 desc (table_writes desc P N e h1 h2)) as [ok d2] eqn:WA.
  destruct ok; [|discriminate]. injection W as <-.
  destruct (table_writes_ok desc P N e h1 h2 R C1 C2 U Le) as (Ap & Ok & Cl).
  pose proof (write_all_reads d1 desc _ _ Hb ltac:(lia) Ap Ok WA) as Rd. unfold table_writes in Rd.
  rewrite !Forall_cons in Rd. destruct Rd as (R1 & R2 & R3 & R4 & _).
  rewrite sub_header in R1, R4 by (apply C1 || apply C2). rewrite sub_all in R2, R3 by lia.
  pose proof (write_all_other _ _ _ _ _ 0 1 WA Cl) as Rm.
  unfold readable, part_test_efi in *. rewrite Rm. by split_and!.
Qed.

(** ** Damage *)
Definition same_disk (desc desc' : blk_desc) : Prop := lba desc' = lba desc /\ blksz desc' = blksz desc.

Lemma note_same desc h mbr : same_disk desc (note_signature desc h mbr).
Proof using Type. unfold note_signature. by repeat (destruct (_ =? _) || destruct (negb _)). Qed.

Lemma same_room desc desc' P N : same_disk desc desc' -> room desc P N -> room desc' P N.
Proof using Type. unfold room. intros [-> ->]. done. Qed.

Lemma same_copy desc desc' P N a ent e h : same_disk desc desc' ->
  copy desc P N a ent e h -> copy desc' P N a ent e h.
Proof using Type. unfold copy. intros [-> _]. done. Qed.

(** The copy at a block is not valid, whoever asks. *)
Definition damaged (d : D) (desc : blk_desc) (at_lba : Z) : Prop :=
  forall desc' head pte, same_disk desc desc' -> exists v,
    is_gpt_valid malloc d desc' at_lba head pte = Some v /\ v_ret v = 0 /\ same_disk desc (v_desc v).

Lemma damaged_signature d desc a mbr h : dread d 0 1 = Some mbr -> dread d a 1 = Some h ->
  signature h <> GPT_HEADER_SIGNATURE_UBOOT -> signature h <> GPT_HEADER_CHROMEOS_IGNORE ->
  damaged d desc a.
Proof using Type.
  intros R0 R1 S1 S2 desc' head pte S. unfold is_gpt_valid, validate_gpt_header. rewrite R0, R1.
  repeat branch. cbn. by eexists.
Qed.

Lemma last_block desc P N : room desc P N -> lba desc -64 1 = lba desc - 1.
Proof using Type. intros (_ & B & HN & _ & HP & HL & Hm). apply u64_small. lia. Qed.

(** A copy that is there is accepted, whoever asks. *)
Lemma copy_accepted d desc desc' P N a ent e h head pte : room desc P N -> same_disk desc desc' ->
  copy desc P N a ent e h -> (forall n, malloc n = true) -> readable d ->
  dread d a 1 = Some h -> dread d ent (cnt N) = Some e ->
  exists v, is_gpt_valid malloc d desc' a head pte = Some v /\ v_ret v = 1 /\ v_head v = h /\
    v_pte v = Some e /\ same_disk desc (v_desc v).
Proof using Type.
  intros R S C M [mbr R0] R1 R2. eexists. split.
  - by apply (copy_valid d desc' P N a ent e h head pte mbr); [eapply same_room|eapply same_copy|..].
  - cbn [v_ret v_head v_pte v_desc]. split_and!; try done.
    unfold same_disk. destruct (note_same desc' h mbr) as [-> ->]. done.
Qed.

(** The primary copy, or else the backup one. *)
Lemma find_primary d desc P N e h head : room desc P N -> copy desc P N 1 P e h ->
  (forall n, malloc n = true) -> readable d -> primary d P N e h ->
  exists v, find_valid_gpt malloc d desc head = Some v /\ v_ret v = 1 /\ v_head v = h /\ v_pte v = Some e.
Proof using Type.
  intros R C M R0 [R1 R2]. unfold find_valid_gpt.
  destruct (copy_accepted d desc desc P N 1 P e h head None R ltac:(done) C M R0 R1 R2) as (v & E & V & Hh & Hp & _).
  unfold GPT_PRIMARY_PARTITION_TABLE_LBA. rewrite E. cbn [mbind option_bind]. rewrite V. by exists v.
Qed.

Lemma find_backup d desc P N e h head : room desc P N ->
  copy desc P N (lba desc - 1) (lba desc - 33) e h ->
  (forall n, malloc n = true) -> readable d -> backup d desc N e h -> damaged d desc 1 ->
  exists v, find_valid_gpt malloc d desc head = Some v /\ v_ret v = 1 /\ v_head v = h /\ v_pte v = Some e.
Proof using Type.
  intros R C M R0 [R1 R2] Dm. unfold find_valid_gpt, GPT_PRIMARY_PARTITION_TABLE_LBA.
  destruct (Dm desc head None ltac:(done)) as (v & E & V & S). rewrite E. cbn [mbind option_bind]. rewrite V.
  cbn [Z.eqb negb]. rewrite (last_block desc P N R).
  destruct (copy_accepted d desc (v_desc v) P N _ _ e h (v_head v) (v_pte v) R S C M R0 R1 R2)
    as (w & E' & V' & Hh & Hp & _).
  rewrite E'. cbn [mbind option_bind]. rewrite V'. by exists w.
Qed.

(** ** Repairing *)
Lemma write_one_spec d desc P N a ent e h : room desc P N -> copy desc P N a ent e h ->
  Z.of_nat (length e) = cnt N * bs -> Forall is_u8 e ->
  0 <= a -> 0 <= ent -> a + 1 <= ent \/ ent + cnt N <= a ->
  exists r d', write_one_gpt_table d desc h (Some e) = Some (r, d') /\
    (r = 0 -> dread d' a 1 = Some h /\ dread d' ent (cnt N) = Some e) /\
    (forall s n, s + n <= a \/ a + 1 <= s -> s + n <= ent \/ ent + cnt N <= s ->
       dread d' s n = dread d s n).
Proof using BL.
  intros R C Le U Ha He Hd. pose proof C as ((Lh & Uh & _) & _ & _ & _ & My & En & _ & _ & Nn & _).
  pose proof (block_cnt_cnt desc P N R) as (_ & B2 & _ & Cn & _). pose proof R as (Hb & B & _).
  unfold write_one_gpt_table, pte_blk_cnt. rewrite Nn, My, En. change sizeof_gpt_entry with 128.
  rewrite B2, s32_small by lia.
  destruct (wr d desc a 1 h) as [ok1 d1] eqn:W1. pose proof W1 as O1. unfold wr in O1.
  destruct ok1; cbn [negb mbind option_bind].
  - destruct (wr d1 desc ent (cnt N) e) as [ok2 d2] eqn:W2. pose proof W2 as O2. unfold wr in O2.
    exists (if ok2 then 0 else -1), d2. split; [done|]. split.
    + destruct ok2; [|done]. intros _.
      rewrite (write_other (bs := bs) _ _ _ _ _ _ a 1 O2) by lia.
      assert (K1 : write_ok (a, 1, h)) by (split_and!; done || lia).
      assert (K2 : write_ok (ent, cnt N, e)) by (split_and!; done || lia).
      rewrite (wr_read d desc a 1 h d1 Hb ltac:(lia) K1 W1), (wr_read d1 desc ent _ e d2 Hb ltac:(lia) K2 W2).
      by rewrite !sub_all by lia.
    + intros s n H1 H2. rewrite (write_other (bs := bs) _ _ _ _ _ _ s n O2) by lia.
      apply (write_other (bs := bs) _ _ _ _ _ _ s n O1). lia.
  - exists (-1), d1. split; [done|]. split; [done|]. intros s n H1 H2.
    apply (write_other (bs := bs) _ _ _ _ _ _ s n O1). lia.
Qed.

(** The backup header is the one the primary header gives. *)
Lemma table_backup_header desc P N e h1 h2 : room desc P N -> table desc P N e h1 h2 ->
  prepare_backup_gpt_header h1 = Some h2.
Proof using Type.
  intros R (C1 & A1 & M & C2 & _). destruct (backup_copy desc P N e h1 R C1 A1) as (h & -> & M' & C).
  f_equal. apply (sealed_eq bs); [apply C2|apply C|apply C2|apply C|]. unfold mirror in *. by rewrite M, M'.
Qed.

Lemma repair_primary cfg d desc P N e h1 h2 s1 s2 : room desc P N -> table desc P N e h1 h2 ->
  partition_entries_offset cfg desc = P -> (forall n, malloc n = true) -> readable d ->
  backup d desc N e h2 -> damaged d desc 1 ->
  exists r d', gpt_repair_headers malloc cfg s1 s2 d desc = Some (r, d') /\
    (r = 0 -> primary d' P N e h1) /\ backup d' desc N e h2 /\ readable d'.
Proof using BL.
  intros R T Po M R0 [B1 B2] Dm. pose proof T as (C1 & A1 & Mi & C2 & Le & U).
  pose proof (block_cnt_cnt desc P N R) as (_ & _ & _ & Cn & _).
  pose proof R as (Hb & B & HN & _ & HP & HL & Hm). unfold gpt_repair_headers, GPT_PRIMARY_PARTITION_TABLE_LBA.
  destruct (Dm desc s1 None ltac:(done)) as (v & -> & V & S). cbn [mbind option_bind].
  rewrite (last_block desc P N R).
  destruct (copy_accepted d desc (v_desc v) P N _ _ e h2 s2 None R S C2 M R0 B1 B2) as (w & -> & V' & Hh & Hp & _).
  cbn [mbind option_bind]. rewrite V, V', Hh, Hp. cbn [Z.eqb negb andb].
  pose proof C1 as (H1 & S1 & _ & Hs & _ & En & _).
  rewrite (restore_primary_spec cfg desc bs h1 h2 H1 S1 (proj1 C2) ltac:(lia) ltac:(by rewrite En) Mi).
  cbn [mbind option_bind].
  destruct (write_one_spec d desc P N 1 P e h1 R C1 Le U) as (r & d' & E & Z0 & O); [lia..|].
  exists r, d'. split; [done|]. split; [done|]. split.
  - split; rewrite O by lia; done.
  - unfold readable. rewrite O by lia. done.
Qed.

Lemma repair_backup cfg d desc P N e h1 h2 s1 s2 : room desc P N -> table desc P N e h1 h2 ->
  (forall n, malloc n = true) -> readable d -> primary d P N e h1 -> damaged d desc (lba desc - 1) ->
  exists r d', gpt_repair_headers malloc cfg s1 s2 d desc = Some (r, d') /\
    (r = 0 -> backup d' desc N e h2) /\ primary d' P N e h1 /\ readable d'.
Proof using BL.
  intros R T M R0 [B1 B2] Dm. pose proof T as (C1 & A1 & Mi & C2 & Le & U).
  pose proof (block_cnt_cnt desc P N R) as (_ & _ & _ & Cn & _).
  pose proof R as (Hb & B & HN & _ & HP & HL & Hm). unfold gpt_repair_headers, GPT_PRIMARY_PARTITION_TABLE_LBA.
  destruct (copy_accepted d desc desc P N 1 P e h1 s1 None R ltac:(done) C1 M R0 B1 B2) as (v & -> & V & Hh & Hp & S).
  cbn [mbind option_bind]. rewrite (last_block desc P N R).
  destruct (Dm (v_desc v) s2 None S) as (w & -> & V' & _). cbn [mbind option_bind]. rewrite V, V', Hh, Hp.
  cbn [Z.eqb negb andb]. rewrite (table_backup_header desc P N e h1 h2 R T). cbn [mbind option_bind].
  destruct (write_one_spec d desc P N (lba desc - 1) (lba desc - 33) e h2 R C2 Le U) as (r & d' & E & Z0 & O); [lia..|].
  exists r, d'. split; [done|]. split; [done|]. split.
  - split; rewrite O by lia; done.
  - unfold readable. rewrite O by lia. done.
Qed.

(** ** Updating *)

(** A good header whose entries cannot be read, or do not match it. *)
Lemma damaged_entries d desc P N e h : room desc P N -> copy desc P N 1 P e h ->
  readable d -> dread d 1 1 = Some h -> (forall n, malloc n = true) ->
  (forall x, dread d P (cnt N) = Some x -> efi_crc32 x (N * 128) <> efi_crc32 e (N * 128)) ->
  damaged d desc 1.
Proof using BL.
  intros R C [mbr R0] R1 M X desc' head pte S.
  pose proof (block_cnt_cnt desc P N R) as (_ & _ & _ & _ & Cl).
  pose proof (same_room _ _ _ _ S R) as R'. pose proof (same_copy _ _ _ _ _ _ _ _ S C) as C'.
  pose proof C' as (H & Se & Sg & Hs & My & En & Fu & Lu & Nn & Sz & Cr).
  pose proof (block_cnt_cnt desc' P N R') as (B1 & _ & Eu & _). pose proof R' as (Hb & B & HN & _ & HP & HL & Hm).
  destruct (note_same desc' h mbr) as [N1 N2].
  assert (Sn : same_disk desc (note_signature desc' h mbr)) by (destruct S; split; congruence).
  unfold is_gpt_valid. rewrite R0, R1, Sg.
  change (GPT_HEADER_SIGNATURE_UBOOT =? GPT_HEADER_CHROMEOS_IGNORE) with false. cbv iota.
  rewrite (validate_sealed bs) by (done || lia). cbn [mbind option_bind Z.eqb negb].
  unfold alloc_read_gpt_entries. rewrite Nn, Sz, En, Eu, M. unfold BLOCK_CNT in *. rewrite N2.
  rewrite Eu in B1. rewrite B1. replace (N * 128 =? 0) with false by lia. cbn [orb negb].
  destruct (dread d P (cnt N)) as [x|] eqn:Rx; [|by eexists].
  destruct (read_bytes (bs := bs) d P (cnt N) x Rx) as [Lx Ux]. specialize (X x eq_refl).
  destruct (efi_crc32_some x (N * 128)) as (c & Ec & _); [lia|done|].
  unfold validate_gpt_entries. rewrite Nn, Sz, Eu, Ec. cbn [mbind option_bind].
  rewrite Ec, Cr in X. destruct (c =? partition_entry_array_crc32 h) eqn:Q; [|by eexists].
  apply Z.eqb_eq in Q. congruence.
Qed.

(** Under a good primary header, the entries found match it or are the backup ones. *)
Lemma find_either d desc P N e h e0 h2 head : room desc P N -> copy desc P N 1 P e h ->
  copy desc P N (lba desc - 1) (lba desc - 33) e0 h2 -> (forall n, malloc n = true) -> readable d ->
  dread d 1 1 = Some h -> backup d desc N e0 h2 ->
  exists v e', find_valid_gpt malloc d desc head = Some v /\ v_ret v = 1 /\
    num_partition_entries (v_head v) = N /\ v_pte v = Some e' /\
    (e' = e0 \/ dread d P (cnt N) = Some e' /\ efi_crc32 e' (N * 128) = efi_crc32 e (N * 128)).
Proof using BL.
  intros R C C2 M R0 R1 Bk.
  assert (K : (exists x, dread d P (cnt N) = Some x /\ efi_crc32 x (N * 128) = efi_crc32 e (N * 128)) \/ damaged d desc 1).
  { destruct (dread d P (cnt N)) as [x|] eqn:Rx.
    - destruct (decide (efi_crc32 x (N * 128) = efi_crc32 e (N * 128))); [left; eauto|right].
      apply (damaged_entries d desc P N e h R C R0 R1 M). intros y. rewrite Rx. by intros [= <-].
    - right. apply (damaged_entries d desc P N e h R C R0 R1 M). by rewrite Rx. }
  destruct K as [(x & Rx & Ex) | Dm].
  - assert (C' : copy desc P N 1 P x h) by (unfold copy in *; rewrite Ex; exact C).
    destruct (find_primary d desc P N x h head R C' M R0 (conj R1 Rx)) as (v & E & V & Eh & Hp).
    exists v, x. split_and!; auto. rewrite Eh. apply C.
  - destruct (find_backup d desc P N e0 h2 head R C2 M R0 Bk Dm) as (v & E & V & Eh & Hp).
    exists v, e0. split_and!; auto. rewrite Eh. apply C2.
Qed.

(** A write to the primary copy leaves the rest. *)
Lemma wr_frame d desc s n buf ok d' s' n' : wr d desc s n buf = (ok, d') ->
  s' + n' <= s \/ s + n <= s' -> dread d' s' n' = dread d s' n'.
Proof using BL. unfold wr. intros W. apply (write_other (bs := bs) _ _ _ _ _ _ s' n' W). Qed.

Lemma wr_keeps_backup d desc P N e0 h2 s n buf ok d' : room desc P N -> 1 <= s ->
  s + n <= lba desc - 33 -> wr d desc s n buf = (ok, d') ->
  readable d -> backup d desc N e0 h2 -> readable d' /\ backup d' desc N e0 h2.
Proof using BL.
  intros R Hs Hn W [mbr R0] [B1 B2]. pose proof (block_cnt_cnt desc P N R) as (_ & _ & _ & Cn & _).
  destruct R as (_ & _ & _ & _ & HP & HL & _).
  split; [exists mbr|split]; rewrite (wr_frame _ _ _ _ _ _ _ _ _ W) by lia; done.
Qed.

(** The entries found after a write was cut off are the new or the old ones. *)
Definition found (d : D) (desc : blk_desc) (N : Z) (head e e0 : list Z) : Prop :=
  exists v e', find_valid_gpt malloc d desc head = Some v /\ v_ret v = 1 /\
    num_partition_entries (v_head v) = N /\ v_pte v = Some e' /\ (e' = e \/ e' = e0).

Lemma found_primary d desc P N e h head e1 e0 : room desc P N -> copy desc P N 1 P e h ->
  (forall n, malloc n = true) -> readable d -> primary d P N e h -> e = e1 \/ e = e0 -> found d desc N head e1 e0.
Proof using Type.
  intros R C M R0 Pr He. destruct (find_primary d desc P N e h head R C M R0 Pr) as (v & E & V & Eh & Hp).
  exists v, e. split_and!; try done. rewrite Eh. apply C.
Qed.

Section Update.
Context (desc : blk_desc) (P N : Z) (e0 h1 h2 e g1 g2 head : list Z).
Hypothesis (R : room desc P N) (T0 : table desc P N e0 h1 h2) (T1 : table desc P N e g1 g2).
Hypothesis (M : forall n, malloc n = true).

(** The write of the primary header was the last one. *)
Lemma cut_at_header d d' : wr d desc 1 1 g1 = (false, d') -> readable d -> backup d desc N e0 h2 ->
  primary d P N e0 h1 -> found d' desc N head e e0.
Proof using All.
  intros W Rd Bk [P1 P2]. pose proof R as (Hb & B & HN & _ & HP & HL & Hm).
  destruct (wr_keeps_backup d desc P N e0 h2 1 1 g1 false d' R ltac:(lia) ltac:(lia) W Rd Bk) as [Rd' Bk'].
  assert (P2' : dread d' P (cnt N) = Some e0) by (by rewrite (wr_frame _ _ _ _ _ _ _ _ _ W) by lia).
  destruct T0 as (C1 & _ & _ & C2 & _), T1 as (K1 & _ & _ & K2 & _). pose proof K1 as ((Lg & Ug & Bg) & _).
  unfold wr in W. rewrite Hb, sub_header in W by apply K1.
  destruct (write_one (bs := bs) _ _ _ _ _ W ltac:(lia) ltac:(lia) Ug) as [Q | Q].
  - rewrite P1 in Q. apply (found_primary d' desc P N e0 h1); auto. by split.
  - destruct (find_either d' desc P N e g1 e0 h2 head R K1 C2 M Rd' Q Bk')
      as (v & e' & Ev & V & Nv & Hp & He); exists v, e'; split_and!; auto.
    destruct He as [-> | [Re _]]; [auto|]. rewrite P2' in Re. injection Re as ->. auto.
Qed.

(** The write of the primary entries was the last one. *)
Lemma cut_at_entries d d' : wr d desc P (cnt N) e = (false, d') -> readable d -> backup d desc N e0 h2 ->
  dread d 1 1 = Some g1 ->
  (forall x, dread d' P (cnt N) = Some x -> efi_crc32 x (N * 128) = efi_crc32 e (N * 128) -> x = e \/ x = e0) ->
  found d' desc N head e e0.
Proof using All.
  intros W Rd Bk P1 X. pose proof R as (Hb & B & HN & _ & HP & HL & Hm).
  pose proof (block_cnt_cnt desc P N R) as (_ & _ & _ & Cn & _).
  destruct (wr_keeps_backup d desc P N e0 h2 P (cnt N) e false d' R ltac:(lia) ltac:(lia) W Rd Bk) as [Rd' Bk'].
  rewrite <- (wr_frame _ _ _ _ _ _ _ 1 1 W) in P1 by lia.
  destruct T0 as (C1 & _ & _ & C2 & _), T1 as (K1 & _ & _ & K2 & _).
  destruct (find_either d' desc P N e g1 e0 h2 head R K1 C2 M Rd' P1 Bk')
    as (v & e' & Ev & V & Nv & Hp & [-> | [Re Ce]]); exists v; eexists; split_and!; eauto.
Qed.

Lemma update_writes d ok d' : readable d -> primary d P N e0 h1 -> backup d desc N e0 h2 ->
  write_all d desc (table_writes desc P N e g1 g2) = (ok, d') ->
  (forall x, dread d' P (cnt N) = Some x -> efi_crc32 x (N * 128) = efi_crc32 e (N * 128) -> x = e \/ x = e0) ->
  found d' desc N head e e0.
Proof using All.
  intros Rd Pr Bk W X. pose proof R as (Hb & B & HN & _ & HP & HL & Hm).
  pose proof (block_cnt_cnt desc P N R) as (_ & _ & _ & Cn & _).
  pose proof T1 as (K1 & _ & _ & K2 & Le & U). pose proof K1 as ((Lg & Ug & _) & _).
  unfold table_writes in W. cbn [write_all] in W.
  destruct (wr d desc 1 1 g1) as [[] d2] eqn:W1; [|injection W as _ <-; by apply (cut_at_header d d2)].
  destruct (wr_keeps_backup d desc P N e0 h2 1 1 g1 true d2 R ltac:(lia) ltac:(lia) W1 Rd Bk) as [Rd2 Bk2].
  assert (Ok1 : write_ok (1, 1, g1)) by (split_and!; done || lia).
  pose proof (wr_read d desc 1 1 g1 d2 Hb ltac:(lia) Ok1 W1) as Q1. rewrite sub_header in Q1 by apply K1.
  destruct (wr d2 desc P (cnt N) e) as [[] d3] eqn:W2; [|injection W as _ <-; by apply (cut_at_entries d2 d3)].
  destruct (wr_keeps_backup d2 desc P N e0 h2 P (cnt N) e true d3 R ltac:(lia) ltac:(lia) W2 Rd2 Bk2) as [[mbr Rd3] _].
  assert (Ok2 : write_ok (P, cnt N, e)) by (split_and!; done || lia).
  pose proof (wr_read d2 desc P (cnt N) e d3 Hb ltac:(lia) Ok2 W2) as Q2. rewrite sub_all in Q2 by lia.
  rewrite <- (wr_frame _ _ _ _ _ _ _ 1 1 W2) in Q1 by lia.
  change (write_all d3 desc [(lba desc - 33, cnt N, e); (lba desc - 1, 1, g2)] = (ok, d')) in W.
  assert (Cl : forall s n, s + n <= lba desc - 33 -> dread d' s n = dread d3 s n).
  { intros s n Hs. apply (write_all_other _ _ _ _ _ _ _ W). repeat constructor; unfold clear_of; lia. }
  apply (found_primary d' desc P N e g1); auto; [exists mbr|split]; rewrite Cl by lia; done.
Qed.
End Update.

Lemma update_found d desc P N e0 h1 h2 h e r d' head : room desc P N -> table desc P N e0 h1 h2 ->
  readable d -> primary d P N e0 h1 -> backup d desc N e0 h2 -> (forall n, malloc n = true) ->
  fresh desc P N h -> Forall is_u8 e -> Z.of_nat (length e) = cnt N * bs ->
  write_gpt_table d desc h e = Some (r, d') ->
  (forall x, dread d' P (cnt N) = Some x -> efi_crc32 x (N * 128) = efi_crc32 e (N * 128) -> x = e \/ x = e0) ->
  found d' desc N head e e0.
Proof using BL.
  intros R T R0 [P1 P2] [B1 B2] M F U Le W X. pose proof T as (C1 & _).
  destruct (write_gpt_table_eq d desc P N h e R F U Le) as (g1 & g2 & _ & Tn & E). rewrite E in W. clear E.
  pose proof (block_cnt_cnt desc P N R) as (_ & _ & _ & Cn & _).
  pose proof R as (Hb & B & HN & _ & HP & HL & Hm).
  destruct (set_protective_mbr d desc) as [ret d1] eqn:S.
  destruct (set_protective_mbr_spec d desc ret d1 Hb ltac:(lia) S) as (O & Rd & _ & Hr). specialize (Rd R0).
  rewrite <- O in P1, P2, B1, B2 by lia.
  destruct Hr as [-> | ->]; cbn [Z.ltb Z.compare] in W.
  - destruct (write_all d1 desc _) as [ok d4] eqn:W3 in W. injection W as _ <-.
    by apply (update_writes desc P N e0 h1 h2 e g1 g2 head R T Tn M d1 ok d4).
  - injection W as _ <-. apply (found_primary d1 desc P N e0 h1); auto. by split.
Qed.

End Device.
End GptTable.
