(* ===== verification/GptLayout.v ===== *)
(** * Laying out, reading back and repairing a GUID partition table

    What [gpt_fill_header] and [gpt_fill_pte] put in a table and what
    [part_get_info_efi] finds in it, the theorems about whole operations of
    disk/part_efi.c, and a disk in memory on which they are tried. *)

From S2P Require Import Prelude Bytes.
From S2P Require Import Crc Hashtable Strto Charset Printf Uuid Gpt GptTable.
Local Open Scope uboot_scope.
Local Open Scope Z_scope.

Module GptLayout.
Import Crc Hashtable Strto.Ctype Charset Uuid Gpt GptTable.

(** ** The header *)
Lemma get_write_out n l o b o' : 0 <= o' -> o' + Z.of_nat (length b) <= Z.of_nat (length l) -> 0 <= o ->
  o + Z.of_nat n <= o' \/ o' + Z.of_nat (length b) <= o -> get_le n (write_at l o' b) o = get_le n l o.
Proof. intros. unfold get_le. f_equal. by apply sub_write_at_out. Qed.

Lemma write_at_over l o a b : 0 <= o -> (length b <= length a)%nat ->
  o + Z.of_nat (length a) <= Z.of_nat (length l) ->
  write_at (write_at l o a) o b = write_at l o (b ++ drop (length b) a).
Proof.
  intros Ho L Hl. apply list_eq. intros j.
  rewrite !write_at_lookup by (rewrite ?length_write_at, ?length_app, ?length_drop; lia).
  rewrite length_app, length_drop. repeat case_decide; try lia; try done.
  - by rewrite lookup_app_l by lia.
  - rewrite lookup_app_r, lookup_drop by lia. f_equal. lia.
Qed.

(** Read past an update of other bytes. *)
Ltac skip_write := rewrite sub_write_at_out by
  (rewrite ?length_write_at; repeat match goal with H : length _ = _ |- _ => rewrite H end; lia).

Section Layout.
Context {D : Type} `{BD : BlockDev D} {bs : Z} {BL : BlockLaws D bs}.
Context (cfg : gpt_config) (desc : blk_desc).

(** The GUID of a string: its digits, or the known GUID of that name. *)
Definition guid_of (s : str) : list Z :=
  (uuid_str_to_bin (type_guids cfg) s (replicate 16 0) UUID_STR_FORMAT_GUID).2.

Lemma guid_found s buf bin : table_ok (type_guids cfg) -> length buf = 16%nat ->
  uuid_str_to_bin (type_guids cfg) s buf UUID_STR_FORMAT_GUID = (0, bin) ->
  bin = guid_of s /\ length bin = 16%nat /\ Forall is_u8 bin.
Proof using Type.
  intros T L E. destruct (str_to_bin_found _ _ _ _ _ T L E) as (Lb & Ub & A).
  split; [|done]. unfold guid_of. by rewrite A.
Qed.

Lemma replicate_u8 n : Forall is_u8 (replicate n 0).
Proof using Type. apply Forall_replicate. unfold is_u8. lia. Qed.

Lemma fill_header_fresh guid P N h : room (bs := bs) desc P N -> table_ok (type_guids cfg) ->
  partition_entries_offset cfg desc = P -> GPT_ENTRY_NUMBERS cfg = N ->
  gpt_fill_header cfg desc (replicate (Z.to_nat (PAD_TO_BLOCKSIZE sizeof_gpt_header desc)) 0) guid = inr h ->
  fresh (bs := bs) desc P N h /\ disk_guid h = guid_of guid.
Proof using Type.
  intros (Hb & B & HN & _ & HP & HL & Hm) T Po Ne E.
  assert (Pad : PAD_TO_BLOCKSIZE sizeof_gpt_header desc = bs).
  { unfold PAD_TO_BLOCKSIZE, BLOCK_CNT, PAD_COUNT, sizeof_gpt_header. rewrite Hb, (u64_small (92 - 1)) by lia.
    rewrite Z.div_small, u64_small by lia. lia. }
  rewrite Pad in E. set (z := replicate (Z.to_nat bs) 0) in E.
  assert (Lz : Z.of_nat (length z) = bs) by (unfold z; rewrite length_replicate; lia).
  assert (Uz : Forall is_u8 z) by apply replicate_u8. clearbody z.
  unfold gpt_fill_header in E. rewrite Po, Ne in E. cbv zeta in E. unfold_fields.
  match type of E with context [uuid_str_to_bin _ _ (disk_guid ?x) _] => set (y := x) in E end.
  assert (Ly : Z.of_nat (length y) = bs) by (unfold y; by rewrite !length_put_le).
  assert (Uy : Forall is_u8 y) by (unfold y; repeat apply put_le_u8; done).
  destruct (uuid_str_to_bin (type_guids cfg) guid (disk_guid y) UUID_STR_FORMAT_GUID) as [ret bin] eqn:G.
  destruct (ret =? 0) eqn:Z0; [|discriminate]. apply Z.eqb_eq in Z0. subst ret. cbn [negb] in E. injection E as <-.
  destruct (guid_found guid (disk_guid y) bin T) as (Eb & Lb & Ub); [|done|].
  { apply Nat2Z.inj. unfold disk_guid. rewrite length_sub; lia. }
  split; [|unfold disk_guid; change 16 with (Z.of_nat 16); rewrite <- Lb, sub_write_at_same by lia; done].
  assert (Hy : forall n o, 0 <= o -> o + Z.of_nat n <= 56 \/ 72 <= o -> get_le n (write_at y 56 bin) o = get_le n y o).
  { intros n o Ho Hd. apply get_write_out; lia. }
  unfold fresh. unfold_fields. rewrite !Hy by lia. split; [|split].
  - split; [by rewrite length_write_at|]. split; [by apply Forall_write_at|lia].
  - rewrite <- (put_get 4 (write_at y 56 bin) 16) at 2 by
      (rewrite ?length_write_at; lia || (by apply Forall_write_at)).
    rewrite Hy by lia. f_equal. unfold y. fields. done.
  - unfold y. fields. change (256 ^ Z.of_nat 8) with 18446744073709551616. change (256 ^ Z.of_nat 4) with 4294967296.
    unfold sizeof_gpt_header, sizeof_gpt_entry. rewrite (u64_small (lba desc - 1)), (u64_small (lba desc - 34)) by lia.
    rewrite !(Z.mod_small P), u64_small by lia.
    split_and!; try reflexivity; rewrite Z.mod_small by lia; done.
Qed.

(** ** An entry *)
Definition type_of (p : partition) : list Z :=
  match type_guids cfg with
  | Some _ => if 0 <? Z.of_nat (length (p_type_guid p)) then guid_of (p_type_guid p)
              else partition_basic_data_guid
  | None => partition_basic_data_guid
  end.

Definition uuid_of (p : partition) : list Z :=
  if partition_uuids cfg then guid_of (p_uuid p) else replicate 16 0.

Definition is_bootable (p : partition) : bool := negb (Z.land (p_bootable p) PART_BOOTABLE =? 0).

(** The entry [e] of partition [p] from block [start] to [stop]. *)
Record filled (p : partition) (start stop : Z) (e : list Z) : Prop := {
  f_length : length e = 128%nat;
  f_u8 : Forall is_u8 e;
  f_start : starting_lba e = start;
  f_stop : ending_lba e = stop;
  f_type : partition_type_guid e = type_of p;
  f_uuid : unique_partition_guid e = uuid_of p;
  f_attr : attributes_raw e = if is_bootable p then 4 else 0;
  f_name : sub e 56 72 = name_bytes (p_name p) ++ replicate 8 0 }.

Definition p_ok (p : partition) : Prop :=
  is_u64 (p_start p) /\ is_u64 (p_size p) /\ length (p_name p) = 32%nat /\ Forall is_u8 (p_name p).

Lemma length_name_bytes n : length (name_bytes n) = 64%nat.
Proof using Type. reflexivity. Qed.

Lemma name_bytes_u8 n : Forall is_u8 n -> Forall is_u8 (name_bytes n).
Proof using Type.
  intros U. unfold name_bytes. apply Forall_forall. intros x. rewrite list_elem_of_In, in_flat_map.
  intros (k & _ & [<- | [<- | []]]); [by apply byteat_u8|unfold is_u8; lia].
Qed.

Lemma fill_type_ok e p e' : table_ok (type_guids cfg) -> length e = 128%nat -> fill_type cfg e p = Some e' ->
  e' = write_at e 0 (type_of p) /\ length (type_of p) = 16%nat /\ Forall is_u8 (type_of p).
Proof using Type.
  intros T L. unfold fill_type, type_of.
  assert (Bd : length partition_basic_data_guid = 16%nat /\ Forall is_u8 partition_basic_data_guid).
  { split; [reflexivity|]. apply all_u8. vm_compute. reflexivity. }
  destruct (type_guids cfg) as [t|] eqn:Et; [|by intros [= <-]].
  destruct (0 <? _); [|by intros [= <-]].
  destruct (uuid_str_to_bin (Some t) (p_type_guid p) (partition_type_guid e) _) as [ret bin] eqn:G.
  destruct (ret =? 0) eqn:Z0; [|discriminate]. apply Z.eqb_eq in Z0. subst. intros [= <-]. rewrite <- Et in G, T.
  assert (Lt : length (partition_type_guid e) = 16%nat).
  { apply Nat2Z.inj. unfold partition_type_guid. rewrite length_sub; lia. }
  destruct (guid_found (p_type_guid p) _ bin T Lt G) as (-> & Lb & Ub). done.
Qed.

Lemma fill_uuid_ok e p e' : table_ok (type_guids cfg) -> length e = 128%nat ->
  unique_partition_guid e = replicate 16 0 -> fill_uuid cfg e p = Some e' ->
  e' = write_at e 16 (uuid_of p) /\ length (uuid_of p) = 16%nat /\ Forall is_u8 (uuid_of p).
Proof using Type.
  intros T L Z. unfold fill_uuid, uuid_of. destruct (partition_uuids cfg).
  - destruct (uuid_str_to_bin _ (p_uuid p) (unique_partition_guid e) _) as [ret bin] eqn:G.
    destruct (ret =? 0) eqn:Z0; [|discriminate]. apply Z.eqb_eq in Z0. subst. intros [= <-].
    assert (Lu : length (unique_partition_guid e) = 16%nat) by (by rewrite Z).
    destruct (guid_found (p_uuid p) _ bin T Lu G) as (-> & Lb & Ub). done.
  - intros [= <-]. rewrite <- Z. unfold unique_partition_guid in *. rewrite write_at_sub by lia.
    rewrite Z. split_and!; [done..|apply replicate_u8].
Qed.

Lemma fill_tail_eq e p : length e = 128%nat ->
  fill_tail e p = write_at (write_at e 48 ((if is_bootable p then 4 else 0) :: replicate 7 0)) 56
                    (name_bytes (p_name p) ++ replicate 8 0).
Proof using Type.
  intros L. unfold fill_tail, is_bootable.
  assert (A : (if negb (Z.land (p_bootable p) PART_BOOTABLE =? 0)
               then write_at (write_at e 48 (replicate 8 0)) 48 [Z.lor (byteat (write_at e 48 (replicate 8 0)) 48) 4]
               else write_at e 48 (replicate 8 0)) =
    write_at e 48 ((if negb (Z.land (p_bootable p) PART_BOOTABLE =? 0) then 4 else 0) :: replicate 7 0)).
  { destruct (negb _); [|done].
    rewrite byteat_write_at by (rewrite ?length_replicate; lia). rewrite decide_True by (rewrite length_replicate; lia).
    rewrite write_at_over by (rewrite ?length_replicate; simpl; lia). done. }
  rewrite A. rewrite write_at_over by (rewrite ?length_write_at, ?length_replicate, ?length_name_bytes; lia).
  rewrite length_name_bytes. done.
Qed.

Lemma fill_entry p start stop e e2 e3 : table_ok (type_guids cfg) -> e = replicate 128 0 ->
  Forall is_u8 (p_name p) -> is_u64 start -> is_u64 stop ->
  fill_type cfg (put_le 8 (put_le 8 e 32 start) 40 stop) p = Some e2 -> fill_uuid cfg e2 p = Some e3 ->
  filled p start stop (fill_tail e3 p).
Proof using Type.
  intros T -> Un Hs Ht E2 E3. set (e1 := put_le 8 (put_le 8 (replicate 128 0) 32 start) 40 stop) in E2.
  assert (L1 : length e1 = 128%nat) by (unfold e1; by rewrite !length_put_le).
  assert (U1 : Forall is_u8 e1) by (unfold e1; repeat apply put_le_u8; apply replicate_u8).
  assert (G1 : get_le 8 e1 32 = start).
  { unfold e1. rewrite get_put_ne, get_put_le by (rewrite ?length_put_le, ?length_replicate; lia). by apply Z.mod_small. }
  assert (G2 : get_le 8 e1 40 = stop).
  { unfold e1. rewrite get_put_le by (rewrite ?length_put_le, ?length_replicate; lia). by apply Z.mod_small. }
  destruct (fill_type_ok e1 p e2 T L1 E2) as (-> & Lt & Ut).
  assert (Zu : unique_partition_guid (write_at e1 0 (type_of p)) = replicate 16 0).
  { unfold unique_partition_guid. rewrite sub_write_at_out by (rewrite ?Lt; lia). unfold e1.
    rewrite !sub_put_out by (rewrite ?length_put_le, ?length_replicate; lia). reflexivity. }
  destruct (fill_uuid_ok _ p e3 T ltac:(by rewrite length_write_at) Zu E3) as (-> & Lu & Uu).
  rewrite fill_tail_eq by (by rewrite !length_write_at).
  set (a := (if is_bootable p then 4 else 0) :: replicate 7 0).
  assert (La : length a = 8%nat) by reflexivity.
  assert (Ua : Forall is_u8 a) by (unfold a; destruct (is_bootable p); apply all_u8; reflexivity).
  assert (Ln : length (name_bytes (p_name p) ++ replicate 8 0) = 72%nat) by reflexivity.
  assert (Nn : Forall is_u8 (name_bytes (p_name p) ++ replicate 8 0)).
  { apply Forall_app. split; [by apply name_bytes_u8|apply replicate_u8]. }
  set (nm := name_bytes (p_name p) ++ replicate 8 0) in *.
  split.
  - by rewrite !length_write_at.
  - do 4 (apply Forall_write_at; [|done]). done.
  - unfold starting_lba, get_le. do 4 skip_write. exact G1.
  - unfold ending_lba, get_le. do 4 skip_write. exact G2.
  - unfold partition_type_guid. do 3 skip_write. replace 16 with (Z.of_nat (length (type_of p))) by lia.
    apply sub_write_at_same; lia.
  - unfold unique_partition_guid. do 2 skip_write. change (sub ?l 16 16) with (sub l 16 (Z.of_nat 16)).
    rewrite <- Lu. apply sub_write_at_same; rewrite ?length_write_at; lia.
  - unfold attributes_raw, get_le. skip_write. change (Z.of_nat 8) with (Z.of_nat (length a)).
    rewrite sub_write_at_same by (rewrite ?length_write_at; lia). unfold a. by destruct (is_bootable p).
  - replace 72 with (Z.of_nat (length nm)) by lia. apply (sub_write_at_same _ 56 nm); rewrite ?length_write_at; lia.
Qed.

(** ** All entries *)

(** Start and size of the partitions: one without a start follows the one before
    it, a last one without a size reaches to block [last]. *)
Fixpoint layout (last offset : Z) (ps : list partition) : list (Z * Z) :=
  match ps with
  | [] => []
  | p :: r =>
    let start := if p_start p =? 0 then offset else p_start p in
    (start, if (match r with [] => true | _ => false end) && (p_size p =? 0)
            then last + 1 -64 start else p_size p)
      :: layout last (start +64 p_size p) r
  end.

Lemma entry_at_some e i : 0 <= i -> (i + 1) * 128 <= Z.of_nat (length e) ->
  entry_at e i = Some (sub e (i * 128) 128).
Proof using Type. intros. unfold entry_at, sizeof_gpt_entry. by branch. Qed.

Lemma sub_entry_same e i x : 0 <= i -> length x = 128%nat -> (i + 1) * 128 <= Z.of_nat (length e) ->
  sub (write_at e (i * 128) x) (i * 128) 128 = x.
Proof using Type.
  intros Hi L Hl. replace 128 with (Z.of_nat (length x)) at 3 by lia. apply sub_write_at_same; lia.
Qed.

Lemma sub_entry_other e i x k : 0 <= i -> 0 <= k -> i <> k -> length x = 128%nat ->
  (i + 1) * 128 <= Z.of_nat (length e) -> sub (write_at e (i * 128) x) (k * 128) 128 = sub e (k * 128) 128.
Proof using Type. intros. apply sub_write_at_out; lia. Qed.

Lemma fill_ptes_spec h ps e i offset e' : table_ok (type_guids cfg) -> Forall p_ok ps ->
  is_u64 offset -> is_u64 (last_usable_lba h) -> 0 <= i ->
  (i + Z.of_nat (length ps)) * 128 <= Z.of_nat (length e) -> Forall is_u8 e ->
  (forall j, i <= j < i + Z.of_nat (length ps) -> sub e (j * 128) 128 = replicate 128 0) ->
  fill_ptes cfg desc h e ps i offset = Some (inr e') ->
  length e' = length e /\ Forall is_u8 e' /\
  (forall j, 0 <= j -> j < i \/ i + Z.of_nat (length ps) <= j -> sub e' (j * 128) 128 = sub e (j * 128) 128) /\
  (forall k p, ps !! k = Some p -> exists start size,
     layout (last_usable_lba h) offset ps !! k = Some (start, size) /\ is_u64 start /\ is_u64 size /\
     filled p start (start + size -64 1) (sub e' ((i + Z.of_nat k) * 128) 128)).
Proof using Type.
  intros T F. revert e i offset. induction F as [|p ps (S1 & S2 & Ln & Un) Hps IH]; intros e i offset O La Hi Hl U Z E.
  { cbn [fill_ptes] in E. injection E as <-. split_and!; done. }
  cbn [length] in *. cbn [fill_ptes] in E. cbv zeta in E. cbn [layout].
  set (start := if p_start p =? 0 then offset else p_start p). set (next := start +64 p_size p).
  assert (Q : (if negb (p_start p =? 0) then (p_start p, p_start p +64 p_size p) else (offset, offset +64 p_size p)) = (start, next))
    by (unfold next, start; by destruct (p_start p =? 0)).
  rewrite Q in E. clear Q. destruct (_ || _) in E; [discriminate|].
  assert (Hst : is_u64 start) by (unfold start; by destruct (p_start p =? 0)).
  rewrite entry_at_some in E by lia. cbn [mbind option_bind] in E. rewrite Z in E by lia.
  destruct (_ <? next) in E; [discriminate|].
  set (stop := if (match ps with [] => true | _ => false end) && (p_size p =? 0) then last_usable_lba h else next -64 1) in *.
  assert (Hsp : is_u64 stop) by (unfold stop; destruct (_ && _); [done|apply u64_range]).
  destruct (fill_type cfg _ p) as [e2|] eqn:E2; [|discriminate].
  destruct (fill_uuid cfg e2 p) as [e3|] eqn:E3; [|discriminate].
  pose proof (fill_entry p start stop _ e2 e3 T eq_refl Un Hst Hsp E2 E3) as Fi.
  set (x := fill_tail e3 p) in *. pose proof (f_length _ _ _ _ Fi) as Lx.
  unfold sizeof_gpt_entry in E.
  destruct (IH (write_at e (i * 128) x) (i + 1) next) as (L' & U' & Ot & A); try done.
  - apply u64_range.
  - lia.
  - rewrite length_write_at. lia.
  - apply Forall_write_at; [done|]. apply Fi.
  - intros k Hk. rewrite sub_entry_other by lia. apply Z. lia.
  - split_and!; [by rewrite L', length_write_at|done| |].
    + intros k Hk Hd. rewrite Ot by lia. apply sub_entry_other; lia.
    + intros [|k] q Hq; cbn [lookup list_lookup] in *.
      * injection Hq as <-. eexists start, _. split; [done|]. split; [done|].
        rewrite Ot by lia. replace (i + Z.of_nat 0) with i by lia. rewrite sub_entry_same by lia.
        unfold stop in Fi. destruct (_ && _); (split; [done || apply u64_range|]).
        -- replace (start + _ -64 1) with (last_usable_lba h); [exact Fi|].
           unfold is_u64, u64 in *. Z.to_euclidean_division_equations. lia.
        -- replace (start + p_size p -64 1) with (next -64 1); [exact Fi|].
           unfold next, u64. Z.to_euclidean_division_equations. lia.
      * destruct (A k q Hq) as (st & sz & Hlk & H1 & H2 & Hf). exists st, sz. split_and!; try done.
        replace (i + Z.of_nat (S k)) with (i + 1 + Z.of_nat k) by lia. exact Hf.
Qed.

(** An error is not zero. *)
Lemma fill_ptes_error h ps e i offset err : fill_ptes cfg desc h e ps i offset = Some (inl err) -> err <> 0.
Proof using Type.
  revert e i offset. induction ps as [|p ps IH]; intros e i offset; cbn [fill_ptes]; [discriminate|]. cbv zeta.
  destruct (if negb (p_start p =? 0) then _ else _) as [start next].
  destruct (_ || _); [by intros [= <-]|]. destruct (entry_at e i); [|discriminate]. cbn [mbind option_bind].
  destruct (_ <? next); [by intros [= <-]|]. destruct (fill_type cfg _ p) as [e2|]; [|by intros [= <-]].
  destruct (fill_uuid cfg e2 p) as [e3|]; [|by intros [= <-]]. apply IH.
Qed.

(** With room for the entries no other memory is touched. *)
Lemma fill_ptes_total h ps e i offset : 0 <= i -> (i + Z.of_nat (length ps)) * 128 <= Z.of_nat (length e) ->
  exists r, fill_ptes cfg desc h e ps i offset = Some r.
Proof using Type.
  revert e i offset. induction ps as [|p ps IH]; intros e i offset Hi Hl; [by eexists|].
  cbn [length] in Hl. cbn [fill_ptes]. cbv zeta.
  destruct (if negb (p_start p =? 0) then _ else _) as [start next].
  destruct (_ || _); [by eexists|]. rewrite entry_at_some by lia. cbn [mbind option_bind].
  destruct (_ <? next); [by eexists|]. destruct (fill_type cfg _ p) as [e2|]; [|by eexists].
  destruct (fill_uuid cfg e2 p) as [e3|]; [|by eexists]. apply IH; [lia|]. rewrite length_write_at. lia.
Qed.

(** ** What is found *)
Definition dot (c : Z) : Z := if negb (c =? 0) && negb (isprint c) then 46 else c.
Definition shown_name (name : list Z) : str := take 31 (map dot (until_zero name)).

(** The information about a partition of a table. *)
Definition info_of (p : partition) (start size : Z) : part_info :=
  mk_info start size (blksz desc) (shown_name (p_name p))
    (Z.lor (if bool_decide (type_of p = system_guid) then PART_EFI_SYSTEM_PARTITION else 0)
           (if is_bootable p then PART_BOOTABLE else 0)) 0
    (uuid_bin_to_str (uuid_of p) UUID_STR_FORMAT_GUID) (uuid_bin_to_str (type_of p) UUID_STR_FORMAT_GUID).

Lemma until_zero_end l r : until_zero (l ++ 0 :: r) = until_zero l.
Proof using Type. induction l as [|c l IH]; [done|]. simpl. destruct (c =? 0); [done|]. by rewrite IH. Qed.

Lemma until_zero_dot l : until_zero (map dot l) = map dot (until_zero l).
Proof using Type.
  induction l as [|c l IH]; [done|]. cbn [map until_zero].
  assert (Q : (dot c =? 0) = (c =? 0)).
  { unfold dot. destruct (c =? 0) eqn:E; cbn [negb andb]; [done|]. by destruct (negb (isprint c)). }
  rewrite Q. destruct (c =? 0); [done|]. cbn [map]. by rewrite IH.
Qed.

Lemma name_units e o name k : length name = 32%nat -> 0 <= o ->
  sub e o 72 = name_bytes name ++ replicate 8 0 -> (k < 36)%nat ->
  sub e (o + 2 * Z.of_nat k) 2 = [byteat name (Z.of_nat k); 0].
Proof using Type.
  intros L Ho E Hk. rewrite <- (sub_sub e o 72) by lia. rewrite E. clear E.
  do 32 (destruct name as [|? name]; [discriminate|]). destruct name; [|discriminate].
  do 36 (destruct k as [|k]; [reflexivity|]). lia.
Qed.

Lemma print_efiname_spec e name : length name = 32%nat -> Forall is_u8 name ->
  sub e 56 72 = name_bytes name ++ replicate 8 0 -> take 31 (until_zero (print_efiname e)) = shown_name name.
Proof using Type.
  intros L U E. unfold shown_name. f_equal. rewrite <- until_zero_dot.
  assert (Q : print_efiname e = map dot (name ++ replicate 4 0)).
  { unfold print_efiname. transitivity (map (fun k => dot (byteat name (Z.of_nat k))) (seq 0 36)).
    - apply map_ext_in. intros k Hk. apply in_seq in Hk. unfold partition_name, get_le.
      change (Z.of_nat 2) with 2. rewrite (name_units e 56 name k L) by (done || lia). cbn [le_val].
      pose proof (byteat_u8 name (Z.of_nat k) U) as B. unfold is_u8 in B.
      replace (byteat name (Z.of_nat k) + 256 * (0 + 256 * 0)) with (byteat name (Z.of_nat k)) by lia.
      change 255 with (Z.ones 8). rewrite Z.land_ones, Z.mod_small by lia. done.
    - do 32 (destruct name as [|? name]; [discriminate|]). destruct name; [|discriminate]. reflexivity. }
  rewrite Q, map_app. change (map dot (replicate 4 0)) with ([0; 0; 0; 0]). by rewrite until_zero_end.
Qed.

Lemma convert_name e o name n k : length name = 32%nat -> 0 <= o ->
  sub e o 72 = name_bytes name ++ replicate 8 0 ->
  (32 < k + n)%nat -> (k <= 32)%nat ->
  gpt_convert_efi_name_to_char n e (o + 2 * Z.of_nat k) = until_zero (drop k name).
Proof using Type.
  intros L Ho E. revert k. induction n as [|n IH]; intros k H1 H2; [lia|].
  cbn [gpt_convert_efi_name_to_char].
  assert (Q : byteat e (o + 2 * Z.of_nat k) = byteat name (Z.of_nat k)).
  { pose proof (name_units e o name k L Ho E ltac:(lia)) as X. apply (f_equal (fun l => byteat l 0)) in X.
    rewrite byteat_sub in X by lia. rewrite Z.add_0_r in X. exact X. }
  rewrite Q. unfold byteat. rewrite Nat2Z.id.
  destruct (decide (k = 32%nat)) as [->|].
  - rewrite nth_overflow by lia. rewrite drop_ge by lia. done.
  - destruct (lookup_lt_is_Some_2 name k ltac:(lia)) as [c Hc].
    rewrite (drop_S _ c) by done. rewrite (nth_lookup_Some _ _ _ _ Hc). cbn [until_zero].
    destruct (c =? 0); [done|]. f_equal. rewrite <- IH by lia. f_equal. lia.
Qed.

(** The partitions [ps] from entry [i] of the entries [e]. *)
Definition entries_of (last : Z) (e : list Z) (ps : list partition) (i offset : Z) : Prop :=
  forall k p, ps !! k = Some p -> exists start size,
    layout last offset ps !! k = Some (start, size) /\ is_u64 start /\ is_u64 size /\
    filled p start (start + size -64 1) (sub e ((i + Z.of_nat k) * 128) 128).

Lemma filled_size p start size e : is_u64 start -> is_u64 size -> filled p start (start + size -64 1) e ->
  u64 (ending_lba e + 1 - starting_lba e) = size.
Proof using Type.
  intros H1 H2 F. rewrite (f_start _ _ _ _ F), (f_stop _ _ _ _ F). unfold is_u64, u64 in *.
  Z.to_euclidean_division_equations. lia.
Qed.

Lemma filled_info p start size e : p_ok p -> is_u64 start -> is_u64 size -> type_of p <> replicate 16 0 ->
  filled p start (start + size -64 1) e ->
  is_pte_valid e = true /\
  mk_info (starting_lba e) (ending_lba e + 1 -64 starting_lba e) (blksz desc)
    (take 31 (until_zero (print_efiname e))) (get_bootable e) (type_guid_specific e)
    (uuid_bin_to_str (unique_partition_guid e) UUID_STR_FORMAT_GUID)
    (uuid_bin_to_str (partition_type_guid e) UUID_STR_FORMAT_GUID) = info_of p start size.
Proof using Type.
  intros (_ & _ & Ln & Un) H1 H2 Ty F. split.
  - unfold is_pte_valid. rewrite (f_type _ _ _ _ F). by rewrite bool_decide_eq_false_2.
  - rewrite (filled_size p start size e) by done. unfold info_of, get_bootable, type_guid_specific, legacy_bios_bootable.
    rewrite (print_efiname_spec e (p_name p)) by (done || apply F).
    rewrite (f_start _ _ _ _ F), (f_type _ _ _ _ F), (f_uuid _ _ _ _ F), (f_attr _ _ _ _ F).
    by destruct (is_bootable p).
Qed.

(** [verify_loop] accepts the partitions a table was made of. *)
Lemma verify_loop_ok h e last ps i offset : Forall p_ok ps -> 0 <= i ->
  i + Z.of_nat (length ps) <= num_partition_entries h ->
  (i + Z.of_nat (length ps)) * 128 <= Z.of_nat (length e) -> entries_of last e ps i offset ->
  verify_loop h e ps i = Some 0.
Proof using Type.
  intros F. revert i offset. induction F as [|p ps Hp Hps IH]; intros i offset Hi Hn Hl A; [done|].
  cbn [length] in *. cbn [verify_loop]. branch. rewrite entry_at_some by lia. cbn [mbind option_bind].
  destruct (A 0%nat p eq_refl) as (start & size & Lk & H1 & H2 & Fi). cbn [layout lookup list_lookup] in Lk.
  rewrite Z.add_0_r in Fi. set (x := sub e (i * 128) 128) in *. pose proof Hp as (S1 & S2 & Ln & Un).
  assert (Nm : gpt_convert_efi_name_to_char 37 e (i * sizeof_gpt_entry + 56) = until_zero (p_name p)).
  { change sizeof_gpt_entry with 128. pose proof (convert_name e (i * 128 + 56) (p_name p) 37 0 Ln ltac:(lia)) as C.
    rewrite Z.mul_0_r, Z.add_0_r, drop_0 in C. apply C; [|lia..].
    rewrite <- (f_name _ _ _ _ Fi). unfold x. rewrite sub_sub by lia. done. }
  rewrite Nm, bool_decide_eq_true_2 by done. cbn [negb].
  assert (Sz : u64 (ending_lba x - starting_lba x + 1) = size).
  { rewrite <- (filled_size p start size x) by done. f_equal. lia. }
  rewrite Sz, (f_start _ _ _ _ Fi).
  assert (Rest : verify_loop h e ps (i + 1) = Some 0).
  { apply (IH (i + 1) ((if p_start p =? 0 then offset else p_start p) +64 p_size p)); [lia..|].
    intros k q Hq. destruct (A (S k) q Hq) as (st & sz & Lk' & K1 & K2 & Fk). exists st, sz.
    split_and!; try done. by replace (i + 1 + Z.of_nat k) with (i + Z.of_nat (S k)) by lia. }
  rewrite Rest. injection Lk as Est Esz.
  destruct (_ && _) eqn:La in Esz; rewrite La.
  - destruct (negb _); [done|]. destruct (p_start p =? 0) eqn:P0; [done|]. subst start. by rewrite Z.eqb_refl.
  - subst size. rewrite Z.eqb_refl. cbn [negb]. destruct (p_start p =? 0) eqn:P0; [done|].
    subst start. by rewrite Z.eqb_refl.
Qed.

(** ** A table that was written *)
Context (malloc : Z -> bool).
Hypothesis malloc_ok : forall n, malloc n = true.

Lemma seal_primary_guid h e h1 : is_header bs h -> seal_primary h e = Some h1 -> disk_guid h1 = disk_guid h.
Proof using Type.
  intros (L & _ & B) E. unfold seal_primary in E. destruct (efi_crc32 e _) as [c|]; [|discriminate].
  cbn [mbind option_bind] in E. destruct (efi_crc32 (set_entry_array_crc32 h c) _) as [c'|]; [|discriminate].
  cbn [mbind option_bind] in E. injection E as <-. unfold disk_guid. unfold_fields.
  by rewrite !sub_put_out by len_ok.
Qed.

(** The state after the whole operation, when it reports success. *)
Definition made (d : D) (guid : str) (P N : Z) (ps : list partition) : Prop :=
  exists e h1 h2, table (bs := bs) desc P N e h1 h2 /\ primary (bs := bs) d P N e h1 /\ backup (bs := bs) d desc N e h2 /\
    readable d /\ part_test_efi d = 0 /\ disk_guid h1 = guid_of guid /\
    entries_of (lba desc - 34) e ps 0 (P + 32) /\
    forall k, Z.of_nat (length ps) <= k < N -> sub e (k * 128) 128 = replicate 128 0.

Lemma sub_replicate n i m : 0 <= i -> 0 <= m -> i + m <= Z.of_nat n -> sub (replicate n 0) i m = replicate (Z.to_nat m) 0.
Proof using Type. intros. unfold sub. rewrite drop_replicate, take_replicate. f_equal. lia. Qed.

(** The entries that are written for partitions. *)
Definition image (guid : str) (ps : list partition) : option (list Z) :=
  match gpt_fill_header cfg desc (replicate (Z.to_nat (PAD_TO_BLOCKSIZE sizeof_gpt_header desc)) 0) guid with
  | inl _ => None
  | inr h =>
    match gpt_fill_pte cfg desc h (replicate (Z.to_nat (PAD_TO_BLOCKSIZE (GPT_ENTRY_NUMBERS cfg * sizeof_gpt_entry) desc)) 0) ps with
    | Some (inr e) => Some e
    | _ => None
    end
  end.

(** Writing a table fails before anything is written, or is writing its image. *)
Lemma gpt_restore_cases d guid ps P N : room (bs := bs) desc P N -> table_ok (type_guids cfg) ->
  partition_entries_offset cfg desc = P -> GPT_ENTRY_NUMBERS cfg = N -> Forall p_ok ps ->
  Z.of_nat (length ps) <= N ->
  (exists err, err <> 0 /\ gpt_restore malloc cfg d desc guid ps = Some (err, d)) \/
  (exists h e, image guid ps = Some e /\ fresh (bs := bs) desc P N h /\ disk_guid h = guid_of guid /\
     Forall is_u8 e /\ Z.of_nat (length e) = cnt (bs := bs) N * bs /\
     entries_of (lba desc - 34) e ps 0 (P + 32) /\
     (forall k, Z.of_nat (length ps) <= k < N -> sub e (k * 128) 128 = replicate 128 0) /\
     gpt_restore malloc cfg d desc guid ps = write_gpt_table d desc h e).
Proof using malloc_ok.
  intros R T Po Ne F Lp. pose proof (block_cnt_cnt desc P N R) as (_ & Bc & _ & Cn & Cl).
  pose proof R as (Hb & B & HN & _ & HP & HL & Hm). unfold gpt_restore, image. rewrite !malloc_ok. cbn [negb].
  set (z := replicate (Z.to_nat (PAD_TO_BLOCKSIZE sizeof_gpt_header desc)) 0).
  destruct (gpt_fill_header cfg desc z guid) as [err|h] eqn:Eh.
  { left. exists err. split; [|done]. intros ->. unfold gpt_fill_header in Eh.
    destruct (uuid_str_to_bin _ _ _ _) as [ret bin]. by destruct (negb _). }
  destruct (fill_header_fresh guid P N h R T Po Ne Eh) as [Fr Dg]. clear Eh z.
  pose proof Fr as (Hh & _ & _ & _ & _ & _ & _ & Fu & Lu & Nn & _).
  rewrite Ne. change sizeof_gpt_entry with 128. set (z := replicate _ 0).
  assert (Lz : Z.of_nat (length z) = cnt (bs := bs) N * bs).
  { unfold z. rewrite length_replicate. unfold PAD_TO_BLOCKSIZE. rewrite Bc, Hb, u64_small by nia. nia. }
  assert (Zz : forall k, 0 <= k -> (k + 1) * 128 <= cnt (bs := bs) N * bs -> sub z (k * 128) 128 = replicate 128 0).
  { intros k H0 Hk. unfold z in *. rewrite length_replicate in Lz. apply sub_replicate; lia. }
  assert (Uz : Forall is_u8 z) by apply replicate_u8. clearbody z.
  unfold gpt_fill_pte. destruct (fill_ptes_total h ps z 0 (first_usable_lba h)) as [[err|e] Ef]; [lia..| |];
    rewrite Ef; cbn [mbind option_bind].
  - left. exists err. split; [by apply fill_ptes_error in Ef|done].
  - right. destruct (fill_ptes_spec h ps z 0 (first_usable_lba h) e T F) as (Le & Ue & Ot & A); try done.
    { apply (field_u64 bs h 40 Hh); lia. } { apply (field_u64 bs h 48 Hh); lia. } { lia. }
    { intros k Hk. apply Zz; lia. }
    exists h, e. split_and!; try done; [lia| |].
    + unfold entries_of. rewrite <- Fu, <- Lu. exact A.
    + intros k Hk. rewrite Ot by lia. apply Zz; lia.
Qed.

Lemma gpt_restore_makes d guid ps P N : room (bs := bs) desc P N -> table_ok (type_guids cfg) ->
  partition_entries_offset cfg desc = P -> GPT_ENTRY_NUMBERS cfg = N -> Forall p_ok ps ->
  Z.of_nat (length ps) <= N ->
  exists r d', gpt_restore malloc cfg d desc guid ps = Some (r, d') /\ (r = 0 -> made d' guid P N ps).
Proof using BL malloc_ok.
  intros R T Po Ne F Lp.
  destruct (gpt_restore_cases d guid ps P N R T Po Ne F Lp) as [(err & Hn & ->) | (h & e & _ & Fr & Dg & Ue & Le & A & Z & ->)].
  { by exists err, d. }
  destruct (write_gpt_table d desc h e) as [[r d']|] eqn:W.
  - exists r, d'. split; [done|]. intros ->.
    destruct (write_gpt_table_spec d desc P N h e d' R Fr Ue Le W) as (h1 & h2 & Sp & Tb & Pr & Bk & Rd & Pt).
    exists e, h1, h2. split_and!; try done. by rewrite (seal_primary_guid h e h1 (proj1 Fr) Sp).
  - exfalso. destruct (write_gpt_table_eq d desc P N h e R Fr Ue Le) as (h1 & h2 & _ & _ & X).
    rewrite X in W. destruct (set_protective_mbr d desc) as [ret d1]. destruct (ret <? 0); [discriminate|].
    by destruct (write_all d1 desc _).
Qed.

(** ** Reading the partitions of a table *)
Definition reads (d : D) (head : list Z) (P : Z) (ps : list partition) : Prop :=
  (forall k p, ps !! k = Some p -> exists start size,
     layout (lba desc - 34) (P + 32) ps !! k = Some (start, size) /\
     part_get_info_efi malloc head d desc (Z.of_nat k + 1) = Some (inr (info_of p start size))) /\
  (forall k, Z.of_nat (length ps) < k -> part_get_info_efi malloc head d desc k = Some (inl (- EPERM))).

Lemma found_reads d head P N ps e v : room (bs := bs) desc P N -> Forall p_ok ps ->
  Forall (fun p => type_of p <> replicate 16 0) ps -> Z.of_nat (length ps) <= N ->
  find_valid_gpt malloc d desc head = Some v -> v_ret v = 1 -> num_partition_entries (v_head v) = N ->
  v_pte v = Some e -> Z.of_nat (length e) = cnt (bs := bs) N * bs -> entries_of (lba desc - 34) e ps 0 (P + 32) ->
  (forall k, Z.of_nat (length ps) <= k < N -> sub e (k * 128) 128 = replicate 128 0) ->
  reads d head P ps.
Proof using Type.
  intros R F Ty Ln E V Nn Hp Le A Z. pose proof (block_cnt_cnt desc P N R) as (_ & _ & _ & _ & Cl).
  assert (Q : forall k, 1 <= k -> part_get_info_efi malloc head d desc k =
    if N <? k then Some (inl (- EPERM))
    else e' ← entry_at e (k - 1);
      if negb (is_pte_valid e') then Some (inl (- EPERM))
      else Some (inr (mk_info (starting_lba e') (ending_lba e' + 1 -64 starting_lba e') (blksz desc)
        (take 31 (until_zero (print_efiname e'))) (get_bootable e') (type_guid_specific e')
        (uuid_bin_to_str (unique_partition_guid e') UUID_STR_FORMAT_GUID)
        (uuid_bin_to_str (partition_type_guid e') UUID_STR_FORMAT_GUID)))).
  { intros k Hk. unfold part_get_info_efi. replace (k <? 1) with false by lia. rewrite E. cbn [mbind option_bind].
    rewrite V, Nn, Hp. done. }
  split.
  - intros k p Hk. pose proof (lookup_lt_Some _ _ _ Hk) as Lk. destruct (A k p Hk) as (start & size & Lo & H1 & H2 & Fi).
    exists start, size. split; [done|]. rewrite Q by lia. replace (N <? Z.of_nat k + 1) with false by lia.
    replace (Z.of_nat k + 1 - 1) with (0 + Z.of_nat k) by lia. rewrite entry_at_some by lia. cbn [mbind option_bind].
    rewrite Forall_lookup in F, Ty.
    destruct (filled_info p start size _ (F _ _ Hk) H1 H2 (Ty _ _ Hk) Fi) as [-> ->]. done.
  - intros k Hk. rewrite Q by lia. destruct (N <? k) eqn:B; [done|].
    rewrite entry_at_some by lia. cbn [mbind option_bind]. rewrite Z by lia. done.
Qed.

(** ** Whole operations *)
Section Theorems.
Context (P N : Z) (head : list Z).
Hypothesis R : room (bs := bs) desc P N.
Hypothesis T : table_ok (type_guids cfg).
Hypothesis Po : partition_entries_offset cfg desc = P.
Hypothesis Ne : GPT_ENTRY_NUMBERS cfg = N.

(** Partitions for a table: as many as there are entries, each of some type. *)
Definition ps_ok (ps : list partition) : Prop :=
  Forall p_ok ps /\ Forall (fun p => type_of p <> replicate 16 0) ps /\ Z.of_nat (length ps) <= N.

Lemma mirror_guid h1 h2 : is_header bs h1 -> is_header bs h2 -> mirror h1 h2 -> disk_guid h2 = disk_guid h1.
Proof using Type.
  intros (L1 & _ & B) (L2 & _) M. unfold mirror, set_place in M. apply (f_equal disk_guid) in M. revert M. unfold disk_guid. unfold_fields.
  by rewrite !sub_put_out by len_ok.
Qed.

Lemma disk_guid_text d v guid : find_valid_gpt malloc d desc head = Some v -> v_ret v = 1 ->
  disk_guid (v_head v) = guid_of guid ->
  get_disk_guid malloc head d desc = Some (inr (uuid_bin_to_str (guid_of guid) UUID_STR_FORMAT_GUID)).
Proof using Type. intros E V G. unfold get_disk_guid. rewrite E. cbn [mbind option_bind]. by rewrite V, G. Qed.

Lemma made_verifies d guid ps : ps_ok ps -> made d guid P N ps ->
  exists v, gpt_verify_partitions malloc d desc ps head None = Some (0, v).
Proof using malloc_ok R.
  intros (F & _ & Ln) (e & h1 & h2 & (C1 & Al & Mi & C2 & Le & Ue) & [P1 P2] & [B1 B2] & Rd & _ & _ & A & _).
  pose proof (block_cnt_cnt desc P N R) as (_ & _ & _ & _ & Cl).
  unfold gpt_verify_partitions, gpt_verify_headers, GPT_PRIMARY_PARTITION_TABLE_LBA.
  destruct (copy_accepted malloc d desc desc P N 1 P e h1 head None R ltac:(done) C1 malloc_ok Rd P1 P2)
    as (v & -> & V & Hh & Hp & S). cbn [mbind option_bind]. rewrite V, Hh, Al, (last_block desc P N R).
  rewrite !Z.eqb_refl. cbn [Z.eqb negb].
  destruct (copy_accepted malloc d desc (v_desc v) P N _ _ e h2 h1 None R S C2 malloc_ok Rd B1 B2)
    as (w & -> & V' & Hh' & Hp' & _). cbn [mbind option_bind v_ret v_pte v_head]. rewrite V', Hp', Hh'.
  rewrite !Z.eqb_refl. cbn [Z.eqb negb mbind option_bind v_ret v_pte v_head].
  rewrite (verify_loop_ok h2 e (lba desc - 34) ps 0 (P + 32)); try done; [by eexists| |lia].
  destruct C2 as (_ & _ & _ & _ & _ & _ & _ & _ & -> & _). lia.
Qed.

Lemma made_found d guid ps e h1 : Forall is_u8 e -> copy (bs := bs) desc P N 1 P e h1 -> readable d ->
  primary (bs := bs) d P N e h1 -> ps_ok ps -> disk_guid h1 = guid_of guid ->
  Z.of_nat (length e) = cnt (bs := bs) N * bs -> entries_of (lba desc - 34) e ps 0 (P + 32) ->
  (forall k, Z.of_nat (length ps) <= k < N -> sub e (k * 128) 128 = replicate 128 0) ->
  reads d head P ps /\
  get_disk_guid malloc head d desc = Some (inr (uuid_bin_to_str (guid_of guid) UUID_STR_FORMAT_GUID)).
Proof using malloc_ok R.
  intros Ue C1 Rd Pr (F & Ty & Ln) G Le A Z.
  destruct (find_primary malloc d desc P N e h1 head R C1 malloc_ok Rd Pr) as (v & E & V & Hh & Hp). split.
  - apply (found_reads d head P N ps e v); try done. rewrite Hh. apply C1.
  - apply (disk_guid_text d v); try done. by rewrite Hh.
Qed.

(** C5: writing a table of partitions always ends with a result, and when it
    reports success the disk is recognised as one with a GUID partition table,
    both headers and all partitions verify, the disk GUID and every partition
    (its place, size, name, boot flag and GUIDs) are read back as they were
    given, and no other partition is found. *)
Theorem gpt_restore_reads_back d guid ps : ps_ok ps ->
  exists r d', gpt_restore malloc cfg d desc guid ps = Some (r, d') /\
  (r = 0 ->
     part_test_efi d' = 0 /\
     (exists v, gpt_verify_partitions malloc d' desc ps head None = Some (0, v)) /\
     get_disk_guid malloc head d' desc = Some (inr (uuid_bin_to_str (guid_of guid) UUID_STR_FORMAT_GUID)) /\
     reads d' head P ps).
Proof using All.
  intros O. pose proof O as (F & Ty & Ln). destruct (gpt_restore_makes d guid ps P N R T Po Ne F Ln) as (r & d' & E & M).
  exists r, d'. split; [done|]. intros Z. specialize (M Z). pose proof (made_verifies d' guid ps O M) as V.
  destruct M as (e & h1 & h2 & (C1 & Al & Mi & C2 & Le & Ue) & Pr & Bk & Rd & Pt & G & A & Zr).
  destruct (made_found d' guid ps e h1 Ue C1 Rd Pr O G Le A Zr). done.
Qed.

(** What two disks have in common. *)
Definition same_primary (d d' : D) : Prop :=
  dread d' 1 1 = dread d 1 1 /\ dread d' P (cnt (bs := bs) N) = dread d P (cnt (bs := bs) N).
Definition same_backup (d d' : D) : Prop :=
  dread d' (lba desc - 1) 1 = dread d (lba desc - 1) 1 /\
  dread d' (lba desc - 33) (cnt (bs := bs) N) = dread d (lba desc - 33) (cnt (bs := bs) N).

(** C16: of a disk that a table was written to, one copy is damaged (its header
    and its entries may hold anything, as long as it does not validate) and the
    other one is intact.  Then the partitions are read as before, repairing ends
    with a result, and when it reports success all blocks of both copies are as
    they were written. *)
Theorem gpt_repair_restores d guid ps d2 s2 : ps_ok ps -> made d guid P N ps -> readable d2 ->
  damaged malloc d2 desc 1 /\ same_backup d d2 \/
  damaged malloc d2 desc (lba desc - 1) /\ same_primary d d2 ->
  reads d2 head P ps /\
  exists r d3, gpt_repair_headers malloc cfg head s2 d2 desc = Some (r, d3) /\
    (r = 0 -> same_primary d d3 /\ same_backup d d3).
Proof using All.
  intros O (e & h1 & h2 & Tb & [P1 P2] & [B1 B2] & _ & _ & G & A & Zr) Rd Dm.
  pose proof O as (F & Ty & Ln). pose proof Tb as (C1 & Al & Mi & C2 & Le & Ue).
  unfold same_primary, same_backup in *. rewrite P1, P2, B1, B2 in *.
  destruct Dm as [[Dm Bk] | [Dm Pr]].
  - split.
    + destruct (find_backup malloc d2 desc P N e h2 head R C2 malloc_ok Rd Bk Dm) as (v & E & V & Hh & Hp).
      apply (found_reads d2 head P N ps e v); try done. rewrite Hh. apply C2.
    + destruct (repair_primary malloc cfg d2 desc P N e h1 h2 head s2 R Tb Po malloc_ok Rd Bk Dm) as (r & d3 & E & Z & B' & _).
      exists r, d3. split; [done|]. intros Hr. split; [by apply Z|done].
  - split.
    + apply (made_found d2 guid ps e h1); done.
    + destruct (repair_backup malloc cfg d2 desc P N e h1 h2 head s2 R Tb malloc_ok Rd Pr Dm) as (r & d3 & E & Z & P' & _).
      exists r, d3. split; [done|]. intros Hr. split; [done|by apply Z].
Qed.

(** C4: a disk with a table gets another one, and any write of the update may
    fail or be cut off, one of a single block leaving the old or the new one.
    Unless the CRC-32 takes torn entries for the new ones, the partitions read
    afterwards are all the old ones or all the new ones. *)
Theorem gpt_update_atomic d guid0 ps0 guid ps r d' : ps_ok ps0 -> ps_ok ps -> made d guid0 P N ps0 ->
  gpt_restore malloc cfg d desc guid ps = Some (r, d') ->
  (forall e x, image guid ps = Some e -> dread d' P (cnt (bs := bs) N) = Some x ->
     efi_crc32 x (N * 128) = efi_crc32 e (N * 128) -> x = e \/ dread d P (cnt (bs := bs) N) = Some x) ->
  reads d' head P ps0 \/ reads d' head P ps.
Proof using All.
  intros O0 O (e0 & h1 & h2 & Tb & Pr & Bk & Rd & Pt & G & A0 & Z0) E X.
  pose proof O as (F & Ty & Ln). pose proof O0 as (F0 & Ty0 & Ln0). pose proof Tb as (C1 & Al & Mi & C2 & Le0 & Ue0).
  destruct (gpt_restore_cases d guid ps P N R T Po Ne F Ln) as [(err & Hn & Er) | (h & e & Im & Fr & Dg & Ue & Le & A & Z & Er)];
    rewrite Er in E.
  - injection E as _ <-. left. by apply (made_found d guid0 ps0 e0 h1).
  - destruct (update_found malloc d desc P N e0 h1 h2 h e r d' head R Tb Rd Pr Bk malloc_ok Fr Ue Le E)
      as (v & e' & Ev & V & Nv & Hp & He).
    { intros x Hx Hc. destruct (X e x Im Hx Hc) as [-> | Q]; [by left|right].
      destruct Pr as [_ P2]. rewrite P2 in Q. by injection Q. }
    destruct He as [-> | ->].
    + right. by apply (found_reads d' head P N ps e v).
    + left. by apply (found_reads d' head P N ps0 e0 v).
Qed.

End Theorems.
End Layout.

(** ** A disk in memory *)

(** Blocks of 512 bytes.  After [Some n] writes one fails and is cut off in the
    middle, as are all that follow. *)
Record ram := mk_ram { blocks : Z -> list Z; fuse : option nat }.

Definition norm (b : list Z) : list Z :=
  if (length b =? 512)%nat && forallb (fun x => (0 <=? x) && (x <? 256)) b then b else replicate 512 0.

Definition store (f : Z -> list Z) (s n : Z) (l : list Z) : Z -> list Z :=
  fun b => if (s <=? b) && (b <? s + n) then sub l ((b - s) * 512) 512 else f b.

#[global] Instance ram_dev : BlockDev ram := {
  dread d s n := if (s <? 0) || (n <? 0) then None
    else Some (concat (map (fun k => norm (blocks d (s + Z.of_nat k))) (seq 0 (Z.to_nat n))));
  dwrite d s n l := match fuse d with
    | Some O => (false, mk_ram (store (blocks d) s (n / 2) l) (Some O))
    | Some (S k) => (true, mk_ram (store (blocks d) s n l) (Some k))
    | None => (true, mk_ram (store (blocks d) s n l) None)
    end }.

Lemma norm_ok b : length (norm b) = 512%nat /\ Forall is_u8 (norm b).
Proof.
  unfold norm. destruct (_ && _) eqn:E; [|split; [apply length_replicate|apply replicate_u8]].
  apply andb_true_iff in E as [E1 E2]. split; [by apply Nat.eqb_eq|by apply all_u8].
Qed.

Lemma norm_id b : length b = 512%nat -> Forall is_u8 b -> norm b = b.
Proof.
  intros L U. unfold norm. rewrite L, Nat.eqb_refl. cbn [andb].
  replace (forallb _ b) with true; [done|]. symmetry. apply forallb_forall. intros x Hx.
  rewrite Forall_forall in U. apply list_elem_of_In, U in Hx. unfold is_u8 in Hx. lia.
Qed.

Lemma concat_blocks l n : Z.of_nat (length l) = Z.of_nat n * 512 ->
  concat (map (fun k => sub l (Z.of_nat k * 512) 512) (seq 0 n)) = l.
Proof.
  intros L. assert (G : forall m, (m <= n)%nat ->
    concat (map (fun k => sub l (Z.of_nat k * 512) 512) (seq 0 m)) = sub l 0 (Z.of_nat m * 512)).
  { induction m as [|m IH]; intros Hm; [done|]. rewrite seq_S, map_app, concat_app, IH by lia.
    cbn [map concat Nat.add]. rewrite app_nil_r.
    replace (Z.of_nat (S m) * 512) with (Z.of_nat m * 512 + 512) by lia. by rewrite (sub_split l 0) by lia. }
  rewrite G by lia. apply sub_all. lia.
Qed.

#[global] Instance ram_laws : BlockLaws ram 512.
Proof.
  assert (WR : forall f d s n l, blocks d = store f s n l -> 0 <= s -> 0 < n -> Z.of_nat (length l) = n * 512 ->
    Forall is_u8 l -> dread d s n = Some l).
  { intros f d s n l E Hs Hn L U. cbn [dread ram_dev]. replace (_ || _) with false by lia. f_equal.
    rewrite <- (concat_blocks l (Z.to_nat n)) by lia. f_equal. apply map_ext_in. intros k Hk. apply in_seq in Hk.
    rewrite E. unfold store. replace (_ && _) with true by lia. replace (s + Z.of_nat k - s) with (Z.of_nat k) by lia.
    apply norm_id; [|by apply Forall_sub]. apply Nat2Z.inj. rewrite length_sub; lia. }
  assert (WO : forall f d d0 s n l s' n', blocks d = store f s n l -> f = blocks d0 -> s' + n' <= s \/ s + n <= s' ->
    dread d s' n' = dread d0 s' n').
  { intros f d d0 s n l s' n' E -> Hd. cbn [dread ram_dev]. destruct (_ || _) eqn:B; [done|]. do 2 f_equal.
    apply map_ext_in. intros k Hk. apply in_seq in Hk. rewrite E. unfold store. by replace (_ && _) with false by lia. }
  split.
  - intros d s n l. cbn [dread ram_dev]. destruct (_ || _) eqn:B; [discriminate|]. intros [= <-]. split.
    + replace n with (Z.of_nat (Z.to_nat n)) at 2 by lia. generalize (Z.to_nat n) as m. intros m.
      induction m as [|m IH]; [done|].
      rewrite seq_S, map_app, concat_app, length_app, Nat2Z.inj_add, IH. cbn [map concat].
      rewrite app_nil_r. pose proof (norm_ok (blocks d (s + Z.of_nat (0 + m)))) as [-> _]. lia.
    + apply Forall_concat, Forall_forall. intros x Hx. apply list_elem_of_In, in_map_iff in Hx as (k & <- & _). apply norm_ok.
  - intros d s n l d' W Hs Hn L U. cbn [dwrite ram_dev] in W.
    destruct (fuse d) as [[|k]|]; [discriminate|..]; injection W as <-; by apply (WR (blocks d)).
  - intros d s n l ok d' s' n' W Hd. cbn [dwrite ram_dev] in W.
    destruct (fuse d) as [[|k]|]; injection W as _ <-.
    + destruct (decide (0 <= n)) as [Hn|Hn].
      * apply (WO (blocks d) _ d s (n / 2) l); try done. Z.to_euclidean_division_equations. lia.
      * cbn [dread ram_dev]. destruct (_ || _) eqn:B; [done|]. do 2 f_equal. apply map_ext_in. intros k _.
        cbn [blocks]. unfold store. replace (_ && _) with false; [done|]. Z.to_euclidean_division_equations. lia.
    + by apply (WO (blocks d) _ d s n l).
    + by apply (WO (blocks d) _ d s n l).
  - intros d s l ok d' W Hs L U. cbn [dwrite ram_dev] in W.
    destruct (fuse d) as [[|k]|]; injection W as _ <-; [left|right..].
    + cbn [dread ram_dev]. destruct (_ || _) eqn:B; [done|]. do 2 f_equal. apply map_ext_in. intros k _.
      cbn [blocks]. unfold store. replace (_ && _) with false; [done|]. change (1 / 2) with 0. lia.
    + apply (WR (blocks d)); done || lia.
    + apply (WR (blocks d)); done || lia.
Qed.

(** ** Trying the theorems *)
Definition sample_cfg : gpt_config := mk_gcfg 8 None (- EINVAL) None true.
Definition sample_desc : blk_desc := mk_desc 128 512 SIG_TYPE_NONE 0 [].
Definition sample_guid (k : Z) : str := uuid_bin_to_str (replicate 15 17 ++ [k]) UUID_STR_FORMAT_GUID.
Definition sample_part (size k : Z) : partition :=
  mk_partition 0 size (97 + k :: replicate 31 0) 1 (sample_guid k) [].
Definition old_parts : list partition := map (sample_part 4) [1; 2; 3; 4; 5].
Definition new_parts : list partition := map (sample_part 6) [1; 2; 3; 4; 5] ++ [sample_part 0 6].
Definition blank (k : option nat) : ram := mk_ram (fun _ => []) k.

(** Writing a table to an empty disk of 128 blocks; it takes five writes. *)
#[local] Abbreviation sample_restore k :=
  (gpt_restore (fun _ => true) sample_cfg (blank k) sample_desc (sample_guid 9) old_parts).
Definition sample_disk (k : option nat) : ram := from_option snd (blank None) (sample_restore k).

Lemma sample_restore_ok : fst <$> sample_restore None = Some 0 /\ fst <$> sample_restore (Some 7%nat) = Some 0.
Proof. vm_compute. split; reflexivity. Qed.

Lemma sample_room : room (bs := 512) sample_desc 2 8.
Proof. unfold room, sample_desc. cbn [lba blksz]. lia. Qed.

Lemma sample_part_ok size k : 0 <= size < 100 -> 0 <= k < 100 ->
  p_ok (sample_part size k) /\ type_of sample_cfg (sample_part size k) <> replicate 16 0.
Proof.
  intros Hs Hk. split; [|discriminate]. unfold p_ok, sample_part, is_u64. cbn [p_start p_size p_name].
  split_and!; try lia; [done|]. constructor; [unfold is_u8; lia|apply replicate_u8].
Qed.

Lemma sample_parts_ok : ps_ok sample_cfg 8 old_parts /\ ps_ok sample_cfg 8 new_parts.
Proof.
  unfold ps_ok. split; (split; [|split; [|vm_compute; discriminate]]).
  all: repeat (constructor; [apply sample_part_ok; lia|]); constructor.
Qed.

Lemma sample_table : table_ok (type_guids sample_cfg).
Proof. constructor. Qed.

Lemma sample_made k : fst <$> sample_restore k = Some 0 ->
  made (bs := 512) sample_cfg sample_desc (sample_disk k) (sample_guid 9) 2 8 old_parts.
Proof.
  intros E. destruct sample_parts_ok as [(F & _ & L) _].
  destruct (gpt_restore_makes (bs := 512) sample_cfg sample_desc (fun _ => true) (fun _ => eq_refl) (blank k) (sample_guid 9)
    old_parts 2 8 sample_room sample_table eq_refl eq_refl F L) as (r & d & Er & M).
  unfold sample_disk. rewrite Er in *. injection E as ->. by apply M.
Qed.

Lemma gpt_restore_reads_back_witness :
  exists d, sample_restore None = Some (0, d) /\
    reads sample_cfg sample_desc (fun _ => true) d [] 2 old_parts.
Proof.
  destruct (gpt_restore_reads_back (bs := 512) sample_cfg sample_desc (fun _ => true) (fun _ => eq_refl) 2 8 []
    sample_room sample_table eq_refl eq_refl (blank None) (sample_guid 9) old_parts (proj1 sample_parts_ok)) as (r & d & Er & H).
  pose proof (proj1 sample_restore_ok) as Z0. rewrite Er in Z0. injection Z0 as ->.
  exists d. split; [exact Er|]. apply H. reflexivity.
Defined.

(** The primary header is erased. *)
Definition erased_disk : ram := mk_ram (store (blocks (sample_disk None)) 1 1 []) None.
#[local] Abbreviation sample_repair := (gpt_repair_headers (fun _ => true) sample_cfg [] [] erased_disk sample_desc).

Lemma sample_repair_ok : fst <$> sample_repair = Some 0.
Proof. vm_compute. reflexivity. Qed.

Lemma erased_damaged : readable erased_disk /\ damaged (fun _ => true) erased_disk sample_desc 1 /\
  same_backup (bs := 512) sample_desc 8 (sample_disk None) erased_disk.
Proof.
  assert (Z0 : exists b, dread erased_disk 0 1 = Some b).
  { eexists. cbn [dread ram_dev]. reflexivity. }
  assert (Z1 : dread erased_disk 1 1 = Some (replicate 512 0)) by (vm_compute; reflexivity).
  split; [exact Z0|]. split.
  - destruct Z0 as [b Z0]. apply (damaged_signature _ _ _ _ b _ Z0 Z1); vm_compute; discriminate.
  - split; vm_compute; reflexivity.
Qed.

Lemma gpt_repair_restores_witness :
  exists d, sample_repair = Some (0, d) /\ dread d 1 1 = dread (sample_disk None) 1 1.
Proof.
  destruct (gpt_repair_restores (bs := 512) sample_cfg sample_desc (fun _ => true) (fun _ => eq_refl) 2 8 []
    sample_room sample_table eq_refl eq_refl (sample_disk None) (sample_guid 9) old_parts erased_disk []
    (proj1 sample_parts_ok) (sample_made None (proj1 sample_restore_ok)) (proj1 erased_damaged) (or_introl (proj2 erased_damaged)))
    as (_ & r & d & E & H).
  pose proof sample_repair_ok as Z0. rewrite E in Z0. injection Z0 as ->.
  exists d. split; [exact E|]. exact (proj1 (proj1 (H eq_refl))).
Defined.

(** The third write of the update, that of the primary entries, is cut off
    after the first of two blocks. *)
#[local] Abbreviation torn_update :=
  (gpt_restore (fun _ => true) sample_cfg (sample_disk (Some 7%nat)) sample_desc (sample_guid 9) new_parts).

Definition crc_of (l : option (list Z)) : option Z := l ≫= fun l => efi_crc32 l 1024.

Lemma torn_update_fails : fst <$> torn_update = Some (- EIO).
Proof. vm_compute. reflexivity. Qed.

Lemma torn_crc : crc_of (image sample_cfg sample_desc (sample_guid 9) new_parts) <>
  crc_of (torn_update ≫= fun rd => dread rd.2 2 2).
Proof. vm_compute. discriminate. Qed.

Lemma gpt_update_atomic_witness :
  exists d, torn_update = Some (- EIO, d) /\
    (reads sample_cfg sample_desc (fun _ => true) d [] 2 old_parts \/
     reads sample_cfg sample_desc (fun _ => true) d [] 2 new_parts).
Proof.
  pose proof torn_update_fails as Z0. pose proof torn_crc as Cr.
  destruct torn_update as [[r d]|] eqn:E; [|discriminate]. injection Z0 as ->.
  exists d. split; [reflexivity|].
  apply (gpt_update_atomic (bs := 512) sample_cfg sample_desc (fun _ => true) (fun _ => eq_refl) 2 8 []
    sample_room sample_table eq_refl eq_refl (sample_disk (Some 7%nat)) (sample_guid 9) old_parts (sample_guid 9) new_parts (- EIO) d
    (proj1 sample_parts_ok) (proj2 sample_parts_ok) (sample_made _ (proj2 sample_restore_ok)) E).
  intros e x He Hx Hc. exfalso. apply Cr. rewrite He. cbn [mbind option_bind snd].
  change (cnt (bs := 512) 8) with 2 in Hx. rewrite Hx. symmetry. exact Hc.
Defined.

(** ** What is not checked *)

(** A header size larger than the block makes the CRC run past the buffer. *)
Lemma header_size_unchecked bs h a last : is_header bs h -> signature h = GPT_HEADER_SIGNATURE_UBOOT ->
  bs < header_size h -> validate_gpt_header h a last = None.
Proof.
  intros (L & _ & _) S B. unfold validate_gpt_header. rewrite S, Z.eqb_refl. cbn [negb].
  unfold efi_crc32, set_header_crc32. rewrite length_put_le. by branch.
Qed.

(** A primary header marked "IGNOREME" counts as valid: a header made from it
    goes over the backup header, and the entries are then written from NULL. *)
Lemma repair_from_ignored {D} `{BlockDev D} malloc cfg s1 s2 d desc r1 r2 h d' :
  is_gpt_valid malloc d desc 1 s1 None = Some r1 -> v_ret r1 = 2 -> v_pte r1 = None ->
  is_gpt_valid malloc d (v_desc r1) (lba desc -64 1) s2 None = Some r2 -> v_ret r2 = 0 ->
  prepare_backup_gpt_header (v_head r1) = Some h -> wr d desc (my_lba h) 1 h = (true, d') ->
  gpt_repair_headers malloc cfg s1 s2 d desc = None.
Proof.
  intros E1 V1 P1 E2 V2 Eh W. unfold gpt_repair_headers, GPT_PRIMARY_PARTITION_TABLE_LBA.
  rewrite E1. cbn [mbind option_bind]. rewrite E2. cbn [mbind option_bind]. rewrite V1, V2, P1, Eh.
  cbn [Z.eqb negb andb mbind option_bind]. unfold write_one_gpt_table. by rewrite W.
Qed.

(** The entries for a disk of [n] blocks of [bs] bytes. *)
Definition try_fill (num bs n : Z) (ps : list partition) : option (Z + list Z) :=
  let cfg := mk_gcfg num None (- EINVAL) None false in
  let desc := mk_desc n bs SIG_TYPE_NONE 0 [] in
  match gpt_fill_header cfg desc (replicate (Z.to_nat bs) 0) (sample_guid 1) with
  | inl _ => None
  | inr h => gpt_fill_pte cfg desc h (replicate (Z.to_nat (PAD_TO_BLOCKSIZE (num * 128) desc)) 0) ps
  end.

Definition part_at (start size : Z) : partition := mk_partition start size (replicate 32 0) 0 [] [].

(** First and last block of entry [k] if the entries were accepted. *)
Definition extent (r : option (Z + list Z)) (k : Z) : option (Z * Z) :=
  match r with
  | Some (inr e) => e ← entry_at e k; Some (starting_lba e, ending_lba e)
  | _ => None
  end.

(** Two partitions in the same place are accepted, as is one whose end wraps
    around, and one on a block of the entries that is used only in part. *)
Lemma fill_accepts :
  extent (try_fill 4 512 1000 [part_at 100 10; part_at 105 10]) 0 = Some (100, 109) /\
  extent (try_fill 4 512 1000 [part_at 100 10; part_at 105 10]) 1 = Some (105, 114) /\
  extent (try_fill 4 512 1000 [part_at 18446744073709551600 50]) 0 = Some (18446744073709551600, 33) /\
  extent (try_fill 56 4096 1000 [part_at 3 1]) 0 = Some (3, 3).
Proof. vm_compute. done. Qed.

(** A fifth partition is stored past the four entries that were allocated. *)
Lemma fill_too_many : try_fill 4 512 1000 (replicate 5 (part_at 0 1)) = None.
Proof. vm_compute. reflexivity. Qed.

(** More than 128 entries of 512-byte blocks: the backup entries run over the
    backup header and past the end of the disk. *)
Lemma many_entries_overrun :
  match gpt_fill_header (mk_gcfg 256 None (- EINVAL) None false) (mk_desc 1000 512 0 0 []) (replicate 512 0) (sample_guid 1) with
  | inr h => 1000 < last_usable_lba h + 1 + pte_blk_cnt (mk_desc 1000 512 0 0 []) h
  | inl _ => False
  end.
Proof. vm_compute. reflexivity. Qed.

End GptLayout.
