(* ===== verification/EfiMemory.v ===== *)
(** * The EFI memory map (lib/efi_loader/efi_memory.c)

    The map is a list of descriptors in the order of the linked list.  The n-th
    allocation of a list entry within a call succeeds by a parameter; pointers
    are physical addresses ([map_sysmem] is the identity but for sandbox).
    [None] means that the code uses memory it has freed.  Signalling the event
    group of the memory map and printing are left out. *)

From S2P Require Import Prelude.
From S2P Require Import Alist Lmb ListSort.
Local Open Scope uboot_scope.
Local Open Scope Z_scope.

Module EfiMemory.
Import Alist Lmb ListSort.

Definition EFI_ERROR_MASK : Z := 0x8000000000000000.
Definition EFI_SUCCESS : Z := 0.
Definition EFI_INVALID_PARAMETER : Z := EFI_ERROR_MASK + 2.
Definition EFI_BUFFER_TOO_SMALL : Z := EFI_ERROR_MASK + 5.
Definition EFI_OUT_OF_RESOURCES : Z := EFI_ERROR_MASK + 9.
Definition EFI_NOT_FOUND : Z := EFI_ERROR_MASK + 14.
Definition EFI_NO_MAPPING : Z := EFI_ERROR_MASK + 17.

Definition EFI_RESERVED_MEMORY_TYPE : Z := 0.
Definition EFI_BOOT_SERVICES_CODE : Z := 3.
Definition EFI_BOOT_SERVICES_DATA : Z := 4.
Definition EFI_RUNTIME_SERVICES_CODE : Z := 5.
Definition EFI_RUNTIME_SERVICES_DATA : Z := 6.
Definition EFI_CONVENTIONAL_MEMORY : Z := 7.
Definition EFI_MMAP_IO : Z := 11.
Definition EFI_PERSISTENT_MEMORY_TYPE : Z := 14.
Definition EFI_MAX_MEMORY_TYPE : Z := 16.

Definition EFI_MEMORY_UC : Z := 1.
Definition EFI_MEMORY_WB : Z := 8.
Definition EFI_MEMORY_XP : Z := 0x4000.
Definition EFI_MEMORY_RUNTIME : Z := 0x8000000000000000.

Definition EFI_PAGE_SHIFT : Z := 12.
Definition EFI_PAGE_SIZE : Z := 4096.
Definition EFI_PAGE_MASK : Z := 4095.

Definition EFI_CARVE_NO_OVERLAP : Z := -1.
Definition EFI_CARVE_LOOP_AGAIN : Z := -2.
Definition EFI_CARVE_OVERLAPS_NONRAM : Z := -3.
Definition EFI_CARVE_OUT_OF_RESOURCES : Z := -4.

Inductive efi_allocate_type :=
  EFI_ALLOCATE_ANY_PAGES | EFI_ALLOCATE_MAX_ADDRESS | EFI_ALLOCATE_ADDRESS | EFI_MAX_ALLOCATE_TYPE.

Record efi_mem_desc := mk_md {
  type : Z; physical_start : Z; virtual_start : Z; num_pages : Z; attribute : Z }.
Definition sizeof_efi_mem_desc : Z := 40.

Definition efi_size_in_pages (size : Z) : Z := Z.shiftr (size +64 EFI_PAGE_MASK) EFI_PAGE_SHIFT.
(** [pages << EFI_PAGE_SHIFT] and [x & ~EFI_PAGE_MASK]. *)
Definition page_bytes (pages : Z) : Z := u64 (Z.shiftl pages EFI_PAGE_SHIFT).
Definition page_floor (x : Z) : Z := Z.ldiff x EFI_PAGE_MASK.

(** ** Sorting and merging *)
Definition efi_mem_cmp (mema memb : efi_mem_desc) : Z :=
  if physical_start mema =? physical_start memb then 0
  else if physical_start mema <? physical_start memb then 1
  else -1.

Definition desc_get_end (desc : efi_mem_desc) : Z := physical_start desc +64 page_bytes (num_pages desc).

Definition mergeable (cur prev : efi_mem_desc) : bool :=
  (desc_get_end cur =? physical_start prev) && (type prev =? type cur) && (attribute prev =? attribute cur).

Definition absorb (prev cur : efi_mem_desc) : efi_mem_desc :=
  let pages := num_pages cur in
  mk_md (type prev) (physical_start prev -64 page_bytes pages) (virtual_start prev -64 page_bytes pages)
    (num_pages prev +64 pages) (attribute prev).

(** One walk over the list from element [i], with [prevmem] the index of the
    element it points to.  Merging frees element [i]. *)
Fixpoint merge_pass (n : nat) (l : list efi_mem_desc) (prevmem : option nat) (i : nat)
    : option (list efi_mem_desc * option nat * bool) :=
  match n, l !! i with
  | S n, Some cur =>
    match prevmem with
    | None => merge_pass n l (Some i) (S i)
    | Some k =>
      prev ← l !! k;
      if mergeable cur prev then
        if (i =? k)%nat then None
        else Some (delete i (<[k := absorb prev cur]> l), Some (if (i <? k)%nat then (k - 1)%nat else k), true)
      else merge_pass n l (Some i) (S i)
    end
  | _, _ => Some (l, prevmem, false)
  end.

Fixpoint merge_loop (n : nat) (l : list efi_mem_desc) (prevmem : option nat) : option (list efi_mem_desc) :=
  match n with
  | O => None
  | S n =>
    '(l, prevmem, merge_again) ← merge_pass (S (length l)) l prevmem 0;
    if merge_again : bool then merge_loop n l prevmem else Some l
  end.

Definition efi_mem_sort (l : list efi_mem_desc) : option (list efi_mem_desc) :=
  l ← list_sort efi_mem_cmp l;
  merge_loop (S (length l)) l None.

(** ** Changing the map *)

(** The result, and the entries that take the place of [map]; [calloc_ok] if an
    entry can be allocated. *)
Definition efi_mem_carve_out (map carve_desc : efi_mem_desc) (overlap_conventional calloc_ok : bool)
    : Z * list efi_mem_desc :=
  let map_start := physical_start map in
  let map_end := map_start +64 page_bytes (num_pages map) in
  let carve_start := physical_start carve_desc in
  let carve_end := carve_start +64 page_bytes (num_pages carve_desc) in
  if (carve_end <=? map_start) || (map_end <=? carve_start) then (EFI_CARVE_NO_OVERLAP, [map])
  else if overlap_conventional && negb (type map =? EFI_CONVENTIONAL_MEMORY)
  then (EFI_CARVE_OVERLAPS_NONRAM, [map])
  else
    let carve_start := Z.max carve_start map_start in
    let carve_end := Z.min carve_end map_end in
    if carve_start =? map_start then
      (Z.shiftr (carve_end -64 carve_start) EFI_PAGE_SHIFT,
       if map_end =? carve_end then []
       else [mk_md (type map) carve_end carve_end (Z.shiftr (map_end -64 carve_end) EFI_PAGE_SHIFT) (attribute map)])
    else if negb calloc_ok then (EFI_CARVE_OUT_OF_RESOURCES, [map])
    else
      (EFI_CARVE_LOOP_AGAIN,
       [mk_md (type map) carve_start carve_start (Z.shiftr (map_end -64 carve_start) EFI_PAGE_SHIFT) (attribute map);
        mk_md (type map) map_start (virtual_start map) (Z.shiftr (carve_start -64 map_start) EFI_PAGE_SHIFT) (attribute map)]).

(** The walk up to the first entry that overlaps. *)
Fixpoint carve_pass (l : list efi_mem_desc) (carve_desc : efi_mem_desc) (overlap_conventional calloc_ok : bool)
    : Z * list efi_mem_desc :=
  match l with
  | [] => (EFI_CARVE_NO_OVERLAP, [])
  | lmem :: l' =>
    let '(r, ms) := efi_mem_carve_out lmem carve_desc overlap_conventional calloc_ok in
    if r =? EFI_CARVE_NO_OVERLAP then
      let '(r, l') := carve_pass l' carve_desc overlap_conventional calloc_ok in (r, lmem :: l')
    else (r, ms ++ l')
  end.

Section Alloc.
Context (calloc : nat -> bool).

(** The loop that walks again after every change: the error and the list, or
    the pages carved out and the list.  [k] entries were allocated so far. *)
Fixpoint carve_loop (n k : nat) (l : list efi_mem_desc) (carve_desc : efi_mem_desc)
    (overlap_conventional : bool) (carved_pages : Z)
    : option (Z * list efi_mem_desc + Z * list efi_mem_desc) :=
  match n with
  | O => None
  | S n =>
    let '(r, l') := carve_pass l carve_desc overlap_conventional (calloc k) in
    if r =? EFI_CARVE_OUT_OF_RESOURCES then Some (inl (EFI_OUT_OF_RESOURCES, l'))
    else if r =? EFI_CARVE_OVERLAPS_NONRAM then Some (inl (EFI_NO_MAPPING, l'))
    else if r =? EFI_CARVE_NO_OVERLAP then Some (inr (carved_pages, l'))
    else if r =? EFI_CARVE_LOOP_AGAIN then carve_loop n (S k) l' carve_desc overlap_conventional carved_pages
    else carve_loop n k l' carve_desc overlap_conventional (carved_pages +64 r)
  end.

Definition default_attribute (memory_type : Z) : Z :=
  if (memory_type =? EFI_RUNTIME_SERVICES_CODE) || (memory_type =? EFI_RUNTIME_SERVICES_DATA)
  then Z.lor EFI_MEMORY_WB EFI_MEMORY_RUNTIME
  else if memory_type =? EFI_MMAP_IO then EFI_MEMORY_RUNTIME
  else EFI_MEMORY_WB.

Record efi := mk_efi { efi_mem : list efi_mem_desc; efi_memory_map_key : Z }.

(** [memory_type] is an [int]. *)
Definition efi_add_memory_map_pg (e : efi) (start pages memory_type : Z) (overlap_conventional : bool)
    (attr : Z) : option (Z * efi) :=
  if EFI_MAX_MEMORY_TYPE <=? memory_type then Some (EFI_INVALID_PARAMETER, e)
  else if pages =? 0 then Some (EFI_SUCCESS, e)
  else
    let key := efi_memory_map_key e +64 1 in
    if negb (calloc 0) then Some (EFI_OUT_OF_RESOURCES, mk_efi (efi_mem e) key)
    else
      let newlist := mk_md (u32 memory_type) start start pages
        (if negb (attr =? 0) then attr else default_attribute memory_type) in
      r ← carve_loop (S (2 * length (efi_mem e))) 1 (efi_mem e) newlist overlap_conventional 0;
      match r with
      | inl (status, l) => Some (status, mk_efi l key)
      | inr (carved_pages, l) =>
        if overlap_conventional && negb (carved_pages =? pages) then Some (EFI_NO_MAPPING, mk_efi l key)
        else l ← efi_mem_sort (l ++ [newlist]); Some (EFI_SUCCESS, mk_efi l key)
      end.

Definition efi_add_memory_map (e : efi) (start size memory_type : Z) : option (Z * efi) :=
  let pages := efi_size_in_pages (size +64 Z.land start EFI_PAGE_MASK) in
  efi_add_memory_map_pg e (page_floor start) pages memory_type false 0.

Definition efi_add_memory_map_attr (e : efi) (start size memory_type attr : Z) : option (Z * efi) :=
  let pages := efi_size_in_pages (size +64 Z.land start EFI_PAGE_MASK) in
  efi_add_memory_map_pg e (page_floor start) pages memory_type false attr.

Fixpoint check_loop (l : list efi_mem_desc) (addr : Z) (must_be_allocated : bool) : Z :=
  match l with
  | [] => EFI_NOT_FOUND
  | item :: l =>
    let start := physical_start item in
    let stop := start +64 page_bytes (num_pages item) in
    if (start <=? addr) && (addr <? stop) then
      if xorb must_be_allocated (type item =? EFI_CONVENTIONAL_MEMORY) then EFI_SUCCESS else EFI_NOT_FOUND
    else check_loop l addr must_be_allocated
  end.

Definition efi_check_allocated (e : efi) (addr : Z) (must_be_allocated : bool) : Z :=
  check_loop (efi_mem e) addr must_be_allocated.

(** The result of the map, ascending, and its key; [provided] is the size of the
    buffer, [map_given] whether there is one. *)
Definition efi_get_memory_map (e : efi) (provided_map_size : option Z) (map_given : bool)
    : Z * option Z * list efi_mem_desc * Z :=
  match provided_map_size with
  | None => (EFI_INVALID_PARAMETER, None, [], 0)
  | Some provided =>
    let map_size := u64 (Z.of_nat (length (efi_mem e)) * sizeof_efi_mem_desc) in
    if provided <? map_size then (EFI_BUFFER_TOO_SMALL, Some map_size, [], 0)
    else if negb map_given then (EFI_INVALID_PARAMETER, Some map_size, [], 0)
    else (EFI_SUCCESS, Some map_size, rev (efi_mem e), efi_memory_map_key e)
  end.

(** What the memory blocks report; with [windows] CONFIG_TACHYON_WINDOWS_BOOT. *)
Definition efi_map_update_notify (windows : bool) (e : efi) (addr size : Z) (op : lmb_map_op) (flags : Z)
    : option (Z * efi) :=
  let pages := efi_size_in_pages (size +64 Z.land addr EFI_PAGE_MASK) in
  let nomap := negb (Z.land flags LMB_NOMAP =? 0) in
  let ty := match op with
            | LMB_MAP_OP_RESERVE => if nomap then EFI_RESERVED_MEMORY_TYPE else EFI_BOOT_SERVICES_DATA
            | _ => EFI_CONVENTIONAL_MEMORY
            end in
  '(status, e) ← efi_add_memory_map_pg e (page_floor addr) pages ty false
    (if windows && nomap then Z.lor EFI_MEMORY_UC EFI_MEMORY_XP else 0);
  Some (if negb (status =? EFI_SUCCESS) then -1 else 0, e).

End Alloc.
End EfiMemory.
