(* ===== verification/EfiMap.v ===== *)
(** * Properties of the EFI memory map

    What the map says of an address, and that adding pages changes exactly the
    pages it names: carving out, sorting and merging of
    lib/efi_loader/efi_memory.c. *)

From stdpp Require Import sorting.
From S2P Require Import Prelude.
From S2P Require Import Alist Lmb ListSort EfiMemory.
Local Open Scope uboot_scope.
Local Open Scope Z_scope.

Module EfiMap.
Import Alist Lmb ListSort EfiMemory.

(** ** The map as a relation between addresses and types *)
Definition pend (d : efi_mem_desc) : Z := physical_start d + 4096 * num_pages d.

Definition ok (d : efi_mem_desc) : Prop :=
  0 <= physical_start d /\ physical_start d mod 4096 = 0 /\ 0 < num_pages d /\ pend d < TOP.

Definition covers (d : efi_mem_desc) (a : Z) : Prop := physical_start d <= a < pend d.

Definition maps (l : list efi_mem_desc) (a t at' : Z) : Prop :=
  exists d, d ∈ l /\ covers d a /\ type d = t /\ attribute d = at'.

Definition apart (d d' : efi_mem_desc) : Prop := pend d <= physical_start d' \/ pend d' <= physical_start d.

(** Sound entries that do not overlap, in any order. *)
Definition sound (l : list efi_mem_desc) : Prop := Forall ok l /\ StronglySorted apart l.

(** The map between operations: from the highest address down, and no two
    neighbours that could be one. *)
Definition descending (l : list efi_mem_desc) : Prop := StronglySorted (fun d d' => pend d' <= physical_start d) l.
Definition unmerged (l : list efi_mem_desc) : Prop :=
  forall i d d', l !! i = Some d -> l !! S i = Some d' -> mergeable d' d = false.
Definition map_wf (l : list efi_mem_desc) : Prop := Forall ok l /\ descending l /\ unmerged l.

Lemma page_bytes_exact p : 0 <= p -> 4096 * p < TOP -> page_bytes p = 4096 * p.
Proof.
  intros Hp Hl. unfold page_bytes, EFI_PAGE_SHIFT. rewrite Z.shiftl_mul_pow2 by lia.
  change (2 ^ 12) with 4096. rewrite u64_small; unfold TOP in *; lia.
Qed.

Lemma end_exact d : ok d -> desc_get_end d = pend d.
Proof.
  intros (H1 & H2 & H3 & H4). unfold desc_get_end, pend in *. rewrite page_bytes_exact by lia.
  apply u64_small. unfold TOP in *. lia.
Qed.

Lemma pages_exact a b : 0 <= a <= b -> b < TOP -> Z.shiftr (b -64 a) EFI_PAGE_SHIFT = (b - a) / 4096.
Proof.
  intros H1 H2. unfold EFI_PAGE_SHIFT. rewrite u64_small by (unfold TOP in *; lia). by rewrite Z.shiftr_div_pow2 by lia.
Qed.

Lemma pages_between a b : a mod 4096 = 0 -> b mod 4096 = 0 -> 4096 * ((b - a) / 4096) = b - a.
Proof. intros Ha Hb. Z.to_euclidean_division_equations. lia. Qed.

Lemma ok_pend d : ok d -> pend d mod 4096 = 0.
Proof. intros (H1 & H2 & H3 & H4). unfold pend. rewrite Z.mul_comm, Z_mod_plus_full. done. Qed.

Lemma apart_sym d d' : apart d d' -> apart d' d.
Proof. unfold apart. tauto. Qed.

Lemma maps_perm l l' a t at' : l ≡ₚ l' -> maps l a t at' -> maps l' a t at'.
Proof. intros P (d & Hd & H). exists d. by rewrite <- P. Qed.

Lemma maps_app l l' a t at' : maps (l ++ l') a t at' <-> maps l a t at' \/ maps l' a t at'.
Proof.
  unfold maps. split.
  - intros (d & [Hd | Hd]%elem_of_app & H); eauto.
  - intros [(d & Hd & H) | (d & Hd & H)]; exists d; rewrite elem_of_app; auto.
Qed.

Lemma maps_one d a t at' : maps [d] a t at' <-> covers d a /\ type d = t /\ attribute d = at'.
Proof.
  unfold maps. split; [intros (x & Hx & H)|intros H; exists d; rewrite list_elem_of_singleton; done].
  apply list_elem_of_singleton in Hx as ->. done.
Qed.

Lemma maps_cons d l a t at' : maps (d :: l) a t at' <-> maps [d] a t at' \/ maps l a t at'.
Proof. apply (maps_app [d] l). Qed.

Lemma sorted_perm l l' : l ≡ₚ l' -> StronglySorted apart l -> StronglySorted apart l'.
Proof.
  induction 1 as [|x l l' P IH|x y l|l1 l2 l3 P1 IH1 P2 IH2]; intros S; [done| | |auto].
  - apply StronglySorted_inv in S as [S F]. constructor; [auto|]. by rewrite <- P.
  - apply StronglySorted_inv in S as [[S F]%StronglySorted_inv F2]. apply Forall_cons in F2 as [A F2].
    constructor; [by constructor|]. constructor; [by apply apart_sym|done].
Qed.

Lemma sound_perm l l' : l ≡ₚ l' -> sound l -> sound l'.
Proof. intros P [F S]. split; [by rewrite <- P|by apply (sorted_perm l)]. Qed.

Lemma sound_cons d l : sound (d :: l) <-> ok d /\ Forall (apart d) l /\ sound l.
Proof.
  unfold sound. rewrite Forall_cons. split.
  - intros [[H1 H2] [S F]%StronglySorted_inv]. done.
  - intros (H1 & H2 & H3 & H4). split; [done|]. by constructor.
Qed.

Lemma sound_app l l' : sound (l ++ l') <-> sound l /\ sound l' /\ Forall (fun d => Forall (apart d) l') l.
Proof.
  induction l as [|d l IH]; simpl.
  - split; [intros; split_and!; try done; by repeat constructor|tauto].
  - rewrite !sound_cons, IH, Forall_app, Forall_cons. tauto.
Qed.

Lemma descending_app l l' :
  descending (l ++ l') <-> descending l /\ descending l' /\ Forall (fun d => Forall (fun d' => pend d' <= physical_start d) l') l.
Proof.
  unfold descending. induction l as [|d l IH]; simpl.
  - split; [intros; split_and!; try done; constructor|tauto].
  - rewrite !StronglySorted_cons, IH, Forall_app, Forall_cons. tauto.
Qed.

(** ** Carving out *)
Section Carve.
Context (c : efi_mem_desc) (Hc : ok c) (overlap calloc_ok : bool).

(** How the entries that take the place of [m] relate to it. *)
Definition trims (m : efi_mem_desc) (ms : list efi_mem_desc) (keep : Z -> Prop) : Prop :=
  sound ms /\ descending ms /\ Forall (fun d => physical_start m <= physical_start d /\ pend d <= pend m) ms /\
  forall a t at', maps ms a t at' <-> maps [m] a t at' /\ keep a.

(** The pages of an entry that lie in [c]. *)
Definition shared (m : efi_mem_desc) : Z :=
  Z.max 0 ((Z.min (pend c) (pend m) - Z.max (physical_start c) (physical_start m)) / 4096).

Definition overlaps (m : efi_mem_desc) : bool := negb ((pend c <=? physical_start m) || (pend m <=? physical_start c)).

(** How much work an entry still is. *)
Definition weight (m : efi_mem_desc) : nat :=
  if overlaps m then if physical_start m <? physical_start c then 2%nat else 1%nat else O.

Definition work (l : list efi_mem_desc) : nat := list_sum (weight <$> l).
Definition total (l : list efi_mem_desc) : Z := foldr (fun d s => shared d + s) 0 l.

Lemma ok_nonempty m : ok m -> physical_start m < pend m.
Proof using Type. intros (M1 & M2 & M3 & M4). unfold pend. lia. Qed.

(** [m] starts in [c]: its front goes. *)
Lemma carve_front m : ok m -> physical_start c <= physical_start m < pend c ->
  let e := Z.min (pend c) (pend m) in
  let ms := if pend m =? e then []
            else [mk_md (type m) e e (Z.shiftr (pend m -64 e) EFI_PAGE_SHIFT) (attribute m)] in
  let r := Z.shiftr (e -64 physical_start m) EFI_PAGE_SHIFT in
  0 < r /\ r = shared m /\ trims m ms (fun a => ~ covers c a) /\ weight m = 1%nat /\
  Forall (fun d => overlaps d = false) ms /\ Forall (fun d => type d = type m) ms.
Proof using Hc.
  intros Hm Hs e ms r. pose proof Hm as (M1 & M2 & M3 & M4). pose proof Hc as (C1 & C2 & C3 & C4).
  pose proof (ok_pend m Hm) as Em. pose proof (ok_pend c Hc) as Ec. pose proof (ok_nonempty m Hm) as Pm.
  assert (Sh : shared m = (e - physical_start m) / 4096).
  { unfold shared. rewrite (Z.max_r (physical_start c)) by lia. apply Z.max_r, Z.div_pos; lia. }
  assert (Wt : weight m = 1%nat).
  { unfold weight, overlaps. replace (_ || _) with false by lia. cbn [negb]. by replace (_ <? _) with false by lia. }
  unfold r. rewrite pages_exact, Sh by lia. split; [Z.to_euclidean_division_equations; lia|]. split; [done|].
  subst ms. destruct (pend m =? e) eqn:Fu.
  - apply Z.eqb_eq in Fu. split_and!; try done; [|constructor..]. split_and!; [by repeat constructor|constructor|constructor|].
    intros a t at'. rewrite maps_one. split; [intros (x & Hx & _); by apply elem_of_nil in Hx|].
    intros [(Ca & _) K]. exfalso. apply K. unfold covers in *. lia.
  - apply Z.eqb_neq in Fu. assert (e = pend c) as Ee by lia. clear Sh. rewrite Ee in *. rewrite pages_exact by lia.
    set (d := mk_md _ _ _ _ _). assert (Sd : physical_start d = pend c) by done. assert (Ed : pend d = pend m).
    { unfold d, pend at 1. cbn [physical_start num_pages]. rewrite pages_between by done. lia. }
    assert (Od : ok d).
    { split_and!; [lia|by rewrite Sd| |lia]. unfold d. cbn [num_pages]. Z.to_euclidean_division_equations. lia. }
    split_and!; try done.
    + split_and!; [apply sound_cons; split_and!; [done|constructor|by repeat constructor]|by repeat constructor|constructor; [lia|constructor]|].
      intros a t at'. rewrite !maps_one. unfold covers. rewrite Ed, Sd. cbn [type attribute d]. split; [|lia].
      intros (H1 & H2 & H3). split_and!; try done; lia.
    + constructor; [|constructor]. unfold overlaps. rewrite Ed, Sd. apply negb_false_iff, orb_true_iff. left. lia.
    + by repeat constructor.
Qed.

(** [m] starts below [c]: it is split where [c] starts. *)
Lemma carve_split m : ok m -> physical_start m < physical_start c < pend m ->
  let s := physical_start c in
  let ms := [mk_md (type m) s s (Z.shiftr (pend m -64 s) EFI_PAGE_SHIFT) (attribute m);
             mk_md (type m) (physical_start m) (virtual_start m) (Z.shiftr (s -64 physical_start m) EFI_PAGE_SHIFT) (attribute m)] in
  trims m ms (fun _ => True) /\ weight m = 2%nat /\
  Forall (fun d => type d = type m) ms /\ work ms = 1%nat /\ total ms = shared m.
Proof using Hc.
  intros Hm Hs s ms. pose proof Hm as (M1 & M2 & M3 & M4). pose proof Hc as (C1 & C2 & C3 & C4).
  pose proof (ok_pend m Hm) as Em. pose proof (ok_nonempty c Hc) as Pc. subst ms. rewrite !pages_exact by lia.
  set (d1 := mk_md _ _ s _ _). set (d2 := mk_md _ _ (virtual_start m) _ _).
  assert (E1 : pend d1 = pend m).
  { unfold d1, pend at 1. cbn [physical_start num_pages]. rewrite pages_between by done. lia. }
  assert (E2 : pend d2 = s).
  { unfold d2, pend at 1. cbn [physical_start num_pages]. rewrite pages_between by done. lia. }
  assert (S1 : physical_start d1 = s) by done. assert (S2 : physical_start d2 = physical_start m) by done.
  assert (K1 : ok d1).
  { split_and!; [lia|by rewrite S1| |lia]. unfold d1. cbn [num_pages]. Z.to_euclidean_division_equations. lia. }
  assert (K2 : ok d2).
  { split_and!; [lia|by rewrite S2| |lia]. unfold d2. cbn [num_pages]. Z.to_euclidean_division_equations. lia. }
  unfold s in *. split_and!.
  - split_and!.
    + apply sound_cons. split_and!; [done|constructor; [right; lia|constructor]|].
      apply sound_cons. split_and!; [done|constructor|by repeat constructor].
    + constructor; [by repeat constructor|]. constructor; [lia|constructor].
    + repeat constructor; lia.
    + intros a t at'. rewrite maps_cons, !maps_one. unfold covers. rewrite E1, E2, S1, S2.
      change (type d1) with (type m). change (type d2) with (type m).
      change (attribute d1) with (attribute m). change (attribute d2) with (attribute m). lia.
  - unfold weight, overlaps. replace (_ || _) with false by lia. cbn [negb]. by replace (_ <? _) with true by lia.
  - by repeat constructor.
  - unfold work. cbn [fmap list_fmap list_sum]. unfold weight, overlaps. rewrite E1, E2, S1, S2.
    replace ((pend c <=? physical_start c) || (pend m <=? physical_start c)) with false by lia.
    replace ((pend c <=? physical_start m) || (physical_start c <=? physical_start c)) with true by lia.
    cbn [negb]. by replace (physical_start c <? physical_start c) with false by lia.
  - unfold total. cbn [foldr]. unfold shared. rewrite E1, E2, S1, S2, Z.max_id, (Z.max_l (physical_start c)) by lia.
    replace (Z.min (pend c) (physical_start c)) with (physical_start c) by lia.
    rewrite Z.sub_diag. change (Z.max 0 (0 / 4096)) with 0. lia.
Qed.

Lemma carve_out_spec m : ok m ->
  let '(r, ms) := efi_mem_carve_out m c overlap calloc_ok in
  (overlaps m = false /\ r = EFI_CARVE_NO_OVERLAP /\ ms = [m]) \/
  (overlaps m = true /\ overlap = true /\ type m <> EFI_CONVENTIONAL_MEMORY /\
   r = EFI_CARVE_OVERLAPS_NONRAM /\ ms = [m]) \/
  (overlaps m = true /\ (overlap = true -> type m = EFI_CONVENTIONAL_MEMORY) /\
   ((calloc_ok = false /\ r = EFI_CARVE_OUT_OF_RESOURCES /\ ms = [m]) \/
    (r = EFI_CARVE_LOOP_AGAIN /\ trims m ms (fun _ => True) /\ weight m = 2%nat /\
     Forall (fun d => type d = type m) ms /\ work ms = 1%nat /\ total ms = shared m) \/
    (0 < r /\ r = shared m /\ trims m ms (fun a => ~ covers c a) /\ weight m = 1%nat /\
     Forall (fun d => overlaps d = false) ms /\ Forall (fun d => type d = type m) ms))).
Proof using Hc.
  intros Hm. unfold efi_mem_carve_out. fold (desc_get_end m) (desc_get_end c). rewrite !end_exact by done.
  unfold overlaps at 1 2 3. destruct (_ || _) eqn:Ov; cbv beta iota; [left; done|]. cbn [negb].
  apply orb_false_iff in Ov as [O1 O2]. apply Z.leb_gt in O1, O2.
  destruct (overlap && negb (type m =? EFI_CONVENTIONAL_MEMORY)) eqn:Nr; cbv beta iota.
  { right. left. apply andb_true_iff in Nr as [-> N]. apply negb_true_iff, Z.eqb_neq in N. done. }
  assert (Cv : overlap = true -> type m = EFI_CONVENTIONAL_MEMORY).
  { intros ->. cbn [andb] in Nr. by apply negb_false_iff, Z.eqb_eq in Nr. }
  destruct (Z.max (physical_start c) (physical_start m) =? physical_start m) eqn:Fr; cbv beta iota.
  - apply Z.eqb_eq in Fr. rewrite Fr. right. right. split; [done|]. split; [done|]. right. right.
    apply carve_front; [done|lia].
  - apply Z.eqb_neq in Fr. rewrite Z.max_l by lia.
    destruct calloc_ok; cbn [negb]; (right; right; split; [done|]; split; [done|]); [|left; done]. right. left. split; [done|].
    apply carve_split; [done|lia].
Qed.

(** One walk: what is gone is in [c], and conventional if it has to be. *)
Definition within (d d' : efi_mem_desc) : Prop := physical_start d' <= physical_start d /\ pend d <= pend d'.

Record shrinks (l l' : list efi_mem_desc) : Prop := {
  sh_sound : sound l';
  sh_desc : descending l -> descending l';
  sh_within : Forall (fun d' => exists d, d ∈ l /\ within d' d) l';
  sh_maps a t at' : maps l' a t at' -> maps l a t at';
  sh_keeps a t at' : maps l a t at' -> ~ covers c a -> maps l' a t at';
  sh_gone a t at' : maps l a t at' -> maps l' a t at' \/ (overlap = true -> t = EFI_CONVENTIONAL_MEMORY) }.

Lemma within_apart d d' x : within d d' -> apart d' x -> apart d x.
Proof using Type. unfold within, apart. lia. Qed.

Lemma trims_shrinks m ms (keep : Z -> Prop) : trims m ms keep ->
  (forall a, ~ covers c a -> keep a) -> (overlap = true -> type m = EFI_CONVENTIONAL_MEMORY) -> shrinks [m] ms.
Proof using Type.
  intros (Sm & De & W & Mp) Kp Ty. split.
  - done.
  - done.
  - eapply Forall_impl; [exact W|]. intros d Hd. exists m. split; [by apply list_elem_of_singleton|done].
  - intros a t at'. rewrite Mp. tauto.
  - intros a t at' H N. apply Mp. split; [done|by apply Kp].
  - intros a t at' H. right. intros Ho. apply maps_one in H as (_ & <- & _). auto.
Qed.

Lemma shrinks_refl l : sound l -> shrinks l l.
Proof using Type.
  intros S. split; [done|done| |by intros|by intros|by left].
  apply Forall_forall. intros d Hd. exists d. split; [done|]. split; reflexivity.
Qed.

Lemma shrinks_cons m l l' : ok m -> Forall (apart m) l -> shrinks l l' -> shrinks (m :: l) (m :: l').
Proof using Type.
  intros Hm A [S De W M K G]. split.
  - apply sound_cons. split_and!; try done. eapply Forall_impl; [exact W|]. intros d' (d & Hd & Hw).
    rewrite Forall_forall in A. apply apart_sym, (within_apart d' d m Hw), apart_sym. by apply A.
  - intros D. apply StronglySorted_inv in D as [D F]. constructor; [by apply De|].
    eapply Forall_impl; [exact W|]. intros d' (d & Hd & Hw). rewrite Forall_forall in F. specialize (F d Hd).
    unfold within in Hw. lia.
  - constructor; [exists m; split; [apply list_elem_of_here|unfold within; lia]|].
    eapply Forall_impl; [exact W|]. intros d' (d & Hd & Hw). exists d. split; [by apply list_elem_of_further|done].
  - intros a t at'. rewrite (maps_cons m l), (maps_cons m l'). intros [H | H]; [by left|right; auto].
  - intros a t at'. rewrite (maps_cons m l), (maps_cons m l'). intros [H | H] N; [by left|right; auto].
  - intros a t at'. rewrite (maps_cons m l), (maps_cons m l'). intros [H | H]; [by left; left|]. destruct (G _ _ _ H); auto.
Qed.

Lemma shrinks_head m ms l : Forall (apart m) l -> sound l -> shrinks [m] ms -> shrinks (m :: l) (ms ++ l).
Proof using Type.
  intros A Sl [S De W M K G]. split.
  - apply sound_app. split_and!; try done. eapply Forall_impl; [exact W|]. intros d' (d & Hd & Hw).
    apply list_elem_of_singleton in Hd as ->. eapply Forall_impl; [exact A|]. intros x. by apply within_apart.
  - intros D. apply StronglySorted_inv in D as [D F]. apply descending_app. split_and!; [apply De; by repeat constructor|done|].
    eapply Forall_impl; [exact W|]. intros d' (d & Hd & Hw). apply list_elem_of_singleton in Hd as ->.
    eapply Forall_impl; [exact F|]. unfold within in Hw. intros x Hx. cbv beta in Hx. lia.
  - apply Forall_app. split.
    + eapply Forall_impl; [exact W|]. intros d' (d & Hd & Hw). apply list_elem_of_singleton in Hd as ->.
      exists m. split; [apply list_elem_of_here|done].
    + apply Forall_forall. intros d Hd. exists d. split; [by apply list_elem_of_further|unfold within; lia].
  - intros a t at'. rewrite maps_app, (maps_cons m l). intros [H | H]; [left; auto|by right].
  - intros a t at'. rewrite maps_app, (maps_cons m l). intros [H | H] N; [left; auto|by right].
  - intros a t at'. rewrite maps_app, (maps_cons m l). intros [H | H]; [|by left; right]. destruct (G _ _ _ H); auto.
Qed.

Lemma shrinks_trans l1 l2 l3 : shrinks l1 l2 -> shrinks l2 l3 -> shrinks l1 l3.
Proof using Type.
  intros [S1 De1 W1 M1 K1 G1] [S2 De2 W2 M2 K2 G2]. split; [done|by auto| |by eauto|by eauto|].
  - rewrite Forall_forall in W1. eapply Forall_impl; [exact W2|]. intros d3 (d2 & H2 & Hw).
    destruct (W1 d2 H2) as (d1 & H1 & Hw'). exists d1. split; [done|]. unfold within in *. lia.
  - intros a t at' H. destruct (G1 _ _ _ H) as [H2|]; auto.
Qed.

(** Entries that do not overlap share nothing. *)
Lemma no_overlap_free m : ok m -> overlaps m = false -> weight m = O /\ shared m = 0 /\ forall a, covers m a -> ~ covers c a.
Proof using Hc.
  intros (M1 & M2 & M3 & M4) O. unfold weight, shared, covers. rewrite O. split; [done|].
  unfold overlaps in O. apply negb_false_iff in O. split; [|lia].
  apply Z.max_l. destruct Hc as (C1 & C2 & C3 & C4). apply Z.div_le_upper_bound; unfold pend in *; lia.
Qed.

Lemma work_cons d l : work (d :: l) = (weight d + work l)%nat.
Proof using Type. done. Qed.
Lemma total_cons d l : total (d :: l) = shared d + total l.
Proof using Type. done. Qed.

Lemma work_app l l' : work (l ++ l') = (work l + work l')%nat.
Proof using Type. unfold work. by rewrite fmap_app, list_sum_app. Qed.

Lemma total_app l l' : total (l ++ l') = total l + total l'.
Proof using Type. unfold total. induction l; simpl; lia. Qed.

Lemma free_sums l : Forall ok l -> Forall (fun d => overlaps d = false) l -> work l = O /\ total l = 0.
Proof using Hc.
  intros K F. induction l as [|d l IH]; [done|]. apply Forall_cons in K as [Kd K]. apply Forall_cons in F as [Fd F].
  destruct (no_overlap_free d Kd Fd) as (W & Sh & _). destruct (IH K F) as [IW IT].
  rewrite work_cons, total_cons, W, Sh, IW, IT. done.
Qed.

Lemma carve_pass_spec l : sound l ->
  let '(r, l') := carve_pass l c overlap calloc_ok in
  (r = EFI_CARVE_NO_OVERLAP /\ l' = l /\ Forall (fun d => overlaps d = false) l) \/
  (r = EFI_CARVE_OVERLAPS_NONRAM /\ l' = l /\ overlap = true /\
   exists a t at', covers c a /\ maps l a t at' /\ t <> EFI_CONVENTIONAL_MEMORY) \/
  (r = EFI_CARVE_OUT_OF_RESOURCES /\ l' = l /\ calloc_ok = false) \/
  (r = EFI_CARVE_LOOP_AGAIN /\ shrinks l l' /\ work l = S (work l') /\ total l = total l') \/
  (0 < r /\ shrinks l l' /\ work l = S (work l') /\ total l = r + total l').
Proof using Hc.
  induction l as [|m l IH]; intros Sl; cbn [carve_pass]; [left; split_and!; [done..|constructor]|].
  apply sound_cons in Sl as (Hm & A & Sl). specialize (IH Sl). pose proof (carve_out_spec m Hm) as C.
  destruct (efi_mem_carve_out m c overlap calloc_ok) as [r ms] eqn:E.
  destruct C as [(O & -> & ->) | [(O & Ho & T & -> & ->) | (O & T & [(Ca & -> & ->) | [C | C]])]]; cbv beta iota.
  - change (_ =? _) with true. cbv beta iota. destruct (carve_pass l c overlap calloc_ok) as [r l'].
    destruct (no_overlap_free m Hm O) as (W & Sh & Fr).
    destruct IH as [(-> & -> & F) | [(-> & -> & Ho & a & t & at' & H) | [(-> & -> & Ca) | [(-> & S & Wk & Tt) | (R & S & Wk & Tt)]]]].
    + left. split_and!; [done..|by constructor].
    + right. left. split_and!; try done. exists a, t, at'. rewrite maps_cons. tauto.
    + right. right. left. done.
    + right. right. right. left. split_and!; [done|by apply shrinks_cons| |]; rewrite ?work_cons, ?total_cons; lia.
    + right. right. right. right. split_and!; [done|by apply shrinks_cons| |]; rewrite ?work_cons, ?total_cons; lia.
  - right. left. split_and!; try done. exists (Z.max (physical_start c) (physical_start m)), (type m), (attribute m).
    rewrite maps_cons, maps_one. unfold covers. unfold overlaps in O.
    destruct Hm as (M1 & M2 & M3 & M4), Hc as (C1 & C2 & C3 & C4).
    assert (physical_start m < pend m) by (unfold pend; lia). assert (physical_start c < pend c) by (unfold pend; lia). lia.
  - right. right. left. done.
  - destruct C as (-> & Tr & W & Ty & Wk & Tt). right. right. right. left. split; [done|].
    split; [|by rewrite work_app, total_app; rewrite work_cons, total_cons; lia].
    apply shrinks_head; [done..|]. by apply (trims_shrinks m ms (fun _ => True)).
  - destruct C as (R & Rs & Tr & W & Fo & Ty).
    replace (r =? EFI_CARVE_NO_OVERLAP) with false by (unfold EFI_CARVE_NO_OVERLAP; lia). cbv beta iota.
    right. right. right. right. split; [done|].
    assert (Oms : Forall ok ms) by apply Tr.
    split; [|rewrite work_app, total_app, (proj1 (free_sums ms Oms Fo)), (proj2 (free_sums ms Oms Fo)); rewrite work_cons, total_cons; lia].
    apply shrinks_head; [done..|]. by apply (trims_shrinks m ms (fun a => ~ covers c a)).
Qed.

End Carve.

(** ** The loop of [efi_add_memory_map_pg] *)
Section Loop.
Context (c : efi_mem_desc) (Hc : ok c) (overlap : bool) (calloc : nat -> bool).

Definition carve_result (l : list efi_mem_desc) (carved : Z) (r : Z * list efi_mem_desc + Z * list efi_mem_desc) : Prop :=
  match r with
  | inr (p, l') => p = carved + total c l /\ shrinks c overlap l l' /\ Forall (fun d => overlaps c d = false) l'
  | inl (st, l') => shrinks c overlap l l' /\
    ((st = EFI_NO_MAPPING /\ overlap = true /\
      exists a t at', covers c a /\ maps l a t at' /\ t <> EFI_CONVENTIONAL_MEMORY) \/
     (st = EFI_OUT_OF_RESOURCES /\ exists j, calloc j = false))
  end.

Lemma carve_result_step l l' carved carved' r : shrinks c overlap l l' -> carved + total c l = carved' + total c l' ->
  carve_result l' carved' r -> carve_result l carved r.
Proof using Type.
  intros Sh E. pose proof Sh as [_ _ _ M _ _]. destruct r as [[st l2] | [p l2]]; simpl.
  - intros (S & R). split; [by apply (shrinks_trans c overlap l l')|].
    destruct R as [(-> & Ho & a & t & at' & Ca & Ma & T) | R]; [left|by right].
    split_and!; try done. exists a, t, at'. auto.
  - intros (-> & S & F). split_and!; [lia|by apply (shrinks_trans c overlap l l')|done].
Qed.

Lemma total_nonneg l : 0 <= total c l.
Proof using Type. induction l as [|d l IH]; [done|]. rewrite total_cons. unfold shared. lia. Qed.

Lemma carve_loop_spec n : forall k l carved, sound l -> (work c l < n)%nat -> 0 <= carved -> carved + total c l < TOP ->
  exists r, carve_loop calloc n k l c overlap carved = Some r /\ carve_result l carved r.
Proof using Hc.
  induction n as [|n IH]; intros k l carved Sl Wk C0 Ct; [lia|]. cbn [carve_loop].
  pose proof (carve_pass_spec c Hc overlap (calloc k) l Sl) as P. pose proof (shrinks_refl c overlap l Sl) as Rf.
  destruct (carve_pass l c overlap (calloc k)) as [r l'].
  destruct P as [(-> & -> & F) | [(-> & -> & Ho & N) | [(-> & -> & Ca) | [(-> & S & W & T) | (R & S & W & T)]]]].
  - eexists. split; [reflexivity|]. unfold carve_result. rewrite (proj2 (free_sums c Hc l (proj1 Sl) F)).
    split_and!; [lia|done..].
  - eexists. split; [reflexivity|]. split; [done|]. left. done.
  - eexists. split; [reflexivity|]. split; [done|]. right. split; [done|]. by exists k.
  - destruct (IH (Datatypes.S k) l' carved) as (r & E & Cr); [apply S|lia|done|lia|]. exists r. split; [exact E|].
    apply (carve_result_step l l' carved carved); [done|lia|done].
  - unfold EFI_CARVE_OUT_OF_RESOURCES, EFI_CARVE_OVERLAPS_NONRAM, EFI_CARVE_NO_OVERLAP, EFI_CARVE_LOOP_AGAIN.
    replace (r =? -4) with false by lia. replace (r =? -3) with false by lia.
    replace (r =? -1) with false by lia. replace (r =? -2) with false by lia.
    pose proof (total_nonneg l'). rewrite u64_small by (unfold TOP in *; lia).
    destruct (IH k l' (carved + r)) as (r' & E & Cr); [apply S|lia..|]. exists r'. split; [exact E|].
    apply (carve_result_step l l' carved (carved + r)); [done|lia|done].
Qed.

Lemma work_bound l : (work c l <= 2 * length l)%nat.
Proof using Type.
  induction l as [|d l IH]; [apply Nat.le_0_l|]. rewrite work_cons. unfold weight. cbn [length].
  destruct (overlaps c d); [|lia]. destruct (_ <? _); lia.
Qed.

(** Counting the bytes of the entries in a range. *)
Definition span (x y : Z) (d : efi_mem_desc) : Z := Z.max 0 (Z.min y (pend d) - Z.max x (physical_start d)).
Definition spans (x y : Z) (l : list efi_mem_desc) : Z := foldr (fun d s => span x y d + s) 0 l.

Lemma spans_split x x1 y1 y m l : Forall ok l -> Forall (apart m) l -> x <= x1 < y1 -> y1 <= y -> physical_start m <= x1 -> y1 <= pend m ->
  (x1 = x \/ x1 = physical_start m) -> (y1 = y \/ y1 = pend m) -> spans x y l = spans x x1 l + spans y1 y l.
Proof using Type.
  intros K A Hx Hy Hm1 Hm2 Ex Ey. induction l as [|d l IH]; [done|]. cbn [spans foldr].
  apply Forall_cons in K as [(D1 & D2 & D3 & D4) K]. apply Forall_cons in A as [Ad A].
  fold (spans x y l) (spans x x1 l) (spans y1 y l). rewrite (IH K A). unfold span, apart in *.
  assert (physical_start d < pend d) by (unfold pend; lia). lia.
Qed.

Lemma maps_nil a t at' : ~ maps [] a t at'.
Proof using Type. intros (d & Hd & _). by apply elem_of_nil in Hd. Qed.

Lemma spans_full l : forall x y, x <= y -> sound l ->
  spans x y l <= y - x /\
  (spans x y l = y - x -> forall a, x <= a < y -> exists t at', maps l a t at') /\
  (spans x y l < y - x -> exists a, x <= a < y /\ forall t at', ~ maps l a t at').
Proof using Type.
  induction l as [|m l IH]; intros x y Hxy Sl.
  - cbn [spans foldr]. split_and!; [lia|intros; lia|]. intros. exists x. split; [lia|apply maps_nil].
  - apply sound_cons in Sl as ((M1 & M2 & M3 & M4) & A & Sl). cbn [spans foldr]. fold (spans x y l).
    assert (Pm : physical_start m < pend m) by (unfold pend; lia).
    assert (Out : forall a t at', ~ maps l a t at' -> ~ covers m a -> ~ maps (m :: l) a t at').
    { intros a t at' N C. rewrite maps_cons, maps_one. tauto. }
    assert (In : forall a, covers m a \/ (exists t at', maps l a t at') -> exists t at', maps (m :: l) a t at').
    { intros a [C | (t & at' & C)]; [exists (type m), (attribute m)|exists t, at']; rewrite maps_cons, maps_one; tauto. }
    unfold covers in *.
    destruct (decide (x < y /\ x < pend m /\ physical_start m < y)) as [Ov | Ov].
    + set (x1 := Z.max x (physical_start m)). set (y1 := Z.min y (pend m)).
      rewrite (spans_split x x1 y1 y m l) by (try done; try apply Sl; lia).
      destruct (IH x x1) as (L1 & E1 & H1); [lia|done|]. destruct (IH y1 y) as (L2 & E2 & H2); [lia|done|].
      assert (Sp : span x y m = y1 - x1) by (unfold span; lia). split_and!; [lia| |].
      * intros E a Ha. apply In. destruct (decide (a < x1)); [right; apply E1; lia|].
        destruct (decide (y1 <= a)); [right; apply E2; lia|left; lia].
      * intros Lt. destruct (decide (spans x x1 l < x1 - x)) as [B|B];
          [destruct (H1 B) as (a & Ha & N)|destruct H2 as (a & Ha & N); [lia|]];
          exists a; (split; [lia|]); intros t at'; (apply Out; [done|lia]).
    + assert (Sp : span x y m = 0) by (unfold span; lia). destruct (IH x y Hxy Sl) as (L & E & H). rewrite Sp.
      split_and!; [lia|intros Eq a Ha; apply In; right; apply E; lia|].
      intros Lt. destruct H as (a & Ha & N); [lia|]. exists a. split; [done|]. intros t at'. apply Out; [done|lia].
Qed.

Lemma shared_span m : ok m -> 4096 * shared c m = span (physical_start c) (pend c) m.
Proof using Hc.
  intros Hm. pose proof (ok_pend m Hm). pose proof (ok_pend c Hc). destruct Hm as (M1 & M2 & M3 & M4), Hc as (C1 & C2 & C3 & C4).
  unfold shared, span. set (u := Z.min _ _). set (v := Z.max (physical_start c) _).
  assert (u mod 4096 = 0) by (unfold u; destruct (Z.min_spec (pend c) (pend m)) as [[_ ->]|[_ ->]]; done).
  assert (v mod 4096 = 0) by (unfold v; destruct (Z.max_spec (physical_start c) (physical_start m)) as [[_ ->]|[_ ->]]; done).
  pose proof (pages_between v u ltac:(done) ltac:(done)). lia.
Qed.

(** The pages found are all pages of [c] just if each of them is in the map. *)
Lemma total_full l : sound l ->
  total c l <= num_pages c /\
  (total c l = num_pages c -> forall a, covers c a -> exists t at', maps l a t at') /\
  (total c l < num_pages c -> exists a, covers c a /\ forall t at', ~ maps l a t at').
Proof using Hc.
  intros Sl. assert (E : 4096 * total c l = spans (physical_start c) (pend c) l).
  { destruct Sl as [K _]. induction l as [|m l IH]; [done|]. apply Forall_cons in K as [Km K]. cbn [spans foldr].
    fold (spans (physical_start c) (pend c) l). rewrite total_cons, <- (IH K), <- (shared_span m Km). lia. }
  destruct (spans_full l (physical_start c) (pend c)) as (L & F & H); [destruct Hc as (C1 & C2 & C3 & C4); unfold pend; lia|done|].
  rewrite <- E in *. unfold covers. assert (pend c - physical_start c = 4096 * num_pages c) by (unfold pend; lia).
  split_and!; [lia|intros; apply F; [lia|done]|intros; apply H; lia].
Qed.

End Loop.
(** ** Merging *)
Definition same_maps (l l' : list efi_mem_desc) : Prop := forall a t at', maps l a t at' <-> maps l' a t at'.

Lemma mergeable_spec cur prev : ok cur -> mergeable cur prev = true ->
  pend cur = physical_start prev /\ type prev = type cur /\ attribute prev = attribute cur.
Proof.
  intros K. unfold mergeable. rewrite !andb_true_iff, !Z.eqb_eq, end_exact by done. tauto.
Qed.

Lemma absorb_spec prev cur : ok prev -> ok cur -> mergeable cur prev = true ->
  ok (absorb prev cur) /\ physical_start (absorb prev cur) = physical_start cur /\ pend (absorb prev cur) = pend prev /\
  same_maps [absorb prev cur] [prev; cur].
Proof.
  intros Kp Kc M. destruct (mergeable_spec cur prev Kc M) as (E & T & A). pose proof Kp as (P1 & P2 & P3 & P4).
  pose proof Kc as (C1 & C2 & C3 & C4). assert (Pb : page_bytes (num_pages cur) = 4096 * num_pages cur).
  { apply page_bytes_exact; unfold pend, TOP in *; lia. }
  assert (S : physical_start (absorb prev cur) = physical_start cur).
  { unfold absorb. cbn [physical_start]. rewrite Pb, u64_small; unfold pend, TOP in *; lia. }
  assert (N : num_pages (absorb prev cur) = num_pages prev + num_pages cur).
  { unfold absorb. cbn [num_pages]. apply u64_small. unfold pend, TOP in *; lia. }
  assert (En : pend (absorb prev cur) = pend prev) by (unfold pend in *; rewrite S, N; lia).
  split_and!; [|done|done|].
  - unfold ok. rewrite S, N, En. split_and!; [done|done|lia|done].
  - intros a t at'. rewrite (maps_cons prev), !maps_one. unfold covers. rewrite S, En. cbn [type attribute absorb].
    assert (physical_start prev < pend prev) by (unfold pend; lia).
    assert (physical_start cur < pend cur) by (unfold pend; lia). rewrite T, A. lia.
Qed.

(** One merge keeps the order and what the map says. *)
Lemma merge_keeps l1 prev cur l2 : Forall ok (l1 ++ prev :: cur :: l2) -> descending (l1 ++ prev :: cur :: l2) ->
  mergeable cur prev = true ->
  Forall ok (l1 ++ absorb prev cur :: l2) /\ descending (l1 ++ absorb prev cur :: l2) /\
  same_maps (l1 ++ absorb prev cur :: l2) (l1 ++ prev :: cur :: l2).
Proof.
  intros K D M. apply Forall_app in K as [K1 K2]. apply Forall_cons in K2 as [Kp K2]. apply Forall_cons in K2 as [Kc K2].
  destruct (absorb_spec prev cur Kp Kc M) as (Ka & Sa & Ea & Ma).
  apply descending_app in D as (D1 & D2 & F). unfold descending in D2. rewrite !StronglySorted_cons, Forall_cons in D2.
  destruct D2 as ((Q & Fp) & Fc & D2). split_and!.
  - apply Forall_app. split; [done|]. by constructor.
  - apply descending_app. split; [done|]. split.
    + constructor; [done|]. by rewrite Sa.
    + eapply Forall_impl; [exact F|]. intros d Hd. apply Forall_cons in Hd as [Hp Hd]. apply Forall_cons in Hd as [Hc Hd]. constructor; [by rewrite Ea|done].
  - intros a t at'. rewrite !maps_app, (maps_cons (absorb prev cur)), (Ma a t at'), (maps_app [prev; cur] l2). done.
Qed.

(** The walk from element [i] on, with the one before it as [prevmem]. *)
Lemma merge_walk n : forall l1 prev l2, (length l2 < n)%nat -> Forall ok (prev :: l2) -> descending (prev :: l2) ->
  (exists k, merge_pass n (l1 ++ prev :: l2) (Some (length l1)) (S (length l1)) = Some (l1 ++ prev :: l2, Some k, false) /\
    unmerged (prev :: l2)) \/
  (exists m1 p q m2, l1 ++ prev :: l2 = m1 ++ p :: q :: m2 /\ mergeable q p = true /\
    merge_pass n (l1 ++ prev :: l2) (Some (length l1)) (S (length l1)) = Some (m1 ++ absorb p q :: m2, Some (length m1), true)).
Proof.
  induction n as [|n IH]; intros l1 prev l2 Ln K D; [lia|]. cbn [merge_pass].
  rewrite lookup_app_r, Nat.sub_succ_l, Nat.sub_diag by lia. cbn [lookup list_lookup].
  destruct l2 as [|cur l2]; [left; eexists; split; [reflexivity|]; intros i d d' H1 H2; by destruct i|].
  cbn [lookup list_lookup]. rewrite list_lookup_middle by done. cbn [mbind option_bind].
  apply Forall_cons in K as [Kp K]. apply StronglySorted_inv in D as [D F].
  destruct (mergeable cur prev) eqn:M.
  - right. exists l1, prev, cur, l2. split_and!; [done|done|]. replace (_ =? _)%nat with false by (symmetry; apply Nat.eqb_neq; lia).
    replace (_ <? _)%nat with false by (symmetry; apply Nat.ltb_ge; lia). do 2 f_equal.
    rewrite insert_app_r_alt, Nat.sub_diag by lia. cbn [insert list_insert].
    pose proof (delete_middle (l1 ++ [absorb prev cur]) l2 cur) as Dm.
    rewrite length_app, Nat.add_1_r, <- !app_assoc in Dm. cbn [app] in Dm. by rewrite Dm.
  - destruct (IH (l1 ++ [prev]) cur l2) as [(k & E & U) | (m1 & p & q & m2 & E & Mq & E2)];
      [simpl in Ln; lia|done|done|left; exists k|right; exists m1, p, q, m2];
      rewrite <- app_assoc, length_app, Nat.add_1_r in *; cbn [app] in *.
    + split; [done|]. intros [|i] d d' H1 H2; [by simplify_eq/=|by apply (U i)].
    + done.
Qed.

(** The first element is never merged into a later one, nor into itself. *)
Lemma not_upwards l k first d : Forall ok (first :: l) -> descending (first :: l) -> (first :: l) !! k = Some d ->
  mergeable first d = false.
Proof.
  intros K D Hk. apply not_true_is_false. intros (E & _)%mergeable_spec; [|by apply Forall_cons in K as [K _]].
  rewrite Forall_forall in K. pose proof (K d (list_elem_of_lookup_2 _ _ _ Hk)) as (D1 & D2 & D3 & D4).
  destruct k as [|k]; simpl in Hk.
  - simplify_eq. unfold pend in E. lia.
  - apply StronglySorted_inv in D as [_ F]. rewrite Forall_forall in F. specialize (F d (list_elem_of_lookup_2 _ _ _ Hk)).
    destruct (K first) as (E1 & E2 & E3 & E4); [apply list_elem_of_here|]. unfold pend in *. lia.
Qed.

Lemma merge_loop_spec n : forall l prevmem, (length l < n)%nat -> Forall ok l -> descending l ->
  (forall k, prevmem = Some k -> is_Some (l !! k)) ->
  exists l', merge_loop n l prevmem = Some l' /\ map_wf l' /\ same_maps l' l.
Proof.
  induction n as [|n IH]; intros l pm Ln K D Hp; [lia|]. cbn [merge_loop].
  destruct l as [|first l]; [exists []; split_and!; done|].
  assert (E : merge_pass (S (length (first :: l))) (first :: l) pm 0 = merge_pass (length (first :: l)) (first :: l) (Some O) 1).
  { cbn [merge_pass lookup list_lookup]. destruct pm as [k|]; [|done]. destruct (Hp k eq_refl) as [d Hd].
    rewrite Hd. cbn [mbind option_bind]. by rewrite (not_upwards l k first d). }
  rewrite E. destruct (merge_walk (length (first :: l)) [] first l) as [(k & W & U) | (m1 & p & q & m2 & El & M & W)];
    [simpl; lia|done|done|cbn [app length] in W |- *; rewrite W; cbn [mbind option_bind]..].
  - exists (first :: l). split_and!; try done.
  - cbn [app] in El. rewrite El in K, D, Ln. destruct (merge_keeps m1 p q m2 K D M) as (K' & D' & Sm).
    destruct (IH (m1 ++ absorb p q :: m2) (Some (length m1))) as (l' & E' & W' & S'); [|done|done| |].
    + rewrite length_app in *. simpl in *. lia.
    + intros k [= <-]. rewrite list_lookup_middle by done. eauto.
    + exists l'. split_and!; try done. intros a t at'. rewrite El, (S' a t at'). apply Sm.
Qed.

Lemma sorted_descending l : sound l -> StronglySorted (le efi_mem_cmp) l -> descending l.
Proof.
  intros [K S]. unfold descending. induction l as [|d l IH]; intros C; [constructor|].
  apply Forall_cons in K as [(D1 & D2 & D3 & D4) K]. apply StronglySorted_inv in S as [S A]. apply StronglySorted_inv in C as [C F].
  constructor; [auto|]. rewrite Forall_forall in *. intros x Hx. specialize (A x Hx). specialize (F x Hx).
  unfold apart, le, efi_mem_cmp, pend in *.
  destruct (physical_start d =? physical_start x) eqn:E1; [|destruct (physical_start d <? physical_start x) eqn:E2]; lia.
Qed.

Lemma efi_mem_sort_spec l : sound l -> exists l', efi_mem_sort l = Some l' /\ map_wf l' /\ same_maps l' l.
Proof.
  intros S. unfold efi_mem_sort. destruct (list_sort_spec efi_mem_cmp) with (l := l) as (l1 & E & So & P & _).
  - intros x y. unfold le, efi_mem_cmp. destruct (physical_start x =? _) eqn:E1; [left; lia|].
    destruct (physical_start x <? _) eqn:E2; [right|left; lia].
    replace (_ =? _) with false by lia. replace (_ <? _) with false by lia. lia.
  - intros x y z. unfold le, efi_mem_cmp. repeat case_match; lia.
  - rewrite E. cbn [mbind option_bind]. pose proof (sound_perm _ _ (Permutation_sym P) S) as S1.
    destruct (merge_loop_spec (Datatypes.S (length l1)) l1 None) as (l' & E' & W & Sm);
      [lia|apply S1|by apply sorted_descending|done|].
    exists l'. split_and!; try done. intros a t at'. rewrite (Sm a t at'). split; by apply maps_perm.
Qed.

(** ** Adding pages *)
Section Add.
Context (calloc : nat -> bool).

Definition inside (start pages a : Z) : Prop := start <= a < start + 4096 * pages.
Definition conventional (l : list efi_mem_desc) (a : Z) : Prop := exists at', maps l a EFI_CONVENTIONAL_MEMORY at'.

(** The map [l'] is [l] but for the pages of a range, which have the type and
    attribute given. *)
Definition overrides (l l' : list efi_mem_desc) (start pages ty attr : Z) : Prop :=
  forall a t at', maps l' a t at' <-> inside start pages a /\ t = ty /\ at' = attr \/ ~ inside start pages a /\ maps l a t at'.

(** The map [l'] is [l] with some of the pages of a range missing. *)
Definition loses (l l' : list efi_mem_desc) (start pages : Z) : Prop :=
  (forall a t at', maps l' a t at' -> maps l a t at') /\
  (forall a t at', maps l a t at' -> ~ inside start pages a -> maps l' a t at').

Definition pages_ok (start pages : Z) : Prop :=
  0 <= start /\ start mod 4096 = 0 /\ 0 < pages /\ start + 4096 * pages < TOP.

Definition set_attribute (memory_type attr : Z) : Z := if negb (attr =? 0) then attr else default_attribute memory_type.

Lemma descending_sound l : Forall ok l -> descending l -> sound l.
Proof using Type.
  intros K D. split; [done|]. unfold descending in D. induction D as [|d l D IH F]; constructor.
  - apply IH. by apply Forall_cons in K as [_ K].
  - eapply Forall_impl; [exact F|]. intros x Hx. by right.
Qed.

(** One address has one type. *)
Lemma maps_unique l a t1 a1 t2 a2 : sound l -> maps l a t1 a1 -> maps l a t2 a2 -> t1 = t2 /\ a1 = a2.
Proof using Type.
  induction l as [|m l IH]; [by intros _ ?%maps_nil|]. rewrite sound_cons, !(maps_cons m l), !maps_one.
  assert (X : Forall (apart m) l -> covers m a -> forall t at', ~ maps l a t at').
  { intros A C t at' (d & Hd & Cd & _). rewrite Forall_forall in A. specialize (A d Hd). unfold apart, covers in *. lia. }
  intros (Km & A & Sl) [(C1 & <- & <-) | H1] [(C2 & <- & <-) | H2]; [done| | |by apply IH]; by edestruct X.
Qed.

(** The pages carved out make room for the new ones. *)
Lemma add_room c l l' overlap : ok c -> shrinks c overlap l l' -> Forall (fun d => overlaps c d = false) l' ->
  sound (l' ++ [c]) /\
  (forall a t at', maps (l' ++ [c]) a t at' <-> covers c a /\ t = type c /\ at' = attribute c \/ ~ covers c a /\ maps l a t at') /\
  forall a t at', covers c a -> overlap = true -> maps l a t at' -> t = EFI_CONVENTIONAL_MEMORY.
Proof using Type.
  intros Kc [S De W M K G] F. assert (N : forall a t at', maps l' a t at' -> ~ covers c a).
  { intros a t at' (d & Hd & Cd & _). destruct S as [Ko _]. rewrite Forall_forall in Ko, F.
    destruct (no_overlap_free c Kc d (Ko d Hd) (F d Hd)) as (_ & _ & X). auto. }
  split_and!.
  - apply sound_app. split_and!; [done|apply sound_cons; split_and!; [done|constructor|by repeat constructor]|].
    eapply Forall_impl; [exact F|]. intros d Hd. constructor; [|constructor]. unfold overlaps, apart in *.
    apply negb_false_iff, orb_true_iff in Hd. lia.
  - intros a t at'. rewrite maps_app, maps_one. split.
    + intros [H | (C & <- & <-)]; [right|by left]. split; [by eapply N|auto].
    + intros [(C & -> & ->) | (C & H)]; [by right|left; auto].
  - intros a t at' C Ho H. destruct (G a t at' H) as [H'|]; [by apply N in H'|auto].
Qed.

(** The three ends of [efi_add_memory_map_pg]. *)
Inductive added_pages (e : efi) (start pages ty : Z) (overlap : bool) (attr st : Z) (e' : efi) : Prop :=
| add_ok : st = EFI_SUCCESS -> map_wf (efi_mem e') ->
    overrides (efi_mem e) (efi_mem e') start pages ty (set_attribute ty attr) ->
    (overlap = true -> forall a, inside start pages a -> conventional (efi_mem e) a) ->
    added_pages e start pages ty overlap attr st e'
| add_not_ram a : st = EFI_NO_MAPPING -> overlap = true -> inside start pages a -> ~ conventional (efi_mem e) a ->
    sound (efi_mem e') -> (descending (efi_mem e) -> descending (efi_mem e')) ->
    loses (efi_mem e) (efi_mem e') start pages -> added_pages e start pages ty overlap attr st e'
| add_no_heap j : st = EFI_OUT_OF_RESOURCES -> calloc j = false ->
    sound (efi_mem e') -> (descending (efi_mem e) -> descending (efi_mem e')) ->
    loses (efi_mem e) (efi_mem e') start pages -> added_pages e start pages ty overlap attr st e'.

Lemma not_conventional l a t at' : sound l -> maps l a t at' -> t <> EFI_CONVENTIONAL_MEMORY -> ~ conventional l a.
Proof using Type. intros S M N [a2 M2]. by destruct (maps_unique l a t at' _ a2 S M M2). Qed.

Lemma shrinks_loses c overlap l l' start pages : shrinks c overlap l l' -> (forall a, covers c a <-> inside start pages a) ->
  sound l' /\ (descending l -> descending l') /\ loses l l' start pages.
Proof using Type.
  intros [S De W M K G] I. split; [done|]. split; [done|]. split; [done|]. intros a t at' H N. apply K; [done|]. by rewrite I.
Qed.

Lemma add_pg_spec e start pages ty overlap attr : sound (efi_mem e) -> pages_ok start pages -> 0 <= ty < EFI_MAX_MEMORY_TYPE ->
  exists st e', efi_add_memory_map_pg calloc e start pages ty overlap attr = Some (st, e') /\
    efi_memory_map_key e' = efi_memory_map_key e +64 1 /\ added_pages e start pages ty overlap attr st e'.
Proof using Type.
  intros Sl Pk Ty. pose proof Pk as (P1 & P2 & P3 & P4). unfold efi_add_memory_map_pg.
  replace (_ <=? ty) with false by lia. replace (pages =? 0) with false by lia.
  destruct (calloc 0) eqn:C0; cbn [negb]; [|eexists _, _; split; [reflexivity|]; split; [done|]; by eapply add_no_heap].
  rewrite u32_small by (unfold EFI_MAX_MEMORY_TYPE in Ty; lia). set (c := mk_md _ _ _ _ _).
  assert (Kc : ok c) by (split_and!; done). assert (I : forall a, covers c a <-> inside start pages a) by done.
  destruct (total_full c Kc (efi_mem e) Sl) as (T1 & T2 & T3). pose proof (total_nonneg c (efi_mem e)) as T0. cbn [num_pages c] in T1, T2, T3.
  destruct (carve_loop_spec c Kc overlap calloc (S (2 * length (efi_mem e))) 1 (efi_mem e) 0) as (r & -> & R); [done| |done|unfold TOP in *; lia|].
  { pose proof (work_bound c (efi_mem e)). lia. }
  cbn [mbind option_bind]. destruct r as [[st l'] | [p l']]; simpl in R.
  - eexists _, _. split; [reflexivity|]. split; [done|]. destruct R as (Sh & R).
    destruct (shrinks_loses _ _ _ _ _ _ Sh I) as (? & ? & ?). destruct R as [(-> & Ho & a & t & at' & Ca & Ma & Nt) | (-> & j & Cj)].
    + apply (add_not_ram _ _ _ _ _ _ _ _ a); try done. by apply (not_conventional _ _ t at').
    + by apply (add_no_heap _ _ _ _ _ _ _ _ j).
  - destruct R as (-> & Sh & F). rewrite Z.add_0_l. destruct (add_room c (efi_mem e) l' overlap Kc Sh F) as (Sc & Mc & Cv).
    destruct (overlap && negb (total c (efi_mem e) =? pages)) eqn:Ov.
    + apply andb_true_iff in Ov as [Ho Np]. eexists _, _. split; [reflexivity|]. split; [done|].
      destruct (shrinks_loses _ _ _ _ _ _ Sh I) as (? & ? & ?). destruct T3 as (a & Ca & Na); [lia|].
      apply (add_not_ram _ _ _ _ _ _ _ _ a); try done. intros [at' Ma]. by apply Na in Ma.
    + destruct (efi_mem_sort_spec (l' ++ [c]) Sc) as (l2 & -> & W & Sm). cbn [mbind option_bind].
      eexists _, _. split; [reflexivity|]. split; [done|]. apply add_ok; [done|done| |].
      * intros a t at'. cbn [efi_mem]. rewrite (Sm a t at'), Mc. by rewrite I.
      * intros Ho a Ia. rewrite Ho in Ov. destruct (T2 ltac:(lia) a Ia) as (t & at' & Ma).
        exists at'. by rewrite <- (Cv a t at' Ia Ho Ma).
Qed.

(** C7: adding pages to the map.  For a page-aligned range below the top of the
    address space and a type of the specification, [efi_add_memory_map_pg]
    ends, counts the change in the map key, and does one of three things.  It
    succeeds: then the map is sorted from the top down, without overlaps and
    without neighbours that could be one entry; the pages of the range have the
    new type and attribute and every other address has what it had; and when
    only free memory may be taken, all of the range was conventional memory.
    Or it answers EFI_NO_MAPPING because only free memory may be taken and some
    address of the range is not conventional.  Or an entry could not be
    allocated.  In the last two cases the entries still do not overlap and at
    most pages of the range are gone from the map. *)
Theorem efi_add_pages_exact e start pages ty overlap attr :
  sound (efi_mem e) -> pages_ok start pages -> 0 <= ty < EFI_MAX_MEMORY_TYPE ->
  exists st e', efi_add_memory_map_pg calloc e start pages ty overlap attr = Some (st, e') /\
    efi_memory_map_key e' = efi_memory_map_key e +64 1 /\ added_pages e start pages ty overlap attr st e'.
Proof using Type. apply add_pg_spec. Qed.

End Add.

(** ** Maps that can arise *)
Inductive efi_reach : efi -> Prop :=
| reach_empty key : efi_reach (mk_efi [] key)
| reach_add calloc e start pages ty overlap attr st e' : efi_reach e -> pages_ok start pages -> 0 <= ty ->
    efi_add_memory_map_pg calloc e start pages ty overlap attr = Some (st, e') -> efi_reach e'.

Lemma reach_descending e : efi_reach e -> Forall ok (efi_mem e) /\ descending (efi_mem e).
Proof.
  induction 1 as [key|calloc e start pages ty overlap attr st e' R [K D] Pk Ty E]; [by repeat constructor|].
  destruct (decide (ty < EFI_MAX_MEMORY_TYPE)) as [T|T].
  - pose proof (descending_sound _ K D) as S. destruct (add_pg_spec calloc e start pages ty overlap attr S Pk) as (st' & e2 & E2 & _ & A); [lia|].
    rewrite E in E2. injection E2 as <- <-. destruct A as [_ (K' & D' & _) _ _ | a _ _ _ _ [K' _] De _ | j _ _ [K' _] De _]; auto.
  - unfold efi_add_memory_map_pg in E. replace (_ <=? ty) with true in E by lia. by injection E as <- <-.
Qed.

Lemma descending_rev l : descending l -> StronglySorted (fun d d' => pend d <= physical_start d') (rev l).
Proof.
  unfold descending. induction l as [|d l IH]; intros D; [constructor|]. apply StronglySorted_inv in D as [D F].
  cbn [rev]. apply StronglySorted_app_2; [|by apply IH|by repeat constructor].
  intros x y Hx Hy. apply list_elem_of_singleton in Hy as ->. rewrite Forall_forall in F. apply F.
  by rewrite Permutation_rev.
Qed.

(** C19: what GetMemoryMap reports.  Whatever page ranges were added to an empty
    map, in any order, with any types and outcomes of allocation, and also
    after calls that failed, a buffer of the size of the map gets every entry
    once, in ascending order; the entries are not empty, start on page
    boundaries, end below the top of the address space and do not overlap. *)
Theorem efi_memory_map_ascending e provided : efi_reach e ->
  u64 (Z.of_nat (length (efi_mem e)) * sizeof_efi_mem_desc) <= provided ->
  exists descs, efi_get_memory_map e (Some provided) true =
      (EFI_SUCCESS, Some (u64 (Z.of_nat (length descs) * sizeof_efi_mem_desc)), descs, efi_memory_map_key e) /\
    descs ≡ₚ efi_mem e /\ Forall ok descs /\ StronglySorted (fun d d' => pend d <= physical_start d') descs.
Proof.
  intros R Hp. destruct (reach_descending e R) as [K D]. exists (rev (efi_mem e)). unfold efi_get_memory_map.
  replace (provided <? _) with false by lia. rewrite length_rev. split; [done|].
  pose proof (Permutation_sym (Permutation_rev (efi_mem e))) as P. split_and!; [done|by rewrite P|by apply descending_rev].
Qed.

(** ** Examples *)
Definition ram (page pages : Z) : efi_mem_desc := mk_md EFI_CONVENTIONAL_MEMORY (4096 * page) (4096 * page) pages EFI_MEMORY_WB.

Definition two_areas : efi := mk_efi [ram 8 8; mk_md EFI_RESERVED_MEMORY_TYPE 16384 16384 4 EFI_MEMORY_WB] 0.

Lemma two_areas_sound : sound (efi_mem two_areas).
Proof.
  apply descending_sound; repeat constructor; vm_compute; try done; intros [=].
Qed.

(** Pages 8 to 11, of one area of conventional memory. *)
Lemma efi_add_pages_exact_witness :
  sound (efi_mem two_areas) /\ pages_ok 32768 4 /\
  exists st e', efi_add_memory_map_pg (fun _ => true) two_areas 32768 4 EFI_BOOT_SERVICES_DATA true 0 = Some (st, e') /\
    efi_memory_map_key e' = 1 /\ added_pages (fun _ => true) two_areas 32768 4 EFI_BOOT_SERVICES_DATA true 0 st e'.
Proof.
  assert (P : pages_ok 32768 4) by (split_and!; vm_compute; done). split_and!; [exact two_areas_sound|exact P|].
  exact (efi_add_pages_exact (fun _ => true) two_areas 32768 4 EFI_BOOT_SERVICES_DATA true 0 two_areas_sound P
    ltac:(unfold EFI_BOOT_SERVICES_DATA, EFI_MAX_MEMORY_TYPE; lia)).
Defined.

Definition added_twice : option efi :=
  '(_, e) ← efi_add_memory_map_pg (fun _ => true) (mk_efi [] 0) 16384 16 EFI_CONVENTIONAL_MEMORY false 0;
  '(_, e) ← efi_add_memory_map_pg (fun _ => true) e 32768 4 EFI_RUNTIME_SERVICES_DATA false 0; Some e.

Definition added_twice_map : efi :=
  mk_efi [mk_md 7 49152 49152 8 8; mk_md 6 32768 32768 4 0x8000000000000008; mk_md 7 16384 16384 4 8] 2.

Lemma added_twice_eq : added_twice = Some added_twice_map.
Proof. vm_compute. done. Qed.

Lemma added_twice_reach : efi_reach added_twice_map.
Proof.
  pose proof added_twice_eq as E. unfold added_twice in E.
  destruct (efi_add_memory_map_pg _ (mk_efi [] 0) _ _ _ _ _) as [[st1 e1]|] eqn:E1; [|done]. cbn [mbind option_bind] in E.
  destruct (efi_add_memory_map_pg _ e1 _ _ _ _ _) as [[st2 e2]|] eqn:E2; [|done]. cbn [mbind option_bind] in E.
  injection E as <-. eapply reach_add; [eapply reach_add; [apply (reach_empty 0)| | |exact E1]| | |exact E2];
    try (split_and!; vm_compute; done); vm_compute; done.
Qed.

Lemma efi_memory_map_ascending_witness : efi_reach added_twice_map /\
  exists descs, efi_get_memory_map added_twice_map (Some 120) true =
      (EFI_SUCCESS, Some (u64 (Z.of_nat (length descs) * sizeof_efi_mem_desc)), descs, 2) /\
    descs ≡ₚ efi_mem added_twice_map /\ Forall ok descs /\ StronglySorted (fun d d' => pend d <= physical_start d') descs.
Proof.
  split; [exact added_twice_reach|].
  exact (efi_memory_map_ascending added_twice_map 120 added_twice_reach ltac:(vm_compute; discriminate)).
Defined.

(** A refused request still takes memory out of the map: of four pages, the
    upper two conventional, the call fails because of the lower two, and the
    map no longer has the upper ones. *)
Lemma add_failure_loses_pages :
  efi_add_memory_map_pg (fun _ => true) (mk_efi [ram 6 2; mk_md EFI_RESERVED_MEMORY_TYPE 16384 16384 2 EFI_MEMORY_WB] 0)
    16384 4 EFI_BOOT_SERVICES_DATA true 0 =
  Some (EFI_NO_MAPPING, mk_efi [mk_md EFI_RESERVED_MEMORY_TYPE 16384 16384 2 EFI_MEMORY_WB] 1).
Proof. vm_compute. done. Qed.

End EfiMap.
