(* ===== verification/EfiPages.v ===== *)
(** * Page and pool allocation of the EFI loader (lib/efi_loader/efi_memory.c)

    Pages come from the logical memory blocks and are entered in the EFI memory
    map; freeing tells the blocks, which tell the map.  The state is both, the
    words in memory the pool uses for its headers, and the number of changes of
    the map so far, which picks the outcome of each allocation of a list entry. *)

From S2P Require Import Prelude.
From S2P Require Import Alist Lmb EfiMemory EfiMap.
Local Open Scope uboot_scope.
Local Open Scope Z_scope.

Module EfiPages.
Import Alist Lmb EfiMemory EfiMap.

Definition EFI_ALLOC_POOL_MAGIC : Z := 0x1fe67ddf6491caa2.

Record sys := mk_sys { s_lmb : lmb; s_efi : efi; mem64 : Z -> Z; tick : nat }.

Definition set_lmb (s : sys) (l : lmb) : sys := mk_sys l (s_efi s) (mem64 s) (tick s).
Definition set_efi (s : sys) (e : efi) : sys := mk_sys (s_lmb s) e (mem64 s) (S (tick s)).
Definition store64 (s : sys) (a v : Z) : sys :=
  mk_sys (s_lmb s) (s_efi s) (fun b => if b =? a then v else mem64 s b) (tick s).

Section Pages.
(** Growing a list of memory blocks, allocating an entry of the map,
    CONFIG_TACHYON_WINDOWS_BOOT and ARCH_DMA_MINALIGN. *)
Context (malloc : Z -> bool) (calloc : nat -> nat -> bool) (windows : bool) (dma_minalign : Z).

Definition add_pg (s : sys) (start pages memory_type : Z) (overlap_conventional : bool) (attr : Z) : option (Z * sys) :=
  '(st, e) ← efi_add_memory_map_pg (calloc (tick s)) (s_efi s) start pages memory_type overlap_conventional attr;
  Some (st, set_efi s e).

(** ** The memory blocks, with the EFI loader configured *)
Definition lmb_map_update_notify (s : sys) (addr size : Z) (op : lmb_map_op) (flags : Z) : option (Z * sys) :=
  if negb (test (s_lmb s)) && (Z.land flags LMB_NONOTIFY =? 0) then
    '(r, e) ← efi_map_update_notify (calloc (tick s)) windows (s_efi s) addr size op flags;
    Some (r, set_efi s e)
  else Some (0, s).

Definition lmb_free_flags (s : sys) (base size flags : Z) : option (Z * sys) :=
  let '(ret, u) := _lmb_free malloc (used_mem (s_lmb s)) base size in
  let s := set_lmb s (set_used (s_lmb s) u) in
  if ret <? 0 then Some (ret, s) else lmb_map_update_notify s base size LMB_MAP_OP_FREE flags.

(** Allocations of the loader are not notified, so the notifier is never called. *)
Definition PAGE_FLAGS : Z := Z.lor LMB_NOOVERWRITE LMB_NONOTIFY.
Definition unused_notify (addr size : Z) (op : lmb_map_op) (flags : Z) : Z := 0.
Definition page_alloc_base (s : sys) (len max_addr : Z) : Z * sys :=
  let '(addr, l) := lmb_alloc_base malloc true unused_notify (s_lmb s) len EFI_PAGE_SIZE max_addr PAGE_FLAGS in
  (addr, set_lmb s l).

(** ** Pages *)

(** Where the pages are, or an error. *)
Definition pick_pages (s : sys) (type : efi_allocate_type) (len memory : Z) : (Z + Z) * sys :=
  match type with
  | EFI_ALLOCATE_ANY_PAGES =>
    let '(addr, s) := page_alloc_base s len LMB_ALLOC_ANYWHERE in
    (if addr =? 0 then inl EFI_OUT_OF_RESOURCES else inr addr, s)
  | EFI_ALLOCATE_MAX_ADDRESS =>
    let '(addr, s) := page_alloc_base s len memory in
    (if addr =? 0 then inl EFI_OUT_OF_RESOURCES else inr addr, s)
  | EFI_ALLOCATE_ADDRESS =>
    if negb (Z.land memory EFI_PAGE_MASK =? 0) then (inl EFI_NOT_FOUND, s)
    else
      let '(r, l) := lmb_alloc_addr malloc true unused_notify (s_lmb s) memory len PAGE_FLAGS in
      (if negb (r =? 0) then inl EFI_NOT_FOUND else inr memory, set_lmb s l)
  | EFI_MAX_ALLOCATE_TYPE => (inl EFI_INVALID_PARAMETER, s)
  end.

(** [memory_type] is unsigned here and an [int] for the map; [memory] is
    [None] for NULL.  The status, [*memory] and the state. *)
Definition efi_allocate_pages (s : sys) (type : efi_allocate_type) (memory_type pages : Z) (memory : option Z)
    : option (Z * option Z * sys) :=
  if (EFI_PERSISTENT_MEMORY_TYPE <=? memory_type) && (memory_type <=? 0x6FFFFFFF) then Some (EFI_INVALID_PARAMETER, memory, s)
  else
    match memory with
    | None => Some (EFI_INVALID_PARAMETER, None, s)
    | Some mem =>
      let len := page_bytes pages in
      if negb (Z.shiftr len EFI_PAGE_SHIFT =? pages) then Some (EFI_OUT_OF_RESOURCES, memory, s)
      else
        let '(r, s) := pick_pages s type len mem in
        match r with
        | inl st => Some (st, memory, s)
        | inr addr =>
          '(ret, s) ← add_pg s addr pages (s32 memory_type) true 0;
          if negb (ret =? EFI_SUCCESS) then
            '(_, s) ← lmb_free_flags s addr (page_bytes pages) PAGE_FLAGS;
            Some (EFI_OUT_OF_RESOURCES, memory, s)
          else Some (EFI_SUCCESS, Some addr, s)
        end
    end.

Definition efi_free_pages (s : sys) (memory pages : Z) : option (Z * sys) :=
  let ret := efi_check_allocated (s_efi s) memory true in
  if negb (ret =? EFI_SUCCESS) then Some (ret, s)
  else if (memory =? 0) || negb (Z.land memory EFI_PAGE_MASK =? 0) || (pages =? 0) then Some (EFI_INVALID_PARAMETER, s)
  else
    '(status, s) ← lmb_free_flags s memory (page_bytes pages) LMB_NOOVERWRITE;
    Some (if negb (status =? 0) then EFI_NOT_FOUND else ret, s).

(** NULL is 0; [memory_type] is an [int]. *)
Definition efi_alloc_aligned_pages (s : sys) (len memory_type align : Z) : option (Z * sys) :=
  let req_pages := efi_size_in_pages len in
  let true_pages := u64 (req_pages + efi_size_in_pages align - 1) in
  if negb (Z.land align (align -64 1) =? 0) then Some (0, s)
  else if true_pages <? req_pages then Some (0, s)
  else if align <? EFI_PAGE_SIZE then
    '(r, mem, s) ← efi_allocate_pages s EFI_ALLOCATE_ANY_PAGES (u32 memory_type) req_pages (Some 0);
    Some (if r =? EFI_SUCCESS then default 0 mem else 0, s)
  else
    '(r, mem, s) ← efi_allocate_pages s EFI_ALLOCATE_ANY_PAGES (u32 memory_type) true_pages (Some 0);
    if negb (r =? EFI_SUCCESS) then Some (0, s)
    else
      let mem := default 0 mem in
      let aligned_mem := align_up mem align in
      let free_pages := efi_size_in_pages (aligned_mem -64 mem) in
      s ← (if negb (free_pages =? 0) then '(_, s) ← efi_free_pages s mem free_pages; Some s else Some s);
      let free_pages := true_pages -64 (req_pages +64 free_pages) in
      s ← (if negb (free_pages =? 0)
           then '(_, s) ← efi_free_pages s (aligned_mem +64 u64 (req_pages * EFI_PAGE_SIZE)) free_pages; Some s
           else Some s);
      Some (aligned_mem, s).

(** ** The pool *)

(** [struct efi_pool_allocation]: two words, then the data at the next multiple
    of [dma_minalign], where the structure ends too. *)
Definition hdr_num_pages (alloc : Z) : Z := alloc.
Definition hdr_checksum (alloc : Z) : Z := alloc + 8.
Definition sizeof_efi_pool_allocation : Z := align_up 16 dma_minalign.
Definition pool_data (alloc : Z) : Z := alloc +64 sizeof_efi_pool_allocation.

Definition checksum (s : sys) (alloc : Z) : Z :=
  let ret := Z.lxor (Z.lxor (Z.lxor (Z.shiftr alloc 32) (u64 (Z.shiftl alloc 32))) (mem64 s (hdr_num_pages alloc)))
               EFI_ALLOC_POOL_MAGIC in
  if ret =? 0 then ret +64 1 else ret.

(** [buffer] says if the place for the result is given; the status, the
    result and the state. *)
Definition efi_allocate_pool (s : sys) (pool_type size : Z) (buffer : bool) : option (Z * option Z * sys) :=
  let num_pages := efi_size_in_pages (size +64 sizeof_efi_pool_allocation) in
  if negb buffer then Some (EFI_INVALID_PARAMETER, None, s)
  else if size =? 0 then Some (EFI_SUCCESS, Some 0, s)
  else
    '(r, addr, s) ← efi_allocate_pages s EFI_ALLOCATE_ANY_PAGES pool_type num_pages (Some 0);
    if r =? EFI_SUCCESS then
      let alloc := default 0 addr in
      let s := store64 s (hdr_num_pages alloc) num_pages in
      let s := store64 s (hdr_checksum alloc) (checksum s alloc) in
      Some (r, Some (pool_data alloc), s)
    else Some (r, None, s).

(** [memset(a, 0, n)], for the words of memory. *)
Definition clear_word (b a n v : Z) : Z :=
  fold_right (fun j v => if (a <=? b + j) && (b + j <? a + n) then Z.ldiff v (Z.shiftl 255 (8 * j)) else v) v
    [0; 1; 2; 3; 4; 5; 6; 7].
Definition memset0 (s : sys) (a n : Z) : sys :=
  mk_sys (s_lmb s) (s_efi s) (fun b => clear_word b a n (mem64 s b)) (tick s).

Definition efi_alloc (s : sys) (size : Z) : option (Z * sys) :=
  '(r, buf, s) ← efi_allocate_pool s EFI_BOOT_SERVICES_DATA size true;
  if negb (r =? EFI_SUCCESS) then Some (0, s)
  else let buf := default 0 buf in Some (buf, memset0 s buf size).

Definition efi_free_pool (s : sys) (buffer : Z) : option (Z * sys) :=
  if buffer =? 0 then Some (EFI_INVALID_PARAMETER, s)
  else
    let ret := efi_check_allocated (s_efi s) buffer true in
    if negb (ret =? EFI_SUCCESS) then Some (ret, s)
    else
      let alloc := buffer -64 sizeof_efi_pool_allocation in
      if negb (Z.land alloc EFI_PAGE_MASK =? 0) || negb (mem64 s (hdr_checksum alloc) =? checksum s alloc)
      then Some (EFI_INVALID_PARAMETER, s)
      else
        let s := store64 s (hdr_checksum alloc) 0 in
        efi_free_pages s alloc (mem64 s (hdr_num_pages alloc)).

(** The status, the size and the copy of the map with its address. *)
Definition efi_get_memory_map_alloc (s : sys) : option (Z * Z * option (Z * list efi_mem_desc) * sys) :=
  let '(ret, map_size, _, _) := efi_get_memory_map (s_efi s) (Some 0) false in
  if ret =? EFI_BUFFER_TOO_SMALL then
    let map_size := default 0 map_size +64 sizeof_efi_mem_desc in
    '(ret, buf, s) ← efi_allocate_pool s EFI_BOOT_SERVICES_DATA map_size true;
    if negb (ret =? EFI_SUCCESS) then Some (ret, map_size, None, s)
    else
      let buf := default 0 buf in
      let '(ret, map_size, descs, _) := efi_get_memory_map (s_efi s) (Some map_size) (negb (buf =? 0)) in
      if negb (ret =? EFI_SUCCESS) then
        '(_, s) ← efi_free_pool s buf; Some (ret, default 0 map_size, None, s)
      else Some (ret, default 0 map_size, Some (buf, descs), s)
  else Some (ret, default 0 map_size, None, s).

(** ** Start-up *)
Definition add_u_boot_and_runtime (start_addr_sp ram_top stack_size runtime_lo runtime_hi runtime_mask : Z) (s : sys)
    : option sys :=
  let uboot_start := page_floor (start_addr_sp -64 stack_size) in
  let uboot_pages := Z.shiftr (u64 (ram_top - 1 - uboot_start + EFI_PAGE_MASK)) EFI_PAGE_SHIFT in
  '(_, s) ← add_pg s uboot_start uboot_pages EFI_BOOT_SERVICES_CODE false 0;
  let runtime_start := Z.ldiff runtime_lo runtime_mask in
  let runtime_end := Z.ldiff (runtime_hi +64 runtime_mask) runtime_mask in
  let runtime_pages := Z.shiftr (runtime_end -64 runtime_start) EFI_PAGE_SHIFT in
  '(_, s) ← add_pg s runtime_start runtime_pages EFI_RUNTIME_SERVICES_CODE false 0;
  Some s.

(** [known] is [efi_add_known_memory], which a platform may define; with
    [bounce] CONFIG_EFI_LOADER_BOUNCE_BUFFER. *)
Definition efi_memory_init (known : sys -> option sys) (bounce : bool)
    (start_addr_sp ram_top stack_size runtime_lo runtime_hi runtime_mask : Z) (s : sys) : option (Z * option Z * sys) :=
  s ← known s;
  s ← add_u_boot_and_runtime start_addr_sp ram_top stack_size runtime_lo runtime_hi runtime_mask s;
  if bounce then
    '(r, addr, s) ← efi_allocate_pages s EFI_ALLOCATE_MAX_ADDRESS EFI_BOOT_SERVICES_DATA
      (Z.shiftr (64 * 1024 * 1024) EFI_PAGE_SHIFT) (Some 0xffffffff);
    Some (if negb (r =? EFI_SUCCESS) then (-1, None, s) else (0, addr, s))
  else Some (0, None, s).

End Pages.

(** ** Properties *)

Definition allocated (l : list efi_mem_desc) (a : Z) : Prop := exists t at', maps l a t at' /\ t <> EFI_CONVENTIONAL_MEMORY.

Lemma check_allocated_spec e a : sound (efi_mem e) ->
  (efi_check_allocated e a true = EFI_SUCCESS /\ allocated (efi_mem e) a) \/
  (efi_check_allocated e a true = EFI_NOT_FOUND /\ ~ allocated (efi_mem e) a).
Proof.
  unfold efi_check_allocated. generalize (efi_mem e). clear e. intros l.
  induction l as [|m l IH]; intros Sl; cbn [check_loop]; [right; split; [done|]; by intros (t & at' & M%maps_nil & _)|].
  pose proof Sl as Sml. apply sound_cons in Sl as (Km & A & Sl). fold (desc_get_end m). rewrite end_exact by done.
  destruct ((physical_start m <=? a) && (a <? pend m)) eqn:E.
  - assert (Mm : maps (m :: l) a (type m) (attribute m)).
    { rewrite maps_cons, maps_one. left. apply andb_true_iff in E. unfold covers. lia. }
    destruct (Z.eqb_spec (type m) EFI_CONVENTIONAL_MEMORY) as [T|T]; cbn [xorb]; [right|left]; (split; [done|]).
    + intros (t & at' & M & N). destruct (maps_unique _ _ _ _ _ _ Sml Mm M). congruence.
    + by exists (type m), (attribute m).
  - assert (Q : allocated (m :: l) a <-> allocated l a); [|destruct (IH Sl) as [[? ?]|[? ?]]; [left|right]; tauto].
    unfold allocated. split; intros (t & at' & M & N); exists t, at'; rewrite maps_cons, maps_one in *; (split; [|done]).
    + destruct M as [(C & _)|M]; [unfold covers in C; lia|done].
    + by right.
Qed.

Lemma no_notify l b len op : Lmb.lmb_map_update_notify true unused_notify l b len op PAGE_FLAGS = 0.
Proof. unfold Lmb.lmb_map_update_notify. by rewrite andb_false_r. Qed.

Lemma page_bytes_pages pages : 0 <= pages -> 4096 * pages < TOP -> Z.shiftr (page_bytes pages) EFI_PAGE_SHIFT = pages.
Proof.
  intros. rewrite page_bytes_exact by done. unfold EFI_PAGE_SHIFT. rewrite Z.shiftr_div_pow2 by lia.
  rewrite Z.mul_comm. by apply Z.div_mul.
Qed.

Lemma land_page_mask x : Z.land x EFI_PAGE_MASK = x mod 4096.
Proof. change EFI_PAGE_MASK with (Z.ones 12). by rewrite Z.land_ones by lia. Qed.

Lemma page_offset x : x mod 4096 = 0 -> Z.land x EFI_PAGE_MASK = 0.
Proof. by rewrite land_page_mask. Qed.

Lemma page_floor_aligned x : x mod 4096 = 0 -> page_floor x = x.
Proof.
  intros H. unfold page_floor.
  change EFI_PAGE_MASK with (Z.ones 12). rewrite Z.ldiff_ones_r by lia. rewrite Z.shiftr_div_pow2, Z.shiftl_mul_pow2 by lia.
  change (2 ^ 12) with 4096. Z.to_euclidean_division_equations. lia.
Qed.

Section Correct.
Context (malloc : Z -> bool) (calloc : nat -> nat -> bool) (windows : bool).

(** Taking pages from the memory blocks, anywhere below a limit. *)
Lemma page_alloc_spec s len max_addr : map_ok (s_lmb s) -> 0 < len -> 0 <= max_addr < TOP ->
  (max_addr = LMB_ALLOC_ANYWHERE \/ len <= max_addr) ->
  let place := placeable (live (available_mem (s_lmb s))) (live (used_mem (s_lmb s))) len 12 max_addr in
  exists addr l, page_alloc_base malloc s len max_addr = (addr, set_lmb s l) /\ available_mem l = available_mem (s_lmb s) /\
  ((place addr /\ (forall c, place c -> c <= addr) /\ recorded (live (used_mem (s_lmb s))) (live (used_mem l)) addr len PAGE_FLAGS) \/
   (addr = 0 /\ l = s_lmb s /\ forall c, ~ place c) \/ (addr = 0 /\ al_fail (used_mem l) = true)).
Proof.
  intros M Hl Hm Hmax place. unfold page_alloc_base, lmb_alloc_base. change EFI_PAGE_SIZE with (2 ^ 12).
  pose proof (alloc_base_spec malloc true unused_notify (s_lmb s) len 12 max_addr PAGE_FLAGS M Hl ltac:(lia) Hm Hmax) as S.
  destruct (_lmb_alloc_base _ _ _ _ _ _ _ _) as [addr l]. exists addr, l. split; [done|].
  destruct S as (A & _ & [(b & P & H & U & E) | [(-> & -> & N) | (-> & _ & F)]]); (split; [done|]); [left|right; left; done|right; right; done].
  rewrite no_notify in E. cbn [Z.eqb] in E. by subst addr.
Qed.

Lemma placeable_range s len k max_addr c : map_ok (s_lmb s) -> 0 < len ->
  placeable (live (available_mem (s_lmb s))) (live (used_mem (s_lmb s))) len k max_addr c -> range_ok c len.
Proof.
  intros M Hl (P1 & P2 & P3 & P4 & r & Hr & P5 & P6).
  pose proof (wf_from_bounds 0 _ ltac:(lia) (lo_sorted _ (mo_avail _ M))) as B. rewrite Forall_forall in B.
  destruct (B r Hr) as ((B1 & B2 & B3) & _). unfold range_ok. lia.
Qed.

(** Two regions of a list that share an address are the same. *)
Lemma region_unique lo rs r1 r2 a : 0 <= lo -> wf_from lo rs -> r1 ∈ rs -> r2 ∈ rs ->
  base r1 <= a < base r1 + rsize r1 -> base r2 <= a < base r2 + rsize r2 -> r1 = r2.
Proof.
  revert lo. induction rs as [|r rs IH]; intros lo Hlo; [by intros _ ?%not_elem_of_nil|]. intros (L & S & T & W) H1 H2 A1 A2.
  pose proof (wf_from_bounds (base r + rsize r) rs ltac:(lia) W) as B. rewrite Forall_forall in B.
  apply elem_of_cons in H1 as [->|H1], H2 as [->|H2]; [done| | |by apply (IH (base r + rsize r)); [lia|..]].
  - specialize (B _ H2). lia.
  - specialize (B _ H1). lia.
Qed.

(** Taking the pages at a given free place. *)
Lemma page_addr_spec s len addr : map_ok (s_lmb s) -> 0 < len ->
  placeable (live (available_mem (s_lmb s))) (live (used_mem (s_lmb s))) len 12 LMB_ALLOC_ANYWHERE addr ->
  exists r l, lmb_alloc_addr malloc true unused_notify (s_lmb s) addr len PAGE_FLAGS = (r, l) /\ available_mem l = available_mem (s_lmb s) /\
  ((r = 0 /\ recorded (live (used_mem (s_lmb s))) (live (used_mem l)) addr len PAGE_FLAGS) \/ (r = -1 /\ al_fail (used_mem l) = true)).
Proof.
  intros M Hl P. pose proof (placeable_range _ _ _ _ _ M Hl P) as Ro. destruct P as (P1 & P2 & P3 & P4 & r0 & Hr0 & P5 & P6).
  pose proof M as [[Wa _ _ Ha] [Wu Fu Au Hu]]. pose proof (wf_from_ok 0 _ ltac:(lia) Ha) as Oa. unfold lmb_alloc_addr.
  pose proof (overlaps_region_spec (available_mem (s_lmb s)) addr len Wa Oa Ro) as O.
  destruct (lmb_overlaps_region _ _ _) as [k|].
  2: { rewrite Forall_forall in O. specialize (O _ Hr0). pose proof Ro as (? & ? & ?). unfold disjoint_rgn in O. lia. }
  destruct O as (p & r & q & Er & -> & Nd). rewrite (rgn_mid _ p r q Er).
  assert (Hr : r ∈ live (available_mem (s_lmb s))) by (rewrite Er; rewrite elem_of_app, elem_of_cons; auto).
  pose proof Oa as Oa'. rewrite Forall_forall in Oa'. pose proof (Oa' _ Hr) as (B1 & B2 & B3). pose proof Ro as (R1 & R2 & R3).
  assert (r = r0) as ->.
  { unfold disjoint_rgn in Nd. apply (region_unique 0 _ r r0 (Z.max (base r) addr) ltac:(lia) Ha); [done|done|lia|lia]. }
  rewrite (u64_small (addr + len - 1)) by (unfold TOP in *; lia). rewrite overlap_spec by (split_and!; lia).
  replace ((base r0 <? _) && _) with true by lia. unfold lmb_reserve.
  pose proof (add_disjoint malloc (used_mem (s_lmb s)) addr len PAGE_FLAGS Wu Fu Au Hu Ro P4) as D.
  destruct (lmb_add_region_flags _ _ _ _ _) as [ret u].
  destruct D as [WD [(D1 & D2 & D3)|(D1 & D2 & D3)]]; simpl in *; subst ret; simpl.
  - rewrite no_notify. cbn [Z.eqb]. eexists _, _. split; [reflexivity|]. split; [done|]. by left.
  - eexists _, _. split; [reflexivity|]. split; [done|]. by right.
Qed.

Lemma free_quiet s base size : exists r u, lmb_free_flags malloc calloc windows s base size PAGE_FLAGS = Some (r, set_lmb s (set_used (s_lmb s) u)).
Proof.
  unfold lmb_free_flags. destruct (_lmb_free _ _ _ _) as [r u]. destruct (r <? 0); [eauto|].
  unfold lmb_map_update_notify. rewrite andb_false_r. eauto.
Qed.

#[local] Abbreviation allocate := (efi_allocate_pages malloc calloc windows).
#[local] Abbreviation free_pages := (efi_free_pages malloc calloc windows).

(** The exclusive limit of an allocation. *)
Definition max_address (type : efi_allocate_type) (memory : Z) : Z :=
  match type with EFI_ALLOCATE_MAX_ADDRESS => memory | _ => LMB_ALLOC_ANYWHERE end.

(** Where the pages may be. *)
Definition pages_place (s : sys) (type : efi_allocate_type) (memory pages c : Z) : Prop :=
  placeable (live (available_mem (s_lmb s))) (live (used_mem (s_lmb s))) (4096 * pages) 12 (max_address type memory) c /\
  (type = EFI_ALLOCATE_ADDRESS -> c = memory).

(** How the state changes when pages at [addr] are handed out. *)
Record hands_out (s s' : sys) (addr pages ty : Z) : Prop := {
  ho_free a : inside addr pages a -> conventional (efi_mem (s_efi s)) a;
  ho_map : overrides (efi_mem (s_efi s)) (efi_mem (s_efi s')) addr pages ty (default_attribute ty);
  ho_wf : map_wf (efi_mem (s_efi s'));
  ho_available : available_mem (s_lmb s') = available_mem (s_lmb s);
  ho_used : recorded (live (used_mem (s_lmb s))) (live (used_mem (s_lmb s'))) addr (4096 * pages) PAGE_FLAGS }.

(** The requests that are covered. *)
Definition request_ok (s : sys) (type : efi_allocate_type) (memory pages : Z) : Prop :=
  match type with
  | EFI_ALLOCATE_ANY_PAGES => True
  | EFI_ALLOCATE_MAX_ADDRESS => 4096 * pages <= memory < TOP
  | EFI_ALLOCATE_ADDRESS => pages_place s type memory pages memory
  | EFI_MAX_ALLOCATE_TYPE => False
  end.

Definition no_pages_status (type : efi_allocate_type) : Z :=
  match type with EFI_ALLOCATE_ADDRESS => EFI_NOT_FOUND | _ => EFI_OUT_OF_RESOURCES end.

Lemma pick_spec s type pages memory : map_ok (s_lmb s) -> 0 < pages -> 4096 * pages < TOP -> request_ok s type memory pages ->
  exists r l, pick_pages malloc s type (4096 * pages) memory = (r, set_lmb s l) /\ available_mem l = available_mem (s_lmb s) /\
  match r with
  | inr addr => pages_place s type memory pages addr /\ (forall c, pages_place s type memory pages c -> c <= addr) /\
      range_ok addr (4096 * pages) /\ recorded (live (used_mem (s_lmb s))) (live (used_mem l)) addr (4096 * pages) PAGE_FLAGS
  | inl st => st = no_pages_status type /\
      ((l = s_lmb s /\ forall c, ~ pages_place s type memory pages c) \/ al_fail (used_mem l) = true)
  end.
Proof.
  intros M Hp Ht Rq. assert (Hlen : 0 < 4096 * pages) by lia. assert (B : forall max, type = EFI_ALLOCATE_ANY_PAGES \/ type = EFI_ALLOCATE_MAX_ADDRESS -> max = max_address type memory ->
    exists r l, (let '(addr, s) := page_alloc_base malloc s (4096 * pages) max in
      (if addr =? 0 then inl EFI_OUT_OF_RESOURCES else inr addr, s)) = (r, set_lmb s l) /\ available_mem l = available_mem (s_lmb s) /\
    match r with
    | inr addr => pages_place s type memory pages addr /\ (forall c, pages_place s type memory pages c -> c <= addr) /\
        range_ok addr (4096 * pages) /\ recorded (live (used_mem (s_lmb s))) (live (used_mem l)) addr (4096 * pages) PAGE_FLAGS
    | inl st => st = no_pages_status type /\
        ((l = s_lmb s /\ forall c, ~ pages_place s type memory pages c) \/ al_fail (used_mem l) = true)
    end).
  { intros max Hty ->. assert (Na : type <> EFI_ALLOCATE_ADDRESS) by (by destruct Hty as [-> | ->]).
    destruct (page_alloc_spec s (4096 * pages) (max_address type memory) M) as (addr & l & -> & Av & R);
      [lia|destruct Hty as [-> | ->]; simpl in *; unfold LMB_ALLOC_ANYWHERE, TOP in *; lia|destruct Hty as [-> | ->]; simpl in *; [by left|right; lia]|].
    destruct R as [(P & H & U) | R].
    - pose proof P as (P1 & _). replace (addr =? 0) with false by lia. exists (inr addr), l. do 2 (split; [done|]).
      split; [by split|]. split; [intros c [Hc _]; by apply H|]. split; [|done]. by apply (placeable_range _ _ _ _ _ M Hlen P).
    - assert (addr = 0) as -> by tauto. cbn [Z.eqb]. exists (inl EFI_OUT_OF_RESOURCES), l. do 2 (split; [done|]).
      split; [by destruct Hty as [-> | ->]|]. destruct R as [(_ & -> & N) | (_ & F)]; [left|by right]. split; [done|]. intros c [Hc _]. by apply (N c). }
  destruct type; [apply B; tauto|apply B; tauto| |done]. cbn [pick_pages request_ok] in *. pose proof Rq as [P _]. pose proof P as (P1 & P2 & _).
  rewrite page_offset by exact P2. cbn [Z.eqb negb].
  destruct (page_addr_spec s (4096 * pages) memory M ltac:(lia) P) as (r & l & -> & Av & R). destruct R as [(-> & U) | (-> & F)]; cbn [Z.eqb negb].
  - exists (inr memory), l. do 2 (split; [done|]). split; [done|]. split; [intros c [_ Hc]; specialize (Hc eq_refl); lia|].
    split; [|done]. by apply (placeable_range _ _ _ _ _ M Hlen P).
  - exists (inl EFI_NOT_FOUND), l. do 2 (split; [done|]). split; [done|]. by right.
Qed.

(** Entering pages in the map as a type of the specification. *)
Lemma add_pg_sys s addr pages ty overlap attr : sound (efi_mem (s_efi s)) -> pages_ok addr pages ->
  0 <= ty < EFI_MAX_MEMORY_TYPE ->
  exists st e, add_pg calloc s addr pages ty overlap attr = Some (st, set_efi s e) /\
    added_pages (calloc (tick s)) (s_efi s) addr pages ty overlap attr st e.
Proof.
  intros Sl Pk Ty. destruct (add_pg_spec (calloc (tick s)) (s_efi s) addr pages ty overlap attr Sl Pk Ty) as (st & e & E & _ & A).
  exists st, e. split; [|done]. unfold add_pg. by rewrite E.
Qed.

(** The pages go back and the map is not told. *)
Lemma bail_out s base size (memory : option Z) : exists s',
  ('(_, s) ← lmb_free_flags malloc calloc windows s base size PAGE_FLAGS; Some (EFI_OUT_OF_RESOURCES, memory, s)) =
    Some (EFI_OUT_OF_RESOURCES, memory, s') /\ mem64 s' = mem64 s /\ s_efi s' = s_efi s.
Proof. destruct (free_quiet s base size) as (r & u & ->). cbn [mbind option_bind]. eexists. split; [reflexivity|]. done. Qed.

(** The ends of an allocation. *)
Inductive allocate_outcome (s : sys) (type : efi_allocate_type) (ty pages memory st : Z) (m : option Z) (s' : sys) : Prop :=
| pages_given addr : st = EFI_SUCCESS -> m = Some addr -> pages_place s type memory pages addr ->
    (forall c, pages_place s type memory pages c -> c <= addr) -> range_ok addr (4096 * pages) ->
    hands_out s s' addr pages ty -> allocate_outcome s type ty pages memory st m s'
| no_place : st = no_pages_status type -> m = Some memory -> s' = s ->
    (forall c, ~ pages_place s type memory pages c) -> allocate_outcome s type ty pages memory st m s'
| no_list : st = no_pages_status type -> m = Some memory -> s_efi s' = s_efi s ->
    al_fail (used_mem (s_lmb s')) = true -> allocate_outcome s type ty pages memory st m s'
| not_entered addr : st = EFI_OUT_OF_RESOURCES -> m = Some memory -> pages_place s type memory pages addr ->
    (forall c, pages_place s type memory pages c -> c <= addr) ->
    sound (efi_mem (s_efi s')) -> loses (efi_mem (s_efi s)) (efi_mem (s_efi s')) addr pages ->
    (exists a, inside addr pages a /\ ~ conventional (efi_mem (s_efi s)) a) \/ (exists k j, calloc k j = false) ->
    allocate_outcome s type ty pages memory st m s'.

Lemma pages_allocate_spec s type ty pages memory :
  map_ok (s_lmb s) -> sound (efi_mem (s_efi s)) -> 0 < pages -> 4096 * pages < TOP -> 0 <= ty < EFI_PERSISTENT_MEMORY_TYPE ->
  request_ok s type memory pages ->
  exists st m s', allocate s type ty pages (Some memory) = Some (st, m, s') /\ mem64 s' = mem64 s /\
    allocate_outcome s type ty pages memory st m s'.
Proof.
  intros M Sl Hp Ht Ty Rq. unfold efi_allocate_pages, EFI_PERSISTENT_MEMORY_TYPE in *.
  replace (14 <=? ty) with false by lia. cbn [andb]. rewrite page_bytes_pages, Z.eqb_refl by lia. cbn [negb].
  rewrite page_bytes_exact by lia. destruct (pick_spec s type pages memory M Hp Ht Rq) as (r & l & -> & Av & R).
  destruct r as [st | addr].
  { destruct R as (-> & R). exists (no_pages_status type), (Some memory), (set_lmb s l).
    do 2 (split; [done|]). destruct R as [(-> & N) | F]; [apply no_place; try done; by destruct s|by apply no_list]. }
  destruct R as (P & H & Ro & U). pose proof P as [(P1 & P2 & P3 & P4 & _) _].
  destruct (add_pg_sys (set_lmb s l) addr pages (s32 ty) true 0) as (st & e & -> & A); [done| |rewrite s32_small; unfold EFI_MAX_MEMORY_TYPE; lia|].
  { destruct Ro as (R1 & R2 & R3). split_and!; [lia|exact P2|lia|lia]. }
  rewrite s32_small in A by lia. cbn [mbind option_bind].
  destruct A as [-> W Ov Cv | a -> _ Ia Na Se _ Lo | j -> Cj Se _ Lo].
  - exists EFI_SUCCESS, (Some addr), (set_efi (set_lmb s l) e). do 2 (split; [done|]).
    apply (pages_given _ _ _ _ _ _ _ _ addr); try done. split; try done. by apply Cv.
  - destruct (bail_out (set_efi (set_lmb s l) e) addr (4096 * pages) (Some memory)) as (s' & E & Mm & Es). cbn [Z.eqb negb]. rewrite E.
    eexists _, _, _. split; [reflexivity|]. split; [done|]. apply (not_entered _ _ _ _ _ _ _ _ addr); rewrite ?Es; eauto.
  - destruct (bail_out (set_efi (set_lmb s l) e) addr (4096 * pages) (Some memory)) as (s' & E & Mm & Es). cbn [Z.eqb negb]. rewrite E.
    eexists _, _, _. split; [reflexivity|]. split; [done|]. apply (not_entered _ _ _ _ _ _ _ _ addr); rewrite ?Es; eauto 6.
Qed.

(** Freed memory is conventional, write-back cacheable. *)
Lemma notify_free_spec s addr pages : test (s_lmb s) = false -> sound (efi_mem (s_efi s)) -> pages_ok addr pages -> 0 < addr ->
  exists st e, lmb_map_update_notify calloc windows s addr (4096 * pages) LMB_MAP_OP_FREE LMB_NOOVERWRITE =
      Some (if negb (st =? EFI_SUCCESS) then -1 else 0, set_efi s e) /\
    added_pages (calloc (tick s)) (s_efi s) addr pages EFI_CONVENTIONAL_MEMORY false 0 st e.
Proof.
  intros Te Sl Pk Ha. pose proof Pk as (P1 & P2 & P3 & P4). unfold lmb_map_update_notify. rewrite Te.
  change (negb false && _) with true. cbv iota. unfold efi_map_update_notify. rewrite page_offset by done.
  rewrite Z.add_0_r, (u64_small (4096 * pages)) by (unfold TOP in *; lia).
  assert (E : efi_size_in_pages (4096 * pages) = pages).
  { unfold efi_size_in_pages, EFI_PAGE_MASK, EFI_PAGE_SHIFT. rewrite u64_small by (unfold TOP in *; Z.to_euclidean_division_equations; lia).
    rewrite Z.shiftr_div_pow2 by lia. change (2 ^ 12) with 4096. Z.to_euclidean_division_equations. lia. }
  rewrite E, page_floor_aligned by done. change (negb (Z.land LMB_NOOVERWRITE LMB_NOMAP =? 0)) with false.
  rewrite andb_false_r. cbv iota.
  destruct (add_pg_spec (calloc (tick s)) (s_efi s) addr pages EFI_CONVENTIONAL_MEMORY false 0) as (st & e & -> & _ & A); [done|done|done|].
  cbn [mbind option_bind]. by exists st, e.
Qed.

(** The EFI map when pages have become conventional memory. *)
Definition returns_pages (e e' : efi) (memory pages : Z) : Prop :=
  map_wf (efi_mem e') /\ overrides (efi_mem e) (efi_mem e') memory pages EFI_CONVENTIONAL_MEMORY EFI_MEMORY_WB.

(** The used memory blocks without the range or, if the upper rest of its block
    could not be put back, without that too; [grown] says if the list failed. *)
Inductive gives_back (l l' : lmb) (b sz : Z) (grown : bool) : Prop :=
| gives_range : clears (live (used_mem l)) (live (used_mem l')) b sz -> grown = true -> gives_back l l' b sz grown
| gives_rest p r q : live (used_mem l) = p ++ r :: q -> base r < b -> b + sz < base r + rsize r ->
    clears (live (used_mem l)) (live (used_mem l')) b (base r + rsize r - b) ->
    (grown = true -> lost q (b + sz) (base r + rsize r - (b + sz)) (rflags r) = true) ->
    (grown = false -> al_fail (used_mem l') = true) -> gives_back l l' b sz grown.

(** The four ends of [efi_free_pages]. *)
Inductive free_outcome (s : sys) (memory pages st : Z) (s' : sys) : Prop :=
| free_refused : st = EFI_NOT_FOUND -> s' = s ->
    (~ allocated (efi_mem (s_efi s)) memory \/ ~ Exists (contains memory (4096 * pages)) (live (used_mem (s_lmb s)))) ->
    free_outcome s memory pages st s'
| free_done : st = EFI_SUCCESS -> allocated (efi_mem (s_efi s)) memory ->
    Exists (contains memory (4096 * pages)) (live (used_mem (s_lmb s))) ->
    gives_back (s_lmb s) (s_lmb s') memory (4096 * pages) true -> returns_pages (s_efi s) (s_efi s') memory pages ->
    free_outcome s memory pages st s'
| free_no_block : st = EFI_NOT_FOUND -> gives_back (s_lmb s) (s_lmb s') memory (4096 * pages) false -> s_efi s' = s_efi s ->
    free_outcome s memory pages st s'
| free_no_entry j : st = EFI_NOT_FOUND -> gives_back (s_lmb s) (s_lmb s') memory (4096 * pages) true ->
    calloc (tick s) j = false -> sound (efi_mem (s_efi s')) -> loses (efi_mem (s_efi s)) (efi_mem (s_efi s')) memory pages ->
    free_outcome s memory pages st s'.

Lemma free_pages_spec s memory pages :
  map_ok (s_lmb s) -> test (s_lmb s) = false -> sound (efi_mem (s_efi s)) -> pages_ok memory pages -> 0 < memory ->
  exists st s', free_pages s memory pages = Some (st, s') /\ available_mem (s_lmb s') = available_mem (s_lmb s) /\
    free_outcome s memory pages st s'.
Proof.
  intros M Te Sl Pk Hm. pose proof Pk as (P1 & P2 & P3 & P4). unfold efi_free_pages.
  destruct (check_allocated_spec (s_efi s) memory Sl) as [[-> A] | [-> A]]; cbn [Z.eqb negb].
  2: { exists EFI_NOT_FOUND, s. do 2 (split; [done|]). apply free_refused; [done|done|by left]. }
  rewrite page_offset by done. replace ((memory =? 0) || _ || (pages =? 0)) with false by (cbn [Z.eqb negb]; lia).
  rewrite page_bytes_exact by lia. unfold lmb_free_flags.
  pose proof (mo_used _ M) as [Wu Fu Au Hu]. assert (Ro : range_ok memory (4096 * pages)) by (split_and!; lia).
  destruct (free_spec malloc (used_mem (s_lmb s)) memory (4096 * pages) Wu Fu Au Hu Ro) as [[Ex F] | [Ex F]].
  2: { rewrite F. cbn [Z.ltb Z.compare mbind option_bind]. exists EFI_NOT_FOUND, s. split; [by destruct s as [[] ? ? ?]|].
       split; [done|]. apply free_refused; [done|done|by right]. }
  destruct (_lmb_free _ _ _ _) as [ret u]. cbn [fst snd] in F. set (s1 := set_lmb s (set_used (s_lmb s) u)).
  assert (G : (ret = 0 /\ gives_back (s_lmb s) (s_lmb s1) memory (4096 * pages) true) \/
    (ret = -1 /\ gives_back (s_lmb s) (s_lmb s1) memory (4096 * pages) false)).
  { destruct F as [F1 F2 F3|p r q F1 F2 F3 F4 [[F5 F6]|[F5 F6]]]; cbn [fst snd] in *; [left|left|right]; (split; [done|]).
    - by apply gives_range.
    - by apply (gives_rest _ _ _ _ _ p r q).
    - by apply (gives_rest _ _ _ _ _ p r q). }
  destruct G as [(-> & G) | (-> & G)]; cbn [Z.ltb Z.compare].
  - destruct (notify_free_spec s1 memory pages) as (st & e & -> & Ad); [done|done|done|done|]. cbn [mbind option_bind].
    destruct Ad as [-> W Ov _ | a _ [=] | j -> Cj Se _ Lo]; eexists _, _; (do 2 (split; [reflexivity|])); [by apply free_done|].
    by apply (free_no_entry _ _ _ _ _ j).
  - cbn [mbind option_bind]. eexists _, _. do 2 (split; [reflexivity|]). by apply free_no_block.
Qed.

(** Freed pages are not allocated. *)
Lemma freed_not_allocated e e' memory pages : returns_pages e e' memory pages -> 0 < pages ->
  forall a, inside memory pages a -> ~ allocated (efi_mem e') a.
Proof.
  intros (_ & Ov) Hp a Ia (t & at' & M & N). apply Ov in M as [(_ & T & _) | (O & _)]; done.
Qed.


(** C18: freeing pages.  On memory blocks whose lists are sorted and disjoint, a
    sound EFI map and with notification on, freeing page-aligned memory other
    than 0 ends with one of four results.  It is refused with nothing changed if
    its first page is not allocated in the EFI map or the range is not part of
    one used block.  It succeeds: exactly these pages are conventional memory,
    exactly this range is unused in the blocks (with the upper rest of its block
    in the arrangement [lost]), and freeing any number of pages from the same
    address again is refused.  It answers EFI_NOT_FOUND after the list of blocks
    could not grow, with the upper rest of the block unused too and the EFI map
    as it was; or after an entry of the EFI map could not be allocated, with the
    blocks as on success and pages of the range missing in the EFI map. *)
Theorem efi_free_pages_frees s memory pages :
  map_ok (s_lmb s) -> test (s_lmb s) = false -> sound (efi_mem (s_efi s)) -> pages_ok memory pages -> 0 < memory ->
  exists st s', free_pages s memory pages = Some (st, s') /\ available_mem (s_lmb s') = available_mem (s_lmb s) /\
    free_outcome s memory pages st s' /\
    (st = EFI_SUCCESS -> forall pages', free_pages s' memory pages' = Some (EFI_NOT_FOUND, s')).
Proof.
  intros M Te Sl Pk Hm. destruct (free_pages_spec s memory pages M Te Sl Pk Hm) as (st & s' & E & Av & O).
  exists st, s'. split_and!; [done|done|done|]. intros -> pages'. destruct O as [[=] | _ _ _ _ F | [=] | ? [=]].
  assert (Sl' : sound (efi_mem (s_efi s'))) by (destruct F as ((K & D & _) & _); by apply descending_sound).
  unfold efi_free_pages. destruct (check_allocated_spec (s_efi s') memory Sl') as [[_ A] | [-> _]]; [|done].
  exfalso. apply (freed_not_allocated _ _ memory pages F) in A; [done|apply Pk|]. destruct Pk as (_ & _ & P3 & _). unfold inside. lia.
Qed.

(** The first page of pages handed out counts as allocated. *)
Lemma handed_out_allocated s s' addr pages ty a : hands_out s s' addr pages ty -> ty <> EFI_CONVENTIONAL_MEMORY ->
  inside addr pages a -> efi_check_allocated (s_efi s') a true = EFI_SUCCESS.
Proof.
  intros [_ Ov (K & D & _) _ _] Ty Ia. destruct (check_allocated_spec (s_efi s') a) as [[-> _] | [_ N]]; [by apply descending_sound|done|].
  exfalso. apply N. exists ty, (default_attribute ty). split; [|done]. apply Ov. by left.
Qed.

Lemma size_in_pages_spec n : 0 < n -> n + 4096 < TOP ->
  0 < efi_size_in_pages n /\ n <= 4096 * efi_size_in_pages n < n + 4096.
Proof.
  intros H1 H2. unfold efi_size_in_pages, EFI_PAGE_MASK, EFI_PAGE_SHIFT. rewrite u64_small by (unfold TOP in *; lia).
  rewrite Z.shiftr_div_pow2 by lia. change (2 ^ 12) with 4096. Z.to_euclidean_division_equations. lia.
Qed.

Section Pool.
Context (dma_minalign : Z).

#[local] Abbreviation header := (sizeof_efi_pool_allocation dma_minalign).
#[local] Abbreviation allocate_pool := (efi_allocate_pool malloc calloc windows dma_minalign).

Lemma header_checked s alloc n : 0 <= alloc ->
  let s1 := store64 s (hdr_num_pages alloc) n in
  let s2 := store64 s1 (hdr_checksum alloc) (checksum s1 alloc) in
  mem64 s2 (hdr_checksum alloc) = checksum s2 alloc /\
  mem64 (store64 s2 (hdr_checksum alloc) 0) (hdr_num_pages alloc) = n.
Proof.
  intros Ha s1 s2. unfold checksum, s2, s1, hdr_checksum, hdr_num_pages. cbn [mem64 store64].
  rewrite !Z.eqb_refl. replace (alloc =? alloc + 8) with false by lia. split; [|done].
  unfold checksum, hdr_num_pages. cbn [mem64 store64]. by rewrite Z.eqb_refl.
Qed.

(** Pool memory.  With a header smaller than a page, a pool request of a type
    other than conventional memory and not near the top of the size range gets
    memory after a header at the start of the fewest pages that hold both, or
    fails; and giving the memory back passes the checks on the header and frees
    exactly these pages. *)
Theorem efi_pool_roundtrip s ty size :
  map_ok (s_lmb s) -> sound (efi_mem (s_efi s)) -> 16 <= header < 4096 -> 0 < size -> size + 16384 < TOP ->
  0 <= ty < EFI_PERSISTENT_MEMORY_TYPE -> ty <> EFI_CONVENTIONAL_MEMORY ->
  exists st buf s', allocate_pool s ty size true = Some (st, buf, s') /\
  ((st = EFI_OUT_OF_RESOURCES /\ buf = None) \/
   (st = EFI_SUCCESS /\ exists alloc pages, buf = Some (alloc + header) /\ alloc mod 4096 = 0 /\
    header + size <= 4096 * pages < header + size + 4096 /\ hands_out s s' alloc pages ty /\
    efi_free_pool malloc calloc windows dma_minalign s' (alloc + header) =
      free_pages (store64 s' (hdr_checksum alloc) 0) alloc pages)).
Proof.
  intros M Sl Hh Hs Ht Ty Tc. unfold efi_allocate_pool. cbn [negb]. replace (size =? 0) with false by lia.
  rewrite (u64_small (size + header)) by (unfold TOP in *; lia). set (n := efi_size_in_pages _).
  destruct (size_in_pages_spec (size + header)) as (N0 & N1); [lia|lia|]. fold n in N0, N1.
  destruct (pages_allocate_spec s EFI_ALLOCATE_ANY_PAGES ty n 0 M Sl N0) as (st & m & s1 & -> & _ & O); [lia|done|done|].
  cbn [mbind option_bind]. destruct O as [addr -> -> P _ Ro H | -> _ _ _ | -> _ _ _ | addr -> _ _ _ _ _ _];
    [|eexists _, _, _; split; [reflexivity|]; by left..].
  cbn [Z.eqb default from_option id]. destruct Ro as (R1 & R2 & R3). destruct P as [(P1 & P2 & _) _].
  assert (E : pool_data dma_minalign addr = addr + header) by (unfold pool_data; rewrite u64_small; unfold TOP in *; lia).
  eexists _, _, _. split; [reflexivity|]. right. split; [done|]. exists addr, n. rewrite E. split_and!; [done|exact P2|lia|lia| |].
  - destruct H. by split.
  - destruct (header_checked s1 addr n) as [C Np]; [lia|]. unfold efi_free_pool. replace (addr + header =? 0) with false by lia.
    set (s2 := store64 _ (hdr_checksum addr) _) in *.
    assert (H2 : hands_out s s2 addr n ty) by (destruct H; by split).
    rewrite (handed_out_allocated s s2 addr n ty) by (done || (unfold inside; lia)). cbn [Z.eqb negb].
    replace (u64 (addr + header - header)) with addr by (rewrite u64_small; unfold TOP in *; lia).
    rewrite page_offset by exact P2. rewrite C, (Z.eqb_refl (checksum s2 addr)). cbn [Z.eqb negb orb]. by rewrite Np.
Qed.

(** A request within [header] bytes of the top of the size range gets one page. *)
Lemma pool_size_wraps s ty size : 16 <= header < 4096 -> TOP - header < size < TOP ->
  allocate_pool s ty size true = allocate_pool s ty 1 true.
Proof.
  intros Hh Hs. unfold efi_allocate_pool. cbn [negb]. replace (size =? 0) with false by (unfold TOP in *; lia). cbn [Z.eqb].
  assert (W : forall n, 0 < n <= 4096 -> efi_size_in_pages n = 1).
  { intros n Hn. unfold efi_size_in_pages, EFI_PAGE_MASK, EFI_PAGE_SHIFT. rewrite u64_small by lia.
    rewrite Z.shiftr_div_pow2 by lia. change (2 ^ 12) with 4096. Z.to_euclidean_division_equations. lia. }
  replace (u64 (size + header)) with (size + header - TOP).
  - rewrite (u64_small (1 + header)), !W by (unfold TOP in *; lia). done.
  - unfold u64, TOP in *. apply (Zmod_unique _ _ 1); lia.
Qed.

End Pool.

(** An alignment of zero, which the check on the alignment lets pass, is taken
    for an overflow. *)
Lemma aligned_zero_null s len ty : 0 < len -> len + 4096 < TOP ->
  efi_alloc_aligned_pages malloc calloc windows s len ty 0 = Some (0, s).
Proof.
  intros H1 H2. unfold efi_alloc_aligned_pages. destruct (size_in_pages_spec len H1 H2) as (N0 & N1).
  rewrite Z.land_0_l. cbn [Z.eqb negb]. change (efi_size_in_pages 0) with 0.
  rewrite u64_small by (unfold TOP in *; lia). by replace (_ <? _) with true by lia.
Qed.

End Correct.

(** ** Examples *)

(** The memory blocks of [sample] and the map that goes with them. *)
Definition sample_map : efi :=
  mk_efi [ram 271 1; mk_md EFI_BOOT_SERVICES_DATA (4096 * 270) (4096 * 270) 1 EFI_MEMORY_WB; ram 256 14; ram 1 16] 0.
Definition sample_sys : sys := mk_sys sample sample_map (fun _ => 0) 0.

Lemma sample_map_sound : sound (efi_mem sample_map).
Proof. apply descending_sound; repeat constructor; vm_compute; try done; intros [=]. Qed.


Lemma efi_free_pages_frees_witness : map_ok sample /\ sound (efi_mem sample_map) /\ pages_ok 1105920 1 /\
  exists st s', efi_free_pages (fun _ => true) (fun _ _ => true) false sample_sys 1105920 1 = Some (st, s') /\
    available_mem (s_lmb s') = available_mem sample /\ free_outcome (fun _ _ => true) sample_sys 1105920 1 st s' /\
    (st = EFI_SUCCESS -> forall pages', efi_free_pages (fun _ => true) (fun _ _ => true) false s' 1105920 pages' = Some (EFI_NOT_FOUND, s')).
Proof.
  assert (P : pages_ok 1105920 1) by (split_and!; vm_compute; done).
  split; [exact sample_ok|]. split; [exact sample_map_sound|]. split; [exact P|].
  exact (efi_free_pages_frees (fun _ => true) (fun _ _ => true) false sample_sys 1105920 1 sample_ok eq_refl sample_map_sound P eq_refl).
Defined.

Lemma efi_pool_roundtrip_witness : map_ok sample /\ sound (efi_mem sample_map) /\
  exists st buf s', efi_allocate_pool (fun _ => true) (fun _ _ => true) false 64 sample_sys EFI_BOOT_SERVICES_DATA 5000 true = Some (st, buf, s') /\
  ((st = EFI_OUT_OF_RESOURCES /\ buf = None) \/
   (st = EFI_SUCCESS /\ exists alloc pages, buf = Some (alloc + 64) /\ alloc mod 4096 = 0 /\
    64 + 5000 <= 4096 * pages < 64 + 5000 + 4096 /\ hands_out sample_sys s' alloc pages EFI_BOOT_SERVICES_DATA /\
    efi_free_pool (fun _ => true) (fun _ _ => true) false 64 s' (alloc + 64) =
      efi_free_pages (fun _ => true) (fun _ _ => true) false (store64 s' (hdr_checksum alloc) 0) alloc pages)).
Proof.
  split; [exact sample_ok|]. split; [exact sample_map_sound|].
  exact (efi_pool_roundtrip (fun _ => true) (fun _ _ => true) false 64 sample_sys EFI_BOOT_SERVICES_DATA 5000 sample_ok sample_map_sound
    ltac:(vm_compute; split; done) eq_refl eq_refl ltac:(vm_compute; split; done) ltac:(done)).
Defined.

(** The pages come from the top of the upper bank, below the page in use. *)
Lemma sample_pages : exists s', efi_allocate_pages (fun _ => true) (fun _ _ => true) false sample_sys EFI_ALLOCATE_ANY_PAGES
  EFI_BOOT_SERVICES_DATA 4 (Some 0) = Some (EFI_SUCCESS, Some (4096 * 266), s').
Proof. eexists. vm_compute. done. Qed.

End EfiPages.
