(* ===== verification/Digest.v ===== *)
(** * Hashing in pieces

    What the digests of lib/sha256.c and lib/sha1.c share: data is collected in a
    buffer of one block, and every full block is worked into the state.  The
    state after any sequence of pieces is that of the message as a whole. *)

From S2P Require Import Prelude Bytes.
Local Open Scope uboot_scope.
Local Open Scope Z_scope.

Module Digest.

Section Stream.
Context {St : Type} (compress : St -> list Z -> St) (B : nat) (HB : (0 < B)%nat).

(** [n] blocks worked into the state. *)
Fixpoint run (n : nat) (st : St) (data : list Z) : St :=
  match n with O => st | S n => run n (compress st (take B data)) (drop B data) end.

Definition hashed (h0 : St) (msg : list Z) : St := run (length msg / B) h0 msg.

(** Working in one piece, with [partial] bytes in the buffer. *)
Definition feed (st : St) (buf : list Z) (partial : nat) (data : list Z) : St * list Z :=
  let fill := (B - partial)%nat in
  let '(st, buf, data, partial) :=
    if negb (partial =? 0)%nat && (fill <=? length data)%nat then
      let buf := write_at buf (Z.of_nat partial) (take fill data) in
      (compress st buf, buf, drop fill data, O)
    else (st, buf, data, partial) in
  let n := (length data / B)%nat in
  let rest := drop (n * B) data in
  (run n st data, if (length rest =? 0)%nat then buf else write_at buf (Z.of_nat partial) rest).

(** The state and buffer are those of a message. *)
Definition tracks (h0 : St) (msg : list Z) (st : St) (buf : list Z) : Prop :=
  exists q m1 m2 junk, msg = m1 ++ m2 /\ length m1 = (q * B)%nat /\ (length m2 < B)%nat /\
    st = run q h0 m1 /\ buf = m2 ++ junk /\ length buf = B.

Lemma run_app n m st a b : length a = (n * B)%nat -> run (n + m) st (a ++ b) = run m (run n st a) b.
Proof.
  revert st a. induction n as [|n IH]; intros st a H; cbn [run Nat.add].
  - by destruct a.
  - rewrite take_app_le, drop_app_le by lia. apply IH. rewrite length_drop. lia.
Qed.

Lemma run_prefix n st a b : length a = (n * B)%nat -> run n st (a ++ b) = run n st a.
Proof. intros H. rewrite <- (Nat.add_0_r n) at 1. by rewrite run_app. Qed.

Lemma tracks_left h0 msg st buf : tracks h0 msg st buf ->
  exists q m1 m2 junk, msg = m1 ++ m2 /\ length m1 = (q * B)%nat /\ length m2 = (length msg mod B)%nat /\
    st = run q h0 m1 /\ buf = m2 ++ junk /\ length buf = B /\ (length m2 < B)%nat.
Proof using HB.
  intros (q & m1 & m2 & junk & -> & H1 & H2 & H3 & H4 & H5). exists q, m1, m2, junk. split_and!; try done.
  rewrite length_app, H1, Nat.add_comm, Nat.Div0.mod_add. symmetry. by apply Nat.mod_small.
Qed.

Lemma tracks_hashed h0 msg st buf : tracks h0 msg st buf -> (length msg mod B = 0)%nat -> st = hashed h0 msg.
Proof using HB.
  intros T H. apply tracks_left in T as (q & m1 & m2 & junk & -> & H1 & H2 & -> & _ & _ & _). rewrite H in H2.
  destruct m2; [|done]. rewrite app_nil_r. unfold hashed. by rewrite H1, Nat.div_mul by lia.
Qed.

Lemma tracks_start h0 buf : length buf = B -> tracks h0 [] h0 buf.
Proof using HB. intros H. exists O, [], [], buf. split_and!; try done. Qed.

(** Whole blocks, and the rest to the start of the buffer. *)
Lemma whole_blocks h0 q m st buf data : length m = (q * B)%nat -> st = run q h0 m -> length buf = B ->
  let n := (length data / B)%nat in
  tracks h0 (m ++ data) (run n st data)
    (if (length (drop (n * B) data) =? 0)%nat then buf else write_at buf 0 (drop (n * B) data)).
Proof using HB.
  intros Hm -> Hb n. pose proof (Nat.div_mod (length data) B ltac:(lia)) as D. fold n in D.
  assert (R : (length (drop (n * B) data) < B)%nat).
  { rewrite length_drop. pose proof (Nat.mod_upper_bound (length data) B). lia. }
  assert (T : length (take (n * B) data) = (n * B)%nat) by (rewrite length_take; lia).
  set (rest := drop (n * B) data) in *.
  assert (E : exists junk, (if (length rest =? 0)%nat then buf else write_at buf 0 rest) = rest ++ junk /\
    length (rest ++ junk) = B).
  { destruct (Nat.eqb_spec (length rest) 0) as [Z0|Z0]; [destruct rest; [|done]; by exists buf|].
    exists (drop (length rest) buf). pose proof (write_at_app [] buf rest) as W. cbn [app length] in W. change (Z.of_nat 0) with 0 in W. rewrite W by lia.
    split; [done|]. rewrite length_app, length_drop. lia. }
  destruct E as (junk & -> & L). exists (q + n)%nat, (m ++ take (n * B) data), rest, junk. split_and!; try done.
  - unfold rest. by rewrite <- app_assoc, take_drop.
  - rewrite length_app. lia.
  - rewrite run_app by done. rewrite <- (take_drop (n * B) data) at 1. by rewrite run_prefix.
Qed.

(** Pieces add up. *)
Lemma feed_tracks h0 msg st buf data : tracks h0 msg st buf ->
  let r := feed st buf (length msg mod B) data in tracks h0 (msg ++ data) r.1 r.2.
Proof using HB.
  intros T. apply tracks_left in T as (q & m1 & m2 & junk & Em & H1 & H2 & H3 & H4 & H5 & H6). unfold feed.
  rewrite <- H2. destruct (negb (length m2 =? 0)%nat && (B - length m2 <=? length data)%nat) eqn:G; cbn [fst snd].
  - apply andb_true_iff in G as [G1 G2]. apply Nat.leb_le in G2. set (fill := (B - length m2)%nat) in *.
    assert (Lf : length (take fill data) = fill) by (rewrite length_take; lia).
    assert (Lj : length junk = fill) by (rewrite H4, length_app in H5; lia).
    assert (W : write_at buf (Z.of_nat (length m2)) (take fill data) = m2 ++ take fill data).
    { rewrite H4, write_at_app by lia. by rewrite Lf, drop_ge, app_nil_r by lia. }
    rewrite W. rewrite <- (take_drop fill data) at 1. rewrite Em, <- app_assoc, (app_assoc m2), app_assoc.
    apply (whole_blocks h0 (S q)).
    + rewrite !length_app. lia.
    + rewrite H3. replace (S q) with (q + 1)%nat by lia. rewrite run_app by done. cbn [run].
      rewrite (take_ge (m2 ++ take fill data) B); [done|]. rewrite length_app. lia.
    + rewrite length_app. lia.
  - destruct (Nat.eqb_spec (length m2) 0) as [Z0|Z0].
    + destruct m2; [|done]. rewrite app_nil_r in Em. rewrite Em. by apply (whole_blocks h0 q).
    + cbn [negb andb] in G. apply Nat.leb_gt in G. rewrite (Nat.div_small (length data)) by lia. cbn [run Nat.mul]. rewrite drop_0.
      assert (Lj : length junk = (B - length m2)%nat) by (rewrite H4, length_app in H5; lia).
      exists q, m1, (m2 ++ data). rewrite H4. destruct (Nat.eqb_spec (length data) 0) as [D0|D0].
      * destruct data; [|done]. rewrite !app_nil_r. exists junk. split_and!; try done. by rewrite <- H4.
      * exists (drop (length data) junk). rewrite write_at_app by lia. rewrite Em. split_and!; try done.
        -- by rewrite app_assoc.
        -- rewrite length_app. lia.
        -- by rewrite app_assoc.
        -- rewrite !length_app, length_drop. lia.
Qed.

End Stream.

(** Two ways to work in a block that agree on proper states. *)
Lemma run_agree {St} (c c' : St -> list Z -> St) (B : nat) (good : St -> Prop) n :
  (forall st blk, good st -> length blk = B -> Forall is_u8 blk -> c st blk = c' st blk /\ good (c st blk)) ->
  forall st data, good st -> length data = (n * B)%nat -> Forall is_u8 data ->
  run c B n st data = run c' B n st data /\ good (run c B n st data).
Proof.
  intros A. induction n as [|n IH]; intros st data G L F; cbn [run]; [done|].
  destruct (A st (take B data)) as [E G']; [done|rewrite length_take; lia|by apply Forall_take|].
  rewrite <- E. apply IH; [done|rewrite length_drop; lia|by apply Forall_drop].
Qed.

(** ** Words *)
Lemma lor_disjoint a b k : 0 <= k -> 0 <= a < 2 ^ k -> Z.lor a (b * 2 ^ k) = a + b * 2 ^ k.
Proof.
  intros Hk Ha. rewrite <- Z.shiftl_mul_pow2 by done.
  assert (L : Z.land a (Z.shiftl b k) = 0).
  { apply Z.bits_inj'. intros n Hn. rewrite Z.land_spec, Z.bits_0. destruct (Z_lt_le_dec n k).
    - rewrite Z.shiftl_spec_low by lia. apply andb_false_r.
    - destruct (Z.eq_dec a 0) as [->|]; [by rewrite Z.bits_0|]. rewrite Z.bits_above_log2; [done|lia|].
      apply Z.lt_le_trans with k; [apply Z.log2_lt_pow2; lia|lia]. }
  rewrite <- Z.lxor_lor by done. symmetry. by apply Z.add_nocarry_lxor.
Qed.

(** Rotation of a [w]-bit word. *)
Definition rotr (w n x : Z) : Z := x / 2 ^ n + x mod 2 ^ n * 2 ^ (w - n).

Lemma rotr_shifts w n x : 0 < n < w -> 0 <= x < 2 ^ w ->
  Z.lor (Z.shiftr x n) (Z.shiftl x (w - n) mod 2 ^ w) = rotr w n x /\ 0 <= rotr w n x < 2 ^ w.
Proof.
  intros Hn Hx. rewrite Z.shiftr_div_pow2, Z.shiftl_mul_pow2 by lia. unfold rotr.
  assert (P : 2 ^ w = 2 ^ n * 2 ^ (w - n)) by (rewrite <- Z.pow_add_r by lia; by replace (n + (w - n)) with w by lia).
  assert (0 < 2 ^ n) by lia. assert (0 < 2 ^ (w - n)) by (apply Z.pow_pos_nonneg; lia).
  rewrite P at 1. rewrite Z.mul_mod_distr_r by lia.
  assert (0 <= x / 2 ^ n < 2 ^ (w - n)).
  { split; [apply Z.div_pos; lia|]. apply Z.div_lt_upper_bound; [lia|]. rewrite <- P. lia. }
  split; [apply lor_disjoint; lia|].
  pose proof (Z.mod_pos_bound x (2 ^ n)). rewrite P. nia.
Qed.

(** The bitwise functions of the standard and the ones of the code. *)
Lemma choose_lxor x y z : Z.lxor z (Z.land x (Z.lxor y z)) = Z.lxor (Z.land x y) (Z.land (Z.lnot x) z).
Proof.
  apply Z.bits_inj'. intros n Hn. rewrite !Z.lxor_spec, !Z.land_spec, Z.lxor_spec, Z.lnot_spec by done.
  by destruct (Z.testbit x n), (Z.testbit y n), (Z.testbit z n).
Qed.

Lemma majority_lxor x y z :
  Z.lor (Z.land x y) (Z.land z (Z.lor x y)) = Z.lxor (Z.lxor (Z.land x y) (Z.land x z)) (Z.land y z).
Proof.
  apply Z.bits_inj'. intros n Hn. rewrite Z.lor_spec, !Z.lxor_spec, !Z.land_spec, Z.lor_spec.
  by destruct (Z.testbit x n), (Z.testbit y n), (Z.testbit z n).
Qed.

End Digest.
