(* ===== verification/Sha256.v ===== *)
(** * SHA-256 (lib/sha256.c, lib/sha256_common.c)

    The digest that signatures of images and partitions rest on, its use in
    pieces and in HMAC, and that it is the function of FIPS 180-4.  Words are
    32-bit values, data lists of bytes; wiping temporary copies is left out. *)

From S2P Require Import Prelude Bytes Digest.
Local Open Scope uboot_scope.
Local Open Scope Z_scope.

Module Sha256.
Import Digest.

Record sha256_context := mk_ctx { total0 : Z; total1 : Z; state : list Z; buffer : list Z }.

(** The buffer is not cleared at the start. *)
Definition sha256_starts (ctx : sha256_context) : sha256_context :=
  mk_ctx 0 0 [0x6A09E667; 0xBB67AE85; 0x3C6EF372; 0xA54FF53A; 0x510E527F; 0x9B05688C; 0x1F83D9AB; 0x5BE0CD19]
    (buffer ctx).

Definition GET_UINT32_BE (b : list Z) (i : Z) : Z :=
  Z.lor (Z.lor (Z.lor (Z.shiftl (byteat b i) 24) (Z.shiftl (byteat b (i + 1)) 16)) (Z.shiftl (byteat b (i + 2)) 8))
    (byteat b (i + 3)).

Definition PUT_UINT32_BE (n : Z) : list Z :=
  [u8 (Z.shiftr n 24); u8 (Z.shiftr n 16); u8 (Z.shiftr n 8); u8 n].

(** ** The block function *)
Definition SHR (x n : Z) : Z := Z.shiftr (Z.land x 0xFFFFFFFF) n.
Definition ROTR (x n : Z) : Z := Z.lor (SHR x n) (u32 (Z.shiftl x (32 - n))).
Definition S0 (x : Z) : Z := Z.lxor (Z.lxor (ROTR x 7) (ROTR x 18)) (SHR x 3).
Definition S1 (x : Z) : Z := Z.lxor (Z.lxor (ROTR x 17) (ROTR x 19)) (SHR x 10).
Definition S2 (x : Z) : Z := Z.lxor (Z.lxor (ROTR x 2) (ROTR x 13)) (ROTR x 22).
Definition S3 (x : Z) : Z := Z.lxor (Z.lxor (ROTR x 6) (ROTR x 11)) (ROTR x 25).
Definition F0 (x y z : Z) : Z := Z.lor (Z.land x y) (Z.land z (Z.lor x y)).
Definition F1 (x y z : Z) : Z := Z.lxor z (Z.land x (Z.lxor y z)).

(** [W[t]], computed when it is used first; the array has [t] words so far. *)
Definition R (W : list Z) (t : nat) : Z :=
  u32 (S1 (W !!! (t - 2)%nat) + W !!! (t - 7)%nat + S0 (W !!! (t - 15)%nat) + W !!! (t - 16)%nat).

(** One step on the variables A to H, which are numbered; the arguments are
    numbers of variables. *)
Definition P (v : list Z) (a b c d e f g h : nat) (x K : Z) : list Z :=
  let temp1 := u32 (v !!! h + S3 (v !!! e) + F1 (v !!! e) (v !!! f) (v !!! g) + K + x) in
  let temp2 := u32 (S2 (v !!! a) + F0 (v !!! a) (v !!! b) (v !!! c)) in
  let v := <[d := u32 (v !!! d + temp1)]> v in
  <[h := u32 (temp1 + temp2)]> v.

Definition constants : list Z :=
  [0x428A2F98; 0x71374491; 0xB5C0FBCF; 0xE9B5DBA5; 0x3956C25B; 0x59F111F1; 0x923F82A4; 0xAB1C5ED5;
   0xD807AA98; 0x12835B01; 0x243185BE; 0x550C7DC3; 0x72BE5D74; 0x80DEB1FE; 0x9BDC06A7; 0xC19BF174;
   0xE49B69C1; 0xEFBE4786; 0x0FC19DC6; 0x240CA1CC; 0x2DE92C6F; 0x4A7484AA; 0x5CB0A9DC; 0x76F988DA;
   0x983E5152; 0xA831C66D; 0xB00327C8; 0xBF597FC7; 0xC6E00BF3; 0xD5A79147; 0x06CA6351; 0x14292967;
   0x27B70A85; 0x2E1B2138; 0x4D2C6DFC; 0x53380D13; 0x650A7354; 0x766A0ABB; 0x81C2C92E; 0x92722C85;
   0xA2BFE8A1; 0xA81A664B; 0xC24B8B70; 0xC76C51A3; 0xD192E819; 0xD6990624; 0xF40E3585; 0x106AA070;
   0x19A4C116; 0x1E376C08; 0x2748774C; 0x34B0BCB5; 0x391C0CB3; 0x4ED8AA4A; 0x5B9CCA4F; 0x682E6FF3;
   0x748F82EE; 0x78A5636F; 0x84C87814; 0x8CC70208; 0x90BEFFFA; 0xA4506CEB; 0xBEF9A3F7; 0xC67178F2].

(** Step [t] of the unrolled code names the variables in the order of step 0,
    turned by [t] places. *)
Definition var (t j : nat) : nat := ((j + 7 * (t mod 8)) mod 8)%nat.

Definition step (s : list Z * list Z) (t : nat) : list Z * list Z :=
  let '(W, v) := s in
  let W := if (t <? 16)%nat then W else W ++ [R W t] in
  (W, P v (var t 0) (var t 1) (var t 2) (var t 3) (var t 4) (var t 5) (var t 6) (var t 7) (W !!! t) (constants !!! t)).

Definition sha256_process_one (st : list Z) (data : list Z) : list Z :=
  let W := map (fun i => GET_UINT32_BE data (4 * Z.of_nat i)) (seq 0 16) in
  let '(_, v) := fold_left step (seq 0 64) (W, st) in
  zip_with (fun s x => u32 (s + x)) st v.

Fixpoint sha256_process (blocks : nat) (st data : list Z) : list Z :=
  match blocks with
  | O => st
  | S n => sha256_process n (sha256_process_one st data) (drop 64 data)
  end.

(** ** Pieces *)
Definition sha256_update (ctx : sha256_context) (input : list Z) : sha256_context :=
  let len := Z.of_nat (length input) in
  if len =? 0 then ctx
  else
    let have := Z.land (total0 ctx) 0x3F in
    let fill := 64 - have in
    let total := u32 (total0 ctx + len) in
    let carry := if total <? len then total1 ctx +32 1 else total1 ctx in
    let '(st, buf, input, have) :=
      if negb (have =? 0) && (fill <=? len) then
        let buf := write_at (buffer ctx) have (take (Z.to_nat fill) input) in
        (sha256_process 1 (state ctx) buf, buf, drop (Z.to_nat fill) input, 0)
      else (state ctx, buffer ctx, input, have) in
    let len := Z.of_nat (length input) in
    let st := sha256_process (Z.to_nat (len / 64)) st input in
    let input := drop (Z.to_nat (len / 64 * 64)) input in
    let buf := if negb (len mod 64 =? 0) then write_at buf have input else buf in
    mk_ctx total carry st buf.

Definition sha256_padding : list Z := 0x80 :: replicate 63 0.

(** The digest, and what is left in the context. *)
Definition sha256_finish (ctx : sha256_context) : list Z * sha256_context :=
  let high := Z.lor (Z.shiftr (total0 ctx) 29) (u32 (Z.shiftl (total1 ctx) 3)) in
  let low := u32 (Z.shiftl (total0 ctx) 3) in
  let msglen := PUT_UINT32_BE high ++ PUT_UINT32_BE low in
  let last := Z.land (total0 ctx) 0x3F in
  let padn := if last <? 56 then 56 - last else 120 - last in
  let ctx := sha256_update ctx (take (Z.to_nat padn) sha256_padding) in
  let ctx := sha256_update ctx msglen in
  (flat_map PUT_UINT32_BE (take 8 (state ctx)), ctx).

(** The loop with the watchdog; [None] if it does not end, or if a chunk of
    2^31 bytes or more, negative as an [int], moves the pointer back. *)
Fixpoint wd_loop (n : nat) (ctx : sha256_context) (input : list Z) (chunk_sz : Z) : option sha256_context :=
  match n with
  | O => None
  | S n =>
    if (length input =? 0)%nat then Some ctx
    else
      let chunk := Z.of_nat (length input) in
      let chunk := if chunk_sz <? chunk then chunk_sz else chunk in
      if 0x80000000 <=? chunk then None
      else wd_loop n (sha256_update ctx (take (Z.to_nat chunk) input)) (drop (Z.to_nat chunk) input) chunk_sz
  end.

(** [wd] if there is a watchdog; [ctx] is what the stack holds. *)
Definition sha256_csum_wd (wd : bool) (ctx : sha256_context) (input : list Z) (chunk_sz : Z) : option (list Z) :=
  let ctx := sha256_starts ctx in
  ctx ← (if wd then wd_loop (S (length input)) ctx input chunk_sz else Some (sha256_update ctx input));
  Some (sha256_finish ctx).1.

(** The rest of [keybuf] after a digest is not set, and not used. *)
Definition sha256_hmac (ctx : sha256_context) (key input : list Z) : list Z :=
  let '(keybuf, keybuf_len, ctx) :=
    if (64 <? length key)%nat then
      let '(digest, ctx) := sha256_finish (sha256_update (sha256_starts ctx) key) in
      (digest ++ replicate 32 0, 32%nat, ctx)
    else (write_at (replicate 64 0) 0 key, length key, ctx) in
  let pad (x : Z) := zip_with Z.lxor (replicate keybuf_len x) (take keybuf_len keybuf) ++ replicate (64 - keybuf_len) x in
  let ctx := sha256_starts ctx in
  let ctx := sha256_update ctx (pad 0x36) in
  let ctx := sha256_update ctx input in
  let '(tmpbuf, ctx) := sha256_finish ctx in
  let ctx := sha256_starts ctx in
  let ctx := sha256_update ctx (pad 0x5C) in
  let ctx := sha256_update ctx tmpbuf in
  (sha256_finish ctx).1.

(** ** The standard *)
Module Fips.
Definition add (x y : Z) : Z := (x + y) mod 2 ^ 32.
Definition Ch (x y z : Z) : Z := Z.lxor (Z.land x y) (Z.land (Z.lnot x) z).
Definition Maj (x y z : Z) : Z := Z.lxor (Z.lxor (Z.land x y) (Z.land x z)) (Z.land y z).
Definition Sigma0 (x : Z) : Z := Z.lxor (Z.lxor (rotr 32 2 x) (rotr 32 13 x)) (rotr 32 22 x).
Definition Sigma1 (x : Z) : Z := Z.lxor (Z.lxor (rotr 32 6 x) (rotr 32 11 x)) (rotr 32 25 x).
Definition sigma0 (x : Z) : Z := Z.lxor (Z.lxor (rotr 32 7 x) (rotr 32 18 x)) (x / 2 ^ 3).
Definition sigma1 (x : Z) : Z := Z.lxor (Z.lxor (rotr 32 17 x) (rotr 32 19 x)) (x / 2 ^ 10).

Definition words (blk : list Z) : list Z := map (fun i => be_val (take 4 (drop (4 * i) blk))) (seq 0 16).

(** The first [16 + n] words of the message schedule. *)
Fixpoint schedule (blk : list Z) (n : nat) : list Z :=
  match n with
  | O => words blk
  | S n =>
    let w := schedule blk n in
    w ++ [add (add (add (sigma1 (w !!! (n + 14)%nat)) (w !!! (n + 9)%nat)) (sigma0 (w !!! (n + 1)%nat))) (w !!! n)]
  end.

Definition round (k w : Z) (v : list Z) : list Z :=
  match v with
  | [a; b; c; d; e; f; g; h] =>
    let t1 := add (add (add (add h (Sigma1 e)) (Ch e f g)) k) w in
    let t2 := add (Sigma0 a) (Maj a b c) in
    [add t1 t2; a; b; c; add d t1; e; f; g]
  | _ => v
  end.

(** The constants: the first 32 bits of the fractional parts of the cube roots
    of the first 64 primes. *)
Definition prime (n : Z) : bool :=
  forallb (fun d => negb (n mod d =? 0)) (map Z.of_nat (seq 2 (Z.to_nat n - 2))).
Definition primes : list Z := filter (fun n => prime n = true) (map Z.of_nat (seq 2 310)).

(** The root of [x] rounded down, found from its bit [b - 1] down. *)
Fixpoint cube_root (b : nat) (r x : Z) : Z :=
  match b with
  | O => r
  | S b =>
    let r' := r + 2 ^ Z.of_nat b in
    cube_root b (if r' ^ 3 <=? x then r' else r) x
  end.

Definition K : list Z := map (fun p => cube_root 40 0 (p * 2 ^ 96) mod 2 ^ 32) primes.

Definition compress (st blk : list Z) : list Z :=
  let w := schedule blk 48 in
  zip_with add st (fold_left (fun v t => round (K !!! t) (w !!! t) v) (seq 0 64) st).

(** The message, a one bit, zeros and the length in bits. *)
Definition pad (msg : list Z) : list Z :=
  msg ++ 0x80 :: replicate (Z.to_nat ((55 - Z.of_nat (length msg)) mod 64)) 0 ++ be_bytes 8 (8 * Z.of_nat (length msg)).

Definition initial : list Z :=
  [0x6A09E667; 0xBB67AE85; 0x3C6EF372; 0xA54FF53A; 0x510E527F; 0x9B05688C; 0x1F83D9AB; 0x5BE0CD19].

Definition sha256 (msg : list Z) : list Z := flat_map (be_bytes 4) (hashed compress 64 initial (pad msg)).

(** RFC 2104. *)
Definition hmac (key msg : list Z) : list Z :=
  let key := if (64 <? length key)%nat then sha256 key else key in
  let key := key ++ replicate (64 - length key) 0 in
  sha256 (map (Z.lxor 0x5C) key ++ sha256 (map (Z.lxor 0x36) key ++ msg)).
End Fips.

Lemma constants_fips : Fips.K = constants.
Proof. vm_compute. reflexivity. Qed.

(** ** The block function is that of the standard *)
Lemma u32_pow x : u32 x = x mod 2 ^ 32.
Proof. done. Qed.

Lemma SHR_div x n : is_u32 x -> 0 <= n -> SHR x n = x / 2 ^ n.
Proof.
  intros Hx Hn. unfold SHR. change 0xFFFFFFFF with (Z.ones 32). rewrite Z.land_ones by lia.
  rewrite Z.mod_small by (unfold is_u32 in Hx; lia). by apply Z.shiftr_div_pow2.
Qed.

Lemma ROTR_rotr x n : is_u32 x -> 0 < n < 32 -> ROTR x n = rotr 32 n x.
Proof.
  intros Hx Hn. unfold ROTR. rewrite SHR_div, <- Z.shiftr_div_pow2, u32_pow by (done || lia).
  apply rotr_shifts; [lia|exact Hx].
Qed.

Lemma sigmas x : is_u32 x -> S0 x = Fips.sigma0 x /\ S1 x = Fips.sigma1 x /\ S2 x = Fips.Sigma0 x /\ S3 x = Fips.Sigma1 x.
Proof.
  intros Hx. unfold S0, S1, S2, S3. rewrite !ROTR_rotr, !SHR_div by (done || lia). done.
Qed.

Lemma F0_Maj x y z : F0 x y z = Fips.Maj x y z.
Proof. apply majority_lxor. Qed.

Lemma F1_Ch x y z : F1 x y z = Fips.Ch x y z.
Proof. apply choose_lxor. Qed.

Lemma add_u32 x y : is_u32 (Fips.add x y).
Proof. apply u32_range. Qed.

Lemma add_wrapped x y : Fips.add (u32 x) y = u32 (x + y).
Proof. unfold Fips.add. by rewrite u32_pow, Zplus_mod_idemp_l. Qed.

Lemma add_sum x y z : Fips.add (Fips.add x y) z = u32 (x + y + z).
Proof. apply add_wrapped. Qed.

Lemma GET_words data i : Forall is_u8 data -> (4 * i + 4 <= length data)%nat ->
  GET_UINT32_BE data (4 * Z.of_nat i) = be_val (take 4 (drop (4 * i) data)) /\ is_u32 (GET_UINT32_BE data (4 * Z.of_nat i)).
Proof.
  intros Hd Hl. assert (E : take 4 (drop (4 * i) data) = sub data (4 * Z.of_nat i) 4).
  { unfold sub. f_equal. f_equal. lia. }
  assert (L : length (take 4 (drop (4 * i) data)) = 4%nat) by (rewrite length_take, length_drop; lia).
  assert (F : Forall is_u8 (take 4 (drop (4 * i) data))) by (by apply Forall_take, Forall_drop).
  assert (B : forall k, 0 <= k < 4 -> byteat data (4 * Z.of_nat i + k) = byteat (take 4 (drop (4 * i) data)) k).
  { intros k Hk. rewrite E. symmetry. apply byteat_sub; lia. }
  pose proof (B 0 ltac:(lia)) as B0. rewrite Z.add_0_r in B0. unfold GET_UINT32_BE. rewrite B0, !B by lia.
  destruct (take 4 (drop (4 * i) data)) as [|b0 [|b1 [|b2 [|b3 [|]]]]]; try done.
  repeat (apply Forall_cons in F as [? F]). unfold is_u8 in *.
  change (byteat _ 0) with b0. change (byteat _ 1) with b1. change (byteat _ 2) with b2. change (byteat _ 3) with b3.
  assert (V : Z.lor (Z.lor (Z.lor (b0 ≪ 24) (b1 ≪ 16)) (b2 ≪ 8)) b3 = b3 + (b2 + (b1 + b0 * 256) * 256) * 256).
  { rewrite !Z.shiftl_mul_pow2 by lia. rewrite (Z.lor_comm (b0 * _)), (lor_disjoint (b1 * 2 ^ 16) b0 24) by lia.
    replace (b1 * 2 ^ 16 + b0 * 2 ^ 24) with ((b1 + b0 * 256) * 2 ^ 16) by lia.
    rewrite (Z.lor_comm (_ * 2 ^ 16)), (lor_disjoint (b2 * 2 ^ 8) _ 16) by lia.
    replace (b2 * 2 ^ 8 + (b1 + b0 * 256) * 2 ^ 16) with ((b2 + (b1 + b0 * 256) * 256) * 2 ^ 8) by lia.
    rewrite (Z.lor_comm _ b3), (lor_disjoint b3 _ 8) by lia. lia. }
  rewrite V. unfold be_val, is_u32. cbn [rev app le_val]. lia.
Qed.

(** One step of the code, with the variables in their own order. *)
Definition round_c (K w : Z) (v : list Z) : list Z :=
  match v with
  | [a; b; c; d; e; f; g; h] =>
    let temp1 := u32 (h + S3 e + F1 e f g + K + w) in
    let temp2 := u32 (S2 a + F0 a b c) in
    [u32 (temp1 + temp2); a; b; c; u32 (d + temp1); e; f; g]
  | _ => v
  end.

(** The variables as step [t] names them. *)
Definition view (t : nat) (v : list Z) : list Z := map (fun j => v !!! var t j) (seq 0 8).

Lemma var_mod t j : var t j = var (t mod 8) j.
Proof. unfold var. by rewrite Nat.Div0.mod_mod. Qed.

Lemma view_step t v x K : length v = 8%nat ->
  let v' := P v (var t 0) (var t 1) (var t 2) (var t 3) (var t 4) (var t 5) (var t 6) (var t 7) x K in
  view (S t) v' = round_c K x (view t v) /\ length v' = 8%nat.
Proof.
  intros L v'. split; [|unfold v', P; by rewrite !length_insert].
  assert (E : forall j, var (S t) j = var (S (t mod 8)) j).
  { intros j. unfold var. by rewrite <- (Nat.add_1_r t), <- (Nat.add_1_r (t mod 8)), Nat.Div0.add_mod_idemp_l. }
  unfold v', view. cbn [seq map]. rewrite !E, !(var_mod t).
  pose proof (Nat.mod_upper_bound t 8 ltac:(lia)) as Hr. destruct v as [|a [|b [|c [|d [|e [|f [|g [|h [|]]]]]]]]]; try done.
  clear L v' E. generalize dependent (t mod 8)%nat. intros r Hr.
  do 8 (destruct r as [|r]; [lazy -[u32 S3 F1 S2 F0 Z.add]; done|]). lia.
Qed.

Lemma round_c_round K w v : length v = 8%nat -> Forall is_u32 v ->
  round_c K w v = Fips.round K w v /\ Forall is_u32 (Fips.round K w v).
Proof.
  intros L H. destruct v as [|a [|b [|c [|d [|e [|f [|g [|h [|]]]]]]]]]; try done.
  repeat (apply Forall_cons in H as [? H]). cbn [round_c Fips.round].
  destruct (sigmas a) as (_ & _ & -> & _); [done|]. destruct (sigmas e) as (_ & _ & _ & ->); [done|].
  rewrite F0_Maj, F1_Ch. split; [|repeat (apply Forall_cons_2; [first [assumption | apply add_u32]|]); apply Forall_nil_2].
  rewrite (add_sum h), !add_wrapped. unfold Fips.add. by rewrite !u32_pow, !Zplus_mod_idemp_l.
Qed.

Lemma be_val_u32 l : Forall is_u8 l -> length l = 4%nat -> is_u32 (be_val l).
Proof. intros H L. pose proof (be_val_range l H) as B. rewrite L in B. unfold is_u32. lia. Qed.

Lemma words_ok blk : Forall is_u8 blk -> length blk = 64%nat -> Forall is_u32 (Fips.words blk).
Proof.
  intros H L. apply Forall_map, Forall_forall. intros i Hi%elem_of_seq.
  apply be_val_u32; [by apply Forall_take, Forall_drop|]. rewrite length_take, length_drop. lia.
Qed.

Lemma length_schedule blk n : length (Fips.schedule blk n) = (16 + n)%nat.
Proof. induction n as [|n IH]; [done|]. cbn [Fips.schedule]. rewrite length_app, IH. cbn [length]. lia. Qed.

Lemma schedule_ok blk n : Forall is_u8 blk -> length blk = 64%nat -> Forall is_u32 (Fips.schedule blk n).
Proof.
  intros H L. induction n as [|n IH]; [by apply words_ok|]. apply Forall_app. split; [done|].
  apply Forall_singleton, add_u32.
Qed.

Lemma schedule_prefix blk n m : (n <= m)%nat -> Fips.schedule blk n `prefix_of` Fips.schedule blk m.
Proof. induction 1 as [|m _ IH]; [done|]. cbn [Fips.schedule]. by apply prefix_app_r. Qed.

Lemma schedule_word blk n t : (t < 16 + n)%nat -> (n <= 48)%nat ->
  Fips.schedule blk n !!! t = Fips.schedule blk 48 !!! t.
Proof.
  intros Ht Hn. destruct (schedule_prefix blk n 48 Hn) as [k ->]. symmetry. apply lookup_total_app_l.
  by rewrite length_schedule.
Qed.

Lemma lookup_total_u32 l i : Forall is_u32 l -> (i < length l)%nat -> is_u32 (l !!! i).
Proof. intros H Hi. rewrite Forall_lookup in H. apply (H i). by apply list_lookup_lookup_total_lt. Qed.

(** A word of the schedule computed by the code. *)
Lemma R_schedule blk n : Forall is_u8 blk -> length blk = 64%nat ->
  Fips.schedule blk n ++ [R (Fips.schedule blk n) (16 + n)] = Fips.schedule blk (S n).
Proof.
  intros H L. cbn [Fips.schedule]. f_equal. f_equal. unfold R.
  replace (16 + n - 2)%nat with (n + 14)%nat by lia. replace (16 + n - 7)%nat with (n + 9)%nat by lia.
  replace (16 + n - 15)%nat with (n + 1)%nat by lia. replace (16 + n - 16)%nat with n by lia.
  pose proof (schedule_ok blk n H L) as Hs. pose proof (length_schedule blk n) as Ls.
  destruct (sigmas (Fips.schedule blk n !!! (n + 14)%nat)) as (_ & -> & _ & _); [apply lookup_total_u32; [done|lia]|].
  destruct (sigmas (Fips.schedule blk n !!! (n + 1)%nat)) as (-> & _ & _ & _); [apply lookup_total_u32; [done|lia]|].
  by rewrite (add_sum (Fips.sigma1 _)), add_wrapped.
Qed.

(** The state of the code before step [t], the words so far and the variables,
    is that of the standard. *)
Lemma steps_rounds blk st t : Forall is_u8 blk -> length blk = 64%nat -> Forall is_u32 st -> length st = 8%nat ->
  (t <= 64)%nat ->
  let r := fold_left step (seq 0 t) (Fips.words blk, st) in
  r.1 = Fips.schedule blk (t - 16) /\ length r.2 = 8%nat /\ Forall is_u32 (view t r.2) /\
  view t r.2 = fold_left (fun v t => Fips.round (constants !!! t) (Fips.schedule blk 48 !!! t) v) (seq 0 t) st.
Proof.
  intros Hb Lb Hs Ls. induction t as [|t IH]; intros Ht r; subst r.
  - cbn [seq fold_left fst snd]. assert (E : view 0 st = st) by (destruct st as [|? [|? [|? [|? [|? [|? [|? [|? [|]]]]]]]]]; done).
    rewrite E. done.
  - specialize (IH ltac:(lia)) as (IW & IL & IF & IV). rewrite seq_S, !fold_left_app. cbn [fold_left Nat.add].
    destruct (fold_left step (seq 0 t) _) as [W v]. cbn [fst snd] in *. subst W.
    assert (EW : (if (t <? 16)%nat then Fips.schedule blk (t - 16) else
        Fips.schedule blk (t - 16) ++ [R (Fips.schedule blk (t - 16)) t]) = Fips.schedule blk (S t - 16)).
    { destruct (Nat.ltb_spec t 16) as [T|T]; [by replace (S t - 16)%nat with (t - 16)%nat by lia|].
      replace t with (16 + (t - 16))%nat at 3 by lia. rewrite R_schedule by done. f_equal. lia. }
    unfold step. rewrite EW. cbn [fst snd].
    destruct (view_step t v (Fips.schedule blk (S t - 16) !!! t) (constants !!! t) IL) as [V L'].
    destruct (round_c_round (constants !!! t) (Fips.schedule blk (S t - 16) !!! t) (view t v)) as [E F]; [done|done|].
    rewrite schedule_word in * by lia. rewrite V, E, <- IV. done.
Qed.

(** Working in a block is the compression function of the standard. *)
Lemma process_compress blk st : Forall is_u8 blk -> length blk = 64%nat -> Forall is_u32 st -> length st = 8%nat ->
  sha256_process_one st blk = Fips.compress st blk /\ Forall is_u32 (Fips.compress st blk) /\
  length (Fips.compress st blk) = 8%nat.
Proof.
  intros Hb Lb Hs Ls. pose proof (steps_rounds blk st 64 Hb Lb Hs Ls ltac:(lia)) as (_ & L & F & V).
  assert (W : map (fun i => GET_UINT32_BE blk (4 * Z.of_nat i)) (seq 0 16) = Fips.words blk).
  { apply map_ext_in. intros i Hi%in_seq. apply GET_words; [done|lia]. }
  unfold sha256_process_one, Fips.compress. rewrite constants_fips, W, <- V. destruct (fold_left step _ _) as [W' v]. cbn [fst snd] in *.
  assert (E : view 64 v = v) by (destruct v as [|? [|? [|? [|? [|? [|? [|? [|? [|]]]]]]]]]; done).
  rewrite E in *. split_and!; [done| |rewrite length_zip_with; lia].
  clear. revert v. induction st as [|s st IH]; intros [|x v]; cbn [zip_with]; constructor; [apply add_u32|apply IH].
Qed.

(** The block function looks at one block. *)
Lemma process_one_take st data : (64 <= length data)%nat -> sha256_process_one st data = sha256_process_one st (take 64 data).
Proof.
  intros L. unfold sha256_process_one. rewrite (map_ext_in _ (fun i => GET_UINT32_BE (take 64 data) (4 * Z.of_nat i))); [done|].
  intros i Hi%in_seq. unfold GET_UINT32_BE, byteat. rewrite !nth_firstn, !(proj2 (Nat.ltb_lt _ 64)) by lia. done.
Qed.

Lemma process_run n st data : (n * 64 <= length data)%nat ->
  sha256_process n st data = run sha256_process_one 64 n st data.
Proof.
  revert st data.
  induction n as [|n IH]; intros st data L; [done|]. cbn [sha256_process run].
  rewrite IH by (rewrite length_drop; lia). by rewrite <- process_one_take by lia.
Qed.

(** ** Pieces *)
Lemma update_feed ctx input p : input <> [] -> Z.land (total0 ctx) 63 = Z.of_nat p -> (p < 64)%nat ->
  sha256_update ctx input =
  let r := feed sha256_process_one 64 (state ctx) (buffer ctx) p input in
  let total := u32 (total0 ctx + Z.of_nat (length input)) in
  mk_ctx total (if total <? Z.of_nat (length input) then total1 ctx +32 1 else total1 ctx) r.1 r.2.
Proof.
  intros Hi Hp Lp. unfold sha256_update, feed. rewrite Hp.
  assert (N : length input <> 0%nat) by (by destruct input). destruct (Z.eqb_spec (Z.of_nat (length input)) 0); [lia|].
  assert (G : negb (Z.of_nat p =? 0) && (64 - Z.of_nat p <=? Z.of_nat (length input)) =
    negb (p =? 0)%nat && (64 - p <=? length input)%nat).
  { f_equal; [f_equal; destruct (Nat.eqb_spec p 0); lia|]. destruct (Nat.leb_spec (64 - p) (length input)); lia. }
  rewrite G. replace (Z.to_nat (64 - Z.of_nat p)) with (64 - p)%nat by lia.
  assert (T : forall st buf data q,
    let n := Z.to_nat (Z.of_nat (length data) / 64) in
    (sha256_process n st data,
     if negb (Z.of_nat (length data) mod 64 =? 0) then
       write_at buf (Z.of_nat q) (drop (Z.to_nat (Z.of_nat (length data) / 64 * 64)) data) else buf) =
    let rest := drop (length data / 64 * 64) data in
    (run sha256_process_one 64 (length data / 64) st data,
     if (length rest =? 0)%nat then buf else write_at buf (Z.of_nat q) rest)).
  { intros st buf data q. pose proof (Nat.div_mod (length data) 64 ltac:(lia)) as D. cbv zeta.
    rewrite <- (Nat2Z.inj_div _ 64 : _ = _ / 64), <- (Nat2Z.inj_mod _ 64 : _ = _ mod 64), Nat2Z.id.
    replace (Z.to_nat (Z.of_nat (length data / 64) * 64)) with (length data / 64 * 64)%nat by lia.
    rewrite process_run, length_drop by lia. f_equal.
    destruct (Nat.eqb_spec (length data - length data / 64 * 64) 0); destruct (Z.eqb_spec (Z.of_nat (length data mod 64)) 0); try done; lia. }
  cbn [sha256_process]. destruct (negb (p =? 0)%nat && (64 - p <=? length input)%nat); cbn [fst snd].
  - f_equal; [exact (f_equal fst (T _ [] (drop (64 - p) input) O))|].
    exact (f_equal snd (T [] _ (drop (64 - p) input) O)).
  - f_equal; [exact (f_equal fst (T _ [] input p))|]. exact (f_equal snd (T [] _ input p)).
Qed.

(** The context of a message. *)
Definition ctx_of (msg : list Z) (ctx : sha256_context) : Prop :=
  let len := Z.of_nat (length msg) in
  Forall is_u8 msg /\ total0 ctx = u32 len /\ total1 ctx = u32 (len / 2 ^ 32) /\
  tracks sha256_process_one 64 Fips.initial msg (state ctx) (buffer ctx).

Lemma u32_land len : Z.land (u32 (Z.of_nat len)) 63 = Z.of_nat (len mod 64).
Proof.
  change 63 with (Z.ones 6). rewrite Z.land_ones by lia. rewrite Nat2Z.inj_mod. unfold u32. change (2 ^ 6) with 64.
  apply Z.mod_mod_divide. by exists 67108864.
Qed.

Lemma starts_ctx ctx : length (buffer ctx) = 64%nat -> ctx_of [] (sha256_starts ctx).
Proof. intros H. split_and!; try done. apply tracks_start; [lia|done]. Qed.

Lemma carry_spec a b : 0 <= a -> 0 <= b < 2 ^ 32 ->
  (if u32 (u32 a + b) <? b then u32 (a / 2 ^ 32) +32 1 else u32 (a / 2 ^ 32)) = u32 ((a + b) / 2 ^ 32).
Proof.
  intros Ha Hb. change 4294967296 with (2 ^ 32) in *. rewrite !u32_pow. assert (P : 0 < 2 ^ 32) by done.
  generalize dependent (2 ^ 32). intros N Hb P.
  pose proof (Z.div_mod a N ltac:(lia)) as D. pose proof (Z.mod_pos_bound a N ltac:(lia)) as M.
  destruct (Z_lt_le_dec (a mod N + b) N).
  - rewrite (Z.mod_small (a mod N + b)) by lia. rewrite (proj2 (Z.ltb_ge _ _)) by lia. f_equal.
    apply (Z.div_unique _ _ _ (a mod N + b)); lia.
  - assert (E : (a mod N + b) mod N = a mod N + b - N) by (symmetry; apply (Z.mod_unique _ _ 1); lia).
    rewrite E, (proj2 (Z.ltb_lt _ _)) by lia. rewrite Zplus_mod_idemp_l. f_equal.
    apply (Z.div_unique _ _ _ (a mod N + b - N)); lia.
Qed.

Lemma update_ctx msg ctx input : ctx_of msg ctx -> Forall is_u8 input -> Z.of_nat (length input) < 2 ^ 32 ->
  ctx_of (msg ++ input) (sha256_update ctx input).
Proof.
  intros (Hm & H0 & H1 & T) Hi Li. destruct (decide (input = [])) as [->|N]; [rewrite app_nil_r; by split_and!|].
  rewrite (update_feed _ _ (length msg mod 64)); [|done|rewrite H0; apply u32_land|apply Nat.mod_upper_bound; lia].
  apply feed_tracks with (data := input) in T; [|lia]. cbv zeta. split_and!; cbn [total0 total1 state buffer].
  - by apply Forall_app.
  - rewrite H0, length_app, Nat2Z.inj_add. apply Zplus_mod_idemp_l.
  - rewrite H0, H1, length_app, Nat2Z.inj_add. apply carry_spec; lia.
  - exact T.
Qed.

(** ** The end *)
Lemma PUT_be n : PUT_UINT32_BE n = be_bytes 4 n.
Proof.
  unfold PUT_UINT32_BE, be_bytes. cbn [le_bytes rev app]. rewrite !Z.shiftr_div_pow2, !Z.div_div by lia. done.
Qed.

Lemma be_bytes_u32 x : be_bytes 4 (u32 x) = be_bytes 4 x.
Proof.
  unfold be_bytes. f_equal. change (u32 x) with (x mod 256 ^ Z.of_nat 4). rewrite <- le_val_bytes.
  rewrite <- (length_le_bytes 4 x) at 1. apply le_bytes_val, le_bytes_u8.
Qed.

Lemma length_words len : 0 <= len < 2 ^ 61 ->
  PUT_UINT32_BE (Z.lor (Z.shiftr (u32 len) 29) (u32 (Z.shiftl (u32 (len / 2 ^ 32)) 3))) ++
  PUT_UINT32_BE (u32 (Z.shiftl (u32 len) 3)) = be_bytes 8 (8 * len).
Proof.
  intros H. rewrite !PUT_be, !be_bytes_u32. change 8%nat with (4 + 4)%nat. rewrite be_bytes_add.
  rewrite Z.shiftr_div_pow2, !Z.shiftl_mul_pow2 by lia. change (256 ^ Z.of_nat 4) with (2 ^ 32).
  assert (D : 0 <= len / 2 ^ 32 < 2 ^ 29) by (split; [apply Z.div_pos; lia|apply Z.div_lt_upper_bound; lia]).
  rewrite (u32_small (len / 2 ^ 32)), (u32_small (_ * 2 ^ 3)) by lia. pose proof (u32_range len) as U.
  assert (E : 0 <= u32 len / 2 ^ 29 < 2 ^ 3) by (split; [apply Z.div_pos; lia|apply Z.div_lt_upper_bound; lia]).
  rewrite lor_disjoint by lia. f_equal.
  { f_equal. apply (Z.div_unique _ _ _ (8 * (u32 len mod 2 ^ 29))).
    - pose proof (Z.mod_pos_bound (u32 len) (2 ^ 29)). lia.
    - pose proof (Z.div_mod (u32 len) (2 ^ 29)). pose proof (Z.div_mod len (2 ^ 32)). rewrite u32_pow in *. lia. }
  rewrite <- be_bytes_u32, <- (be_bytes_u32 (8 * len)). f_equal. unfold u32.
  rewrite Zmult_mod_idemp_l. f_equal. lia.
Qed.

Lemma length_pad msg : (length (Fips.pad msg) mod 64 = 0)%nat.
Proof.
  unfold Fips.pad. rewrite length_app. cbn [length]. rewrite length_app, length_replicate, length_be_bytes.
  apply Nat2Z.inj. rewrite Nat2Z.inj_mod. pose proof (Z.div_mod (55 - Z.of_nat (length msg)) 64 ltac:(lia)).
  pose proof (Z.mod_pos_bound (55 - Z.of_nat (length msg)) 64 ltac:(lia)).
  replace (Z.of_nat (length msg + S _)) with ((1 - (55 - Z.of_nat (length msg)) / 64) * Z.of_nat 64) by lia. by apply Z.mod_mul.
Qed.

Lemma pad_u8 msg : Forall is_u8 msg -> Forall is_u8 (Fips.pad msg).
Proof.
  intros H. unfold Fips.pad. apply Forall_app. split; [done|]. apply Forall_cons. split; [done|].
  apply Forall_app. split; [by apply Forall_replicate|apply be_bytes_u8].
Qed.

Lemma take_padding n : (n < 64)%nat -> take (S n) sha256_padding = 0x80 :: replicate n 0.
Proof. intros H. unfold sha256_padding. cbn [take]. rewrite take_replicate. do 2 f_equal. lia. Qed.

Lemma pad_count len : (55 - len) mod 64 = if len mod 64 <? 56 then 55 - len mod 64 else 119 - len mod 64.
Proof.
  pose proof (Z.div_mod len 64 ltac:(lia)). pose proof (Z.mod_pos_bound len 64 ltac:(lia)). symmetry.
  destruct (Z.ltb_spec (len mod 64) 56).
  - apply (Z.mod_unique _ _ (- (len / 64))); lia.
  - apply (Z.mod_unique _ _ (- (len / 64) - 1)); lia.
Qed.

Lemma hashed_standard msg : Forall is_u8 msg ->
  hashed sha256_process_one 64 Fips.initial (Fips.pad msg) = hashed Fips.compress 64 Fips.initial (Fips.pad msg) /\
  length (hashed sha256_process_one 64 Fips.initial (Fips.pad msg)) = 8%nat.
Proof.
  intros Hm. pose proof (length_pad msg) as Lp. pose proof (Nat.div_mod (length (Fips.pad msg)) 64 ltac:(lia)) as D.
  destruct (run_agree sha256_process_one Fips.compress 64 (fun st => Forall is_u32 st /\ length st = 8%nat)
    (length (Fips.pad msg) / 64)) with (st := Fips.initial) (data := Fips.pad msg) as [E [_ G]]; try done.
  - intros st blk [G1 G2] Lb Hb. destruct (process_compress blk st Hb Lb G1 G2) as (-> & ? & ?). done.
  - split; [|done]. repeat (apply Forall_cons_2; [done|]). done.
  - lia.
  - by apply pad_u8.
Qed.

(** Ending gives the digest of the standard. *)
Lemma finish_sha256 msg ctx : ctx_of msg ctx -> Z.of_nat (length msg) < 2 ^ 61 ->
  (sha256_finish ctx).1 = Fips.sha256 msg /\ length (buffer (sha256_finish ctx).2) = 64%nat.
Proof.
  intros C L. pose proof C as (Hm & H0 & H1 & _). unfold sha256_finish. rewrite H0, H1, length_words, u32_land by lia.
  set (len := Z.of_nat (length msg)) in *.
  assert (Hp : Z.to_nat (if Z.of_nat (length msg mod 64) <? 56 then 56 - Z.of_nat (length msg mod 64)
    else 120 - Z.of_nat (length msg mod 64)) = S (Z.to_nat ((55 - len) mod 64))).
  { rewrite Nat2Z.inj_mod. fold len. change (Z.of_nat 64) with 64. rewrite pad_count.
    pose proof (Z.mod_pos_bound len 64). destruct (Z.ltb_spec (len mod 64) 56); lia. }
  pose proof (Z.mod_pos_bound (55 - len) 64 ltac:(lia)) as M. rewrite Hp, take_padding by lia.
  apply update_ctx with (input := 0x80 :: replicate (Z.to_nat ((55 - len) mod 64)) 0) in C;
    [|apply Forall_cons; split; [done|by apply Forall_replicate]|cbn [length]; rewrite length_replicate; lia].
  apply update_ctx with (input := be_bytes 8 (8 * len)) in C; [|apply be_bytes_u8|by rewrite length_be_bytes].
  rewrite <- app_assoc in C. change ((?a :: ?b) ++ ?c) with (a :: (b ++ c)) in C.
  fold len in C. change (ctx_of (Fips.pad msg) (sha256_update (sha256_update ctx (0x80 :: replicate (Z.to_nat ((55 - len) mod 64)) 0))
    (be_bytes 8 (8 * len)))) in C.
  destruct C as (_ & _ & _ & T). cbn [fst snd]. split; [|by destruct T as (? & ? & ? & ? & _ & _ & _ & _ & _ & ?)].
  apply tracks_hashed in T; [|lia|apply length_pad]. rewrite T.
  destruct (hashed_standard msg Hm) as [E G]. unfold Fips.sha256. rewrite take_ge, E by lia.
  apply flat_map_ext. intros x. apply PUT_be.
Qed.

(** A whole message in pieces, into a context of any contents. *)
Lemma pieces_ctx pieces ctx msg : ctx_of msg ctx ->
  Forall (fun p => Forall is_u8 p /\ Z.of_nat (length p) < 2 ^ 32) pieces ->
  ctx_of (msg ++ concat pieces) (fold_left sha256_update pieces ctx).
Proof.
  intros C H. revert ctx msg C. induction H as [|p ps [Hp Lp] _ IH]; intros ctx msg C; cbn [fold_left concat].
  - by rewrite app_nil_r.
  - rewrite app_assoc. by apply IH, update_ctx.
Qed.

Lemma wd_loop_ctx n ctx msg input chunk_sz : ctx_of msg ctx -> Forall is_u8 input -> (length input < n)%nat ->
  0 < chunk_sz < 2 ^ 31 -> exists ctx', wd_loop n ctx input chunk_sz = Some ctx' /\ ctx_of (msg ++ input) ctx'.
Proof.
  intros C H L Hc. revert ctx msg input C H L. induction n as [|n IH]; intros ctx msg input C H L; [lia|]. cbn [wd_loop].
  destruct (Nat.eqb_spec (length input) 0); [destruct input; [|done]; exists ctx; by rewrite app_nil_r|].
  set (chunk := if chunk_sz <? Z.of_nat (length input) then chunk_sz else Z.of_nat (length input)).
  assert (B : 0 < chunk < 2 ^ 31 /\ chunk <= Z.of_nat (length input)).
  { unfold chunk. destruct (Z.ltb_spec chunk_sz (Z.of_nat (length input))); lia. }
  rewrite (proj2 (Z.leb_gt _ _)) by lia.
  destruct (IH (sha256_update ctx (take (Z.to_nat chunk) input)) (msg ++ take (Z.to_nat chunk) input) (drop (Z.to_nat chunk) input))
    as (ctx' & -> & C').
  - apply update_ctx; [done|by apply Forall_take|rewrite length_take; lia].
  - by apply Forall_drop.
  - rewrite length_drop. lia.
  - exists ctx'. rewrite <- app_assoc, take_drop in C'. done.
Qed.

Lemma digest_ok msg : Forall is_u8 msg -> Forall is_u8 (Fips.sha256 msg) /\ length (Fips.sha256 msg) = 32%nat.
Proof.
  intros H. destruct (hashed_standard msg H) as [E G]. unfold Fips.sha256. rewrite <- E.
  assert (A : forall l, Forall is_u8 (flat_map (be_bytes 4) l) /\ length (flat_map (be_bytes 4) l) = (4 * length l)%nat).
  { induction l as [|x l [IH1 IH2]]; [done|]. cbn [flat_map]. rewrite Forall_app, length_app, length_be_bytes, IH2. cbn [length].
    split; [split; [apply be_bytes_u8|done]|lia]. }
  destruct (A (hashed sha256_process_one 64 Fips.initial (Fips.pad msg))) as [A1 A2]. rewrite A2, G. done.
Qed.

(** A message of two pieces. *)
Lemma two_pieces ctx a b : length (buffer ctx) = 64%nat -> Forall is_u8 a -> Forall is_u8 b ->
  Z.of_nat (length a) < 2 ^ 32 -> Z.of_nat (length b) < 2 ^ 32 ->
  (sha256_finish (sha256_update (sha256_update (sha256_starts ctx) a) b)).1 = Fips.sha256 (a ++ b) /\
  length (buffer (sha256_finish (sha256_update (sha256_update (sha256_starts ctx) a) b)).2) = 64%nat.
Proof.
  intros Hc Ha Hb La Lb. apply finish_sha256; [|rewrite length_app; lia].
  apply update_ctx; [|done|done]. by apply (update_ctx []); [apply starts_ctx|..].
Qed.

(** The key with a byte, padded to a block. *)
Lemma hmac_pad key x n : length key = n ->
  zip_with Z.lxor (replicate n x) key ++ replicate (64 - n) x = map (Z.lxor x) (key ++ replicate (64 - length key) 0).
Proof.
  intros <-. rewrite map_app. f_equal.
  - induction key as [|k key IH]; [done|]. cbn [length replicate zip_with map]. by rewrite IH.
  - induction (64 - length key)%nat as [|n IH]; [done|]. cbn [replicate map]. by rewrite <- IH, Z.lxor_0_r.
Qed.

Lemma hmac_pad_ok key x : Forall is_u8 key -> is_u8 x -> (length key <= 64)%nat ->
  Forall is_u8 (map (Z.lxor x) (key ++ replicate (64 - length key) 0)) /\
  length (map (Z.lxor x) (key ++ replicate (64 - length key) 0)) = 64%nat.
Proof.
  intros Hk Hx L. rewrite length_map, length_app, length_replicate. split; [|lia]. apply Forall_map.
  assert (F : Forall is_u8 (key ++ replicate (64 - length key) 0)) by (apply Forall_app; split; [done|by apply Forall_replicate]).
  eapply Forall_impl; [exact F|]. intros y Hy. unfold is_u8 in *.
  destruct (Z.eq_dec (Z.lxor x y) 0) as [->|N]; [lia|]. assert (0 <= Z.lxor x y) by (apply Z.lxor_nonneg; lia).
  split; [done|]. change 256 with (2 ^ 8). apply Z.log2_lt_pow2; [lia|].
  pose proof (Z.log2_lxor x y ltac:(lia) ltac:(lia)). pose proof (Z.log2_le_mono x 255 ltac:(lia)).
  pose proof (Z.log2_le_mono y 255 ltac:(lia)). change (Z.log2 255) with 7 in *. lia.
Qed.

(** The inner and the outer digest. *)
Lemma hmac_outer c k input : length (buffer c) = 64%nat -> Forall is_u8 k -> Forall is_u8 input -> (length k <= 64)%nat ->
  Z.of_nat (length input) < 2 ^ 32 ->
  let pad x := map (Z.lxor x) (k ++ replicate (64 - length k) 0) in
  (let '(tmpbuf, c) := sha256_finish (sha256_update (sha256_update (sha256_starts c) (pad 54)) input) in
   (sha256_finish (sha256_update (sha256_update (sha256_starts c) (pad 92)) tmpbuf)).1) =
  Fips.sha256 (pad 92 ++ Fips.sha256 (pad 54 ++ input)).
Proof.
  intros Hb Fk Hi Lk Li pad. destruct (hmac_pad_ok k 54 Fk ltac:(done) Lk) as [P1 P2].
  destruct (hmac_pad_ok k 92 Fk ltac:(done) Lk) as [Q1 Q2]. fold (pad 54) in P1, P2. fold (pad 92) in Q1, Q2.
  destruct (two_pieces c (pad 54) input) as [E B]; try done; [lia|]. destruct (sha256_finish _) as [tmpbuf c'].
  cbn [fst snd] in *. subst tmpbuf. destruct (digest_ok (pad 54 ++ input)) as [D1 D2]; [by apply Forall_app|].
  apply two_pieces; try done; lia.
Qed.

(** C10: However a message is cut into pieces, the digest is the SHA-256 of
    FIPS 180-4 of the whole message, as long as its length in bits fits 64 bits;
    what the context held before does not matter. *)
Theorem sha256_matches_fips ctx pieces : length (buffer ctx) = 64%nat ->
  Forall (fun p => Forall is_u8 p /\ Z.of_nat (length p) < 2 ^ 32) pieces ->
  Z.of_nat (length (concat pieces)) < 2 ^ 61 ->
  (sha256_finish (fold_left sha256_update pieces (sha256_starts ctx))).1 = Fips.sha256 (concat pieces).
Proof. intros Hc Hp L. apply finish_sha256; [|done]. apply (pieces_ctx pieces _ []); [by apply starts_ctx|done]. Qed.

(** The checksum of a buffer ends and is its SHA-256, with and without a
    watchdog, whatever the chunks in between. *)
Theorem sha256_csum_wd_standard wd ctx input chunk_sz : length (buffer ctx) = 64%nat -> Forall is_u8 input ->
  Z.of_nat (length input) < 2 ^ 32 -> 0 < chunk_sz < 2 ^ 31 ->
  sha256_csum_wd wd ctx input chunk_sz = Some (Fips.sha256 input).
Proof.
  intros Hc Hi Li Hs. unfold sha256_csum_wd. pose proof (starts_ctx ctx Hc) as C. destruct wd; cbn [mbind option_bind].
  - destruct (wd_loop_ctx (S (length input)) _ [] input chunk_sz C Hi) as (ctx' & -> & C'); [lia|done|]. cbn [mbind option_bind].
    f_equal. apply finish_sha256; [done|lia].
  - f_equal. apply finish_sha256; [by apply (update_ctx [])|lia].
Qed.

(** C22: The keyed digest is the HMAC of RFC 2104, for keys shorter and longer
    than a block. *)
Theorem sha256_hmac_rfc2104 ctx key input : length (buffer ctx) = 64%nat -> Forall is_u8 key -> Forall is_u8 input ->
  Z.of_nat (length key) < 2 ^ 31 -> Z.of_nat (length input) < 2 ^ 32 ->
  sha256_hmac ctx key input = Fips.hmac key input.
Proof.
  intros Hc Hk Hi Lk Li. unfold sha256_hmac, Fips.hmac.
  destruct (Nat.ltb_spec 64 (length key)) as [K|K].
  - destruct (finish_sha256 key (sha256_update (sha256_starts ctx) key)) as [E B]; [apply (update_ctx []); [by apply starts_ctx|done|lia]|lia|].
    destruct (sha256_finish (sha256_update _ key)) as [digest c]. cbn [fst snd] in *. subst digest.
    destruct (digest_ok key Hk) as [D1 D2]. rewrite take_app_le, take_ge by lia.
    rewrite !hmac_pad by done. apply hmac_outer; [done..|lia|done].
  - assert (W : take (length key) (write_at (replicate 64 0) 0 key) = key).
    { pose proof (write_at_app [] (replicate 64 0) key) as W. cbn [app length] in W. change (Z.of_nat 0) with 0 in W.
      rewrite W by (rewrite length_replicate; lia). by rewrite take_app_le, take_ge by lia. }
    rewrite W, !hmac_pad by done. by apply hmac_outer.
Qed.

(** The digest of "abc". *)
Lemma sha256_abc :
  sha256_csum_wd true (mk_ctx 7 7 [] (replicate 64 7)) [97; 98; 99] 65536 =
    Some [0xba; 0x78; 0x16; 0xbf; 0x8f; 0x01; 0xcf; 0xea; 0x41; 0x41; 0x40; 0xde; 0x5d; 0xae; 0x22; 0x23;
          0xb0; 0x03; 0x61; 0xa3; 0x96; 0x17; 0x7a; 0x9c; 0xb4; 0x10; 0xff; 0x61; 0xf2; 0x00; 0x15; 0xad].
Proof. vm_compute. done. Qed.

Definition stale : sha256_context := mk_ctx 7 7 [] (replicate 64 7).

Lemma sha256_matches_fips_witness :
  (sha256_finish (fold_left sha256_update [[97]; [98; 99]] (sha256_starts stale))).1 = Fips.sha256 [97; 98; 99].
Proof.
  apply (sha256_matches_fips stale [[97]; [98; 99]]); [done| |done].
  repeat (apply Forall_cons_2; [split; [repeat (apply Forall_cons_2; [done|]); apply Forall_nil_2|done]|]). apply Forall_nil_2.
Defined.

Lemma sha256_csum_wd_standard_witness : sha256_csum_wd true stale [97; 98; 99] 2 = Some (Fips.sha256 [97; 98; 99]).
Proof.
  apply sha256_csum_wd_standard; [done| |done|done]. repeat (apply Forall_cons_2; [done|]). apply Forall_nil_2.
Defined.

Lemma sha256_hmac_rfc2104_witness : sha256_hmac stale [107; 101; 121] [97] = Fips.hmac [107; 101; 121] [97].
Proof.
  apply sha256_hmac_rfc2104; [done| | |done|done]; repeat (apply Forall_cons_2; [done|]); apply Forall_nil_2.
Defined.

End Sha256.
