(* ===== verification/Defrag.v ===== *)
(** * Reassembly of IP datagrams (net/net.c)

    [__net_defragment] collects fragments in a static buffer.  What is missing
    is kept as a doubly linked list of holes, whose descriptors lie in the holes
    themselves, after RFC 815.  The buffer is a list of bytes, a descriptor is
    addressed by its index in blocks of 8 bytes, fields are little-endian as on
    ARM.  [None] is an access outside the buffer, or a search that does not end. *)

From S2P Require Import Prelude Bytes.
Local Open Scope uboot_scope.
Local Open Scope Z_scope.

Module Defrag.

Definition IP_HDR_SIZE : Z := 20.
Definition IP_OFFS : Z := 0x1fff.
Definition IP_FLAGS_MFRAG : Z := 0x2000.

(** The fields of a packet. *)
Definition ntohs_at (p : list Z) (off : Z) : Z := be_val (sub p off 2).
Definition ip_len (p : list Z) : Z := ntohs_at p 2.
Definition ip_id (p : list Z) : list Z := sub p 4 2.
Definition ip_off (p : list Z) : Z := ntohs_at p 6.

(** ** The buffer *)
Record reasm := mk_reasm { pkt_buff : list Z; first_hole : Z; total_len : Z }.

Definition load16 (b : list Z) (off : Z) : option Z :=
  if (0 <=? off) && (off + 2 <=? Z.of_nat (length b)) then Some (get_le 2 b off) else None.
Definition store16 (b : list Z) (off v : Z) : option (list Z) :=
  if (0 <=? off) && (off + 2 <=? Z.of_nat (length b)) then Some (put_le 2 b off v) else None.
Definition memcpy (b : list Z) (off : Z) (bs : list Z) : option (list Z) :=
  if (0 <=? off) && (off + Z.of_nat (length bs) <=? Z.of_nat (length b)) then Some (write_at b off bs) else None.

(** The descriptor with index [i], [payload[i]]. *)
Definition hole_at (i : Z) : Z := IP_HDR_SIZE + 8 * i.
Definition last_byte (b : list Z) (i : Z) : option Z := load16 b (hole_at i).
Definition next_hole (b : list Z) (i : Z) : option Z := load16 b (hole_at i + 2).
Definition prev_hole (b : list Z) (i : Z) : option Z := load16 b (hole_at i + 4).
Definition set_last_byte (b : list Z) (i v : Z) : option (list Z) := store16 b (hole_at i) v.
Definition set_next_hole (b : list Z) (i v : Z) : option (list Z) := store16 b (hole_at i + 2) v.
Definition set_prev_hole (b : list Z) (i v : Z) : option (list Z) := store16 b (hole_at i + 4) v.

(** [*newh = *h] *)
Definition copy_hole (b : list Z) (newh h : Z) : option (list Z) :=
  if (0 <=? h) && (hole_at h + 8 <=? Z.of_nat (length b)) then memcpy b (hole_at newh) (sub b (hole_at h) 8) else None.

(** ** The operations *)
Definition reset (s : reasm) (p : list Z) : option reasm :=
  b ← set_last_byte (pkt_buff s) 0 0xffff;
  b ← set_next_hole b 0 0;
  b ← set_prev_hole b 0 0;
  b ← memcpy b 0 (sub p 0 IP_HDR_SIZE);
  Some (mk_reasm b 0 0xffff).

(** The first hole that does not end before [start]. *)
Fixpoint find_hole (n : nat) (b : list Z) (h start : Z) : option (option Z) :=
  match n with
  | O => None
  | S n =>
    last ← last_byte b h;
    if last <? start then
      next ← next_hole b h;
      if next =? 0 then Some None else find_hole n b next start
    else Some (Some h)
  end.

(** The hole is filled: whether it was the last one, the buffer and the first hole. *)
Definition remove_hole (b : list Z) (first h : Z) : option (bool * list Z * Z) :=
  prev ← prev_hole b h;
  next ← next_hole b h;
  if (prev =? 0) && (next =? 0) then Some (true, b, first)
  else if prev =? 0 then b ← set_prev_hole b next 0; Some (false, b, next)
  else if next =? 0 then b ← set_next_hole b prev 0; Some (false, b, first)
  else b ← set_prev_hole b next prev; b ← set_next_hole b prev next; Some (false, b, first).

(** The hole loses its start. *)
Definition move_hole (b : list Z) (first h newh : Z) : option (list Z * Z) :=
  b ← copy_hole b newh h;
  next ← next_hole b newh;
  b ← (if negb (next =? 0) then set_prev_hole b next newh else Some b);
  prev ← prev_hole b newh;
  if negb (prev =? 0) then b ← set_next_hole b prev newh; Some (b, first)
  else Some (b, u16 newh).

(** The fragment is in the middle of the hole. *)
Definition split_hole (b : list Z) (h newh start : Z) : option (list Z) :=
  b ← copy_hole b newh h;
  b ← set_last_byte b h start;
  b ← set_next_hole b h newh;
  b ← set_prev_hole b newh h;
  next ← next_hole b newh;
  if negb (next =? 0) then set_prev_hole b next newh else Some b.

(** The four ways a fragment can overlap with the hole [h], which ends at [last]. *)
Definition fix_holes (b : list Z) (first h last offset8 len : Z) : option (bool * list Z * Z) :=
  let start := offset8 * 8 in
  if (offset8 <=? h) && (last <=? start + len) then remove_hole b first h
  else if last <=? start + len then b ← set_last_byte b h start; Some (false, b, first)
  else if offset8 <=? h then '(b, first) ← move_hole b first h (offset8 + len / 8); Some (false, b, first)
  else b ← split_hole b h (offset8 + len / 8) start; Some (false, b, first).

(** The fragment overlaps with the hole [h]; the length of the complete packet,
    which is in the buffer, if there is one. *)
Definition use_fragment (s : reasm) (p : list Z) (h offset8 len : Z) (more : bool) : option (option Z * reasm) :=
  let start := offset8 * 8 in
  let b := pkt_buff s in
  '(b, total) ← (if more then Some (b, total_len s)
                 else b ← set_last_byte b h (start + len); Some (b, u16 (start + len)));
  last ← last_byte b h;
  let len := if last <? start + len then last - start else len in
  '(done, b, first) ← fix_holes b (first_hole s) h last offset8 len;
  b ← memcpy b (hole_at offset8) (sub p IP_HDR_SIZE len);
  if negb done then Some (None, mk_reasm b first total)
  else
    let lenp := total + IP_HDR_SIZE in
    Some (Some lenp, mk_reasm (write_at b 2 (be_bytes 2 lenp)) first total).

Definition __net_defragment (s : reasm) (p : list Z) : option (option Z * reasm) :=
  if ip_len p <=? IP_HDR_SIZE then Some (None, s)
  else
    let offset8 := Z.land (ip_off p) IP_OFFS in
    let more := negb (Z.land (ip_off p) IP_FLAGS_MFRAG =? 0) in
    let start := offset8 * 8 in
    let len := ip_len p - IP_HDR_SIZE in
    if negb (Z.land len 7 =? 0) && more then Some (None, s)
    else if Z.of_nat (length (pkt_buff s)) - IP_HDR_SIZE <? start + len then Some (None, s)
    else
      s ← (if (total_len s =? 0) || negb (bool_decide (ip_id (pkt_buff s) = ip_id p)) then reset s p else Some s);
      found ← find_hole (length (pkt_buff s)) (pkt_buff s) (first_hole s) start;
      match found with
      | None => Some (None, s)
      | Some h =>
        if offset8 + (len + 7) / 8 <=? h then Some (None, s) else use_fragment s p h offset8 len more
      end.

(** Packets that are no fragments are passed on as they are. *)
Definition net_defragment (s : reasm) (p : list Z) : option (option (list Z) * reasm) :=
  if Z.land (ip_off p) (Z.lor IP_OFFS IP_FLAGS_MFRAG) =? 0 then Some (Some p, s)
  else
    '(r, s) ← __net_defragment s p;
    Some (option_map (sub (pkt_buff s) 0) r, s).

(** Packets one after the other, with what each gives. *)
Fixpoint receive (s : reasm) (ps : list (list Z)) : option (list (option (list Z)) * reasm) :=
  match ps with
  | [] => Some ([], s)
  | p :: ps => '(r, s) ← net_defragment s p; '(rs, s) ← receive s ps; Some (r :: rs, s)
  end.

(** ** Fragments of a datagram *)

(** The fragment of [D] with the bytes from [start], [len] of them; [hdr] is the
    header of the datagram. *)
Definition frag (hdr D : list Z) (start len : Z) : list Z :=
  let more := start + len <? Z.of_nat (length D) in
  sub hdr 0 2 ++ be_bytes 2 (len + IP_HDR_SIZE) ++ sub hdr 4 2 ++
  be_bytes 2 ((if more then IP_FLAGS_MFRAG else 0) + start / 8) ++ sub hdr 8 12 ++ sub D start len.

(** ** Descriptors in the buffer *)
Definition fld (b : list Z) (i k : Z) : Z := get_le 2 b (hole_at i + 2 * k).
Definition desc (b : list Z) (i : Z) : Z * Z * Z := (fld b i 0, fld b i 1, fld b i 2).
Definition fits (b : list Z) (i : Z) : Prop := 0 <= i /\ hole_at i + 8 <= Z.of_nat (length b).
Definition upd {A} (f : Z -> A) (i : Z) (d : A) : Z -> A := fun j => if j =? i then d else f j.

(** The descriptors of [b] are given by [f], and it differs from [b0] at most
    in those of [zone]. *)
Record view (b0 b : list Z) (f : Z -> Z * Z * Z) (zone : list Z) : Prop := {
  v_length : length b = length b0;
  v_desc i : fits b0 i -> desc b i = f i;
  v_rest x : 0 <= x -> Forall (fun i => ~ (hole_at i <= x < hole_at i + 8)) zone -> byteat b x = byteat b0 x }.

Lemma get_le2 b off : 0 <= off -> off + 2 <= Z.of_nat (length b) -> get_le 2 b off = byteat b off + 256 * byteat b (off + 1).
Proof.
  intros H L. unfold get_le. pose proof (length_sub b off 2 H ltac:(lia) L) as E.
  pose proof (byteat_sub b off 2 0 H ltac:(lia)) as E0. pose proof (byteat_sub b off 2 1 H ltac:(lia)) as E1.
  rewrite Z.add_0_r in E0. rewrite <- E0, <- E1. change (Z.of_nat 2) with 2. destruct (sub b off 2) as [|x [|y [|]]]; cbn [length] in E; try lia.
  change (byteat [x; y] 0) with x. change (byteat [x; y] 1) with y. cbn [le_val]. lia.
Qed.

Lemma desc_same b b' i : length b' = length b -> fits b i ->
  (forall x, hole_at i <= x < hole_at i + 6 -> byteat b' x = byteat b x) -> desc b' i = desc b i.
Proof.
  intros L [F1 F2] E. unfold desc, fld, hole_at, IP_HDR_SIZE in *. rewrite !get_le2 by (rewrite ?L; lia). rewrite !E by lia. done.
Qed.

Lemma view_start b : view b b (desc b) [].
Proof. done. Qed.

(** A field is written. *)
Lemma store_field b0 b f zone i k v : view b0 b f zone -> fits b0 i -> 0 <= k <= 2 -> is_u16 v ->
  exists b', store16 b (hole_at i + 2 * k) v = Some b' /\
    view b0 b' (upd f i (if k =? 0 then v else (f i).1.1, if k =? 1 then v else (f i).1.2, if k =? 2 then v else (f i).2)) (i :: zone).
Proof.
  intros [VL VD VR] F Hk Hv. pose proof F as [F1 F2]. unfold store16, hole_at, IP_HDR_SIZE in *. rewrite VL.
  rewrite (proj2 (Z.leb_le _ _)), (proj2 (Z.leb_le _ _)) by lia. cbn [andb]. eexists. split; [done|]. unfold put_le.
  set (off := 20 + 8 * i + 2 * k) in *.
  assert (W : forall x, 0 <= x -> byteat (write_at b off (le_bytes 2 v)) x =
    if decide (off <= x < off + 2) then byteat (le_bytes 2 v) (x - off) else byteat b x).
  { intros x Hx. rewrite byteat_write_at by (rewrite ?length_le_bytes; lia). by rewrite length_le_bytes. }
  split.
  - by rewrite length_write_at.
  - intros j Fj. unfold upd. destruct (Z.eqb_spec j i) as [->|N].
    + pose proof (VD i F) as E. rewrite <- E. unfold desc, fld, hole_at, IP_HDR_SIZE. cbn [fst snd].
      assert (G : forall m, 0 <= m <= 2 -> get_le 2 (write_at b off (le_bytes 2 v)) (20 + 8 * i + 2 * m) =
        if m =? k then v else get_le 2 b (20 + 8 * i + 2 * m)).
      { intros m Hm. destruct (Z.eqb_spec m k) as [->|Nm].
        - pose proof (get_put_le 2 b off v) as G. unfold put_le in G. fold off. rewrite G by (rewrite ?VL; lia).
          unfold is_u16 in Hv. apply Z.mod_small. change (256 ^ Z.of_nat 2) with 65536. lia.
        - rewrite !get_le2 by (rewrite ?length_write_at, ?VL; lia). rewrite !W, !decide_False by lia. done. }
      rewrite !G by lia. by rewrite !(Z.eqb_sym k).
    + rewrite <- VD by done. destruct Fj as [J1 J2]. apply desc_same; [by rewrite length_write_at|split; [done|by rewrite VL]|].
      intros x Hx. unfold hole_at, IP_HDR_SIZE in *. rewrite W, decide_False by lia. done.
  - intros x Hx Z0. apply Forall_cons in Z0 as [Z0 Z1]. unfold hole_at, IP_HDR_SIZE in Z0. rewrite W, decide_False by lia. by apply VR.
Qed.

Lemma set_last_view b0 b f zone i v : view b0 b f zone -> fits b0 i -> is_u16 v ->
  exists b', set_last_byte b i v = Some b' /\ view b0 b' (upd f i (v, (f i).1.2, (f i).2)) (i :: zone).
Proof. intros V F Hv. destruct (store_field b0 b f zone i 0 v V F) as (b' & E & V'); [lia|done|]. rewrite Z.add_0_r in E. by exists b'. Qed.

Lemma set_next_view b0 b f zone i v : view b0 b f zone -> fits b0 i -> is_u16 v ->
  exists b', set_next_hole b i v = Some b' /\ view b0 b' (upd f i ((f i).1.1, v, (f i).2)) (i :: zone).
Proof. intros V F Hv. by apply (store_field b0 b f zone i 1 v V F); [lia|]. Qed.

Lemma set_prev_view b0 b f zone i v : view b0 b f zone -> fits b0 i -> is_u16 v ->
  exists b', set_prev_hole b i v = Some b' /\ view b0 b' (upd f i ((f i).1.1, (f i).1.2, v)) (i :: zone).
Proof. intros V F Hv. by apply (store_field b0 b f zone i 2 v V F); [lia|]. Qed.

Lemma load_field b0 b f zone i : view b0 b f zone -> fits b0 i ->
  last_byte b i = Some (f i).1.1 /\ next_hole b i = Some (f i).1.2 /\ prev_hole b i = Some (f i).2.
Proof.
  intros [VL VD _] F. rewrite <- (VD i F). destruct F as [F1 F2]. unfold last_byte, next_hole, prev_hole, load16, desc, fld.
  rewrite VL. cbn [fst snd]. unfold hole_at, IP_HDR_SIZE in *. rewrite !(proj2 (Z.leb_le _ _)) by lia. cbn [andb].
  rewrite !Z.mul_0_r, !Z.add_0_r. done.
Qed.

Lemma copy_view b0 b f zone n h : view b0 b f zone -> fits b0 n -> fits b0 h ->
  exists b', copy_hole b n h = Some b' /\ view b0 b' (upd f n (f h)) (n :: zone).
Proof.
  intros [VL VD VR] Fn Fh. pose proof Fn as [N1 N2]. pose proof Fh as [H1 H2]. unfold copy_hole, memcpy. rewrite VL.
  rewrite (proj2 (Z.leb_le 0 h)), (proj2 (Z.leb_le _ _) H2) by done. cbn [andb].
  pose proof (length_sub b (hole_at h) 8) as L8. unfold hole_at, IP_HDR_SIZE in *. specialize (L8 ltac:(lia) ltac:(lia) ltac:(lia)).
  rewrite L8, !(proj2 (Z.leb_le _ _)) by lia. cbn [andb]. eexists. split; [done|].
  assert (W : forall x, 0 <= x -> byteat (write_at b (20 + 8 * n) (sub b (20 + 8 * h) 8)) x =
    if decide (20 + 8 * n <= x < 20 + 8 * n + 8) then byteat b (20 + 8 * h + (x - (20 + 8 * n))) else byteat b x).
  { intros x Hx. rewrite byteat_write_at, L8 by lia. case_decide; [|done]. by rewrite byteat_sub by lia. }
  split.
  - by rewrite length_write_at.
  - intros j Fj. pose proof Fj as [J1 J2]. unfold hole_at, IP_HDR_SIZE in *. unfold upd. destruct (Z.eqb_spec j n) as [->|N].
    + rewrite <- (VD h) by done. unfold desc, fld, hole_at, IP_HDR_SIZE. rewrite !get_le2 by (rewrite ?length_write_at, ?VL; lia).
      rewrite !W, !decide_True by lia. 
      assert (A : forall x y, x - (20 + 8 * n) = y - (20 + 8 * h) -> byteat b (20 + 8 * h + (x - (20 + 8 * n))) = byteat b y)
        by (intros; f_equal; lia).
      rewrite (A _ (20 + 8 * h + 2 * 0)), (A _ (20 + 8 * h + 2 * 0 + 1)), (A _ (20 + 8 * h + 2 * 1)), (A _ (20 + 8 * h + 2 * 1 + 1)),
        (A _ (20 + 8 * h + 2 * 2)), (A _ (20 + 8 * h + 2 * 2 + 1)) by lia. done.
    + rewrite <- VD by done. apply desc_same; [by rewrite length_write_at|split; [done|rewrite VL; unfold hole_at, IP_HDR_SIZE; lia]|].
      intros x Hx. unfold hole_at, IP_HDR_SIZE in *. rewrite W, decide_False by lia. done.
  - intros x Hx Z0. apply Forall_cons in Z0 as [Z0 Z1]. unfold hole_at, IP_HDR_SIZE in Z0. rewrite W, decide_False by lia. by apply VR.
Qed.

(** ** The list of holes *)
Definition head_of (hs : list (Z * Z)) (nx : Z) : Z := match hs with [] => nx | (i, _) :: _ => i end.
Fixpoint last_of (p : Z) (hs : list (Z * Z)) : Z := match hs with [] => p | (i, _) :: hs => last_of i hs end.

(** The descriptors link the holes [hs], each with its index and its end, after
    [p] and before [nx]. *)
Fixpoint seg (f : Z -> Z * Z * Z) (p : Z) (hs : list (Z * Z)) (nx : Z) : Prop :=
  match hs with
  | [] => True
  | (i, l) :: hs => f i = (l, head_of hs nx, p) /\ seg f i hs nx
  end.

Lemma seg_app f p a c nx : seg f p (a ++ c) nx <-> seg f p a (head_of c nx) /\ seg f (last_of p a) c nx.
Proof.
  revert p. induction a as [|[i l] a IH]; intros p; cbn [app seg last_of]; [tauto|]. rewrite IH.
  assert (E : head_of (a ++ c) nx = head_of a (head_of c nx)) by (destruct a as [|[? ?] ?]; done). rewrite E. tauto.
Qed.

Lemma seg_frame f g p hs nx : Forall (fun h => g h.1 = f h.1) hs -> seg f p hs nx -> seg g p hs nx.
Proof.
  intros H. revert p. induction H as [|[i l] hs E H IH]; intros p; cbn [seg fst] in *; [done|].
  intros [E' S]. rewrite E. split; [done|by apply IH].
Qed.

Lemma last_of_app p a c : last_of p (a ++ c) = last_of (last_of p a) c.
Proof. revert p. induction a as [|[i l] a IH]; intros p; [done|]. apply IH. Qed.

Lemma head_of_app a c nx : head_of (a ++ c) nx = head_of a (head_of c nx).
Proof. by destruct a as [|[? ?] ?]. Qed.

(** In ascending order, apart, each with room for its descriptor. *)
Fixpoint ascending (lo : Z) (hs : list (Z * Z)) : Prop :=
  match hs with [] => True | (i, l) :: hs => lo < 8 * i /\ 8 * i + 8 <= l /\ ascending l hs end.

Definition in_hole (hs : list (Z * Z)) (x : Z) : Prop := Exists (fun h => 8 * h.1 <= x < h.2) hs.

Lemma ascending_Forall lo hs : ascending lo hs -> Forall (fun h => lo < 8 * h.1 /\ 8 * h.1 + 8 <= h.2) hs.
Proof.
  revert lo. induction hs as [|[i l] hs IH]; intros lo; [done|]. intros (H1 & H2 & H3). constructor; [done|].
  eapply Forall_impl; [by apply IH|]. cbn [fst snd]. intros h ?. lia.
Qed.

Lemma ascending_split lo pre i l post : ascending lo (pre ++ (i, l) :: post) <->
  ascending lo pre /\ Forall (fun h => h.2 < 8 * i) pre /\ lo < 8 * i /\ 8 * i + 8 <= l /\ ascending l post.
Proof.
  revert lo. induction pre as [|[j m] pre IH]; intros lo; cbn [app ascending].
  - split; [intros (? & ? & ?); by split_and!|intros (_ & _ & ? & ? & ?); by split_and!].
  - rewrite IH, Forall_cons. cbn [snd]. split; [intros (? & ? & ? & ? & ? & ? & ?); split_and!; try done; lia|].
    intros ((? & ? & ?) & (? & ?) & ? & ? & ?). by split_and!.
Qed.

Lemma ascending_weaken lo lo' hs : ascending lo hs -> lo' <= lo -> ascending lo' hs.
Proof. destruct hs as [|[i l] hs]; [done|]. intros (? & ? & ?) ?. split_and!; try done. lia. Qed.

Lemma last_of_in p hs : last_of p hs = p \/ last_of p hs ∈ hs.*1.
Proof.
  revert p. induction hs as [|[i l] hs IH]; intros p; [by left|]. right. cbn [last_of fmap list_fmap fst].
  destruct (IH i) as [->|H]; [left|by right].
Qed.

Lemma head_of_in hs nx : head_of hs nx = nx \/ head_of hs nx ∈ hs.*1.
Proof. destruct hs as [|[i l] hs]; [by left|]. right. left. Qed.

(** Another hole follows, or comes before. *)
Lemma relink_next f g p hs nx nx' lo : seg f p hs nx -> ascending lo hs ->
  Forall (fun h => g h.1 = if h.1 =? last_of p hs then ((f h.1).1.1, nx', (f h.1).2) else f h.1) hs -> seg g p hs nx'.
Proof.
  revert p lo. induction hs as [|[i l] hs IH]; intros p lo S A G; [done|]. cbn [seg] in *. destruct S as [E S], A as (A1 & A2 & A3).
  apply Forall_cons in G as [G1 G2]. cbn [fst last_of] in *. apply ascending_Forall in A3 as F.
  assert (N : hs <> [] -> last_of i hs <> i).
  { intros Hn. destruct (last_of_in i hs) as [E'|Hin]; [|intros E'; rewrite E' in Hin].
    - destruct hs as [|[j m] hs]; [done|]. cbn [last_of] in E'. destruct (last_of_in j hs) as [E2|H2].
      + apply Forall_cons in F as [F _]. cbn [fst] in F. lia.
      + rewrite E' in H2. apply list_elem_of_fmap in H2 as (h & E2 & Hh). apply Forall_cons in F as [_ F].
        rewrite Forall_forall in F. specialize (F h Hh). lia.
    - apply list_elem_of_fmap in Hin as (h & E2 & Hh). rewrite Forall_forall in F. specialize (F h Hh). lia. }
  split.
  - rewrite G1, E. destruct hs as [|[j m] hs]; cbn [last_of head_of fst snd]; [by rewrite Z.eqb_refl|].
    rewrite (proj2 (Z.eqb_neq _ _)); [done|]. intros E'. by apply N.
  - by apply (IH i l).
Qed.

Lemma relink_prev f g p p' hs nx lo : seg f p hs nx -> ascending lo hs ->
  Forall (fun h => g h.1 = if h.1 =? head_of hs nx then ((f h.1).1.1, (f h.1).1.2, p') else f h.1) hs -> seg g p' hs nx.
Proof.
  destruct hs as [|[i l] hs]; [done|]. intros [E S] (A1 & A2 & A3) G. apply Forall_cons in G as [G1 G2]. cbn [fst head_of seg] in *.
  split; [by rewrite G1, E, Z.eqb_refl|]. apply (seg_frame f); [|done]. apply ascending_Forall in A3.
  rewrite Forall_forall in *. intros h Hh. rewrite (G2 h Hh), (proj2 (Z.eqb_neq _ _)); [done|]. specialize (A3 h Hh). lia.
Qed.

(** ** Changing the list *)

Ltac upd_cases :=
  unfold upd;
  repeat (match goal with |- context [?x =? ?y] => destruct (Z.eqb_spec x y) end; cbn [fst snd]; try (exfalso; lia));
  try done; try congruence.

(** The buffer now holds the holes [hs'], and only their descriptors changed. *)
Definition relinked (b b' : list Z) (hs' : list (Z * Z)) : Prop :=
  exists g zone, view b b' g zone /\ Forall (fun z => z ∈ hs'.*1) zone /\ seg g 0 hs' 0.

Section Change.
(** [l] is the end of the hole in the buffer, [l2] one it can be given for the order. *)
Context (b : list Z) (pre post : list (Z * Z)) (i l l2 : Z).
Hypothesis HS : seg (desc b) 0 (pre ++ (i, l) :: post) 0.
Hypothesis HA : ascending 0 (pre ++ (i, l2) :: post).
Hypothesis HF : Forall (fun h => fits b h.1) (pre ++ (i, l) :: post).
Hypothesis HB : Z.of_nat (length b) <= 65536.

Local Abbreviation j := (last_of 0 pre).
Local Abbreviation k := (head_of post 0).

Lemma at_hole : desc b i = (l, k, j) /\ seg (desc b) 0 pre i /\ seg (desc b) i post 0.
Proof using HS HA HF HB. apply seg_app in HS as [S1 [S2 S3]]. done. Qed.

Lemma order : 0 < i /\ 8 * i + 8 <= l2 /\ Forall (fun h => 0 < h.1 < i) pre /\ Forall (fun h => i < h.1 /\ l2 < 8 * h.1) post /\
  ascending 0 pre /\ ascending l2 post.
Proof using HS HA HF HB.
  apply ascending_split in HA as (A1 & A2 & A3 & A4 & A5). apply ascending_Forall in A1 as F1. apply ascending_Forall in A5 as F5.
  rewrite Forall_forall in F1, A2, F5. split_and!; try done; try lia; apply Forall_forall; intros h Hh.
  - specialize (F1 h Hh). specialize (A2 h Hh). cbn beta in *. lia.
  - specialize (F5 h Hh). cbn beta in *. lia.
Qed.

Lemma fits_u16 m : fits b m -> is_u16 m.
Proof using HS HA HF HB. intros [? ?]. unfold hole_at, IP_HDR_SIZE, is_u16 in *. lia. Qed.

Lemma prev_facts : (pre = [] /\ j = 0) \/ (pre <> [] /\ 0 < j < i /\ fits b j /\ j ∈ pre.*1).
Proof using HS HA HF HB.
  destruct order as (_ & _ & P & _). destruct pre as [|[a m] r] eqn:E; [by left|]. right. split; [done|].
  destruct (last_of_in a r) as [Hl|Hl]; cbn [last_of].
  - rewrite Hl. apply Forall_cons in P as [P _]. apply Forall_cons in HF as [F _]. split_and!; try done; try (cbn [fst] in P; lia). left.
  - apply list_elem_of_fmap in Hl as ([a' m'] & -> & Hh). rewrite Forall_forall in P. rewrite Forall_forall in HF.
    specialize (P (a', m') ltac:(by right)). specialize (HF (a', m') ltac:(apply elem_of_app; left; by right)). cbn [fst] in *.
    split_and!; try done; try lia. right. apply list_elem_of_fmap. by exists (a', m').
Qed.

Lemma next_facts : (post = [] /\ k = 0) \/ (post <> [] /\ i < k /\ l2 < 8 * k /\ fits b k /\ k ∈ post.*1).
Proof using HS HA HF HB.
  destruct order as (_ & _ & _ & P & _). destruct post as [|[a m] r]; [by left|]. right. split; [done|]. cbn [head_of].
  apply Forall_cons in P as [P _]. cbn [fst] in P. rewrite Forall_app, !Forall_cons in HF. destruct HF as (_ & _ & F & _).
  split_and!; try done; try lia. left.
Qed.

Lemma remove_spec first : exists b', remove_hole b first i =
    Some (bool_decide (pre ++ post = []), b', if bool_decide (pre = []) then head_of post first else first) /\
  relinked b b' (pre ++ post).
Proof using HS HA HF HB.
  pose proof at_hole as (D & Sp & Sq). pose proof order as (O1 & O2 & O3 & O4 & O5 & O6).
  assert (Fi : fits b i) by (rewrite Forall_forall in HF; apply (HF (i, l)), elem_of_app; right; left).
  destruct (load_field _ _ _ _ i (view_start b) Fi) as (_ & EN & EP). unfold remove_hole. rewrite EN, EP, D. cbn [fst snd mbind option_bind].
  destruct prev_facts as [[Ep Ej]|(Np & Hj & Fj & Ij)], next_facts as [[Eq Ek]|(Nq & Hk & Hl & Fk & Ik)].
  - rewrite Ej, Ek. cbn [Z.eqb andb]. subst. exists b. split; [done|]. exists (desc b), []. done.
  - rewrite Ej, (proj2 (Z.eqb_neq k 0)) by lia. cbn [Z.eqb andb]. subst pre.
    destruct (set_prev_view _ _ _ _ k 0 (view_start b) Fk) as (b' & -> & V); [done|]. cbn [mbind option_bind app].
    exists b'. rewrite bool_decide_eq_false_2 by done. rewrite bool_decide_eq_true_2 by done. split; [by destruct post as [|[? ?] ?]|].
    eexists _, _. split_and!; [exact V|by constructor|]. apply (relink_prev (desc b) _ i _ _ _ l2); [done|done|].
    apply Forall_forall. intros h Hh. unfold upd. destruct (Z.eqb_spec h.1 k) as [->|]; done.
  - rewrite Ek, (proj2 (Z.eqb_neq j 0)) by lia. cbn [andb]. subst post. rewrite Z.eqb_refl.
    destruct (set_next_view _ _ _ _ j 0 (view_start b) Fj) as (b' & -> & V); [done|]. cbn [mbind option_bind]. rewrite app_nil_r.
    exists b'. rewrite !bool_decide_eq_false_2 by done. split; [done|].
    eexists _, _. split_and!; [exact V|by constructor|]. apply (relink_next (desc b) _ 0 _ i _ 0); [done|done|].
    apply Forall_forall. intros h Hh. unfold upd. destruct (Z.eqb_spec h.1 j) as [->|]; done.
  - rewrite (proj2 (Z.eqb_neq j 0)), (proj2 (Z.eqb_neq k 0)) by lia. cbn [andb].
    destruct (set_prev_view _ _ _ _ k j (view_start b) Fk) as (b1 & -> & V1); [by apply fits_u16|]. cbn [mbind option_bind].
    destruct (set_next_view _ _ _ _ j k V1 Fj) as (b' & -> & V); [by apply fits_u16|]. cbn [mbind option_bind].
    exists b'. rewrite !bool_decide_eq_false_2 by (by destruct pre). split; [done|].
    eexists _, _. split_and!; [exact V|rewrite fmap_app; repeat constructor; apply elem_of_app; auto|].
    apply seg_app. split.
    + apply (relink_next (desc b) _ 0 _ i _ 0); [done|done|]. apply Forall_forall. intros h Hh.
      rewrite Forall_forall in O3. specialize (O3 h Hh). cbn beta in O3.
      upd_cases.
    + apply (relink_prev (desc b) _ i _ _ _ l2); [done|done|]. apply Forall_forall. intros h Hh.
      rewrite Forall_forall in O4. specialize (O4 h Hh). cbn beta in O4.
      upd_cases.
Qed.

Lemma fits_i : fits b i.
Proof using HS HA HF HB. rewrite Forall_forall in HF. apply (HF (i, l)), elem_of_app. right. left. Qed.

(** What replaces the hole, and the hole after it. *)
Lemma relink_around g mid : mid <> [] -> seg g 0 pre (head_of mid 0) -> seg g j mid k ->
  Forall (fun h => g h.1 = if h.1 =? k then ((desc b h.1).1.1, (desc b h.1).1.2, last_of 0 mid) else desc b h.1) post ->
  seg g 0 (pre ++ mid ++ post) 0.
Proof using HS HA HF HB.
  intros N G1 G2 G3. pose proof at_hole as (D & Sp & Sq). pose proof order as (O1 & O2 & O3 & O4 & O5 & O6).
  apply seg_app. destruct mid as [|[m e] mid]; [done|]. split; [done|].
  apply seg_app. split; [done|]. by apply (relink_prev (desc b) _ i _ _ _ l2).
Qed.

Lemma shorten_spec v : is_u16 v -> exists b', set_last_byte b i v = Some b' /\ relinked b b' (pre ++ (i, v) :: post).
Proof using HS HA HF HB.
  intros Hv. pose proof at_hole as (D & Sp & Sq). pose proof order as (O1 & O2 & O3 & O4 & O5 & O6).
  destruct (set_last_view _ _ _ _ i v (view_start b) fits_i Hv) as (b' & -> & V). exists b'. split; [done|]. rewrite D in V.
  eexists _, _. split_and!; [exact V|repeat constructor; rewrite fmap_app; apply elem_of_app; right; left|]. cbn [fst snd].
  apply seg_app. cbn [seg head_of]. split; [|split; [by upd_cases|]].
  - apply (seg_frame (desc b)); [|done]. eapply Forall_impl; [exact O3|]. cbn beta. intros h Hh. upd_cases.
  - apply (seg_frame (desc b)); [|done]. eapply Forall_impl; [exact O4|]. cbn beta. intros h Hh. upd_cases.
Qed.

(** The hole after [n], if there is one, gets [n] before it. *)
Definition after (f : Z -> Z * Z * Z) (n : Z) : Z -> Z * Z * Z :=
  if k =? 0 then f else upd f k ((f k).1.1, (f k).1.2, n).

Lemma after_view b1 f zone n : view b b1 f zone -> fits b n ->
  exists b2 zone', (if negb (k =? 0) then set_prev_hole b1 k n else Some b1) = Some b2 /\ view b b2 (after f n) zone' /\
    forall z, z ∈ zone' -> z ∈ zone \/ z ∈ post.*1.
Proof using HS HA HF HB.
  intros V Fn. unfold after. destruct next_facts as [[Eq Ek]|(Nq & Hk & Hl & Fk & Ik)].
  - rewrite Ek. cbn [Z.eqb negb]. exists b1, zone. split_and!; [done|done|auto].
  - pose proof order as (O1 & _). rewrite (proj2 (Z.eqb_neq k 0)) by lia. cbn [negb].
    destruct (set_prev_view _ _ _ _ k n V Fk) as (b2 & -> & V2); [by apply fits_u16|].
    eexists _, _. split_and!; [done|exact V2|]. intros z [->|Hz]%elem_of_cons; auto.
Qed.

(** It changes nothing at or before [n]. *)
Lemma after_low f n m : m <= n -> 8 * n + 8 <= l2 -> after f n m = f m.
Proof using HS HA HF HB.
  intros Hm Hn. unfold after. destruct next_facts as [[Eq Ek]|(Nq & Hk & Hl & Fk & Ik)]; [by rewrite Ek|]. upd_cases.
Qed.

Lemma after_post f n : (forall m, l2 < 8 * m -> f m = desc b m) ->
  Forall (fun h => after f n h.1 = if h.1 =? k then ((desc b h.1).1.1, (desc b h.1).1.2, n) else desc b h.1) post.
Proof using HS HA HF HB.
  intros Hf. pose proof order as (O1 & O2 & O3 & O4 & O5 & O6). rewrite Forall_forall in O4 |- *. intros h Hh.
  specialize (O4 h Hh). cbn beta in O4. unfold after. destruct next_facts as [[Eq Ek]|(Nq & Hk & Hl & Fk & Ik)].
  - rewrite Eq in Hh. by apply elem_of_nil in Hh.
  - rewrite (Hf k) by lia. specialize (Hf h.1 ltac:(lia)). upd_cases.
Qed.

Lemma move_spec n first : fits b n -> i < n -> 8 * n + 8 <= l2 ->
  exists b', move_hole b first i n = Some (b', if bool_decide (pre = []) then n else first) /\ relinked b b' (pre ++ (n, l) :: post).
Proof using HS HA HF HB.
  intros Fn Hn Hnl. pose proof at_hole as (D & Sp & Sq). pose proof order as (O1 & O2 & O3 & O4 & O5 & O6). unfold move_hole.
  destruct (copy_view _ _ _ _ n i (view_start b) Fn fits_i) as (b1 & -> & V1). rewrite D in V1. cbn [mbind option_bind].
  destruct (load_field _ _ _ _ n V1 Fn) as (_ & EN & _). rewrite EN. unfold upd at 1. rewrite Z.eqb_refl. cbn [mbind option_bind fst snd].
  destruct (after_view _ _ _ n V1 Fn) as (b2 & zone & -> & V2 & Z2). cbn [mbind option_bind].
  destruct (load_field _ _ _ _ n V2 Fn) as (_ & _ & EP). rewrite EP. set (g := after _ n) in *.
  assert (Gn : g n = (l, k, j)) by (unfold g; rewrite after_low by lia; by upd_cases). rewrite Gn. cbn [mbind option_bind fst snd].
  assert (Gp : Forall (fun h => g h.1 = desc b h.1) pre).
  { eapply Forall_impl; [exact O3|]. cbn beta. intros h Hh. unfold g. rewrite after_low by lia. upd_cases. }
  assert (Gq := after_post (upd (desc b) n (l, k, j)) n ltac:(intros m Hm; upd_cases)). fold g in Gq.
  assert (Zn : Forall (fun z => z ∈ (pre ++ (n, l) :: post).*1) zone).
  { apply Forall_forall. intros z Hz. rewrite fmap_app. apply elem_of_app. right. apply elem_of_cons.
    destruct (Z2 z Hz) as [[->|Hn']%elem_of_cons|]; [by left|by apply elem_of_nil in Hn'|by right]. }
  destruct prev_facts as [[Ep Ej]|(Np & Hj & Fj & Ij)].
  - rewrite Ej. cbn [Z.eqb negb]. rewrite bool_decide_eq_true_2 by done. exists b2. unfold u16.
    rewrite Z.mod_small by (pose proof (fits_u16 n Fn) as U; exact U). split; [done|]. exists g, zone. split_and!; [done|done|].
    apply (relink_around g [(n, l)]); [done|by rewrite Ep|by cbn [seg head_of]|done].
  - rewrite (proj2 (Z.eqb_neq j 0)) by lia. cbn [negb].
    destruct (set_next_view _ _ _ _ j n V2 Fj) as (b3 & -> & V3); [by apply fits_u16|]. cbn [mbind option_bind].
    rewrite bool_decide_eq_false_2 by done. exists b3. split; [done|].
    eexists _, _. split_and!; [exact V3|constructor; [rewrite fmap_app; apply elem_of_app; by left|done]|].
    rewrite Forall_forall in Gp, Gq, O4. assert (Gj : g j = desc b j).
    { apply list_elem_of_fmap in Ij as (h & -> & Hh). by apply Gp. }
    rewrite Gj. apply (relink_around _ [(n, l)]); [done| | |].
    + apply (relink_next (desc b) _ 0 _ i _ 0); [done|done|]. apply Forall_forall. intros h Hh. specialize (Gp h Hh). cbn [head_of]. upd_cases.
    + cbn [seg head_of]. split; [|done]. upd_cases.
    + apply Forall_forall. intros h Hh. unfold upd. rewrite (Gq h Hh). specialize (O4 h Hh). cbn beta in O4.
      rewrite (proj2 (Z.eqb_neq h.1 j)) by lia. done.
Qed.

Lemma split_spec n start : fits b n -> i < n -> 8 * n + 8 <= l2 -> is_u16 start ->
  exists b', split_hole b i n start = Some b' /\ relinked b b' (pre ++ (i, start) :: (n, l) :: post).
Proof using HS HA HF HB.
  intros Fn Hn Hnl Hs. pose proof at_hole as (D & Sp & Sq). pose proof order as (O1 & O2 & O3 & O4 & O5 & O6). unfold split_hole.
  destruct (copy_view _ _ _ _ n i (view_start b) Fn fits_i) as (b1 & -> & V1). rewrite D in V1. cbn [mbind option_bind].
  destruct (set_last_view _ _ _ _ i start V1 fits_i Hs) as (b2 & -> & V2). cbn [mbind option_bind].
  destruct (set_next_view _ _ _ _ i n V2 fits_i) as (b3 & -> & V3); [by apply fits_u16|]. cbn [mbind option_bind].
  destruct (set_prev_view _ _ _ _ n i V3 Fn) as (b4 & -> & V4); [apply fits_u16, fits_i|]. cbn [mbind option_bind].
  set (f := upd _ n (_, i)) in V4.
  assert (Ff : forall m, f m = if m =? n then (l, k, i) else if m =? i then (start, n, j) else desc b m).
  { intros m. unfold f. upd_cases; rewrite ?D; cbn [fst snd]; try done; congruence. }
  destruct (load_field _ _ _ _ n V4 Fn) as (_ & EN & _). rewrite EN, Ff, Z.eqb_refl. cbn [mbind option_bind fst snd].
  destruct (after_view _ _ _ n V4 Fn) as (b5 & zone & -> & V5 & Z5). exists b5. split; [done|]. exists (after f n), zone. split_and!; [done| |].
  - apply Forall_forall. intros z Hz. rewrite fmap_app. apply elem_of_app. right. cbn [fmap list_fmap fst].
    destruct (Z5 z Hz) as [Hz'|Hz']; [|by do 2 right]. repeat (apply elem_of_cons in Hz' as [->|Hz']); try by (left || (right; left)).
    by apply elem_of_nil in Hz'.
  - apply (relink_around _ [(i, start); (n, l)]); [done| | |].
    + apply (seg_frame (desc b)); [|done]. eapply Forall_impl; [exact O3|]. cbn beta. intros h Hh.
      rewrite after_low, Ff by lia. upd_cases.
    + cbn [seg head_of]. rewrite !after_low, !Ff by lia. split_and!; [by upd_cases|by upd_cases|done].
    + apply after_post. intros m Hm. rewrite Ff. upd_cases.
Qed.

End Change.

(** What is left of the list when a fragment from block [o] to byte [e] comes to
    the hole [(i, l)]. *)
Definition new_holes (pre post : list (Z * Z)) (i l o e : Z) : list (Z * Z) :=
  if (o <=? i) && (l <=? e) then pre ++ post
  else if l <=? e then pre ++ (i, o * 8) :: post
  else if o <=? i then pre ++ (e / 8, l) :: post
  else pre ++ (i, o * 8) :: (e / 8, l) :: post.

Lemma fix_spec b pre post i l l2 o len :
  seg (desc b) 0 (pre ++ (i, l) :: post) 0 -> ascending 0 (pre ++ (i, l2) :: post) ->
  Forall (fun h => fits b h.1) (pre ++ (i, l) :: post) -> Z.of_nat (length b) <= 65536 ->
  is_u16 (o * 8) -> 8 * i < o * 8 + len -> (o * 8 + len < l -> fits b ((o * 8 + len) / 8) /\ (o * 8 + len) mod 8 = 0 /\ o * 8 + len + 8 <= l2) ->
  let hs' := new_holes pre post i l o (o * 8 + len) in
  exists b' first, fix_holes b (head_of (pre ++ (i, l) :: post) 0) i l o len = Some (bool_decide (hs' = []), b', first) /\
    relinked b b' hs' /\ (hs' <> [] -> first = head_of hs' 0).
Proof.
  intros HS HA HF HB Hu He Hl. unfold new_holes, fix_holes. rewrite <- Z.div_add_l by done.
  assert (NE : forall x : list (Z * Z), x ++ [] = x) by apply app_nil_r.
  destruct (Z.leb_spec l (o * 8 + len)) as [E|E]; [|destruct (Hl E) as (Fn & M & E8); pose proof (Z.div_mod (o * 8 + len) 8 ltac:(lia)) as DM].
  - rewrite andb_true_r. destruct (Z.leb_spec o i) as [O|O].
    + destruct (remove_spec b pre post i l l2 HS HA HF HB (head_of (pre ++ (i, l) :: post) 0)) as (b' & -> & R).
      eexists _, _. split_and!; [done|done|]. intros N. destruct pre as [|[a m] pre]; [|done]. cbn [app] in *. rewrite bool_decide_eq_true_2 by done.
      by destruct post as [|[? ?] ?].
    + destruct (shorten_spec b pre post i l l2 HS HA HF HB (o * 8) Hu) as (b' & -> & R). cbn [mbind option_bind].
      eexists _, _. rewrite bool_decide_eq_false_2 by (by destruct pre). split_and!; [done|done|]. intros _. by destruct pre as [|[? ?] ?].
  - rewrite andb_false_r. destruct (Z.leb_spec o i) as [O|O].
    + destruct (move_spec b pre post i l l2 HS HA HF HB ((o * 8 + len) / 8) (head_of (pre ++ (i, l) :: post) 0) Fn) as (b' & -> & R); [lia|lia|].
      cbn [mbind option_bind]. eexists _, _. rewrite (bool_decide_eq_false_2 (pre ++ _ = [])) by (by destruct pre). split_and!; [done|done|].
      intros _. destruct pre as [|[? ?] ?]; [by rewrite bool_decide_eq_true_2|done].
    + destruct (split_spec b pre post i l l2 HS HA HF HB ((o * 8 + len) / 8) (o * 8) Fn) as (b' & -> & R); [lia|lia|done|].
      cbn [mbind option_bind]. eexists _, _. rewrite bool_decide_eq_false_2 by (by destruct pre). split_and!; [done|done|].
      intros _. by destruct pre as [|[? ?] ?].
Qed.

Lemma in_hole_app a c x : in_hole (a ++ c) x <-> in_hole a x \/ in_hole c x.
Proof. apply Exists_app. Qed.

Lemma in_hole_cons i l hs x : in_hole ((i, l) :: hs) x <-> 8 * i <= x < l \/ in_hole hs x.
Proof. apply Exists_cons. Qed.

Lemma in_hole_below hs t x : Forall (fun h => h.2 <= t) hs -> in_hole hs x -> x < t.
Proof. intros F E. apply Exists_exists in E as (h & Hh & E). rewrite Forall_forall in F. specialize (F h Hh). cbn beta in F. lia. Qed.

Lemma in_hole_above hs t x : ascending t hs -> in_hole hs x -> t < x.
Proof.
  intros A E. apply Exists_exists in E as (h & Hh & E). apply ascending_Forall in A. rewrite Forall_forall in A.
  specialize (A h Hh). cbn beta in A. lia.
Qed.

(** The fragment is taken out of the holes. *)
Lemma new_holes_in pre post i l o e x : ascending l post -> Forall (fun h => h.2 < o * 8) pre ->
  8 * i < e -> o * 8 <= e <= l -> (e < l -> e mod 8 = 0) ->
  in_hole (new_holes pre post i l o e) x <-> in_hole (pre ++ (i, l) :: post) x /\ ~ (o * 8 <= x < e).
Proof.
  intros A5 P He Hl M.
  assert (Bp : in_hole pre x -> x < o * 8) by (apply in_hole_below; eapply Forall_impl; [exact P|]; cbn beta; lia).
  assert (Bq : in_hole post x -> l < x) by (by apply in_hole_above).
  assert (E8 : e < l -> 8 * (e / 8) = e) by (intros H; pose proof (Z.div_mod e 8); specialize (M H); lia). unfold new_holes.
  destruct (Z.leb_spec o i), (Z.leb_spec l e); cbn [andb]; rewrite ?in_hole_app, ?in_hole_cons; try specialize (E8 ltac:(lia)); clear - Bp Bq E8 He Hl H H0; intuition lia.
Qed.

Lemma ascending_join lo t pre rest : ascending lo pre -> Forall (fun h => h.2 < t) pre -> lo < t ->
  (forall lo', lo' < t -> ascending lo' rest) -> ascending lo (pre ++ rest).
Proof.
  revert lo. induction pre as [|[i l] pre IH]; intros lo A F Hlo R; [by apply R|]. destruct A as (A1 & A2 & A3).
  apply Forall_cons in F as [F1 F2]. cbn [app ascending snd] in *. split_and!; try done. by apply IH.
Qed.

Lemma new_holes_ascending pre post i l l2 o e : ascending 0 (pre ++ (i, l2) :: post) -> ascending l post -> Forall (fun h => h.2 < o * 8) pre ->
  8 * i < e -> o * 8 <= e <= l -> (e < l -> e mod 8 = 0 /\ e + 8 <= l /\ o * 8 < e) -> ascending 0 (new_holes pre post i l o e).
Proof.
  intros A A5 P He Hl M. apply ascending_split in A as (A1 & A2 & A3 & A4 & _). pose proof (Z.div_mod e 8 ltac:(lia)) as D.
  assert (R : forall lo', lo' < 8 * i -> ascending lo' post) by (intros lo' H; apply (ascending_weaken l); [done|lia]).
  unfold new_holes. destruct (Z.leb_spec o i), (Z.leb_spec l e) as [E|E]; cbn [andb]; try destruct (M E) as (? & ? & ?).
  - by apply (ascending_join 0 (8 * i)).
  - apply (ascending_join 0 (8 * i)); try done. intros lo' H'. cbn [ascending]. split_and!; [lia|lia|done].
  - apply (ascending_join 0 (8 * i)); try done. intros lo' H'. cbn [ascending]. split_and!; [lia|lia|]. apply (ascending_weaken l); [done|lia].
  - apply (ascending_join 0 (8 * i)); try done. intros lo' H'. cbn [ascending]. split_and!; try done; lia.
Qed.

Lemma new_holes_Forall (Q : Z * Z -> Prop) pre post i l o e : Forall Q pre -> Forall Q post ->
  (i < o -> Q (i, o * 8)) -> (e < l -> Q (e / 8, l)) -> Forall Q (new_holes pre post i l o e).
Proof.
  intros P1 P2 P3 P4. unfold new_holes. destruct (Z.leb_spec o i), (Z.leb_spec l e); cbn [andb]; rewrite ?Forall_app, ?Forall_cons; auto.
Qed.

(** Bytes outside the holes stay; [hs2] gives the holes' ends that count. *)
Lemma relinked_facts b b' hs hs2 : relinked b b' hs -> hs.*1 = hs2.*1 -> ascending 0 hs2 -> Forall (fun h => fits b h.1) hs ->
  length b' = length b /\ seg (desc b') 0 hs 0 /\
  forall x, 0 <= x -> x < 20 \/ ~ in_hole hs2 (x - 20) -> byteat b' x = byteat b x.
Proof.
  intros (g & zone & [VL VD VR] & Z0 & S) E A F. split_and!; [done| |].
  - apply (seg_frame g); [|done]. eapply Forall_impl; [exact F|]. cbn beta. intros h Hh. by apply VD.
  - intros x Hx Hn. apply VR; [done|]. rewrite E in Z0. eapply Forall_impl; [exact Z0|]. cbn beta. intros z Hz Hr.
    apply list_elem_of_fmap in Hz as ([i l] & -> & Hh). apply ascending_Forall in A. rewrite Forall_forall in A.
    specialize (A _ Hh). unfold hole_at, IP_HDR_SIZE in Hr. cbn [fst snd] in *. destruct Hn as [Hn|Hn]; [lia|]. apply Hn.
    apply Exists_exists. exists (i, l). split; [done|]. cbn [fst snd]. lia.
Qed.

(** The search finds the first hole that does not end before [start]. *)
Lemma find_hole_spec b p hs start n : seg (desc b) p hs 0 -> hs <> [] -> Forall (fun h => 0 < h.1) hs -> Forall (fun h => fits b h.1) hs ->
  (length hs <= n)%nat ->
  (find_hole n b (head_of hs 0) start = Some None /\ Forall (fun h => h.2 < start) hs) \/
  (exists pre i l post, hs = pre ++ (i, l) :: post /\ Forall (fun h => h.2 < start) pre /\ start <= l /\
    find_hole n b (head_of hs 0) start = Some (Some i)).
Proof.
  revert p n. induction hs as [|[i l] hs IH]; intros p n S N P F Ln; [done|]. destruct n as [|n]; [cbn [length] in Ln; lia|].
  destruct S as [E S]. apply Forall_cons in P as [P1 P2]. apply Forall_cons in F as [F1 F2]. cbn [head_of find_hole fst length] in *.
  destruct (load_field _ _ _ _ i (view_start b) F1) as (EL & EN & _). rewrite EL, EN, E. cbn [fst snd mbind option_bind].
  destruct (Z.ltb_spec l start) as [H|H]; [|right; exists [], i, l, hs; by split_and!].
  destruct hs as [|[i' l'] hs]; [left; by split; [|constructor]|]. cbn [head_of] in *.
  pose proof P2 as P3. apply Forall_cons in P3 as [P3 _]. cbn [fst] in P3. rewrite (proj2 (Z.eqb_neq i' 0)) by lia.
  destruct (IH i n S) as [[-> G]|(pre & j & m & post & -> & G & Hm & ->)]; try done; try lia.
  - left. split; [done|by constructor].
  - right. exists ((i, l) :: pre), j, m, post. split_and!; try done. by constructor.
Qed.

Lemma ascending_count lo top hs : ascending lo hs -> Forall (fun h => 8 * h.1 <= top) hs -> Z.of_nat (length hs) <= Z.max 0 (top - lo).
Proof.
  revert lo. induction hs as [|[i l] hs IH]; intros lo A F; [cbn [length]; lia|]. destruct A as (A1 & A2 & A3).
  apply Forall_cons in F as [F1 F2]. cbn [fst length] in *. specialize (IH l A3 F2). lia.
Qed.

(** ** The fields of a fragment *)
Lemma sub_mid a c r i n : Z.of_nat (length a) = i -> Z.of_nat (length c) = n -> sub (a ++ c ++ r) i n = c.
Proof. intros <- <-. unfold sub. by rewrite !Nat2Z.id, drop_app_length, take_app_length. Qed.

Lemma be_val_bytes n x : be_val (be_bytes n x) = x mod 256 ^ Z.of_nat n.
Proof. unfold be_val, be_bytes. by rewrite rev_involutive, le_val_bytes. Qed.

Lemma offset_bits : forallb (fun o => (Z.land (IP_FLAGS_MFRAG + o) IP_OFFS =? o) && (Z.land o IP_OFFS =? o) &&
  negb (Z.land (IP_FLAGS_MFRAG + o) IP_FLAGS_MFRAG =? 0) && (Z.land o IP_FLAGS_MFRAG =? 0)) (map Z.of_nat (seq 0 (Z.to_nat 8192))) = true.
Proof. vm_compute. done. Qed.

Lemma off_fields (more : bool) o : 0 <= o < 8192 ->
  let off := (if more then IP_FLAGS_MFRAG else 0) + o in
  Z.land off IP_OFFS = o /\ negb (Z.land off IP_FLAGS_MFRAG =? 0) = more /\ 0 <= off < 65536.
Proof.
  intros H off. pose proof offset_bits as B. rewrite forallb_forall in B. specialize (B o).
  rewrite !andb_true_iff in B. destruct B as (((B1 & B2) & B3) & B4).
  { apply in_map_iff. exists (Z.to_nat o). split; [lia|]. apply in_seq. lia. }
  unfold off. destruct more; cbn [Z.add]; rewrite ?Z.add_0_l; unfold IP_FLAGS_MFRAG in *; split_and!; try lia; by rewrite ?B4.
Qed.

Section Fragments.
Context (hdr D : list Z) (start len : Z).
Hypothesis Hh : length hdr = 20%nat.
Hypothesis H0 : 0 <= start /\ start mod 8 = 0 /\ 0 < len.
Hypothesis HN : start + len <= Z.of_nat (length D) <= 65515.

Local Abbreviation p := (frag hdr D start len).
Local Abbreviation more := (start + len <? Z.of_nat (length D)).

Lemma length_part a n : 0 <= a -> 0 <= n -> a + n <= 20 -> length (sub hdr a n) = Z.to_nat n.
Proof using Hh. clear H0 HN. intros. pose proof (length_sub hdr a n). lia. Qed.

Lemma frag_fields : ip_len p = len + 20 /\ ip_id p = sub hdr 4 2 /\ Z.land (ip_off p) IP_OFFS = start / 8 /\
  negb (Z.land (ip_off p) IP_FLAGS_MFRAG =? 0) = more.
Proof using Hh H0 HN.
  pose proof (Z.div_mod start 8 ltac:(lia)) as DM. destruct (off_fields more (start / 8)) as (O1 & O2 & O3); [lia|].
  assert (E : ip_off p = (if more then IP_FLAGS_MFRAG else 0) + start / 8).
  { unfold ip_off, ntohs_at, frag. rewrite (app_assoc (sub hdr 0 2)), (app_assoc (sub hdr 0 2 ++ _)).
    rewrite sub_mid; [rewrite be_val_bytes; apply Z.mod_small; exact O3| |by rewrite length_be_bytes].
    rewrite !length_app, !length_part, length_be_bytes by lia. done. }
  rewrite E. split_and!; [| |done|done].
  - unfold ip_len, ntohs_at, frag. rewrite sub_mid; [|by rewrite length_part by lia|by rewrite length_be_bytes].
    rewrite be_val_bytes. apply Z.mod_small. change (256 ^ Z.of_nat 2) with 65536. unfold IP_HDR_SIZE. lia.
  - unfold ip_id, frag. rewrite app_assoc. rewrite sub_mid; [done| |by rewrite length_part by lia].
    rewrite length_app, length_part, length_be_bytes by lia. done.
Qed.

Lemma frag_split : exists h, p = h ++ sub D start len /\ length h = 20%nat /\ sub h 4 2 = sub hdr 4 2.
Proof using Hh H0 HN.
  unfold frag. eexists. rewrite !app_assoc. split_and!; [done| |].
  - rewrite !length_app, !length_part, !length_be_bytes by lia. done.
  - rewrite <- !app_assoc, app_assoc, sub_mid; [done| |by rewrite length_part by lia].
    rewrite length_app, length_part, length_be_bytes by lia. done.
Qed.

Lemma frag_data n : 0 <= n <= len -> sub p IP_HDR_SIZE n = sub D start n.
Proof using Hh H0 HN.
  intros Hn. destruct frag_split as (h & -> & Hl & _). unfold sub at 1. change (Z.to_nat IP_HDR_SIZE) with 20%nat.
  rewrite <- Hl, drop_app_length. change (take (Z.to_nat n) (sub D start len)) with (sub (sub D start len) 0 n).
  rewrite sub_sub by lia. by rewrite Z.add_0_r.
Qed.

Lemma frag_hdr : length (sub p 0 20) = 20%nat /\ sub (sub p 0 20) 4 2 = sub hdr 4 2.
Proof using Hh H0 HN.
  destruct frag_split as (h & -> & Hl & Hi). assert (E : sub (h ++ sub D start len) 0 20 = h).
  { unfold sub at 1. cbn [drop Z.to_nat]. change (Z.to_nat 20) with 20%nat. rewrite <- Hl. apply take_app_length. }
  by rewrite E.
Qed.

End Fragments.

(** ** Taking in a fragment *)
Lemma sub_ext b b' i i' n : 0 <= i -> 0 <= i' -> 0 <= n -> i + n <= Z.of_nat (length b) -> i' + n <= Z.of_nat (length b') ->
  (forall x, 0 <= x < n -> byteat b (i + x) = byteat b' (i' + x)) -> sub b i n = sub b' i' n.
Proof.
  intros Hi Hi' Hn L L' E. pose proof (length_sub b i n Hi Hn L). pose proof (length_sub b' i' n Hi' Hn L').
  apply (nth_ext _ _ 0 0); [lia|]. intros x Hx.
  specialize (E (Z.of_nat x) ltac:(lia)). rewrite <- !(byteat_sub _ _ n) in E by lia. unfold byteat in E. by rewrite !Nat2Z.id in E.
Qed.

Lemma fix_and_copy b pre post i l l2 o len data :
  seg (desc b) 0 (pre ++ (i, l) :: post) 0 -> ascending 0 (pre ++ (i, l2) :: post) -> ascending l post ->
  Forall (fun h => fits b h.1) (pre ++ (i, l) :: post) -> Z.of_nat (length b) <= 65536 -> is_u16 (o * 8) ->
  let e := o * 8 + len in let hs' := new_holes pre post i l o e in
  Forall (fun h => h.2 < o * 8) pre -> 8 * i < e -> o * 8 <= e <= l ->
  (e < l -> fits b (e / 8) /\ e mod 8 = 0 /\ e + 8 <= l /\ e + 8 <= l2 /\ o * 8 < e) ->
  Z.of_nat (length data) = len -> 20 + e <= Z.of_nat (length b) ->
  exists b' b'' first, fix_holes b (head_of (pre ++ (i, l) :: post) 0) i l o len = Some (bool_decide (hs' = []), b', first) /\
    memcpy b' (hole_at o) data = Some b'' /\ length b'' = length b /\ (hs' <> [] -> first = head_of hs' 0) /\
    seg (desc b'') 0 hs' 0 /\ ascending 0 hs' /\ Forall (fun h => fits b h.1) hs' /\
    (forall x, in_hole hs' x <-> in_hole (pre ++ (i, l) :: post) x /\ ~ (o * 8 <= x < e)) /\
    (forall x, 0 <= x -> x < 20 \/ ~ in_hole hs' (x - 20) -> byteat b'' x = if decide (20 + o * 8 <= x < 20 + e) then byteat data (x - (20 + o * 8)) else byteat b x).
Proof.
  intros HS HA HA2 HF HB Hu e hs' Hpre Hie Hel Hlt Hd Hb.
  assert (A' : ascending 0 hs') by (apply (new_holes_ascending _ _ _ _ l2); try done; intros H; destruct (Hlt H) as (? & ? & ? & ? & ?); done).
  assert (I' : forall x, in_hole hs' x <-> in_hole (pre ++ (i, l) :: post) x /\ ~ (o * 8 <= x < e)).
  { intros x. apply new_holes_in; try done. intros H. by destruct (Hlt H) as (? & ? & ? & ? & ?). }
  assert (F' : Forall (fun h => fits b h.1) hs').
  { apply Forall_app in HF as [F1 F2]. apply Forall_cons in F2 as [F2 F3]. apply new_holes_Forall; try done.
    intros H. by destruct (Hlt H). }
  destruct (fix_spec b pre post i l l2 o len) as (b' & first & E & R & Hfirst); try done.
  { intros H. by destruct (Hlt H) as (? & ? & ? & ? & ?). }
  destruct (relinked_facts b b' hs' hs' R eq_refl A' F') as (L' & S' & R').
  exists b', (write_at b' (hole_at o) data), first. unfold is_u16 in Hu.
  assert (W : forall x, 0 <= x -> byteat (write_at b' (hole_at o) data) x =
    if decide (20 + o * 8 <= x < 20 + e) then byteat data (x - (20 + o * 8)) else byteat b' x).
  { intros x Hx. unfold hole_at, IP_HDR_SIZE. rewrite byteat_write_at by lia. replace (20 + 8 * o) with (20 + o * 8) by lia. rewrite Hd.
    unfold e. by rewrite Z.add_assoc. }
  split_and!; try done.
  - unfold memcpy, hole_at, IP_HDR_SIZE. rewrite !(proj2 (Z.leb_le _ _)) by lia. done.
  - by rewrite length_write_at.
  - apply (seg_frame (desc b')); [|done]. apply ascending_Forall in A' as AF. rewrite Forall_forall in AF, F' |- *. intros [k m] Hk.
    specialize (AF _ Hk). specialize (F' _ Hk). cbn [fst snd] in *.
    apply desc_same; [by rewrite length_write_at|destruct F'; split; [done|lia]|]. unfold hole_at, IP_HDR_SIZE at 1 2.
    intros x Hx. rewrite W, decide_False; [done| |lia]. intros Hin.
    assert (in_hole hs' (x - 20)) as [_ C]%I'; [|lia]. apply Exists_exists. exists (k, m). split; [done|]. cbn [fst snd]. lia.
  - intros x Hx Hn. rewrite W by done. case_decide; [done|]. by apply R'.
Qed.

End Defrag.
