(* ===== verification/Reassembly.v ===== *)
(** * What reassembly gives (net/net.c)

    The theorems about [net_defragment] of Defrag.v: which fragments of a datagram
    give back the datagram, and in which cases the code fails. *)

From S2P Require Import Prelude Bytes Defrag.
Local Open Scope uboot_scope.
Local Open Scope Z_scope.

Module Reassembly.
Import Defrag.

(** ** One datagram *)
Section Datagram.
Context (hdr D : list Z) (B L : Z).
Local Abbreviation N := (Z.of_nat (length D)).
Hypothesis Hhdr : length hdr = 20%nat.
Hypothesis HL : 0 < L < N /\ L mod 8 = 0 /\ L + 28 <= B /\ N + 20 <= B.
Hypothesis HB : B <= 65536 /\ N <= 65515.

(** A fragment before the tail, or one from the tail to the end. *)
Definition valid (start len : Z) : Prop :=
  0 <= start /\ start mod 8 = 0 /\ 0 < len /\ (start + len <= L /\ len mod 8 = 0 \/ L <= start /\ start + len = N).

Definition hole_ok (h : Z * Z) : Prop := 8 * h.1 <= L /\ (h.2 = 65535 \/ h.2 mod 8 = 0 /\ h.2 <= N).

(** The holes [hs] are left of the datagram; [h0] is the header that came first. *)
Record inv (h0 : list Z) (s : reasm) (hs : list (Z * Z)) : Prop := {
  i_length : Z.of_nat (length (pkt_buff s)) = B;
  i_header : sub (pkt_buff s) 0 20 = h0;
  i_nonzero : total_len s <> 0;
  i_total : total_len s = N \/ in_hole hs N;
  i_first : first_hole s = head_of hs 0;
  i_some : hs <> [];
  i_seg : seg (desc (pkt_buff s)) 0 hs 0;
  i_ascending : ascending 0 hs;
  i_holes : Forall hole_ok hs;
  i_data x : 0 <= x < N -> ~ in_hole hs x -> byteat (pkt_buff s) (20 + x) = byteat D x }.

Definition packet (h0 : list Z) : list Z := sub h0 0 2 ++ be_bytes 2 (N + 20) ++ sub h0 4 16 ++ D.

Lemma packet_complete b h0 : Z.of_nat (length b) = B -> sub b 0 20 = h0 ->
  (forall x, 0 <= x < N -> byteat b (20 + x) = byteat D x) ->
  sub (write_at b 2 (be_bytes 2 (N + 20))) 0 (N + 20) = packet h0.
Proof using Hhdr HL HB.
  intros Lb <- Hd. set (w := be_bytes 2 (N + 20)). assert (Lw : Z.of_nat (length w) = 2) by (unfold w; by rewrite length_be_bytes).
  replace (N + 20) with (2 + (2 + (16 + N))) by lia. rewrite !sub_split by lia.
  change (0 + 2) with 2. change (2 + 2) with 4. change (4 + 16) with 20.
  unfold packet. fold w. f_equal; [|f_equal; [|f_equal]].
  - rewrite sub_write_at_out by lia. by rewrite sub_sub by lia.
  - rewrite <- Lw at 2. apply sub_write_at_same; lia.
  - rewrite sub_write_at_out by lia. by rewrite sub_sub by lia.
  - rewrite sub_write_at_out by lia. transitivity (sub D 0 N); [|by apply sub_all]. apply sub_ext; try lia. intros x Hx. by rewrite Hd.
Qed.

Lemma holes_fit h0 s hs : inv h0 s hs -> Forall (fun h => fits (pkt_buff s) h.1) hs /\ Forall (fun h => 0 < h.1) hs.
Proof using Hhdr HL HB.
  intros I. pose proof (i_holes _ _ _ I) as H. pose proof (ascending_Forall _ _ (i_ascending _ _ _ I)) as A.
  pose proof (i_length _ _ _ I) as Len. split; apply Forall_forall; intros h Hh; rewrite Forall_forall in H, A;
    specialize (H h Hh); specialize (A h Hh); destruct H; unfold fits, hole_at, IP_HDR_SIZE; cbn beta in A; lia.
Qed.

(** What taking in a fragment up to [m] leaves. *)
Definition outcome (h0 : list Z) (hs : list (Z * Z)) (start m : Z) (r : option Z) (s' : reasm) : Prop :=
  exists hs', (forall x, 0 <= x < N -> in_hole hs' x <-> in_hole hs x /\ ~ (start <= x < m)) /\
    (hs' = [] /\ r = Some (N + 20) /\ sub (pkt_buff s') 0 (N + 20) = packet h0 \/ r = None /\ inv h0 s' hs').

Lemma outcome_intro h0 hs hs' start m first total b :
  Z.of_nat (length b) = B -> sub b 0 20 = h0 -> total <> 0 -> total = N \/ in_hole hs' N -> (hs' <> [] -> first = head_of hs' 0) ->
  seg (desc b) 0 hs' 0 -> ascending 0 hs' -> Forall hole_ok hs' ->
  (forall x, 0 <= x < N -> ~ in_hole hs' x -> byteat b (20 + x) = byteat D x) ->
  (forall x, 0 <= x < N -> in_hole hs' x <-> in_hole hs x /\ ~ (start <= x < m)) ->
  exists r s', (if negb (bool_decide (hs' = [])) then Some (None, mk_reasm b first total)
    else Some (Some (total + IP_HDR_SIZE), mk_reasm (write_at b 2 (be_bytes 2 (total + IP_HDR_SIZE))) first total)) = Some (r, s') /\
    outcome h0 hs start m r s'.
Proof using Hhdr HL HB.
  intros Lb Hd Ht Htot Hf S A O Hdata X. destruct (decide (hs' = [])) as [->|E0]; eexists _, _.
  - rewrite bool_decide_eq_true_2 by done. cbn [negb]. assert (total = N) as -> by (by destruct Htot as [|?%Exists_nil]).
    split; [done|]. exists []. split; [done|]. left. split_and!; [done|done|]. cbn [pkt_buff]. unfold IP_HDR_SIZE.
    apply packet_complete; [lia|done|]. intros x Hx'. apply Hdata; [done|]. by intros ?%Exists_nil.
  - rewrite (bool_decide_eq_false_2 _ E0). cbn [negb]. split; [done|]. exists hs'. split; [done|]. right. split; [done|].
    split; cbn [pkt_buff first_hole total_len]; try done. by apply Hf.
Qed.

(** The common end of both cases: the buffer [b1] has the hole end [l] stored. *)
Lemma use_end h0 s pre post i l l2 start len total b1 :
  inv h0 s (pre ++ (i, l2) :: post) -> valid start len ->
  length b1 = length (pkt_buff s) -> seg (desc b1) 0 (pre ++ (i, l) :: post) 0 -> ascending l post ->
  (forall x, 0 <= x -> x < 20 \/ ~ in_hole (pre ++ (i, l2) :: post) (x - 20) -> byteat b1 x = byteat (pkt_buff s) x) ->
  (forall x, 0 <= x < N -> ~ (start <= x < Z.min (start + len) l) -> 8 * i <= x < l2 <-> 8 * i <= x < l) ->
  Forall (fun h => h.2 < start) pre -> 8 * i < l -> start <= l -> 8 * i < start + len ->
  (l <= start + len \/ l = l2 /\ start + len <= L /\ len mod 8 = 0) ->
  total <> 0 -> total = N \/ in_hole (pre ++ (i, l) :: post) N /\ start + len <= L ->
  let len' := if l <? start + len then l - start else len in
  exists r s', ('(done, b, first) ← fix_holes b1 (first_hole s) i l (start / 8) len';
    b ← memcpy b (hole_at (start / 8)) (sub (frag hdr D start len) IP_HDR_SIZE len');
    if negb done then Some (None, mk_reasm b first total)
    else Some (Some (total + IP_HDR_SIZE), mk_reasm (write_at b 2 (be_bytes 2 (total + IP_HDR_SIZE))) first total)) = Some (r, s') /\
    outcome h0 (pre ++ (i, l2) :: post) start (start + len') r s'.
Proof using Hhdr HL HB.
  intros I V L1 S1 A1 R1 Hx Hpre Hil Hsl Hie Hcase Ht Htot len'.
  pose proof (Z.div_mod start 8 ltac:(lia)) as DM. destruct V as (V1 & V2 & V3 & V4). set (o := start / 8) in *.
  assert (Eo : o * 8 = start) by lia. assert (Le : start + len' <= start + len /\ start + len' <= l /\ 8 * i < start + len' /\ 0 <= len')
    by (unfold len'; destruct (Z.ltb_spec l (start + len)); lia).
  pose proof (i_length _ _ _ I) as Len. destruct (holes_fit _ _ _ I) as [HF HP]. pose proof (i_holes _ _ _ I) as HO.
  pose proof HO as HO'. apply Forall_app in HO' as [O1 O2]. apply Forall_cons in O2 as [O2 O3].
  assert (Hlt : start + len' < l -> l = l2 /\ start + len <= L /\ len' = len /\ (start + len') mod 8 = 0).
  { unfold len'. destruct (Z.ltb_spec l (start + len)); [lia|]. intros H'. destruct Hcase as [|(? & ? & M)]; [lia|]. split_and!; try done.
    rewrite Z.add_mod, V2, M by done. done. }
  assert (Ld : Z.of_nat (length (sub (frag hdr D start len) IP_HDR_SIZE len')) = len').
  { rewrite frag_data by lia. apply length_sub; lia. }
  destruct (fix_and_copy b1 pre post i l l2 o len' (sub (frag hdr D start len) IP_HDR_SIZE len'))
    as (b' & b'' & first & E1 & E2 & L'' & Hf & S'' & A'' & F'' & I'' & W''); try done.
  { exact (i_ascending _ _ _ I). }
  { rewrite Forall_app, Forall_cons in HF |- *. unfold fits in *. rewrite L1. exact HF. }
  { rewrite L1. lia. }
  { unfold is_u16. lia. }
  { by rewrite Eo. }
  { lia. }
  { lia. }
  { rewrite Eo. intros H'. destruct (Hlt H') as (-> & HeL & El & M). destruct O2 as [_ O2]. cbn [snd] in O2.
    pose proof (Z.div_mod (start + len') 8 ltac:(lia)) as DM2. pose proof (Z.div_mod l2 8 ltac:(lia)) as DM3.
    unfold fits, hole_at, IP_HDR_SIZE. rewrite L1. split_and!; try lia. }
  { rewrite L1. lia. }
  rewrite (i_first _ _ _ I), !head_of_app. cbn [head_of]. rewrite head_of_app in E1. cbn [head_of] in E1. rewrite E1. cbn [mbind option_bind].
  rewrite E2. cbn [mbind option_bind]. clear E1 E2. rewrite Eo in *. set (hs' := new_holes pre post i l o (start + len')) in *.
  assert (X : forall x, 0 <= x < N -> in_hole hs' x <-> in_hole (pre ++ (i, l2) :: post) x /\ ~ (start <= x < start + len')).
  { intros x Hx'. rewrite I'', !in_hole_app, !in_hole_cons. specialize (Hx x Hx'). replace (Z.min (start + len) l) with (start + len') in Hx by
      (unfold len'; destruct (Z.ltb_spec l (start + len)); lia). clear - Hx. tauto. }
  apply (outcome_intro h0 _ hs'); try done; try lia.
  - rewrite <- (i_header _ _ _ I). apply sub_ext; try lia. intros x Hx'. rewrite !Z.add_0_l. rewrite W'', decide_False by lia. apply R1; lia.
  - destruct Htot as [|[Hin ?]]; [by left|]. right. apply I''. split; [done|lia].
  - apply new_holes_Forall; try done; unfold hole_ok; cbn [fst snd].
    + intros _. destruct O2. cbn [fst] in *. split; [done|]. right. rewrite Eo. split; [done|lia].
    + intros H'. destruct (Hlt H') as (-> & HeL & El & M). destruct O2 as [_ O2]. split; [|done].
      pose proof (Z.div_mod (start + len') 8 ltac:(lia)). lia.
  - intros x Hx' Hn. rewrite W'' by (try lia; right; by replace (20 + x - 20) with x by lia). case_decide as Hc.
    + rewrite frag_data, byteat_sub by lia. f_equal. lia.
    + assert (Hn2 : ~ in_hole (pre ++ (i, l2) :: post) x) by (intros Hin; apply Hn, X; [done|split; [done|lia]]).
      rewrite R1 by (try lia; right; by replace (20 + x - 20) with x by lia). by apply (i_data _ _ _ I).
Qed.

Lemma hole_apart h0 s pre post i l : inv h0 s (pre ++ (i, l) :: post) -> forall t, Forall (fun h => h.2 < t) pre -> t <= l ->
  ~ in_hole (pre ++ (i, l) :: post) l /\ (t < 8 * i -> ~ in_hole (pre ++ (i, l) :: post) t) /\ (L <= l -> post = []).
Proof using Hhdr HL HB.
  intros I t P Ht. pose proof (i_ascending _ _ _ I) as A. apply ascending_split in A as (A1 & A2 & A3 & A4 & A5).
  rewrite !in_hole_app, !in_hole_cons. assert (Bp : forall x, in_hole pre x -> x < t).
  { intros x. apply in_hole_below. eapply Forall_impl; [exact P|]. cbn beta. lia. }
  assert (Bq : forall x, in_hole post x -> l < x) by (intros x; by apply in_hole_above). split_and!.
  - intros [H|[H|H]]; [apply Bp in H|..|apply Bq in H]; lia.
  - intros Hi [H|[H|H]]; [apply Bp in H|..|apply Bq in H]; lia.
  - intros H. destruct post as [|[k m] post]; [done|]. destruct A5 as (A5 & _). pose proof (i_holes _ _ _ I) as O.
    rewrite Forall_app, !Forall_cons in O. destruct O as (_ & _ & [O _] & _). cbn [fst] in O. lia.
Qed.

(** A fragment that meets a hole. *)
Lemma use_spec h0 s pre post i l start len : inv h0 s (pre ++ (i, l) :: post) -> valid start len ->
  Forall (fun h => h.2 < start) pre -> start <= l -> 8 * i < start + len ->
  exists r s' m, use_fragment s (frag hdr D start len) i (start / 8) len (start + len <? N) = Some (r, s') /\
    start <= m <= start + len /\ (m = start + len \/ ~ in_hole (pre ++ (i, l) :: post) m) /\
    outcome h0 (pre ++ (i, l) :: post) start m r s'.
Proof using Hhdr HL HB.
  intros I V P Hl Hi. destruct (hole_apart _ _ _ _ _ _ I start P Hl) as (N1 & _ & N3). destruct (holes_fit _ _ _ I) as [HF HP].
  pose proof (i_ascending _ _ _ I) as A. pose proof A as A'. apply ascending_split in A' as (A1 & A2 & A3 & A4 & A5).
  assert (Fi : fits (pkt_buff s) i) by (rewrite Forall_app, Forall_cons in HF; apply HF).
  pose proof (i_length _ _ _ I) as Len. assert (LB : Z.of_nat (length (pkt_buff s)) <= 65536) by lia.
  pose proof (at_hole _ _ _ _ _ _ (i_seg _ _ _ I) A HF LB) as (At & _). pose proof (i_holes _ _ _ I) as HO.
  rewrite Forall_app, Forall_cons in HO. destruct HO as (_ & [_ HO] & _). cbn [snd] in HO.
  assert (E8 : start / 8 * 8 = start) by (destruct V; pose proof (Z.div_mod start 8 ltac:(lia)); lia).
  unfold use_fragment. rewrite E8. destruct (Z.ltb_spec (start + len) N) as [M|M]; cbn [mbind option_bind].
  - assert (VL : start + len <= L /\ len mod 8 = 0) by (destruct V as (_ & _ & _ & [V|V]); [done|lia]).
    destruct (load_field _ _ _ _ i (view_start (pkt_buff s)) Fi) as (-> & _ & _). rewrite At. cbn [mbind option_bind fst].
    destruct (use_end h0 s pre post i l l start len (total_len s) (pkt_buff s)) as (r & s' & E & O); try done; try lia.
    + exact (i_seg _ _ _ I).
    + exact (i_nonzero _ _ _ I).
    + destruct (i_total _ _ _ I); [by left|right; split; [done|lia]].
    + exists r, s', (start + (if l <? start + len then l - start else len)). split_and!; [exact E| | | |exact O];
        destruct V as (V1 & V2 & V3 & _); destruct (Z.ltb_spec l (start + len)); try lia.
      right. by replace (start + (l - start)) with l by lia.
  - assert (VL : L <= start /\ start + len = N) by (destruct V as (_ & _ & _ & [V|V]); [lia|done]).
    pose proof V as (V1 & V2 & V3 & _). rewrite (proj2 VL).
    assert (post = []) as -> by (apply N3; lia).
    destruct (shorten_spec _ _ _ _ _ _ (i_seg _ _ _ I) A HF LB N) as (b1 & -> & R); [unfold is_u16; lia|]. cbn [mbind option_bind].
    assert (HF1 : Forall (fun h => fits (pkt_buff s) h.1) (pre ++ [(i, N)])) by (rewrite Forall_app, Forall_cons in HF |- *; exact HF).
    destruct (relinked_facts _ b1 _ (pre ++ [(i, l)]) R) as (L1 & S1 & R1); [by rewrite !fmap_app|done|done|].
    assert (Fi1 : fits b1 i) by (unfold fits; by rewrite L1).
    destruct (load_field _ _ _ _ i (view_start b1) Fi1) as (-> & _ & _).
    assert (desc b1 i = (N, 0, last_of 0 pre)) as -> by (apply seg_app in S1 as [_ [S1 _]]; exact S1). cbn [mbind option_bind fst].
    destruct (use_end h0 s pre [] i N l start len (u16 N) b1) as (r & s' & E & O); try done; try lia.
    + unfold u16. rewrite Z.mod_small; lia.
    + left. unfold u16. rewrite Z.mod_small; lia.
    + rewrite (proj2 VL) in E. exists r, s', (start + (if N <? start + len then N - start else len)).
      rewrite (proj2 VL) in *. rewrite Z.ltb_irrefl in *. split_and!; [exact E|lia|lia|left; lia|exact O].
Qed.

Lemma valid_in start len : valid start len -> 0 <= start /\ start mod 8 = 0 /\ 0 < len /\ start + len <= N /\ start / 8 * 8 = start /\
  negb (Z.land len 7 =? 0) && (start + len <? N) = false.
Proof using Hhdr HL HB.
  intros (V1 & V2 & V3 & V4). pose proof (Z.div_mod start 8 ltac:(lia)). split_and!; try lia.
  destruct (Z.ltb_spec (start + len) N); [|by rewrite andb_false_r]. destruct V4 as [[_ M]|]; [|lia].
  change 7 with (Z.ones 3). rewrite Z.land_ones by lia. change (2 ^ 3) with 8. by rewrite M.
Qed.

(** Every later fragment of the datagram. *)
Lemma defrag_step h0 s hs start len : inv h0 s hs -> sub h0 4 2 = sub hdr 4 2 -> valid start len ->
  exists r s' m, __net_defragment s (frag hdr D start len) = Some (r, s') /\
    start <= m <= start + len /\ (m = start + len \/ ~ in_hole hs m) /\ outcome h0 hs start m r s'.
Proof using Hhdr HL HB.
  intros I Hid V. destruct (valid_in _ _ V) as (V1 & V2 & V3 & V4 & V5 & V6).
  destruct (frag_fields hdr D start len Hhdr ltac:(done) ltac:(lia)) as (F1 & F2 & F3 & F4).
  unfold __net_defragment. rewrite F1, F2, F3, F4, V5. unfold IP_HDR_SIZE. replace (len + 20 - 20) with len by lia. rewrite V6.
  rewrite (proj2 (Z.leb_gt _ _)), (i_length _ _ _ I), (proj2 (Z.ltb_ge _ _)) by lia.
  assert (E : ip_id (pkt_buff s) = sub hdr 4 2) by (rewrite <- Hid, <- (i_header _ _ _ I); unfold ip_id; by rewrite sub_sub by lia).
  rewrite E, bool_decide_eq_true_2 by done. rewrite (proj2 (Z.eqb_neq _ _) (i_nonzero _ _ _ I)). cbn [orb negb mbind option_bind].
  destruct (holes_fit _ _ _ I) as [HF HP]. rewrite (i_first _ _ _ I).
  assert (Fuel : (length hs <= length (pkt_buff s))%nat).
  { pose proof (ascending_count 0 L hs (i_ascending _ _ _ I)) as C. pose proof (i_length _ _ _ I).
    specialize (C ltac:(eapply Forall_impl; [exact (i_holes _ _ _ I)|]; by intros h [])). lia. }
  assert (Same : forall m, m = start -> outcome h0 hs start m None s).
  { intros m ->. exists hs. split; [|by right]. intros x _. split; [intros H; split; [done|lia]|by intros []]. }
  destruct (find_hole_spec _ _ _ start _ (i_seg _ _ _ I) (i_some _ _ _ I) HP HF Fuel) as [[-> G]|(pre & i & l & post & -> & G & Hl & ->)];
    cbn [mbind option_bind].
  - exists None, s, start. split_and!; [done|lia|lia|right|by apply Same]. intros H. apply (in_hole_below _ start) in H; [lia|].
    eapply Forall_impl; [exact G|]. cbn beta. lia.
  - pose proof (Z.div_mod (len + 7) 8 ltac:(lia)) as DM. pose proof (Z.mod_pos_bound (len + 7) 8 ltac:(lia)).
    destruct (Z.leb_spec (start / 8 + (len + 7) / 8) i) as [Hd|Hd].
    + exists None, s, start. split_and!; [done|lia|lia|right|by apply Same].
      destruct (hole_apart _ _ _ _ _ _ I start G Hl) as (_ & H' & _). apply H'. lia.
    + apply use_spec; try done. pose proof (i_ascending _ _ _ I) as A. destruct V as (_ & _ & _ & [[_ M]|[M _]]).
      * pose proof (Z.div_mod len 8 ltac:(lia)). assert ((len + 7) / 8 = len / 8) by (symmetry; apply (Z.div_unique _ _ _ 7); lia). lia.
      * pose proof (i_holes _ _ _ I) as O. rewrite Forall_app, Forall_cons in O. destruct O as (_ & [O _] & _). cbn [fst] in O. lia.
Qed.

(** ** The first fragment *)

(** Nothing of the datagram is in the buffer. *)
Definition fresh (s : reasm) : Prop :=
  Z.of_nat (length (pkt_buff s)) = B /\ (total_len s = 0 \/ ip_id (pkt_buff s) <> sub hdr 4 2).

Lemma reset_spec s p : Z.of_nat (length (pkt_buff s)) = B -> length (sub p 0 20) = 20%nat ->
  exists b, reset s p = Some (mk_reasm b 0 0xffff) /\ Z.of_nat (length b) = B /\ sub b 0 20 = sub p 0 20 /\ desc b 0 = (0xffff, 0, 0).
Proof using Hhdr HL HB.
  intros Len Lp. assert (F : fits (pkt_buff s) 0) by (unfold fits, hole_at, IP_HDR_SIZE; lia). unfold reset.
  destruct (set_last_view _ _ _ _ 0 0xffff (view_start _) F) as (b1 & -> & V1); [done|]. cbn [mbind option_bind].
  destruct (set_next_view _ _ _ _ 0 0 V1 F) as (b2 & -> & V2); [done|]. cbn [mbind option_bind].
  destruct (set_prev_view _ _ _ _ 0 0 V2 F) as (b3 & -> & V3); [done|]. cbn [mbind option_bind].
  pose proof (v_length _ _ _ _ V3) as L3. pose proof (v_desc _ _ _ _ V3 0 F) as D3. cbn in D3.
  unfold memcpy, IP_HDR_SIZE. rewrite Lp, L3, Len, !(proj2 (Z.leb_le _ _)) by lia. cbn [andb mbind option_bind].
  eexists. split_and!; [done|rewrite length_write_at; lia| |].
  - assert (E : Z.of_nat (length (sub p 0 20)) = 20) by lia. rewrite <- E at 2. apply sub_write_at_same; lia.
  - rewrite <- D3. apply desc_same; [by rewrite length_write_at|destruct F; split; [done|lia]|]. unfold hole_at, IP_HDR_SIZE.
    intros x Hx. rewrite byteat_write_at, Lp, decide_False by lia. done.
Qed.

Lemma move_first b n : desc b 0 = (65535, 0, 0) -> fits b 0 -> fits b n -> n < 65536 ->
  exists b1, move_hole b 0 0 n = Some (b1, n) /\ view b b1 (upd (desc b) n (65535, 0, 0)) [n].
Proof using Hhdr HL HB.
  intros Db F0 Fn Hn. unfold move_hole. destruct (copy_view _ _ _ _ n 0 (view_start b) Fn F0) as (b1 & -> & V). rewrite Db in V.
  cbn [mbind option_bind]. destruct (load_field _ _ _ _ n V Fn) as (_ & EN & EP). unfold upd in EN, EP.
  rewrite Z.eqb_refl in EN, EP. rewrite EN. cbn [mbind option_bind fst snd Z.eqb negb]. rewrite EP. cbn [mbind option_bind fst snd Z.eqb negb]. exists b1. split; [|done]. destruct Fn. unfold u16. by rewrite Z.mod_small by lia.
Qed.

Lemma defrag_first s len : fresh s -> 0 < len <= L -> len mod 8 = 0 ->
  exists s', __net_defragment s (frag hdr D 0 len) = Some (None, s') /\
    inv (sub (frag hdr D 0 len) 0 20) s' [(len / 8, 65535)].
Proof using Hhdr HL HB.
  intros [Len Fr] Hl M. assert (V : valid 0 len) by (unfold valid; rewrite Z.mod_0_l by done; lia).
  destruct (valid_in _ _ V) as (V1 & V2 & V3 & V4 & V5 & V6). pose proof (Z.div_mod len 8 ltac:(lia)) as DM.
  destruct (frag_fields hdr D 0 len Hhdr ltac:(done) ltac:(lia)) as (F1 & F2 & F3 & F4).
  destruct (frag_hdr hdr D 0 len Hhdr ltac:(done) ltac:(lia)) as (Lh & _).
  unfold __net_defragment. rewrite F1, F2, F3, F4, V5. unfold IP_HDR_SIZE. replace (len + 20 - 20) with len by lia. rewrite V6.
  rewrite (proj2 (Z.leb_gt _ _)), Len, (proj2 (Z.ltb_ge _ _)) by lia.
  assert ((total_len s =? 0) || negb (bool_decide (ip_id (pkt_buff s) = sub hdr 4 2)) = true) as ->.
  { apply orb_true_iff. destruct Fr as [->|Fr]; [by left|right]. by rewrite bool_decide_eq_false_2. }
  destruct (reset_spec s (frag hdr D 0 len) Len Lh) as (b & -> & Lb & Hb & Db). cbn [mbind option_bind pkt_buff first_hole].
  assert (Fz : fits b 0) by (unfold fits, hole_at, IP_HDR_SIZE; lia).
  assert (Fn : fits b (len / 8)) by (unfold fits, hole_at, IP_HDR_SIZE; lia).
  destruct (length b) as [|n] eqn:En; [lia|]. cbn [find_hole].
  destruct (load_field _ _ _ _ 0 (view_start b) Fz) as (EL & _ & _). rewrite EL, Db. cbn [mbind option_bind fst snd Z.ltb Z.compare].
  assert (L7 : 0 < (len + 7) / 8) by (apply Z.div_str_pos; lia). rewrite (proj2 (Z.leb_gt _ _)) by (rewrite Z.div_0_l; lia).
  unfold use_fragment. change (0 / 8) with 0. cbn [pkt_buff first_hole total_len Z.mul]. rewrite !Z.add_0_l.
  rewrite (proj2 (Z.ltb_lt len N)) by lia. cbn [mbind option_bind]. rewrite EL, Db. cbn [mbind option_bind fst snd].
  rewrite (proj2 (Z.ltb_ge 65535 len)) by lia. unfold fix_holes. rewrite Z.mul_0_l, !Z.add_0_l, (proj2 (Z.leb_gt 65535 len)) by lia.
  cbn [andb Z.leb Z.compare]. destruct (move_first b (len / 8) Db Fz Fn) as (b1 & -> & W1); [lia|]. cbn [mbind option_bind].
  pose proof (v_length _ _ _ _ W1) as L1. pose proof (v_desc _ _ _ _ W1 _ Fn) as D1. unfold upd in D1. rewrite Z.eqb_refl in D1.
  assert (Ld : Z.of_nat (length (sub (frag hdr D 0 len) IP_HDR_SIZE len)) = len) by (rewrite frag_data by lia; apply length_sub; lia).
  assert (W : forall x, 0 <= x -> byteat (write_at b1 20 (sub (frag hdr D 0 len) IP_HDR_SIZE len)) x =
    if decide (20 <= x < 20 + len) then byteat D (x - 20) else byteat b1 x).
  { intros x Hx. rewrite byteat_write_at, Ld by lia. case_decide; [|done]. rewrite frag_data, byteat_sub by lia. f_equal. }
  unfold memcpy. change (hole_at 0) with 20. rewrite !(proj2 (Z.leb_le _ _)) by lia. cbn [andb negb mbind option_bind].
  eexists. split; [done|]. split; cbn [pkt_buff first_hole total_len]; try done.
  - rewrite length_write_at. lia.
  - rewrite <- Hb. apply sub_ext; try (rewrite ?length_write_at; lia). intros x Hx. rewrite !Z.add_0_l, W, decide_False by lia.
    apply (v_rest _ _ _ _ W1); [lia|]. constructor; [unfold hole_at, IP_HDR_SIZE; lia|done].
  - right. apply in_hole_cons. left. lia.
  - cbn [seg head_of]. split; [|done]. rewrite <- D1. apply desc_same; [by rewrite length_write_at|destruct Fn; split; [done|lia]|].
    unfold hole_at, IP_HDR_SIZE. intros x Hx. rewrite W, decide_False by lia. done.
  - cbn [ascending]. lia.
  - constructor; [|done]. split; cbn [fst snd]; [lia|by left].
  - intros x Hx Hn. rewrite W, decide_True; [f_equal; lia| |lia]. rewrite in_hole_cons in Hn. lia.
Qed.

(** ** Sequences of fragments *)
Definition frag_of (f : Z * Z) : list Z := frag hdr D f.1 f.2.

Lemma net_frag s f : valid f.1 f.2 ->
  net_defragment s (frag_of f) = ('(r, s) ← __net_defragment s (frag_of f); Some (option_map (sub (pkt_buff s) 0) r, s)).
Proof using Hhdr HL HB.
  intros V. unfold net_defragment. destruct (valid_in _ _ V) as (V1 & V2 & V3 & V4 & V5 & V6).
  destruct (frag_fields hdr D f.1 f.2 Hhdr ltac:(done) ltac:(lia)) as (_ & _ & F3 & F4).
  rewrite (proj2 (Z.eqb_neq _ 0)); [done|]. rewrite Z.land_lor_distr_r, Z.lor_eq_0_iff. unfold frag_of. rewrite F3. intros [E1 E2].
  rewrite E2 in F4. cbn [Z.eqb negb] in F4. symmetry in F4. apply Z.ltb_ge in F4. destruct V as (_ & _ & _ & [V|V]); [lia|].
  rewrite E1 in V5. lia.
Qed.

(** A packet or an unfinished datagram, with the holes left by the fragments so far. *)
Lemma receive_step h0 s hs f : inv h0 s hs -> sub h0 4 2 = sub hdr 4 2 -> valid f.1 f.2 ->
  exists r s' hs' m, net_defragment s (frag_of f) = Some (r, s') /\ f.1 <= m <= f.1 + f.2 /\ (m = f.1 + f.2 \/ ~ in_hole hs m) /\
    (forall x, 0 <= x < N -> in_hole hs' x <-> in_hole hs x /\ ~ (f.1 <= x < m)) /\
    (hs' = [] /\ r = Some (packet h0) \/ r = None /\ inv h0 s' hs').
Proof using Hhdr HL HB.
  intros I Hid V. rewrite net_frag by done. destruct (defrag_step h0 s hs f.1 f.2 I Hid V) as (r & s' & m & E & Hm & Hm' & hs' & X & O).
  unfold frag_of. rewrite E. cbn [mbind option_bind]. exists (option_map (sub (pkt_buff s') 0) r), s', hs', m. split_and!; try done; try lia.
  destruct O as [(-> & -> & O)|[-> O]]; [left|by right]. split; [done|]. cbn [option_map]. by rewrite O.
Qed.

Lemma receive_first s len : fresh s -> 0 < len <= L -> len mod 8 = 0 -> exists s',
  net_defragment s (frag_of (0, len)) = Some (None, s') /\ inv (sub (frag_of (0, len)) 0 20) s' [(len / 8, 65535)].
Proof using Hhdr HL HB.
  intros F Hl M. rewrite net_frag by (unfold valid; cbn [fst snd]; rewrite Z.mod_0_l by done; lia). unfold frag_of. cbn [fst snd].
  destruct (defrag_first s len F Hl M) as (s' & -> & I). by exists s'.
Qed.

Lemma receive_app s ps qs : receive s (ps ++ qs) =
  '(rs, s) ← receive s ps; '(rs', s) ← receive s qs; Some (rs ++ rs', s).
Proof using.
  revert s. induction ps as [|p ps IH]; intros s; cbn [app receive mbind option_bind].
  - destruct (receive s qs) as [[? ?]|]; done.
  - destruct (net_defragment s p) as [[r s1]|]; cbn [mbind option_bind]; [|done]. rewrite IH.
    destruct (receive s1 ps) as [[rs s2]|]; cbn [mbind option_bind]; [|done]. destruct (receive s2 qs) as [[rs' s3]|]; done.
Qed.

Lemma sound_from h0 fs : sub h0 4 2 = sub hdr 4 2 -> Forall (fun f => valid f.1 f.2) fs -> forall s hs, inv h0 s hs ->
  (exists s', receive s (map frag_of fs) = Some (replicate (length fs) None, s')) \/
  (exists pre f post s', fs = pre ++ f :: post /\ receive s (map frag_of (pre ++ [f])) = Some (replicate (length pre) None ++ [Some (packet h0)], s')).
Proof using Hhdr HL HB.
  intros Hid F. induction F as [|f fs V F IH]; intros s hs I; [left; by exists s|].
  destruct (receive_step h0 s hs f I Hid V) as (r & s' & hs' & m & E & _ & _ & _ & [[_ ->]|[-> I']]).
  - right. exists [], f, fs, s'. split; [done|]. cbn [app map receive]. rewrite E. done.
  - destruct (IH s' hs' I') as [[s2 E2]|(pre & q & post & s2 & -> & E2)].
    + left. exists s2. cbn [map receive]. rewrite E. cbn [mbind option_bind]. rewrite E2. done.
    + right. exists (f :: pre), q, post, s2. split; [done|]. cbn [app map receive]. rewrite E. cbn [mbind option_bind].
      rewrite E2. done.
Qed.

End Datagram.

(** ** Pieces of a datagram *)
Fixpoint cut (from : Z) (ps : list (Z * Z)) (to : Z) : Prop :=
  match ps with
  | [] => from = to
  | (start, len) :: ps => start = from /\ 0 < len /\ len mod 8 = 0 /\ cut (from + len) ps to
  end.

Definition within (f : Z * Z) (x : Z) : Prop := f.1 <= x < f.1 + f.2.

Lemma cut_in from ps to f : cut from ps to -> from mod 8 = 0 -> f ∈ ps ->
  from <= f.1 /\ 0 < f.2 /\ f.1 + f.2 <= to /\ f.1 mod 8 = 0 /\ f.2 mod 8 = 0.
Proof.
  revert from. induction ps as [|[a n] ps IH]; intros from C M H; [by apply elem_of_nil in H|]. destruct C as (-> & C1 & C2 & C3).
  assert (M' : (from + n) mod 8 = 0) by (rewrite Z.add_mod, M, C2 by done; done).
  assert (G : from + n <= to).
  { clear - C3. revert C3. generalize (from + n). induction ps as [|[a n'] ps IH]; intros g C3; [cbn in C3; lia|].
    destruct C3 as (-> & ? & ? & C3). apply IH in C3. lia. }
  apply elem_of_cons in H as [->|H]; [cbn [fst snd]; lia|]. destruct (IH _ C3 M' H) as (? & ? & ? & ? & ?). split_and!; try done. lia.
Qed.

Lemma cut_cover from ps to x : cut from ps to -> from <= x < to -> exists f, f ∈ ps /\ within f x.
Proof.
  revert from. induction ps as [|[a n] ps IH]; intros from C H; [cbn in C; lia|]. destruct C as (-> & C1 & C2 & C3).
  destruct (Z_lt_le_dec x (from + n)) as [Hx|Hx]; [exists (from, n); split; [left|unfold within; cbn [fst snd]; lia]|].
  destruct (IH _ C3) as (f & Hf & W); [lia|]. exists f. split; [by right|done].
Qed.

Lemma cut_disjoint from ps to f g x : cut from ps to -> from mod 8 = 0 -> f ∈ ps -> g ∈ ps -> within f x -> within g x -> f = g.
Proof.
  unfold within. revert from. induction ps as [|[a n] ps IH]; intros from C M Hf Hg Wf Wg; [by apply elem_of_nil in Hf|].
  destruct C as (-> & C1 & C2 & C3). assert (M' : (from + n) mod 8 = 0) by (rewrite Z.add_mod, M, C2 by done; done).
  apply elem_of_cons in Hf as [->|Hf], Hg as [->|Hg]; [done| | |by apply (IH (from + n))]; cbn [fst snd] in *.
  - destruct (cut_in _ _ _ _ C3 M' Hg). lia.
  - destruct (cut_in _ _ _ _ C3 M' Hf). lia.
Qed.

Section Pieces.
Context (hdr D : list Z) (B L : Z) (ps : list (Z * Z)).
Local Abbreviation N := (Z.of_nat (length D)).
Hypothesis Hhdr : length hdr = 20%nat.
Hypothesis HL : 0 < L < N /\ L mod 8 = 0 /\ L + 28 <= B /\ N + 20 <= B.
Hypothesis HB : B <= 65536 /\ N <= 65515.
Hypothesis HC : cut 0 ps L.

Definition pieces : list (Z * Z) := ps ++ [(L, N - L)].

Lemma piece_valid f : f ∈ pieces -> valid D L f.1 f.2.
Proof using Hhdr HL HB HC.
  unfold pieces, valid. intros [H|[->|H]%elem_of_cons]%elem_of_app; [|cbn [fst snd]; lia|by apply elem_of_nil in H].
  destruct (cut_in _ _ _ _ HC eq_refl H) as (? & ? & ? & ? & ?). split_and!; try done. by left.
Qed.

Lemma piece_cover x : 0 <= x < N -> exists f, f ∈ pieces /\ within f x.
Proof using Hhdr HL HB HC.
  intros Hx. unfold pieces. destruct (Z_lt_le_dec x L) as [H|H].
  - destruct (cut_cover _ _ _ x HC) as (f & Hf & W); [lia|]. exists f. split; [apply elem_of_app; by left|done].
  - exists (L, N - L). split; [apply elem_of_app; right; left|unfold within; cbn [fst snd]; lia].
Qed.

Lemma piece_disjoint f g x : f ∈ pieces -> g ∈ pieces -> within f x -> within g x -> f = g.
Proof using Hhdr HL HB HC.
  unfold pieces. intros [Hf|[->|Hf]%elem_of_cons]%elem_of_app [Hg|[->|Hg]%elem_of_cons]%elem_of_app Wf Wg;
    try (by apply elem_of_nil in Hf); try (by apply elem_of_nil in Hg); [by apply (cut_disjoint 0 ps L f g x)| | |done]; unfold within in *; cbn [fst snd] in *.
  - destruct (cut_in _ _ _ _ HC eq_refl Hf) as (_ & _ & ? & _). lia.
  - destruct (cut_in _ _ _ _ HC eq_refl Hg) as (_ & _ & ? & _). lia.
Qed.

(** The holes are what the fragments [got] have not filled. *)
Definition holes_of (got : list (Z * Z)) (hs : list (Z * Z)) : Prop :=
  forall x, 0 <= x < N -> in_hole hs x <-> ~ exists f, f ∈ got /\ within f x.

Lemma piece_step h0 s hs got f : inv D B L h0 s hs -> sub h0 4 2 = sub hdr 4 2 -> holes_of got hs ->
  Forall (fun g => g ∈ pieces) got -> f ∈ pieces ->
  exists r s', net_defragment s (frag_of hdr D f) = Some (r, s') /\
    ((forall g, g ∈ pieces -> g ∈ f :: got) /\ r = Some (packet D h0) \/
     ~ (forall g, g ∈ pieces -> g ∈ f :: got) /\ r = None /\ exists hs', inv D B L h0 s' hs' /\ holes_of (f :: got) hs').
Proof using Hhdr HL HB HC.
  intros I Hid G Hg Hf. destruct (receive_step hdr D B L Hhdr HL HB h0 s hs f I Hid (piece_valid f Hf)) as (r & s' & hs' & m & E & Hm & Hm' & X & O).
  exists r, s'. split; [done|]. pose proof (piece_valid f Hf) as (V1 & _ & V3 & V4).
  assert (G' : holes_of (f :: got) hs').
  { intros x Hx. rewrite (X x Hx), (G x Hx). setoid_rewrite elem_of_cons. split.
    - intros [N1 N2] (g & [->|Hg'] & W); [|apply N1; by exists g]. apply N2. unfold within in W. destruct Hm' as [->|Hm']; [lia|].
      destruct (Z_lt_le_dec x m) as [|Hxm]; [lia|]. exfalso. apply Hm', G; [lia|]. intros (g & Hg' & Wg).
      rewrite Forall_forall in Hg. assert (f = g) as -> by (apply (piece_disjoint f g m); [done|by apply Hg|unfold within; lia|done]).
      apply N1. exists g. by split.
    - intros N1. split; [intros (g & Hg' & W); apply N1; exists g; auto|]. intros W. apply N1. exists f. split; [by left|]. unfold within. lia. }
  destruct O as [[-> ->]|[-> I']].
  - left. split; [|done]. intros g Hg'. destruct (decide (g ∈ f :: got)) as [|Ng]; [done|exfalso]. pose proof (piece_valid g Hg') as (W1 & _ & W3 & W4).
    assert (Hh : in_hole [] g.1); [|by apply Exists_nil in Hh]. apply G'; [lia|]. intros (q & Hq & Wq). apply Ng.
    rewrite Forall_forall in Hg. assert (q = g) as <-; [|done]. apply (piece_disjoint q g g.1); [|done|done|unfold within; lia].
    apply elem_of_cons in Hq as [->|Hq]; [done|by apply Hg].
  - right. split_and!; [|done|by exists hs']. intros A. pose proof (i_some _ _ _ _ _ _ I') as Ne. pose proof (i_holes _ _ _ _ _ _ I') as O.
    pose proof (ascending_Forall _ _ (i_ascending _ _ _ _ _ _ I')) as As. destruct hs' as [|[i l] hs']; [done|].
    apply Forall_cons in O as [[O _] _]. apply Forall_cons in As as [As _]. cbn [fst snd] in *.
    destruct (piece_cover (8 * i) ltac:(lia)) as (g & Hg' & W). apply (G' (8 * i) ltac:(lia)); [apply in_hole_cons; left; lia|].
    exists g. split; [by apply A|done].
Qed.

Lemma pieces_from h0 rest q : sub h0 4 2 = sub hdr 4 2 -> Forall (fun f => f ∈ pieces) rest -> q ∈ pieces ->
  forall s hs got, inv D B L h0 s hs -> holes_of got hs -> Forall (fun g => g ∈ pieces) got ->
  q ∉ rest -> q ∉ got -> (forall g, g ∈ pieces -> g ∈ rest \/ g = q \/ g ∈ got) ->
  exists s', receive s (map (frag_of hdr D) (rest ++ [q])) = Some (replicate (length rest) None ++ [Some (packet D h0)], s').
Proof using Hhdr HL HB HC.
  intros Hid F Hq. induction F as [|f rest Hf F IH]; intros s hs got I G Hg N1 N2 A; cbn [app map receive].
  - destruct (piece_step h0 s hs got q I Hid G Hg Hq) as (r & s' & -> & [[_ ->]|(C & _)]); cbn [mbind option_bind]; [by exists s'|].
    exfalso. apply C. intros g Hg'. apply elem_of_cons. destruct (A g Hg') as [H|[->|H]]; [by apply elem_of_nil in H|auto|auto].
  - apply not_elem_of_cons in N1 as [N0 N1].
    destruct (piece_step h0 s hs got f I Hid G Hg Hf) as (r & s' & -> & [[C _]|(_ & -> & hs' & I' & G')]); cbn [mbind option_bind].
    { exfalso. destruct (elem_of_cons got q f) as [[->|?] _]; [by apply C|done|done]. }
    destruct (IH s' hs' (f :: got) I' G') as (s2 & E2); try done.
    { by constructor. }
    { by apply not_elem_of_cons. }
    { intros g Hg'. destruct (A g Hg') as [[->|H]%elem_of_cons|[->|H]]; rewrite ?elem_of_cons; auto. }
    exists s2. rewrite E2. done.
Qed.

End Pieces.

(** The datagram fits the buffer, and so does a descriptor before its last piece. *)
Definition room (D : list Z) (L : Z) (s : reasm) : Prop :=
  let N := Z.of_nat (length D) in let B := Z.of_nat (length (pkt_buff s)) in
  0 < L < N /\ L mod 8 = 0 /\ N <= 65515 /\ N + 20 <= B <= 65536 /\ L + 28 <= B.

(** The packet that is handed on: the header of the first fragment with the whole
    length, and the data. *)
Definition datagram (hdr D : list Z) (len0 : Z) : list Z := packet D (sub (frag_of hdr D (0, len0)) 0 20).

Lemma first_header hdr D L s len0 : length hdr = 20%nat -> room D L s -> 0 < len0 <= L ->
  sub (sub (frag_of hdr D (0, len0)) 0 20) 4 2 = sub hdr 4 2.
Proof. intros Hh (R1 & R2 & R3 & R4 & R5) Hl. apply frag_hdr; cbn [fst snd]; split_and?; try done; lia. Qed.

(** C8: reassembly.  When the first fragment of a datagram arrives first, the
    others can follow in any order and any number of times: nothing is handed on
    until the last missing one arrives, and then exactly the datagram is.  All
    accesses stay in the buffer, which must have room for the datagram and for a
    descriptor where the last fragment begins ([room]). *)
Theorem reassembly_complete hdr D s len0 L ps rest q :
  let all := (0, len0) :: ps ++ [(L, Z.of_nat (length D) - L)] in
  length hdr = 20%nat -> room D L s -> total_len s = 0 \/ ip_id (pkt_buff s) <> ip_id hdr ->
  cut 0 ((0, len0) :: ps) L -> Forall (fun f => f ∈ all) rest -> q ∈ all -> q ∉ (0, len0) :: rest ->
  (forall f, f ∈ all -> f ∈ (0, len0) :: rest ++ [q]) ->
  exists s', receive s (map (frag_of hdr D) ((0, len0) :: rest ++ [q])) =
    Some (replicate (S (length rest)) None ++ [Some (datagram hdr D len0)], s').
Proof.
  intros all Hh R Fr C Fa Hq Nq A. pose proof R as (R1 & R2 & R3 & R4 & R5). cbn [map receive].
  destruct (cut_in 0 _ L (0, len0) C eq_refl ltac:(left)) as (_ & C1 & C2 & _ & C3). cbn [fst snd] in *.
  set (B := Z.of_nat (length (pkt_buff s))) in *.
  destruct (receive_first hdr D B L Hh ltac:(lia) ltac:(lia) s len0) as (s' & -> & I); [by split|lia|done|]. cbn [mbind option_bind].
  apply not_elem_of_cons in Nq as [N1 N2].
  destruct (pieces_from hdr D B L ((0, len0) :: ps) Hh ltac:(lia) ltac:(lia) C (sub (frag_of hdr D (0, len0)) 0 20) rest q) with (s := s') (hs := [(len0 / 8, 65535)]) (got := [(0, len0)])
    as (s2 & E2); try done.
  - apply (first_header hdr D L s len0 Hh R). lia.
  - intros x Hx. rewrite in_hole_cons. pose proof (Z.div_mod len0 8 ltac:(lia)). split.
    + intros [H'|H'] (f & Hf & W); [|by apply Exists_nil in H']. apply list_elem_of_singleton in Hf as ->. unfold within in W. cbn [fst snd] in W. lia.
    + intros H'. left. destruct (Z_lt_le_dec x len0); [|lia]. exfalso. apply H'. exists (0, len0). split; [left|unfold within; cbn [fst snd]; lia].
  - constructor; [left|done].
  - by intros [->|Hn%elem_of_nil]%elem_of_cons.
  - intros g Hg. specialize (A g Hg). rewrite elem_of_cons, elem_of_app, list_elem_of_singleton in A.
    destruct A as [-> | [H' | ->]]; [right; right; left|by left|by right; left].
  - exists s2. by rewrite E2.
Qed.

(** C24: fragments that overlap.  When the first fragment of a datagram arrives
    first and pieces of the datagram follow, overlapping or repeated, none of
    those before the last part reaching into it, then, up to and with the first
    packet that is handed on, no access leaves the buffer, and that packet is the
    datagram.  The buffer has the room of [room]. *)
Theorem reassembly_sound hdr D s len0 L fs :
  length hdr = 20%nat -> room D L s -> total_len s = 0 \/ ip_id (pkt_buff s) <> ip_id hdr ->
  0 < len0 <= L -> len0 mod 8 = 0 -> Forall (fun f => valid D L f.1 f.2) fs ->
  (exists s', receive s (map (frag_of hdr D) ((0, len0) :: fs)) = Some (replicate (S (length fs)) None, s')) \/
  (exists pre f post s', fs = pre ++ f :: post /\
    receive s (map (frag_of hdr D) ((0, len0) :: pre ++ [f])) = Some (replicate (S (length pre)) None ++ [Some (datagram hdr D len0)], s')).
Proof.
  intros Hh R Fr Hl M V. pose proof R as (R1 & R2 & R3 & R4 & R5). cbn [map receive]. set (B := Z.of_nat (length (pkt_buff s))) in *.
  destruct (receive_first hdr D B L Hh ltac:(lia) ltac:(lia) s len0) as (s' & -> & I); [by split|lia|done|]. cbn [mbind option_bind].
  destruct (sound_from hdr D B L Hh ltac:(lia) ltac:(lia) _ fs (first_header hdr D L s len0 Hh R Hl) V s' _ I) as [[s2 ->]|(pre & f & post & s2 & -> & E)].
  - left. by exists s2.
  - right. exists pre, f, post, s2. split; [done|]. by rewrite E.
Qed.

(** ** Examples *)
Definition sample_hdr : list Z := [69; 0; 0; 0; 18; 52; 0; 0; 64; 17; 0; 0; 10; 0; 0; 1; 10; 0; 0; 2].
Definition sample_data : list Z := map Z.of_nat (seq 100 40).
Definition empty : reasm := mk_reasm (replicate 1024 0) 0 0.
Definition sample (fs : list (Z * Z)) : list (list Z) := map (frag_of sample_hdr sample_data) fs.

Lemma reassembly_complete_witness : exists s', receive empty (sample [(0, 16); (24, 16); (24, 16); (16, 8)]) =
  Some (replicate 3 None ++ [Some (datagram sample_hdr sample_data 16)], s').
Proof.
  refine (reassembly_complete sample_hdr sample_data empty 16 24 [(16, 8)] [(24, 16); (24, 16)] (16, 8) _ _ _ _ _ _ _ _).
  - done.
  - by vm_compute.
  - by left.
  - by vm_compute.
  - apply Forall_forall. intros f. rewrite !elem_of_cons, elem_of_nil. cbn [app]. rewrite !elem_of_cons. tauto.
  - cbn [app]. rewrite !elem_of_cons. tauto.
  - rewrite !elem_of_cons, elem_of_nil. by intros [?|[?|[?|?]]].
  - intros f. cbn [app]. rewrite !elem_of_cons, elem_of_nil. tauto.
Defined.

Lemma reassembly_sound_witness : let fs := [(8, 16); (24, 16); (16, 8)] in
  (exists s', receive empty (sample ((0, 16) :: fs)) = Some (replicate 4 None, s')) \/
  (exists pre f post s', fs = pre ++ f :: post /\ receive empty (sample ((0, 16) :: pre ++ [f])) =
    Some (replicate (S (length pre)) None ++ [Some (datagram sample_hdr sample_data 16)], s')).
Proof.
  refine (reassembly_sound sample_hdr sample_data empty 16 24 [(8, 16); (24, 16); (16, 8)] _ _ _ _ _ _).
  - done.
  - by vm_compute.
  - by left.
  - lia.
  - done.
  - repeat (apply Forall_cons_2; [vm_compute; intuition congruence|]). apply Forall_nil_2.
Defined.

(** ** Limits of the code *)

(** A descriptor's 0 for no hole before it is also the index of the first one: when
    the first fragment comes last, the datagram is handed on before it is there. *)
Lemma first_fragment_last : exists p s', receive empty (sample [(16, 8); (24, 16)]) = Some ([None; Some p], s') /\
  sub p 20 16 <> sub sample_data 0 16.
Proof. eexists _, _. split; [vm_compute; reflexivity|by vm_compute]. Qed.

(** After a complete packet the descriptors are data, but still used: a repeated
    fragment leads outside the buffer. *)
Lemma repeated_after_packet : (exists r s', receive empty (sample [(0, 16); (16, 8); (24, 16)]) = Some (r, s')) /\
  receive empty (sample [(0, 16); (16, 8); (24, 16); (24, 16)]) = None.
Proof. split; [eexists _, _; vm_compute; reflexivity|by vm_compute]. Qed.

(** A last fragment that covers a later hole overwrites its descriptor. *)
Lemma tail_over_hole : (exists r s', receive empty (sample [(16, 8); (8, 32)]) = Some (r, s')) /\
  receive empty (sample [(16, 8); (8, 32); (24, 8)]) = None.
Proof. split; [eexists _, _; vm_compute; reflexivity|by vm_compute]. Qed.

(** A fragment that ends within 8 bytes of the end of the buffer puts a descriptor
    across it. *)
Lemma descriptor_past_end : receive empty [frag sample_hdr (replicate 1004 7) 0 1000] = None.
Proof. by vm_compute. Qed.

End Reassembly.
