(* ===== verification/Tftp.v ===== *)
(** * The TFTP client (net/tftp.c)

    Loading a file from a server and saving one to it: the handler of received
    packets, the timeouts and the packets that are sent.  The variables of the
    file are the record [tftp], memory is a function from addresses to bytes, sent
    packets are collected with their port.  IPv4 only; progress marks, LEDs and
    the timer itself are left out, and what the handler does not return from,
    [net_start_again], ends the run. *)

From S2P Require Import Prelude Bytes Hashtable EnvAttr Strto Printf Lmb.
Local Open Scope uboot_scope.
Local Open Scope Z_scope.

Module Tftp.
Import Ctype Strto.

Definition WELL_KNOWN_PORT : Z := 69.
Definition TIMEOUT : Z := 5000.

Definition TFTP_RRQ : Z := 1.
Definition TFTP_WRQ : Z := 2.
Definition TFTP_DATA : Z := 3.
Definition TFTP_ACK : Z := 4.
Definition TFTP_ERROR : Z := 5.
Definition TFTP_OACK : Z := 6.

Definition TFTP_ERR_FILE_NOT_FOUND : Z := 1.
Definition TFTP_ERR_ACCESS_DENIED : Z := 2.
Definition TFTP_ERR_OPTION_NEGOTIATION : Z := 8.

Definition STATE_SEND_RRQ : Z := 1.
Definition STATE_DATA : Z := 2.
Definition STATE_TOO_LARGE : Z := 3.
Definition STATE_BAD_MAGIC : Z := 4.
Definition STATE_OACK : Z := 5.
Definition STATE_RECV_WRQ : Z := 6.
Definition STATE_SEND_WRQ : Z := 7.
Definition STATE_INVALID_OPTION : Z := 8.

Definition ICMP_NOT_REACH : Z := 3.
Definition ICMP_NOT_REACH_PORT : Z := 3.

Definition TFTP_BLOCK_SIZE : Z := 512.
Definition TFTP_SEQUENCE_SIZE : Z := 65536.

Inductive net_loop_state := NETLOOP_CONTINUE | NETLOOP_RESTART | NETLOOP_SUCCESS | NETLOOP_FAIL.

(** What loading asks of the memory map: 0 if the range may be overwritten. *)
Class LoadCheck (M : Type) := lmb_read_check : M -> Z -> Z -> Z * M.

(** The memory blocks of Lmb.v answer it. *)
#[export] Instance lmb_load_check (malloc : Z -> bool) (efi : bool) (notify : Z -> Z -> Lmb.lmb_map_op -> Z -> Z) :
    LoadCheck Lmb.lmb :=
  fun s addr len => Lmb.lmb_alloc_addr malloc efi notify s addr len Lmb.LMB_NONE.

(** What is chosen before the transfer. *)
Record options := mk_options {
  load_addr : Z; put_active : bool; block_size_option : Z; window_size_option : Z; timeout_ms : Z;
  tftp_timeout_count_max : Z; filename : list Z; image_save_addr : Z }.

(** Whether [net_start_again] tries again, by the variable [netretry]. *)
Definition try_again (netretry : option (list Z)) (net_try_count : Z) : bool :=
  let same (t : list Z) (l : String.string) := bool_decide (t = EnvAttr.lit l) in
  match netretry with
  | Some t =>
    if same t "yes"%string then true
    else negb ((if same t "no"%string then 0 else if same t "once"%string then 1 else (simple_strtoul t 0).1) <? net_try_count)
  | None => negb (0 <? net_try_count)
  end.

Section Client.
(** The memory map, and CONFIG_LMB, CONFIG_TFTP_TSIZE, CONFIG_CMD_TFTPSRV. *)
Context {M : Type} `{LoadCheck M} (LMB TSIZE SRV : bool).
(** What [try_again] answers, and the port that is drawn. *)
Context (retry : bool) (random_port : Z).

Record tftp := mk_tftp {
  opt : options; remote_port : Z; our_port : Z; timeout_count : Z; timeout_count_max : Z;
  cur_block : Z; prev_block : Z; block_wrap : Z; block_wrap_offset : Z; state : Z; tsize : Z;
  windowsize : Z; next_ack : Z; last_nack : Z; put_final_block_sent : bool; block_size : Z;
  net_boot_file_size : Z; net_state : net_loop_state; mem : Z -> Z; lmb : M;
  sent : list (Z * list Z) }.

Definition set_remote_port (v : Z) (s : tftp) : tftp :=
  mk_tftp (opt s) v (our_port s) (timeout_count s) (timeout_count_max s) (cur_block s) (prev_block s) (block_wrap s)
    (block_wrap_offset s) (state s) (tsize s) (windowsize s) (next_ack s) (last_nack s) (put_final_block_sent s)
    (block_size s) (net_boot_file_size s) (net_state s) (mem s) (lmb s) (sent s).
Definition set_our_port (v : Z) (s : tftp) : tftp :=
  mk_tftp (opt s) (remote_port s) v (timeout_count s) (timeout_count_max s) (cur_block s) (prev_block s) (block_wrap s)
    (block_wrap_offset s) (state s) (tsize s) (windowsize s) (next_ack s) (last_nack s) (put_final_block_sent s)
    (block_size s) (net_boot_file_size s) (net_state s) (mem s) (lmb s) (sent s).
Definition set_timeout_count (v : Z) (s : tftp) : tftp :=
  mk_tftp (opt s) (remote_port s) (our_port s) v (timeout_count_max s) (cur_block s) (prev_block s) (block_wrap s)
    (block_wrap_offset s) (state s) (tsize s) (windowsize s) (next_ack s) (last_nack s) (put_final_block_sent s)
    (block_size s) (net_boot_file_size s) (net_state s) (mem s) (lmb s) (sent s).
Definition set_timeout_count_max (v : Z) (s : tftp) : tftp :=
  mk_tftp (opt s) (remote_port s) (our_port s) (timeout_count s) v (cur_block s) (prev_block s) (block_wrap s)
    (block_wrap_offset s) (state s) (tsize s) (windowsize s) (next_ack s) (last_nack s) (put_final_block_sent s)
    (block_size s) (net_boot_file_size s) (net_state s) (mem s) (lmb s) (sent s).
Definition set_cur_block (v : Z) (s : tftp) : tftp :=
  mk_tftp (opt s) (remote_port s) (our_port s) (timeout_count s) (timeout_count_max s) v (prev_block s) (block_wrap s)
    (block_wrap_offset s) (state s) (tsize s) (windowsize s) (next_ack s) (last_nack s) (put_final_block_sent s)
    (block_size s) (net_boot_file_size s) (net_state s) (mem s) (lmb s) (sent s).
Definition set_prev_block (v : Z) (s : tftp) : tftp :=
  mk_tftp (opt s) (remote_port s) (our_port s) (timeout_count s) (timeout_count_max s) (cur_block s) v (block_wrap s)
    (block_wrap_offset s) (state s) (tsize s) (windowsize s) (next_ack s) (last_nack s) (put_final_block_sent s)
    (block_size s) (net_boot_file_size s) (net_state s) (mem s) (lmb s) (sent s).
Definition set_block_wrap (v : Z) (s : tftp) : tftp :=
  mk_tftp (opt s) (remote_port s) (our_port s) (timeout_count s) (timeout_count_max s) (cur_block s) (prev_block s) v
    (block_wrap_offset s) (state s) (tsize s) (windowsize s) (next_ack s) (last_nack s) (put_final_block_sent s)
    (block_size s) (net_boot_file_size s) (net_state s) (mem s) (lmb s) (sent s).
Definition set_block_wrap_offset (v : Z) (s : tftp) : tftp :=
  mk_tftp (opt s) (remote_port s) (our_port s) (timeout_count s) (timeout_count_max s) (cur_block s) (prev_block s)
    (block_wrap s) v (state s) (tsize s) (windowsize s) (next_ack s) (last_nack s) (put_final_block_sent s)
    (block_size s) (net_boot_file_size s) (net_state s) (mem s) (lmb s) (sent s).
Definition set_state (v : Z) (s : tftp) : tftp :=
  mk_tftp (opt s) (remote_port s) (our_port s) (timeout_count s) (timeout_count_max s) (cur_block s) (prev_block s)
    (block_wrap s) (block_wrap_offset s) v (tsize s) (windowsize s) (next_ack s) (last_nack s) (put_final_block_sent s)
    (block_size s) (net_boot_file_size s) (net_state s) (mem s) (lmb s) (sent s).
Definition set_tsize (v : Z) (s : tftp) : tftp :=
  mk_tftp (opt s) (remote_port s) (our_port s) (timeout_count s) (timeout_count_max s) (cur_block s) (prev_block s)
    (block_wrap s) (block_wrap_offset s) (state s) v (windowsize s) (next_ack s) (last_nack s) (put_final_block_sent s)
    (block_size s) (net_boot_file_size s) (net_state s) (mem s) (lmb s) (sent s).
Definition set_windowsize (v : Z) (s : tftp) : tftp :=
  mk_tftp (opt s) (remote_port s) (our_port s) (timeout_count s) (timeout_count_max s) (cur_block s) (prev_block s)
    (block_wrap s) (block_wrap_offset s) (state s) (tsize s) v (next_ack s) (last_nack s) (put_final_block_sent s)
    (block_size s) (net_boot_file_size s) (net_state s) (mem s) (lmb s) (sent s).
Definition set_next_ack (v : Z) (s : tftp) : tftp :=
  mk_tftp (opt s) (remote_port s) (our_port s) (timeout_count s) (timeout_count_max s) (cur_block s) (prev_block s)
    (block_wrap s) (block_wrap_offset s) (state s) (tsize s) (windowsize s) v (last_nack s) (put_final_block_sent s)
    (block_size s) (net_boot_file_size s) (net_state s) (mem s) (lmb s) (sent s).
Definition set_last_nack (v : Z) (s : tftp) : tftp :=
  mk_tftp (opt s) (remote_port s) (our_port s) (timeout_count s) (timeout_count_max s) (cur_block s) (prev_block s)
    (block_wrap s) (block_wrap_offset s) (state s) (tsize s) (windowsize s) (next_ack s) v (put_final_block_sent s)
    (block_size s) (net_boot_file_size s) (net_state s) (mem s) (lmb s) (sent s).
Definition set_put_final_block_sent (v : bool) (s : tftp) : tftp :=
  mk_tftp (opt s) (remote_port s) (our_port s) (timeout_count s) (timeout_count_max s) (cur_block s) (prev_block s)
    (block_wrap s) (block_wrap_offset s) (state s) (tsize s) (windowsize s) (next_ack s) (last_nack s) v (block_size s)
    (net_boot_file_size s) (net_state s) (mem s) (lmb s) (sent s).
Definition set_block_size (v : Z) (s : tftp) : tftp :=
  mk_tftp (opt s) (remote_port s) (our_port s) (timeout_count s) (timeout_count_max s) (cur_block s) (prev_block s)
    (block_wrap s) (block_wrap_offset s) (state s) (tsize s) (windowsize s) (next_ack s) (last_nack s)
    (put_final_block_sent s) v (net_boot_file_size s) (net_state s) (mem s) (lmb s) (sent s).
Definition set_net_boot_file_size (v : Z) (s : tftp) : tftp :=
  mk_tftp (opt s) (remote_port s) (our_port s) (timeout_count s) (timeout_count_max s) (cur_block s) (prev_block s)
    (block_wrap s) (block_wrap_offset s) (state s) (tsize s) (windowsize s) (next_ack s) (last_nack s)
    (put_final_block_sent s) (block_size s) v (net_state s) (mem s) (lmb s) (sent s).
Definition set_net_state (v : net_loop_state) (s : tftp) : tftp :=
  mk_tftp (opt s) (remote_port s) (our_port s) (timeout_count s) (timeout_count_max s) (cur_block s) (prev_block s)
    (block_wrap s) (block_wrap_offset s) (state s) (tsize s) (windowsize s) (next_ack s) (last_nack s)
    (put_final_block_sent s) (block_size s) (net_boot_file_size s) v (mem s) (lmb s) (sent s).
Definition set_mem (v : Z -> Z) (s : tftp) : tftp :=
  mk_tftp (opt s) (remote_port s) (our_port s) (timeout_count s) (timeout_count_max s) (cur_block s) (prev_block s)
    (block_wrap s) (block_wrap_offset s) (state s) (tsize s) (windowsize s) (next_ack s) (last_nack s)
    (put_final_block_sent s) (block_size s) (net_boot_file_size s) (net_state s) v (lmb s) (sent s).
Definition set_lmb (v : M) (s : tftp) : tftp :=
  mk_tftp (opt s) (remote_port s) (our_port s) (timeout_count s) (timeout_count_max s) (cur_block s) (prev_block s)
    (block_wrap s) (block_wrap_offset s) (state s) (tsize s) (windowsize s) (next_ack s) (last_nack s)
    (put_final_block_sent s) (block_size s) (net_boot_file_size s) (net_state s) (mem s) v (sent s).
Definition set_sent (v : list (Z * list Z)) (s : tftp) : tftp :=
  mk_tftp (opt s) (remote_port s) (our_port s) (timeout_count s) (timeout_count_max s) (cur_block s) (prev_block s)
    (block_wrap s) (block_wrap_offset s) (state s) (tsize s) (windowsize s) (next_ack s) (last_nack s)
    (put_final_block_sent s) (block_size s) (net_boot_file_size s) (net_state s) (mem s) (lmb s) v.

(** The switch to another network device, which may come with a pause, is left out. *)
Definition net_start_again (s : tftp) : tftp := set_net_state (if retry then NETLOOP_RESTART else NETLOOP_FAIL) s.

(** [(short)] *)
Definition s16 (x : Z) : Z := if u16 x <? 32768 then u16 x else u16 x - 65536.

(** ** Blocks and memory *)
Definition store_bytes (m : Z -> Z) (addr : Z) (src : list Z) : Z -> Z :=
  fun a => if (addr <=? a) && (a <? addr + Z.of_nat (length src)) then byteat src (a - addr) else m a.
Definition load_bytes (m : Z -> Z) (addr n : Z) : list Z :=
  map (fun i => m (addr + Z.of_nat i)) (seq 0 (Z.to_nat n)).

(** [block * tftp_block_size] is an [int] product. *)
Definition store_block (block : Z) (src : list Z) (s : tftp) : Z * tftp :=
  let len := Z.of_nat (length src) in
  let offset := u64 (s32 (block * block_size s) + block_wrap_offset s - block_size s) in
  let newsize := offset +64 len in
  let store_addr := load_addr (opt s) +64 offset in
  let '(refused, s) :=
    if LMB then
      if store_addr <? load_addr (opt s) then (true, s)
      else let '(ret, m) := lmb_read_check (lmb s) store_addr len in (negb (ret =? 0), set_lmb m s)
    else (false, s) in
  if refused then (-1, s)
  else
    let s := set_mem (store_bytes (mem s) store_addr src) s in
    let s := if net_boot_file_size s <? newsize then set_net_boot_file_size (u32 newsize) s else s in
    (0, s).

Definition new_transfer (s : tftp) : tftp :=
  set_put_final_block_sent false (set_block_wrap_offset 0 (set_block_wrap 0 (set_prev_block 0 s))).

(** Here the product is unsigned. *)
Definition load_block (block len : Z) (s : tftp) : list Z :=
  let offset := u64 (u32 (block * block_size s) + block_wrap_offset s - block_size s) in
  let tosend := Z.min (net_boot_file_size s -64 offset) len in
  load_bytes (mem s) (image_save_addr (opt s) +64 offset) tosend.

Definition update_block_number (s : tftp) : tftp :=
  if (cur_block s =? 0) && negb (prev_block s =? 0) then
    let s := set_block_wrap (block_wrap s +64 1) s in
    let s := set_block_wrap_offset (block_wrap_offset s +64 block_size s * TFTP_SEQUENCE_SIZE) s in
    set_timeout_count 0 s
  else s.

Definition tftp_complete (s : tftp) : tftp := set_net_state NETLOOP_SUCCESS s.

(** ** Sending *)
Definition net_send_udp_packet (pkt : list Z) (s : tftp) : tftp := set_sent (sent s ++ [(remote_port s, pkt)]) s.
Definition text (t : String.string) : list Z := EnvAttr.lit t ++ [0].
Definition number (n : Z) : list Z := Printf.print_number 10 0 n ++ [0].

Definition request (s : tftp) : list Z :=
  be_bytes 2 (if state s =? STATE_SEND_RRQ then TFTP_RRQ else TFTP_WRQ) ++ filename (opt s) ++ [0] ++
  text "octet" ++ text "timeout" ++ number (timeout_ms (opt s) / 1000) ++
  (if TSIZE then text "tsize" ++ number (net_boot_file_size s) else []) ++
  text "blksize" ++ number (block_size_option (opt s)) ++
  (if (state s =? STATE_SEND_RRQ) && (1 <? window_size_option (opt s))
   then text "windowsize" ++ number (window_size_option (opt s)) else []).

Definition tftp_send (s : tftp) : tftp :=
  let st := state s in
  if (st =? STATE_SEND_RRQ) || (st =? STATE_SEND_WRQ) then net_send_udp_packet (request s) s
  else if (st =? STATE_OACK) || (st =? STATE_RECV_WRQ) || (st =? STATE_DATA) then
    if put_active (opt s) then
      let toload := block_size s in
      let data := load_block (u32 (cur_block s)) toload s in
      let s := set_put_final_block_sent (Z.of_nat (length data) <? toload) s in
      net_send_udp_packet (be_bytes 2 TFTP_DATA ++ be_bytes 2 (cur_block s) ++ data) s
    else net_send_udp_packet (be_bytes 2 TFTP_ACK ++ be_bytes 2 (cur_block s)) s
  else
    let pkt :=
      if st =? STATE_TOO_LARGE then be_bytes 2 TFTP_ERROR ++ be_bytes 2 3 ++ text "File too large"
      else if st =? STATE_BAD_MAGIC then be_bytes 2 TFTP_ERROR ++ be_bytes 2 2 ++ text "File has bad magic"
      else if st =? STATE_INVALID_OPTION
      then be_bytes 2 TFTP_ERROR ++ be_bytes 2 TFTP_ERR_OPTION_NEGOTIATION ++ text "Option Negotiation Failed"
      else [] in
    let s := net_send_udp_packet pkt s in
    if (st =? STATE_TOO_LARGE) || (st =? STATE_BAD_MAGIC) || (st =? STATE_INVALID_OPTION) then set_net_state NETLOOP_FAIL s else s.

(** ** Receiving *)

(** [strcasecmp(p, t) == 0] for a literal [t]. *)
Definition same_text (p : list Z) (t : String.string) : bool :=
  bool_decide (map tolower (cstr_at p).1 = map tolower (EnvAttr.lit t)).

(** One position of the option acknowledgement; [pkt] is what is behind the opcode. *)
Definition oack_option (pkt : list Z) (s : tftp) (i : nat) : tftp :=
  let at_ (k : nat) := (dectoul (cstr_at (drop (i + k) pkt)).1).1 in
  let here := same_text (drop i pkt) in
  let s :=
    if here "blksize"%string then
      let s := set_block_size (u16 (at_ 8%nat)) s in
      if block_size_option (opt s) <? block_size s then set_state STATE_INVALID_OPTION s else s
    else s in
  let s :=
    if here "timeout"%string && negb (u16 (at_ 8%nat) =? timeout_ms (opt s) / 1000) then set_state STATE_INVALID_OPTION s else s in
  let s := if TSIZE && here "tsize"%string then set_tsize (s32 (at_ 6%nat)) s else s in
  if here "windowsize"%string then set_windowsize (u16 (at_ 11%nat)) s else s.

Definition got_oack (pkt : list Z) (src len : Z) (s : tftp) : tftp :=
  let s := set_remote_port src (set_state STATE_OACK s) in
  let s := fold_left (oack_option pkt) (seq 0 (Z.to_nat (len - 8))) s in
  let s := set_next_ack (windowsize s) s in
  let s :=
    if put_active (opt s) && (state s =? STATE_OACK) then set_cur_block (cur_block s +64 1) (set_state STATE_DATA s) else s in
  tftp_send s.

Definition got_ack (block src : Z) (s : tftp) : tftp :=
  if put_active (opt s) then
    let s := set_timeout_count 0 s in
    if put_final_block_sent s then tftp_complete s
    else
      let ack_ok := cur_block s =? block in
      let s := set_prev_block (cur_block s) s in
      let s := set_cur_block (u16 (block + 1)) s in
      let s := update_block_number s in
      if ack_ok then
        let s := if (block =? 0) && (state s =? STATE_SEND_WRQ) then set_remote_port src (set_state STATE_DATA s) else s in
        tftp_send (set_timeout_count 0 s)
      else s
  else s.

(** A block that is not the next one. *)
Definition unexpected_block (block : Z) (s : tftp) : tftp :=
  if 0 <? u16 (cur_block s + 1) - s16 block then s
  else if negb (last_nack s =? cur_block s) then
    let s := tftp_send s in
    let s := set_last_nack (u16 (cur_block s)) s in
    set_next_ack (u16 (cur_block s + windowsize s)) s
  else s.

(** The next block, once it is known to be in order. *)
Definition next_block (data : list Z) (s : tftp) : tftp :=
  if cur_block s =? prev_block s then s
  else
    let s := update_block_number s in
    let s := set_prev_block (cur_block s) s in
    let s := set_timeout_count_max (tftp_timeout_count_max (opt s)) s in
    let '(ret, s) := store_block (s32 (cur_block s)) data s in
    if negb (ret =? 0) then set_net_state NETLOOP_FAIL s
    else
      let s := set_timeout_count 0 s in
      if Z.of_nat (length data) <? block_size s then tftp_complete (tftp_send s)
      else if cur_block s =? next_ack s then
        let s := tftp_send s in set_next_ack (u16 (next_ack s + windowsize s)) s
      else s.

Definition got_data (block src : Z) (data : list Z) (s : tftp) : tftp :=
  if negb (block =? u16 (cur_block s + 1)) then unexpected_block block s
  else
    let s := set_cur_block ((cur_block s +64 1) mod TFTP_SEQUENCE_SIZE) s in
    let s := if state s =? STATE_SEND_RRQ then set_next_ack (windowsize s) s else s in
    if (state s =? STATE_SEND_RRQ) || (state s =? STATE_OACK) || (state s =? STATE_RECV_WRQ) then
      let s := new_transfer (set_remote_port src (set_state STATE_DATA s)) in
      if negb (cur_block s =? 1) then net_start_again s else next_block data s
    else next_block data s.

Definition got_error (code : Z) (s : tftp) : tftp :=
  if (code =? TFTP_ERR_FILE_NOT_FOUND) || (code =? TFTP_ERR_ACCESS_DENIED) then set_net_state NETLOOP_FAIL s
  else net_start_again s.

(** [pkt] is the receive buffer, of which [len] bytes are the packet. *)
Definition tftp_handler (pkt : list Z) (dest src len : Z) (s : tftp) : tftp :=
  if negb (dest =? our_port s) then s
  else if negb (state s =? STATE_SEND_RRQ) && negb (src =? remote_port s) && negb (state s =? STATE_RECV_WRQ) &&
          negb (state s =? STATE_SEND_WRQ) then s
  else if len <? 2 then s
  else
    let proto := be_val (sub pkt 0 2) in
    let word := be_val (sub pkt 2 2) in
    if proto =? TFTP_ACK then got_ack word src s
    else if SRV && (proto =? TFTP_WRQ) then
      tftp_send (new_transfer (set_our_port random_port (set_remote_port src s)))
    else if proto =? TFTP_OACK then got_oack (drop 2 pkt) src (len - 2) s
    else if proto =? TFTP_DATA then
      if len - 2 <? 2 then s else got_data word src (sub pkt 4 (len - 4)) s
    else if proto =? TFTP_ERROR then got_error word s
    else s.

(** Somebody has no such port. *)
Definition icmp_handler (type code : Z) (s : tftp) : tftp :=
  if (type =? ICMP_NOT_REACH) && (code =? ICMP_NOT_REACH_PORT) then net_start_again s else s.

Definition tftp_timeout_handler (s : tftp) : tftp :=
  let s := set_timeout_count (timeout_count s + 1) s in
  if timeout_count_max s <? timeout_count s then net_start_again s
  else if negb (state s =? STATE_RECV_WRQ) then tftp_send s else s.

(** ** Starting *)

(** [saved] is the option that was capped before. *)
Definition sanitize_tftp_block_size_option (put : bool) (max_defrag option : Z) : Z * Z :=
  let cap := if negb put && negb (max_defrag =? 0) then Z.min (max_defrag - 32) 65464 else 1468 in
  if cap <? option then (u16 cap, option) else (option, 0).

(** The options from the environment, when they are set; CONFIG_NET_TFTP_VARS and
    CONFIG_TFTP_PORT are on. *)
Definition env_number (v : option (list Z)) (default : Z) : Z :=
  match v with Some t => (simple_strtol t 10).1 | None => default end.

Record settings := mk_settings {
  tftpblocksize : option (list Z); tftpwindowsize : option (list Z); tftptimeout : option (list Z);
  tftptimeoutcountmax : option (list Z); tftpdstp : option (list Z); tftpsrcp : option (list Z) }.

Definition start_options (put : bool) (max_defrag : Z) (saved : Z) (e : settings) (o : options) : options * Z :=
  let bs := if negb (saved =? 0) then u16 saved else block_size_option o in
  let bs := u16 (env_number (tftpblocksize e) bs) in
  let ws := u16 (env_number (tftpwindowsize e) (window_size_option o)) in
  let ms := u64 (env_number (tftptimeout e) (timeout_ms o)) in
  let ms := if ms <? 1000 then 1000 else ms in
  let mx := s32 (env_number (tftptimeoutcountmax e) (tftp_timeout_count_max o)) in
  let mx := if mx <? 0 then 0 else mx in
  let '(bs, saved) := sanitize_tftp_block_size_option put max_defrag bs in
  (mk_options (load_addr o) put bs ws ms mx (filename o) (image_save_addr o), saved).

(** Once the options and the file name are chosen; [image_save_size] is for saving. *)
Definition tftp_start (o : options) (e : settings) (image_save_size : Z) (s : tftp) : tftp :=
  let s := mk_tftp o WELL_KNOWN_PORT random_port 0 (tftp_timeout_count_max o) (cur_block s) (prev_block s) (block_wrap s)
    (block_wrap_offset s) (if put_active o then STATE_SEND_WRQ else STATE_SEND_RRQ) (tsize s) (windowsize s) (next_ack s)
    (last_nack s) (put_final_block_sent s) (block_size s)
    (if put_active o then u32 image_save_size else net_boot_file_size s) (net_state s) (mem s) (lmb s) (sent s) in
  let s := if put_active o then new_transfer s else s in
  let s := set_our_port (s32 (env_number (tftpsrcp e) (our_port s))) (set_remote_port (s32 (env_number (tftpdstp e) (remote_port s))) s) in
  let s := set_last_nack 0 (set_windowsize 1 (set_cur_block 0 s)) in
  let s := set_tsize 0 (set_block_size TFTP_BLOCK_SIZE s) in
  tftp_send s.

(** Waiting for a request of a client.  [tftp_put_active] stays as it was. *)
Definition tftp_start_server (image_load_addr : Z) (s : tftp) : tftp :=
  let o := opt s in
  mk_tftp
    (mk_options image_load_addr (put_active o) (block_size_option o) (window_size_option o) TIMEOUT
      (tftp_timeout_count_max o) [] (image_save_addr o))
    (remote_port s) WELL_KNOWN_PORT 0 (tftp_timeout_count_max o) 0 (prev_block s) (block_wrap s)
    (block_wrap_offset s) STATE_RECV_WRQ 0 1 1 (last_nack s) (put_final_block_sent s) TFTP_BLOCK_SIZE
    (net_boot_file_size s) (net_state s) (mem s) (lmb s) (sent s).

(** ** The loop *)
Inductive event :=
  | Packet (pkt : list Z) (dest src : Z)
  | Icmp (type code : Z)
  | Timeout.

(** Events are handled while the transfer goes on; that a failure may make [net_loop] start again is left out. *)
Definition handle (s : tftp) (e : event) : tftp :=
  match net_state s with
  | NETLOOP_CONTINUE =>
    match e with
    | Packet pkt dest src => tftp_handler pkt dest src (Z.of_nat (length pkt)) s
    | Icmp type code => icmp_handler type code s
    | Timeout => tftp_timeout_handler s
    end
  | _ => s
  end.

Definition net_loop (s : tftp) (es : list event) : tftp := fold_left handle es s.

End Client.
(** Fields of an updated record. *)
Ltac fields :=
  cbn [
    opt remote_port our_port timeout_count timeout_count_max cur_block prev_block block_wrap block_wrap_offset
    state tsize windowsize next_ack last_nack put_final_block_sent block_size net_boot_file_size net_state mem lmb
    sent set_remote_port set_our_port set_timeout_count set_timeout_count_max set_cur_block set_prev_block
    set_block_wrap set_block_wrap_offset set_state set_tsize set_windowsize set_next_ack set_last_nack
    set_put_final_block_sent set_block_size set_net_boot_file_size set_net_state set_mem set_lmb set_sent] in *.

End Tftp.
