(* ===== verification/TftpTransfer.v ===== *)
(** * File transfers (net/tftp.c)

    What the TFTP client of Tftp.v achieves: a file that a server sends arrives
    in memory, past the point where block numbers wrap and whatever is repeated or
    comes late, and a saved image is sent block by block. *)

From S2P Require Import Prelude Bytes EnvAttr Tftp.
Local Open Scope uboot_scope.
Local Open Scope Z_scope.

Module TftpTransfer.
Import Tftp.

Section Transfer.
Context {M : Type} `{LoadCheck M} (LMB TSIZE SRV retry : bool) (random_port : Z).
(** The file, the size of a block, and the address it goes to or comes from. *)
Context (F : list Z) (bs addr : Z).
Local Abbreviation N := (Z.of_nat (length F)).
Local Abbreviation tftp := (@Tftp.tftp M).
Hypothesis Hbs : 0 < bs <= 32768.
Hypothesis HN : N < 2 ^ 32 /\ 0 <= addr /\ addr + N < 2 ^ 64.

(** The number of blocks; the last one is short, and may be empty. *)
Definition blocks : Z := N / bs + 1.
Definition block (k : Z) : list Z := sub F ((k - 1) * bs) bs.
Definition data_packet (k : Z) : list Z := be_bytes 2 TFTP_DATA ++ be_bytes 2 k ++ block k.

Lemma blocks_spec k : 1 <= k <= blocks -> 0 <= (k - 1) * bs <= N /\ (k < blocks -> k * bs <= N) /\ (k = blocks -> N < k * bs).
Proof using Hbs HN.
  unfold blocks. intros Hk. pose proof (Z.div_mod N bs ltac:(lia)). pose proof (Z.mod_pos_bound N bs ltac:(lia)).
  split_and!; [nia|nia| |]; intros; nia.
Qed.

Lemma length_block k : 1 <= k <= blocks -> Z.of_nat (length (block k)) = Z.min bs (N - (k - 1) * bs).
Proof using Hbs HN.
  intros Hk. destruct (blocks_spec k Hk) as (? & _). unfold block, sub. rewrite length_take, length_drop. lia.
Qed.

(** ** Sending changes nothing else *)
Lemma send_quiet (s : tftp) : put_active (opt s) = false -> state s = STATE_SEND_RRQ \/ state s = STATE_OACK \/ state s = STATE_DATA ->
  exists l, tftp_send TSIZE s = set_sent l s.
Proof using. intros Hp [E|[E|E]]; unfold tftp_send; rewrite E, ?Hp; cbn; by eexists. Qed.

(** ** Loading *)
Context (o : options) (port srv : Z) (m0 : Z -> Z).
Hypothesis Ho : put_active o = false /\ load_addr o = addr.
Local Abbreviation handle := (Tftp.handle LMB TSIZE SRV retry random_port).

(** The first [n] bytes of the file are in memory, which is otherwise as before. *)
Definition loaded (s : tftp) (n : Z) : Prop :=
  net_boot_file_size s = n /\ forall a, mem s a = if (addr <=? a) && (a <? addr + n) then byteat F (a - addr) else m0 a.

Record common (s : tftp) : Prop := {
  c_state : net_state s = NETLOOP_CONTINUE;
  c_opt : opt s = o;
  c_port : our_port s = port;
  c_size : block_size s = bs }.

(** Before the first block, and after [c] blocks. *)
Record ready (s : tftp) : Prop := {
  r_common : common s;
  r_state : state s = STATE_SEND_RRQ \/ state s = STATE_OACK /\ remote_port s = srv;
  r_cur : cur_block s = 0;
  r_loaded : loaded s 0 }.

Record running (c : Z) (s : tftp) : Prop := {
  d_common : common s;
  d_state : state s = STATE_DATA;
  d_remote : remote_port s = srv;
  d_cur : cur_block s = c mod 65536;
  d_prev : prev_block s = c mod 65536;
  d_wrap : block_wrap_offset s = bs * 65536 * (c / 65536);
  d_loaded : loaded s (c * bs) }.

Definition waiting (c : Z) (s : tftp) : Prop := c = 0 /\ ready s \/ 1 <= c < blocks /\ running c s.

(** The offset of a block, with the wrapped numbers. *)
Lemma block_offset c : 0 <= c < blocks ->
  u64 (s32 ((c + 1) mod 65536 * bs) + bs * 65536 * ((c + 1) / 65536) - bs) = c * bs.
Proof using Hbs HN.
  intros Hc. pose proof (Z.div_mod (c + 1) 65536 ltac:(lia)) as D. pose proof (Z.mod_pos_bound (c + 1) 65536 ltac:(lia)) as B.
  destruct (blocks_spec (c + 1) ltac:(lia)) as (X & _). rewrite s32_small by nia. unfold u64. rewrite Z.mod_small; nia.
Qed.

(** Memory and size after the next block. *)
Lemma loaded_next (s s' : tftp) c : 0 <= c < blocks -> loaded s (c * bs) ->
  mem s' = store_bytes (mem s) (addr + c * bs) (block (c + 1)) ->
  net_boot_file_size s' = (if c * bs <? c * bs + Z.of_nat (length (block (c + 1))) then c * bs + Z.of_nat (length (block (c + 1))) else c * bs) ->
  loaded s' (Z.min ((c + 1) * bs) N).
Proof using Hbs HN.
  intros Hc [Hl1 Hl2] Em Es. destruct (blocks_spec (c + 1) ltac:(lia)) as (X1 & X2 & X3).
  pose proof (length_block (c + 1) ltac:(lia)) as Lb. replace (c + 1 - 1) with c in * by lia.
  set (len := Z.of_nat (length (block (c + 1)))) in *. assert (E : c * bs + len = Z.min ((c + 1) * bs) N) by lia. split.
  - rewrite Es. destruct (Z.ltb_spec (c * bs) (c * bs + len)); lia.
  - intros a. rewrite Em, <- E. unfold store_bytes. fold len. rewrite Hl2.
    destruct (Z.leb_spec (addr + c * bs) a), (Z.ltb_spec a (addr + c * bs + len)), (Z.leb_spec addr a), (Z.ltb_spec a (addr + c * bs)),
      (Z.ltb_spec a (addr + (c * bs + len))); cbn [andb]; try lia; try done.
    unfold block. replace (c + 1 - 1) with c by lia. rewrite byteat_sub by lia. f_equal. lia.
Qed.

(** The memory map does not let a block of the file be stored. *)
Definition refused : Prop :=
  LMB = true /\ exists m k, 1 <= k <= blocks /\ (lmb_read_check m (addr + (k - 1) * bs) (Z.of_nat (length (block k)))).1 <> 0.

(** The next block is stored where it belongs. *)
Lemma store_next (s : tftp) c : 0 <= c < blocks -> loaded s (c * bs) -> load_addr (opt s) = addr -> block_size s = bs ->
  block_wrap_offset s = bs * 65536 * ((c + 1) / 65536) ->
  let r := store_block LMB ((c + 1) mod 65536) (block (c + 1)) s in
  (r.1 = -1 /\ refused) \/
  (r.1 = 0 /\ loaded r.2 (Z.min ((c + 1) * bs) N) /\
   exists m g f, r.2 = set_net_boot_file_size f (set_mem g (set_lmb m s))).
Proof using Hbs HN.
  intros Hc Hl Ha Hb Hw. pose proof Hl as [Hl1 Hl2]. unfold store_block, refused. rewrite Hb, Hw, block_offset, Ha by done.
  destruct (blocks_spec (c + 1) ltac:(lia)) as (X1 & X2 & X3). pose proof (length_block (c + 1) ltac:(lia)) as Lb.
  replace (c + 1 - 1) with c in * by lia. set (len := Z.of_nat (length (block (c + 1)))) in *.
  rewrite (u64_small (addr + c * bs)) by lia. rewrite (proj2 (Z.ltb_ge _ _)) by lia. rewrite (u64_small (c * bs + len)) by lia.
  assert (G : forall m, let s1 := set_mem (store_bytes (mem s) (addr + c * bs) (block (c + 1))) (set_lmb m s) in
    let s2 := if net_boot_file_size s <? c * bs + len then set_net_boot_file_size (u32 (c * bs + len)) s1 else s1 in
    loaded s2 (Z.min ((c + 1) * bs) N) /\ exists m g f, s2 = set_net_boot_file_size f (set_mem g (set_lmb m s))).
  { intros m s1 s2. split.
    - apply (loaded_next s s2 c Hc Hl); unfold s2; rewrite Hl1; fold len.
      + by destruct (c * bs <? c * bs + len).
      + destruct (Z.ltb_spec (c * bs) (c * bs + len)); [|done]. apply u32_small. lia.
    - exists m, (store_bytes (mem s) (addr + c * bs) (block (c + 1))). unfold s2, s1.
      destruct (net_boot_file_size s <? c * bs + len); [by eexists|]. exists (net_boot_file_size s). by destruct s. }
  destruct LMB.
  - destruct (lmb_read_check (lmb s) (addr + c * bs) len) as [ret m] eqn:E. destruct (Z.eqb_spec ret 0) as [->|Nz]; cbn [negb].
    + right. fields. split; [done|]. apply (G m).
    + left. split; [done|].
      split; [done|]. exists (lmb s), (c + 1). split; [lia|]. fold len. replace (c + 1 - 1) with c by lia. by rewrite E.
  - right. cbn [fst snd]. split; [done|]. specialize (G (lmb s)). destruct s. exact G.
Qed.

Lemma update_wraps (s : tftp) c : 0 <= c < blocks -> block_size s = bs -> cur_block s = (c + 1) mod 65536 -> prev_block s = c mod 65536 ->
  block_wrap_offset s = bs * 65536 * (c / 65536) ->
  exists t b, update_block_number s = set_timeout_count t (set_block_wrap_offset (bs * 65536 * ((c + 1) / 65536)) (set_block_wrap b s)).
Proof using Hbs HN.
  intros Hc Hb Hcur Hprev Hw. unfold update_block_number. rewrite Hcur, Hprev. destruct (blocks_spec (c + 1) ltac:(lia)) as (X & _).
  pose proof (Z.div_mod (c + 1) 65536 ltac:(lia)) as D1. pose proof (Z.mod_pos_bound (c + 1) 65536 ltac:(lia)) as B1.
  pose proof (Z.div_mod c 65536 ltac:(lia)) as D2. pose proof (Z.mod_pos_bound c 65536 ltac:(lia)) as B2.
  destruct (Z.eqb_spec ((c + 1) mod 65536) 0) as [E|E]; cbn [andb].
  - assert (c mod 65536 = 65535 /\ (c + 1) / 65536 = c / 65536 + 1) as [E1 E2] by lia. rewrite E1, E2. cbn [Z.eqb negb]. fields. rewrite Hb, Hw.
    eexists _, _. rewrite (u64_small (_ + _ * _)) by (unfold TFTP_SEQUENCE_SIZE; nia). do 2 f_equal. unfold TFTP_SEQUENCE_SIZE. lia.
  - assert ((c + 1) / 65536 = c / 65536) as -> by lia. exists (timeout_count s), (block_wrap s). rewrite <- Hw. by destruct s.
Qed.

(** What the next block leads to. *)
Definition advanced (c : Z) (s : tftp) : Prop :=
  (net_state s = NETLOOP_FAIL /\ refused) \/
  (c + 1 < blocks /\ running (c + 1) s) \/ (c + 1 = blocks /\ net_state s = NETLOOP_SUCCESS /\ loaded s N).

Lemma next_block_advances (s : tftp) c : 0 <= c < blocks -> common s -> state s = STATE_DATA -> remote_port s = srv ->
  cur_block s = (c + 1) mod 65536 -> prev_block s = c mod 65536 -> block_wrap_offset s = bs * 65536 * (c / 65536) -> loaded s (c * bs) ->
  advanced c (next_block LMB TSIZE (block (c + 1)) s).
Proof using Hbs HN Ho.
  intros Hc [C1 C2 C3 C4] Hst Hr Hcur Hprev Hw Hl. unfold next_block.
  pose proof (Z.div_mod (c + 1) 65536 ltac:(lia)) as D1. pose proof (Z.mod_pos_bound (c + 1) 65536 ltac:(lia)) as B1.
  pose proof (Z.div_mod c 65536 ltac:(lia)) as D2. pose proof (Z.mod_pos_bound c 65536 ltac:(lia)) as B2.
  rewrite (proj2 (Z.eqb_neq _ _)) by lia. destruct (update_wraps s c Hc C4 Hcur Hprev Hw) as (t & b & ->).
  set (s1 := set_timeout_count_max _ _). assert (E1 : cur_block s1 = (c + 1) mod 65536) by done. rewrite E1, s32_small by lia.
  destruct Ho as [Ho1 Ho2]. destruct (store_next s1 c Hc) as [(L1 & L2)|(L1 & L2 & m & g & f & E)]; try done.
  { unfold s1. cbn. by rewrite C2. }
  - destruct (store_block _ _ _ _) as [ret s2]. cbn [fst snd] in *. subst ret. left. done.
  - destruct (store_block _ _ _ _) as [ret s2]. cbn [fst snd] in *. subst ret. cbn [Z.eqb negb].
    destruct (blocks_spec (c + 1) ltac:(lia)) as (X1 & X2 & X3). pose proof (length_block (c + 1) ltac:(lia)) as Lb.
    replace (c + 1 - 1) with c in Lb by lia. set (s3 := set_timeout_count 0 s2).
    assert (B3 : block_size s3 = bs) by (unfold s3; rewrite E; exact C4). rewrite B3.
    destruct (send_quiet s3) as [l El]; [unfold s3; rewrite E; cbn; by rewrite C2|right; right; unfold s3; by rewrite E|]. rewrite El.
    destruct (Z.ltb_spec (Z.of_nat (length (block (c + 1)))) bs) as [Short|Full].
    + right. right. assert (Hn : c + 1 = blocks) by (destruct (Z.eq_dec (c + 1) blocks); [done|]; specialize (X2 ltac:(lia)); lia).
      split_and!; [done|done|]. replace N with (Z.min ((c + 1) * bs) N) by lia. exact L2.
    + right. left. assert (Hn : c + 1 < blocks) by (destruct (Z.eq_dec (c + 1) blocks); [specialize (X3 ltac:(done)); lia|lia]).
      split; [done|]. rewrite Z.min_l in L2 by (specialize (X2 Hn); lia).
      assert (R : running (c + 1) s3).
      { unfold s3. rewrite E in *. split; try done. }
      destruct (cur_block s3 =? next_ack s3); [|exact R]. destruct R as [[]]. by split; [split|..].
Qed.


Lemma waiting_common c s : waiting c s -> common s /\ 0 <= c < blocks /\ put_active (opt s) = false /\
  (state s = STATE_SEND_RRQ \/ state s = STATE_OACK \/ state s = STATE_DATA) /\ cur_block s = c mod 65536.
Proof using Hbs HN Ho.
  intros [[-> [R1 R2 R3 R4]]|[Hc [R1 R2 R3 R4 R5 R6 R7]]].
  - pose proof R1 as [_ C2 _ _]. split_and!; [done|lia|unfold blocks; pose proof (Z.div_pos N bs); lia|rewrite C2; apply Ho|tauto|done].
  - pose proof R1 as [_ C2 _ _]. split_and!; [done|lia|lia|rewrite C2; apply Ho|tauto|done].
Qed.

(** Sent packets and acknowledgement numbers do not matter. *)
Lemma waiting_ack c s l n a : waiting c s -> waiting c (set_next_ack a (set_last_nack n (set_sent l s))).
Proof using. intros [[-> [[] ? ? ?]]|[Hc [[] ? ? ? ? ? ?]]]; [left|right]; split; try done; by split; [split|..]. Qed.

Lemma waiting_sent c s l : waiting c s -> waiting c (set_sent l s).
Proof using. intros [[-> [[] ? ? ?]]|[Hc [[] ? ? ? ? ? ?]]]; [left|right]; split; try done; by split; [split|..]. Qed.

Lemma unexpected_waits c s b : waiting c s -> waiting c (unexpected_block TSIZE b s).
Proof using Hbs HN Ho.
  intros W. destruct (waiting_common c s W) as (_ & _ & Hp & Hs & _). unfold unexpected_block.
  destruct (0 <? _); [done|]. destruct (negb _); [|done]. destruct (send_quiet s Hp Hs) as [l ->]. by apply waiting_ack.
Qed.

Lemma got_data_step c s k : waiting c s -> 1 <= k <= blocks -> c + 1 - 65536 < k < c + 1 + 65536 ->
  let s' := got_data LMB TSIZE retry (k mod 65536) srv (block k) s in
  if k =? c + 1 then advanced c s' else waiting c s'.
Proof using Hbs HN Ho.
  intros W Hk Hw s'. destruct (waiting_common c s W) as (Hc & Hb & Hp & Hs & Hcur). unfold s', got_data. rewrite Hcur.
  assert (E : u16 (c mod 65536 + 1) = (c + 1) mod 65536) by apply Zplus_mod_idemp_l. rewrite E.
  destruct (Z.eqb_spec k (c + 1)) as [->|Nk].
  - rewrite Z.eqb_refl. cbn [negb].
    assert (E2 : (c mod 65536 +64 1) mod TFTP_SEQUENCE_SIZE = (c + 1) mod 65536).
    { pose proof (Z.mod_pos_bound c 65536 ltac:(lia)). rewrite u64_small by lia. apply Zplus_mod_idemp_l. }
    rewrite E2. destruct W as [[-> [[C1 C2 C3 C4] R2 R3 R4]]|[Hc' [[C1 C2 C3 C4] R2 R3 R4 R5 R6 R7]]].
    + assert (A : forall s1 : tftp, common s1 -> loaded s1 0 ->
        advanced 0 (let s2 := new_transfer (set_remote_port srv (set_state STATE_DATA (set_cur_block 1 s1))) in
          if negb (cur_block s2 =? 1) then net_start_again retry s2 else next_block LMB TSIZE (block (0 + 1)) s2)).
      { intros s1 [] L1. cbn [new_transfer]. fields. cbn [Z.eqb negb]. apply next_block_advances; try done.
        change (0 / 65536) with 0. by rewrite Z.mul_0_r. }
      change ((0 + 1) mod 65536) with 1. fields.
      destruct R2 as [R2|[R2 _]]; rewrite R2; cbn [Z.eqb Pos.eqb STATE_SEND_RRQ STATE_OACK STATE_RECV_WRQ orb]; fields; rewrite ?R2;
        cbn [Z.eqb Pos.eqb STATE_SEND_RRQ STATE_OACK STATE_RECV_WRQ orb].
      * by apply (A (set_next_ack (windowsize s) s)); [split|].
      * by apply (A s); [split|].
    + fields. rewrite R2. cbn [Z.eqb Pos.eqb STATE_SEND_RRQ STATE_OACK STATE_RECV_WRQ STATE_DATA orb]. fields. rewrite R2.
      cbn [Z.eqb Pos.eqb STATE_SEND_RRQ STATE_OACK STATE_RECV_WRQ STATE_DATA orb]. by apply next_block_advances.
  - assert (k mod 65536 <> (c + 1) mod 65536).
    { intros X. pose proof (Z.div_mod k 65536 ltac:(lia)). pose proof (Z.div_mod (c + 1) 65536 ltac:(lia)). nia. }
    rewrite (proj2 (Z.eqb_neq _ _)) by done. cbn [negb]. by apply unexpected_waits.
Qed.

(** ** What arrives *)
Inductive arrival :=
  | Block (k : Z)                                  (* a block of the file, by its number from 1 *)
  | Stray (pkt : list Z) (dest src : Z)            (* something for or from somebody else *)
  | Late.                                          (* nothing, until the timer runs out *)

Definition event_of (a : arrival) : event :=
  match a with Block k => Packet (data_packet k) port srv | Stray pkt dest src => Packet pkt dest src | Late => Timeout end.

(** The number of blocks after what arrives. *)
Fixpoint received (c : Z) (l : list arrival) : Z :=
  match l with
  | [] => c
  | Block k :: l => received (if k =? c + 1 then c + 1 else c) l
  | _ :: l => received c l
  end.

(** No block is repeated or early by a whole cycle of 65536 numbers. *)
Fixpoint timely (c : Z) (l : list arrival) : Prop :=
  match l with
  | [] => True
  | Block k :: l => 1 <= k <= blocks /\ c + 1 - 65536 < k < c + 1 + 65536 /\ timely (if k =? c + 1 then c + 1 else c) l
  | Stray _ dest src :: l => (dest <> port \/ 1 <= c /\ src <> srv) /\ timely c l
  | Late :: l => timely c l
  end.

Lemma handle_block c s k : waiting c s -> 1 <= k <= blocks ->
  handle s (event_of (Block k)) = got_data LMB TSIZE retry (k mod 65536) srv (block k) s.
Proof using Hbs HN Ho.
  intros W Hk. destruct (waiting_common c s W) as ([C1 C2 C3 C4] & _). unfold Tftp.handle, event_of. rewrite C1.
  unfold tftp_handler. rewrite C3, Z.eqb_refl. cbn [negb].
  assert (negb (state s =? STATE_SEND_RRQ) && negb (srv =? remote_port s) && negb (state s =? STATE_RECV_WRQ) &&
    negb (state s =? STATE_SEND_WRQ) = false) as ->.
  { destruct W as [[_ [_ [R|[R1 R2]] _ _]]|[_ [_ R1 R2 _ _ _ _]]]; [by rewrite R|rewrite R1, R2, Z.eqb_refl; apply andb_false_iff..];
      left; apply andb_false_iff; left; by rewrite andb_false_r. }
  assert (L : Z.of_nat (length (data_packet k)) = 4 + Z.of_nat (length (block k))).
  { unfold data_packet. rewrite !length_app, !length_be_bytes. lia. }
  rewrite L, !(proj2 (Z.ltb_ge _ _)) by lia. unfold data_packet.
  assert (P1 : be_val (sub (be_bytes 2 TFTP_DATA ++ be_bytes 2 k ++ block k) 0 2) = 3) by done.
  assert (P2 : be_val (sub (be_bytes 2 TFTP_DATA ++ be_bytes 2 k ++ block k) 2 2) = k mod 65536).
  { unfold sub. change (Z.to_nat 2) with 2%nat. rewrite (drop_app_length' (be_bytes 2 TFTP_DATA)) by done.
    rewrite take_app_length' by done. unfold be_val, be_bytes. by rewrite rev_involutive, le_val_bytes. }
  rewrite P1, P2. cbn [Z.eqb Pos.eqb TFTP_ACK TFTP_WRQ TFTP_OACK TFTP_DATA andb]. rewrite andb_false_r. f_equal.
  unfold sub. rewrite app_assoc. rewrite drop_app_length' by done. apply take_ge. lia.
Qed.

Lemma handle_late c s : waiting c s ->
  net_state (handle s Timeout) = NETLOOP_RESTART \/ net_state (handle s Timeout) = NETLOOP_FAIL \/ waiting c (handle s Timeout).
Proof using Hbs HN Ho.
  intros W. destruct (waiting_common c s W) as ([C1 C2 C3 C4] & _ & Hp & Hs & _). unfold Tftp.handle. rewrite C1. unfold tftp_timeout_handler.
  destruct (_ <? _); [destruct retry; [by left|by right; left]|]. right. right.
  assert (W' : waiting c (set_timeout_count (timeout_count s + 1) s)).
  { destruct W as [[-> [[] ? ? ?]]|[Hc [[] ? ? ? ? ? ?]]]; [left|right]; split; try done; by split; [split|..]. }
  destruct (negb _); [|done]. destruct (send_quiet (set_timeout_count (timeout_count s + 1) s)) as [l ->]; [done|done|]. by apply waiting_sent.
Qed.

Lemma net_loop_over s es : net_state s <> NETLOOP_CONTINUE -> net_loop LMB TSIZE SRV retry random_port s es = s.
Proof using.
  intros E. induction es as [|e es IH]; [done|]. cbn [net_loop fold_left].
  assert (handle s e = s) as -> by (unfold Tftp.handle; by destruct (net_state s)). exact IH.
Qed.

(** How a transfer can stand. *)
Definition standing (c : Z) (l : list arrival) (s : tftp) : Prop :=
  match net_state s with
  | NETLOOP_CONTINUE => waiting c s
  | NETLOOP_SUCCESS => c = blocks /\ loaded s N
  | NETLOOP_RESTART => Late ∈ l
  | NETLOOP_FAIL => Late ∈ l \/ refused
  end.

Lemma received_over c l : timely c l -> blocks <= c -> received c l = c.
Proof using.
  revert c. induction l as [|[k|pkt d sr|] l IH]; intros c T Hc; cbn [received timely] in *; [done| | |].
  - destruct T as (T1 & T2 & T3). rewrite (proj2 (Z.eqb_neq _ _)) in * by lia. by apply IH.
  - apply IH; [apply T|done].
  - by apply IH.
Qed.

Lemma loop_from l : forall c s, waiting c s -> timely c l ->
  standing (received c l) l (net_loop LMB TSIZE SRV retry random_port s (map event_of l)).
Proof using Hbs HN Ho.
  induction l as [|a l IH]; intros c s W T.
  - cbn [received map net_loop fold_left]. unfold standing. destruct (waiting_common c s W) as ([C1 _ _ _] & _). by rewrite C1.
  - cbn [map]. change (net_loop LMB TSIZE SRV retry random_port s (event_of a :: map event_of l)) with
      (net_loop LMB TSIZE SRV retry random_port (handle s (event_of a)) (map event_of l)).
    assert (Wk : forall s' c', standing c' l s' -> standing c' (a :: l) s').
    { intros s' c'. unfold standing. destruct (net_state s'); [done|intros; by right|done|].
      intros [Hs|Hs]; [left; by right|by right]. }
    destruct a as [k|pkt dest src|]; cbn [received timely] in *.
    + destruct T as (T1 & T2 & T3). rewrite (handle_block c) by done. pose proof (got_data_step c s k W T1 T2) as G. cbv zeta in G.
      destruct (Z.eqb_spec k (c + 1)) as [->|Nk]; [|by apply Wk, IH]. destruct G as [(G1 & G2)|[[G1 G2]|(G1 & G2 & G3)]].
      * rewrite net_loop_over by (by rewrite G1). unfold standing. rewrite G1. by right.
      * apply Wk, IH; [|done]. right. split; [|done]. destruct (waiting_common c s W) as (_ & ? & _). lia.
      * rewrite net_loop_over by (by rewrite G2). unfold standing. rewrite G2. split; [|done]. rewrite received_over by (done || lia). done.
    + destruct T as [T1 T2]. assert (handle s (event_of (Stray pkt dest src)) = s) as ->; [|by apply Wk, IH].
      destruct (waiting_common c s W) as ([C1 C2 C3 C4] & _). unfold Tftp.handle, event_of. rewrite C1. unfold tftp_handler. rewrite C3.
      destruct T1 as [T1|[T1 T3]]; [by rewrite (proj2 (Z.eqb_neq _ _) T1)|]. destruct (dest =? port); cbn [negb]; [|done].
      destruct W as [[-> _]|[_ [_ R1 R2 _ _ _ _]]]; [lia|]. rewrite R1, R2, (proj2 (Z.eqb_neq _ _) T3). done.
    + change (event_of Late) with Timeout. destruct (handle_late c s W) as [E|[E|W']].
      * rewrite net_loop_over by (by rewrite E). unfold standing. rewrite E. left.
      * rewrite net_loop_over by (by rewrite E). unfold standing. rewrite E. left. left.
      * by apply Wk, IH.
Qed.


(** A transfer that has just been started is ready for blocks of 512 bytes. *)
Lemma tftp_start_ready (e : settings) (size : Z) (s : tftp) : bs = TFTP_BLOCK_SIZE -> tftpsrcp e = None -> port = s32 random_port ->
  net_state s = NETLOOP_CONTINUE -> net_boot_file_size s = 0 -> mem s = m0 -> ready (tftp_start TSIZE random_port o e size s).
Proof using Hbs Ho.
  intros -> He -> Hs Hf Hm. unfold tftp_start. destruct Ho as [Ho1 Ho2]. rewrite Ho1. fields. rewrite He. cbn [env_number].
  match goal with |- context [tftp_send TSIZE ?x] => destruct (send_quiet x) as [l El] end; [done|by left|]. rewrite El.
  repeat split; try done; [by left|]. intros a. fields. rewrite Hm. destruct (_ <=? _) eqn:?, (_ <? _) eqn:?; try done; cbn [andb]; lia.
Qed.

End Transfer.

(** ** Saving *)
Section Saving.
Context {M : Type} `{LoadCheck M} (LMB TSIZE SRV retry : bool) (random_port : Z).
Context (F : list Z) (bs addr : Z).
Local Abbreviation N := (Z.of_nat (length F)).
Local Abbreviation tftp := (@Tftp.tftp M).
Hypothesis Hbs : 0 < bs <= 32768.
Hypothesis HN : N < 2 ^ 32 /\ 0 <= addr /\ addr + N < 2 ^ 64.
Context (o : options) (port srv : Z) (m0 : Z -> Z).
(** The request and the port it is sent to. *)
Context (wrq : Z * list Z).
(** The image is in memory. *)
Hypothesis Ho : put_active o = true /\ image_save_addr o = addr /\ forall i, 0 <= i < N -> m0 (addr + i) = byteat F i.
Local Abbreviation blocks := (blocks F bs).
Local Abbreviation block := (block F bs).
Local Abbreviation handle := (Tftp.handle LMB TSIZE SRV retry random_port).

(** The state when the acknowledgement of block [c] is awaited, of the request for 0. *)
Record saving (c : Z) (s : tftp) : Prop := {
  v_state : net_state s = NETLOOP_CONTINUE;
  v_opt : opt s = o;
  v_port : our_port s = port;
  v_size : block_size s = bs;
  v_file : net_boot_file_size s = N;
  v_mem : mem s = m0;
  v_count : 0 <= c <= blocks;
  v_phase : c = 0 /\ state s = STATE_SEND_WRQ /\ (remote_port s, request TSIZE s) = wrq \/ 1 <= c /\ state s = STATE_DATA /\ remote_port s = srv;
  v_cur : cur_block s = c mod 65536;
  v_wrap : block_wrap_offset s = bs * 65536 * (c / 65536);
  v_final : put_final_block_sent s = bool_decide (c = blocks) }.

Lemma load_block_spec (s : tftp) c : 1 <= c <= blocks -> opt s = o -> block_size s = bs -> net_boot_file_size s = N -> mem s = m0 ->
  block_wrap_offset s = bs * 65536 * (c / 65536) -> load_block (c mod 65536) bs s = block c.
Proof using Hbs HN Ho.
  intros Hc Eo Eb En Em Ew. unfold load_block. rewrite Eo, Eb, En, Em, Ew. destruct Ho as (_ & -> & Hm).
  destruct (blocks_spec F bs addr Hbs HN c Hc) as (X & _).
  pose proof (Z.div_mod c 65536 ltac:(lia)) as D. pose proof (Z.mod_pos_bound c 65536 ltac:(lia)) as B.
  assert (O : u64 (u32 (c mod 65536 * bs) + bs * 65536 * (c / 65536) - bs) = (c - 1) * bs).
  { rewrite u32_small by nia. rewrite u64_small; nia. }
  rewrite O, !u64_small by lia. unfold load_bytes, TftpTransfer.block, sub. apply list_eq. intros i.
  rewrite list_lookup_fmap. destruct (decide (i < Z.to_nat (Z.min (N - (c - 1) * bs) bs))%nat) as [Hi|Hi].
  - rewrite lookup_seq_lt by done. cbn [fmap option_fmap option_map]. rewrite lookup_take_lt, lookup_drop by lia.
    destruct (lookup_lt_is_Some_2 F (Z.to_nat ((c - 1) * bs) + i)) as [v Ev]; [lia|]. rewrite Ev. f_equal.
    rewrite <- Z.add_assoc, Hm by lia. unfold byteat.
    replace (Z.to_nat ((c - 1) * bs + Z.of_nat (0 + i))) with (Z.to_nat ((c - 1) * bs) + i)%nat by lia.
    by rewrite (nth_lookup_Some _ _ _ _ Ev).
  - rewrite lookup_seq_ge by lia. cbn. symmetry. apply lookup_ge_None. rewrite length_take, length_drop. lia.
Qed.

(** What is sent for block [c], and what is answered. *)
Definition ack_packet (c : Z) : list Z := be_bytes 2 TFTP_ACK ++ be_bytes 2 c.

Lemma send_block (s : tftp) c : 1 <= c <= blocks -> saving c (set_put_final_block_sent (bool_decide (c = blocks)) s) ->
  tftp_send TSIZE s = set_sent (sent s ++ [(srv, data_packet F bs c)]) (set_put_final_block_sent (bool_decide (c = blocks)) s).
Proof using Hbs HN Ho.
  intros Hc [V1 V2 V3 V4 V5 V6 V7 V8 V9 V10 V11]. fields. destruct V8 as [[V8 _]|(_ & Hs & Hr)]; [lia|].
  unfold tftp_send. rewrite Hs, V2. cbn [Z.eqb Pos.eqb STATE_SEND_RRQ STATE_SEND_WRQ STATE_OACK STATE_RECV_WRQ STATE_DATA orb].
  rewrite (proj1 Ho), V4, V9. pose proof (Z.mod_pos_bound c 65536 ltac:(lia)) as B. rewrite u32_small by lia.
  rewrite (load_block_spec s c) by done.
  assert (L : (Z.of_nat (length (block c)) <? bs) = bool_decide (c = blocks)).
  { destruct (blocks_spec F bs addr Hbs HN c Hc) as (X1 & X2 & X3). pose proof (length_block F bs addr Hbs HN c Hc) as Lb.
    case_bool_decide; [specialize (X3 ltac:(done))|specialize (X2 ltac:(lia))]; lia. }
  rewrite L. unfold net_send_udp_packet. fields. rewrite Hr, V9. unfold data_packet.
  assert (E : be_bytes 2 (c mod 65536) = be_bytes 2 c); [|by rewrite E].
  unfold be_bytes. f_equal. change 65536 with (256 ^ Z.of_nat 2). rewrite <- le_val_bytes. apply (le_bytes_val (le_bytes 2 c)), le_bytes_u8.
Qed.

Lemma ack_step c (s : tftp) : saving c s -> let s' := handle s (Packet (ack_packet c) port srv) in
  if c =? blocks then net_state s' = NETLOOP_SUCCESS /\ sent s' = sent s
  else saving (c + 1) s' /\ sent s' = sent s ++ [(srv, data_packet F bs (c + 1))].
Proof using Hbs HN Ho.
  intros V s'. pose proof V as [V1 V2 V3 V4 V5 V6 V7 V8 V9 V10 V11].
  assert (E : s' = got_ack TSIZE (c mod 65536) srv s).
  { unfold s', Tftp.handle. rewrite V1. unfold tftp_handler. rewrite V3, Z.eqb_refl. cbn [negb].
    assert (negb (state s =? STATE_SEND_RRQ) && negb (srv =? remote_port s) && negb (state s =? STATE_RECV_WRQ) &&
      negb (state s =? STATE_SEND_WRQ) = false) as ->.
    { destruct V8 as [(_ & -> & _)|(_ & -> & ->)]; [apply andb_false_r|]. by rewrite Z.eqb_refl. }
    assert (P2 : be_val (sub (ack_packet c) 2 2) = c mod 65536).
    { unfold ack_packet, sub. change (Z.to_nat 2) with 2%nat. rewrite (drop_app_length' (be_bytes 2 TFTP_ACK)) by done.
      rewrite take_ge by done. unfold be_val, be_bytes. by rewrite rev_involutive, le_val_bytes. }
    rewrite P2. done. }
  rewrite E. clear E s'. unfold got_ack. rewrite V2, (proj1 Ho). fields. rewrite V11. destruct (Z.eqb_spec c blocks) as [->|Nc].
  { by rewrite bool_decide_eq_true_2. }
  rewrite bool_decide_eq_false_2 by done. rewrite V9, Z.eqb_refl. cbv zeta.
  assert (E : u16 (c mod 65536 + 1) = (c + 1) mod 65536) by apply Zplus_mod_idemp_l. rewrite E.
  match goal with |- context [update_block_number ?x] => destruct (update_wraps F bs addr Hbs HN x c) as (t & b & ->) end; try done; [lia|].
  set (s1 := if _ : bool then _ else _). assert (S1 : saving (c + 1) (set_put_final_block_sent (bool_decide (c + 1 = blocks)) (set_timeout_count 0 s1)) /\ sent s1 = sent s).
  { unfold s1. destruct V8 as [(-> & Hs & _)|(Hc & Hs & Hr)].
    - change (0 mod 65536 =? 0) with true. fields. rewrite Hs. cbn [Z.eqb Pos.eqb STATE_SEND_WRQ andb]. split; [|done].
      split; fields; try done; [lia|right; split_and!; done || lia].
    - fields. rewrite Hs, andb_false_r. split; [|done]. split; fields; try done; [lia|right; split_and!; done || lia]. }
  destruct S1 as [S1 S2]. rewrite (send_block _ (c + 1)) by (done || lia). fields. rewrite S2. split; [|done].
  destruct S1. by split.
Qed.

(** A timeout repeats what was sent last. *)
Definition repeated (c : Z) : Z * list Z := if c =? 0 then wrq else (srv, data_packet F bs c).

Lemma silence_step c (s : tftp) : saving c s -> let s' := handle s Timeout in
  net_state s' = NETLOOP_RESTART \/ net_state s' = NETLOOP_FAIL \/ saving c s' /\ sent s' = sent s ++ [repeated c].
Proof using Hbs HN Ho.
  intros V s'. pose proof V as [V1 V2 V3 V4 V5 V6 V7 V8 V9 V10 V11]. unfold s', Tftp.handle. rewrite V1. unfold tftp_timeout_handler.
  destruct (_ <? _); [destruct retry; [by left|by right; left]|]. right. right. fields. unfold repeated.
  destruct V8 as [(-> & Hs & Hw)|(Hc & Hs & Hr)]; rewrite Hs; cbn [Z.eqb Pos.eqb STATE_SEND_WRQ STATE_DATA STATE_RECV_WRQ negb].
  - unfold tftp_send. fields. rewrite Hs. cbn [Z.eqb Pos.eqb STATE_SEND_RRQ STATE_SEND_WRQ orb]. unfold net_send_udp_packet. fields.
    rewrite <- Hw. split; [|done]. split; try done. left. by split_and!.
  - rewrite (send_block _ c) by (lia || (split; try done; by right)). fields. rewrite (proj2 (Z.eqb_neq _ _)) by lia.
    split; [|done]. split; try done. by right.
Qed.

(** ** What is answered *)
Inductive answer := Acked | Silence.

Fixpoint acked (c : Z) (l : list answer) : Z :=
  match l with [] => c | Acked :: l => acked (c + 1) l | Silence :: l => acked c l end.

Fixpoint answers (c : Z) (l : list answer) : list event :=
  match l with
  | [] => []
  | Acked :: l => Packet (ack_packet c) port srv :: answers (c + 1) l
  | Silence :: l => Timeout :: answers c l
  end.

(** The packets of a transfer. *)
Fixpoint put_log (c : Z) (l : list answer) : list (Z * list Z) :=
  if blocks <? c then []
  else match l with
  | [] => []
  | Acked :: l => (if c =? blocks then [] else [(srv, data_packet F bs (c + 1))]) ++ put_log (c + 1) l
  | Silence :: l => repeated c :: put_log c l
  end.

Lemma acked_mono c l : c <= acked c l.
Proof using. clear. revert c. induction l as [|[] l IH]; intros c; cbn [acked]; [lia| |apply IH]. specialize (IH (c + 1)). lia. Qed.

Lemma put_log_over c l : blocks < c -> put_log c l = [].
Proof using. intros. destruct l; cbn [put_log]; by rewrite (proj2 (Z.ltb_lt _ _)). Qed.

(** C23: an image is saved whole and in order.  The server answers each packet with the acknowledgement
    whose turn it is, or not at all.  Each acknowledgement then makes the client send the next block of the
    image, the last one short, with its number modulo 65536; each timeout makes it repeat what it sent last; with
    the acknowledgement of the last block, and not before, the transfer is a success.  (An acknowledgement out
    of turn can end it too early, see [old_ack_completes].) *)
Theorem tftp_put_sends (l : list answer) : forall c (s0 : tftp), saving c s0 ->
  let s := net_loop LMB TSIZE SRV retry random_port s0 (answers c l) in
  match net_state s with
  | NETLOOP_CONTINUE => acked c l <= blocks /\ sent s = sent s0 ++ put_log c l
  | NETLOOP_SUCCESS => blocks < acked c l /\ sent s = sent s0 ++ put_log c l
  | NETLOOP_RESTART | NETLOOP_FAIL => Silence ∈ l
  end.
Proof using Hbs HN Ho.
  induction l as [|a l IH]; intros c s0 V; cbv zeta; pose proof (v_state _ _ V) as V1; pose proof (v_count _ _ V) as V7.
  - cbn [answers net_loop fold_left acked put_log]. rewrite V1, (proj2 (Z.ltb_ge _ _)), app_nil_r by lia. by split; [lia|].
  - assert (L : forall e es, net_loop LMB TSIZE SRV retry random_port s0 (e :: es) = net_loop LMB TSIZE SRV retry random_port (handle s0 e) es) by done.
    destruct a; cbn [answers acked put_log]; rewrite L, (proj2 (Z.ltb_ge _ _)) by lia.
    + pose proof (ack_step c s0 V) as A. cbv zeta in A. destruct (Z.eqb_spec c blocks) as [->|Nc].
      * destruct A as [A1 A2]. rewrite net_loop_over, A1, A2, put_log_over, !app_nil_r by (lia || by rewrite A1).
        pose proof (acked_mono (blocks + 1) l). by split; [lia|].
      * destruct A as [A1 A2]. specialize (IH (c + 1) _ A1). cbv zeta in IH. rewrite A2, <- app_assoc in IH.
        destruct (net_state _); try done; by right.
    + destruct (silence_step c s0 V) as [A|[A|[A1 A2]]]; [rewrite net_loop_over, A by (by rewrite A); left..|].
      specialize (IH c _ A1). cbv zeta in IH. rewrite A2, <- app_assoc in IH. destruct (net_state _); try done; by right.
Qed.

Lemma send_request (s : tftp) : state s = STATE_SEND_WRQ -> exists l, tftp_send TSIZE s = set_sent l s.
Proof using. intros E. unfold tftp_send. rewrite E. by eexists. Qed.

(** A transfer that has just been started awaits the acknowledgement of its request. *)
Lemma tftp_start_saving (e : settings) (s : tftp) : bs = TFTP_BLOCK_SIZE -> tftpsrcp e = None -> port = s32 random_port ->
  net_state s = NETLOOP_CONTINUE -> mem s = m0 ->
  (let s' := tftp_start TSIZE random_port o e N s in (remote_port s', request TSIZE s') = wrq) ->
  saving 0 (tftp_start TSIZE random_port o e N s).
Proof using Hbs HN Ho.
  intros Eb He Ep Hs Hm Hw. cbv zeta in Hw. set (s' := tftp_start _ _ _ _ _ _) in *.
  assert (1 <= blocks) by (unfold TftpTransfer.blocks; pose proof (Z.div_pos N bs); lia).
  assert (P : (net_state s' = NETLOOP_CONTINUE /\ opt s' = o /\ our_port s' = s32 random_port /\ block_size s' = TFTP_BLOCK_SIZE) /\
    (net_boot_file_size s' = u32 N /\ mem s' = m0 /\ state s' = STATE_SEND_WRQ /\ cur_block s' = 0) /\
    block_wrap_offset s' = 0 /\ put_final_block_sent s' = false).
  { unfold s', tftp_start. rewrite (proj1 Ho). fields. rewrite He. cbn [env_number].
    match goal with |- context [tftp_send TSIZE ?x] => destruct (send_request x) as [l ->] end; [done|]. by split_and!. }
  clearbody s'. destruct P as ((P1 & P2 & P3 & P4) & (P5 & P6 & P7 & P8) & P9 & P10). split; try done || congruence.
  - rewrite P5. apply u32_small. lia.
  - lia.
  - left. by split_and!.
  - rewrite P9, Z.div_0_l, Z.mul_0_r by done. reflexivity.
  - rewrite bool_decide_eq_false_2 by lia. done.
Qed.

End Saving.

(** ** A transfer *)

(** Seven bytes in blocks of three, which the server agrees to; the second block comes twice, after a
    timeout and a packet of somebody else. *)
Definition sample_file : list Z := [85; 45; 66; 111; 111; 116; 33].
Definition sample_options : options := mk_options 4096 false 1468 1 5000 10 (EnvAttr.lit "image"%string) 0.
#[local] Instance no_map : LoadCheck unit := fun m _ _ => (0, m).
Definition sample_start : @Tftp.tftp unit :=
  tftp_start false 2000 sample_options (mk_settings None None None None None None) 0
    (mk_tftp sample_options 0 0 0 0 0 0 0 0 0 0 0 0 0 false 0 0 NETLOOP_CONTINUE (fun _ => 0) tt []).
Definition sample_ready : @Tftp.tftp unit :=
  handle false false false false 2000 sample_start (Packet (be_bytes 2 TFTP_OACK ++ text "blksize" ++ number 3) 2000 3000).
Definition sample_arrivals : list arrival :=
  [Block 1; Late; Block 3; Block 2; Block 2; Stray [0; 5; 0; 0] 2000 3001; Block 3].


(** The same bytes saved, in blocks of 512 and with one timeout. *)
Definition sample_put : @Tftp.tftp unit :=
  tftp_start false 2000 (mk_options 0 true 512 1 5000 10 (EnvAttr.lit "image"%string) 4096) (mk_settings None None None None None None) 7
    (mk_tftp sample_options 0 0 0 0 0 0 0 0 0 0 0 0 0 false 0 0 NETLOOP_CONTINUE (fun a => byteat sample_file (a - 4096)) tt []).

Lemma tftp_put_sends_witness :
  let s := net_loop false false false false 2000 sample_put (answers 2000 3000 0 [Acked; Silence; Acked]) in
  net_state s = NETLOOP_SUCCESS /\ sent s = sent sample_put ++ [(3000, data_packet sample_file 512 1); (3000, data_packet sample_file 512 1)].
Proof.
  pose proof (@tftp_put_sends unit no_map false false false false 2000 sample_file 512 4096 ltac:(lia)
    ltac:(vm_compute; repeat split; congruence) (opt sample_put) 2000 3000 (mem sample_put) (69, request false sample_put)) as G.
  cbv zeta. specialize (G ltac:(split; [reflexivity|split; [reflexivity|]]; intros i Hi;
    change (mem sample_put (4096 + i)) with (byteat sample_file (4096 + i - 4096)); f_equal; lia)).
  specialize (G [Acked; Silence; Acked] 0 sample_put). cbv zeta in G. set (s := net_loop _ _ _ _ _ _ _) in *.
  assert (E : net_state s = NETLOOP_SUCCESS) by (vm_compute; reflexivity). clearbody s. rewrite E in G. split; [exact E|].
  apply G. split; try reflexivity; [change (blocks sample_file 512) with 1; lia|left; split_and!; reflexivity].
Defined.

(** ** What goes wrong *)
Definition sample_event (a : arrival) : event := event_of sample_file 3 2000 3000 a.

(** A second copy of the option acknowledgement, after the first block, makes the transfer start again. *)
Lemma oack_repeated_restarts :
  let oack := Packet (be_bytes 2 TFTP_OACK ++ text "blksize" ++ number 3) 2000 3000 in
  net_state (net_loop false false false true 2000 sample_start [oack; sample_event (Block 1); oack; sample_event (Block 2)]) = NETLOOP_RESTART.
Proof. vm_compute. reflexivity. Qed.

(** When block 40000 is lost, block 40001 is taken for an old one and nothing is asked for; 1001 after 999 is. *)
Lemma nack_above_half :
  let waits n := set_cur_block n (set_state STATE_DATA sample_ready) in
  length (sent (unexpected_block false 40001 (waits 39999))) = length (sent sample_ready) /\
  length (sent (unexpected_block false 1001 (waits 999))) = S (length (sent sample_ready)).
Proof. vm_compute. split; reflexivity. Qed.

(** Blocks of more than 32768 bytes: the product is negative past 2 GiB, and the data goes below the load address. *)
Lemma large_block_below :
  let s := set_block_size 65464 sample_ready in
  let s' := (store_block false 32805 [170] s).2 in
  mem s' (4096 + 32804 * 65464) = 0 /\ mem s' (u64 (4096 + 32804 * 65464 - 2 ^ 32)) = 170.
Proof. vm_compute. split; reflexivity. Qed.

(** Any acknowledgement completes the transfer once the last block is sent, also one of an earlier block. *)
Lemma old_ack_completes :
  net_state (net_loop false false false true 2000 sample_put
    [Packet (ack_packet 0) 2000 3000; Packet (ack_packet 0) 2000 3000]) = NETLOOP_SUCCESS.
Proof. vm_compute. reflexivity. Qed.

(** A server that is started after a put answers a write request with the 512 bytes before the old image. *)
Lemma server_after_put :
  let s := tftp_start_server 8192 sample_put in
  last (sent (handle false false true true 2500 s (Packet (be_bytes 2 TFTP_WRQ ++ text "x" ++ text "octet") 69 3000))) =
  Some (3000, be_bytes 2 TFTP_DATA ++ be_bytes 2 0 ++ load_bytes (mem sample_put) (4096 - 512) 512).
Proof. vm_compute. reflexivity. Qed.

End TftpTransfer.
